(* ===== verification/_CoqProject ===== *)
-Q . S2P
Prelude.v
Bytes.v
Lists.v
CString.v
Memory.v
Heap.v
HeapInv.v
Pmm.v
PmmSpec.v
PmmInit.v
VfsPath.v
Vfs.v
VfsHandle.v
VfsCache.v
VfsResolve.v
Ramfs.v
RamfsTree.v
RamfsSpec.v
Convert.v
Buffer.v
BlockDevice.v
DiskStream.v
DiskRead.v
Volume.v
VolumeScan.v
Fat.v
FatSpec.v
FatDir.v
FsWorld.v
FatNode.v
FatNodeSpec.v
Iso9660.v
IsoSpec.v
Printf.v
PrintfSpec.v
KeyLayouts.v
Ps2Controller.v
Ps2Keyboard.v
KeyboardSpec.v
Gfx.v
GfxSpec.v
GfxScreen.v
Ps2Mouse.v
Bmp.v
Callbacks.v
X86.v
U64.v
Bits.v
Mtrr.v
MtrrSpec.v
Paging.v
PagingSpec.v
Ntfs.v
NtfsNode.v
NtfsSpec.v
NtfsOverlay.v
Gfxterm.v
GfxtermSpec.v
GfxtermPage.v
Multiboot2.v
Multiboot2Spec.v
