(* ===== verification/Prelude.v ===== *)
(** * AtomOS: a verification library for the kernel

    AtomOS ([src/kernel], headers in [src/kernel_include]) is a C kernel built
    for i386 and x86_64.  This library models its memory management, its
    containers, strings and formatted output, its storage stack with four file
    systems, its keyboard, mouse, graphics and text terminal, and its page
    tables as executable functions, and proves what makes them correct.

    ** Parts of the program and how they meet

    The boot loader's tags ([boot/multiboot2.c]) give the memory map.  The
    physical memory manager ([memory/pmm.c]) turns it into a list of regions
    and hands out page runs.  The heap ([memory/heap.c]) cuts such runs into
    blocks; [memory/memory.c] gives it the names [malloc] and [free].  Lists
    ([list.c]) and strings ([util/string.c]) are built on it; the manager
    itself keeps its regions in such a list, so the two allocators call each
    other.  Page tables and memory types are set up by [amd64/paging.c] and
    [i386/paging.c]; on i386 the compiler calls [gcc_u64.asm] for 64-bit
    arithmetic.

    The virtual file system ([filesystem/VFS.c]) keeps file systems, mounts and
    a path cache in lists, and calls the drivers through tables of functions:
    ramfs in memory, and FAT, ISO 9660 and NTFS on volumes.  A volume
    ([storage/VolumeManager.c]) is a part of a block device
    ([storage/BlockDevice.c]) that a partition table describes.
    [stream/DiskStream.c] gives byte access to a device, [stream/FileStream.c]
    wraps handles.

    The PS/2 keyboard queues events ([buffer.c]) that the keyboard stream turns
    into characters; the mouse moves a cursor.  [graphics/gfx.c] draws into
    pixel buffers and shows the first registered one; the terminal
    ([gfxterm/gfxterm.c]) draws characters into such a buffer, [graphics/bmp.c]
    loads pictures.  Drivers, events and periodic tasks are registries of
    functions that are called back.

    ** Files

    - [Prelude]: targets, wrapped arithmetic, tactics, generic lemmas.
      [Bytes]: byte sequences, little-endian fields, parts of a buffer.
      [Bits]: masks of machine words.
    - [Lists]: [list.c] on a store of nodes (state: the node map and the
      [List] record with head, tail and count), and its abstract sequence.
      [Buffer]: [buffer.c], a queue in a chain of nodes.
    - [CString]: [util/string.c] on byte arrays.  [Convert]: [util/convert.c].
      [Printf], [PrintfSpec]: [VPrintf.c] and [formatf.c].
    - [Memory]: [memory.c] and the two [memcpy.asm] on byte maps.
    - [Heap], [HeapInv]: [heap.c].  State [Heap]: block headers by address, the
      list of regions, the bytes.  [HeapInv] has the invariant and the interface
      [PageSource] to the page allocator.
    - [Pmm], [PmmSpec], [PmmInit]: [pmm.c].  State: the list of regions, each
      with the address of its record.
    - [Multiboot2], [Multiboot2Spec]: [multiboot2.c].  State [Boot].
    - [X86], [U64]: the instructions and routines of [gcc_u64.asm].
    - [Mtrr], [MtrrSpec], [Paging], [PagingSpec]: the two [paging.c].
    - [VfsPath]: path normalisation, prefix test and mount selection of [VFS.c].
      [Vfs]: state [VFS] (the static variables of the file) and the operations
      on cache, registry, mounts, resolution, creation and removal.  [VFSWorld]
      is the state of the drivers; the tables [VFSNodeOps] are records of
      optional functions.  [VfsHandle]: handles, queries and [FileStream.c].
      [VfsCache]: the cache against a reference LRU map.  [VfsResolve]: the
      contract of drivers ([FsLaws]) and resolution.
    - [Ramfs], [RamfsTree], [RamfsSpec]: [ramfs.c], its tree, the instance of
      [FsLaws], file contents, and runs of the VFS over ramfs.
    - [BlockDevice]: [BlockDevice.c] and the contract of disk drivers
      ([DiskLaws]).  [DiskStream]: [DiskStream.c].  [DiskRead]: the monad of
      code that reads devices.  [Volume], [VolumeScan]: [VolumeManager.c].
    - [Fat], [FatSpec], [FatDir], [FatNode], [FatNodeSpec]: [fat/volume.c],
      [fat16.c], [fat32.c] and [fatfs.c].  [FsWorld]: the nodes and volumes
      that disk file systems keep on the heap.  [Iso9660], [IsoSpec]:
      [iso9660.c].  [Ntfs], [NtfsNode], [NtfsSpec], [NtfsOverlay]: [ntfs.c].
    - [KeyLayouts], [Ps2Controller], [Ps2Keyboard], [KeyboardSpec]: [ps2kbd]
      with its layouts, and [Keyboard.c].  [Ps2Mouse]: [ps2mouse.c].
    - [Gfx], [GfxSpec], [GfxScreen]: [gfx.c] and [mouse.c].  [Bmp]: [bmp.c].
      [Gfxterm], [GfxtermSpec], [GfxtermPage]: [gfxterm.c].
    - [Callbacks]: [DriverBase.c], [event.c] and [PeriodicTask.c].

    Modules named [Observed], and the examples beside them, record inputs on
    which the code does something else than it means to.

    ** Conventions

    A w-bit integer is a [Z] with its wrap-around written out ([wrap w x],
    [x +[w] y]); [Arch] selects the width of [size_t].  Bytes are [Z], strings
    are byte lists: with their terminator ([cstr]) in [CString], without it in
    the VFS files.  Out parameters are results, a null pointer is [None] or
    [NULL].  A function gives [None] where the C code has undefined behaviour:
    it dereferences an unknown address, leaves a buffer or overflows a signed
    integer.  Whether an allocation succeeds is an argument ([mal]), so the
    theorems hold for every behaviour of the allocator they do not fix.
    Hardware is a state with the operations the code uses on it: port
    instructions, model-specific registers, or sector access with the laws of
    [DiskLaws].

    ** What the theorems show

    - Lists: every operation keeps the linked representation and acts as the
      list operation on the stored sequence; the event queue is a FIFO.
      Strings: [strcmp], [strstr] and [strtok] against their mathematical
      meaning.  Memory: [memmove], [memcmp] and [memcpy] on every path, overlap
      and word size.  Formatted output: [vprintf] on the concrete syntax of a
      list of directives prints what the directives mean.
    - Heap: clients never hold overlapping blocks, allocation fails only when
      no block and no pages are left, free undoes alloc, [realloc] and aligned
      allocation keep data and heap.
    - Physical memory: allocation returns usable pages once and turns exactly
      them into reserved ones; release undoes it; what boot leaves usable.
      Boot tags are read back as they were laid out.
    - Page tables: the identity map after start-up, changes of memory types
      touch exactly their range, and the memory type registers cover exactly
      the range asked for.  The 64-bit routines compute 64-bit arithmetic.
    - VFS: normal paths, longest-prefix mount selection, the cache as an LRU
      map, and that the cache is invisible: resolution with and without it
      agree in every state clients can reach, over any driver with the laws.
    - Ramfs: it has those laws; [remove] frees exactly a subtree; [write],
      [truncate] and [read] are those of a byte sequence; chunked writes
      through a handle are one write.
    - Disks: a stream reads and writes exactly the bytes asked for at every
      alignment; access through a volume stays inside of it; the scan finds
      the partitions of a GPT.  FAT, ISO 9660 and NTFS: looking a file up and
      reading it gives its contents as they lie on the disk; files made at run
      time on NTFS are byte sequences.
    - Devices: what is typed on the keyboard is what is read; the mouse cursor
      follows the movements sent; periodic tasks run on every tick they should.
    - Graphics: every sequence of drawing calls stays inside the pixels; lines,
      circles, bitmaps and the screen show the pixels meant; pictures load with
      their colours; the terminal is a typewriter whose older lines are in the
      scrollback.

    ** Fuel

    Loops that are not structural take fuel, and the theorems prove that it is
    enough rather than assume it: the number of headers or nodes for the walks
    of heap, lists and trees (chains and trees without cycles are no longer
    than that), the length of the remaining path for paths, the number of tags
    or of bytes for records walked forward, 65 doublings for a buffer of
    [size_t] bytes.  Where the C loop ends only if a driver or the disk says so
    ([VFS_GetDirectoryContents], cluster chains) the fuel is an argument, and
    the theorems give a bound for disks that are laid out properly.

    ** Not modelled

    Log output; [strdup]'s unchecked allocation is assumed to succeed where its
    callers rely on it.  The drivers of disks (ATA, AHCI), of interrupt
    controllers and timers, PCI enumeration, ACPI and processor start-up are
    sequences of port and register accesses whose effect is that of the
    hardware behind them, and are not modelled; the disk drivers are known
    through [DiskLaws].  Font and picture data, debug output and the tests are
    left out, as is floating point ([math.c], [dtoa]). *)

From Stdlib Require Export ZArith Lia.
From stdpp Require Export base tactics gmap numbers option list.

#[global] Open Scope Z_scope.

(** ** The two targets

    The kernel is built for i386 and for x86_64 from the same C files; only the
    width of [size_t] and of a pointer differs. *)

Inductive arch := I386 | AMD64.

#[global] Instance arch_eq_dec : EqDecision arch.
Proof. solve_decision. Defined.

(** The target a component is compiled for. *)
Class Arch := the_arch : arch.

(** Width of [size_t] and [uintptr_t] in bits. *)
Definition size_bits `{A : Arch} : Z :=
  match the_arch with I386 => 32 | AMD64 => 64 end.

(** [sizeof(size_t)] in bytes. *)
Definition sizeof_size_t `{A : Arch} : Z :=
  match the_arch with I386 => 4 | AMD64 => 8 end.

Definition SIZE_MAX `{A : Arch} : Z := 2 ^ size_bits - 1.

(** The null pointer. *)
Definition NULL : Z := 0.

(** ** Machine integers

    A [w]-bit unsigned integer is a [Z] in [[0, 2^w)]; an operation that can
    wrap is written with its wrap-around. *)

Definition wrap (w x : Z) : Z := x mod 2 ^ w.

(** Reinterpretation of the low [w] bits as a signed integer. *)
Definition sign_of (w x : Z) : Z :=
  let y := wrap w x in if y <? 2 ^ (w - 1) then y else y - 2 ^ w.

Declare Scope cint_scope.
Delimit Scope cint_scope with cint.
Notation "x +[ w ] y" := (wrap w (x + y)) (at level 50, left associativity) : cint_scope.
Notation "x -[ w ] y" := (wrap w (x - y)) (at level 50, left associativity) : cint_scope.
Notation "x *[ w ] y" := (wrap w (x * y)) (at level 40, left associativity) : cint_scope.
#[global] Open Scope cint_scope.

(** ** Tactics and hint databases *)

Create HintDb atomos.
Create HintDb cint.

(** Split on the target and evaluate its widths. *)
Ltac arch_cases :=
  unfold SIZE_MAX, size_bits, sizeof_size_t in *;
  repeat match goal with
    | A : Arch |- _ => let a := fresh in rename A into a; destruct a; unfold the_arch in *
    end; simpl in *.

(** Case analysis on every boolean test of the goal. *)
Ltac split_ifs :=
  repeat match goal with
    | |- context [if ?b then _ else _] => let E := fresh "E" in destruct b eqn:E
    end.

(** Case analysis on the boolean tests of a hypothesis. *)
Ltac split_ifs_in H :=
  repeat match type of H with
    | context [if ?b then _ else _] => let E := fresh "E" in destruct b eqn:E
    end.


(** ** Lemmas on wrapped arithmetic *)

Lemma wrap_small (w x : Z) : 0 <= x < 2 ^ w -> wrap w x = x.
Proof. apply Z.mod_small. Qed.

Lemma wrap_bound (w x : Z) : 0 <= w -> 0 <= wrap w x < 2 ^ w.
Proof. intros ?. apply Z.mod_pos_bound. lia. Qed.

Lemma sign_of_range (w x : Z) : 0 < w -> - 2 ^ (w - 1) <= sign_of w x < 2 ^ (w - 1).
Proof.
  intros Hw. unfold sign_of. pose proof (wrap_bound w x ltac:(lia)) as H. assert (2 ^ w = 2 * 2 ^ (w - 1)) as E by (rewrite <- Z.pow_succ_r by lia; f_equal; lia).
  destruct (Z.ltb_spec (wrap w x) (2 ^ (w - 1))); lia.
Qed.

Lemma size_bits_nonneg `{A : Arch} : 0 <= size_bits.
Proof. arch_cases; lia. Qed.

(** Addresses and sizes below 4 GiB fit in a [size_t] of both architectures. *)
Lemma wrap_size `{A : Arch} x : 0 <= x < 2 ^ 32 -> wrap size_bits x = x.
Proof. intros Hx. unfold wrap. apply Z.mod_small. arch_cases; lia. Qed.

(** Masking with [~(alignment - 1)] rounds down to a multiple. *)
Lemma land_align_down (w k x : Z) : 0 <= x < 2 ^ w -> 0 <= k <= w ->
  Z.land x (wrap w (Z.lnot (2 ^ k - 1))) = x - x mod 2 ^ k.
Proof.
  intros Hx Hk. unfold wrap. rewrite <- Z.land_ones by lia.
  replace (2 ^ k - 1) with (Z.ones k) by (rewrite Z.ones_equiv; lia).
  rewrite (Z.land_comm (Z.lnot _)), Z.land_assoc, Z.land_ones, Z.mod_small by lia.
  fold (Z.ldiff x (Z.ones k)). rewrite <- Z.ldiff_land, Z.ldiff_ones_r by lia.
  rewrite Z.shiftl_mul_pow2, Z.shiftr_div_pow2 by lia.
  pose proof (Z.div_mod x (2 ^ k)). lia.
Qed.

Lemma testbit_wrap w x i : 0 <= w -> 0 <= i -> Z.testbit (wrap w x) i = (i <? w) && Z.testbit x i.
Proof.
  intros Hw Hi. unfold wrap. destruct (Z.ltb_spec i w); cbn [andb]; [by apply Z.mod_pow2_bits_low; lia|by apply Z.mod_pow2_bits_high; lia].
Qed.

(** The power-of-two test [(x & (x - 1)) == 0]. *)
Lemma land_pred_pow2 (k : Z) : 0 <= k -> Z.land (2 ^ k) (2 ^ k - 1) = 0.
Proof.
  intros Hk. replace (2 ^ k - 1) with (Z.ones k) by (rewrite Z.ones_equiv; lia).
  rewrite Z.land_ones by lia. apply Z.mod_same. lia.
Qed.

#[export] Hint Resolve size_bits_nonneg wrap_bound : cint.

(** ** Stateful code

    Computations that change a state; [None] is undefined behaviour. *)
Definition st (S X : Type) : Type := S -> option (S * X).

Section State.
Context {S : Type}.

#[global] Instance st_ret : MRet (st S) := fun X x s => Some (s, x).
#[global] Instance st_bind : MBind (st S) := fun X Y k m s => match m s with None => None | Some (s', x) => k x s' end.

(** A step that may be undefined. *)
Definition lift {X} (o : option X) : st S X := fun s => x ← o; Some (s, x).
End State.

Lemma bind_run {S X Y : Type} (m : st S X) (k : X -> st S Y) s s' x : m s = Some (s', x) -> (m ≫= k) s = k x s'.
Proof. intros H. unfold mbind, st_bind. by rewrite H. Qed.

(** ** Lemmas on lists and finite maps *)

(** The keys of a duplicate-free list that all live in a finite map are no
    more than the map has: the bound behind every "enough fuel" argument. *)
Lemma NoDup_dom_length {V} (m : gmap Z V) (ks : list Z) :
  NoDup ks -> (forall k, k ∈ ks -> is_Some (m !! k)) ->
  (length ks <= size m)%nat.
Proof.
  intros Hnd Hin.
  rewrite <- (size_dom (D := gset Z) m), <- (size_list_to_set (C := gset Z) ks) by done.
  apply subseteq_size. intros k Hk.
  apply elem_of_dom, Hin. by apply elem_of_list_to_set in Hk.
Qed.
