(* ===== verification/Bytes.v ===== *)
(** * Byte sequences

    Bytes are integers in [[0, 256)], a buffer or the contents of a file is a
    list of them.  Lengths as integers, zero filling, little-endian fields of
    packed structures, and slices of an indexed sequence of bytes. *)

From S2P Require Import Prelude.

Abbreviation bytes := (list Z).

Definition zlen (s : bytes) : Z := Z.of_nat (length s).

Definition zeros (n : Z) : bytes := replicate (Z.to_nat n) 0.

(** Little-endian value of a field, and the [n] bytes that store a value. *)
Fixpoint le (bs : bytes) : Z := match bs with [] => 0 | b :: bs => b + 256 * le bs end.

Fixpoint le_bytes (n : nat) (v : Z) : bytes :=
  match n with O => [] | S n => v mod 256 :: le_bytes n (v / 256) end.

(** The [n] bytes at [off]; [None] when they do not lie in the buffer. *)
Definition sub_bytes (buf : bytes) (off n : Z) : option bytes :=
  if (0 <=? off) && (0 <=? n) && (off + n <=? zlen buf)
  then Some (take (Z.to_nat n) (drop (Z.to_nat off) buf)) else None.

(** The little-endian field of [n] bytes at [off]. *)
Definition le_at (n : Z) (buf : bytes) (off : Z) : option Z := bs ← sub_bytes buf off n; Some (le bs).

(** Replacing the bytes from [off] on; [None] when they leave the buffer. *)
Definition put_bytes (buf : bytes) (off : Z) (bs : bytes) : option bytes :=
  if (0 <=? off) && (off + zlen bs <=? zlen buf)
  then Some (take (Z.to_nat off) buf ++ bs ++ drop (Z.to_nat (off + zlen bs)) buf) else None.

(** [n] bytes from [o] of a sequence indexed by [Z]. *)
Definition bslice (f : Z -> Z) (o n : Z) : bytes := (fun i => f (o + i)) <$> seqZ 0 n.

(** ** Lengths *)

Lemma zlen_app a b : zlen (a ++ b) = zlen a + zlen b.
Proof. unfold zlen. rewrite length_app. lia. Qed.

Lemma zlen_cons c s : zlen (c :: s) = 1 + zlen s.
Proof. unfold zlen. cbn. lia. Qed.

Lemma zlen_nonneg s : 0 <= zlen s.
Proof. unfold zlen. lia. Qed.

Lemma zlen_zero s : zlen s = 0 <-> s = [].
Proof. unfold zlen. destruct s; cbn; [done|]. split; [lia|done]. Qed.

(** ** Zeros and cuts *)

Lemma zlen_zeros n : zlen (zeros n) = Z.max 0 n.
Proof. unfold zlen, zeros. rewrite length_replicate. lia. Qed.

Lemma zeros_app a b : 0 <= a -> 0 <= b -> zeros a ++ zeros b = zeros (a + b).
Proof. intros. unfold zeros. rewrite <- replicate_add. f_equal. lia. Qed.

Lemma take_zeros a b : 0 <= a <= b -> take (Z.to_nat a) (zeros b) = zeros a.
Proof. intros. unfold zeros. rewrite take_replicate. f_equal. lia. Qed.

Lemma drop_zeros a b : drop (Z.to_nat a) (zeros b) = zeros (b - Z.max 0 a).
Proof. unfold zeros. rewrite drop_replicate. f_equal. lia. Qed.

Lemma take_zlen (a b : bytes) : take (Z.to_nat (zlen a)) (a ++ b) = a.
Proof. unfold zlen. by rewrite Nat2Z.id, take_app_length. Qed.

Lemma zlen_take n (c : bytes) : 0 <= n -> zlen (take (Z.to_nat n) c) = Z.min n (zlen c).
Proof. intros. unfold zlen. rewrite length_take. lia. Qed.

Lemma zlen_drop n (c : bytes) : 0 <= n -> zlen (drop (Z.to_nat n) c) = Z.max 0 (zlen c - n).
Proof. intros. unfold zlen. rewrite length_drop. lia. Qed.

Lemma take_pad n (c : bytes) k : 0 <= n <= zlen c + k ->
  take (Z.to_nat n) (c ++ zeros k) = take (Z.to_nat n) (c ++ zeros (n - zlen c)).
Proof.
  intros Hn. pose proof (zlen_nonneg c). destruct (Z.le_gt_cases n (zlen c)).
  - rewrite !take_app_le by (unfold zlen in *; lia). done.
  - rewrite !take_app_ge by (unfold zlen in *; lia). f_equal.
    replace (Z.to_nat n - length c)%nat with (Z.to_nat (n - zlen c)) by (unfold zlen in *; lia).
    rewrite !take_zeros by lia. done.
Qed.

(** ** Little-endian fields *)

Abbreviation is_byte := (fun b : Z => 0 <= b < 256).

Lemma le_bytes_length n v : length (le_bytes n v) = n.
Proof. revert v; induction n as [|n IH]; intros v; cbn; [done|by rewrite IH]. Qed.

Lemma le_bytes_range n v : Forall is_byte (le_bytes n v).
Proof. revert v; induction n as [|n IH]; intros v; cbn; constructor; [apply Z.mod_pos_bound; lia|apply IH]. Qed.

Lemma pow_256_succ n : 256 ^ Z.of_nat (S n) = 256 * 256 ^ Z.of_nat n.
Proof. rewrite Nat2Z.inj_succ. apply Z.pow_succ_r. lia. Qed.

Lemma le_range bs : Forall is_byte bs -> 0 <= le bs < 256 ^ Z.of_nat (length bs).
Proof.
  induction 1 as [|b bs Hb _ IH]; [cbn; lia|]. cbn [length le]. rewrite pow_256_succ. lia.
Qed.

(** Storing a value and reading it back. *)
Lemma le_le_bytes n v : le (le_bytes n v) = v mod 256 ^ Z.of_nat n.
Proof.
  revert v; induction n as [|n IH]; intros v; [cbn; by rewrite Z.mod_1_r|].
  cbn [le_bytes le]. rewrite IH, pow_256_succ. symmetry. apply Z.rem_mul_r; lia.
Qed.

Lemma le_bytes_le bs : Forall is_byte bs -> le_bytes (length bs) (le bs) = bs.
Proof.
  induction 1 as [|b bs Hb _ IH]; [done|]. cbn [length le le_bytes].
  replace ((b + 256 * le bs) mod 256) with b by (rewrite Z.mul_comm, Z.mod_add, Z.mod_small; lia).
  replace ((b + 256 * le bs) / 256) with (le bs) by (rewrite Z.mul_comm, Z.div_add, Z.div_small; lia).
  by rewrite IH.
Qed.

Lemma zlen_le_bytes n v : zlen (le_bytes n v) = Z.of_nat n.
Proof. unfold zlen. by rewrite le_bytes_length. Qed.

(** ** Parts of a buffer *)

Lemma sub_bytes_app a b c : sub_bytes (a ++ b ++ c) (zlen a) (zlen b) = Some b.
Proof.
  unfold sub_bytes. rewrite !zlen_app. pose proof (zlen_nonneg a). pose proof (zlen_nonneg b). pose proof (zlen_nonneg c).
  destruct (Z.leb_spec 0 (zlen a)); [|lia]. destruct (Z.leb_spec 0 (zlen b)); [|lia].
  destruct (Z.leb_spec (zlen a + zlen b) (zlen a + (zlen b + zlen c))); [|lia]. cbn [andb]. f_equal.
  unfold zlen. rewrite !Nat2Z.id, drop_app_length. by apply take_app_length.
Qed.

Lemma sub_bytes_spec buf off n bs : sub_bytes buf off n = Some bs ->
  0 <= off /\ 0 <= n /\ off + n <= zlen buf /\ zlen bs = n /\ bs = take (Z.to_nat n) (drop (Z.to_nat off) buf).
Proof.
  unfold sub_bytes. destruct (Z.leb_spec 0 off), (Z.leb_spec 0 n), (Z.leb_spec (off + n) (zlen buf)); cbn [andb]; try done.
  intros [= <-]. split_and!; [lia..| |done]. rewrite zlen_take, zlen_drop by lia. lia.
Qed.

Lemma sub_bytes_ok buf off n : 0 <= off -> 0 <= n -> off + n <= zlen buf ->
  sub_bytes buf off n = Some (take (Z.to_nat n) (drop (Z.to_nat off) buf)).
Proof.
  intros. unfold sub_bytes. destruct (Z.leb_spec 0 off), (Z.leb_spec 0 n), (Z.leb_spec (off + n) (zlen buf)); (done || lia).
Qed.

(** ** Slices *)

Lemma zlen_bslice f o n : 0 <= n -> zlen (bslice f o n) = n.
Proof. intros. unfold zlen, bslice. rewrite length_fmap, length_seqZ. lia. Qed.

Lemma bslice_lookup f o n i : 0 <= i < n -> bslice f o n !! Z.to_nat i = Some (f (o + i)).
Proof. intros. unfold bslice. rewrite list_lookup_fmap, lookup_seqZ_lt by lia. cbn. do 2 f_equal. lia. Qed.

Lemma bslice_ext f g o n : (forall i, o <= i < o + n -> f i = g i) -> bslice f o n = bslice g o n.
Proof. intros H. unfold bslice. apply list_fmap_ext. intros k i Hi. apply lookup_seqZ in Hi. apply H. lia. Qed.

Lemma bslice_inj f g o n x : bslice f o n = bslice g o n -> o <= x < o + n -> f x = g x.
Proof.
  intros H Hx. apply (f_equal (lookup (Z.to_nat (x - o)))) in H. rewrite !bslice_lookup in H by lia.
  injection H as H. by replace (o + (x - o)) with x in H by lia.
Qed.

Lemma bslice_app f o n k : 0 <= n -> 0 <= k -> bslice f o (n + k) = bslice f o n ++ bslice f (o + n) k.
Proof.
  intros Hn Hk. unfold bslice. rewrite seqZ_app, fmap_app by lia. f_equal.
  assert (seqZ (0 + n) k = Z.add n <$> seqZ 0 k) as -> by (rewrite fmap_add_seqZ; f_equal; lia). rewrite <- list_fmap_compose.
  apply list_fmap_ext. intros ? i _. cbn. f_equal. lia.
Qed.

Lemma list_as_bslice (bs : bytes) : bs = bslice (fun i => nth (Z.to_nat i) bs 0) 0 (zlen bs).
Proof.
  apply list_eq. intros i. destruct (decide (i < length bs)%nat) as [Hi|Hi].
  - replace i with (Z.to_nat (Z.of_nat i)) at 2 by lia. rewrite bslice_lookup by (unfold zlen; lia).
    rewrite Z.add_0_l, Nat2Z.id, nth_lookup. by destruct (lookup_lt_is_Some_2 bs i Hi) as [x ->].
  - rewrite !lookup_ge_None_2; [done|unfold bslice; rewrite length_fmap, length_seqZ; unfold zlen; lia|lia].
Qed.

(** Bytes put together with [|] and [<<] are the little-endian word. *)
Lemma lor_byte a b k : 0 <= k -> 0 <= a < 2 ^ k -> Z.lor a (Z.shiftl b k) = a + 2 ^ k * b.
Proof.
  intros Hk Ha. rewrite Z.shiftl_mul_pow2 by lia. rewrite (Z.mul_comm b), <- Z.lxor_lor, <- Z.add_nocarry_lxor; [reflexivity|..].
  all: rewrite Z.mul_comm, <- Z.shiftl_mul_pow2 by lia; apply Z.bits_inj'; intros i Hi; rewrite Z.land_spec, Z.shiftl_spec, Z.bits_0 by lia.
  all: destruct (Z.lt_ge_cases i k); [rewrite (Z.testbit_neg_r b) by lia; apply andb_false_r|].
  all: destruct (decide (a = 0)) as [->|]; [now rewrite Z.bits_0|]; rewrite (Z.bits_above_log2 a); [reflexivity|lia|]; apply Z.log2_lt_pow2; [lia|];
    eapply Z.lt_le_trans; [apply Ha|apply Z.pow_le_mono_r; lia].
Qed.
