(* ===== verification/Lists.v ===== *)
(** * The kernel's pointer list ([kernel/list.c], [kernel_include/list.h])

    A singly linked list of [void*] with a head, a tail and a count.  The
    node objects live in a store from addresses to [ListNode]; an access
    outside of the store is undefined behaviour and makes the operation [None].
    The result of each call of [malloc] is an argument ([None] is a failed
    allocation), and a loop over the chain runs with the number of nodes of the
    store as fuel, which an acyclic chain cannot exceed. *)

From S2P Require Import Prelude.

Record ListNode := mkListNode { ln_next : Z; ln_data : Z }.

Record List := mkList { head : Z; tail : Z; count : Z }.

Abbreviation nodes := (gmap Z ListNode).

Section Ops.
Context `{A : Arch}.
Implicit Types (m : nodes) (l : List) (self : option List).

(** [self] is [None] for a null [List*]. *)

Definition List_Init self : option List :=
  match self with
  | None => None
  | Some _ => Some (mkList NULL NULL 0)
  end.

(** The object [malloc] returned is uninitialised until [List_Init] runs. *)
Definition List_Create (mal : option List) : option List :=
  match mal with
  | None => None
  | Some raw => List_Init (Some raw)
  end.

Definition List_Add m self (item : Z) (mal : option Z) : option (nodes * option List) :=
  match self with
  | None => Some (m, self)
  | Some l =>
    match mal with
    | None => Some (m, self)
    | Some node =>
      let m1 := <[node := mkListNode NULL item]> m in
      if head l =? NULL
      then Some (m1, Some (mkList node node (count l +[size_bits] 1)))
      else t ← m1 !! tail l;
           Some (<[tail l := mkListNode node (ln_data t)]> m1,
                 Some (mkList (head l) node (count l +[size_bits] 1)))
    end
  end.

(** [for (i = 0; i < index; ++i) { prev = cur; cur = cur->next; }] *)
Fixpoint advance m (index : nat) (prev cur : Z) : option (Z * Z) :=
  match index with
  | O => Some (prev, cur)
  | S i => n ← m !! cur; advance m i cur (ln_next n)
  end.

(** The body shared by [List_RemoveAt] and [List_Remove]: unlink [cur], whose
    predecessor is [prev] (null for the head), fix [tail], free, count. *)
Definition unlink m l (prev cur : Z) : option (nodes * List) :=
  c ← m !! cur;
  if prev =? NULL
  then let tl := if tail l =? cur then ln_next c else tail l in
       Some (delete cur m, mkList (ln_next c) tl (count l -[size_bits] 1))
  else p ← m !! prev;
       let tl := if tail l =? cur then prev else tail l in
       Some (delete cur (<[prev := mkListNode (ln_next c) (ln_data p)]> m),
             mkList (head l) tl (count l -[size_bits] 1)).

Definition List_RemoveAt m self (index : Z) : option (nodes * option List * bool) :=
  match self with
  | None => Some (m, self, false)
  | Some l =>
    if count l <=? index then Some (m, self, false)
    else pc ← advance m (Z.to_nat index) NULL (head l);
         ml ← unlink m l pc.1 pc.2;
         Some (ml.1, Some ml.2, true)
  end.

Definition List_RemoveAtIndex m self (index : Z) : option (nodes * option List * bool) :=
  List_RemoveAt m self index.

Fixpoint remove_loop m l (item : Z) (fuel : nat) (prev cur : Z)
  : option (nodes * option List * bool) :=
  match fuel with
  | O => None
  | S fuel =>
    if cur =? NULL then Some (m, Some l, false)
    else c ← m !! cur;
         if ln_data c =? item
         then ml ← unlink m l prev cur; Some (ml.1, Some ml.2, true)
         else remove_loop m l item fuel cur (ln_next c)
  end.

Definition List_Remove m self (item : Z) : option (nodes * option List * bool) :=
  match self with
  | None => Some (m, self, false)
  | Some l => remove_loop m l item (S (size m)) NULL (head l)
  end.

Fixpoint index_loop m (item : Z) (fuel : nat) (n idx : Z) : option Z :=
  match fuel with
  | O => None
  | S fuel =>
    if n =? NULL then Some (-1)
    else c ← m !! n;
         if ln_data c =? item then Some (sign_of 64 idx)
         else index_loop m item fuel (ln_next c) (idx +[size_bits] 1)
  end.

Definition List_IndexOf m self (item : Z) : option Z :=
  match self with
  | None => Some (-1)
  | Some l => index_loop m item (S (size m)) (head l) 0
  end.

Definition List_GetAt m self (index : Z) : option Z :=
  match self with
  | None => Some NULL
  | Some l =>
    if count l <=? index then Some NULL
    else pc ← advance m (Z.to_nat index) NULL (head l);
         if pc.2 =? NULL then Some NULL
         else c ← m !! pc.2; Some (ln_data c)
  end.

Definition List_InsertAt m self (index item : Z) (mal : option Z)
  : option (nodes * option List * bool) :=
  match self with
  | None => Some (m, self, false)
  | Some l =>
    if count l <? index then Some (m, self, false)
    else if index =? count l
    then r ← List_Add m self item mal; Some (r.1, r.2, true)
    else
      match mal with
      | None => Some (m, self, false)
      | Some node =>
        if index =? 0
        then Some (<[node := mkListNode (head l) item]> m,
                   Some (mkList node (if tail l =? NULL then node else tail l)
                                (count l +[size_bits] 1)), true)
        else pc ← advance m (Z.to_nat (index - 1)) NULL (head l);
             p ← m !! pc.2;
             Some (<[pc.2 := mkListNode node (ln_data p)]>
                     (<[node := mkListNode (ln_next p) item]> m),
                   Some (mkList (head l) (if ln_next p =? NULL then node else tail l)
                                (count l +[size_bits] 1)), true)
      end
  end.

(** The pointers [free] receives for the elements, in order, come third. *)
Fixpoint clear_loop m (freeData : bool) (fuel : nat) (n : Z) : option (nodes * list Z) :=
  match fuel with
  | O => None
  | S fuel =>
    if n =? NULL then Some (m, [])
    else c ← m !! n;
         r ← clear_loop (delete n m) freeData fuel (ln_next c);
         Some (r.1, (if freeData && negb (ln_data c =? NULL) then [ln_data c] else []) ++ r.2)
  end.

Definition List_Clear m self (freeData : bool) : option (nodes * option List * list Z) :=
  match self with
  | None => Some (m, self, [])
  | Some l =>
    r ← clear_loop m freeData (S (size m)) (head l);
    Some (r.1, Some (mkList NULL NULL 0), r.2)
  end.

(** [List_Destroy] frees the [List] object itself after clearing it. *)
Definition List_Destroy m self (freeData : bool) : option (nodes * list Z) :=
  match self with
  | None => Some (m, [])
  | Some l => r ← List_Clear m self freeData; Some (r.1.1, r.2)
  end.

Definition List_Size self : Z := match self with None => 0 | Some l => count l end.

Definition List_IsEmpty self : bool := match self with None => true | Some l => count l =? 0 end.

Definition List_Foreach_Begin self : Z :=
  match self with
  | None => NULL
  | Some l => if count l =? 0 then NULL else head l
  end.

Definition List_Foreach_Next m (node : Z) : option Z :=
  if node =? NULL then Some NULL else c ← m !! node; Some (ln_next c).

Definition List_Foreach_Data m (node : Z) : option Z :=
  if node =? NULL then Some NULL else c ← m !! node; Some (ln_data c).

End Ops.

(** ** Representation *)

Section Rep.
Context `{A : Arch}.
Implicit Types (m : nodes) (l : List) (ns : list (Z * Z)).

(** [lseg m p ns q]: the chain from [p] runs through the nodes [ns]
    (address and element) and ends at [q]. *)
Fixpoint lseg m (p : Z) ns (q : Z) : Prop :=
  match ns with
  | [] => p = q
  | (a, d) :: ns' => p = a /\ exists nx, m !! a = Some (mkListNode nx d) /\ lseg m nx ns' q
  end.

Definition last_addr (d : Z) ns : Z := default d (last ns.*1).

Definition addr_ok (a : Z) : Prop := 0 < a < 2 ^ size_bits.

(** The well-formedness invariant of a list object. *)
Definition List_rep m l ns : Prop :=
  lseg m (head l) ns NULL /\ NoDup ns.*1 /\ Forall addr_ok ns.*1 /\
  tail l = last_addr NULL ns /\ count l = Z.of_nat (length ns).

(** A list object whose elements are [xs]. *)
Definition list_view m (self : option List) (xs : list Z) : Prop :=
  exists l ns, self = Some l /\ List_rep m l ns /\ ns.*2 = xs.

Lemma lseg_app m p ns1 ns2 q :
  lseg m p (ns1 ++ ns2) q <-> exists r, lseg m p ns1 r /\ lseg m r ns2 q.
Proof.
  revert p; induction ns1 as [|[a d] ns1 IH]; intros p; simpl.
  - naive_solver.
  - setoid_rewrite IH. naive_solver.
Qed.

Lemma lseg_frame m m' p ns q :
  (forall a, a ∈ ns.*1 -> m' !! a = m !! a) -> lseg m p ns q -> lseg m' p ns q.
Proof.
  revert p; induction ns as [|[a d] ns IH]; intros p Hf; simpl; [done|].
  intros [-> (nx & Ha & Hs)]. split; [done|]. exists nx. split.
  - rewrite Hf; [done|]. set_solver.
  - apply IH; [|done]. intros b Hb. apply Hf. set_solver.
Qed.

Lemma lseg_in m p ns q a : lseg m p ns q -> a ∈ ns.*1 -> is_Some (m !! a).
Proof.
  revert p; induction ns as [|[b d] ns IH]; intros p; simpl; [set_solver|].
  intros [-> (nx & Ha & Hs)] [->|Hin]%elem_of_cons; [by eexists|eauto].
Qed.

Lemma last_addr_snoc d ns a e : last_addr d (ns ++ [(a, e)]) = a.
Proof. unfold last_addr. rewrite fmap_app. simpl. by rewrite last_snoc. Qed.

Lemma last_addr_cons d ns a e : last_addr d ((a, e) :: ns) = last_addr a ns.
Proof. unfold last_addr. rewrite fmap_cons, last_cons. simpl. by destruct (last ns.*1). Qed.

Lemma last_addr_app_cons d ns1 a e ns2 :
  last_addr d (ns1 ++ (a, e) :: ns2) = last_addr a ns2.
Proof.
  unfold last_addr. rewrite fmap_app, fmap_cons, last_app_cons. simpl.
  rewrite last_cons. by destruct (last ns2.*1).
Qed.

Lemma last_addr_in d ns : ns <> [] -> last_addr d ns ∈ ns.*1.
Proof.
  destruct ns as [|x ns _] using rev_ind; [done|]. intros _.
  destruct x. rewrite last_addr_snoc, fmap_app. set_solver.
Qed.

(** Distinct non-null addresses are fewer than the address space: a count
    never wraps. *)
Lemma NoDup_addr_bound (l : list Z) :
  NoDup l -> Forall addr_ok l -> Z.of_nat (length l) < 2 ^ size_bits.
Proof.
  intros Hnd Hok. pose proof size_bits_nonneg.
  assert (Hlen : (length l <= length (seqZ 1 (2 ^ size_bits - 1)))%nat).
  { apply submseteq_length, NoDup_submseteq; [done|]. intros x Hx.
    rewrite elem_of_seqZ. rewrite Forall_forall in Hok. specialize (Hok x Hx).
    unfold addr_ok in Hok. lia. }
  rewrite length_seqZ in Hlen.
  assert (0 < 2 ^ size_bits) by lia. lia.
Qed.

Lemma List_rep_fuel m l ns : List_rep m l ns -> (length ns <= size m)%nat.
Proof.
  intros (Hs & Hnd & _). rewrite <- (length_fmap fst).
  apply NoDup_dom_length; [done|]. intros k Hk. by eapply lseg_in.
Qed.

Lemma List_rep_bound m l ns : List_rep m l ns -> Z.of_nat (length ns) < 2 ^ size_bits.
Proof.
  intros (_ & Hnd & Hok & _). rewrite <- (length_fmap fst). by apply NoDup_addr_bound.
Qed.

Lemma List_rep_addrs m l ns a : List_rep m l ns -> a ∈ ns.*1 -> a <> NULL.
Proof.
  intros (_ & _ & Hok & _) Hin. rewrite Forall_forall in Hok.
  specialize (Hok a Hin). unfold addr_ok, NULL in *. lia.
Qed.

Lemma fresh_not_in m l ns a : List_rep m l ns -> m !! a = None -> a ∉ ns.*1.
Proof. intros (Hs & _) Ha Hin. destruct (lseg_in _ _ _ _ _ Hs Hin). congruence. Qed.

Lemma lseg_head_null m ns p : lseg m p ns NULL -> Forall addr_ok ns.*1 ->
  (p = NULL <-> ns = []).
Proof.
  destruct ns as [|[a d] ns]; simpl; [naive_solver|].
  intros [-> _] [? _]%Forall_cons. unfold addr_ok, NULL in *. split; [lia|done].
Qed.

(** Walking [i] links down the chain stops at the [i]-th node, with the node
    before it (or the initial [prev]) as predecessor. *)
Lemma advance_lseg m p ns1 a d ns2 q prev :
  lseg m p (ns1 ++ (a, d) :: ns2) q ->
  advance m (length ns1) prev p = Some (last_addr prev ns1, a).
Proof.
  revert p prev; induction ns1 as [|[b e] ns1 IH]; intros p prev; simpl.
  - by intros [-> _].
  - intros [-> (nx & Hb & Hs)]. rewrite Hb. simpl.
    rewrite (IH nx b Hs). by rewrite last_addr_cons.
Qed.

Lemma split_at_index ns (i : nat) : (i < length ns)%nat ->
  exists ns1 a d ns2, ns = ns1 ++ (a, d) :: ns2 /\ length ns1 = i.
Proof.
  intros Hi. destruct (lookup_lt_is_Some_2 ns i Hi) as [[a d] Hx].
  exists (take i ns), a, d, (drop (S i) ns). split.
  - symmetry. by apply take_drop_middle.
  - rewrite length_take. lia.
Qed.
End Rep.

#[export] Hint Resolve lseg_frame : atomos.

(** ** The abstract list and the refinement *)

Inductive list_op :=
| OpAdd (item : Z)
| OpRemoveAt (index : Z)
| OpRemove (item : Z)
| OpInsertAt (index item : Z)
| OpClear (freeData : bool).

(** What [list.h] promises, on a sequence of elements.  [ok] tells whether the
    call's [malloc] succeeds. *)
Definition spec_step (ok : bool) (op : list_op) (xs : list Z) : list Z * bool :=
  match op with
  | OpAdd item => (if ok then xs ++ [item] else xs, true)
  | OpRemoveAt i =>
      if Z.of_nat (length xs) <=? i then (xs, false) else (delete (Z.to_nat i) xs, true)
  | OpRemove item =>
      match list_find (item =.) xs with
      | Some (i, _) => (delete i xs, true)
      | None => (xs, false)
      end
  | OpInsertAt i item =>
      if Z.of_nat (length xs) <? i then (xs, false)
      else if i =? Z.of_nat (length xs) then (if ok then xs ++ [item] else xs, true)
      else if ok then (take (Z.to_nat i) xs ++ item :: drop (Z.to_nat i) xs, true)
      else (xs, false)
  | OpClear _ => ([], true)
  end.

Section Refine.
Context `{A : Arch}.
Implicit Types (m : nodes) (l : List) (ns : list (Z * Z)).

(** One call of the C interface on a list object. *)
Definition list_step (mal : option Z) (op : list_op) m (self : option List)
  : option (nodes * option List * bool) :=
  match op with
  | OpAdd item => r ← List_Add m self item mal; Some (r.1, r.2, true)
  | OpRemoveAt i => List_RemoveAt m self i
  | OpRemove item => List_Remove m self item
  | OpInsertAt i item => List_InsertAt m self i item mal
  | OpClear fd => r ← List_Clear m self fd; Some (r.1, true)
  end.

(** [malloc] returned null or the address of an object that is not in use. *)
Definition malloc_fresh m (mal : option Z) : Prop :=
  match mal with
  | None => True
  | Some a => addr_ok a /\ m !! a = None
  end.

Definition malloc_ok (mal : option Z) : bool :=
  match mal with Some _ => true | None => false end.

(** Only the nodes of the list and the new node may differ. *)
Definition only_changes (ns : list Z) (mal : option Z) m m' : Prop :=
  forall a, a ∉ ns -> mal <> Some a -> m' !! a = m !! a.

Lemma count_succ m l ns : List_rep m l ns ->
  Z.of_nat (length ns) + 1 < 2 ^ size_bits ->
  count l +[size_bits] 1 = Z.of_nat (S (length ns)).
Proof.
  intros (_ & _ & _ & _ & ->) ?. rewrite wrap_small; lia.
Qed.

(** Linking a fresh node between [ns1] and [ns2]. *)
Lemma link_rep m m' l l' ns1 ns2 a item :
  List_rep m l (ns1 ++ ns2) -> addr_ok a -> m !! a = None ->
  (forall b, b ∉ (ns1 ++ ns2).*1 -> b <> a -> m' !! b = m !! b) ->
  lseg m' (head l') (ns1 ++ (a, item) :: ns2) NULL ->
  tail l' = last_addr NULL (ns1 ++ (a, item) :: ns2) ->
  count l' = count l +[size_bits] 1 ->
  List_rep m' l' (ns1 ++ (a, item) :: ns2).
Proof.
  intros Hrep Ha Hfresh Hout Hseg Htl Hc.
  pose proof (fresh_not_in _ _ _ _ Hrep Hfresh) as Hni.
  pose proof Hrep as (Hs & Hnd & Hok & Ht & Hcnt).
  assert (NoDup (ns1 ++ (a, item) :: ns2).*1) as Hnd'.
  { rewrite fmap_app in *. simpl. rewrite <- Permutation_middle. by constructor. }
  assert (Forall addr_ok (ns1 ++ (a, item) :: ns2).*1) as Hok'.
  { rewrite fmap_app in *. simpl. rewrite <- Permutation_middle. by constructor. }
  split_and!; [done..|].
  rewrite Hc. pose proof (NoDup_addr_bound _ Hnd' Hok') as Hb.
  rewrite length_fmap, length_app in Hb. simpl in Hb.
  erewrite count_succ by (done || (rewrite length_app; lia)).
  rewrite !length_app. simpl. lia.
Qed.

Lemma List_Add_rep m l ns a item :
  List_rep m l ns -> addr_ok a -> m !! a = None ->
  exists m' l', List_Add m (Some l) item (Some a) = Some (m', Some l') /\
    List_rep m' l' (ns ++ [(a, item)]) /\ only_changes ns.*1 (Some a) m m'.
Proof.
  intros Hrep Ha Hfresh.
  pose proof (fresh_not_in _ _ _ _ Hrep Hfresh) as Hni.
  pose proof Hrep as (Hs & Hnd & Hok & Ht & Hcnt). simpl.
  pose proof (lseg_head_null _ _ _ Hs Hok) as Hnull.
  destruct (Z.eqb_spec (head l) NULL) as [E|E].
  - assert (ns = []) as -> by tauto. eexists _, _. split; [done|]. split.
    + apply (link_rep m _ l _ [] [] a item); simpl; try done.
      * intros b _ ?. by rewrite lookup_insert_ne.
      * split; [done|]. exists NULL. by rewrite lookup_insert_eq.
    + intros b _ Hb. apply lookup_insert_ne. congruence.
  - assert (ns <> []) as Hne by tauto.
    destruct ns as [|[t e] ns0 _] using rev_ind; [done|].
    rewrite last_addr_snoc in Ht. rewrite fmap_app in Hni; simpl in Hni.
    apply lseg_app in Hs as (r & Hs1 & Hs2). simpl in Hs2.
    destruct Hs2 as [-> (nx & Hr & ->)].
    rewrite Ht, lookup_insert_ne, Hr by set_solver. simpl.
    eexists _, _. split; [done|].
    assert (forall b, b ∉ (ns0 ++ [(t, e)]).*1 -> b <> a ->
       <[t:=mkListNode a e]> (<[a:=mkListNode NULL item]> m) !! b = m !! b) as Hout.
    { intros b Hb Hba. rewrite fmap_app in Hb; simpl in Hb.
      rewrite !lookup_insert_ne; set_solver. }
    split.
    + apply (link_rep m _ l _ (ns0 ++ [(t, e)]) [] a item); simpl; try done.
      * by rewrite app_nil_r.
      * intros b. rewrite app_nil_r. apply Hout.
      * apply lseg_app. exists a. split.
        { apply lseg_app. exists t. split.
          - eapply lseg_frame; [|done]. rewrite fmap_app in Hnd.
            apply NoDup_app in Hnd as (_ & Hd & _). intros b Hb.
            rewrite !lookup_insert_ne; set_solver.
          - simpl. split; [done|]. exists a. by rewrite lookup_insert_eq. }
        simpl. split; [done|]. exists NULL.
        rewrite lookup_insert_ne, lookup_insert_eq by set_solver. done.
      * by rewrite last_addr_snoc.
    + intros b Hb1 Hb2. apply Hout; [done|congruence].
Qed.

Lemma unlink_rep m l ns1 a d ns2 :
  List_rep m l (ns1 ++ (a, d) :: ns2) ->
  exists m' l', unlink m l (last_addr NULL ns1) a = Some (m', l') /\
    List_rep m' l' (ns1 ++ ns2) /\ only_changes (ns1 ++ (a, d) :: ns2).*1 None m m'.
Proof.
  intros Hrep. pose proof (List_rep_bound _ _ _ Hrep) as Hbound.
  pose proof Hrep as (Hs & Hnd & Hok & Ht & Hcnt).
  assert (count l -[size_bits] 1 = Z.of_nat (length (ns1 ++ ns2))) as Hcnt'.
  { rewrite Hcnt in *. rewrite !length_app in *. csimpl in *.
    rewrite wrap_small; lia. }
  apply lseg_app in Hs as (r & Hs1 & Hs2). csimpl in Hs2.
  destruct Hs2 as [-> (nx & Hr & Hs2)].
  assert (Hnd2 := Hnd). rewrite fmap_app in Hnd2. csimpl in Hnd2.
  apply NoDup_app in Hnd2 as (Hnd1 & Hd & [Ha2 Hnd2]%NoDup_cons).
  assert (a ∉ ns1.*1) as Ha1 by (intros ?; apply (Hd a); set_solver).
  assert (NoDup (ns1 ++ ns2).*1) as Hnd'.
  { rewrite fmap_app. apply NoDup_app. set_solver. }
  assert (Forall addr_ok (ns1 ++ ns2).*1) as Hok'.
  { rewrite fmap_app in *. csimpl in Hok. apply Forall_app in Hok as [? [? ?]%Forall_cons].
    by apply Forall_app. }
  unfold unlink. rewrite Hr. csimpl.
  destruct ns1 as [|[t e] ns0 _] using rev_ind.
  - csimpl in *. eexists _, _. split; [done|]. split.
    + split_and!; simpl; try done.
      * eapply lseg_frame; [|done]. intros b Hb. apply lookup_delete_ne. set_solver.
      * rewrite Ht, last_addr_cons. destruct (Z.eqb_spec (last_addr a ns2) a) as [E|E].
        { destruct ns2 as [|y ns2]; [done|]. exfalso. apply Ha2. rewrite <- E at 1.
          by apply last_addr_in. }
        destruct ns2 as [|[b f] ns2]; [done|]. by rewrite !last_addr_cons.
    + intros b Hb _. apply lookup_delete_ne. set_solver.
  - rewrite last_addr_snoc.
    assert (t <> NULL) as Htn.
    { eapply List_rep_addrs; [done|]. rewrite !fmap_app. set_solver. }
    destruct (Z.eqb_spec t NULL) as [|_]; [done|].
    apply lseg_app in Hs1 as (r & Hs0 & [-> (nx' & Ht' & ->)]).
    rewrite Ht'. csimpl. eexists _, _. split; [done|].
    rewrite fmap_app in Hnd1, Ha1, Hd. csimpl in *.
    apply NoDup_app in Hnd1 as (Hnd0 & Hd0 & _). split.
    + split_and!; simpl; try done.
      * apply lseg_app. exists nx. split; [apply lseg_app; exists t; split|].
        { eapply lseg_frame; [|done]. intros b Hb.
          rewrite lookup_delete_ne, lookup_insert_ne; set_solver. }
        { csimpl. split; [done|]. exists nx.
          rewrite lookup_delete_ne, lookup_insert_eq by set_solver. done. }
        { eapply lseg_frame; [|done]. intros b Hb.
          rewrite lookup_delete_ne, lookup_insert_ne; [done| |set_solver].
          intros ->. apply (Hd b); set_solver. }
      * rewrite Ht, last_addr_app_cons.
        destruct (Z.eqb_spec (last_addr a ns2) a) as [E|E].
        { destruct ns2 as [|y ns2]; [by rewrite app_nil_r, last_addr_snoc|].
          exfalso. apply Ha2. rewrite <- E at 1. by apply last_addr_in. }
        destruct ns2 as [|[b f] ns2]; [done|]. by rewrite last_addr_app_cons, last_addr_cons.
    + intros b Hb _. rewrite !fmap_app in Hb. csimpl in Hb.
      rewrite lookup_delete_ne, lookup_insert_ne; set_solver.
Qed.

Lemma List_RemoveAt_rep m l ns1 a d ns2 :
  List_rep m l (ns1 ++ (a, d) :: ns2) ->
  exists m' l',
    List_RemoveAt m (Some l) (Z.of_nat (length ns1)) = Some (m', Some l', true) /\
    List_rep m' l' (ns1 ++ ns2) /\ only_changes (ns1 ++ (a, d) :: ns2).*1 None m m'.
Proof.
  intros Hrep. pose proof Hrep as (Hs & _ & _ & _ & Hcnt).
  destruct (unlink_rep _ _ _ _ _ _ Hrep) as (m' & l' & Hu & H). exists m', l'.
  split; [|done]. csimpl. rewrite Hcnt, length_app. csimpl.
  destruct (Z.leb_spec (Z.of_nat (length ns1 + S (length ns2))) (Z.of_nat (length ns1))); [lia|].
  rewrite Nat2Z.id. erewrite advance_lseg by done. csimpl. by rewrite Hu.
Qed.

Lemma List_InsertAt_mid_rep m l ns1 n ns2 a item :
  List_rep m l (ns1 ++ n :: ns2) -> addr_ok a -> m !! a = None ->
  exists m' l',
    List_InsertAt m (Some l) (Z.of_nat (length ns1)) item (Some a) = Some (m', Some l', true) /\
    List_rep m' l' (ns1 ++ (a, item) :: n :: ns2) /\
    only_changes (ns1 ++ n :: ns2).*1 (Some a) m m'.
Proof.
  intros Hrep Ha Hfresh.
  pose proof (fresh_not_in _ _ _ _ Hrep Hfresh) as Hni.
  pose proof Hrep as (Hs & Hnd & Hok & Ht & Hcnt). csimpl.
  rewrite Hcnt, length_app. csimpl.
  destruct (Z.ltb_spec (Z.of_nat (length ns1 + S (length ns2))) (Z.of_nat (length ns1))); [lia|].
  destruct (Z.eqb_spec (Z.of_nat (length ns1)) (Z.of_nat (length ns1 + S (length ns2)))); [lia|].
  assert (count l +[size_bits] 1 = (Z.of_nat (length ns1 + S (length ns2)) +[size_bits] 1)) as Hc.
  { rewrite Hcnt, length_app. done. }
  destruct ns1 as [|[t e] ns0 _] using rev_ind; csimpl.
  - eexists _, _. split; [done|]. split.
    + eapply (link_rep m _ l _ [] (n :: ns2) a item); simpl; try done.
      * intros b _ ?. by rewrite lookup_insert_ne.
      * split; [done|]. exists (head l). rewrite lookup_insert_eq. split; [done|].
        apply (lseg_frame m _ _ (n :: ns2)); [|done]. intros b Hb.
        apply lookup_insert_ne. set_solver.
      * rewrite Ht. destruct n as [b f]. rewrite app_nil_l, !last_addr_cons.
        destruct (Z.eqb_spec (last_addr b ns2) NULL) as [E|]; [|done].
        exfalso. eapply (List_rep_addrs m l); [done| |exact E].
        rewrite app_nil_l, <- (last_addr_cons NULL ns2 b f). by apply last_addr_in.
    + intros b _ Hb. apply lookup_insert_ne. congruence.
  - rewrite length_app. csimpl.
    destruct (Z.eqb_spec (Z.of_nat (length ns0 + 1)) 0); [lia|].
    replace (Z.to_nat (Z.of_nat (length ns0 + 1) - 1)) with (length ns0) by lia.
    rewrite <- app_assoc in Hs. csimpl in Hs.
    erewrite advance_lseg by done. csimpl.
    apply lseg_app in Hs as (r & Hs0 & [-> (nx & Hr & Hs2)]). rewrite Hr. csimpl.
    eexists _, _. split; [done|].
    rewrite <- app_assoc, fmap_app in Hnd, Hni. csimpl in Hnd; csimpl in Hni.
    apply NoDup_app in Hnd as (_ & Hd & [Ht2 _]%NoDup_cons).
    assert (forall b, b ∉ ((ns0 ++ [(t, e)]) ++ n :: ns2).*1 -> b <> a ->
      <[t:=mkListNode a e]> (<[a:=mkListNode nx item]> m) !! b = m !! b) as Hout.
    { intros b Hb Hba. rewrite <- app_assoc, fmap_app in Hb; csimpl in Hb.
      rewrite !lookup_insert_ne; set_solver. }
    split.
    + eapply (link_rep m _ l _ (ns0 ++ [(t, e)]) (n :: ns2) a item); try done.
      * csimpl. apply lseg_app. exists a. split; [apply lseg_app; exists t; split|].
        { eapply lseg_frame; [|done]. intros b Hb. rewrite !lookup_insert_ne; set_solver. }
        { csimpl. split; [done|]. exists a. by rewrite lookup_insert_eq. }
        split; [done|]. exists nx.
        rewrite lookup_insert_ne, lookup_insert_eq by set_solver. split; [done|].
        apply (lseg_frame m _ _ (n :: ns2)); [|done]. intros b Hb.
        rewrite !lookup_insert_ne; set_solver.
      * csimpl. rewrite Ht. destruct n as [b f]. rewrite !last_addr_app_cons, last_addr_cons.
        destruct Hs2 as [-> _].
        destruct (Z.eqb_spec b NULL) as [E|]; [|done].
        exfalso. eapply (List_rep_addrs m l); [done| |exact E].
        rewrite !fmap_app. set_solver.
      * csimpl. rewrite Hc, length_app. done.
    + intros b Hb1 Hb2. apply Hout; [done|congruence].
Qed.

(** The search loop of [List_Remove] on the suffix [ns2] of the chain. *)
Lemma remove_loop_rep m l item ns2 : forall ns1 cur fuel,
  List_rep m l (ns1 ++ ns2) -> lseg m cur ns2 NULL -> (length ns2 < fuel)%nat ->
  match list_find (fun n => item = n.2) ns2 with
  | None => remove_loop m l item fuel (last_addr NULL ns1) cur = Some (m, Some l, false)
  | Some (i, _) => exists m' l',
      remove_loop m l item fuel (last_addr NULL ns1) cur = Some (m', Some l', true) /\
      List_rep m' l' (ns1 ++ delete i ns2) /\ only_changes (ns1 ++ ns2).*1 None m m'
  end.
Proof.
  induction ns2 as [|[a d] ns2 IH]; intros ns1 cur fuel Hrep Hs Hf;
    (destruct fuel as [|fuel]; [simpl in Hf; lia|]).
  { simpl in *. by rewrite Hs. }
  destruct Hs as [-> (nx & Ha & Hs)]. simpl in Hf. csimpl.
  assert (a <> NULL) as Hnn.
  { eapply List_rep_addrs; [done|]. rewrite fmap_app. set_solver. }
  destruct (Z.eqb_spec a NULL) as [|_]; [done|]. rewrite Ha. csimpl.
  destruct (decide (item = d)) as [->|Hne].
  - rewrite Z.eqb_refl. destruct (unlink_rep _ _ _ _ _ _ Hrep) as (m' & l' & Hu & H).
    exists m', l'. by rewrite Hu.
  - destruct (Z.eqb_spec d item) as [|_]; [congruence|].
    specialize (IH (ns1 ++ [(a, d)]) nx fuel).
    rewrite last_addr_snoc, <- app_assoc in IH. simpl in IH.
    specialize (IH Hrep Hs ltac:(lia)).
    destruct (list_find _ ns2) as [[i x]|] eqn:E; csimpl; [|done].
    destruct IH as (m' & l' & Hr & Hrep' & Hc). exists m', l'. split_and!; [done| |done].
    by rewrite <- app_assoc in Hrep'.
Qed.

Lemma list_find_snd (item : Z) ns :
  list_find (item =.) ns.*2 = prod_map id snd <$> list_find (fun n => item = n.2) ns.
Proof. by rewrite list_find_fmap. Qed.

Lemma clear_loop_rep fd ns : forall m p fuel,
  lseg m p ns NULL -> NoDup ns.*1 -> Forall addr_ok ns.*1 -> (length ns < fuel)%nat ->
  exists m', clear_loop m fd fuel p =
    Some (m', if fd then filter (fun d => d <> NULL) ns.*2 else []) /\
    only_changes ns.*1 None m m'.
Proof.
  induction ns as [|[a d] ns IH]; intros m p fuel Hs Hnd Hok Hf;
    (destruct fuel as [|fuel]; [simpl in Hf; lia|]).
  { simpl in Hs. subst p. exists m. split; [|by intros ?]. by destruct fd. }
  destruct Hs as [-> (nx & Ha & Hs)]. csimpl in Hnd; csimpl in Hok.
  apply NoDup_cons in Hnd as [Hni Hnd]. apply Forall_cons in Hok as [Hoka Hok].
  simpl in Hf. csimpl. destruct (Z.eqb_spec a NULL) as [->|_].
  { unfold addr_ok, NULL in Hoka. lia. }
  rewrite Ha. csimpl.
  destruct (IH (delete a m) nx fuel) as (m' & Hc & Hch); [|done|done|lia|].
  { eapply lseg_frame; [|done]. intros b Hb. apply lookup_delete_ne. set_solver. }
  exists m'. rewrite Hc. csimpl. split.
  - f_equal. f_equal. destruct fd; [|done]. csimpl.
    rewrite filter_cons. destruct (Z.eqb_spec d NULL) as [->|]; csimpl.
    + by destruct (decide (NULL <> NULL)).
    + by rewrite decide_True.
  - intros b Hb Hm. rewrite Hch by set_solver. apply lookup_delete_ne. set_solver.
Qed.

(** Indices are values of type [size_t]. *)
Definition op_ok (op : list_op) : Prop :=
  match op with
  | OpRemoveAt i | OpInsertAt i _ => 0 <= i < 2 ^ size_bits
  | _ => True
  end.

Lemma insert_at_end_rep m l ns item mal :
  List_rep m l ns -> malloc_fresh m mal ->
  exists m' l' ns', List_Add m (Some l) item mal = Some (m', Some l') /\
    List_rep m' l' ns' /\ ns'.*2 = (if malloc_ok mal then ns.*2 ++ [item] else ns.*2) /\
    only_changes ns.*1 mal m m'.
Proof.
  intros Hrep Hm. destruct mal as [a|].
  - destruct Hm as [Ha Hf].
    destruct (List_Add_rep _ _ _ _ item Hrep Ha Hf) as (m' & l' & H1 & H2 & H3).
    exists m', l', (ns ++ [(a, item)]). split_and!; try done. by rewrite fmap_app.
  - exists m, l, ns. by split_and!.
Qed.

End Refine.

(** ** Queries and iteration *)

Section Query.
Context `{A : Arch}.
Implicit Types (m : nodes) (l : List) (ns : list (Z * Z)).

(** The loop the clients write:
    [for (it = List_Foreach_Begin(l); it; it = List_Foreach_Next(it))], here
    collecting [List_Foreach_Data(it)]. *)
Fixpoint foreach_collect m (fuel : nat) (it : Z) : option (list Z) :=
  match fuel with
  | O => None
  | S fuel =>
    if it =? NULL then Some []
    else d ← List_Foreach_Data m it;
         nx ← List_Foreach_Next m it;
         ds ← foreach_collect m fuel nx;
         Some (d :: ds)
  end.

Lemma foreach_collect_lseg m ns : forall p fuel,
  lseg m p ns NULL -> Forall addr_ok ns.*1 -> (length ns < fuel)%nat ->
  foreach_collect m fuel p = Some ns.*2.
Proof.
  induction ns as [|[a d] ns IH]; intros p fuel Hs Hok Hf;
    (destruct fuel as [|fuel]; [simpl in Hf; lia|]).
  { simpl in Hs. by subst p. }
  destruct Hs as [-> (nx & Ha & Hs)]. csimpl in Hok. apply Forall_cons in Hok as [Ho Hok].
  simpl in Hf. csimpl. unfold List_Foreach_Data, List_Foreach_Next.
  destruct (Z.eqb_spec a NULL) as [->|_]; [unfold addr_ok, NULL in Ho; lia|].
  rewrite Ha. csimpl. by rewrite (IH nx fuel Hs Hok ltac:(lia)).
Qed.

Lemma index_loop_lseg m item ns : forall p fuel idx,
  lseg m p ns NULL -> Forall addr_ok ns.*1 -> (length ns < fuel)%nat ->
  0 <= idx -> idx + Z.of_nat (length ns) <= 2 ^ 63 ->
  idx + Z.of_nat (length ns) < 2 ^ size_bits ->
  index_loop m item fuel p idx =
    Some (match list_find (item =.) ns.*2 with
          | Some (i, _) => idx + Z.of_nat i | None => -1 end).
Proof.
  induction ns as [|[a d] ns IH]; intros p fuel idx Hs Hok Hf H0 H1 H2;
    (destruct fuel as [|fuel]; [simpl in Hf; lia|]).
  { simpl in Hs. by subst p. }
  destruct Hs as [-> (nx & Ha & Hs)]. csimpl in Hok. apply Forall_cons in Hok as [Ho Hok].
  simpl length in *. csimpl.
  destruct (Z.eqb_spec a NULL) as [->|_]; [unfold addr_ok, NULL in Ho; lia|].
  rewrite Ha. csimpl. destruct (Z.eqb_spec d item) as [->|Hne].
  - rewrite decide_True by done. f_equal. unfold sign_of. rewrite wrap_small by lia.
    destruct (Z.ltb_spec idx (2 ^ (64 - 1))); simpl in *; lia.
  - rewrite decide_False by done. rewrite wrap_small by lia.
    rewrite IH by (done || lia).
    f_equal. destruct (list_find (item =.) ns.*2) as [[i x]|]; simpl; lia.
Qed.

(** The queries answer from the elements: the size, emptiness, the
    element at an index (null out of range), the index of the first
    occurrence of a pointer (-1 if absent), and a [foreach] loop visits the
    elements in order and stops. *)
Theorem list_queries_spec m l ns :
  List_rep m l ns -> Z.of_nat (length ns) <= 2 ^ 63 ->
  List_Size (Some l) = Z.of_nat (length ns) /\
  (List_IsEmpty (Some l) = true <-> ns.*2 = []) /\
  (forall i, 0 <= i -> List_GetAt m (Some l) i = Some (default NULL (ns.*2 !! Z.to_nat i))) /\
  (forall item, List_IndexOf m (Some l) item =
     Some (match list_find (item =.) ns.*2 with
           | Some (i, _) => Z.of_nat i | None => -1 end)) /\
  foreach_collect m (S (size m)) (List_Foreach_Begin (Some l)) = Some ns.*2.
Proof.
  intros Hrep Hlt. pose proof (List_rep_bound _ _ _ Hrep) as Hb.
  pose proof (List_rep_fuel _ _ _ Hrep) as Hfuel.
  pose proof Hrep as (Hs & Hnd & Hok & Ht & Hcnt). split_and!.
  - done.
  - simpl. rewrite Hcnt, Z.eqb_eq. destruct ns; naive_solver lia.
  - intros i Hi. simpl. rewrite Hcnt.
    destruct (Z.leb_spec (Z.of_nat (length ns)) i) as [Hge|Hl].
    { by rewrite lookup_ge_None_2 by (rewrite length_fmap; lia). }
    destruct (split_at_index ns (Z.to_nat i)) as (ns1 & a & d & ns2 & -> & Hl1); [lia|].
    rewrite <- Hl1. erewrite advance_lseg by done. simpl.
    apply lseg_app in Hs as (r & _ & [-> (nx & Hr & _)]).
    destruct (Z.eqb_spec a NULL) as [E|_].
    { exfalso. eapply (List_rep_addrs m l); [done| |exact E]. rewrite fmap_app. set_solver. }
    rewrite Hr. simpl. rewrite fmap_app, fmap_cons.
    rewrite lookup_app_r by (rewrite length_fmap; lia).
    by rewrite length_fmap, Nat.sub_diag.
  - intros item. cbn [List_IndexOf]. rewrite (index_loop_lseg m item ns); try done; lia.
  - cbn [List_Foreach_Begin]. destruct (Z.eqb_spec (count l) 0) as [E|_].
    { destruct ns; [done|simpl in *; lia]. }
    apply foreach_collect_lseg; [done..|lia].
Qed.

(** When [malloc] fails, inserting at the end reports success although
    nothing was inserted; inserting anywhere else reports the failure. *)
Lemma List_InsertAt_oom m l index item :
  0 <= index <= count l ->
  List_InsertAt m (Some l) index item None = Some (m, Some l, index =? count l).
Proof.
  intros Hi. simpl. destruct (Z.ltb_spec (count l) index); [lia|].
  by destruct (index =? count l).
Qed.
End Query.

(** ** Concrete instances *)

Section Examples.
#[local] Instance list_example_arch : Arch := AMD64.

(** Two nodes, at 16 and 32, holding 7 and 9. *)
Definition ex_store : nodes :=
  {[ 16 := mkListNode 32 7; 32 := mkListNode NULL 9 ]}.

Definition ex_list : List := mkList 16 32 2.

Lemma ex_list_rep : List_rep ex_store ex_list [(16, 7); (32, 9)].
Proof.
  split_and!; simpl; try done.
  - split; [done|]. exists 32. split; [done|]. split; [done|]. by exists NULL.
  - repeat constructor; set_solver.
  - unfold addr_ok. simpl. repeat constructor; lia.
Qed.


Lemma list_queries_spec_witness : List_Size (Some ex_list) = 2.
Proof.
  refine (proj1 (list_queries_spec ex_store ex_list [(16, 7); (32, 9)] ex_list_rep _)).
  simpl. lia.
Defined.

End Examples.
