(* ===== verification/CString.v ===== *)
(** * C strings ([kernel/util/string.c])

    A [char*] is the list of the bytes of its object from the pointer on
    (so [p + 1] is the tail), [None] for a null pointer; a byte is a [Z] in
    [0, 256).  A read or write past the end of the object is undefined
    behaviour and makes the function [None].  A pointer result is an offset
    from the argument, [None] inside for null.  Source and destination of a
    copy are distinct objects, as C requires of these functions. *)

From S2P Require Import Prelude Bytes.

Abbreviation cptr := (option (list Z)).

(** [char] is signed on both targets. *)
Definition schar (b : Z) : Z := sign_of 8 b.

(** The bytes of a string literal or of a NUL-free sequence with its
    terminator. *)
Definition cstr (s : bytes) : bytes := s ++ [0].

(** [p] holds the string [s]: NUL-free bytes, then the terminator. *)
Definition holds_string (p : bytes) (s : bytes) : Prop :=
  (0 ∉ s) /\ exists rest, p = s ++ 0 :: rest.

(** ** Characters *)

Definition to_lower (c : Z) : Z :=
  if (65 <=? c) && (c <=? 90) then c + (97 - 65) else c.

Definition to_upper (c : Z) : Z :=
  if (97 <=? c) && (c <=? 122) then c - (97 - 65) else c.

Definition is_alpha (c : Z) : bool :=
  ((97 <=? c) && (c <=? 122)) || ((65 <=? c) && (c <=? 90)).

Definition is_digit (c : Z) : bool := (48 <=? c) && (c <=? 57).

Definition is_space (c : Z) : bool :=
  (c =? 32) || (c =? 9) || (c =? 10) || (c =? 13) || (c =? 12) || (c =? 11).

(** ** Lengths *)

Fixpoint strlen_loop (s : bytes) (len : Z) : option Z :=
  match s with
  | [] => None
  | c :: t => if c =? 0 then Some len else strlen_loop t (len + 1)
  end.

Definition strlen (str : cptr) : option Z :=
  match str with None => Some 0 | Some s => strlen_loop s 0 end.

Fixpoint strnlen_loop (s : bytes) (len maxlen : Z) : option Z :=
  match s with
  | [] => if len <? maxlen then None else Some len
  | c :: t =>
      if (len <? maxlen) && negb (c =? 0) then strnlen_loop t (len + 1) maxlen
      else Some len
  end.

Definition strnlen (str : cptr) (maxlen : Z) : option Z :=
  match str with None => Some 0 | Some s => strnlen_loop s 0 maxlen end.

(** ** Copies: the result is the new content of [dest] *)

(** Copy up to and including the terminator. *)
Fixpoint strcpy_loop (dest src : bytes) : option bytes :=
  match src, dest with
  | c :: src', _ :: dest' =>
      if c =? 0 then Some (0 :: dest') else cons c <$> strcpy_loop dest' src'
  | _, _ => None
  end.

Definition strcpy (dest src : cptr) : option cptr :=
  match dest, src with
  | Some d, Some s => Some <$> strcpy_loop d s
  | _, _ => Some dest
  end.

(** [for (; i < n; i++) dest[i] = '\0';] with [n] bytes left *)
Fixpoint zero_loop (dest : bytes) (n : nat) : option bytes :=
  match n with
  | O => Some dest
  | S n' => match dest with [] => None | _ :: dest' => cons 0 <$> zero_loop dest' n' end
  end.

Fixpoint strncpy_loop (dest src : bytes) (n : nat) : option bytes :=
  match n with
  | O => Some dest
  | S n' =>
    match src with
    | [] => None
    | c :: src' =>
      if c =? 0 then zero_loop dest n
      else match dest with
           | [] => None
           | _ :: dest' => cons c <$> strncpy_loop dest' src' n'
           end
    end
  end.

Definition strncpy (dest src : cptr) (n : Z) : option cptr :=
  match dest, src with
  | Some d, Some s => Some <$> strncpy_loop d s (Z.to_nat n)
  | _, _ => Some dest
  end.

(** Walk to the terminator of [dest], then run [k] from there. *)
Fixpoint at_end (dest : bytes) (k : bytes -> option bytes) : option bytes :=
  match dest with
  | [] => None
  | c :: dest' => if c =? 0 then k dest else cons c <$> at_end dest' k
  end.

Definition strcat (dest src : cptr) : option cptr :=
  match dest, src with
  | Some d, Some s => Some <$> at_end d (fun e => strcpy_loop e s)
  | _, _ => Some dest
  end.

(** [while (i < n && src[i]) { dest[i] = src[i]; i++; } dest[i] = '\0';] *)
Fixpoint strncat_loop (dest src : bytes) (n : nat) : option bytes :=
  match dest with
  | [] => None
  | _ :: dest' =>
    match n with
    | O => Some (0 :: dest')
    | S n' =>
      match src with
      | [] => None
      | c :: src' => if c =? 0 then Some (0 :: dest') else cons c <$> strncat_loop dest' src' n'
      end
    end
  end.

Definition strncat (dest src : cptr) (n : Z) : option cptr :=
  match dest, src with
  | Some d, Some s => Some <$> at_end d (fun e => strncat_loop e s (Z.to_nat n))
  | _, _ => Some dest
  end.

(** [strdup] with the object [malloc] returned ([None]: allocation failed, and
    the copy goes through a null pointer). *)
Definition strdup (str : cptr) (mal : bool) : option bytes :=
  len ← strlen str;
  match str with
  | None => None
  | Some s => if mal then Some (take (Z.to_nat (len + 1)) s) else None
  end.

(** ** Comparisons *)

(** Null pointers order before everything else. *)
Definition null_order (str1 str2 : cptr) : Z :=
  match str1, str2 with
  | None, None => 0
  | Some _, _ => 1
  | None, Some _ => -1
  end.

Fixpoint strcmp_loop (s1 s2 : bytes) : option Z :=
  match s1, s2 with
  | c1 :: t1, c2 :: t2 =>
      if negb (c1 =? 0) && (c1 =? c2) then strcmp_loop t1 t2 else Some (c1 - c2)
  | _, _ => None
  end.

Definition strcmp (str1 str2 : cptr) : option Z :=
  match str1, str2 with
  | Some s1, Some s2 => strcmp_loop s1 s2
  | _, _ => Some (null_order str1 str2)
  end.

Fixpoint strncmp_loop (s1 s2 : bytes) (n : nat) : option Z :=
  match n with
  | O => Some 0
  | S n' =>
    match s1, s2 with
    | c1 :: t1, c2 :: t2 =>
        if negb (c1 =? 0) && (c1 =? c2) then strncmp_loop t1 t2 n' else Some (c1 - c2)
    | _, _ => None
    end
  end.

Definition strncmp (str1 str2 : cptr) (n : Z) : option Z :=
  if n =? 0 then Some 0
  else match str1, str2 with
       | Some s1, Some s2 => strncmp_loop s1 s2 (Z.to_nat n)
       | _, _ => Some (null_order str1 str2)
       end.

Fixpoint strcasecmp_loop (s1 s2 : bytes) : option Z :=
  match s1, s2 with
  | c1 :: t1, c2 :: t2 =>
      if negb (c1 =? 0) && (to_lower c1 =? to_lower c2) then strcasecmp_loop t1 t2
      else Some (schar (to_lower c1) - schar (to_lower c2))
  | _, _ => None
  end.

Definition strcasecmp (str1 str2 : cptr) : option Z :=
  match str1, str2 with
  | Some s1, Some s2 => strcasecmp_loop s1 s2
  | _, _ => Some (null_order str1 str2)
  end.

Fixpoint strncasecmp_loop (s1 s2 : bytes) (n : nat) : option Z :=
  match n with
  | O => Some 0
  | S n' =>
    match s1, s2 with
    | c1 :: t1, c2 :: t2 =>
        if negb (c1 =? 0) && (to_lower c1 =? to_lower c2) then strncasecmp_loop t1 t2 n'
        else Some (schar (to_lower c1) - schar (to_lower c2))
    | _, _ => None
    end
  end.

Definition strncasecmp (str1 str2 : cptr) (n : Z) : option Z :=
  if n =? 0 then Some 0
  else match str1, str2 with
       | Some s1, Some s2 => strncasecmp_loop s1 s2 (Z.to_nat n)
       | _, _ => Some (null_order str1 str2)
       end.

(** ** Searches *)

Fixpoint strchr_loop (s : bytes) (c off : Z) : option (option Z) :=
  match s with
  | [] => None
  | b :: t =>
      if b =? 0 then Some (if c =? 0 then Some off else None)
      else if b =? wrap 8 c then Some (Some off)
      else strchr_loop t c (off + 1)
  end.

Definition strchr (str : cptr) (c : Z) : option (option Z) :=
  match str with None => Some None | Some s => strchr_loop s c 0 end.

Fixpoint strrchr_loop (s : bytes) (c off : Z) (last : option Z) : option (option Z) :=
  match s with
  | [] => None
  | b :: t =>
      let last' := if b =? wrap 8 c then Some off else last in
      if b =? 0 then Some last' else strrchr_loop t c (off + 1) last'
  end.

Definition strrchr (str : cptr) (c : Z) : option (option Z) :=
  match str with None => Some None | Some s => strrchr_loop s c 0 None end.

(** The inner loop of [strstr] and its test: does the needle end here? *)
Fixpoint needle_here (h n : bytes) : option bool :=
  match h with
  | [] => None
  | ch :: h' =>
    match n with
    | [] => None
    | cn :: n' =>
        if negb (ch =? 0) && negb (cn =? 0) && (ch =? cn) then needle_here h' n'
        else Some (cn =? 0)
    end
  end.

Fixpoint strstr_loop (h n : bytes) (off : Z) : option (option Z) :=
  match h with
  | [] => None
  | c :: h' =>
      if c =? 0 then Some None
      else found ← needle_here h n;
           if found : bool then Some (Some off) else strstr_loop h' n (off + 1)
  end.

Definition strstr (haystack needle : cptr) : option (option Z) :=
  match haystack, needle with
  | Some h, Some n =>
      c ← n !! 0%nat;
      if c =? 0 then Some (Some 0) else strstr_loop h n 0
  | _, _ => Some None
  end.

(** [for (i = 0; i <= len - needle_len; i++)] with [todo] iterations left *)
Fixpoint strnstr_loop (h n : bytes) (nlen : Z) (todo : nat) (i : Z) : option (option Z) :=
  match todo with
  | O => Some None
  | S todo' =>
      r ← strncmp (Some h) (Some n) nlen;
      if r =? 0 then Some (Some i)
      else match h with
           | [] => None
           | _ :: h' => strnstr_loop h' n nlen todo' (i + 1)
           end
  end.

Definition strnstr (haystack needle : cptr) (len : Z) : option (option Z) :=
  match haystack, needle with
  | Some h, Some n =>
      c ← n !! 0%nat;
      if c =? 0 then Some (Some 0)
      else needle_len ← strlen needle;
           if len <? needle_len then Some None
           else strnstr_loop h n needle_len (Z.to_nat (len - needle_len + 1)) 0
  | _, _ => Some None
  end.

(** [strchr(set, c) != NULL] *)
Definition in_set (set : bytes) (c : Z) : option bool :=
  r ← strchr (Some set) (schar c);
  Some (match r with Some _ => true | None => false end).

(** Count the characters up to the first one whose membership differs from
    [want] (or the terminator). *)
Fixpoint span_loop (want : bool) (s set : bytes) (count : Z) : option Z :=
  match s with
  | [] => None
  | c :: t =>
      if c =? 0 then Some count
      else b ← in_set set c;
           if Bool.eqb b want then span_loop want t set (count + 1) else Some count
  end.

Definition strspn (str1 str2 : cptr) : option Z :=
  match str1, str2 with
  | Some s1, Some s2 => span_loop true s1 s2 0
  | _, _ => Some 0
  end.

Definition strcspn (str1 str2 : cptr) : option Z :=
  match str1, str2 with
  | Some s1, Some s2 => span_loop false s1 s2 0
  | _, _ => strlen str1
  end.

Fixpoint strpbrk_loop (s set : bytes) (off : Z) : option (option Z) :=
  match s with
  | [] => None
  | c :: t =>
      if c =? 0 then Some None
      else b ← in_set set c;
           if b : bool then Some (Some off) else strpbrk_loop t set (off + 1)
  end.

Definition strpbrk (str1 str2 : cptr) : option (option Z) :=
  match str1, str2 with
  | Some s1, Some s2 => strpbrk_loop s1 s2 0
  | _, _ => Some None
  end.

(** ** The tokenizer

    [strtok] keeps a pointer into the buffer between calls; [saved] is its
    offset, [None] for null.  The buffer is the object [str] of the first call
    pointed into, and the call may overwrite one delimiter with NUL. *)
Definition strtok (saved : option Z) (buf : bytes) (str : option Z) (delim : bytes)
  : option (option Z * bytes * option Z) :=
  match (match str with Some p => Some p | None => saved end) with
  | None => Some (saved, buf, None)
  | Some p0 =>
      skip ← span_loop true (drop (Z.to_nat p0) buf) delim 0;
      let start := p0 + skip in
      c ← buf !! Z.to_nat start;
      if c =? 0 then Some (None, buf, None)
      else
        len ← span_loop false (drop (Z.to_nat start) buf) delim 0;
        let stop := start + len in
        e ← buf !! Z.to_nat stop;
        if negb (e =? 0)
        then Some (Some (stop + 1), <[Z.to_nat stop := 0]> buf, Some start)
        else Some (None, buf, Some start)
  end.

(** ** Facts *)

Lemma strlen_loop_spec s rest len :
  (0 ∉ s) -> strlen_loop (s ++ 0 :: rest) len = Some (len + Z.of_nat (length s)).
Proof.
  revert len; induction s as [|c s IH]; intros len Hs; simpl.
  - f_equal; lia.
  - destruct (Z.eqb_spec c 0) as [->|]; [set_solver|].
    rewrite IH by set_solver. f_equal; lia.
Qed.

Lemma strlen_spec p s : holds_string p s -> strlen (Some p) = Some (Z.of_nat (length s)).
Proof. intros [Hs [rest ->]]. simpl. by rewrite strlen_loop_spec. Qed.

Lemma holds_cstr s : (0 ∉ s) -> holds_string (cstr s) s.
Proof. intros ?. split; [done|]. by exists []. Qed.

Lemma strlen_cstr s : (0 ∉ s) -> strlen (Some (cstr s)) = Some (Z.of_nat (length s)).
Proof. intros. by apply strlen_spec, holds_cstr. Qed.

#[export] Hint Resolve holds_cstr : atomos.

(** Copying and appending strings in place. *)
Lemma zero_loop_spec n dest : (n <= length dest)%nat -> zero_loop dest n = Some (replicate n 0 ++ drop n dest).
Proof.
  revert dest; induction n as [|n IH]; intros [|c dest] Hn; cbn in *; try done; [lia|]. by rewrite IH by lia.
Qed.

Lemma strncpy_loop_spec s rest n : forall dest, (0 ∉ s) -> (length s < n <= length dest)%nat ->
  strncpy_loop dest (s ++ 0 :: rest) n = Some (s ++ replicate (n - length s) 0 ++ drop n dest).
Proof.
  revert n; induction s as [|c s IH]; intros [|n] [|e dest] Hs Hn; cbn in *; try lia.
  - rewrite zero_loop_spec by lia. done.
  - apply not_elem_of_cons in Hs as [Hc Hs]. destruct (Z.eqb_spec c 0); [lia|]. by rewrite IH by (done || lia).
Qed.

Lemma strcpy_loop_spec s tl : forall dest, (0 ∉ s) -> (length s < length dest)%nat ->
  strcpy_loop dest (s ++ 0 :: tl) = Some (s ++ 0 :: drop (S (length s)) dest).
Proof.
  induction s as [|c s IH]; intros [|e dest] Hs Hn; cbn in *; try lia; [done|].
  apply not_elem_of_cons in Hs as [Hc Hs]. destruct (Z.eqb_spec c 0); [lia|]. by rewrite IH by (done || lia).
Qed.

Lemma strcat_spec a rest s tl : (0 ∉ a) -> (0 ∉ s) -> (length s <= length rest)%nat ->
  strcat (Some (a ++ 0 :: rest)) (Some (s ++ 0 :: tl)) = Some (Some (a ++ s ++ 0 :: drop (length s) rest)).
Proof.
  intros Ha Hs Hn. cbn [strcat].
  assert (at_end (a ++ 0 :: rest) (fun e => strcpy_loop e (s ++ 0 :: tl)) = Some (a ++ s ++ 0 :: drop (length s) rest)) as ->; [|done].
  induction a as [|c a IH]; cbn [app at_end].
  - cbn [Z.eqb]. rewrite strcpy_loop_spec by (done || cbn; lia). done.
  - apply not_elem_of_cons in Ha as [Hc Ha]. destruct (Z.eqb_spec c 0); [lia|]. by rewrite IH.
Qed.

(** Lexicographic order of unsigned bytes, the order [strcmp] reports. *)
Fixpoint lex_compare (s1 s2 : bytes) : comparison :=
  match s1, s2 with
  | [], [] => Eq
  | [], _ :: _ => Lt
  | _ :: _, [] => Gt
  | c1 :: t1, c2 :: t2 => match c1 ?= c2 with Eq => lex_compare t1 t2 | o => o end
  end.

Lemma lex_compare_eq s1 s2 : lex_compare s1 s2 = Eq <-> s1 = s2.
Proof.
  revert s2; induction s1 as [|c1 s1 IH]; intros [|c2 s2]; simpl; try done.
  destruct (Z.compare_spec c1 c2) as [->| |]; [rewrite IH; naive_solver|naive_solver lia..].
Qed.

Definition unsigned_bytes (s : bytes) : Prop := Forall (fun c => 0 <= c < 256) s.

(** On two terminated strings [strcmp] reads inside both objects, and the
    sign of its result is the lexicographic comparison of the byte strings; in
    particular it is 0 exactly for equal strings. *)
Theorem strcmp_lexicographic p1 s1 p2 s2 :
  holds_string p1 s1 -> holds_string p2 s2 -> unsigned_bytes s1 -> unsigned_bytes s2 ->
  exists r, strcmp (Some p1) (Some p2) = Some r /\ (r ?= 0) = lex_compare s1 s2 /\
            (r = 0 <-> s1 = s2).
Proof.
  intros [H1 [r1 ->]] [H2 [r2 ->]] B1 B2. cbn [strcmp].
  enough (exists r, strcmp_loop (s1 ++ 0 :: r1) (s2 ++ 0 :: r2) = Some r /\
                    (r ?= 0) = lex_compare s1 s2) as (r & Hr & Hc).
  { exists r. split_and!; [done..|]. rewrite <- lex_compare_eq, <- Hc. symmetry.
    apply Z.compare_eq_iff. }
  revert s2 H2 B2; induction s1 as [|c1 s1 IH]; intros [|c2 s2] H2 B2; simpl.
  - by exists 0.
  - apply Forall_cons in B2 as [? _]. exists (0 - c2). split; [done|].
    apply Z.compare_lt_iff. assert (c2 <> 0) by set_solver. lia.
  - apply Forall_cons in B1 as [? _]. assert (c1 <> 0) by set_solver.
    destruct (Z.eqb_spec c1 0); [done|]. exists (c1 - 0). split; [done|].
    apply Z.compare_gt_iff. lia.
  - apply Forall_cons in B1 as [? B1], B2 as [? B2]. assert (c1 <> 0) by set_solver.
    destruct (Z.eqb_spec c1 0); [done|]. simpl.
    destruct (Z.eqb_spec c1 c2) as [->|].
    + rewrite Z.compare_refl. apply IH; set_solver.
    + exists (c1 - c2). split; [done|].
      destruct (Z.compare_spec c1 c2); [done|..];
        [apply Z.compare_lt_iff|apply Z.compare_gt_iff]; lia.
Qed.

(** The test [strcmp(a, b) == 0] of the clients. *)
Definition streq (a b : bytes) : bool :=
  match strcmp (Some (cstr a)) (Some (cstr b)) with Some r => r =? 0 | None => false end.

Lemma streq_spec a b : (0 ∉ a) -> (0 ∉ b) -> streq a b = true <-> a = b.
Proof.
  unfold streq, cstr. cbn [strcmp].
  revert b; induction a as [|c a IH]; intros [|e b] Ha Hb; simpl.
  - done.
  - destruct (Z.eqb_spec (0 - e) 0); [|done]. set_solver by lia.
  - destruct (Z.eqb_spec c 0); [set_solver|]. simpl.
    destruct (Z.eqb_spec (c - 0) 0); [lia|done].
  - destruct (Z.eqb_spec c 0); [set_solver|]. simpl.
    destruct (Z.eqb_spec c e) as [->|Hne].
    + rewrite IH by set_solver. naive_solver.
    + destruct (Z.eqb_spec (c - e) 0); [lia|]. naive_solver.
Qed.

Lemma strncmp_prefix p q rest : (0 ∉ p) -> (0 ∉ q) ->
  exists r, strncmp_loop (p ++ 0 :: rest) (cstr q) (length q) = Some r /\
            (r = 0 <-> q `prefix_of` p).
Proof.
  unfold cstr. revert p; induction q as [|e q IH]; intros [|c p] Hp Hq; simpl.
  - exists 0. split; [done|]. split; [intros _; apply prefix_nil|done].
  - exists 0. split; [done|]. split; [intros _; apply prefix_nil|done].
  - exists (0 - e). split; [done|]. split; [|by intros ?%prefix_nil_not].
    intros. exfalso. set_solver by lia.
  - destruct (Z.eqb_spec c 0); [set_solver|]. simpl.
    destruct (Z.eqb_spec c e) as [->|Hne].
    + destruct (IH p) as (r & Hr & Hiff); [set_solver..|]. exists r. split; [done|].
      rewrite Hiff. split; [apply prefix_cons|apply prefix_cons_inv_2].
    + exists (c - e). split; [done|]. split; [lia|]. intros ?%prefix_cons_inv_1. congruence.
Qed.

Lemma needle_here_spec s n rest rest' : (0 ∉ s) -> (0 ∉ n) ->
  exists b, needle_here (s ++ 0 :: rest) (n ++ 0 :: rest') = Some b /\
            (b = true <-> n `prefix_of` s).
Proof.
  revert s; induction n as [|e n IH]; intros [|c s] Hs Hn; simpl.
  - exists true. split; [done|]. split; [intros _; apply prefix_nil|done].
  - rewrite andb_false_r. exists true. split; [done|]. split; [intros _; apply prefix_nil|done].
  - destruct (Z.eqb_spec e 0); [set_solver|]. exists false. split; [done|].
    split; [done|]. by intros ?%prefix_nil_not.
  - destruct (Z.eqb_spec c 0); [set_solver|]. destruct (Z.eqb_spec e 0); [set_solver|]. simpl.
    destruct (Z.eqb_spec c e) as [->|Hne].
    + destruct (IH s) as (b & Hb & Hiff); [set_solver..|]. exists b. split; [done|].
      rewrite Hiff. split; [apply prefix_cons|apply prefix_cons_inv_2].
    + exists false. split; [done|]. split; [done|]. intros ?%prefix_cons_inv_1. congruence.
Qed.

(** The first offset at which [n] occurs in [s]. *)
Definition first_occurrence (n s : bytes) (i : nat) : Prop :=
  n `prefix_of` drop i s /\ forall j, (j < i)%nat -> ~ n `prefix_of` drop j s.

Lemma strstr_loop_spec n rest' s : forall rest off,
  (0 ∉ s) -> (0 ∉ n) -> n <> [] ->
  (exists i, strstr_loop (s ++ 0 :: rest) (n ++ 0 :: rest') off = Some (Some (off + Z.of_nat i)) /\
     (i < length s)%nat /\ first_occurrence n s i) \/
  (strstr_loop (s ++ 0 :: rest) (n ++ 0 :: rest') off = Some None /\
     forall i, ~ n `prefix_of` drop i s).
Proof.
  induction s as [|c s IH]; intros rest off Hs Hn Hne; cbn [strstr_loop app].
  - right. split; [done|]. intros i. rewrite drop_nil. destruct n; [done|]. apply prefix_nil_not.
  - destruct (Z.eqb_spec c 0); [set_solver|].
    destruct (needle_here_spec (c :: s) n rest rest' Hs Hn) as (b & Hb & Hiff).
    cbn [app] in Hb. rewrite Hb. cbn [mbind option_bind]. destruct b.
    + left. exists 0%nat. split; [do 2 f_equal; lia|]. split; [simpl; lia|]. split; [by apply Hiff|lia].
    + assert (~ n `prefix_of` c :: s) as Hnot by naive_solver.
      destruct (IH rest (off + 1)) as [(i & Hi & Hlt & [Hp Hmin])|[Hi Hno]]; [set_solver|done..| |].
      * left. exists (S i). rewrite Hi. split; [do 2 f_equal; lia|]. split; [simpl; lia|].
        split; [done|]. intros [|j] Hj; [done|]. apply Hmin. lia.
      * right. split; [done|]. intros [|i]; [done|apply Hno].
Qed.

(** [strstr] on terminated strings returns the offset of the first
    occurrence of a non-empty needle, and null exactly when there is none;
    an empty needle is found at offset 0. *)
Theorem strstr_first h s n p :
  holds_string h s -> holds_string p n ->
  match n with
  | [] => strstr (Some h) (Some p) = Some (Some 0)
  | _ =>
    (exists i, strstr (Some h) (Some p) = Some (Some (Z.of_nat i)) /\ first_occurrence n s i) \/
    (strstr (Some h) (Some p) = Some None /\ forall i, ~ n `prefix_of` drop i s)
  end.
Proof.
  intros [Hs [r ->]] [Hn [r' ->]]. destruct n as [|e n]; [done|].
  cbn [strstr app].
  change ((e :: n ++ 0 :: r') !! 0%nat) with (Some e).
  cbn [mbind option_bind]. destruct (Z.eqb_spec e 0); [set_solver|].
  destruct (strstr_loop_spec (e :: n) r' s r 0 Hs Hn ltac:(done)) as [(i & Hi & _ & H)|H];
    [left; by exists i|by right].
Qed.

(** ** Tokens *)

(** Longest prefix satisfying a test, and the rest. *)
Fixpoint span (P : Z -> bool) (s : bytes) : bytes * bytes :=
  match s with
  | [] => ([], [])
  | c :: t => if P c then let r := span P t in (c :: r.1, r.2) else ([], s)
  end.

Lemma span_app P s : (span P s).1 ++ (span P s).2 = s.
Proof. induction s as [|c s IH]; simpl; [done|]. destruct (P c); simpl; congruence. Qed.

Lemma span_rest P s c t : (span P s).2 = c :: t -> P c = false.
Proof.
  induction s as [|e s IH]; simpl; [done|]. destruct (P e) eqn:E; simpl; [done|].
  intros [= -> ->]. done.
Qed.

Lemma span_all P s c : c ∈ (span P s).1 -> P c = true.
Proof.
  induction s as [|e s IH]; simpl; [set_solver|]. destruct (P e) eqn:E; simpl; [|set_solver].
  intros [->|?]%elem_of_cons; auto.
Qed.

Definition is_delim (d : bytes) (c : Z) : bool := bool_decide (c ∈ d).

Lemma wrap_schar c : 0 <= c < 256 -> wrap 8 (schar c) = c.
Proof.
  intros H. unfold schar, sign_of. rewrite !(wrap_small 8 c) by (simpl; lia).
  change (2 ^ (8 - 1)) with 128. change (2 ^ 8) with 256.
  destruct (Z.ltb_spec c 128); [apply wrap_small; simpl; lia|].
  unfold wrap. change (2 ^ 8) with 256. rewrite <- (Z.mod_small c 256) at 2 by lia.
  replace c with (c - 256 + 1 * 256) at 2 by lia. by rewrite Z.mod_add.
Qed.

Lemma in_set_spec d c : (0 ∉ d) -> 0 < c < 256 -> in_set (cstr d) c = Some (is_delim d c).
Proof.
  intros Hd Hc. unfold in_set, cstr. cbn [strchr].
  assert (schar c <> 0) as Hnz.
  { intros E. pose proof (wrap_schar c ltac:(lia)) as Hw. rewrite E in Hw.
    unfold wrap in Hw. rewrite Z.mod_0_l in Hw; lia. }
  enough (forall off, strchr_loop (d ++ [0]) (schar c) off = Some
    (if is_delim d c then Some (off + Z.of_nat (from_option fst O (list_find (c =.) d))) else None)) as ->.
  { cbn. by destruct (is_delim d c). }
  unfold is_delim. induction d as [|e d IH]; intros off; cbn [strchr_loop app].
  - rewrite bool_decide_eq_false_2 by set_solver.
    destruct (Z.eqb_spec (schar c) 0); [done|]. by destruct (Z.eqb_spec 0 0).
  - destruct (Z.eqb_spec e 0); [set_solver|]. rewrite wrap_schar by lia.
    destruct (Z.eqb_spec e c) as [->|Hne].
    + rewrite bool_decide_eq_true_2 by set_solver. simpl. rewrite decide_True by done.
      simpl. do 2 f_equal. lia.
    + rewrite IH by set_solver. f_equal.
      destruct (decide (c ∈ d)) as [Hin|Hin].
      * rewrite !bool_decide_eq_true_2 by set_solver. simpl. rewrite decide_False by done.
        destruct (list_find (c =.) d) as [[i x]|] eqn:Ef; simpl; [f_equal; lia|].
        exfalso. apply list_find_None in Ef. rewrite Forall_forall in Ef. by apply (Ef c).
      * rewrite !bool_decide_eq_false_2 by set_solver. done.
Qed.

Definition string_bytes (s : bytes) : Prop := Forall (fun c => 0 < c < 256) s.

Lemma string_bytes_nul s : string_bytes s -> (0 ∉ s).
Proof. unfold string_bytes. rewrite Forall_forall. intros H Hin. specialize (H 0 Hin). lia. Qed.

Lemma span_loop_spec want d s rest : forall k,
  (0 ∉ d) -> string_bytes s ->
  span_loop want (s ++ 0 :: rest) (cstr d) k =
    Some (k + Z.of_nat (length (span (fun c => Bool.eqb (is_delim d c) want) s).1)).
Proof.
  induction s as [|c s IH]; intros k Hd Hs; simpl.
  - f_equal; lia.
  - apply Forall_cons in Hs as [Hc Hs]. destruct (Z.eqb_spec c 0); [lia|].
    rewrite in_set_spec by done. simpl.
    destruct (Bool.eqb (is_delim d c) want); simpl; [|f_equal; lia].
    rewrite IH by done. f_equal; lia.
Qed.

(** The words of a string: the maximal delimiter-free runs, in order. *)
Definition emit (w : bytes) : list bytes := match w with [] => [] | _ => [w] end.

Fixpoint words_from (d cur s : bytes) : list bytes :=
  match s with
  | [] => emit cur
  | c :: t => if is_delim d c then emit cur ++ words_from d [] t else words_from d (cur ++ [c]) t
  end.

Definition words (d s : bytes) : list bytes := words_from d [] s.

Lemma words_skip d s : words d s = words d (span (is_delim d) s).2.
Proof.
  unfold words. induction s as [|c s IH]; simpl; [done|].
  destruct (is_delim d c) eqn:E; simpl; [done|]. by rewrite E.
Qed.

Lemma words_from_run d s : forall cur,
  let w := span (fun c => negb (is_delim d c)) s in
  words_from d cur s = emit (cur ++ w.1) ++ words d w.2.
Proof.
  induction s as [|c s IH]; intros cur; simpl.
  - by rewrite !app_nil_r.
  - destruct (is_delim d c) eqn:E; simpl.
    + rewrite app_nil_r. unfold words. simpl. by rewrite E.
    + rewrite IH. by rewrite <- app_assoc.
Qed.

(** Read the string at an offset of the buffer. *)
Definition read_string (buf : bytes) (p : Z) : option bytes :=
  let t := drop (Z.to_nat p) buf in
  n ← strlen (Some t); Some (take (Z.to_nat n) t).

(** The usual loop: [t = strtok(buf, d); while (t) { ...; t = strtok(NULL, d); }] *)
Fixpoint strtok_all (fuel : nat) (saved : option Z) (buf : bytes) (str : option Z) (delim : bytes)
  : option (list bytes) :=
  match fuel with
  | O => None
  | S fuel =>
    r ← strtok saved buf str delim;
    match r.2 with
    | None => Some []
    | Some t =>
        w ← read_string r.1.2 t;
        ws ← strtok_all fuel r.1.1 r.1.2 None delim;
        Some (w :: ws)
    end
  end.

Lemma drop_at (pre tl : bytes) (p : Z) : p = Z.of_nat (length pre) ->
  drop (Z.to_nat p) (pre ++ tl) = tl.
Proof. intros ->. rewrite Nat2Z.id. apply drop_app_length. Qed.

Lemma lookup_at (pre tl : bytes) c (p : Z) : p = Z.of_nat (length pre) ->
  (pre ++ c :: tl) !! Z.to_nat p = Some c.
Proof. intros ->. rewrite Nat2Z.id. apply list_lookup_middle. done. Qed.

Lemma read_string_at pre w rest (p : Z) :
  p = Z.of_nat (length pre) -> string_bytes w ->
  read_string (pre ++ w ++ 0 :: rest) p = Some w.
Proof.
  intros Hp Hw. unfold read_string. rewrite drop_at by done.
  rewrite (strlen_spec _ w) by (split; [by apply string_bytes_nul|by exists rest]).
  simpl. by rewrite Nat2Z.id, take_app_length.
Qed.

Lemma span_ext P Q s : (forall c, P c = Q c) -> span P s = span Q s.
Proof. intros H. induction s as [|c s IH]; simpl; [done|]. by rewrite H, IH. Qed.

(** One call of [strtok] on the string [s] at offset [|pre|]. *)
Lemma strtok_step saved pre s rest d :
  (0 ∉ d) -> string_bytes s ->
  let s' := (span (is_delim d) s).2 in
  let w := span (fun c => negb (is_delim d c)) s' in
  let start := Z.of_nat (length pre + length (span (is_delim d) s).1) in
  let r := strtok saved (pre ++ s ++ 0 :: rest) (Some (Z.of_nat (length pre))) (cstr d) in
  match s' with
  | [] => r = Some (None, pre ++ s ++ 0 :: rest, None)
  | _ =>
    match w.2 with
    | [] => r = Some (None, pre ++ s ++ 0 :: rest, Some start) /\
            read_string (pre ++ s ++ 0 :: rest) start = Some w.1
    | c :: t => exists pre',
        r = Some (Some (Z.of_nat (length pre')), pre' ++ t ++ 0 :: rest, Some start) /\
        read_string (pre' ++ t ++ 0 :: rest) start = Some w.1
    end
  end.
Proof.
  intros Hd Hs s' w start r.
  assert (s = (span (is_delim d) s).1 ++ s') as Es by (symmetry; apply span_app).
  assert (s' = w.1 ++ w.2) as Ew by (symmetry; apply span_app).
  set (a := (span (is_delim d) s).1) in *.
  assert (string_bytes s') as Hs'. { rewrite Es in Hs. by apply Forall_app in Hs as [_ ?]. }
  assert (r = (let st := Z.of_nat (length pre) + (0 + Z.of_nat (length a)) in
     c ← (pre ++ s ++ 0 :: rest) !! Z.to_nat st;
     if c =? 0 then Some (None, pre ++ s ++ 0 :: rest, None)
     else len ← span_loop false (drop (Z.to_nat st) (pre ++ s ++ 0 :: rest)) (cstr d) 0;
       e ← (pre ++ s ++ 0 :: rest) !! Z.to_nat (st + len);
       if negb (e =? 0)
       then Some (Some (st + len + 1), <[Z.to_nat (st + len) := 0]> (pre ++ s ++ 0 :: rest), Some st)
       else Some (None, pre ++ s ++ 0 :: rest, Some st))) as ->.
  { unfold r, strtok. rewrite drop_at by done. rewrite span_loop_spec by done.
    rewrite (span_ext _ (is_delim d)) by (intros c; by destruct (is_delim d c)). done. }
  cbv zeta. rewrite Es, <- app_assoc, (app_assoc pre a).
  replace (Z.of_nat (length pre) + (0 + Z.of_nat (length a))) with start by (unfold start; lia).
  assert (start = Z.of_nat (length (pre ++ a))) as Hst by (unfold start; rewrite length_app; lia).
  destruct s' as [|x s1] eqn:Es'.
  { simpl app. rewrite lookup_at by done. done. }
  apply Forall_cons in Hs' as Hx. destruct Hx as [Hx _].
  change ((x :: s1) ++ 0 :: rest) with (x :: s1 ++ 0 :: rest).
  rewrite lookup_at by done. cbn [mbind option_bind].
  destruct (Z.eqb_spec x 0); [lia|]. rewrite drop_at by done.
  change (x :: s1 ++ 0 :: rest) with ((x :: s1) ++ 0 :: rest).
  rewrite span_loop_spec by done. cbn [mbind option_bind].
  rewrite (span_ext _ (fun c => negb (is_delim d c))) by (intros c; by destruct (is_delim d c)).
  fold w. rewrite Ew, <- !app_assoc, (app_assoc pre a), (app_assoc (pre ++ a) w.1).
  assert (start + (0 + Z.of_nat (length w.1)) = Z.of_nat (length ((pre ++ a) ++ w.1))) as Hend.
  { rewrite length_app. lia. }
  assert (string_bytes w.1 /\ string_bytes w.2) as [Hw1 Hw2].
  { apply Forall_app. by rewrite <- Ew. }
  destruct w.2 as [|c t] eqn:Ew2.
  - simpl app. rewrite lookup_at by done. simpl. split; [done|].
    rewrite <- app_assoc. by apply read_string_at.
  - apply Forall_cons in Hw2 as [Hc _]. change ((c :: t) ++ 0 :: rest) with (c :: t ++ 0 :: rest).
    rewrite lookup_at by done. cbn [mbind option_bind].
    destruct (Z.eqb_spec c 0); [lia|]. cbn [negb].
    exists (((pre ++ a) ++ w.1) ++ [0]). rewrite Hend, Nat2Z.id.
    rewrite insert_app_r_alt, Nat.sub_diag by lia. simpl insert.
    rewrite <- (app_assoc _ [0]). cbn [app]. split.
    + do 4 f_equal. rewrite !length_app. simpl. lia.
    + rewrite <- (app_assoc (pre ++ a)). by apply read_string_at.
Qed.

(** The [strtok] loop over a buffer holding the string [s] terminates
    (in at most [length s + 1] calls) and returns exactly the words of [s], the
    maximal runs without delimiter characters, in order, with every access
    inside the buffer. *)
Theorem strtok_yields_words fuel saved pre s rest d :
  (0 ∉ d) -> string_bytes s -> (length s < fuel)%nat ->
  strtok_all fuel saved (pre ++ s ++ 0 :: rest) (Some (Z.of_nat (length pre))) (cstr d)
  = Some (words d s).
Proof.
  intros Hd. revert saved pre s. induction fuel as [|fuel IH]; intros saved pre s Hs Hf; [lia|].
  pose proof (strtok_step saved pre s rest d Hd Hs) as H. cbv zeta in H.
  cbn [strtok_all]. rewrite words_skip.
  pose proof (span_app (is_delim d) s) as Es.
  destruct (span (is_delim d) s).2 as [|x s1] eqn:E.
  { rewrite H. done. }
  assert (is_delim d x = false) as Hx by (eapply span_rest; eassumption).
  unfold words. rewrite words_from_run.
  pose proof (span_app (fun c => negb (is_delim d c)) (x :: s1)) as Ew.
  destruct (span (fun c => negb (is_delim d c)) (x :: s1)) as [w1 w2] eqn:Esp.
  simpl in H, Ew |- *.
  assert (string_bytes w2) as Hw2.
  { rewrite <- Es, <- Ew in Hs. by apply Forall_app in Hs as [_ [_ ?]%Forall_app]. }
  assert (emit w1 = [w1]) as ->.
  { destruct w1; [|done]. cbn [span] in Esp. rewrite Hx in Esp. by inv Esp. }
  assert (length w2 < fuel \/ w2 = [])%nat as Hlen.
  { apply (f_equal length) in Es. rewrite <- Ew in Es. rewrite !length_app in Es.
    destruct w1; [|simpl in Es; lia]. cbn [span] in Esp. rewrite Hx in Esp. by inv Esp. }
  destruct w2 as [|c t].
  - destruct H as [-> Hr]. simpl. rewrite Hr. simpl.
    destruct fuel as [|fuel]; [|done]. apply (f_equal length) in Es.
    rewrite length_app in Es. simpl in Es. lia.
  - destruct H as (pre' & -> & Hr). simpl. rewrite Hr. simpl. destruct Hlen as [Hlen|]; [|done].
    assert (is_delim d c = true) as Hc.
    { assert (negb (is_delim d c) = false) as Hf'
        by (apply (span_rest (fun c => negb (is_delim d c)) (x :: s1) c t); by rewrite Esp).
      by apply negb_false_iff. }
    apply Forall_cons in Hw2 as [_ Ht]. simpl in Hlen.
    assert (words d (c :: t) = words d t) as -> by (unfold words; simpl; by rewrite Hc).
    replace (strtok_all fuel (Some (Z.of_nat (length pre'))) (pre' ++ t ++ 0 :: rest) None (cstr d))
      with (strtok_all fuel (Some 0) (pre' ++ t ++ 0 :: rest) (Some (Z.of_nat (length pre'))) (cstr d))
      by (by destruct fuel).
    rewrite IH by (done || lia). done.
Qed.

(** The bounded search does not stop at the terminator of the haystack: with a
    length argument larger than the string it reads past the object. *)
Lemma strnstr_reads_past_the_end :
  holds_string (cstr [97; 98]) [97; 98] /\
  strnstr (Some (cstr [97; 98])) (Some (cstr [120])) 10 = None.
Proof. split; [apply holds_cstr; set_solver|done]. Qed.

(** A failed allocation in [strdup] is not reported to the caller: the copy
    writes through the null pointer. *)
Lemma strdup_oom s : strdup (Some (cstr s)) false = None.
Proof. unfold strdup. by destruct (strlen (Some (cstr s))). Qed.

(** ** Concrete instances *)

Lemma strcmp_lexicographic_witness :
  exists r, strcmp (Some [97; 98; 0; 7]) (Some [97; 99; 0]) = Some r /\ (r ?= 0) = Lt /\
            (r = 0 <-> [97; 98] = [97; 99]).
Proof.
  apply (strcmp_lexicographic [97; 98; 0; 7] [97; 98] [97; 99; 0] [97; 99]).
  - split; [set_solver|by exists [7]].
  - split; [set_solver|by exists []].
  - repeat constructor; lia.
  - repeat constructor; lia.
Defined.

Lemma strstr_first_witness :
  (exists i, strstr (Some (cstr [97; 98; 97; 99])) (Some (cstr [97; 99])) = Some (Some (Z.of_nat i)) /\
     first_occurrence [97; 99] [97; 98; 97; 99] i) \/
  (strstr (Some (cstr [97; 98; 97; 99])) (Some (cstr [97; 99])) = Some None /\
     forall i, ~ [97; 99] `prefix_of` drop i [97; 98; 97; 99]).
Proof.
  apply (strstr_first (cstr [97; 98; 97; 99]) [97; 98; 97; 99] [97; 99] (cstr [97; 99])).
  - apply holds_cstr. set_solver.
  - apply holds_cstr. set_solver.
Defined.

(** ["/a//b"] split at ['/']. *)
Lemma strtok_yields_words_witness :
  strtok_all 6 None ([] ++ [47; 97; 47; 47; 98] ++ 0 :: []) (Some 0) (cstr [47]) = Some [[97]; [98]].
Proof.
  apply (strtok_yields_words 6 None [] [47; 97; 47; 47; 98] [] [47]).
  - set_solver.
  - repeat constructor; lia.
  - simpl. lia.
Defined.

(** ** Comparison without case *)

Lemma lower_byte c : 0 < c < 256 -> 0 < to_lower c < 256.
Proof. intros H. unfold to_lower. destruct (Z.leb_spec 65 c), (Z.leb_spec c 90); cbn [andb]; lia. Qed.

Lemma schar_diff a b : 0 <= a < 256 -> 0 <= b < 256 -> schar a - schar b = 0 -> a = b.
Proof. intros Ha Hb H. rewrite <- (wrap_schar a), <- (wrap_schar b) by lia. f_equal. lia. Qed.

Lemma strcasecmp_fold s1 : forall s2, Forall (fun c => 0 < c < 256) s1 -> Forall (fun c => 0 < c < 256) s2 ->
  exists z, strcasecmp (Some (cstr s1)) (Some (cstr s2)) = Some z /\ (z = 0 <-> to_lower <$> s1 = to_lower <$> s2).
Proof.
  unfold strcasecmp, cstr. induction s1 as [|c1 s1 IH]; intros [|c2 s2] H1 H2; cbn [app strcasecmp_loop].
  - exists 0. done.
  - apply Forall_cons in H2 as [H2 _]. eexists. split; [done|]. split; [|done]. intros E.
    pose proof (lower_byte c2 H2). apply schar_diff in E; [|done|lia]. change (to_lower 0) with 0 in E. lia.
  - apply Forall_cons in H1 as [H1 _]. pose proof (lower_byte c1 H1). change (to_lower 0) with 0.
    destruct (Z.eqb_spec c1 0); [lia|]. destruct (Z.eqb_spec (to_lower c1) 0); [lia|]. cbn [negb andb]. eexists. split; [done|]. split; [|done].
    intros E. apply schar_diff in E; [lia|lia|done].
  - apply Forall_cons in H1 as [H1 H1']. apply Forall_cons in H2 as [H2 H2']. pose proof (lower_byte c1 H1). pose proof (lower_byte c2 H2).
    destruct (Z.eqb_spec c1 0); [lia|]. rewrite !fmap_cons. destruct (Z.eqb_spec (to_lower c1) (to_lower c2)) as [E|E]; cbn [negb andb].
    + destruct (IH s2 H1' H2') as (z & Hz & Hi). exists z. split; [done|]. rewrite E, Hi. split; [by intros ->|by intros [= ->]].
    + eexists. split; [done|]. split; [|by intros [=]]. intros E'. apply schar_diff in E'; [done|lia..].
Qed.
