(* ===== verification/Memory.v ===== *)
(** * Byte memory primitives ([kernel/memory/memory.c], [kernel/amd64/memcpy.asm],
      [kernel/i386/memcpy.asm])

    Memory is a finite map from addresses to bytes; an access to an address it
    does not hold is undefined behaviour ([None]).  The assembly [memcpy] is
    modelled on its registers' values, one definition for each string
    instruction. *)

From S2P Require Import Prelude.

Abbreviation mem := (gmap Z Z).

Section Ops.
Implicit Types (m : mem).

Definition store m (a v : Z) : option mem :=
  _ ← m !! a; Some (<[a := v]> m).

(** *** memory.c *)

Fixpoint memset_loop m (ptr value i : Z) (todo : nat) : option mem :=
  match todo with
  | O => Some m
  | S todo => m' ← store m (ptr + i) (wrap 8 value); memset_loop m' ptr value (i + 1) todo
  end.

Definition memset m (ptr value num : Z) : option mem :=
  memset_loop m ptr value 0 (Z.to_nat num).

(** [d[i] = s[i]] for [i] from 0 up. *)
Fixpoint move_up m (d s i : Z) (todo : nat) : option mem :=
  match todo with
  | O => Some m
  | S todo =>
      v ← m !! (s + i);
      m' ← store m (d + i) v;
      move_up m' d s (i + 1) todo
  end.

(** [d[i - 1] = s[i - 1]] for [i] from [todo] down to 1. *)
Fixpoint move_down m (d s : Z) (todo : nat) : option mem :=
  match todo with
  | O => Some m
  | S i =>
      v ← m !! (s + Z.of_nat i);
      m' ← store m (d + Z.of_nat i) v;
      move_down m' d s i
  end.

Definition memmove m (dest src n : Z) : option mem :=
  if (dest =? NULL) || (src =? NULL) || (n =? 0) then Some m
  else if dest <? src then move_up m dest src 0 (Z.to_nat n)
  else if src <? dest then move_down m dest src (Z.to_nat n)
  else Some m.

(** The byte loop of [memcmp]: the difference of the first differing bytes. *)
Fixpoint cmp_bytes m (a b i : Z) (todo : nat) : option Z :=
  match todo with
  | O => Some 0
  | S todo =>
      x ← m !! (a + i);
      y ← m !! (b + i);
      if x =? y then cmp_bytes m a b (i + 1) todo else Some (x - y)
  end.

(** A [size_t] read from memory: its bytes, least significant first. *)
Fixpoint load_bytes m (a : Z) (n : nat) : option (list Z) :=
  match n with
  | O => Some []
  | S n => x ← m !! a; xs ← load_bytes m (a + 1) n; Some (x :: xs)
  end.

Fixpoint le_value (bs : list Z) : Z :=
  match bs with [] => 0 | b :: bs => b + 256 * le_value bs end.

(** The word loop of [memcmp]; the inner byte loop runs on the first pair of
    words that differ, and goes on when it finds no difference. *)
Fixpoint cmp_words m (w : nat) (a b i : Z) (todo : nat) : option Z :=
  match todo with
  | O => Some 0
  | S todo =>
      x ← load_bytes m (a + Z.of_nat w * i) w;
      y ← load_bytes m (b + Z.of_nat w * i) w;
      if le_value x =? le_value y then cmp_words m w a b (i + 1) todo
      else
        d ← cmp_bytes m (a + Z.of_nat w * i) (b + Z.of_nat w * i) 0 w;
        if d =? 0 then cmp_words m w a b (i + 1) todo else Some d
  end.

Definition memcmp `{A : Arch} m (s1 s2 n : Z) : option Z :=
  if (n =? 0) || (s1 =? s2) then Some 0
  else if (n mod sizeof_size_t =? 0) && (s1 mod sizeof_size_t =? 0) && (s2 mod sizeof_size_t =? 0)
  then cmp_words m (Z.to_nat sizeof_size_t) s1 s2 0 (Z.to_nat (n / sizeof_size_t))
  else cmp_bytes m s1 s2 0 (Z.to_nat n).

(** *** memcpy.asm *)

Fixpoint store_bytes m (a : Z) (bs : list Z) : option mem :=
  match bs with
  | [] => Some m
  | b :: bs => m' ← store m a b; store_bytes m' (a + 1) bs
  end.

(** [rep movsb]/[movsd]/[movsq] with the direction flag clear: [cx] elements of
    [w] bytes from [si] to [di]; returns memory and the advanced registers. *)
Fixpoint rep_movs (w cx : nat) m (di si : Z) : option (mem * Z * Z) :=
  match cx with
  | O => Some (m, di, si)
  | S cx =>
      v ← load_bytes m si w;
      m' ← store_bytes m di v;
      rep_movs w cx m' (di + Z.of_nat w) (si + Z.of_nat w)
  end.

(** The label [.bulk]: whole words, then the tail bytes. *)
Definition memcpy_bulk (w : nat) (dx : Z) (st : mem * Z * Z) : option mem :=
  let '(m, di, si) := st in
  st ← rep_movs w (Z.to_nat (dx / Z.of_nat w)) m di si;
  let '(m, di, si) := st in
  st ← rep_movs 1 (Z.to_nat (Z.land dx (Z.of_nat w - 1))) m di si;
  Some st.1.1.

Definition memcpy_words (w : nat) (erms : bool) m (dest src n : Z) : option mem :=
  if n =? 0 then Some m
  else if erms then st ← rep_movs 1 (Z.to_nat n) m dest src; Some st.1.1
  else if n <? 32 then st ← rep_movs 1 (Z.to_nat n) m dest src; Some st.1.1
  else if negb (Z.land (Z.lxor dest src) (Z.of_nat w - 1) =? 0)
  then memcpy_bulk w n (m, dest, src)
  else
    let r8 := Z.land dest (Z.of_nat w - 1) in
    if r8 =? 0 then memcpy_bulk w n (m, dest, src)
    else
      let r9 := Z.of_nat w - r8 in
      let r9 := if n <? r9 then n else r9 in
      st ← rep_movs 1 (Z.to_nat r9) m dest src;
      memcpy_bulk w (n - r9) st.

Definition memcpy_amd64 := memcpy_words 8.
Definition memcpy_i386 := memcpy_words 4.

End Ops.

(** ** Specifications *)

(** [m'] is [m] with the [n] bytes at [dst] replaced by what [m] had at [src]. *)
Definition copied (m : mem) (dst src n : Z) (m' : mem) : Prop :=
  forall x, m' !! x = if decide (dst <= x < dst + n) then m !! (src + (x - dst)) else m !! x.

Definition has_range (m : mem) (a n : Z) : Prop :=
  forall x, a <= x < a + n -> is_Some (m !! x).

Lemma store_spec m a v : is_Some (m !! a) -> store m a v = Some (<[a := v]> m).
Proof. intros [w Hw]. unfold store. by rewrite Hw. Qed.

Lemma has_range_insert m a n b v : has_range m a n -> has_range (<[b := v]> m) a n.
Proof. intros H x Hx. destruct (decide (x = b)) as [->|]; rewrite ?lookup_insert_eq, ?lookup_insert_ne; eauto. Qed.

Lemma has_range_sub m a n b k : has_range m a n -> a <= b -> b + k <= a + n -> has_range m b k.
Proof. intros H Hb Hk x Hx. apply H. lia. Qed.

(** Decide the range tests of a goal with [lia]. *)
Ltac range_cases :=
  repeat case_decide; rewrite ?lookup_insert_ne by lia; try reflexivity; try lia;
  try (f_equal; lia).

(** Copying upwards is right when the destination is below the source. *)
Lemma move_up_spec d s todo : forall m i, d < s ->
  has_range m (s + i) (Z.of_nat todo) -> has_range m (d + i) (Z.of_nat todo) ->
  exists m', move_up m d s i todo = Some m' /\ copied m (d + i) (s + i) (Z.of_nat todo) m'.
Proof.
  induction todo as [|todo IH]; intros m i Hds Hs Hd; cbn [move_up].
  { exists m. split; [done|]. intros x. by rewrite decide_False by lia. }
  destruct (Hs (s + i) ltac:(lia)) as [v Hv]. rewrite Hv. cbn [mbind option_bind].
  rewrite store_spec by (apply Hd; lia). cbn [mbind option_bind].
  destruct (IH (<[d + i := v]> m) (i + 1) Hds) as (m' & Hm & Hc).
  { apply has_range_insert, (has_range_sub _ _ _ _ _ Hs); lia. }
  { apply has_range_insert, (has_range_sub _ _ _ _ _ Hd); lia. }
  exists m'. split; [done|]. intros x. rewrite Hc.
  destruct (decide (x = d + i)) as [->|Hx].
  - repeat case_decide; try lia. rewrite lookup_insert_eq, <- Hv. f_equal. lia.
  - range_cases.
Qed.

(** Copying downwards is right when it is above. *)
Lemma move_down_spec d s todo : forall m, s < d ->
  has_range m s (Z.of_nat todo) -> has_range m d (Z.of_nat todo) ->
  exists m', move_down m d s todo = Some m' /\ copied m d s (Z.of_nat todo) m'.
Proof.
  induction todo as [|todo IH]; intros m Hds Hs Hd; cbn [move_down].
  { exists m. split; [done|]. intros x. by rewrite decide_False by lia. }
  destruct (Hs (s + Z.of_nat todo) ltac:(lia)) as [v Hv]. rewrite Hv. cbn [mbind option_bind].
  rewrite store_spec by (apply Hd; lia). cbn [mbind option_bind].
  destruct (IH (<[d + Z.of_nat todo := v]> m) Hds) as (m' & Hm & Hc).
  { apply has_range_insert, (has_range_sub _ _ _ _ _ Hs); lia. }
  { apply has_range_insert, (has_range_sub _ _ _ _ _ Hd); lia. }
  exists m'. split; [done|]. intros x. rewrite Hc.
  destruct (decide (x = d + Z.of_nat todo)) as [->|Hx].
  - repeat case_decide; try lia. rewrite lookup_insert_eq, <- Hv. f_equal. lia.
  - range_cases.
Qed.

(** [memmove] copies as if through a temporary buffer, whatever the
    overlap of the two ranges: afterwards the destination holds the bytes the
    source had, and nothing else changed. *)
Theorem memmove_spec m dest src n :
  dest <> NULL -> src <> NULL -> 0 <= n -> has_range m dest n -> has_range m src n ->
  exists m', memmove m dest src n = Some m' /\ copied m dest src n m'.
Proof.
  intros Hd0 Hs0 Hn Hd Hs. unfold memmove.
  destruct (Z.eqb_spec dest NULL); [done|]. destruct (Z.eqb_spec src NULL); [done|]. cbn [orb].
  destruct (Z.eqb_spec n 0) as [->|Hn0].
  { exists m. split; [done|]. intros x. by rewrite decide_False by lia. }
  destruct (Z.ltb_spec dest src) as [Hlt|Hge].
  { destruct (move_up_spec dest src (Z.to_nat n) m 0 Hlt) as (m' & Hm & Hc);
      rewrite ?Z2Nat.id, ?Z.add_0_r in * by lia; eauto. }
  destruct (Z.ltb_spec src dest) as [Hlt|Hle].
  { destruct (move_down_spec dest src (Z.to_nat n) m Hlt) as (m' & Hm & Hc);
      rewrite ?Z2Nat.id in * by lia; eauto. }
  exists m. split; [done|]. intros x. case_decide; [f_equal; lia|done].
Qed.

(** *** memcmp *)

Definition bytes_ok (m : mem) : Prop := forall a b, m !! a = Some b -> 0 <= b < 256.

Lemma load_bytes_spec n : forall m a, has_range m a (Z.of_nat n) ->
  exists bs, load_bytes m a n = Some bs /\ length bs = n /\
    forall k, (k < n)%nat -> m !! (a + Z.of_nat k) = bs !! k.
Proof.
  induction n as [|n IH]; intros m a Hr; cbn [load_bytes].
  { exists []. split_and!; [done..|]. lia. }
  destruct (Hr a ltac:(lia)) as [x Hx]. rewrite Hx.
  destruct (IH m (a + 1)) as (bs & -> & Hl & Hk). { eapply has_range_sub; [done|lia..]. }
  cbn. exists (x :: bs). split_and!; [done|cbn; lia|].
  intros [|k] Hlt; [by rewrite Z.add_0_r|]. cbn. rewrite <- Hk by lia. f_equal. lia.
Qed.

Lemma le_value_inj bs : forall bs', length bs = length bs' ->
  Forall (fun b => 0 <= b < 256) bs -> Forall (fun b => 0 <= b < 256) bs' ->
  le_value bs = le_value bs' -> bs = bs'.
Proof.
  induction bs as [|b bs IH]; intros [|b' bs'] Hl H H'; try done. cbn.
  apply Forall_cons in H as [Hb H], H' as [Hb' H']. intros Heq.
  assert (b = b' /\ le_value bs = le_value bs') as [-> ?] by lia.
  f_equal. apply IH; auto.
Qed.

(** The comparison of the bytes read from the two ranges. *)
Fixpoint first_diff (bs bs' : list Z) : Z :=
  match bs, bs' with
  | x :: bs, y :: bs' => if x =? y then first_diff bs bs' else x - y
  | _, _ => 0
  end.

Lemma cmp_bytes_spec todo : forall m a b i bs bs',
  load_bytes m (a + i) todo = Some bs -> load_bytes m (b + i) todo = Some bs' ->
  cmp_bytes m a b i todo = Some (first_diff bs bs').
Proof.
  induction todo as [|todo IH]; intros m a b i bs bs'; cbn [load_bytes cmp_bytes].
  { by intros [= <-] [= <-]. }
  destruct (m !! (a + i)) as [x|]; [|done]. destruct (m !! (b + i)) as [y|]; [|done]. cbn.
  destruct (load_bytes m (a + i + 1) todo) as [xs|] eqn:Ex; [|done].
  destruct (load_bytes m (b + i + 1) todo) as [ys|] eqn:Ey; [|done].
  cbn. intros [= <-] [= <-]. cbn. destruct (x =? y); [|done].
  apply IH; by rewrite Z.add_assoc.
Qed.

Lemma first_diff_app xs ys xs' ys' : length xs = length ys ->
  first_diff (xs ++ xs') (ys ++ ys') =
  if decide (xs = ys) then first_diff xs' ys' else first_diff xs ys.
Proof.
  revert ys; induction xs as [|x xs IH]; intros [|y ys] Hl; try done. cbn.
  injection Hl as Hl. rewrite (IH ys Hl). destruct (Z.eqb_spec x y) as [->|Hne].
  - repeat case_decide; congruence.
  - case_decide; congruence.
Qed.

Lemma first_diff_zero xs ys : length xs = length ys -> first_diff xs ys = 0 <-> xs = ys.
Proof.
  revert ys; induction xs as [|x xs IH]; intros [|y ys] Hl; try done. cbn.
  injection Hl as Hl. destruct (Z.eqb_spec x y) as [->|Hne].
  - rewrite (IH ys Hl). naive_solver.
  - split; [lia|]. naive_solver.
Qed.

Lemma load_bytes_app n1 n2 m a :
  load_bytes m a (n1 + n2) =
  xs ← load_bytes m a n1; ys ← load_bytes m (a + Z.of_nat n1) n2; Some (xs ++ ys).
Proof.
  revert a; induction n1 as [|n1 IH]; intros a; cbn [load_bytes Nat.add].
  { rewrite Z.add_0_r. cbn. by destruct (load_bytes m a n2). }
  destruct (m !! a) as [x|]; [|done]. cbn. rewrite IH.
  replace (a + Z.of_nat (S n1)) with (a + 1 + Z.of_nat n1) by lia.
  destruct (load_bytes m (a + 1) n1) as [xs|]; [|done]. cbn.
  by destruct (load_bytes m (a + 1 + Z.of_nat n1) n2).
Qed.

Lemma load_bytes_range m a n bs b : bytes_ok m -> load_bytes m a n = Some bs -> b ∈ bs -> 0 <= b < 256.
Proof.
  intros Hm. revert a bs; induction n as [|n IH]; intros a bs; cbn [load_bytes].
  { intros [= <-]. by intros ?%elem_of_nil. }
  destruct (m !! a) as [x|] eqn:Ex; [|done]. cbn.
  destruct (load_bytes m (a + 1) n) as [xs|] eqn:El; [|done]. cbn. intros [= <-].
  intros [->|Hin]%elem_of_cons; [by eapply Hm|by eapply IH].
Qed.

Lemma load_bytes_length m a n bs : load_bytes m a n = Some bs -> length bs = n.
Proof.
  revert a bs; induction n as [|n IH]; intros a bs; cbn [load_bytes]; [by intros [= <-]|].
  destruct (m !! a); [|done]. cbn. destruct (load_bytes m (a + 1) n) eqn:E; [|done].
  cbn. intros [= <-]. cbn. f_equal. eauto.
Qed.

(** Comparing by words finds the same difference as comparing by bytes. *)
Lemma cmp_words_spec m w a b todo : bytes_ok m -> forall i bs bs',
  load_bytes m (a + Z.of_nat w * i) (w * todo) = Some bs ->
  load_bytes m (b + Z.of_nat w * i) (w * todo) = Some bs' ->
  cmp_words m w a b i todo = Some (first_diff bs bs').
Proof.
  intros Hm. induction todo as [|todo IH]; intros i bs bs'.
  { rewrite Nat.mul_0_r. by intros [= <-] [= <-]. }
  rewrite Nat.mul_succ_r, Nat.add_comm, !load_bytes_app. cbn [cmp_words].
  destruct (load_bytes m (a + _) w) as [xs|] eqn:Ex; [|done].
  destruct (load_bytes m (b + _) w) as [ys|] eqn:Ey; [|done]. cbn [mbind option_bind].
  replace (a + Z.of_nat w * i + Z.of_nat w) with (a + Z.of_nat w * (i + 1)) by lia.
  replace (b + Z.of_nat w * i + Z.of_nat w) with (b + Z.of_nat w * (i + 1)) by lia.
  destruct (load_bytes m (a + Z.of_nat w * (i + 1)) (w * todo)) as [xs'|] eqn:Ex'; [|done].
  destruct (load_bytes m (b + Z.of_nat w * (i + 1)) (w * todo)) as [ys'|] eqn:Ey'; [|done].
  cbn [mbind option_bind]. intros [= <-] [= <-].
  pose proof (load_bytes_length _ _ _ _ Ex) as Hlx. pose proof (load_bytes_length _ _ _ _ Ey) as Hly.
  rewrite first_diff_app by congruence.
  rewrite (cmp_bytes_spec w m _ _ 0 xs ys) by (by rewrite Z.add_0_r). cbn [mbind option_bind].
  destruct (Z.eqb_spec (le_value xs) (le_value ys)) as [Heq|Hne].
  - rewrite decide_True; [by apply IH|]. apply le_value_inj; [congruence|..|done]; apply Forall_forall; intros z Hz.
    + exact (load_bytes_range _ _ _ _ _ Hm Ex Hz).
    + exact (load_bytes_range _ _ _ _ _ Hm Ey Hz).
  - rewrite decide_False by congruence. destruct (Z.eqb_spec (first_diff xs ys) 0) as [H0|]; [|done].
    apply first_diff_zero in H0; congruence.
Qed.

(** On two readable ranges [memcmp] returns the difference of the first
    bytes that differ (0 when none does), on the word-at-a-time path and on
    the byte path alike. *)
Theorem memcmp_spec `{A : Arch} m s1 s2 n bs1 bs2 :
  bytes_ok m -> 0 <= n ->
  load_bytes m s1 (Z.to_nat n) = Some bs1 -> load_bytes m s2 (Z.to_nat n) = Some bs2 ->
  memcmp m s1 s2 n = Some (first_diff bs1 bs2) /\ (first_diff bs1 bs2 = 0 <-> bs1 = bs2).
Proof.
  intros Hm Hn H1 H2. split; cycle 1.
  { apply first_diff_zero. by rewrite (load_bytes_length _ _ _ _ H1), (load_bytes_length _ _ _ _ H2). }
  unfold memcmp. destruct (Z.eqb_spec n 0) as [->|Hn0].
  { injection H1 as <-. by injection H2 as <-. }
  cbn [orb]. destruct (Z.eqb_spec s1 s2) as [->|Hne].
  { rewrite H1 in H2. injection H2 as <-. f_equal. symmetry. by apply first_diff_zero. }
  destruct (_ && _ && _) eqn:Ew; cycle 1.
  { apply cmp_bytes_spec; by rewrite Z.add_0_r. }
  assert (0 < sizeof_size_t) as Hw by (arch_cases; lia).
  apply andb_true_iff in Ew as [[Ew _]%andb_true_iff _]. apply Z.eqb_eq in Ew.
  assert (Z.to_nat n = (Z.to_nat sizeof_size_t * Z.to_nat (n / sizeof_size_t))%nat) as Hsplit.
  { rewrite <- Z2Nat.inj_mul by (try apply Z.div_pos; lia). f_equal.
    pose proof (Z.div_mod n sizeof_size_t). lia. }
  rewrite Hsplit in H1, H2. apply cmp_words_spec; by rewrite ?Z.mul_0_r, ?Z.add_0_r.
Qed.

(** *** memcpy *)

Lemma store_bytes_spec bs : forall m a, has_range m a (Z.of_nat (length bs)) ->
  exists m', store_bytes m a bs = Some m' /\
    forall x, m' !! x = if decide (a <= x < a + Z.of_nat (length bs))
                        then bs !! Z.to_nat (x - a) else m !! x.
Proof.
  induction bs as [|b bs IH]; intros m a Hr; cbn [store_bytes length] in *.
  { exists m. split; [done|]. intros x. by rewrite decide_False by lia. }
  rewrite store_spec by (apply Hr; lia). cbn [mbind option_bind].
  destruct (IH (<[a := b]> m) (a + 1)) as (m' & -> & Hm').
  { apply has_range_insert, (has_range_sub _ _ _ _ _ Hr); lia. }
  exists m'. split; [done|]. intros x. rewrite Hm'. destruct (decide (x = a)) as [->|Hx].
  - repeat case_decide; try lia. by rewrite lookup_insert_eq, Z.sub_diag.
  - repeat case_decide; try lia; [|by rewrite lookup_insert_ne].
    by replace (Z.to_nat (x - a)) with (S (Z.to_nat (x - (a + 1)))) by lia.
Qed.

(** One element: the word is read before it is written. *)
Lemma movs_one w m di si : has_range m si (Z.of_nat w) -> has_range m di (Z.of_nat w) ->
  exists bs m', load_bytes m si w = Some bs /\ store_bytes m di bs = Some m' /\
    copied m di si (Z.of_nat w) m'.
Proof.
  intros Hs Hd. destruct (load_bytes_spec w m si Hs) as (bs & Hl & Hlen & Hk).
  destruct (store_bytes_spec bs m di) as (m' & Hst & Hm'); [by rewrite Hlen|].
  exists bs, m'. split_and!; [done..|]. intros x. rewrite Hm', Hlen.
  case_decide as Hx; [|done]. rewrite <- Hk by lia. f_equal. lia.
Qed.

Lemma copied_range m di si n m' a k : copied m di si n m' -> has_range m si n ->
  has_range m a k -> has_range m' a k.
Proof.
  intros Hc Hs Hr x Hx. rewrite Hc. case_decide; [apply Hs|apply Hr]; lia.
Qed.

Definition apart_ranges (a b n : Z) : Prop := a + n <= b \/ b + n <= a.

Lemma copied_app m di si n1 n2 m1 m2 :
  0 <= n1 -> 0 <= n2 -> apart_ranges di si (n1 + n2) ->
  copied m di si n1 m1 -> copied m1 (di + n1) (si + n1) n2 m2 -> copied m di si (n1 + n2) m2.
Proof.
  unfold apart_ranges. intros H1 H2 Hap Hc1 Hc2 x. rewrite Hc2, !Hc1.
  repeat case_decide; try lia; try done; f_equal; lia.
Qed.

Lemma rep_movs_spec w cx : forall m di si,
  let n := Z.of_nat w * Z.of_nat cx in
  has_range m si n -> has_range m di n -> apart_ranges di si n ->
  exists m', rep_movs w cx m di si = Some (m', di + n, si + n) /\ copied m di si n m'.
Proof.
  induction cx as [|cx IH]; intros m di si n Hs Hd Hap; cbn [rep_movs].
  { exists m. unfold n. rewrite Z.mul_0_r, !Z.add_0_r. split; [done|]. intros x.
    by rewrite decide_False by lia. }
  set (n2 := Z.of_nat w * Z.of_nat cx). assert (n = Z.of_nat w + n2) as Hn by lia.
  assert (0 <= n2) by lia.
  assert (has_range m si (Z.of_nat w)) as Hsw by (apply (has_range_sub _ _ _ _ _ Hs); lia).
  assert (has_range m di (Z.of_nat w)) as Hdw by (apply (has_range_sub _ _ _ _ _ Hd); lia).
  destruct (movs_one w m di si Hsw Hdw) as (bs & m1 & -> & Hst & Hc1).
  cbn [mbind option_bind]. rewrite Hst. cbn [mbind option_bind].
  destruct (IH m1 (di + Z.of_nat w) (si + Z.of_nat w)) as (m2 & -> & Hc2).
  - eapply copied_range; [done..|]. apply (has_range_sub _ _ _ _ _ Hs); lia.
  - eapply copied_range; [done..|]. apply (has_range_sub _ _ _ _ _ Hd); lia.
  - unfold apart_ranges in *. lia.
  - exists m2. fold n2. rewrite Hn, !Z.add_assoc. split; [done|].
    eapply copied_app; [lia|done|by rewrite <- Hn|done..].
Qed.

Lemma memcpy_bulk_spec k m di si n : 0 <= k -> 0 <= n ->
  has_range m si n -> has_range m di n -> apart_ranges di si n ->
  exists m', memcpy_bulk (Z.to_nat (2 ^ k)) n (m, di, si) = Some m' /\ copied m di si n m'.
Proof.
  intros Hk Hn Hs Hd Hap. assert (0 < 2 ^ k) as Hp by (apply Z.pow_pos_nonneg; lia).
  unfold memcpy_bulk. rewrite Z2Nat.id by lia.
  replace (2 ^ k - 1) with (Z.ones k) by (rewrite Z.ones_equiv; lia). rewrite Z.land_ones by lia.
  set (q := n / 2 ^ k). set (r := n mod 2 ^ k).
  assert (0 <= q) by (apply Z.div_pos; lia). assert (0 <= r) by (apply Z.mod_pos_bound; lia).
  assert (n = 2 ^ k * q + r) as Hqr by (apply Z.div_mod; lia).
  destruct (rep_movs_spec (Z.to_nat (2 ^ k)) (Z.to_nat q) m di si) as (m1 & -> & Hc1);
    rewrite ?Z2Nat.id in * by lia.
  1: apply (has_range_sub m si n); [done|lia..].
  1: apply (has_range_sub m di n); [done|lia..].
  { unfold apart_ranges in *. lia. }
  cbn [mbind option_bind].
  destruct (rep_movs_spec 1 (Z.to_nat r) m1 (di + 2 ^ k * q) (si + 2 ^ k * q)) as (m2 & -> & Hc2);
    rewrite ?Z2Nat.id, ?Z.mul_1_l in * by lia.
  - eapply copied_range; [done|apply (has_range_sub _ _ _ _ _ Hs); lia..].
  - eapply copied_range; [done|apply (has_range_sub _ _ _ _ _ Hs); lia|apply (has_range_sub _ _ _ _ _ Hd); lia].
  - unfold apart_ranges in *. lia.
  - exists m2. split; [done|]. rewrite Hqr. eapply copied_app; [lia|lia|by rewrite <- Hqr|done..].
Qed.

(** C13.  The assembly [memcpy] of both targets, on disjoint ranges and on every
    path (ERMS, short, misaligned, aligned with a head and a tail), copies
    exactly the [n] bytes. *)
Theorem memcpy_spec (erms : bool) m dest src n w : w = 4%nat \/ w = 8%nat ->
  0 <= n -> 0 <= dest -> has_range m src n -> has_range m dest n -> apart_ranges dest src n ->
  exists m', memcpy_words w erms m dest src n = Some m' /\ copied m dest src n m'.
Proof.
  intros Hw Hn Hd0 Hs Hd Hap.
  assert (exists k, 0 <= k /\ w = Z.to_nat (2 ^ k) /\ Z.of_nat w = 2 ^ k /\ 2 ^ k <= 32) as (k & Hk & Hwk & Hzw & Hk32).
  { destruct Hw as [->| ->]; [by exists 2|by exists 3]. }
  assert (0 < 2 ^ k) as Hp by (apply Z.pow_pos_nonneg; lia).
  destruct (rep_movs_spec 1 (Z.to_nat n) m dest src) as (m1 & Hb & Hc1);
    rewrite ?Z2Nat.id, ?Z.mul_1_l in * by lia; [done..|].
  destruct (memcpy_bulk_spec k m dest src n Hk Hn Hs Hd Hap) as (m2 & Hbulk & Hc2). rewrite <- Hwk in Hbulk.
  unfold memcpy_words. rewrite Hb. cbn [mbind option_bind fst].
  destruct (Z.eqb_spec n 0) as [->|Hn0].
  { exists m. split; [done|]. intros x. by rewrite decide_False by lia. }
  destruct erms; [by exists m1|]. destruct (Z.ltb_spec n 32); [by exists m1|].
  destruct (negb _); [by exists m2|]. rewrite Hzw.
  replace (2 ^ k - 1) with (Z.ones k) by (rewrite Z.ones_equiv; lia). rewrite Z.land_ones by lia.
  pose proof (Z.mod_pos_bound dest (2 ^ k) Hp) as Hr. set (r := dest mod 2 ^ k) in *.
  destruct (Z.eqb_spec r 0); [by exists m2|].
  destruct (Z.ltb_spec n (2 ^ k - r)); [lia|]. set (h := 2 ^ k - r) in *.
  destruct (rep_movs_spec 1 (Z.to_nat h) m dest src) as (m3 & -> & Hc3);
    rewrite ?Z2Nat.id, ?Z.mul_1_l in * by lia.
  { apply (has_range_sub _ _ _ _ _ Hs); lia. }
  { apply (has_range_sub _ _ _ _ _ Hd); lia. }
  { unfold apart_ranges in *. lia. }
  cbn [mbind option_bind].
  assert (has_range m src h) as Hsh by (apply (has_range_sub _ _ _ _ _ Hs); lia).
  destruct (memcpy_bulk_spec k m3 (dest + h) (src + h) (n - h)) as (m4 & Hb4 & Hc4); try lia.
  { eapply copied_range; [done..|]. apply (has_range_sub _ _ _ _ _ Hs); lia. }
  { eapply copied_range; [done..|]. apply (has_range_sub _ _ _ _ _ Hd); lia. }
  { unfold apart_ranges in *. lia. }
  rewrite <- Hwk in Hb4. exists m4. split; [done|].
  replace n with (h + (n - h)) by lia. eapply copied_app; [lia|lia| |done..].
  by replace (h + (n - h)) with n by lia.
Qed.

(** [memset] fills its range and nothing else. *)
Lemma memset_spec m ptr value num : 0 <= num -> has_range m ptr num ->
  exists m', memset m ptr value num = Some m' /\
    forall x, m' !! x = if decide (ptr <= x < ptr + num) then Some (wrap 8 value) else m !! x.
Proof.
  intros Hn Hr. unfold memset.
  assert (forall todo m i, 0 <= i -> has_range m (ptr + i) (Z.of_nat todo) ->
    exists m', memset_loop m ptr value i todo = Some m' /\
      forall x, m' !! x = if decide (ptr + i <= x < ptr + i + Z.of_nat todo)
                          then Some (wrap 8 value) else m !! x) as H.
  { clear m Hr. induction todo as [|todo IH]; intros m i Hi Hr; cbn [memset_loop].
    { exists m. split; [done|]. intros x. by rewrite decide_False by lia. }
    rewrite store_spec by (apply Hr; lia). cbn [mbind option_bind].
    destruct (IH (<[ptr + i := wrap 8 value]> m) (i + 1)) as (m' & -> & Hm); [lia| |].
    { apply has_range_insert, (has_range_sub _ _ _ _ _ Hr); lia. }
    exists m'. split; [done|]. intros x. rewrite Hm. destruct (decide (x = ptr + i)) as [->|].
    - repeat case_decide; try lia. by rewrite lookup_insert_eq.
    - repeat case_decide; try lia; [done|]. by rewrite lookup_insert_ne. }
  destruct (H (Z.to_nat num) m 0) as (m' & -> & Hm); [lia|by rewrite Z.add_0_r, Z2Nat.id|].
  exists m'. split; [done|]. intros x. rewrite Hm, Z.add_0_r, Z2Nat.id by lia. done.
Qed.

(** ** Concrete runs *)

Definition ex_mem : mem := list_to_map (zip (seqZ 100 100) (seqZ 0 100)).

Lemma has_range_bool m a n :
  forallb (fun x => bool_decide (is_Some (m !! x))) (seqZ a n) = true -> has_range m a n.
Proof.
  intros H x Hx. apply (bool_decide_unpack (is_Some (m !! x))).
  pose proof (proj1 (List.forallb_forall _ _) H x) as Hi. rewrite Is_true_true. apply Hi.
  apply list_elem_of_In, elem_of_seqZ. lia.
Qed.

(** Overlapping ranges. *)
Lemma memmove_spec_witness :
  exists m', memmove ex_mem 104 100 40 = Some m' /\ copied ex_mem 104 100 40 m'.
Proof. apply memmove_spec; try done; by apply has_range_bool; vm_compute. Defined.

Lemma memcmp_spec_witness :
  memcmp (A := AMD64) ex_mem 104 112 16 = Some (-8) /\ (-8 = 0 <-> seqZ 4 16 = seqZ 12 16).
Proof.
  apply (memcmp_spec (A := AMD64) ex_mem 104 112 16 (seqZ 4 16) (seqZ 12 16)); try done.
  apply (map_Forall_lookup (fun _ b => 0 <= b < 256)). apply (bool_decide_unpack _).
  vm_compute. done.
Defined.

Lemma memcpy_spec_witness :
  exists m', memcpy_amd64 false ex_mem 101 149 37 = Some m' /\ copied ex_mem 101 149 37 m'.
Proof.
  apply (memcpy_spec false ex_mem 101 149 37 8); try done; [by right|..|by left].
  all: by apply has_range_bool; vm_compute.
Defined.
