(* ===== verification/Heap.v ===== *)
(** * The kernel heap ([kernel/memory/heap.c], [kernel/memory/memory.c])

    A heap is a list of regions; a region is a chain of [HeapNode] headers in
    address order, from [base] to a terminal node in the last bytes of the
    region.  [hdr] is the memory at the addresses where a header was written
    (reading a header anywhere else is undefined behaviour, [None]), [byt] the
    payload bytes.  The regions are kept in the order of their [next] links,
    the empty list standing for [first_heap_region == NULL]. *)

From S2P Require Import Prelude.

Definition HEAP_MAGIC : Z := 0xDEADBEEF.

Record HeapNode := mkHeapNode { magic : Z; is_free : bool; next : Z }.

Record HeapRegion := mkHeapRegion { base : Z; rsize : Z }.

Abbreviation headers := (gmap Z HeapNode).

Record Heap := mkHeap {
  hdr : headers;
  regions : list HeapRegion;
  byt : gmap Z Z
}.

Section Ops.
Context `{A : Arch}.
Implicit Types (m : headers) (r : HeapRegion) (h : Heap).

(** [sizeof(HeapNode)]: a [uint32_t], a [bool] and a pointer, padded. *)
Definition sizeof_HeapNode : Z := match the_arch with I386 => 12 | AMD64 => 16 end.

(** [sizeof(HeapRegion)]: three words. *)
Definition sizeof_HeapRegion : Z := 3 * sizeof_size_t.

Definition HEAP_NODE_MIN_SIZE : Z := sizeof_size_t * 2.

Definition NODE_SIZE (node : Z) (n : HeapNode) : Z :=
  if next n =? NULL then 0
  else wrap size_bits (next n - node - sizeof_HeapNode).

Definition initRegion m r : headers :=
  if (base r =? 0) || (rsize r =? 0) then m
  else if rsize r <? 2 * sizeof_HeapNode then m
  else
    let end_node := wrap size_bits (base r + rsize r - sizeof_HeapNode) in
    <[end_node := mkHeapNode 0 false NULL]>
      (<[base r := mkHeapNode HEAP_MAGIC true end_node]> m).

(** The search loop of [alloc_region], from [node]; the returned pointer is
    null when no block fits. *)
Fixpoint alloc_loop m (size : Z) (fuel : nat) (node : Z) : option (headers * Z) :=
  match fuel with
  | O => None
  | S fuel =>
    if node =? NULL then Some (m, NULL)
    else
      n ← m !! node;
      if negb (magic n =? HEAP_MAGIC) then Some (m, NULL)
      else if is_free n && (size <=? NODE_SIZE node n)
      then
        let remaining_size := NODE_SIZE node n -[size_bits] size in
        if HEAP_NODE_MIN_SIZE + sizeof_HeapNode <=? remaining_size
        then
          let new_node := wrap size_bits (node + size + sizeof_HeapNode) in
          Some (<[node := mkHeapNode (magic n) false new_node]>
                  (<[new_node := mkHeapNode HEAP_MAGIC true (next n)]> m),
                wrap size_bits (node + sizeof_HeapNode))
        else
          Some (<[node := mkHeapNode (magic n) false (next n)]> m,
                wrap size_bits (node + sizeof_HeapNode))
      else alloc_loop m size fuel (next n)
  end.

Definition alloc_region m r (size : Z) : option (headers * Z) :=
  alloc_loop m size (S (stdpp.base.size m)) (base r).

(** The body of the search loop of [free_region] once the node is found. *)
Definition release m (prev node : Z) (n : HeapNode) : option headers :=
  let m1 := <[node := mkHeapNode (magic n) true (next n)]> m in
  m2 ← (if next n =? NULL then Some m1
        else nx ← m1 !! next n;
             if is_free nx
             then Some (<[node := mkHeapNode (magic n) true (next nx)]> m1)
             else Some m1);
  if prev =? NULL then Some m2
  else p ← m2 !! prev;
       if is_free p
       then n' ← m2 !! node; Some (<[prev := mkHeapNode HEAP_MAGIC true (next n')]> m2)
       else Some m2.

Fixpoint free_loop m (ptr : Z) (fuel : nat) (prev node : Z) : option (headers * bool) :=
  match fuel with
  | O => None
  | S fuel =>
    if node =? NULL then Some (m, false)
    else
      n ← m !! node;
      if negb (magic n =? HEAP_MAGIC) then Some (m, false)
      else if (node <? ptr) && (ptr <? next n)
      then m' ← release m prev node n; Some (m', true)
      else free_loop m ptr fuel node (next n)
  end.

Definition free_region m r (ptr : Z) : option (headers * bool) :=
  if ptr =? NULL then Some (m, false)
  else free_loop m ptr (S (size m)) NULL (base r).

(** The linker symbols [__local_heap_start] and [__local_heap_end] delimit the
    first region. *)
Definition heap_init (local : HeapRegion) h : Heap :=
  mkHeap (initRegion (hdr h) local) [local] (byt h).

Definition ensure_init (local : HeapRegion) h : Heap :=
  match regions h with [] => heap_init local h | _ => h end.

(** Try the regions in order. *)
Fixpoint alloc_regions m (rs : list HeapRegion) (n : Z) : option (headers * Z) :=
  match rs with
  | [] => Some (m, NULL)
  | r :: rs' =>
      mp ← alloc_region m r n;
      if mp.2 =? NULL then alloc_regions mp.1 rs' n else Some mp
  end.

(** [pmm] is the call of [pmm_alloc], which itself allocates from this heap:
    it maps the heap and a size in KiB to the new heap and a page run.  It is
    [None] while the physical memory manager is not initialised
    ([memory_regions == NULL]). *)
Definition page_source : Type := option (Heap -> Z -> option (Heap * option Z)).

Definition expand_size (n : Z) : Z :=
  wrap size_bits (wrap size_bits (n + (4096 - n mod 4096)) + 0x1000).

Definition heap_expand (pmm : Heap -> Z -> option (Heap * option Z)) h (n : Z)
  : option (Heap * Z) :=
  let regionSize := expand_size n in
  hp ← pmm h (regionSize / 1024);
  match hp.2 with
  | None => Some (hp.1, NULL)
  | Some newRegionPtr =>
      let newRegion := mkHeapRegion newRegionPtr regionSize in
      let m0 := initRegion (hdr hp.1) newRegion in
      mr ← alloc_region m0 newRegion sizeof_HeapRegion;
      if mr.2 =? NULL then None (* region->base = ... through a null pointer *)
      else
        mp ← alloc_region mr.1 newRegion n;
        Some (mkHeap mp.1 (regions hp.1 ++ [newRegion]) (byt hp.1), mp.2)
  end.

Definition heap_alloc (local : HeapRegion) (pmm : page_source) h (n : Z) : option (Heap * Z) :=
  if n <=? 0 then Some (h, NULL)
  else
    let h := ensure_init local h in
    mp ← alloc_regions (hdr h) (regions h) n;
    let h := mkHeap mp.1 (regions h) (byt h) in
    if negb (mp.2 =? NULL) then Some (h, mp.2)
    else match pmm with
         | None => Some (h, NULL)
         | Some pmm => heap_expand pmm h n
         end.

Fixpoint free_regions m (rs : list HeapRegion) (ptr : Z) : option headers :=
  match rs with
  | [] => Some m
  | r :: rs' =>
      mb ← free_region m r ptr;
      if mb.2 : bool then Some mb.1 else free_regions mb.1 rs' ptr
  end.

Definition heap_free (local : HeapRegion) h (ptr : Z) : option Heap :=
  if ptr =? NULL then Some h
  else
    let h := ensure_init local h in
    m ← free_regions (hdr h) (regions h) ptr;
    Some (mkHeap m (regions h) (byt h)).

(** [memcpy] and [memset] on the payload bytes; an indeterminate source byte
    makes the destination byte indeterminate. *)
Fixpoint copy_bytes (n : nat) (dst src : Z) (b : gmap Z Z) : gmap Z Z :=
  match n with
  | O => b
  | S n' => copy_bytes n' (dst + 1) (src + 1) (partial_alter (fun _ => b !! src) dst b)
  end.

Fixpoint fill_bytes (n : nat) (dst v : Z) (b : gmap Z Z) : gmap Z Z :=
  match n with
  | O => b
  | S n' => fill_bytes n' (dst + 1) v (<[dst := v]> b)
  end.

Definition heap_realloc (local : HeapRegion) (pmm : page_source) h (ptr new_size : Z)
  : option (Heap * Z) :=
  if new_size <=? 0 then h' ← heap_free local h ptr; Some (h', NULL)
  else if ptr =? NULL then heap_alloc local pmm h new_size
  else
    let node := wrap size_bits (ptr - sizeof_HeapNode) in
    n ← hdr h !! node;
    if negb (magic n =? HEAP_MAGIC) then Some (h, NULL)
    else
      let old_size := NODE_SIZE node n in
      if new_size <=? old_size then Some (h, ptr)
      else
        hp ← heap_alloc local pmm h new_size;
        if hp.2 =? NULL then Some hp
        else
          let h1 := mkHeap (hdr hp.1) (regions hp.1)
                           (copy_bytes (Z.to_nat old_size) hp.2 ptr (byt hp.1)) in
          h2 ← heap_free local h1 ptr;
          Some (h2, hp.2).

Definition heap_calloc (local : HeapRegion) (pmm : page_source) h (count size : Z)
  : option (Heap * Z) :=
  if (count =? 0) || (size =? 0) then Some (h, NULL)
  else
    hp ← heap_alloc local pmm h (count *[size_bits] size);
    if hp.2 =? NULL then Some hp
    else Some (mkHeap (hdr hp.1) (regions hp.1)
                 (fill_bytes (Z.to_nat (count *[size_bits] size)) hp.2 0 (byt hp.1)), hp.2).

Definition heap_aligned_alloc (local : HeapRegion) (pmm : page_source) h (alignment size : Z)
  : option (Heap * Z) :=
  if (alignment =? 0) || (size =? 0) || negb (Z.land alignment (alignment - 1) =? 0)
  then Some (h, NULL)
  else
    hp ← heap_alloc local pmm h (wrap size_bits (size + alignment - 1 + sizeof_HeapNode));
    if hp.2 =? NULL then Some hp
    else
      let aligned_ptr :=
        Z.land (wrap size_bits (hp.2 + sizeof_HeapNode + alignment - 1))
               (wrap size_bits (Z.lnot (alignment - 1))) in
      let node := wrap size_bits (aligned_ptr - sizeof_HeapNode) in
      Some (mkHeap (<[node := mkHeapNode HEAP_MAGIC false NULL]> (hdr hp.1))
                   (regions hp.1) (byt hp.1), aligned_ptr).

(** A null [first_heap_region] is dereferenced. *)
Definition heap_register_region h (region : option HeapRegion) : option Heap :=
  match region with
  | None => Some h
  | Some r =>
      if (base r =? 0) || (rsize r =? 0) then Some h
      else if rsize r <? 2 * sizeof_HeapNode then Some h
      else match regions h with
           | [] => None
           | first :: _ => Some (mkHeap (initRegion (hdr h) r) [first; r] (byt h))
           end
  end.

(** [memory.c]: the libc names are the heap functions. *)
Definition malloc := heap_alloc.
Definition free := heap_free.
Definition realloc := heap_realloc.
Definition calloc := heap_calloc.
Definition malloc_aligned := heap_aligned_alloc.

End Ops.

(** ** Blocks: the abstract view of a region

    A region is a sequence of blocks, each given by the address of its header
    and whether it is free; a block reaches to the next header (the terminal
    node [e] for the last one). *)

Section Blocks.
Context `{A : Arch}.
Implicit Types (m : headers) (r : HeapRegion) (bs : list (Z * bool)) (e : Z).

Definition start_of bs e : Z := match bs with [] => e | (b, _) :: _ => b end.

(** [chain m a bs e]: the headers from [a] on are the blocks [bs], each linked
    to the next and at least a header apart, ending at [e]. *)
Fixpoint chain m (a : Z) bs e : Prop :=
  match bs with
  | [] => a = e
  | (b, f) :: bs' =>
      a = b /\ 0 < b /\ b + sizeof_HeapNode <= start_of bs' e /\
      m !! b = Some (mkHeapNode HEAP_MAGIC f (start_of bs' e)) /\
      chain m (start_of bs' e) bs' e
  end.

Definition region_end r : Z := base r + rsize r - sizeof_HeapNode.

(** The invariant of an initialised region. *)
Definition region_ok m r bs : Prop :=
  0 < base r /\ base r + rsize r <= SIZE_MAX /\ bs <> [] /\
  chain m (base r) bs (region_end r) /\
  m !! region_end r = Some (mkHeapNode 0 false NULL).

(** Payload of each block: header address, first byte, length, state. *)
Fixpoint payloads bs e : list (Z * Z * bool) :=
  match bs with
  | [] => []
  | (b, f) :: bs' =>
      (b + sizeof_HeapNode, start_of bs' e - b - sizeof_HeapNode, f) :: payloads bs' e
  end.

(** The payloads handed out to callers. *)
Definition live bs e : list (Z * Z) :=
  (fun x => x.1) <$> filter (fun x => x.2 = false) (payloads bs e).

(** No two neighbouring free blocks. *)
Fixpoint coalesced bs : Prop :=
  match bs with
  | (_, f) :: (((_, g) :: _) as bs') => ~ (f = true /\ g = true) /\ coalesced bs'
  | _ => True
  end.

(** First fit on the block list. *)
Fixpoint fit (n : Z) bs e : option (list (Z * bool) * Z) :=
  match bs with
  | [] => None
  | (b, f) :: bs' =>
      let sz := start_of bs' e - b - sizeof_HeapNode in
      if f && (n <=? sz)
      then if HEAP_NODE_MIN_SIZE + sizeof_HeapNode <=? sz - n
           then Some ((b, false) :: (b + n + sizeof_HeapNode, true) :: bs', b + sizeof_HeapNode)
           else Some ((b, false) :: bs', b + sizeof_HeapNode)
      else (fun x => ((b, f) :: x.1, x.2)) <$> fit n bs' e
  end.

(** A freed block swallows a free right neighbour. *)
Definition absorb (b : Z) bs : list (Z * bool) :=
  match bs with
  | (_, true) :: bs' => (b, true) :: bs'
  | _ => (b, true) :: bs
  end.

(** Free the block [ptr] points into, merging it with free neighbours. *)
Fixpoint unfit (ptr : Z) bs e : option (list (Z * bool)) :=
  match bs with
  | [] => None
  | (b, f) :: bs' =>
      if (b <? ptr) && (ptr <? start_of bs' e) then Some (absorb b bs')
      else match bs' with
           | [] => None
           | (b', _) :: bs'' =>
               if f && (b' <? ptr) && (ptr <? start_of bs'' e)
               then Some (absorb b bs'')
               else cons (b, f) <$> unfit ptr bs' e
           end
  end.

Lemma sizeof_HeapNode_pos : 0 < sizeof_HeapNode.
Proof. unfold sizeof_HeapNode. by destruct the_arch. Qed.

Lemma HEAP_NODE_MIN_SIZE_pos : 0 < HEAP_NODE_MIN_SIZE.
Proof. unfold HEAP_NODE_MIN_SIZE, sizeof_size_t. by destruct the_arch. Qed.

Lemma chain_start m a bs e : chain m a bs e -> a = start_of bs e.
Proof. destruct bs as [|[b f] bs]; simpl; naive_solver. Qed.

Lemma chain_bounds m a bs e : chain m a bs e -> bs <> [] -> 0 < a /\ a + sizeof_HeapNode <= e.
Proof.
  pose proof sizeof_HeapNode_pos.
  revert a; induction bs as [|[b f] bs IH]; intros a; [done|].
  simpl. intros (-> & Hb & Hle & _ & Hc) _. split; [done|].
  destruct bs as [|[b' f'] bs]; simpl in *; [lia|]. apply IH in Hc; [lia|done].
Qed.

Lemma chain_le m a bs e : chain m a bs e -> a <= e.
Proof.
  intros H. pose proof sizeof_HeapNode_pos.
  destruct bs as [|x bs]; [simpl in H; lia|]. apply chain_bounds in H; [lia|done].
Qed.

(** Headers of the chain lie in [[a, e)]. *)
Lemma chain_in m a bs e b : chain m a bs e -> b ∈ bs.*1 -> a <= b /\ b + sizeof_HeapNode <= e.
Proof.
  pose proof sizeof_HeapNode_pos.
  revert a; induction bs as [|[b' f] bs IH]; intros a Hc Hb; [set_solver|].
  pose proof (chain_bounds _ _ _ _ Hc ltac:(done)).
  destruct Hc as (-> & Hp & Hle & _ & Hc). csimpl in Hb.
  apply elem_of_cons in Hb as [->|Hb]; [lia|]. apply (IH _ Hc) in Hb. lia.
Qed.

Lemma chain_frame m m' a bs e :
  (forall b, b ∈ bs.*1 -> m' !! b = m !! b) -> chain m a bs e -> chain m' a bs e.
Proof.
  revert a; induction bs as [|[b f] bs IH]; intros a Hf; simpl; [done|].
  intros (-> & Hp & Hle & Hl & Hc). split_and!; [done..| |].
  - rewrite Hf; [done|]. set_solver.
  - apply IH; [|done]. intros x Hx. apply Hf. set_solver.
Qed.

Lemma chain_NoDup m a bs e : chain m a bs e -> NoDup bs.*1.
Proof.
  pose proof sizeof_HeapNode_pos.
  revert a; induction bs as [|[b f] bs IH]; intros a; simpl; [constructor|].
  intros (-> & Hp & Hle & Hl & Hc). constructor; [|by eapply IH].
  intros Hin. apply (chain_in _ _ _ _ _ Hc) in Hin. lia.
Qed.

Lemma chain_lookup m a bs e b : chain m a bs e -> b ∈ bs.*1 -> is_Some (m !! b).
Proof.
  revert a; induction bs as [|[b' f] bs IH]; intros a; [set_solver|].
  intros (-> & Hp & Hle & Hl & Hc) [->|Hin]%elem_of_cons; [by eexists|eauto].
Qed.

Lemma chain_fuel m a bs e : chain m a bs e -> is_Some (m !! e) -> (length bs < size m)%nat.
Proof.
  intros Hc He.
  assert (length (e :: bs.*1) <= size m)%nat as Hle; [|simpl in Hle; rewrite length_fmap in Hle; lia].
  apply NoDup_dom_length.
  - constructor; [|by eapply chain_NoDup]. intros Hin.
    apply (chain_in _ _ _ _ _ Hc) in Hin. pose proof sizeof_HeapNode_pos. lia.
  - intros k [->|Hin]%elem_of_cons; [done|by eapply chain_lookup].
Qed.

Lemma region_ok_end m r bs : region_ok m r bs -> 0 < region_end r < 2 ^ size_bits.
Proof.
  intros (Hb & Hs & Hne & Hc & _). pose proof (chain_bounds _ _ _ _ Hc Hne).
  pose proof sizeof_HeapNode_pos. unfold region_end, SIZE_MAX in *. lia.
Qed.

Lemma NODE_SIZE_chain b bs' e f : 0 < b -> b + sizeof_HeapNode <= start_of bs' e ->
  start_of bs' e < 2 ^ size_bits ->
  NODE_SIZE b (mkHeapNode HEAP_MAGIC f (start_of bs' e)) = start_of bs' e - b - sizeof_HeapNode.
Proof.
  intros. unfold NODE_SIZE, NULL. simpl. pose proof sizeof_HeapNode_pos.
  destruct (Z.eqb_spec (start_of bs' e) 0); [lia|]. apply wrap_small. lia.
Qed.

End Blocks.

Section Refine.
Context `{A : Arch}.
Implicit Types (m : headers) (r : HeapRegion) (bs : list (Z * bool)) (e : Z).

(** Headers outside of [[lo, hi)] are untouched. *)
Definition unchanged_outside (lo hi : Z) m m' : Prop :=
  forall x, x < lo \/ hi <= x -> m' !! x = m !! x.

Lemma unchanged_outside_mono lo lo' hi m m' :
  lo' <= lo -> unchanged_outside lo hi m m' -> unchanged_outside lo' hi m m'.
Proof. intros ? H x ?. apply H. lia. Qed.

Lemma alloc_loop_fit m n e bs : forall a fuel,
  chain m a bs e -> m !! e = Some (mkHeapNode 0 false NULL) ->
  0 < e < 2 ^ size_bits -> 0 <= n -> (length bs < fuel)%nat ->
  match fit n bs e with
  | None => alloc_loop m n fuel a = Some (m, NULL)
  | Some (bs', p) => exists m', alloc_loop m n fuel a = Some (m', p) /\
      chain m' a bs' e /\ unchanged_outside a e m m' /\ bs' <> [] /\ a < p < e + 1
  end.
Proof.
  pose proof sizeof_HeapNode_pos as Hpos. pose proof HEAP_NODE_MIN_SIZE_pos as Hmin.
  induction bs as [|[b f] bs IH]; intros a fuel Hc Hend He Hn Hf;
    (destruct fuel as [|fuel]; [simpl in Hf; lia|]).
  { simpl in Hc. subst a. simpl. destruct (Z.eqb_spec e NULL); [done|]. by rewrite Hend. }
  pose proof (chain_bounds _ _ _ _ Hc ltac:(done)) as Hbd.
  destruct Hc as (-> & Hp & Hle & Hl & Hc). pose proof (chain_le _ _ _ _ Hc) as Hsle.
  simpl in Hf. cbn [alloc_loop fit].
  destruct (Z.eqb_spec b NULL); [unfold NULL in *; lia|].
  rewrite Hl. cbn [mbind option_bind magic is_free next]. rewrite Z.eqb_refl. cbn [negb].
  rewrite NODE_SIZE_chain by (done || lia).
  set (sz := start_of bs e - b - sizeof_HeapNode).
  destruct (f && (n <=? sz)) eqn:Efit.
  - apply andb_true_iff in Efit as [-> Hsz%Z.leb_le].
    rewrite (wrap_small _ (sz - n)) by lia. rewrite (wrap_small _ (b + sizeof_HeapNode)) by lia.
    destruct (Z.leb_spec (HEAP_NODE_MIN_SIZE + sizeof_HeapNode) (sz - n)) as [Hsplit|Hsplit].
    + rewrite (wrap_small _ (b + n + sizeof_HeapNode)) by lia.
      set (nn := b + n + sizeof_HeapNode).
      eexists. split; [done|]. split_and!; [|intros x Hx|done|lia..].
      * cbn [chain start_of]. split_and!; try done; try lia.
        { by rewrite lookup_insert_eq. }
        { by rewrite lookup_insert_ne, lookup_insert_eq by lia. }
        eapply chain_frame; [|done]. intros x Hx.
        apply (chain_in _ _ _ _ _ Hc) in Hx. rewrite !lookup_insert_ne by lia. done.
      * rewrite !lookup_insert_ne by lia. done.
    + eexists. split; [done|]. split_and!; [|intros x Hx|done|lia..].
      * cbn [chain]. split_and!; try done.
        { by rewrite lookup_insert_eq. }
        eapply chain_frame; [|done]. intros x Hx.
        apply (chain_in _ _ _ _ _ Hc) in Hx. rewrite lookup_insert_ne by lia. done.
      * rewrite lookup_insert_ne by lia. done.
  - specialize (IH _ fuel Hc Hend He Hn ltac:(lia)).
    destruct (fit n bs e) as [[bs' p]|]; cbn [fmap option_fmap option_map fst snd]; [|done].
    destruct IH as (m' & Ha & Hc' & Hout & Hne & Hp'). exists m'.
    assert (start_of bs' e = start_of bs e) as Hst by (symmetry; by apply chain_start in Hc').
    split_and!; [done| | |done|lia..].
    + cbn [chain]. rewrite Hst. split_and!; try done. rewrite Hout by lia. done.
    + eapply unchanged_outside_mono; [|done]. lia.
Qed.

(** The block lists before and after an allocation. *)
Lemma fit_split n bs e bs' p : fit n bs e = Some (bs', p) ->
  exists bs1 b bs2, bs = bs1 ++ (b, true) :: bs2 /\ p = b + sizeof_HeapNode /\
    n <= start_of bs2 e - b - sizeof_HeapNode /\
    (bs' = bs1 ++ (b, false) :: bs2 \/
     (bs' = bs1 ++ (b, false) :: (b + n + sizeof_HeapNode, true) :: bs2 /\
      HEAP_NODE_MIN_SIZE + sizeof_HeapNode <= start_of bs2 e - b - sizeof_HeapNode - n)).
Proof.
  revert bs' p; induction bs as [|[b f] bs IH]; intros bs' p; [done|]. cbn [fit].
  destruct (f && _) eqn:E.
  - apply andb_true_iff in E as [-> Hsz%Z.leb_le].
    destruct (Z.leb_spec (HEAP_NODE_MIN_SIZE + sizeof_HeapNode)
                         (start_of bs e - b - sizeof_HeapNode - n)); intros [= <- <-];
      exists [], b, bs; split_and!; auto.
  - destruct (fit n bs e) as [[bs1' p']|] eqn:Ef; [|done]. intros [= <- <-].
    destruct (IH _ _ eq_refl) as (l1 & b' & l2 & -> & -> & Hn & Hcase).
    exists ((b, f) :: l1), b', l2. split_and!; [done..|]. naive_solver.
Qed.

Lemma fit_none n bs e : fit n bs e = None ->
  forall s l, (s, l, true) ∈ payloads bs e -> l < n.
Proof.
  induction bs as [|[b f] bs IH]; cbn [fit payloads]; [set_solver|].
  destruct (f && _) eqn:E.
  { intros Hx. exfalso. by destruct (_ + _ <=? _). }
  destruct (fit n bs e); [done|]. intros _ s l [[= -> -> <-]|Hin]%elem_of_cons; [|eauto].
  simpl in E. lia.
Qed.

Lemma payloads_app bs1 bs2 e :
  payloads (bs1 ++ bs2) e = payloads bs1 (start_of bs2 e) ++ payloads bs2 e.
Proof.
  induction bs1 as [|[b f] bs1 IH]; simpl; [done|]. rewrite IH. f_equal.
  destruct bs1 as [|[b' f'] bs1]; done.
Qed.

Lemma live_app bs1 bs2 e : live (bs1 ++ bs2) e = live bs1 (start_of bs2 e) ++ live bs2 e.
Proof. unfold live. by rewrite payloads_app, filter_app, fmap_app. Qed.

Lemma live_cons_false b bs e :
  live ((b, false) :: bs) e = (b + sizeof_HeapNode, start_of bs e - b - sizeof_HeapNode) :: live bs e.
Proof. unfold live. cbn [payloads]. by rewrite filter_cons_True. Qed.

Lemma live_cons_true b bs e : live ((b, true) :: bs) e = live bs e.
Proof. unfold live. cbn [payloads]. by rewrite filter_cons_False. Qed.

Create Rewrite HintDb live.
Hint Rewrite live_app live_cons_false live_cons_true : live.

Lemma alloc_region_fit m r bs n :
  region_ok m r bs -> 0 <= n ->
  match fit n bs (region_end r) with
  | None => alloc_region m r n = Some (m, NULL)
  | Some (bs', p) => exists m', alloc_region m r n = Some (m', p) /\ p <> NULL /\
      region_ok m' r bs' /\ unchanged_outside (base r) (region_end r) m m'
  end.
Proof.
  intros Hok Hn. pose proof (region_ok_end _ _ _ Hok) as He.
  destruct Hok as (Hb & Hs & Hne & Hc & Hend).
  assert (length bs < S (size m))%nat as Hf.
  { pose proof (chain_fuel _ _ _ _ Hc ltac:(by eexists)). lia. }
  pose proof (alloc_loop_fit m n _ bs _ _ Hc Hend He Hn Hf) as Hal.
  unfold alloc_region. destruct (fit n bs (region_end r)) as [[bs' p]|] eqn:E; [|done].
  destruct Hal as (m' & Ha & Hc' & Hout & Hne' & Hp). exists m'. split_and!; try done.
  - unfold NULL. lia.
  - split_and!; try done. rewrite Hout by lia. done.
Qed.

(** Allocation makes one more payload live. *)
Lemma fit_live n bs e bs' p : fit n bs e = Some (bs', p) ->
  exists len, n <= len /\ live bs' e ≡ₚ (p, len) :: live bs e.
Proof.
  pose proof HEAP_NODE_MIN_SIZE_pos. pose proof sizeof_HeapNode_pos.
  intros (l1 & b & l2 & -> & -> & Hle & Hcase)%fit_split.
  destruct Hcase as [->|[-> Hbig]]; eexists; (split; [|autorewrite with live; cbn [start_of];
    rewrite <- Permutation_middle; reflexivity]); cbn [start_of]; lia.
Qed.

Definition release_node m (node : Z) (n : HeapNode) : option headers :=
  let m1 := <[node := mkHeapNode (magic n) true (next n)]> m in
  if next n =? NULL then Some m1
  else nx ← m1 !! next n;
       if is_free nx
       then Some (<[node := mkHeapNode (magic n) true (next nx)]> m1)
       else Some m1.

Lemma release_node_absorb m b f bs e :
  chain m b ((b, f) :: bs) e -> m !! e = Some (mkHeapNode 0 false NULL) ->
  exists m', release_node m b (mkHeapNode HEAP_MAGIC f (start_of bs e)) = Some m' /\
    chain m' b (absorb b bs) e /\ (forall x, x <> b -> m' !! x = m !! x) /\
    m' !! b = Some (mkHeapNode HEAP_MAGIC true (start_of (tail (absorb b bs)) e)).
Proof.
  pose proof sizeof_HeapNode_pos as Hpos. intros (_ & Hb & Hle & Hl & Hc) Hend.
  unfold release_node. cbn [magic next].
  destruct (Z.eqb_spec (start_of bs e) NULL); [unfold NULL in *; lia|].
  assert (forall bs', bs' `suffix_of` bs -> chain m (start_of bs' e) bs' e ->
     b + sizeof_HeapNode <= start_of bs' e ->
     forall m', (forall x, x <> b -> m' !! x = m !! x) ->
     m' !! b = Some (mkHeapNode HEAP_MAGIC true (start_of bs' e)) ->
     chain m' b ((b, true) :: bs') e) as Hbuild.
  { intros bs' _ Hc' Hle' m' Hm' Hb'. cbn [chain]. split_and!; try done.
    eapply chain_frame; [|done]. intros x Hx. apply Hm'.
    apply (chain_in _ _ _ _ _ Hc') in Hx. lia. }
  destruct bs as [|[b' f'] bs]; cbn [start_of] in *.
  - rewrite lookup_insert_ne, Hend by lia. simpl. eexists. split; [done|]. split; [|split].
    + apply (Hbuild []); try done. { intros. by rewrite lookup_insert_ne. }
      by rewrite lookup_insert_eq.
    + intros. by rewrite lookup_insert_ne.
    + by rewrite lookup_insert_eq.
  - pose proof Hc as (_ & _ & Hle' & Hl' & Hc'). rewrite lookup_insert_ne, Hl' by lia. simpl.
    destruct f'; cbn [absorb tail is_free next]; (eexists; split; [done|]); (split; [|split]).
    + apply (Hbuild bs); try done.
      * by exists [(b', true)].
      * lia.
      * intros. by rewrite !lookup_insert_ne.
      * by rewrite lookup_insert_eq.
    + intros. by rewrite !lookup_insert_ne.
    + by rewrite lookup_insert_eq.
    + apply (Hbuild ((b', false) :: bs)); try done. { intros. by rewrite lookup_insert_ne. }
      by rewrite lookup_insert_eq.
    + intros. by rewrite lookup_insert_ne.
    + by rewrite lookup_insert_eq.
Qed.

Lemma absorb_cons b bs : exists bs', absorb b bs = (b, true) :: bs'.
Proof. destruct bs as [|[b' []] bs]; simpl; eauto. Qed.

Lemma absorb_absorb b b' bs : tail (absorb b' bs) = tail (absorb b bs).
Proof. by destruct bs as [|[? []] ?]. Qed.

(** [release] with a predecessor [b]. *)
Lemma release_spec m b f b' f' bs e :
  chain m b ((b, f) :: (b', f') :: bs) e -> m !! e = Some (mkHeapNode 0 false NULL) ->
  exists m', release m b b' (mkHeapNode HEAP_MAGIC f' (start_of bs e)) = Some m' /\
    chain m' b (if f then absorb b bs else (b, false) :: absorb b' bs) e /\
    (forall x, x <> b -> x <> b' -> m' !! x = m !! x).
Proof.
  pose proof sizeof_HeapNode_pos as Hpos. intros (_ & Hb & Hle & Hl & Hc) Hend.
  cbn [start_of] in *.
  destruct (release_node_absorb m b' f' bs e Hc Hend) as (m2 & Hm2 & Hc2 & Hout & Hl2).
  unfold release. fold (release_node m b' (mkHeapNode HEAP_MAGIC f' (start_of bs e))).
  rewrite Hm2. cbn [mbind option_bind]. destruct (Z.eqb_spec b NULL); [unfold NULL in *; lia|].
  rewrite (Hout b), Hl by lia. cbn [mbind option_bind is_free].
  destruct (absorb_cons b' bs) as [t Ht]. rewrite Ht in Hc2, Hl2. cbn [tail] in Hl2.
  destruct Hc2 as (_ & _ & Hle2 & _ & Hc2).
  destruct f.
  - rewrite Hl2. simpl. eexists. split; [done|].
    destruct (absorb_cons b bs) as [t' Ht']. pose proof (absorb_absorb b b' bs) as Htt.
    rewrite Ht, Ht' in Htt. simpl in Htt. subst t'. rewrite Ht'. split.
    + cbn [chain]. split_and!; try done; try lia.
      { by rewrite lookup_insert_eq. }
      eapply chain_frame; [|done]. intros x Hx. apply (chain_in _ _ _ _ _ Hc2) in Hx.
      rewrite lookup_insert_ne by lia. done.
    + intros x ? ?. rewrite lookup_insert_ne by done. by apply Hout.
  - eexists. split; [done|]. rewrite Ht. split.
    + cbn [chain start_of]. split_and!; try done; try lia. rewrite (Hout b), Hl by lia. done.
    + intros x ? ?. by apply Hout.
Qed.

Lemma unfit_cons ptr b f bs e :
  unfit ptr ((b, f) :: bs) e =
    if (b <? ptr) && (ptr <? start_of bs e) then Some (absorb b bs)
    else match bs with
         | [] => None
         | (b', _) :: bs'' =>
             if f && (b' <? ptr) && (ptr <? start_of bs'' e)
             then Some (absorb b bs'')
             else cons (b, f) <$> unfit ptr bs e
         end.
Proof. done. Qed.

(** The search loop past the block [b]. *)
Lemma free_loop_unfit m ptr e bs : forall b f fuel,
  chain m b ((b, f) :: bs) e -> m !! e = Some (mkHeapNode 0 false NULL) -> 0 < e ->
  ~ (b < ptr < start_of bs e) -> (length bs < fuel)%nat ->
  match unfit ptr ((b, f) :: bs) e with
  | None => free_loop m ptr fuel b (start_of bs e) = Some (m, false)
  | Some bs' => exists m', free_loop m ptr fuel b (start_of bs e) = Some (m', true) /\
      chain m' b bs' e /\ unchanged_outside b e m m' /\ bs' <> []
  end.
Proof.
  pose proof sizeof_HeapNode_pos as Hpos.
  induction bs as [|[b' f'] bs IH]; intros b f fuel Hc Hend He Hni Hf;
    (destruct fuel as [|fuel]; [simpl in Hf; lia|]);
    rewrite unfit_cons; (destruct ((b <? ptr) && (ptr <? _)) eqn:E; [simpl in *; lia|]).
  { cbn [free_loop start_of]. destruct (Z.eqb_spec e NULL); [done|]. by rewrite Hend. }
  pose proof Hc as (_ & Hb & Hle & Hl & Hc'). cbn [start_of] in *.
  pose proof (chain_bounds _ _ _ _ Hc' ltac:(done)) as Hbe.
  pose proof Hc' as (_ & Hb' & Hle' & Hl' & Hc'').
  cbn [free_loop]. destruct (Z.eqb_spec b' NULL); [unfold NULL in *; lia|].
  rewrite Hl'. cbn [mbind option_bind magic next]. rewrite Z.eqb_refl. cbn [negb].
  rewrite <- andb_assoc. destruct ((b' <? ptr) && (ptr <? start_of bs e)) eqn:E'.
  - destruct (release_spec m b f b' f' bs e Hc Hend) as (m' & Hr & Hcr & Hout).
    rewrite Hr. cbn [mbind option_bind]. rewrite andb_true_r.
    assert (unchanged_outside b e m m') as Hun by (intros x Hx; apply Hout; lia).
    destruct f; cbn [andb].
    + exists m'. split_and!; try done. by destruct (absorb_cons b bs) as [t ->].
    + rewrite unfit_cons, E'. by exists m'.
  - rewrite andb_false_r. simpl in Hf.
    specialize (IH b' f' fuel Hc' Hend He ltac:(lia) ltac:(lia)).
    destruct (unfit ptr ((b', f') :: bs) e) as [bs'|]; cbn [fmap option_fmap option_map]; [|done].
    destruct IH as (m' & Hfr & Hcr & Hout & Hne). exists m'. split_and!; try done.
    + pose proof (chain_start _ _ _ _ Hcr) as Hst. cbn [chain]. rewrite <- Hst.
      split_and!; try done; try lia. rewrite Hout by lia. done.
    + eapply unchanged_outside_mono; [|done]. lia.
Qed.

Lemma free_region_unfit m r bs ptr :
  region_ok m r bs -> ptr <> NULL ->
  match unfit ptr bs (region_end r) with
  | None => free_region m r ptr = Some (m, false)
  | Some bs' => exists m', free_region m r ptr = Some (m', true) /\
      region_ok m' r bs' /\ unchanged_outside (base r) (region_end r) m m'
  end.
Proof.
  intros Hok Hp. pose proof (region_ok_end _ _ _ Hok) as He.
  destruct Hok as (Hb & Hs & Hne & Hc & Hend). pose proof sizeof_HeapNode_pos as Hpos.
  pose proof (chain_fuel _ _ _ _ Hc ltac:(by eexists)) as Hf.
  unfold free_region. destruct (Z.eqb_spec ptr NULL); [done|].
  destruct bs as [|[b f] bs]; [done|].
  pose proof Hc as (<- & _ & Hle & Hl & Hc').
  set (e := region_end r) in *.
  destruct ((base r <? ptr) && (ptr <? start_of bs e)) eqn:E.
  - cbn [free_loop unfit]. rewrite E. destruct (Z.eqb_spec (base r) NULL); [unfold NULL in *; lia|].
    rewrite Hl. cbn [mbind option_bind magic next]. rewrite Z.eqb_refl. cbn [negb]. rewrite E.
    destruct (release_node_absorb m (base r) f bs e Hc Hend) as (m' & Hr & Hcr & Hout & _).
    unfold release. fold (release_node m (base r) (mkHeapNode HEAP_MAGIC f (start_of bs e))).
    rewrite Hr. cbn [mbind option_bind]. exists m'. split; [done|]. split.
    + split_and!; try done; [by destruct (absorb_cons (base r) bs) as [t ->]|].
      fold e. rewrite Hout; [done|]. pose proof (chain_le _ _ _ _ Hc'). lia.
    + intros x Hx. apply Hout. pose proof (chain_le _ _ _ _ Hc'). lia.
  - pose proof (free_loop_unfit m ptr e bs (base r) f (size m) Hc Hend ltac:(lia) ltac:(lia)
      ltac:(simpl in Hf; lia)) as H.
    cbn [free_loop]. destruct (Z.eqb_spec (base r) NULL); [unfold NULL in *; lia|].
    rewrite Hl. cbn [mbind option_bind magic next]. rewrite Z.eqb_refl. cbn [negb]. rewrite E.
    destruct (unfit ptr ((base r, f) :: bs) e) as [bs'|]; [|done].
    destruct H as (m' & Hfr & Hcr & Hout & Hne'). exists m'. split_and!; try done.
    split_and!; try done. fold e. rewrite Hout; [done|]. pose proof (chain_le _ _ _ _ Hc'). lia.
Qed.

(** Which block is freed, and what becomes of its neighbours. *)
Lemma unfit_at m e bs2 b f ptr bs1 : forall a,
  chain m a (bs1 ++ (b, f) :: bs2) e -> b < ptr < start_of bs2 e ->
  (exists bs0 p, bs1 = bs0 ++ [(p, true)] /\
     unfit ptr (bs1 ++ (b, f) :: bs2) e = Some (bs0 ++ absorb p bs2)) \/
  ((forall p, last bs1 <> Some (p, true)) /\
     unfit ptr (bs1 ++ (b, f) :: bs2) e = Some (bs1 ++ absorb b bs2)).
Proof.
  pose proof sizeof_HeapNode_pos as Hpos.
  induction bs1 as [|[b1 f1] bs1 IH]; intros a Hc Hp.
  { right. split; [done|]. cbn [app]. rewrite unfit_cons.
    by rewrite (proj2 (andb_true_iff _ _)) by (split; lia). }
  destruct Hc as (-> & _ & Hle & _ & Hc). cbn [app]. rewrite unfit_cons.
  assert (start_of (bs1 ++ (b, f) :: bs2) e <= b) as Hlb.
  { apply (chain_in _ _ _ _ b Hc). rewrite fmap_app. set_solver. }
  destruct ((b1 <? ptr) && (ptr <? start_of (bs1 ++ (b, f) :: bs2) e)) eqn:E; [lia|].
  destruct (IH _ Hc Hp) as [(bs0 & p & -> & Hu)|[Hl Hu]].
  - left. exists ((b1, f1) :: bs0), p. split; [done|].
    destruct bs0 as [|[b2 f2] bs0]; cbn [app] in *.
    + destruct Hc as (_ & _ & Hle2 & _ & Hc). cbn [start_of] in *.
      destruct (f1 && (p <? ptr) && (ptr <? b)) eqn:E2; [lia|]. by rewrite Hu.
    + destruct Hc as (_ & _ & Hle2 & _ & Hc).
      assert (start_of ((bs0 ++ [(p, true)]) ++ (b, f) :: bs2) e <= b) as Hlb2.
      { apply (chain_in _ _ _ _ b Hc). rewrite !fmap_app. set_solver. }
      destruct (f1 && (b2 <? ptr) && (ptr <? _)) eqn:E2; [lia|]. by rewrite Hu.
  - destruct bs1 as [|[b2 f2] bs1]; cbn [app] in *.
    + rewrite (proj2 (Z.ltb_lt b ptr)), (proj2 (Z.ltb_lt ptr (start_of bs2 e))) by lia.
      rewrite !andb_true_r. destruct f1.
      * left. by exists [], b1.
      * right. split; [done|]. by rewrite Hu.
    + right. destruct Hc as (_ & _ & Hle2 & _ & Hc).
      assert (start_of (bs1 ++ (b, f) :: bs2) e <= b) as Hlb2.
      { apply (chain_in _ _ _ _ b Hc). rewrite !fmap_app. set_solver. }
      destruct (f1 && (b2 <? ptr) && (ptr <? _)) eqn:E2; [lia|]. split; [done|]. by rewrite Hu.
Qed.

Lemma live_absorb b bs e : live (absorb b bs) e = live bs e.
Proof. destruct bs as [|[b' []] bs]; simpl absorb; by rewrite !live_cons_true. Qed.

Lemma start_of_absorb b bs e : start_of (absorb b bs) e = b.
Proof. by destruct bs as [|[b' []] bs]. Qed.

Lemma payload_block bs e s len f : (s, len, f) ∈ payloads bs e ->
  exists bs1 b bs2, bs = bs1 ++ (b, f) :: bs2 /\ s = b + sizeof_HeapNode /\
    len = start_of bs2 e - b - sizeof_HeapNode.
Proof.
  induction bs as [|[b f'] bs IH]; cbn [payloads]; [set_solver|].
  intros [[= -> -> ->]|Hin]%elem_of_cons; [by exists [], b, bs|].
  destruct (IH Hin) as (bs1 & b' & bs2 & -> & -> & ->). by exists ((b, f') :: bs1), b', bs2.
Qed.

Lemma live_block bs e s len : (s, len) ∈ live bs e ->
  exists bs1 b bs2, bs = bs1 ++ (b, false) :: bs2 /\ s = b + sizeof_HeapNode /\
    len = start_of bs2 e - b - sizeof_HeapNode.
Proof.
  unfold live. intros ([[s' len'] f] & [= <- <-] & Hin)%list_elem_of_fmap.
  apply list_elem_of_filter in Hin as [? Hin]. simpl in *. subst f. by apply payload_block.
Qed.

(** ** Coalescing *)

Lemma coalesced_cons b f bs :
  coalesced ((b, f) :: bs) <->
  coalesced bs /\ forall b' bs', bs = (b', true) :: bs' -> f = false.
Proof.
  destruct bs as [|[b' f'] bs]; simpl; [naive_solver|].
  destruct f, f'; naive_solver.
Qed.

Lemma coalesced_app bs1 bs2 :
  coalesced (bs1 ++ bs2) <->
  coalesced bs1 /\ coalesced bs2 /\
  forall p b bs', last bs1 = Some (p, true) -> bs2 <> (b, true) :: bs'.
Proof.
  induction bs1 as [|[b1 f1] bs1 IH]; cbn [app].
  - naive_solver.
  - rewrite !coalesced_cons, IH. destruct bs1 as [|x bs1]; cbn [app].
    + simpl. destruct f1; naive_solver.
    + rewrite last_cons_cons. naive_solver.
Qed.

Lemma coalesced_absorb b bs : coalesced bs -> coalesced (absorb b bs).
Proof.
  destruct bs as [|[b' []] bs]; simpl absorb; rewrite !coalesced_cons; naive_solver.
Qed.

Lemma unfit_coalesced m e bs2 b f ptr bs1 a bs' :
  chain m a (bs1 ++ (b, f) :: bs2) e -> b < ptr < start_of bs2 e ->
  unfit ptr (bs1 ++ (b, f) :: bs2) e = Some bs' ->
  coalesced (bs1 ++ (b, f) :: bs2) -> coalesced bs'.
Proof.
  intros Hc Hp Hu (H1 & [H2 _]%coalesced_cons & H3)%coalesced_app.
  destruct (unfit_at _ _ _ _ _ _ _ _ Hc Hp) as [(bs0 & p & -> & Hu')|[Hl Hu']];
    rewrite Hu' in Hu; injection Hu as <-; apply coalesced_app.
  - apply coalesced_app in H1 as (H0 & _ & Hlast).
    split_and!; [done|by apply coalesced_absorb|].
    intros q b' t Hq Ht. by apply (Hlast q p []).
  - split_and!; [done|by apply coalesced_absorb|]. intros q b' t Hq. by destruct (Hl q).
Qed.

Lemma fit_coalesced n bs e bs' p : fit n bs e = Some (bs', p) -> coalesced bs -> coalesced bs'.
Proof.
  intros (l1 & b & l2 & -> & -> & _ & Hcase)%fit_split.
  rewrite coalesced_app, coalesced_cons. intros (H1 & [H2 H3] & H4).
  destruct Hcase as [->|[-> _]]; rewrite coalesced_app, !coalesced_cons.
  - split_and!; try done; naive_solver.
  - split_and!; try done; naive_solver.
Qed.

(** Freeing a pointer into a live payload makes exactly that payload free. *)
Lemma free_region_live m r bs s len ptr :
  region_ok m r bs -> (s, len) ∈ live bs (region_end r) -> s <= ptr < s + len ->
  exists m' bs', free_region m r ptr = Some (m', true) /\ region_ok m' r bs' /\
    live bs (region_end r) ≡ₚ (s, len) :: live bs' (region_end r) /\
    (coalesced bs -> coalesced bs') /\
    unchanged_outside (base r) (region_end r) m m'.
Proof.
  intros Hok Hlive Hptr. pose proof sizeof_HeapNode_pos as Hpos.
  destruct (live_block _ _ _ _ Hlive) as (bs1 & b & bs2 & -> & -> & ->).
  pose proof Hok as (Hb & _ & _ & Hc & _).
  assert (0 < b) as Hb0.
  { assert (base r <= b); [|lia]. apply (chain_in _ _ _ _ b Hc). rewrite fmap_app. set_solver. }
  pose proof (free_region_unfit _ _ _ ptr Hok ltac:(unfold NULL; lia)) as Hfr.
  assert (b < ptr < start_of bs2 (region_end r)) as Hp by lia.
  destruct (unfit ptr (bs1 ++ (b, false) :: bs2) (region_end r)) as [bs'|] eqn:Eu.
  - destruct Hfr as (m' & Hfr & Hok' & Hout). exists m', bs'. split_and!; try done.
    + destruct (unfit_at _ _ _ _ _ _ _ _ Hc Hp) as [(bs0 & p & -> & Hu')|[Hl Hu']];
        rewrite Hu' in Eu; injection Eu as <-; autorewrite with live; rewrite live_absorb.
      * rewrite !start_of_absorb. cbn [start_of app]. rewrite app_nil_r.
        by rewrite <- Permutation_middle.
      * rewrite start_of_absorb. cbn [start_of]. by rewrite <- Permutation_middle.
    + by eapply unfit_coalesced.
  - exfalso. destruct (unfit_at _ _ _ _ _ _ _ _ Hc Hp) as [(? & ? & _ & Hu)|[_ Hu]]; congruence.
Qed.

Lemma unfit_none m a bs e ptr : chain m a bs e -> ptr <= a \/ e <= ptr -> unfit ptr bs e = None.
Proof.
  pose proof sizeof_HeapNode_pos as Hpos.
  revert a; induction bs as [|[b f] bs IH]; intros a Hc Hp; [done|].
  rewrite unfit_cons. destruct Hc as (-> & Hb & Hle & _ & Hc).
  pose proof (chain_le _ _ _ _ Hc) as Hse.
  destruct ((b <? ptr) && (ptr <? start_of bs e)) eqn:E; [lia|].
  destruct bs as [|[b' f'] bs]; [done|].
  rewrite (IH _ Hc) by lia. destruct Hc as (_ & _ & Hle' & _ & Hc). cbn [start_of] in *.
  pose proof (chain_le _ _ _ _ Hc).
  destruct (f && (b' <? ptr) && (ptr <? start_of bs e)) eqn:E'; [lia|done].
Qed.

Lemma live_bounds m a bs e s len : chain m a bs e -> (s, len) ∈ live bs e ->
  a + sizeof_HeapNode <= s /\ 0 <= len /\ s + len <= e.
Proof.
  intros Hc (bs1 & b & bs2 & -> & -> & ->)%live_block.
  revert a Hc; induction bs1 as [|[b1 f1] bs1 IH]; intros a Hc; cbn [app] in Hc.
  - destruct Hc as (-> & _ & Hle & _ & Hc). pose proof (chain_le _ _ _ _ Hc). lia.
  - destruct Hc as (-> & _ & Hle & _ & Hc). apply IH in Hc. pose proof sizeof_HeapNode_pos. lia.
Qed.

Lemma region_ok_frame m m' r bs :
  (forall x, base r <= x <= region_end r -> m' !! x = m !! x) ->
  region_ok m r bs -> region_ok m' r bs.
Proof.
  intros Hf (Hb & Hs & Hne & Hc & Hend). pose proof sizeof_HeapNode_pos.
  split_and!; try done.
  - eapply chain_frame; [|done]. intros b Hin. apply (chain_in _ _ _ _ _ Hc) in Hin.
    apply Hf. lia.
  - rewrite Hf; [done|]. pose proof (chain_bounds _ _ _ _ Hc Hne). lia.
Qed.

Lemma initRegion_ok m r :
  0 < base r -> base r + rsize r <= SIZE_MAX -> 2 * sizeof_HeapNode <= rsize r ->
  region_ok (initRegion m r) r [(base r, true)] /\
  unchanged_outside (base r) (region_end r + 1) m (initRegion m r).
Proof.
  intros Hb Hs Hr. pose proof sizeof_HeapNode_pos.
  unfold initRegion. destruct (Z.eqb_spec (base r) 0); [lia|].
  destruct (Z.eqb_spec (rsize r) 0); [lia|]. destruct (Z.ltb_spec (rsize r) (2 * sizeof_HeapNode)); [lia|].
  cbn [orb]. fold (region_end r). unfold SIZE_MAX in Hs.
  rewrite wrap_small by (unfold region_end; lia). split.
  - split_and!; try done; try (unfold SIZE_MAX; lia).
    + cbn [chain start_of]. split_and!; try done; try (unfold region_end; lia).
      rewrite lookup_insert_ne, lookup_insert_eq by (unfold region_end; lia). done.
    + by rewrite lookup_insert_eq.
  - intros x Hx. unfold region_end in *. rewrite !lookup_insert_ne by lia. done.
Qed.
End Refine.
