(* ===== verification/HeapInv.v ===== *)
(** * The whole heap: invariant, allocation, release, resizing

    The regions of a well-formed heap are disjoint and each is a chain of
    blocks ([region_ok]).  The operations of [kernel/memory/heap.c] keep that
    invariant and move exactly one payload between the live and the free ones;
    the page source behind an expansion is an interface with laws. *)

From Stdlib Require Import Sorting.Sorted.
From S2P Require Import Prelude Heap.

Section HeapInv.
Context `{A : Arch}.
Implicit Types (m : headers) (r : HeapRegion) (h : Heap) (L : list (list (Z * bool))).

(** Two regions do not overlap. *)
Definition apart r1 r2 : Prop :=
  base r1 + rsize r1 <= base r2 \/ base r2 + rsize r2 <= base r1.

Fixpoint separated (rs : list HeapRegion) : Prop :=
  match rs with
  | [] => True
  | r :: rs' => Forall (apart r) rs' /\ separated rs'
  end.

(** The block lists [L], one for each region, are what memory holds. *)
Definition heap_ok h L : Prop :=
  Forall2 (region_ok (hdr h)) (regions h) L /\ separated (regions h) /\ Forall coalesced L.

(** Every payload handed out and not yet returned. *)
Fixpoint heap_live (rs : list HeapRegion) L : list (Z * Z) :=
  match rs, L with
  | r :: rs', bs :: L' => live bs (region_end r) ++ heap_live rs' L'
  | _, _ => []
  end.

(** The linker's heap area. *)
Definition local_ok (local : HeapRegion) : Prop :=
  0 < base local /\ base local + rsize local <= SIZE_MAX /\ 2 * sizeof_HeapNode <= rsize local.

(** Addresses of a list of regions. *)
Definition in_regions (rs : list HeapRegion) (x : Z) : Prop :=
  Exists (fun r => base r <= x <= region_end r) rs.

Lemma region_end_lt r x : base r <= x <= region_end r -> base r <= x < base r + rsize r.
Proof. pose proof sizeof_HeapNode_pos. unfold region_end. lia. Qed.

Lemma apart_not_in r rs x :
  Forall (apart r) rs -> base r <= x <= region_end r -> ~ in_regions rs x.
Proof.
  intros Ha Hx%region_end_lt Hin. apply Exists_exists in Hin as (r' & Hin & Hx'%region_end_lt).
  rewrite Forall_forall in Ha. destruct (Ha _ Hin); lia.
Qed.

Lemma regions_frame m m' rs L :
  (forall x, in_regions rs x -> m' !! x = m !! x) ->
  Forall2 (region_ok m) rs L -> Forall2 (region_ok m') rs L.
Proof.
  intros Hf H. induction H as [|r bs rs L Hr _ IH]; constructor.
  - eapply region_ok_frame; [|done]. intros x Hx. apply Hf. by left.
  - apply IH. intros x Hx. apply Hf. by right.
Qed.

Lemma heap_live_app rs1 rs2 L1 L2 : length rs1 = length L1 ->
  heap_live (rs1 ++ rs2) (L1 ++ L2) = heap_live rs1 L1 ++ heap_live rs2 L2.
Proof.
  revert L1; induction rs1 as [|r rs1 IH]; intros [|bs L1] Hl; try done.
  cbn. rewrite <- app_assoc, IH; [done|]. by injection Hl.
Qed.

(** The region search finds the first region with a fitting block. *)
Lemma alloc_regions_spec n rs m L :
  0 < n -> Forall2 (region_ok m) rs L -> separated rs -> Forall coalesced L ->
  exists m' p L', alloc_regions m rs n = Some (m', p) /\
    Forall2 (region_ok m') rs L' /\ Forall coalesced L' /\
    (forall x, ~ in_regions rs x -> m' !! x = m !! x) /\
    ((p = NULL /\ m' = m /\ L' = L /\ Forall2 (fun r bs => fit n bs (region_end r) = None) rs L) \/
     (p <> NULL /\ exists len, n <= len /\ heap_live rs L' ≡ₚ (p, len) :: heap_live rs L)).
Proof.
  intros Hn H. induction H as [|r bs rs L Hr HL IH]; intros Hsep Hco.
  { exists m, NULL, []. split_and!; auto. }
  destruct Hsep as [Ha Hsep]. apply Forall_cons in Hco as [Hb Hco].
  pose proof (alloc_region_fit m r bs n Hr ltac:(lia)) as Hal. cbn [alloc_regions].
  destruct (fit n bs (region_end r)) as [[bs' p]|] eqn:E.
  - destruct Hal as (m' & Hal & Hp & Hok & Hout). rewrite Hal. cbn.
    destruct (Z.eqb_spec p NULL) as [?|_]; [done|].
    exists m', p, (bs' :: L). split_and!; try done.
    + constructor; [done|]. eapply regions_frame; [|done]. intros x Hx.
      apply Hout. destruct (decide (base r <= x <= region_end r)); [|lia].
      by destruct (apart_not_in r rs x).
    + constructor; [|done]. by eapply fit_coalesced.
    + intros x Hx. apply Hout. destruct (decide (base r <= x <= region_end r)); [|lia].
      destruct Hx. by left.
    + right. split; [done|]. apply fit_live in E as (len & Hle & Hl). exists len.
      split; [done|]. cbn. by rewrite Hl.
  - rewrite Hal. cbn. destruct (IH Hsep Hco) as (m' & p & L' & -> & Hok & Hco' & Hout & Hcase).
    exists m', p, (bs :: L'). split_and!; try done.
    + constructor; [|done]. eapply region_ok_frame; [|done]. intros x Hx. apply Hout.
      by eapply apart_not_in.
    + by constructor.
    + intros x Hx. apply Hout. intros Hin. apply Hx. by right.
    + destruct Hcase as [(-> & -> & -> & Hno)|(Hp & len & Hle & Hl)]; [left|right].
      * split_and!; try done. by constructor.
      * split; [done|]. exists len. split; [done|]. cbn. rewrite Hl.
        by rewrite Permutation_middle.
Qed.

(** A live payload lies inside one of the regions. *)
Lemma heap_live_in m rs L s len :
  Forall2 (region_ok m) rs L -> (s, len) ∈ heap_live rs L ->
  exists r, r ∈ rs /\ base r + sizeof_HeapNode <= s /\ 0 <= len /\ s + len <= region_end r.
Proof.
  intros H. induction H as [|r bs rs L Hr HL IH]; cbn; [by intros ?%elem_of_nil|].
  intros [Hin|Hin]%elem_of_app.
  - exists r. split; [by left|]. destruct Hr as (_ & _ & _ & Hc & _). by eapply live_bounds.
  - destruct (IH Hin) as (r' & ? & ?). exists r'. split; [by right|done].
Qed.

(** A region refuses a pointer into another one. *)
Lemma free_region_other m rs L r bs s len ptr :
  Forall2 (region_ok m) rs L -> region_ok m r bs -> Forall (apart r) rs ->
  (s, len) ∈ heap_live rs L -> s <= ptr < s + len -> free_region m r ptr = Some (m, false).
Proof.
  intros HL Hr Ha Hin Hp.
  destruct (heap_live_in _ _ _ _ _ HL Hin) as (r' & Hr' & Hlo & Hlen & Hhi).
  pose proof sizeof_HeapNode_pos as Hpos.
  assert (ptr < base r \/ region_end r < ptr) as Hout.
  { destruct (decide (base r <= ptr <= region_end r)) as [Hx|]; [|lia].
    destruct (apart_not_in r rs ptr); try done. apply Exists_exists. exists r'. split; [done|]. lia. }
  assert (unfit ptr bs (region_end r) = None) as Hu.
  { destruct Hr as (_ & _ & _ & Hc & _). eapply unfit_none; [done|]. lia. }
  assert (0 < base r') as Hb'.
  { apply list_elem_of_lookup in Hr' as [i Hi].
    by destruct (Forall2_lookup_l _ _ _ _ _ HL Hi) as (? & _ & ? & _). }
  pose proof (free_region_unfit m r bs ptr Hr ltac:(unfold NULL; lia)) as Hfr.
  by rewrite Hu in Hfr.
Qed.

(** The region search of [heap_free] releases the block of the pointer. *)
Lemma free_regions_spec rs m L s len ptr :
  Forall2 (region_ok m) rs L -> separated rs -> Forall coalesced L ->
  (s, len) ∈ heap_live rs L -> s <= ptr < s + len ->
  exists m' L', free_regions m rs ptr = Some m' /\
    Forall2 (region_ok m') rs L' /\ Forall coalesced L' /\
    (forall x, ~ in_regions rs x -> m' !! x = m !! x) /\
    heap_live rs L ≡ₚ (s, len) :: heap_live rs L'.
Proof.
  intros H. induction H as [|r bs rs L Hr HL IH]; intros Hsep Hco Hin Hp.
  { by apply elem_of_nil in Hin. }
  destruct Hsep as [Ha Hsep]. apply Forall_cons in Hco as [Hb Hco]. cbn [free_regions heap_live] in *.
  apply elem_of_app in Hin as [Hin|Hin].
  - destruct (free_region_live _ _ _ _ _ _ Hr Hin Hp) as (m' & bs' & -> & Hok & Hl & Hc & Hout).
    exists m', (bs' :: L). split_and!; try done.
    + constructor; [done|]. eapply regions_frame; [|done]. intros x Hx.
      apply Hout. destruct (decide (base r <= x <= region_end r)); [|lia].
      by destruct (apart_not_in r rs x).
    + constructor; auto.
    + intros x Hx. apply Hout. destruct (decide (base r <= x <= region_end r)); [|lia].
      destruct Hx. by left.
    + cbn. by rewrite Hl.
  - rewrite (free_region_other m rs L r bs s len ptr HL Hr Ha Hin Hp). cbn.
    destruct (IH Hsep Hco Hin Hp) as (m' & L' & -> & Hok & Hco' & Hout' & Hl).
    exists m', (bs :: L'). split_and!; try done.
    + constructor; [|done]. eapply region_ok_frame; [|done]. intros x Hx. apply Hout'.
      by eapply apart_not_in.
    + by constructor.
    + intros x Hx. apply Hout'. intros ?. apply Hx. by right.
    + cbn. rewrite Hl. by rewrite Permutation_middle.
Qed.

(** Freeing what was just allocated restores the block list. *)
Lemma fit_unfit m r n bs bs' p : 0 < n -> fit n bs (region_end r) = Some (bs', p) ->
  coalesced bs -> region_ok m r bs' -> unfit p bs' (region_end r) = Some bs.
Proof.
  intros Hn (l1 & b & l2 & -> & -> & Hle & Hcase)%fit_split (_ & Hc2 & Hlast)%coalesced_app Hok.
  apply coalesced_cons in Hc2 as [_ Hc2]. destruct Hok as (_ & _ & _ & Hc & _).
  pose proof sizeof_HeapNode_pos.
  destruct Hcase as [->|[-> Hbig]]; destruct (unfit_at _ _ _ _ _ (b + sizeof_HeapNode) _ _ Hc)
    as [(bs0 & q & -> & _)|[_ ->]]; try (cbn [start_of]; lia).
  1, 3: exfalso; eapply Hlast; [apply last_snoc|done].
  - destruct l2 as [|[b2 []] l2]; try done. by discriminate (Hc2 _ _ eq_refl).
  - done.
Qed.

Lemma alloc_free_regions n rs m L m' p : 0 < n ->
  Forall2 (region_ok m) rs L -> separated rs -> Forall coalesced L ->
  alloc_regions m rs n = Some (m', p) -> p <> NULL ->
  exists m'', free_regions m' rs p = Some m'' /\ Forall2 (region_ok m'') rs L /\
    forall x, ~ in_regions rs x -> m'' !! x = m !! x.
Proof.
  intros Hn H. induction H as [|r bs rs L Hr HL IH]; intros Hsep Hco Hal Hp.
  { injection Hal as <- <-. done. }
  destruct Hsep as [Ha Hsep]. apply Forall_cons in Hco as [Hb Hco].
  pose proof (alloc_region_fit m r bs n Hr ltac:(lia)) as Hfit. cbn [alloc_regions] in Hal.
  destruct (fit n bs (region_end r)) as [[bs' p']|] eqn:E.
  - destruct Hfit as (m1 & Hfit & Hp' & Hok & Hout). rewrite Hfit in Hal. cbn in Hal.
    destruct (Z.eqb_spec p' NULL) as [?|_]; [done|]. injection Hal as -> ->.
    pose proof (free_region_unfit m' r bs' p Hok Hp) as Hfr.
    rewrite (fit_unfit m' r n bs bs' p Hn E Hb Hok) in Hfr.
    destruct Hfr as (m'' & Hfr & Hok'' & Hout''). cbn [free_regions]. rewrite Hfr. cbn.
    exists m''. assert (forall x, ~ base r <= x <= region_end r -> m'' !! x = m !! x) as Hx.
    { intros x Hx. rewrite (Hout'' x) by lia. apply Hout. lia. }
    split_and!; [done| |].
    + constructor; [done|]. eapply regions_frame; [|done]. intros x Hin. apply Hx. intros ?.
      by eapply apart_not_in.
    + intros x Hin. apply Hx. intros ?. apply Hin. by left.
  - rewrite Hfit in Hal. cbn in Hal.
    destruct (alloc_regions_spec n rs m L Hn HL Hsep Hco) as (m1 & p1 & L1 & Hal1 & HL1 & Hco1 & Hout1 & Hcase).
    rewrite Hal1 in Hal. injection Hal as -> ->.
    destruct Hcase as [(-> & _)|(_ & len & Hle & Hl1)]; [done|].
    destruct (IH Hsep Hco Hal1 Hp) as (m'' & Hf & HL'' & Hout'').
    cbn [free_regions]. rewrite (free_region_other m' rs L1 r bs p len p HL1); cycle 1.
    + eapply region_ok_frame; [|done]. intros x Hx. apply Hout1. by eapply apart_not_in.
    + done.
    + rewrite Hl1. by left.
    + lia.
    + cbn. exists m''. split_and!; [done| |].
      * constructor; [|done]. eapply region_ok_frame; [|done]. intros x Hx. apply Hout''.
        by eapply apart_not_in.
      * intros x Hx. apply Hout''. intros ?. apply Hx. by right.
Qed.

(** Live payloads do not overlap. *)
Lemma live_sorted m a bs e : chain m a bs e ->
  StronglySorted (fun p q => p.1 + p.2 + sizeof_HeapNode <= q.1) (live bs e).
Proof.
  revert a; induction bs as [|[b f] bs IH]; intros a Hc; [constructor|].
  destruct Hc as (-> & _ & Hle & _ & Hc). destruct f.
  - rewrite live_cons_true. by eapply IH.
  - rewrite live_cons_false. constructor; [by eapply IH|]. apply Forall_forall.
    intros [s len] Hin. destruct (live_bounds _ _ _ _ _ _ Hc Hin) as (? & _). cbn. lia.
Qed.

Lemma ForallOrdPairs_Permutation {X} (R : X -> X -> Prop) l l' : Symmetric R ->
  List.ForallOrdPairs R l -> l ≡ₚ l' -> List.ForallOrdPairs R l'.
Proof.
  intros HR H Hp. induction Hp as [|x l l' Hp IH|x y l|l1 l2 l3 _ IH1 _ IH2]; auto.
  - inversion H; subst. constructor; [by rewrite <- Hp|by apply IH].
  - inversion H as [|? ? Hy Hl]; subst. inversion Hl as [|? ? Hx Hl']; subst.
    apply Forall_cons in Hy as [Hyx Hy]. constructor; [constructor|constructor]; auto.
Qed.

Lemma ForallOrdPairs_app_l {X} (R : X -> X -> Prop) l1 l2 :
  List.ForallOrdPairs R (l1 ++ l2) -> List.ForallOrdPairs R l1.
Proof.
  induction l1 as [|x l1 IH]; cbn; [constructor|]. intros H. inversion H as [|? ? Hx Hl]; subst.
  apply Forall_app in Hx as [Hx _]. constructor; auto.
Qed.

Definition disjoint_payloads (p q : Z * Z) : Prop := p.1 + p.2 <= q.1 \/ q.1 + q.2 <= p.1.

Lemma heap_live_disjoint m rs L : Forall2 (region_ok m) rs L -> separated rs ->
  List.ForallOrdPairs disjoint_payloads (heap_live rs L).
Proof.
  pose proof sizeof_HeapNode_pos as Hpos.
  intros H. induction H as [|r bs rs L Hr HL IH]; intros Hsep; [constructor|].
  destruct Hsep as [Ha Hsep]. cbn. destruct Hr as (_ & _ & _ & Hc & _).
  assert (forall p, p ∈ live bs (region_end r) -> Forall (disjoint_payloads p) (heap_live rs L)) as Hx.
  { intros [s len] (Hlo & Hlen & Hhi)%(live_bounds _ _ _ _ _ _ Hc). apply Forall_forall.
    intros [s' len'] (r' & Hr' & ? & ? & ?)%(heap_live_in _ _ _ _ _ HL).
    rewrite Forall_forall in Ha. unfold disjoint_payloads, region_end in *. cbn.
    destruct (Ha _ Hr'); lia. }
  pose proof (live_sorted _ _ _ _ Hc) as Hs. clear Hc.
  induction Hs as [|p l Hs IHs Hp]; cbn; [auto|]. constructor.
  - apply Forall_app. split; [|apply Hx; by left].
    eapply Forall_impl; [done|]. intros q Hq. cbn in Hq. left. lia.
  - apply IHs. intros q Hq. apply Hx. by right.
Qed.

(** ** The operations of the heap *)

(** The bytes of the payloads [l] are the same. *)
Definition bytes_kept (l : list (Z * Z)) (b b' : gmap Z Z) : Prop :=
  forall s len x, (s, len) ∈ l -> s <= x < s + len -> b' !! x = b !! x.

(** What [pmm_alloc] promises the heap: it keeps the heap well formed and its
    live payloads (it may allocate more for its own records), and the run it
    returns is memory no region uses. *)
Class PageSource (f : Heap -> Z -> option (Heap * option Z)) := {
  page_source_run : forall h L k, heap_ok h L -> regions h <> [] -> 0 <= k ->
    exists h' o L' extra, f h k = Some (h', o) /\ heap_ok h' L' /\ regions h' <> [] /\
      heap_live (regions h') L' ≡ₚ extra ++ heap_live (regions h) L /\
      bytes_kept (heap_live (regions h) L) (byt h) (byt h') /\
      forall p, o = Some p ->
        0 < k /\ 0 < p /\ p + k * 1024 <= SIZE_MAX /\
        Forall (fun r => apart r (mkHeapRegion p (k * 1024))) (regions h')
}.

Definition page_source_ok (pmm : page_source) : Prop :=
  match pmm with None => True | Some f => PageSource f end.

(** The effect of an allocation of [n] bytes that returned [p]: the live
    payloads are those before, one of at least [n] bytes at [p] unless it
    failed, and [extra] ones the expansion of the heap took. *)
Definition allocated h L (n : Z) h' (p : Z) L' (extra : list (Z * Z)) : Prop :=
  heap_ok h' L' /\ regions h' <> [] /\
  bytes_kept (heap_live (regions h) L) (byt h) (byt h') /\
  if p =? NULL then heap_live (regions h') L' ≡ₚ extra ++ heap_live (regions h) L
  else exists len, n <= len /\
       heap_live (regions h') L' ≡ₚ (p, len) :: extra ++ heap_live (regions h) L.

Lemma separated_snoc rs r : separated rs -> Forall (fun r' => apart r' r) rs -> separated (rs ++ [r]).
Proof.
  induction rs as [|r0 rs IH]; cbn; [by repeat constructor|].
  intros [H0 H] [Ha Hr]%Forall_cons. split; [|by apply IH].
  apply Forall_app. split; [done|]. by constructor.
Qed.

Lemma apart_comm r1 r2 : apart r1 r2 -> apart r2 r1.
Proof. unfold apart. tauto. Qed.

Lemma expand_size_page n : 0 <= n -> exists q, expand_size n = 4096 * q /\ 0 <= q.
Proof.
  intros Hn. unfold expand_size, wrap.
  assert (exists w, 2 ^ size_bits = 4096 * w /\ 0 < w) as (w & Hw & Hwp).
  { arch_cases; [by exists 1048576|by exists 4503599627370496]. }
  rewrite Hw.
  replace (n + (4096 - n mod 4096)) with (4096 * (n / 4096 + 1))
    by (pose proof (Z.div_mod n 4096); lia).
  rewrite Zmult_mod_distr_l. change 0x1000 with (4096 * 1).
  rewrite <- Z.mul_add_distr_l, Zmult_mod_distr_l. eexists. split; [done|].
  apply Z.mod_pos_bound. done.
Qed.

Lemma expand_size_enough n : 0 < n -> n + 8192 < 2 ^ size_bits ->
  n + 4096 < expand_size n <= n + 8192.
Proof.
  intros Hn Hb. unfold expand_size.
  pose proof (Z.mod_pos_bound n 4096 ltac:(lia)).
  rewrite !wrap_small; rewrite ?wrap_small; lia.
Qed.

Lemma sizeof_HeapNode_le : sizeof_HeapNode <= 16.
Proof. unfold sizeof_HeapNode. by destruct the_arch. Qed.

Lemma sizeof_HeapRegion_le : 0 < sizeof_HeapRegion <= 24.
Proof. unfold sizeof_HeapRegion, sizeof_size_t. by destruct the_arch. Qed.

Lemma HEAP_NODE_MIN_SIZE_le : HEAP_NODE_MIN_SIZE <= 16.
Proof. unfold HEAP_NODE_MIN_SIZE, sizeof_size_t. by destruct the_arch. Qed.

(** A page run is turned into a region that holds its own [HeapRegion]. *)
Lemma new_region_ok m p q : 0 < p -> 0 < q -> p + 4096 * q <= SIZE_MAX ->
  let r := mkHeapRegion p (4096 * q) in
  let bs := [(p, false); (p + sizeof_HeapRegion + sizeof_HeapNode, true)] in
  exists m1, alloc_region (initRegion m r) r sizeof_HeapRegion = Some (m1, p + sizeof_HeapNode) /\
    region_ok m1 r bs /\ coalesced bs /\
    live bs (region_end r) = [(p + sizeof_HeapNode, sizeof_HeapRegion)] /\
    unchanged_outside p (region_end r + 1) m m1.
Proof.
  intros Hp Hq Hm r bs. pose proof sizeof_HeapNode_pos. pose proof sizeof_HeapNode_le.
  pose proof sizeof_HeapRegion_le. pose proof HEAP_NODE_MIN_SIZE_le.
  destruct (initRegion_ok m r) as [Hok Hout]; [cbn; lia..|].
  assert (0 <= sizeof_HeapRegion) as Hz by lia.
  pose proof (alloc_region_fit _ r _ _ Hok Hz) as Hal.
  cbn [fit start_of base r] in Hal. unfold region_end at 1 in Hal. cbn [base rsize r] in Hal.
  destruct (Z.leb_spec sizeof_HeapRegion (p + 4096 * q - sizeof_HeapNode - p - sizeof_HeapNode));
    [cbn [andb] in Hal|lia].
  unfold region_end at 1 in Hal. cbn [base rsize r] in Hal.
  destruct (Z.leb_spec (HEAP_NODE_MIN_SIZE + sizeof_HeapNode)
    (p + 4096 * q - sizeof_HeapNode - p - sizeof_HeapNode - sizeof_HeapRegion)); [|lia].
  destruct Hal as (m1 & Hal & _ & Hok1 & Hout1). exists m1.
  split; [done|]. split; [done|]. split; [cbn; naive_solver|]. split.
  - unfold bs. rewrite live_cons_false, live_cons_true. cbn. do 2 f_equal. lia.
  - intros x Hx. rewrite (Hout1 x) by lia. by apply Hout.
Qed.

Lemma heap_expand_spec f h L n : PageSource f ->
  heap_ok h L -> regions h <> [] -> 0 < n ->
  exists h' p L' extra, heap_expand f h n = Some (h', p) /\ allocated h L n h' p L' extra.
Proof.
  intros Hps Hok Hne Hn. destruct (expand_size_page n ltac:(lia)) as (q & Hq & Hq0).
  unfold heap_expand. rewrite Hq. 
  replace (4096 * q / 1024) with (4 * q) by (rewrite <- (Z.div_mul (4 * q) 1024) by lia; f_equal; lia).
  destruct (page_source_run h L (4 * q) Hok Hne ltac:(lia))
    as (h1 & o & L1 & extra & -> & (Hr1 & Hs1 & Hc1) & Hne1 & Hl1 & Hb1 & Ho).
  cbn [mbind option_bind fst snd]. destruct o as [p|].
  2: { exists h1, NULL, L1, extra. split; [done|]. split_and!; try done. }
  destruct (Ho p eq_refl) as (Hk & Hp & Hm & Ha). replace (4 * q * 1024) with (4096 * q) in * by lia.
  destruct (new_region_ok (hdr h1) p q Hp ltac:(lia) Hm) as (m1 & Hal & Hok1 & Hco & Hlive & Hout).
  pose proof sizeof_HeapNode_pos. rewrite Hal. cbn [mbind option_bind fst snd].
  destruct (Z.eqb_spec (p + sizeof_HeapNode) NULL); [unfold NULL in *; lia|].
  set (r := mkHeapRegion p (4096 * q)) in *.
  set (bs := [(p, false); (p + sizeof_HeapRegion + sizeof_HeapNode, true)]) in *.
  pose proof (alloc_region_fit m1 r bs n Hok1 ltac:(lia)) as Hfit.
  assert (forall m2 bs2, region_ok m2 r bs2 -> coalesced bs2 ->
    unchanged_outside p (region_end r) m1 m2 ->
    heap_ok (mkHeap m2 (regions h1 ++ [r]) (byt h1)) (L1 ++ [bs2])) as Hfin.
  { intros m2 bs2 Hok2 Hco2 Hout2. split_and!; cbn.
    - apply Forall2_app; [|by constructor]. eapply regions_frame; [|done]. intros x Hx.
      assert (~ (p <= x < region_end r + 1)).
      { intros ?. eapply (apart_not_in r (regions h1) x); [|cbn; lia|done].
        eapply Forall_impl; [exact Ha|]. intros. by apply apart_comm. }
      rewrite (Hout2 x) by lia. apply Hout. lia.
    - by apply separated_snoc.
    - apply Forall_app. split; [done|]. by constructor. }
  pose proof (Forall2_length _ _ _ Hr1) as Hlen.
  destruct (fit n bs (region_end r)) as [[bs2 p2]|] eqn:E.
  - destruct Hfit as (m2 & -> & Hp2 & Hok2 & Hout2). cbn [mbind option_bind fst snd].
    destruct (fit_live _ _ _ _ _ E) as (len & Hle & Hl2).
    exists (mkHeap m2 (regions h1 ++ [r]) (byt h1)), p2, (L1 ++ [bs2]),
      ((p + sizeof_HeapNode, sizeof_HeapRegion) :: extra).
    split; [done|]. split_and!; cbn; try done; [by apply Hfin; [|eapply fit_coalesced|]|by destruct (regions h1)|].
    destruct (Z.eqb_spec p2 NULL); [done|]. exists len. split; [done|].
    rewrite heap_live_app, Hl1 by done. cbn [heap_live]. rewrite app_nil_r, Hl2, Hlive. solve_Permutation.
  - rewrite Hfit. cbn [mbind option_bind fst snd].
    exists (mkHeap m1 (regions h1 ++ [r]) (byt h1)), NULL, (L1 ++ [bs]),
      ((p + sizeof_HeapNode, sizeof_HeapRegion) :: extra).
    split; [done|]. split_and!; cbn; try done; [by apply Hfin|by destruct (regions h1)|].
    rewrite heap_live_app, Hl1 by done. cbn [heap_live]. rewrite app_nil_r, Hlive. solve_Permutation.
Qed.

(** The new region is large enough: an expansion fails only for lack of pages. *)
Lemma heap_expand_null f h L n h' : PageSource f -> heap_ok h L -> regions h <> [] ->
  0 < n -> n + 8192 < 2 ^ size_bits -> heap_expand f h n = Some (h', NULL) ->
  f h (expand_size n / 1024) = Some (h', None).
Proof.
  intros Hps Hok Hne Hn Hb. pose proof (expand_size_enough n Hn Hb) as Hsz.
  destruct (expand_size_page n ltac:(lia)) as (q & Hq & Hq0).
  unfold heap_expand. rewrite Hq in *.
  replace (4096 * q / 1024) with (4 * q) by (rewrite <- (Z.div_mul (4 * q) 1024) by lia; f_equal; lia).
  destruct (page_source_run h L (4 * q) Hok Hne ltac:(lia))
    as (h1 & o & L1 & extra & -> & (Hr1 & Hs1 & Hc1) & Hne1 & Hl1 & Hb1 & Ho).
  cbn [mbind option_bind fst snd]. destruct o as [p|]; [|by intros [= ->]].
  destruct (Ho p eq_refl) as (Hk & Hp & Hm & Ha). replace (4 * q * 1024) with (4096 * q) in * by lia.
  destruct (new_region_ok (hdr h1) p q Hp ltac:(lia) Hm) as (m1 & Hal & Hok1 & _).
  pose proof sizeof_HeapNode_pos. pose proof sizeof_HeapNode_le. pose proof sizeof_HeapRegion_le.
  rewrite Hal. cbn [mbind option_bind fst snd].
  destruct (Z.eqb_spec (p + sizeof_HeapNode) NULL); [unfold NULL in *; lia|].
  set (r := mkHeapRegion p (4096 * q)) in *.
  pose proof (alloc_region_fit m1 r _ n Hok1 ltac:(lia)) as Hfit.
  destruct (fit n _ _) as [[bs2 p2]|] eqn:E.
  - destruct Hfit as (m2 & -> & Hp2 & _). cbn. by intros [= _ ->].
  - exfalso. eapply (Z.lt_irrefl n), Z.le_lt_trans; [|eapply (fit_none _ _ _ E)];
      [|cbn [payloads start_of]; right; left].
    unfold region_end. cbn. lia.
Qed.

Lemma ensure_init_ok local h L : local_ok local -> heap_ok h L ->
  exists L', heap_ok (ensure_init local h) L' /\ regions (ensure_init local h) <> [] /\
    byt (ensure_init local h) = byt h /\
    heap_live (regions (ensure_init local h)) L' = heap_live (regions h) L.
Proof.
  intros (Hb & Hm & Hs) Hok. unfold ensure_init.
  destruct (regions h) as [|r rs] eqn:E; [|exists L; rewrite E; done].
  destruct Hok as (HF & _ & _). rewrite E in HF. apply Forall2_nil_inv_l in HF as ->.
  exists [[(base local, true)]]. cbn. destruct (initRegion_ok (hdr h) local Hb Hm Hs) as [Hr _].
  split_and!; try done.
  split_and!; cbn; [by constructor|by repeat constructor..].
Qed.

(** The header of a live payload sits right before it. *)
Lemma live_header m rs L s len : Forall2 (region_ok m) rs L -> (s, len) ∈ heap_live rs L ->
  0 < s - sizeof_HeapNode /\ s + len < 2 ^ size_bits /\
  m !! (s - sizeof_HeapNode) = Some (mkHeapNode HEAP_MAGIC false (s + len)).
Proof.
  pose proof sizeof_HeapNode_pos as Hpos.
  intros H. induction H as [|r bs rs L Hr HL IH]; cbn; [by intros ?%elem_of_nil|].
  intros [Hin|Hin]%elem_of_app; [|by apply IH]. pose proof (region_ok_end _ _ _ Hr) as He.
  destruct Hr as (_ & _ & _ & Hc & _). pose proof (live_bounds _ _ _ _ _ _ Hc Hin).
  apply live_block in Hin as (bs1 & b & bs2 & -> & -> & ->). split; [|split].
  - assert (0 < b) as Hb; [|lia]. clear -Hc. revert Hc. generalize (base r).
    induction bs1 as [|[b1 f1] bs1 IH]; intros a Hc; cbn [app] in Hc;
      destruct Hc as (_ & ? & _ & _ & Hc); [done|by eapply IH].
  - lia.
  - replace (b + sizeof_HeapNode - sizeof_HeapNode) with b by lia.
    replace (b + _ + _) with (start_of bs2 (region_end r)) by lia.
    clear -Hc. revert Hc. generalize (base r).
    induction bs1 as [|[b1 f1] bs1 IH]; intros a Hc; cbn [app] in Hc;
      destruct Hc as (_ & _ & _ & ? & Hc); [done|by eapply IH].
Qed.

(** No header of a chain lies inside a payload. *)
Lemma chain_outside m a bs e s len x : chain m a bs e -> (s, len) ∈ live bs e -> x ∈ bs.*1 ->
  x < s \/ s + len <= x.
Proof.
  intros Hc (bs1 & b & bs2 & -> & -> & ->)%live_block. pose proof sizeof_HeapNode_pos.
  revert a Hc; induction bs1 as [|[b1 f1] bs1 IH]; intros a Hc; cbn [app] in Hc; csimpl.
  - destruct Hc as (-> & _ & Hle & _ & Hc). intros [->|Hin]%elem_of_cons; [lia|].
    right. pose proof (chain_in _ _ _ _ _ Hc Hin). lia.
  - destruct Hc as (-> & _ & Hle & _ & Hc). intros [->|Hin]%elem_of_cons; [|by eapply IH].
    left. pose proof (chain_in _ _ _ _ b Hc ltac:(rewrite fmap_app; set_solver)). lia.
Qed.

Lemma payload_write m rs L s len x v :
  Forall2 (region_ok m) rs L -> separated rs -> (s, len) ∈ heap_live rs L -> s <= x < s + len ->
  Forall2 (region_ok (<[x := v]> m)) rs L.
Proof.
  intros H. pose proof sizeof_HeapNode_pos.
  induction H as [|r bs rs L Hr HL IH]; intros Hsep Hin Hx; [constructor|].
  destruct Hsep as [Ha Hsep]. cbn in Hin. apply elem_of_app in Hin as [Hin|Hin].
  - pose proof Hr as (Hb & Hm & Hne & Hc & Hend). pose proof (live_bounds _ _ _ _ _ _ Hc Hin).
    constructor.
    + split_and!; try done; [|rewrite lookup_insert_ne; [done|lia]].
      eapply chain_frame; [|done]. intros b Hbin. rewrite lookup_insert_ne; [done|].
      pose proof (chain_outside _ _ _ _ _ _ _ Hc Hin Hbin). lia.
    + eapply regions_frame; [|done]. intros y Hy. rewrite lookup_insert_ne; [done|]. intros <-.
      by destruct (apart_not_in r rs x Ha ltac:(lia)).
  - constructor; [|by apply IH]. eapply region_ok_frame; [|done]. intros y Hy.
    rewrite lookup_insert_ne; [done|]. intros <-.
    destruct (heap_live_in _ _ _ _ _ HL Hin) as (r' & Hr' & ? & ? & ?).
    destruct (apart_not_in r rs x Ha Hy). apply Exists_exists. exists r'. split; [done|]. lia.
Qed.

Lemma copy_bytes_lookup n : forall dst src b x,
  (dst + Z.of_nat n <= src \/ src + Z.of_nat n <= dst) ->
  copy_bytes n dst src b !! x =
  if decide (dst <= x < dst + Z.of_nat n) then b !! (src + (x - dst)) else b !! x.
Proof.
  induction n as [|n IH]; intros dst src b x Hd; cbn [copy_bytes].
  { rewrite decide_False by lia. done. }
  rewrite IH by lia. destruct (decide (dst + 1 <= x < dst + 1 + Z.of_nat n)).
  - rewrite decide_True by lia. rewrite lookup_partial_alter_ne by lia. f_equal. lia.
  - destruct (decide (x = dst)) as [->|].
    + rewrite lookup_partial_alter_eq, decide_True by lia. f_equal. lia.
    + rewrite lookup_partial_alter_ne by lia. by rewrite decide_False by lia.
Qed.

Lemma fill_bytes_lookup n : forall dst v b x,
  fill_bytes n dst v b !! x = if decide (dst <= x < dst + Z.of_nat n) then Some v else b !! x.
Proof.
  induction n as [|n IH]; intros dst v b x; cbn [fill_bytes].
  { by rewrite decide_False by lia. }
  rewrite IH. destruct (decide (x = dst)) as [->|].
  - rewrite decide_False, decide_True, lookup_insert_eq by lia. done.
  - rewrite lookup_insert_ne by done. repeat case_decide; try done; lia.
Qed.

Section Ops.
Variables (local : HeapRegion) (pmm : page_source).
Hypotheses (Hlocal : local_ok local) (Hpmm : page_source_ok pmm).

(** Allocation never fails to return, and has the effect [allocated]; without
    a page source it takes nothing else. *)
Lemma heap_alloc_ok h L n : heap_ok h L -> 0 < n ->
  exists h' p L' extra, heap_alloc local pmm h n = Some (h', p) /\
    allocated h L n h' p L' extra /\ (pmm = None -> extra = []).
Proof.
  intros Hok Hn. unfold heap_alloc. destruct (Z.leb_spec n 0); [lia|].
  destruct (ensure_init_ok local h L Hlocal Hok) as (L0 & Hok0 & Hne & Hbyt & Hlive).
  set (h0 := ensure_init local h) in *. clearbody h0. destruct Hok0 as (Hr & Hs & Hc).
  destruct (alloc_regions_spec n _ _ _ Hn Hr Hs Hc) as (m1 & p & L1 & -> & Hr1 & Hc1 & _ & Hcase).
  cbn [mbind option_bind fst snd].
  destruct Hcase as [(-> & -> & -> & _)|(Hp & len & Hle & Hl)].
  - rewrite Z.eqb_refl. cbn [negb].
    destruct pmm as [f|]; cycle 1.
    + exists (mkHeap (hdr h0) (regions h0) (byt h0)), NULL, L0, []. split_and!; try done.
      split_and!; cbn; try done. { intros ???. by rewrite Hbyt. } by rewrite Hlive.
    + destruct (heap_expand_spec f (mkHeap (hdr h0) (regions h0) (byt h0)) L0 n)
        as (h' & p & L' & extra & -> & Hal); try done.
      exists h', p, L', extra. split_and!; try done.
      unfold allocated in *. cbn in Hal. by rewrite Hlive, Hbyt in Hal.
  - destruct (Z.eqb_spec p NULL) as [?|_]; [done|]. cbn [negb].
    exists (mkHeap m1 (regions h0) (byt h0)), p, L1, []. split_and!; try done.
    split_and!; cbn; try done. { intros ???. by rewrite Hbyt. }
    destruct (Z.eqb_spec p NULL) as [?|_]; [done|]. exists len. split; [done|]. by rewrite Hl, Hlive.
Qed.

(** Freeing a pointer into a live payload returns exactly that payload. *)
Lemma heap_free_ok h L s len ptr : heap_ok h L ->
  (s, len) ∈ heap_live (regions h) L -> s <= ptr < s + len ->
  exists h' L', heap_free local h ptr = Some h' /\ heap_ok h' L' /\
    regions h' = regions h /\ byt h' = byt h /\
    heap_live (regions h) L ≡ₚ (s, len) :: heap_live (regions h') L'.
Proof.
  intros (Hr & Hs & Hc) Hin Hp. unfold heap_free, ensure_init.
  destruct (heap_live_in _ _ _ _ _ Hr Hin) as (r & Hri & Hlo & _).
  assert (0 < base r) as Hb.
  { apply list_elem_of_lookup in Hri as [i Hi].
    by destruct (Forall2_lookup_l _ _ _ _ _ Hr Hi) as (? & _ & ? & _). }
  pose proof sizeof_HeapNode_pos. destruct (Z.eqb_spec ptr NULL); [unfold NULL in *; lia|].
  destruct (free_regions_spec _ _ _ _ _ _ Hr Hs Hc Hin Hp) as (m' & L' & Hf & Hr' & Hc' & _ & Hl).
  destruct (regions h) eqn:E; [by apply elem_of_nil in Hri|].
  rewrite E, Hf. eexists (mkHeap m' _ _), L'. split; [done|]. split_and!; try done.
Qed.

(** ** Programs that use the heap

    A client holds the blocks [us] (pointer and requested size); it allocates,
    and frees blocks it holds, in any order. *)
Inductive client_step : Heap * list (Z * Z) -> Heap * list (Z * Z) -> Prop :=
  | client_alloc h us n h' p : 0 < n ->
      heap_alloc local pmm h n = Some (h', p) -> p <> NULL ->
      client_step (h, us) (h', (p, n) :: us)
  | client_oom h us n h' : 0 < n ->
      heap_alloc local pmm h n = Some (h', NULL) -> client_step (h, us) (h', us)
  | client_free h us1 us2 p n h' :
      heap_free local h p = Some h' ->
      client_step (h, us1 ++ (p, n) :: us2) (h', us1 ++ us2).

(** The blocks a client holds are live payloads large enough for it. *)
Definition holds (us : list (Z * Z)) h : Prop :=
  exists L ls rest, heap_ok h L /\ Forall2 (fun u l => u.1 = l.1 /\ 0 < u.2 <= l.2) us ls /\
    heap_live (regions h) L ≡ₚ ls ++ rest.

Lemma client_step_holds h us h' us' :
  client_step (h, us) (h', us') -> holds us h -> holds us' h'.
Proof.
  intros Hst (L & ls & rest & Hok & Hus & Hl). inversion Hst; subst.
  - destruct (heap_alloc_ok h L n Hok) as (h2 & p2 & L' & extra & Ha & (Hok' & _ & _ & Hp) & _); [done|].
    simplify_eq. destruct (Z.eqb_spec p NULL); [done|]. destruct Hp as (len & Hle & Hl').
    exists L', ((p, len) :: ls), (extra ++ rest). split_and!; try done.
    + constructor; [cbn; lia|done].
    + rewrite Hl', Hl. solve_Permutation.
  - destruct (heap_alloc_ok h L n Hok) as (h2 & p2 & L' & extra & Ha & (Hok' & _ & _ & Hp) & _); [done|].
    simplify_eq. cbn in Hp. exists L', ls, (extra ++ rest). split_and!; try done.
    rewrite Hp, Hl. solve_Permutation.
  - apply Forall2_app_inv_l in Hus as (ls1 & ls2 & Hus1 & Hus2 & ->).
    inversion Hus2 as [|? [s len] ? ? [Hs Hn] Hus3]; subst. cbn in Hs, Hn. subst.
    destruct (heap_free_ok h L s len s Hok) as (h2 & L' & Hf & Hok' & _ & _ & Hl'); [|lia|].
    { rewrite Hl. set_solver. }
    simplify_eq. eexists L', (_ ++ _), rest. split_and!; try done; [by apply Forall2_app|].
    apply (Permutation_cons_inv (a := (s, len))). rewrite <- Hl', Hl. solve_Permutation.
Qed.

Lemma holds_disjoint us h : holds us h -> List.ForallOrdPairs disjoint_payloads us.
Proof.
  intros (L & ls & rest & (Hr & Hs & _) & Hus & Hl).
  pose proof (heap_live_disjoint _ _ _ Hr Hs) as Hd.
  eapply ForallOrdPairs_Permutation in Hd; [|unfold Symmetric, disjoint_payloads; tauto|exact Hl].
  apply ForallOrdPairs_app_l in Hd. clear Hl.
  induction Hus as [|u l us ls [Hu Hn] Hus IH]; [constructor|].
  inversion Hd as [|? ? Hd1 Hd2]; subst. constructor; [|by apply IH].
  clear -Hus Hd1 Hu Hn. induction Hus as [|v k vs ks [Hv Hm] Hvs IH]; [constructor|].
  apply Forall_cons in Hd1 as [Hk Hks]. constructor; [|by apply IH].
  unfold disjoint_payloads in *. lia.
Qed.

Lemma holds_init h : regions h = [] -> holds [] h.
Proof.
  intros E. exists [], [], []. split_and!; [|constructor|by rewrite E].
  unfold heap_ok. rewrite E. split_and!; cbn; constructor.
Qed.

Lemma holds_in_region us h p n : holds us h -> (p, n) ∈ us ->
  0 < n /\ exists r, r ∈ regions h /\ base r + sizeof_HeapNode <= p /\ p + n <= region_end r.
Proof.
  intros (L & ls & rest & (Hr & _) & Hus & Hl) Hin.
  apply list_elem_of_lookup in Hin as [i Hi].
  destruct (Forall2_lookup_l _ _ _ _ _ Hus Hi) as ([s len] & Hli & Hs & Hn). cbn in *. subst s.
  split; [lia|]. destruct (heap_live_in _ _ _ p len Hr) as (r & ? & ? & ? & ?).
  { rewrite Hl. apply elem_of_app. left. by eapply list_elem_of_lookup_2. }
  exists r. split_and!; try done. lia.
Qed.


(** C11.  [heap_alloc] fails only when it must: if it returns NULL for a request
    whose rounded size does not wrap, then no free block of any region holds
    [n] bytes, and the physical memory manager is absent or refused the
    pages. *)
Theorem heap_alloc_complete h L n h' : heap_ok h L -> regions h <> [] ->
  0 < n -> n + 8192 < 2 ^ size_bits ->
  heap_alloc local pmm h n = Some (h', NULL) ->
  (forall i r bs s len, regions h !! i = Some r -> L !! i = Some bs ->
     (s, len, true) ∈ payloads bs (region_end r) -> len < n) /\
  match pmm with
  | None => True
  | Some f => f h (expand_size n / 1024) = Some (h', None)
  end.
Proof.
  intros (Hr & Hs & Hc) Hne Hn Hb. unfold heap_alloc. destruct (Z.leb_spec n 0); [lia|].
  unfold ensure_init. destruct (regions h) as [|r0 rs0] eqn:E0; [done|]. rewrite <- E0 in *. clear Hne.
  destruct (alloc_regions_spec n _ _ _ Hn Hr Hs Hc) as (m1 & p & L1 & -> & Hr1 & Hc1 & _ & Hcase).
  cbn [mbind option_bind fst snd].
  destruct Hcase as [(-> & -> & -> & Hno)|(Hp & _)]; cycle 1.
  { destruct (Z.eqb_spec p NULL); [done|]. by intros [= _ ->]. }
  rewrite Z.eqb_refl. cbn [negb]. intros Hex. split.
  - intros i r bs s len Hi Hbs. apply fit_none. by apply (Forall2_lookup_lr _ _ _ _ _ _ Hno Hi Hbs).
  - destruct pmm as [f|]; [|done].
    replace (mkHeap (hdr h) (regions h) (byt h)) with h in Hex by (by destruct h).
    eapply heap_expand_null; try done. by rewrite E0.
Qed.

(** Freeing a block right after allocating it, when a region had room,
    restores every block list of the heap. *)
Theorem heap_alloc_free_roundtrip h L n h' p :
  heap_ok h L -> regions h <> [] -> 0 < n ->
  heap_alloc local None h n = Some (h', p) -> p <> NULL ->
  exists h'', heap_free local h' p = Some h'' /\ heap_ok h'' L /\ regions h'' = regions h.
Proof.
  intros (Hr & Hs & Hc) Hne Hn Hal Hp. unfold heap_alloc, ensure_init in Hal.
  destruct (Z.leb_spec n 0); [lia|]. destruct (regions h) as [|r0 rs0] eqn:E0; [done|].
  rewrite E0 in Hal. destruct (alloc_regions (hdr h) (r0 :: rs0) n) as [[m1 p1]|] eqn:Ea; [|done].
  cbn in Hal. assert (p1 = p /\ h' = mkHeap m1 (r0 :: rs0) (byt h)) as [-> ->].
  { destruct (negb (p1 =? NULL)) eqn:E; by simplify_eq. }
  destruct (alloc_free_regions n _ _ _ _ _ Hn Hr Hs Hc Ea Hp) as (m2 & Hf & Hr2 & _).
  unfold heap_free. destruct (Z.eqb_spec p NULL); [done|]. unfold ensure_init. cbn [regions hdr]. rewrite Hf.
  eexists. split; [done|]. split_and!; done.
Qed.

Lemma NODE_SIZE_live s len : 0 < s - sizeof_HeapNode -> 0 <= len -> s + len < 2 ^ size_bits ->
  NODE_SIZE (s - sizeof_HeapNode) (mkHeapNode HEAP_MAGIC false (s + len)) = len.
Proof.
  intros ???. pose proof sizeof_HeapNode_pos. unfold NODE_SIZE. cbn.
  destruct (Z.eqb_spec (s + len) NULL); [unfold NULL in *; lia|].
  rewrite wrap_small; lia.
Qed.


(** [heap_aligned_alloc] with a power-of-two alignment and no overflow of
    the padded size: a non-null result is aligned, its [size] bytes lie inside
    one newly allocated payload (the fake header in front of it included), no
    header of the heap is damaged, and [heap_free] of the aligned pointer
    returns that payload. *)
Theorem heap_aligned_alloc_spec h L k size :
  heap_ok h L -> 0 <= k < size_bits -> 0 < size ->
  size + 2 ^ k - 1 + sizeof_HeapNode < 2 ^ size_bits ->
  exists h' p L' extra, heap_aligned_alloc local pmm h (2 ^ k) size = Some (h', p) /\
    heap_ok h' L' /\
    if p =? NULL then heap_live (regions h') L' ≡ₚ extra ++ heap_live (regions h) L
    else p mod 2 ^ k = 0 /\ exists s len, s + sizeof_HeapNode <= p /\ p + size <= s + len /\
      heap_live (regions h') L' ≡ₚ (s, len) :: extra ++ heap_live (regions h) L /\
      exists h'' L'', heap_free local h' p = Some h'' /\ heap_ok h'' L'' /\
        heap_live (regions h'') L'' ≡ₚ extra ++ heap_live (regions h) L.
Proof.
  intros Hok Hk Hsz Hb. pose proof sizeof_HeapNode_pos as Hpos.
  assert (0 < 2 ^ k) as Hk0 by (apply Z.pow_pos_nonneg; lia).
  unfold heap_aligned_alloc. rewrite land_pred_pow2 by lia.
  destruct (Z.eqb_spec (2 ^ k) 0); [lia|]. destruct (Z.eqb_spec size 0); [lia|]. cbn [orb negb Z.eqb].
  rewrite (wrap_small _ (size + _ - 1 + _)) by lia.
  destruct (heap_alloc_ok h L (size + 2 ^ k - 1 + sizeof_HeapNode) Hok)
    as (h1 & s & L1 & extra & -> & ((Hr1 & Hs1 & Hc1) & Hne1 & Hb1 & Hp) & _); [lia|].
  cbn [mbind option_bind fst snd]. destruct (Z.eqb_spec s NULL) as [->|Hs0].
  { exists h1, NULL, L1, extra. by split_and!. }
  destruct Hp as (len & Hle & Hl1).
  assert ((s, len) ∈ heap_live (regions h1) L1) as Hin by (rewrite Hl1; by left).
  destruct (live_header _ _ _ _ _ Hr1 Hin) as (Hs & Hm & _).
  rewrite (wrap_small _ (s + _ + _ - 1)) by lia. rewrite land_align_down by lia.
  set (x := s + sizeof_HeapNode + 2 ^ k - 1). set (p := x - x mod 2 ^ k).
  pose proof (Z.mod_pos_bound x (2 ^ k) Hk0) as Hx.
  assert (s + sizeof_HeapNode <= p /\ p + size <= s + len) as [Hp1 Hp2] by lia.
  rewrite (wrap_small _ (p - _)) by lia.
  assert (heap_ok (mkHeap (<[p - sizeof_HeapNode := mkHeapNode HEAP_MAGIC false NULL]> (hdr h1))
    (regions h1) (byt h1)) L1) as Hok2.
  { split_and!; try done. eapply (payload_write _ _ _ s len); try done. lia. }
  eexists _, p, L1, extra. split; [done|]. split; [done|].
  destruct (Z.eqb_spec p NULL); [unfold NULL in *; lia|]. split.
  { unfold p. rewrite Zminus_mod_idemp_r, Z.sub_diag. by apply Z.mod_0_l; lia. }
  exists s, len. split_and!; try done.
  destruct (heap_free_ok _ L1 s len p Hok2 Hin ltac:(lia)) as (h3 & L3 & -> & Hok3 & Hreg & _ & Hl3).
  exists h3, L3. split_and!; try done. cbn in Hl3.
  apply (Permutation_cons_inv (a := (s, len))). by rewrite <- Hl3, Hl1.
Qed.
End Ops.
End HeapInv.

(** ** Concrete runs (x86_64, a 8 KiB local region at 4096) *)

#[local] Instance demo_arch : Arch := AMD64.

#[local] Instance apart_dec r1 r2 : Decision (apart r1 r2).
Proof. unfold apart. apply _. Defined.

Definition demo_local : HeapRegion := mkHeapRegion 4096 8192.
Definition demo_heap : Heap := mkHeap ∅ [] ∅.
Definition demo_ready : Heap := heap_init demo_local demo_heap.

(** A page source with one run of memory at 1 MiB. *)
Definition demo_pages (h : Heap) (k : Z) : option (Heap * option Z) :=
  if bool_decide (0 < k /\ k * 1024 <= 1048576 /\
                  Forall (fun r => apart r (mkHeapRegion 1048576 (k * 1024))) (regions h))
  then Some (h, Some 1048576) else Some (h, None).

#[local] Instance demo_pages_ok : PageSource demo_pages.
Proof.
  constructor. intros h L k Hok Hne Hk. unfold demo_pages. case_bool_decide as Hc.
  - exists h, (Some 1048576), L, []. split_and!; try done. intros p [= <-].
    destruct Hc as (? & ? & ?). split_and!; try done. change SIZE_MAX with 18446744073709551615. lia.
  - exists h, None, L, []. split_and!; done.
Qed.

Lemma demo_local_ok : local_ok demo_local.
Proof. by split_and!. Qed.

Lemma demo_ready_ok : heap_ok demo_ready [[(4096, true)]].
Proof.
  destruct (initRegion_ok ∅ demo_local) as [Hr _]; [done..|].
  split_and!; cbn; [by constructor|by repeat constructor..].
Qed.

Definition demo_step (st : Heap * Z) (n : Z) : Heap * Z :=
  default st (heap_alloc demo_local (Some demo_pages) st.1 n).


Lemma heap_alloc_complete_witness :
  demo_pages demo_ready (expand_size 2000000 / 1024) = Some (demo_ready, None).
Proof.
  apply (heap_alloc_complete demo_local (Some demo_pages) demo_pages_ok
    demo_ready [[(4096, true)]] 2000000 demo_ready demo_ready_ok); vm_compute; done.
Defined.

Lemma heap_alloc_free_roundtrip_witness :
  exists h'', heap_free demo_local (default (demo_ready, 0) (heap_alloc demo_local None demo_ready 100)).1 4112
    = Some h'' /\ heap_ok h'' [[(4096, true)]] /\ regions h'' = regions demo_ready.
Proof.
  apply (heap_alloc_free_roundtrip demo_local demo_ready [[(4096, true)]] 100 _ 4112 demo_ready_ok);
    vm_compute; done.
Defined.

Definition demo_one : Heap := (demo_step (demo_heap, 0) 100).1.

Lemma demo_one_ok : heap_ok demo_one [[(4096, false); (4212, true)]].
Proof.
  split_and!; [|by repeat constructor|].
  - constructor; [|constructor]. split_and!; by vm_compute.
  - constructor; [|done]. by split_and!; vm_compute; naive_solver.
Qed.


Lemma heap_aligned_alloc_spec_witness :
  exists h' p L' extra, heap_aligned_alloc demo_local (Some demo_pages) demo_one (2 ^ 8) 64 = Some (h', p) /\
    heap_ok h' L' /\
    if p =? NULL then heap_live (regions h') L' ≡ₚ extra ++ [(4112, 100)]
    else p mod 2 ^ 8 = 0 /\ exists s len, s + sizeof_HeapNode <= p /\ p + 64 <= s + len /\
      heap_live (regions h') L' ≡ₚ (s, len) :: extra ++ [(4112, 100)] /\
      exists h'' L'', heap_free demo_local h' p = Some h'' /\ heap_ok h'' L'' /\
        heap_live (regions h'') L'' ≡ₚ extra ++ [(4112, 100)].
Proof.
  apply (heap_aligned_alloc_spec demo_local (Some demo_pages) demo_local_ok demo_pages_ok
    demo_one _ 8 64 demo_one_ok); vm_compute; try split; done.
Defined.

(** ** Behaviour outside the contract *)

(** An aligned block carries a header with a null [next], so [NODE_SIZE] is 0
    and [heap_realloc] moves it without copying a byte. *)
Lemma realloc_of_aligned_loses_data :
  exists h1 p h2 q,
    heap_aligned_alloc demo_local None demo_ready 256 8 = Some (h1, p) /\
    heap_realloc demo_local None (mkHeap (hdr h1) (regions h1) (<[p := 7]> (byt h1))) p 8 = Some (h2, q) /\
    q <> NULL /\ q <> p /\ byt h2 !! q = None.
Proof. do 4 eexists. split_and!; [vm_compute; done..]. Qed.

(** Registering a region drops every region after the first. *)
Lemma register_region_drops h r0 r1 rs r h' :
  regions h = r0 :: r1 :: rs -> heap_register_region h (Some r) = Some h' ->
  base r <> 0 -> 2 * sizeof_HeapNode <= rsize r -> regions h' = [r0; r].
Proof.
  intros E H Hb Hs. unfold heap_register_region in H. pose proof sizeof_HeapNode_pos.
  destruct (Z.eqb_spec (base r) 0); [done|]. destruct (Z.eqb_spec (rsize r) 0); [lia|].
  destruct (Z.ltb_spec (rsize r) (2 * sizeof_HeapNode)); [lia|]. cbn [orb] in H.
  rewrite E in H. by injection H as <-.
Qed.

(** The product in [heap_calloc] wraps: a request for 2^61 + 1 elements of 8
    bytes succeeds in an 8 KiB heap. *)
Lemma calloc_size_wraps :
  exists h p, heap_calloc demo_local None demo_ready (2 ^ 61 + 1) 8 = Some (h, p) /\ p <> NULL.
Proof. do 2 eexists. split; vm_compute; done. Qed.
