(* ===== verification/Pmm.v ===== *)
(** * The physical memory manager ([kernel/memory/pmm.c])

    [memory_regions] is a [List] of pointers to [MemoryRegion] objects.  The
    model keeps it as the sequence of its elements, each the pointer together
    with the object it points to ([Lists] shows that the C list implements the
    sequence); objects are identified by their pointer, as in the code.

    [malloc] is a parameter that maps the current region list to the list
    after the call and the result: the kernel heap may call back into
    [pmm_alloc] to grow. *)

From Stdlib Require Import Sorting.Sorted.
From S2P Require Import Prelude Lists.

Inductive MemoryRegionType :=
| UNKNOWN | NULLTYPE | USABLE | RESERVED | EFI_RT_CODE | EFI_RT_DATA
| ACPI_RECLAIMABLE | ACPI_NVS | BAD_MEMORY | PCI_RESOURCE
| EFI_BS_CODE | EFI_BS_DATA | EFI_LOADER_CODE | EFI_LOADER_DATA.

#[export] Instance MemoryRegionType_eq_dec : EqDecision MemoryRegionType.
Proof. solve_decision. Defined.

Record MemoryRegion := mkRegion { rbase : Z; rlen : Z; rtype : MemoryRegionType }.

Abbreviation entry := (Z * MemoryRegion)%type.
Abbreviation region_list := (list entry).

Definition usable (r : MemoryRegion) : bool := bool_decide (rtype r = USABLE).

(** ** Type maps *)

Definition mb2_mrType_to_mrType (mb2_type : Z) : MemoryRegionType :=
  if mb2_type =? 1 then USABLE
  else if mb2_type =? 2 then RESERVED
  else if mb2_type =? 3 then ACPI_RECLAIMABLE
  else if mb2_type =? 4 then ACPI_NVS
  else if mb2_type =? 5 then BAD_MEMORY
  else UNKNOWN.

Definition efiType_to_mrType (efi_type : Z) : MemoryRegionType :=
  match efi_type with
  | 0 => RESERVED
  | 1 => EFI_LOADER_CODE
  | 2 => EFI_LOADER_DATA
  | 3 => EFI_BS_CODE
  | 4 => EFI_BS_DATA
  | 5 => EFI_RT_CODE
  | 6 => EFI_RT_DATA
  | 7 => USABLE
  | 8 => BAD_MEMORY
  | 9 => ACPI_RECLAIMABLE
  | 10 => ACPI_NVS
  | 11 => PCI_RESOURCE
  | 12 => PCI_RESOURCE
  | 13 => RESERVED
  | 14 => RESERVED
  | _ => UNKNOWN
  end.

(** ** List operations, by the pointer of the element *)

(** [List_InsertAt]; [node_ok] tells whether the list node could be
    allocated.  At the end of the list a failure is not reported. *)
Definition insert_at (node_ok : bool) (rs : region_list) (index : Z) (e : entry)
  : region_list * bool :=
  if Z.of_nat (length rs) <? index then (rs, false)
  else if index =? Z.of_nat (length rs) then (if node_ok then rs ++ [e] else rs, true)
  else if node_ok then (take (Z.to_nat index) rs ++ e :: drop (Z.to_nat index) rs, true)
  else (rs, false).

(** [List_Remove]: the first element with this pointer. *)
Fixpoint list_remove (rs : region_list) (p : Z) : region_list :=
  match rs with
  | [] => []
  | e :: rs' => if e.1 =? p then rs' else e :: list_remove rs' p
  end.

(** The object behind a pointer, and writing it. *)
Fixpoint deref (rs : region_list) (p : Z) : option MemoryRegion :=
  match rs with
  | [] => None
  | e :: rs' => if e.1 =? p then Some e.2 else deref rs' p
  end.

Fixpoint assign (rs : region_list) (p : Z) (r : MemoryRegion) : region_list :=
  match rs with
  | [] => []
  | e :: rs' => if e.1 =? p then (p, r) :: rs' else e :: assign rs' p r
  end.

Lemma insert_at_list node_ok rs i e :
  ((insert_at node_ok rs i e).1.*1, (insert_at node_ok rs i e).2) =
  spec_step node_ok (OpInsertAt i e.1) rs.*1.
Proof.
  unfold insert_at, spec_step. rewrite length_fmap.
  destruct (_ <? _); [done|]. destruct (i =? _).
  - destruct node_ok; [|done]. cbn [fst snd]. by rewrite fmap_app.
  - destruct node_ok; [|done]. cbn [fst snd]. by rewrite fmap_app, fmap_take, fmap_cons, fmap_drop.
Qed.

Lemma list_remove_list rs p : (list_remove rs p).*1 = (spec_step true (OpRemove p) rs.*1).1.
Proof.
  induction rs as [|e rs IH]; [done|]. cbn [list_remove]. csimpl. cbn [list_find].
  unfold spec_step in *. cbn [list_find].
  destruct (Z.eqb_spec e.1 p) as [->|Hne]; [by rewrite decide_True|].
  rewrite decide_False by done. csimpl. rewrite IH.
  by destruct (list_find (p =.) rs.*1) as [[i x]|].
Qed.

Section Ops.
Context `{A : Arch}.
Implicit Types (rs : region_list) (r : MemoryRegion).

Definition rend r : Z := rbase r +[size_bits] rlen r.

(** ** pmm_maintain *)

Definition merge r1 r2 : MemoryRegion :=
  let new_base := if rbase r1 <? rbase r2 then rbase r1 else rbase r2 in
  let new_end := if rend r2 <? rend r1 then rend r1 else rend r2 in
  mkRegion new_base (new_end -[size_bits] new_base) (rtype r1).

(** The loop, with [node] at [cur]; the removed node is [node->next]. *)
Fixpoint maintain_loop (cur : entry) rs : region_list :=
  match rs with
  | [] => [cur]
  | nx :: rs' =>
      if usable cur.2 && usable nx.2 && (rbase nx.2 <=? rend cur.2)
      then maintain_loop (cur.1, merge cur.2 nx.2) rs'
      else cur :: maintain_loop nx rs'
  end.

Definition pmm_maintain rs : region_list :=
  match rs with [] => [] | cur :: rs' => maintain_loop cur rs' end.

(** ** pmm_alloc *)

Section Alloc.
Variable malloc : region_list -> region_list * option Z.

Definition page_up (x : Z) : Z := Z.land (wrap size_bits (x + 4095)) (wrap size_bits (Z.lnot 4095)).

(** The search for the first region with room: its index, pointer and object. *)
Fixpoint find_block (alloc_size : Z) rs (index : Z) : option (Z * Z * MemoryRegion) :=
  match rs with
  | [] => None
  | (p, cur) :: rs' =>
      let aligned_base := page_up (rbase cur) in
      let gap := aligned_base -[size_bits] rbase cur in
      if (p =? NULL) || negb (usable cur) then find_block alloc_size rs' (index + 1)
      else if aligned_base <? rbase cur then find_block alloc_size rs' (index + 1)
      else if rlen cur <? gap +[size_bits] alloc_size then find_block alloc_size rs' (index + 1)
      else Some (index, p, cur)
  end.

(** [malloc] of a [MemoryRegion], then [List_InsertAt], which allocates a node. *)
Definition insert_new rs (index : Z) r : region_list * bool :=
  let '(rs, o) := malloc rs in
  match o with
  | None => (rs, false)
  | Some q =>
      let '(rs', node) := malloc rs in
      insert_at (malloc_ok node) rs' index (q, r)
  end.

(** The body of the loop once a region fits.  [None] is an access to a region
    object that [malloc] made disappear. *)
Definition take_block rs (index p : Z) cur (alloc_size : Z) : option (region_list * Z) :=
  let aligned_base := page_up (rbase cur) in
  let gap := aligned_base -[size_bits] rbase cur in
  let cur_end := rend cur in
  let alloc_end := aligned_base +[size_bits] alloc_size in
  if (gap =? 0) && (rlen cur =? alloc_size)
  then Some (assign rs p (mkRegion (rbase cur) (rlen cur) RESERVED), rbase cur)
  else if gap =? 0
  then
    let rs := assign rs p (mkRegion (rbase cur) alloc_size RESERVED) in
    if alloc_end <? cur_end
    then
      let '(rs, ok) :=
        insert_new rs (index + 1) (mkRegion alloc_end (cur_end -[size_bits] alloc_end) USABLE) in
      if ok : bool then Some (rs, rbase cur) else Some (rs, NULL)
    else Some (rs, rbase cur)
  else
    let '(rs, o) := malloc rs in
    match o with
    | None => Some (rs, NULL)
    | Some q =>
        c ← deref rs p;
        let rs := assign rs p (mkRegion (rbase c) gap (rtype c)) in
        let '(rs', node) := malloc rs in
        let '(rs, ok) := insert_at (malloc_ok node) rs' (index + 1) (q, mkRegion aligned_base alloc_size RESERVED) in
        if negb ok then Some (rs, NULL)
        else if alloc_end <? cur_end
        then
          let '(rs, ok) :=
            insert_new rs (index + 2) (mkRegion alloc_end (cur_end -[size_bits] alloc_end) USABLE) in
          if ok : bool then Some (rs, aligned_base) else Some (rs, NULL)
        else Some (rs, aligned_base)
    end.

(** [None] for the list is [memory_regions == NULL]. *)
Definition pmm_alloc (memory_regions : option region_list) (sizeInKB : Z)
  : option (option region_list * Z) :=
  match memory_regions with
  | None => Some (None, NULL)
  | Some rs =>
      if sizeInKB =? 0 then Some (Some rs, NULL)
      else if SIZE_MAX / 1024 <? sizeInKB then Some (Some rs, NULL)
      else
        let alloc_size := page_up (sizeInKB * 1024) in
        if alloc_size =? 0 then Some (Some rs, NULL)
        else
          let rs := pmm_maintain rs in
          match find_block alloc_size rs 0 with
          | None => Some (Some rs, NULL)
          | Some (index, p, cur) =>
              x ← take_block rs index p cur alloc_size; Some (Some x.1, x.2)
          end
  end.

End Alloc.

(** ** pmm_free *)

(** The first region whose base is [addr]. *)
Fixpoint find_base rs (addr : Z) : option entry :=
  match rs with
  | [] => None
  | e :: rs' => if negb (e.1 =? NULL) && (rbase e.2 =? addr) then Some e else find_base rs' addr
  end.

(** The scan of the merge loop: the first region that joins the freed one,
    with the freed region after the join. *)
Fixpoint find_join rs (p : Z) (freed : MemoryRegion) : option (Z * MemoryRegion) :=
  match rs with
  | [] => None
  | (q, mr) :: rs' =>
      if (q =? NULL) || (q =? p) || negb (usable mr) then find_join rs' p freed
      else if negb ((rend freed <? rbase mr) || (rend mr <? rbase freed))
      then Some (q, merge freed mr)
      else if rend mr =? rbase freed
      then Some (q, mkRegion (rbase mr) (rlen freed +[size_bits] rlen mr) (rtype freed))
      else if rend freed =? rbase mr
      then Some (q, mkRegion (rbase freed) (rlen freed +[size_bits] rlen mr) (rtype freed))
      else find_join rs' p freed
  end.

(** The [do ... while (merged)] loop. *)
Fixpoint join_loop (fuel : nat) rs (p : Z) : option region_list :=
  match fuel with
  | O => None
  | S fuel =>
      freed ← deref rs p;
      match find_join rs p freed with
      | None => Some rs
      | Some (q, freed') => join_loop fuel (list_remove (assign rs p freed') q) p
      end
  end.

Definition pmm_free (memory_regions : option region_list) (ptr : Z) : option (option region_list) :=
  match memory_regions with
  | None => Some None
  | Some rs =>
      if ptr =? NULL then Some (Some rs)
      else
        let addr := if negb (ptr mod 4096 =? 0)
                    then Z.land ptr (wrap size_bits (Z.lnot 4095)) else ptr in
        match find_base rs addr with
        | None => Some (Some rs)
        | Some (p, freed) =>
            if usable freed then Some (Some rs)
            else
              let rs := assign rs p (mkRegion (rbase freed) (rlen freed) USABLE) in
              rs ← join_loop (S (length rs)) rs p; Some (Some rs)
        end
  end.

(** ** pmm_init *)

Section Init.
Variable malloc : region_list -> region_list * option Z.

(** [malloc] of a region (written through without a test), then [List_Add]. *)
Definition add_region rs r : option region_list :=
  let '(rs, o) := malloc rs in
  q ← o;
  let '(rs, node) := malloc rs in
  Some (if malloc_ok node then rs ++ [(q, r)] else rs).

Fixpoint add_regions rs (new : list MemoryRegion) : option region_list :=
  match new with
  | [] => Some rs
  | r :: new => rs ← add_region rs r; add_regions rs new
  end.

(** The multiboot2 memory map: tag size, entry size, and the entry (address,
    length, type) at a byte offset from [entries]. *)
Record multiboot_tag_mmap := mkMmap {
  mmap_size : Z;
  mmap_entry_size : Z;
  mmap_entry : Z -> Z * Z * Z
}.

Definition mmap_region (e : Z * Z * Z) : MemoryRegion :=
  mkRegion (wrap size_bits e.1.1) (wrap size_bits e.1.2) (mb2_mrType_to_mrType e.2).

(** [List_Create] is tried again when the list does not exist ([again] is its
    success); without a list the caller dereferences a null pointer.  A missing
    map stops the kernel; a zero entry size divides by zero. *)
Definition bios_mr_init (again : bool) (mb2_mmap : option multiboot_tag_mmap)
  (memory_regions : option region_list) : option region_list :=
  _ ← (match memory_regions with
       | None => if again then Some [] else None
       | Some rs => Some rs
       end);
  mm ← mb2_mmap;
  if mmap_entry_size mm =? 0 then None
  else
    let entry_count := (mmap_size mm -[size_bits] 16) / mmap_entry_size mm in
    add_regions []
      ((fun i => mmap_region (mmap_entry mm (i * mmap_entry_size mm))) <$> seqZ 0 entry_count).

(** An EFI descriptor: physical start, number of pages, type. *)
Definition efi_region (d : Z * Z * Z) : MemoryRegion :=
  mkRegion (wrap size_bits d.1.1) (wrap size_bits (wrap 64 (d.1.2 * 4096))) (efiType_to_mrType d.2).

(** [efi_map] is the outcome of the two [GetMemoryMap] calls: the descriptors,
    or [None] where an assertion on the status stops the kernel. *)
Definition efi_mr_init (again : bool) (mb2_mmap : option multiboot_tag_mmap)
  (efi_map : option (list (Z * Z * Z))) (memory_regions : option region_list) : option region_list :=
  match mb2_mmap with
  | Some _ => bios_mr_init again mb2_mmap memory_regions
  | None => ds ← efi_map; rs ← memory_regions; add_regions rs (efi_region <$> ds)
  end.

(** [List_IndexOf] and the element after a node. *)
Fixpoint index_of rs (p : Z) (i : Z) : Z :=
  match rs with
  | [] => -1
  | e :: rs' => if e.1 =? p then i else index_of rs' p (i + 1)
  end.

Fixpoint next_of rs (p : Z) : option Z :=
  match rs with
  | [] => None
  | e :: rs' => if e.1 =? p then fst <$> hd_error rs' else next_of rs' p
  end.

(** [malloc] of a region and [List_InsertAt] after the region [p]. *)
Definition insert_after rs (p : Z) r : option region_list :=
  let '(rs, o) := malloc rs in
  q ← o;
  let i := index_of rs p 0 + 1 in
  let '(rs, node) := malloc rs in
  Some (insert_at (malloc_ok node) rs i (q, r)).1.

(** Body of the loop that reserves everything below [kernel_end]. *)
Definition reserve_kernel_at (kernel_end : Z) rs (p : Z) : option region_list :=
  r ← deref rs p;
  if negb (rbase r <? kernel_end) then Some rs
  else
    let region_end := rend r in
    rs ← (if kernel_end <? region_end
          then insert_after (assign rs p (mkRegion (rbase r) (kernel_end -[size_bits] rbase r) (rtype r)))
                 p (mkRegion kernel_end (region_end -[size_bits] kernel_end) USABLE)
          else Some rs);
    r ← deref rs p;
    Some (assign rs p (mkRegion (rbase r) (rlen r) RESERVED)).

(** Body of the loop that takes the framebuffer out. *)
Definition reserve_fb_at (fb_start size : Z) rs (p : Z) : option region_list :=
  let fb_end := fb_start +[size_bits] size in
  r ← deref rs p;
  let region_end := rend r in
  if negb ((rbase r <? fb_end) && (fb_start <? region_end)) then Some rs
  else if (rbase r <? fb_start) && (fb_end <? region_end)
  then
    rs ← insert_after (assign rs p (mkRegion (rbase r) (fb_start -[size_bits] rbase r) (rtype r)))
           p (mkRegion fb_end (region_end -[size_bits] fb_end) (rtype r));
    insert_after rs p (mkRegion fb_start size RESERVED)
  else if (rbase r <? fb_start) && (region_end <=? fb_end)
  then Some (assign rs p (mkRegion (rbase r) (fb_start -[size_bits] rbase r) (rtype r)))
  else if (fb_start <=? rbase r) && (fb_end <? region_end)
  then Some (assign rs p (mkRegion fb_end (region_end -[size_bits] fb_end) (rtype r)))
  else Some (assign rs p (mkRegion (rbase r) (rlen r) RESERVED)).

(** [for (node = head; node; node = node->next)] over a list the body changes. *)
Fixpoint for_nodes (body : region_list -> Z -> option region_list) (fuel : nat) rs (node : option Z)
  : option region_list :=
  match node with
  | None => Some rs
  | Some p =>
      match fuel with
      | O => None
      | S fuel => rs ← body rs p; for_nodes body fuel rs (next_of rs p)
      end
  end.

Definition for_all_nodes body rs : option region_list :=
  for_nodes body (4 * length rs) rs (fst <$> hd_error rs).

(** The framebuffer of the main screen: address, pitch, height. *)
Record framebuffer := mkFb { fb_addr : Z; fb_pitch : Z; fb_height : Z }.

Definition fb_size (fb : framebuffer) : Z :=
  let size := fb_pitch fb *[size_bits] fb_height fb in
  if negb (size mod 4096 =? 0) then (size / 4096 + 1) *[size_bits] 4096 else size.

(** The firmware's map.  [list_ok] and [again]: success of the first and the
    second [List_Create]. *)
Definition firmware_map (list_ok again efi_boot : bool) (mb2_mmap : option multiboot_tag_mmap)
  (efi_map : option (list (Z * Z * Z))) : option region_list :=
  let memory_regions := if list_ok then Some [] else None in
  if efi_boot then efi_mr_init again mb2_mmap efi_map memory_regions
  else bios_mr_init again mb2_mmap memory_regions.

Definition pmm_init (list_ok again efi_boot : bool) (mb2_mmap : option multiboot_tag_mmap)
  (efi_map : option (list (Z * Z * Z))) (kernel_end : Z) (fb : framebuffer) : option region_list :=
  rs ← firmware_map list_ok again efi_boot mb2_mmap efi_map;
  rs ← for_all_nodes (reserve_kernel_at kernel_end) rs;
  if fb_addr fb =? NULL then Some rs
  else for_all_nodes (reserve_fb_at (fb_addr fb) (fb_size fb)) rs.

End Init.
End Ops.
