(* ===== verification/PmmSpec.v ===== *)
(** * What the physical memory manager promises

    The region list is read as a map from byte addresses to types ([cover]).
    Merging does not change that map; an allocation turns exactly the bytes of
    the returned run from USABLE to RESERVED; a release turns them back; the
    boot-time passes keep the kernel image and the framebuffer out of it. *)

From Stdlib Require Import Sorting.Sorted.
From S2P Require Import Prelude Lists Pmm.

Section Spec.
Context `{A : Arch}.
Implicit Types (rs : region_list) (r : MemoryRegion) (e : entry) (t : MemoryRegionType).

Definition entry_ok e : Prop :=
  e.1 <> NULL /\ 0 <= rbase e.2 /\ 0 < rlen e.2 /\ rbase e.2 + rlen e.2 < 2 ^ size_bits.

Definition before e1 e2 : Prop := rbase e1.2 + rlen e1.2 <= rbase e2.2.

(** Regions sorted by address and disjoint, none empty or wrapping, each a
    distinct object. *)
Definition pmm_wf rs : Prop :=
  Forall entry_ok rs /\ NoDup rs.*1 /\ StronglySorted before rs.

Definition inside r (x : Z) : Prop := rbase r <= x < rbase r + rlen r.

(** The byte [x] belongs to a region of type [t]. *)
Definition cover rs (x : Z) t : Prop := exists e, e ∈ rs /\ rtype e.2 = t /\ inside e.2 x.

Lemma cover_nil x t : cover [] x t <-> False.
Proof. split; [|done]. by intros (e & ?%elem_of_nil & _). Qed.

Lemma cover_cons e rs x t : cover (e :: rs) x t <-> (rtype e.2 = t /\ inside e.2 x) \/ cover rs x t.
Proof.
  unfold cover. split.
  - intros (e' & [->|Hin]%elem_of_cons & H); [by left|]. right. eauto.
  - intros [H|(e' & Hin & H)]; [exists e|exists e']; (split; [|done]); [by left|by right].
Qed.

Lemma cover_app rs1 rs2 x t : cover (rs1 ++ rs2) x t <-> cover rs1 x t \/ cover rs2 x t.
Proof. unfold cover. setoid_rewrite elem_of_app. naive_solver. Qed.

Lemma StronglySorted_app {X} (R : X -> X -> Prop) l1 l2 :
  StronglySorted R (l1 ++ l2) <->
  StronglySorted R l1 /\ StronglySorted R l2 /\ forall x y, x ∈ l1 -> y ∈ l2 -> R x y.
Proof.
  induction l1 as [|x l1 IH]; cbn.
  - split; [|naive_solver]. intros H. split_and!; [constructor|done|]. by intros ??[]%elem_of_nil.
  - split.
    + intros H. apply StronglySorted_inv in H as [H Hx]. apply IH in H as (H1 & H2 & H3).
      apply Forall_app in Hx as [Hx1 Hx2]. rewrite Forall_forall in Hx2.
      split_and!; [by constructor|done|]. intros a b [->|Ha]%elem_of_cons Hb; auto.
    + intros (H1 & H2 & H3). apply StronglySorted_inv in H1 as [H1 Hx]. constructor.
      * apply IH. split_and!; [done..|]. intros a b Ha Hb. apply H3; [by right|done].
      * apply Forall_app. split; [done|]. apply Forall_forall. intros b Hb. apply H3; [by left|done].
Qed.

Lemma StronglySorted_one {X} (R : X -> X -> Prop) x : StronglySorted R [x].
Proof. by repeat constructor. Qed.

(** Disjoint regions: a byte lies in one region only. *)
Lemma wf_inside_eq rs e1 e2 x : pmm_wf rs -> e1 ∈ rs -> e2 ∈ rs ->
  inside e1.2 x -> inside e2.2 x -> e1 = e2.
Proof.
  intros (_ & _ & Hs) H1 H2 Hx1 Hx2. induction Hs as [|e rs Hs IH He]; [by apply elem_of_nil in H1|].
  rewrite Forall_forall in He. unfold before, inside in *.
  apply elem_of_cons in H1 as [->|H1], H2 as [->|H2]; [done|..|by apply IH].
  - specialize (He _ H2). lia.
  - specialize (He _ H1). lia.
Qed.

Lemma entry_ok_rend e : entry_ok e -> rend e.2 = rbase e.2 + rlen e.2.
Proof. intros (_ & ? & ? & ?). unfold rend. apply wrap_small. lia. Qed.

(** ** pmm_maintain *)

(** No two USABLE regions touch. *)
Definition merged rs : Prop :=
  forall e1 e2, e1 ∈ rs -> e2 ∈ rs -> rtype e1.2 = USABLE -> rtype e2.2 = USABLE ->
  rbase e2.2 <> rbase e1.2 + rlen e1.2.

Lemma merge_adjacent e1 e2 : entry_ok e1 -> entry_ok e2 -> rbase e2.2 = rbase e1.2 + rlen e1.2 ->
  merge e1.2 e2.2 = mkRegion (rbase e1.2) (rlen e1.2 + rlen e2.2) (rtype e1.2).
Proof.
  intros H1 H2 Heq. unfold merge. rewrite !entry_ok_rend by done.
  destruct H1 as (_ & ? & ? & ?), H2 as (_ & ? & ? & ?).
  destruct (Z.ltb_spec (rbase e1.2) (rbase e2.2)); [|lia].
  destruct (Z.ltb_spec (rbase e2.2 + rlen e2.2) (rbase e1.2 + rlen e1.2)); [lia|].
  f_equal. rewrite wrap_small; lia.
Qed.

Lemma maintain_loop_head cur rs : Forall entry_ok (cur :: rs) -> StronglySorted before (cur :: rs) ->
  exists r rs', maintain_loop cur rs = (cur.1, r) :: rs' /\ rbase r = rbase cur.2 /\ rtype r = rtype cur.2.
Proof.
  revert cur; induction rs as [|nx rs IH]; intros cur Hok Hs; cbn [maintain_loop].
  { exists cur.2, []. by destruct cur. }
  destruct (_ && _ && _) eqn:E; [|by exists cur.2, (maintain_loop nx rs); destruct cur].
  apply Forall_cons in Hok as [H1 [H2 Hok]%Forall_cons].
  apply StronglySorted_inv in Hs as [Hs Hx]. apply Forall_cons in Hx as [Hb Hx].
  apply StronglySorted_inv in Hs as [Hs Hnx].
  rewrite !andb_true_iff, Z.leb_le, entry_ok_rend in E by done. unfold before in Hb.
  rewrite merge_adjacent by (done || lia).
  destruct H1 as (? & ? & ? & ?), H2 as (? & ? & ? & ?).
  destruct (IH (cur.1, mkRegion (rbase cur.2) (rlen cur.2 + rlen nx.2) (rtype cur.2)))
    as (r & rs' & -> & Hr & Ht).
  - constructor; [|done]. split_and!; cbn; try done; lia.
  - constructor; [done|]. eapply Forall_impl; [exact Hnx|]. unfold before. cbn. intros. lia.
  - by exists r, rs'.
Qed.

Lemma wf_cons cur rs : pmm_wf (cur :: rs) <->
  entry_ok cur /\ (cur.1 ∉ rs.*1) /\ Forall (before cur) rs /\ pmm_wf rs.
Proof.
  unfold pmm_wf. rewrite fmap_cons, NoDup_cons, Forall_cons. split.
  - intros ((? & ?) & (? & ?) & [? ?]%StronglySorted_inv). done.
  - intros (? & ? & ? & ? & ? & ?). split_and!; try done. by constructor.
Qed.

(** Two adjacent entries merged into the first. *)
Lemma wf_merge cur nx rs : pmm_wf (cur :: nx :: rs) -> rbase nx.2 = rbase cur.2 + rlen cur.2 ->
  pmm_wf ((cur.1, mkRegion (rbase cur.2) (rlen cur.2 + rlen nx.2) (rtype cur.2)) :: rs).
Proof.
  rewrite !wf_cons. intros (H1 & Hp & Hb & H2 & Hp2 & Hb2 & Hwf) Heq.
  destruct H1 as (? & ? & ? & ?), H2 as (? & ? & ? & ?). split_and!; try done.
  - split_and!; cbn; try done; lia.
  - rewrite fmap_cons in Hp. set_solver.
  - eapply Forall_impl; [exact Hb2|]. unfold before. cbn. intros. lia.
Qed.

Lemma maintain_loop_spec rs : forall cur, pmm_wf (cur :: rs) ->
  pmm_wf (maintain_loop cur rs) /\
  (forall x t, cover (maintain_loop cur rs) x t <-> cover (cur :: rs) x t) /\
  merged (maintain_loop cur rs) /\
  (maintain_loop cur rs).*1 ⊆ (cur :: rs).*1 /\
  Forall (fun e => rbase cur.2 <= rbase e.2) (maintain_loop cur rs).
Proof.
  induction rs as [|nx rs IH]; intros cur Hwf; cbn [maintain_loop].
  { split_and!; try done; [|by repeat constructor].
    apply wf_cons in Hwf as ((_ & _ & ? & _) & _). intros e1 e2 ->%list_elem_of_singleton ->%list_elem_of_singleton. lia. }
  pose proof Hwf as ((_ & Hc0 & Hc1 & Hc2) & Hp & Hb & (Hnx & _ & Hb2 & _)%wf_cons)%wf_cons.
  apply Forall_cons in Hb as [Hbn Hb]. unfold before in Hbn.
  destruct (_ && _ && _) eqn:E.
  - rewrite !andb_true_iff, Z.leb_le in E. destruct E as [[Hu1 Hu2] Hle].
    apply bool_decide_eq_true in Hu1, Hu2.
    assert (entry_ok cur) as Hcur by (by apply wf_cons in Hwf as [? _]). rewrite entry_ok_rend in Hle by done.
    rewrite merge_adjacent by (done || lia).
    destruct (IH _ (wf_merge _ _ _ Hwf ltac:(lia))) as (H1 & H2 & H3 & H4 & H5). cbn [fst snd rbase] in H5.
    split_and!; try done.
    + intros x t. rewrite H2, !cover_cons. unfold inside. cbn. destruct Hnx as (_ & _ & ? & _).
      rewrite Hu1, Hu2. split; [|naive_solver lia]. intros [[<- ?]|?]; [|tauto].
      destruct (decide (x < rbase cur.2 + rlen cur.2)); [left|right; left]; split; try done; lia.
    + rewrite !fmap_cons in *. set_solver.
  - assert (pmm_wf (nx :: rs)) as Hwf' by (by apply wf_cons in Hwf as (_ & _ & _ & ?)).
    destruct (IH _ Hwf') as (H1 & H2 & H3 & H4 & H5).
    assert (Forall (before cur) (maintain_loop nx rs)) as Hbef.
    { eapply Forall_impl; [exact H5|]. unfold before. cbn. intros. lia. }
    split_and!.
    + apply wf_cons. split_and!; try done; [by apply wf_cons in Hwf as [? _]|].
      rewrite !fmap_cons in *. set_solver.
    + intros x t. rewrite !(cover_cons cur), H2. done.
    + destruct (maintain_loop_head nx rs) as (r & rs' & Hm & Hr & Ht); [apply Hwf'|apply Hwf'|].
      rewrite Forall_forall in Hbef. unfold before in Hbef. rewrite Forall_forall in H5.
      intros e1 e2 [->|He1]%elem_of_cons [->|He2]%elem_of_cons Hu1 Hu2 Heq.
      * lia.
      * assert (e2 = (nx.1, r)) as ->.
        { eapply (wf_inside_eq _ _ _ (rbase nx.2)); [exact H1|done|rewrite Hm; by left|..];
            unfold inside; cbn; specialize (H5 _ He2); rewrite Forall_forall in *.
          - destruct H1 as (Hok & _). rewrite Forall_forall in Hok. specialize (Hok _ He2) as (_ & _ & ? & _). lia.
          - destruct H1 as (Hok & _). rewrite Hm, Forall_cons in Hok. destruct Hok as ((_ & _ & ? & _) & _). cbn in *. lia. }
        cbn in *. rewrite Ht in Hu2. rewrite entry_ok_rend in E by (by apply wf_cons in Hwf as [? _]).
        unfold usable in E. rewrite !bool_decide_eq_true_2 in E by done. cbn in E. lia.
      * specialize (Hbef _ He1). destruct H1 as (Hok & _). rewrite Forall_forall in Hok.
        specialize (Hok _ He1) as (_ & _ & ? & _). lia.
      * exact (H3 e1 e2 He1 He2 Hu1 Hu2 Heq).
    + rewrite !fmap_cons in *. set_solver.
    + constructor; [lia|]. eapply Forall_impl; [exact H5|]. cbn. intros. lia.
Qed.

Lemma pmm_maintain_ok rs : pmm_wf rs ->
  pmm_wf (pmm_maintain rs) /\ (forall x t, cover (pmm_maintain rs) x t <-> cover rs x t) /\
  merged (pmm_maintain rs).
Proof.
  destruct rs as [|cur rs]; intros Hwf.
  { split_and!; try done. intros ? ? ?%elem_of_nil. done. }
  by destruct (maintain_loop_spec rs cur Hwf) as (? & ? & ? & _).
Qed.

(** In a merged list a contiguous USABLE range lies in one region. *)
Lemma merged_range rs a n : pmm_wf rs -> merged rs -> 0 < n ->
  (forall x, a <= x < a + n -> cover rs x USABLE) ->
  exists e, e ∈ rs /\ rtype e.2 = USABLE /\ rbase e.2 <= a /\ a + n <= rbase e.2 + rlen e.2.
Proof.
  intros Hwf Hm Hn Hc. destruct (Hc a ltac:(lia)) as (e & He & Ht & Hin). exists e.
  unfold inside in Hin. split_and!; try done; [lia|].
  destruct (decide (a + n <= rbase e.2 + rlen e.2)) as [|Hgt]; [done|]. exfalso.
  destruct (Hc (rbase e.2 + rlen e.2) ltac:(lia)) as (e2 & He2 & Ht2 & Hin2). unfold inside in Hin2.
  destruct (decide (rbase e2.2 = rbase e.2 + rlen e.2)) as [Heq|Hne]; [by apply (Hm e e2)|].
  assert (e = e2) as <-; [|lia].
  eapply (wf_inside_eq _ _ _ (rbase e.2 + rlen e.2 - 1)); try done; unfold inside; lia.
Qed.

(** ** Lists of entries, split at one of them *)

Lemma deref_split l1 p c l2 : NoDup (l1 ++ (p, c) :: l2).*1 -> deref (l1 ++ (p, c) :: l2) p = Some c.
Proof.
  induction l1 as [|e l1 IH]; cbn [app deref]; csimpl; [by rewrite Z.eqb_refl|].
  rewrite NoDup_cons, fmap_app, fmap_cons. intros [Hn Hnd].
  destruct (Z.eqb_spec e.1 p) as [Heq|]; [rewrite Heq in Hn; set_solver|]. apply IH. by rewrite fmap_app, fmap_cons.
Qed.

Lemma assign_split l1 p c c' l2 : NoDup (l1 ++ (p, c) :: l2).*1 ->
  assign (l1 ++ (p, c) :: l2) p c' = l1 ++ (p, c') :: l2.
Proof.
  induction l1 as [|e l1 IH]; cbn [app assign]; csimpl; [by rewrite Z.eqb_refl|].
  rewrite NoDup_cons, fmap_app, fmap_cons. intros [Hn Hnd].
  destruct (Z.eqb_spec e.1 p) as [Heq|]; [rewrite Heq in Hn; set_solver|].
  rewrite IH; [done|]. by rewrite fmap_app, fmap_cons.
Qed.

Lemma insert_at_app ok l1 l2 e :
  insert_at ok (l1 ++ l2) (Z.of_nat (length l1)) e =
  (if ok then l1 ++ e :: l2 else l1 ++ l2, ok || bool_decide (l2 = [])).
Proof.
  unfold insert_at. rewrite length_app. destruct (Z.ltb_spec (Z.of_nat (length l1 + length l2)) (Z.of_nat (length l1))); [lia|].
  destruct (Z.eqb_spec (Z.of_nat (length l1)) (Z.of_nat (length l1 + length l2))) as [He|Hne].
  - assert (l2 = []) as -> by (apply length_zero_iff_nil; lia).
    rewrite app_nil_r. by destruct ok.
  - destruct l2 as [|y l2]; [cbn in Hne; lia|]. rewrite Nat2Z.id, take_app_length, drop_app_length.
    by destruct ok.
Qed.

(** Replacing one entry by pieces of its range. *)
Definition pieces_ok cur (ps : region_list) : Prop :=
  StronglySorted before ps /\
  Forall (fun e => entry_ok e /\ rbase cur <= rbase e.2 /\ rbase e.2 + rlen e.2 <= rbase cur + rlen cur) ps.

Lemma wf_replace l1 p cur l2 ps : pmm_wf (l1 ++ (p, cur) :: l2) -> pieces_ok cur ps ->
  NoDup (l1 ++ ps ++ l2).*1 -> pmm_wf (l1 ++ ps ++ l2).
Proof.
  intros (Hok & _ & Hs) (Hps & Hin) Hnd. rewrite Forall_app, Forall_cons in Hok.
  destruct Hok as (Hok1 & Hok & Hok2). apply StronglySorted_app in Hs as (Hs1 & Hs2 & Hs12).
  apply StronglySorted_inv in Hs2 as [Hs2 Hcur]. rewrite Forall_forall in Hin, Hcur.
  split_and!; [|done|].
  - rewrite !Forall_app. split_and!; try done. apply Forall_forall. intros e He. by apply Hin.
  - apply StronglySorted_app. split_and!; [done| |].
    + apply StronglySorted_app. split_and!; [done..|]. intros e1 e2 H1 H2.
      specialize (Hin _ H1). specialize (Hcur _ H2). unfold before in *. cbn in *. lia.
    + intros e1 e2 H1 [H2|H2]%elem_of_app; [|apply Hs12; [done|by right]].
      specialize (Hs12 e1 (p, cur) H1 ltac:(by left)). specialize (Hin _ H2).
      unfold before in *. cbn in *. lia.
Qed.

(** ** Rounding *)

Lemma page_up_eq x : page_up x = wrap size_bits (x + 4095) - wrap size_bits (x + 4095) mod 4096.
Proof.
  unfold page_up. change 4095 with (2 ^ 12 - 1) at 2. rewrite land_align_down; [done| |].
  - apply wrap_bound, size_bits_nonneg.
  - arch_cases; lia.
Qed.

Lemma page_up_spec x : 0 <= x -> x + 4095 < 2 ^ size_bits ->
  page_up x mod 4096 = 0 /\ x <= page_up x <= x + 4095 /\
  forall y, y mod 4096 = 0 -> x <= y -> page_up x <= y.
Proof.
  intros Hx Hb. rewrite page_up_eq, wrap_small by lia.
  pose proof (Z.mod_pos_bound (x + 4095) 4096). pose proof (Z.div_mod (x + 4095) 4096).
  split_and!; try lia.
  - rewrite Zminus_mod_idemp_r, Z.sub_diag. done.
  - intros y Hy Hxy. pose proof (Z.div_mod y 4096). nia.
Qed.

Lemma page_up_wraps x : x < 2 ^ size_bits -> 2 ^ size_bits <= x + 4095 -> page_up x < x.
Proof.
  intros Hx Hb. rewrite page_up_eq. pose proof size_bits_nonneg.
  assert (4096 <= 2 ^ size_bits) by (arch_cases; lia).
  replace (wrap size_bits (x + 4095)) with (x + 4095 - 2 ^ size_bits).
  - pose proof (Z.mod_pos_bound (x + 4095 - 2 ^ size_bits) 4096). lia.
  - unfold wrap. rewrite <- (Z.mod_small (x + 4095 - 2 ^ size_bits) (2 ^ size_bits)) by lia.
    rewrite <- (Z.mod_add (x + 4095 - 2 ^ size_bits) 1) by lia. f_equal. lia.
Qed.

(** Room for [sz] bytes at the first page boundary of a region. *)
Definition has_room (sz : Z) r : Prop :=
  rbase r <= page_up (rbase r) /\ page_up (rbase r) + sz <= rbase r + rlen r.

Lemma page_up_cases e : entry_ok e ->
  (rbase e.2 + 4095 < 2 ^ size_bits /\ rbase e.2 <= page_up (rbase e.2) <= rbase e.2 + 4095 /\
   page_up (rbase e.2) -[size_bits] rbase e.2 = page_up (rbase e.2) - rbase e.2) \/
  page_up (rbase e.2) < rbase e.2.
Proof.
  intros (_ & ? & ? & ?). destruct (decide (rbase e.2 + 4095 < 2 ^ size_bits)); [left|right].
  - destruct (page_up_spec (rbase e.2)) as (_ & ? & _); [lia..|]. split_and!; try lia.
    apply wrap_small. lia.
  - apply page_up_wraps; lia.
Qed.

Lemma find_block_spec sz rs : forall i, Forall entry_ok rs -> 0 < sz -> sz + 4095 < 2 ^ size_bits ->
  match find_block sz rs i with
  | None => forall e, e ∈ rs -> rtype e.2 = USABLE -> ~ has_room sz e.2
  | Some (j, p, cur) => exists l1 l2, rs = l1 ++ (p, cur) :: l2 /\ j = i + Z.of_nat (length l1) /\
      rtype cur = USABLE /\ has_room sz cur
  end.
Proof.
  induction rs as [|[p cur] rs IH]; intros i Hok Hsz Hb; cbn [find_block]; [by intros e ?%elem_of_nil|].
  apply Forall_cons in Hok as [Hcur Hok]. specialize (IH (i + 1) Hok Hsz Hb).
  assert ((~ (rtype cur = USABLE /\ has_room sz cur)) ->
    match find_block sz rs (i + 1) with
    | None => forall e, e ∈ (p, cur) :: rs -> rtype e.2 = USABLE -> ~ has_room sz e.2
    | Some (j, p', cur') => exists l1 l2, (p, cur) :: rs = l1 ++ (p', cur') :: l2 /\
        j = i + Z.of_nat (length l1) /\ rtype cur' = USABLE /\ has_room sz cur'
    end) as Hskip.
  { intros Hno. destruct (find_block sz rs (i + 1)) as [[[j p'] cur']|].
    - destruct IH as (l1 & l2 & -> & -> & Hu & Hr). exists ((p, cur) :: l1), l2.
      split_and!; try done. cbn. lia.
    - intros e [->|He]%elem_of_cons Hu Hr; [naive_solver|by eapply IH]. }
  destruct (Z.eqb_spec p NULL); [by destruct Hcur as [? _]|]. cbn [orb].
  unfold usable at 1. case_bool_decide as Hu; cbn [negb]; [|apply Hskip; tauto].
  pose proof (page_up_cases (p, cur) Hcur) as Hpu. cbn in Hpu.
  destruct (Z.ltb_spec (page_up (rbase cur)) (rbase cur)).
  { apply Hskip. intros [_ [? _]]. lia. }
  destruct Hpu as [(? & ? & ->)|?]; [|lia]. destruct Hcur as (_ & ? & ? & ?); cbn in *.
  rewrite wrap_small by lia.
  destruct (Z.ltb_spec (rlen cur) (page_up (rbase cur) - rbase cur + sz)).
  { apply Hskip. intros [_ [_ ?]]. lia. }
  exists [], rs. split_and!; try done; [cbn; lia|]. split; lia.
Qed.

(** ** pmm_alloc *)

Section Alloc.
Variable malloc : region_list -> region_list * option Z.

(** The call does not reenter the memory manager, and an object it returns is
    new. *)
Definition malloc_quiet : Prop :=
  forall rs, (malloc rs).1 = rs /\ forall q, (malloc rs).2 = Some q -> q <> NULL /\ (q ∉ rs.*1).

Definition malloc_total : Prop := forall rs, is_Some (malloc rs).2.

Hypothesis Hquiet : malloc_quiet.

Definition opt_entry (o : option Z) r : region_list :=
  match o with Some q => [(q, r)] | None => [] end.

Definition fresh_for (o : option Z) rs : Prop := forall q, o = Some q -> q <> NULL /\ (q ∉ rs.*1).

Lemma insert_new_spec l1 l2 r :
  exists o b, insert_new malloc (l1 ++ l2) (Z.of_nat (length l1)) r = (l1 ++ opt_entry o r ++ l2, b) /\
    fresh_for o (l1 ++ l2) /\ (malloc_total -> b = true /\ is_Some o).
Proof.
  unfold insert_new. destruct (Hquiet (l1 ++ l2)) as [H1 H2].
  destruct (malloc (l1 ++ l2)) as [rs o] eqn:E. cbn in H1, H2. subst rs.
  destruct o as [q|]; cycle 1.
  { exists None, false. split_and!; try done. intros Ht. destruct (Ht (l1 ++ l2)) as [? Hx].
    by rewrite E in Hx. }
  rewrite E. rewrite insert_at_app. exists (Some q), true. split_and!; try done.
Qed.

(** Fresh pieces keep the pointers distinct. *)
Lemma NoDup_pieces (l1 : region_list) p cur l2 (ps : region_list) qs : NoDup (l1 ++ (p, cur) :: l2).*1 -> ps.*1 = p :: qs ->
  NoDup qs -> (forall q, q ∈ qs -> q ∉ (l1 ++ (p, cur) :: l2).*1) -> NoDup (l1 ++ ps ++ l2).*1.
Proof.
  rewrite !fmap_app, fmap_cons. intros Hnd -> Hqs Hfresh. cbn [fst] in *.
  assert (l1.*1 ++ (p :: qs) ++ l2.*1 ≡ₚ qs ++ (l1.*1 ++ p :: l2.*1)) as -> by solve_Permutation.
  apply NoDup_app. done.
Qed.

(** No piece has a USABLE byte of the run. *)
Definition carved (a sz : Z) (ps : region_list) : Prop :=
  Forall (fun e => rtype e.2 = USABLE -> rbase e.2 + rlen e.2 <= a \/ a + sz <= rbase e.2) ps.

(** Exactly the run is RESERVED. *)
Definition carved_exactly cur (a sz : Z) (ps : region_list) : Prop :=
  forall x t, cover ps x t <->
    inside cur x /\ t = if decide (a <= x < a + sz) then RESERVED else USABLE.

Ltac piece_solver :=
  repeat match goal with
    | |- Forall _ _ => constructor
    | |- StronglySorted _ _ => constructor
    | |- _ /\ _ => split
    | |- pieces_ok _ _ => split
    | |- entry_ok _ => split_and!
    | |- carved _ _ _ => unfold carved
    end; unfold before; cbn in *; try done; try lia.

Ltac disj_solver :=
  first [done | lia | split; [done|lia] | split; [lia|congruence] | left; disj_solver | right; disj_solver].

Ltac exact_solver a :=
  let x := fresh "x" in let t := fresh "t" in
  intros x t; rewrite ?cover_cons, ?cover_nil; unfold inside; cbn;
  destruct (Z.lt_ge_cases x a); destruct (decide _); split; intros; destruct_and?; destruct_or?; destruct_and?; subst;
  try lia; disj_solver.

Lemma room_facts l1 p cur l2 sz : let a := page_up (rbase cur) in
  pmm_wf (l1 ++ (p, cur) :: l2) -> has_room sz cur -> 0 < sz ->
  NoDup (l1 ++ (p, cur) :: l2).*1 /\ p <> NULL /\ 0 <= rbase cur /\ 0 < rlen cur /\
  rbase cur + rlen cur < 2 ^ size_bits /\ rbase cur <= a /\ a + sz <= rbase cur + rlen cur /\
  a -[size_bits] rbase cur = a - rbase cur /\ rend cur = rbase cur + rlen cur /\
  a +[size_bits] sz = a + sz.
Proof.
  intros a (Hok & Hnd & _) [Hr1 Hr2] Hsz.
  assert (entry_ok (p, cur)) as Hcur by (rewrite Forall_app, Forall_cons in Hok; tauto).
  pose proof (page_up_cases _ Hcur) as [(_ & Hpu & Hgap)|?]; [|cbn in *; lia].
  pose proof (entry_ok_rend _ Hcur) as Hend. destruct Hcur as (? & ? & ? & ?). cbn [fst snd] in *.
  split_and!; try done. apply wrap_small. unfold a. lia.
Qed.

Lemma insert_new_oob rs i r : Z.of_nat (length rs) < i -> insert_new malloc rs i r = (rs, false).
Proof.
  intros Hi. unfold insert_new. destruct (Hquiet rs) as [H1 _].
  destruct (malloc rs) as [rs0 [q|]] eqn:E; cbn in H1; subst rs0; [|done]. rewrite E.
  unfold insert_at. by destruct (Z.ltb_spec (Z.of_nat (length rs)) i); [|lia].
Qed.

Lemma take_block_flush l1 p cur l2 sz : let rs := l1 ++ (p, cur) :: l2 in
  let a := page_up (rbase cur) in
  pmm_wf rs -> rtype cur = USABLE -> has_room sz cur -> 0 < sz -> page_up (rbase cur) = rbase cur ->
  exists ps rp, take_block malloc rs (Z.of_nat (length l1)) p cur sz = Some (l1 ++ ps ++ l2, rp) /\
    pieces_ok cur ps /\ NoDup (l1 ++ ps ++ l2).*1 /\
    ((rp = a /\ carved a sz ps) \/ (rp = NULL /\ ~ malloc_total)) /\
    (malloc_total -> rp = a /\ carved_exactly cur a sz ps).
Proof.
  intros rs a Hwf Hu Hroom Hsz Hg.
  destruct (room_facts l1 p cur l2 sz Hwf Hroom Hsz) as (Hnd & Hp & Hb & Hl & Hm & Hr1 & Hr2 & Hgap & Hend & Hae).
  unfold take_block. fold a in Hgap, Hr1, Hr2, Hae, Hg |- *. rewrite Hgap, Hend, Hae.
  destruct (Z.eqb_spec (a - rbase cur) 0) as [_|?]; [|lia]. cbn [andb].
  destruct (Z.eqb_spec (rlen cur) sz) as [Hx|Hx].
  { exists [(p, mkRegion (rbase cur) (rlen cur) RESERVED)], (rbase cur).
    unfold rs. rewrite assign_split by done. split; [done|].
    split; [piece_solver|]. split; [apply (NoDup_pieces l1 p cur l2 _ []); [done..|constructor|by intros q ?%elem_of_nil]|].
    split; [left; split; [lia|piece_solver]|]. intros _. split; [lia|]. exact_solver a. }
  unfold rs. rewrite assign_split by done. set (c1 := mkRegion (rbase cur) sz RESERVED).
  destruct (Z.ltb_spec (a + sz) (rbase cur + rlen cur)) as [Hlt|Hge]; [|lia].
  rewrite (wrap_small _ (rbase cur + rlen cur - (a + sz))) by lia.
  set (sfx := mkRegion (a + sz) (rbase cur + rlen cur - (a + sz)) USABLE).
  destruct (insert_new_spec (l1 ++ [(p, c1)]) l2 sfx) as (o & b & Hins & Hfr & Htot).
  rewrite length_app, <- !app_assoc in Hins. cbn [length app] in Hins. rewrite Nat2Z.inj_add in Hins.
  change (Z.of_nat 1) with 1 in Hins. rewrite Hins. exists ((p, c1) :: opt_entry o sfx), (if b then rbase cur else NULL). split; [by destruct b|].
  split; [destruct o as [q|]; [destruct (Hfr q eq_refl)|]; piece_solver|]. split.
  { apply (NoDup_pieces l1 p cur l2 _ (if o is Some q then [q] else [])); [done|by destruct o| |].
    - destruct o; repeat constructor; set_solver.
    - intros q Hq. destruct o as [q'|]; [|set_solver]. apply list_elem_of_singleton in Hq as ->.
      destruct (Hfr _ eq_refl) as [_ Hq]. rewrite <- app_assoc, fmap_app in Hq. by rewrite fmap_app. }
  split.
  { destruct b; [left|right]; (split; [lia|]); [destruct o; piece_solver|].
    intros Ht. by destruct (Htot Ht). }
  intros Ht. destruct (Htot Ht) as [-> [q ->]]. split; [lia|]. cbn [opt_entry]. exact_solver a.
Qed.

Lemma take_block_gap l1 p cur l2 sz : let rs := l1 ++ (p, cur) :: l2 in
  let a := page_up (rbase cur) in
  pmm_wf rs -> rtype cur = USABLE -> has_room sz cur -> 0 < sz -> page_up (rbase cur) <> rbase cur ->
  exists ps rp, take_block malloc rs (Z.of_nat (length l1)) p cur sz = Some (l1 ++ ps ++ l2, rp) /\
    pieces_ok cur ps /\ NoDup (l1 ++ ps ++ l2).*1 /\
    ((rp = a /\ carved a sz ps) \/ (rp = NULL /\ ~ malloc_total)) /\
    (malloc_total -> rp = a /\ carved_exactly cur a sz ps).
Proof.
  intros rs a Hwf Hu Hroom Hsz Hg.
  destruct (room_facts l1 p cur l2 sz Hwf Hroom Hsz) as (Hnd & Hp & Hb & Hl & Hm & Hr1 & Hr2 & Hgap & Hend & Hae).
  unfold take_block. fold a in Hgap, Hr1, Hr2, Hae, Hg |- *. rewrite Hgap, Hend, Hae.
  destruct (Z.eqb_spec (a - rbase cur) 0) as [?|_]; [lia|]. cbn [andb].
  destruct (Hquiet rs) as [Hrs Hfresh]. destruct (malloc rs) as [rs0 o] eqn:Em.
  cbn [fst snd] in Hrs, Hfresh. subst rs0. destruct o as [q|]; cycle 1.
  { exists [(p, cur)], NULL. split; [done|]. split; [piece_solver|]. split; [done|].
    assert (~ malloc_total); [|tauto]. intros Ht. destruct (Ht rs) as [? Hx]. by rewrite Em in Hx. }
  destruct (Hfresh q eq_refl) as [Hq0 Hq]. clear Hfresh.
  unfold rs in *. rewrite deref_split by done. cbn [mbind option_bind]. rewrite assign_split by done.
  set (c1 := mkRegion (rbase cur) (a - rbase cur) (rtype cur)). set (c2 := mkRegion a sz RESERVED).
  destruct (Hquiet (l1 ++ (p, c1) :: l2)) as [Hrs1 _].
  destruct (malloc (l1 ++ (p, c1) :: l2)) as [rs1 nd] eqn:Em1. cbn [fst] in Hrs1. subst rs1.
  assert (Z.of_nat (length l1) + 1 = Z.of_nat (length (l1 ++ [(p, c1)]))) as Hlen
    by (rewrite length_app; cbn; lia).
  rewrite (cons_middle (p, c1)), (app_assoc l1), Hlen, insert_at_app, <- !app_assoc. cbn [app].
  rewrite (wrap_small _ (rbase cur + rlen cur - (a + sz))) by lia.
  set (sfx := mkRegion (a + sz) (rbase cur + rlen cur - (a + sz)) USABLE).
  assert (pieces_ok cur [(p, c1)] /\ carved a sz [(p, c1)]) as [Hp1 Hc1] by piece_solver.
  destruct nd as [nd|]; cbn [malloc_ok orb negb]; cycle 1.
  { assert (~ malloc_total) as Hnt.
    { intros Ht. destruct (Ht (l1 ++ (p, c1) :: l2)) as [? Hx]. by rewrite Em1 in Hx. }
    assert (NoDup (l1 ++ [(p, c1)] ++ l2).*1) as Hnd1 by (rewrite fmap_app in *; done).
    exists [(p, c1)]. case_bool_decide as Hl2; cbn [negb]; cycle 1.
    { exists NULL. split; [done|]. split_and!; auto; tauto. }
    destruct (Z.ltb_spec (a + sz) (rbase cur + rlen cur)); cycle 1.
    { exists a. split; [done|]. split_and!; auto; tauto. }
    rewrite insert_new_oob by (subst l2; rewrite length_app; cbn; lia).
    exists NULL. split; [done|]. split_and!; auto; tauto. }
  assert (NoDup (l1 ++ [(p, c1); (q, c2)] ++ l2).*1) as Hnd2.
  { apply (NoDup_pieces l1 p cur l2 _ [q]); [done..|apply NoDup_singleton|].
    by intros ? ->%list_elem_of_singleton. }
  destruct (Z.ltb_spec (a + sz) (rbase cur + rlen cur)) as [Hlt|Hge]; cycle 1.
  { exists [(p, c1); (q, c2)], a. split; [done|]. split; [piece_solver|]. split; [done|].
    split; [left; split; [done|piece_solver]|]. intros _. split; [done|]. unfold c1, c2. rewrite Hu. exact_solver a. }
  destruct (insert_new_spec (l1 ++ [(p, c1); (q, c2)]) l2 sfx) as (o & b & Hins & Hfr & Htot).
  rewrite length_app, <- !app_assoc in Hins. cbn [length app] in Hins. rewrite Nat2Z.inj_add in Hins.
  change (Z.of_nat 2) with 2 in Hins. rewrite Hins.
  exists ((p, c1) :: (q, c2) :: opt_entry o sfx), (if b then a else NULL).
  assert (forall q2, o = Some q2 -> q2 <> NULL /\ q2 <> q /\ (q2 ∉ (l1 ++ (p, cur) :: l2).*1)) as Hq2.
  { intros q2 ->. destruct (Hfr _ eq_refl) as [? Hq2]. rewrite <- app_assoc, fmap_app in Hq2.
    rewrite fmap_app. cbn in Hq2. set_solver. }
  split; [by destruct b|].
  split; [destruct o as [q2|]; [destruct (Hq2 _ eq_refl)|]; piece_solver|]. split.
  { apply (NoDup_pieces l1 p cur l2 _ (q :: if o is Some q2 then [q2] else [])); [done|by destruct o| |].
    - destruct o as [q2|]; [destruct (Hq2 _ eq_refl) as (_ & ? & _)|];
        repeat constructor; rewrite ?elem_of_cons, ?elem_of_nil; naive_solver.
    - intros q' [->|Hq']%elem_of_cons; [done|]. destruct o as [q2|]; [|by apply elem_of_nil in Hq'].
      apply list_elem_of_singleton in Hq' as ->. by destruct (Hq2 _ eq_refl) as (_ & _ & ?). }
  split.
  { destruct b; [left|right]; (split; [lia|]); [destruct o; piece_solver|].
    intros Ht. by destruct (Htot Ht). }
  intros Ht. destruct (Htot Ht) as [-> [q2 ->]]. split; [lia|]. cbn [opt_entry].
  unfold c1, c2, sfx. rewrite Hu. exact_solver a.
Qed.

Lemma take_block_spec l1 p cur l2 sz : let rs := l1 ++ (p, cur) :: l2 in
  let a := page_up (rbase cur) in
  pmm_wf rs -> rtype cur = USABLE -> has_room sz cur -> 0 < sz ->
  exists ps rp, take_block malloc rs (Z.of_nat (length l1)) p cur sz = Some (l1 ++ ps ++ l2, rp) /\
    pieces_ok cur ps /\ NoDup (l1 ++ ps ++ l2).*1 /\
    ((rp = a /\ carved a sz ps) \/ (rp = NULL /\ ~ malloc_total)) /\
    (malloc_total -> rp = a /\ carved_exactly cur a sz ps).
Proof.
  intros rs a ????. destruct (decide (page_up (rbase cur) = rbase cur)).
  - by apply take_block_flush.
  - by apply take_block_gap.
Qed.

(** The size of a run for [k] KiB, in whole pages. *)
Definition pages_of (k : Z) : Z := (k * 1024 + 4095) / 4096 * 4096.

Lemma page_up_pages k : 0 < k -> k * 1024 + 4095 < 2 ^ size_bits ->
  page_up (k * 1024) = pages_of k /\ k * 1024 <= pages_of k /\ pages_of k + 4095 < 2 ^ size_bits.
Proof.
  intros Hk Hb. rewrite page_up_eq, wrap_small by lia. unfold pages_of.
  set (x := k * 1024 + 4095) in *. pose proof (Z.div_mod x 4096). pose proof (Z.mod_pos_bound x 4096).
  split_and!; [lia..|].
  assert (exists w, 2 ^ size_bits = 4096 * w) as [w Hw].
  { arch_cases; [by exists 1048576|by exists 4503599627370496]. }
  rewrite Hw in *. nia.
Qed.

Lemma pmm_alloc_unfold rs k : 0 < k ->
  pmm_alloc malloc (Some rs) k =
  if decide (k * 1024 + 4095 < 2 ^ size_bits) then
    match find_block (pages_of k) (pmm_maintain rs) 0 with
    | None => Some (Some (pmm_maintain rs), NULL)
    | Some (index, p, cur) =>
        x ← take_block malloc (pmm_maintain rs) index p cur (pages_of k); Some (Some x.1, x.2)
    end
  else Some (Some rs, NULL).
Proof.
  intros Hk. unfold pmm_alloc. destruct (Z.eqb_spec k 0); [lia|]. unfold SIZE_MAX.
  destruct (Z.ltb_spec ((2 ^ size_bits - 1) / 1024) k) as [Hbig|Hsmall].
  { rewrite decide_False; [done|]. pose proof (Z.div_lt_upper_bound (2 ^ size_bits - 1) 1024 k). 
    pose proof (Z.mul_succ_div_gt (2 ^ size_bits - 1) 1024). nia. }
  assert (k * 1024 < 2 ^ size_bits) as Hlt.
  { pose proof (Z.mul_div_le (2 ^ size_bits - 1) 1024). nia. }
  case_decide as Hb.
  - destruct (page_up_pages k Hk Hb) as (-> & ? & _).
    by destruct (Z.eqb_spec (pages_of k) 0); [lia|].
  - assert (page_up (k * 1024) = 0) as ->; [|done].
    assert (4096 <= 2 ^ size_bits) by (arch_cases; lia).
    rewrite page_up_eq. replace (wrap size_bits (k * 1024 + 4095)) with (k * 1024 + 4095 - 2 ^ size_bits).
    + rewrite Z.mod_small by lia. lia.
    + unfold wrap. rewrite <- (Z.mod_small (k * 1024 + 4095 - 2 ^ size_bits) (2 ^ size_bits)) by lia.
      rewrite <- (Z.mod_add (k * 1024 + 4095 - 2 ^ size_bits) 1) by lia. f_equal. lia.
Qed.

(** The run of a region with room is page aligned and USABLE. *)
Lemma room_run l1 p cur l2 sz : pmm_wf (l1 ++ (p, cur) :: l2) -> rtype cur = USABLE ->
  has_room sz cur -> 0 < sz -> page_up (rbase cur) mod 4096 = 0 /\
  forall x, page_up (rbase cur) <= x < page_up (rbase cur) + sz -> inside cur x.
Proof.
  intros Hwf Hu [H1 H2] Hsz. split; [|intros x Hx; unfold inside; lia].
  destruct (room_facts l1 p cur l2 sz Hwf ltac:(done) Hsz) as (_ & _ & ? & _ & ? & _).
  rewrite page_up_eq, Zminus_mod_idemp_r, Z.sub_diag. done.
Qed.

Lemma cover_others l1 p cur l2 x t : pmm_wf (l1 ++ (p, cur) :: l2) -> inside cur x ->
  ~ cover l1 x t /\ ~ cover l2 x t.
Proof.
  intros (Hok & _ & Hs) Hx. apply StronglySorted_app in Hs as (_ & Hs2 & Hs12).
  apply StronglySorted_inv in Hs2 as [_ Hcur]. rewrite Forall_forall in Hcur.
  split; intros (e & He & _ & Hxe); unfold inside, before in *.
  - specialize (Hs12 e (p, cur) He ltac:(by left)). cbn in *. lia.
  - specialize (Hcur e He). cbn in *. lia.
Qed.

Lemma cover_pieces cur l1 p l2 ps : pieces_ok cur ps -> rtype cur = USABLE ->
  forall x, cover (l1 ++ ps ++ l2) x USABLE -> cover (l1 ++ (p, cur) :: l2) x USABLE.
Proof.
  intros [_ Hps] Hu x. rewrite !cover_app, cover_cons. intros [?|[(e & He & Ht & Hx)|?]]; [by left| |by auto].
  right. left. cbn. split; [done|]. rewrite Forall_forall in Hps. specialize (Hps _ He).
  unfold inside in *. lia.
Qed.


Lemma size_bits_pages : exists w, 2 ^ size_bits = 4096 * w /\ 0 < w.
Proof. arch_cases; [by exists 1048576|by exists 4503599627370496]. Qed.

Lemma cover_range rs x t : pmm_wf rs -> cover rs x t -> 0 <= x < 2 ^ size_bits.
Proof.
  intros (Hok & _) (e & He & _ & Hx). rewrite Forall_forall in Hok.
  destruct (Hok _ He) as (_ & ? & ? & ?). unfold inside in Hx. lia.
Qed.

(** A page-aligned USABLE range gives a region with room. *)
Lemma range_has_room rs a sz : pmm_wf rs -> merged rs -> 0 < sz -> a mod 4096 = 0 ->
  (forall x, a <= x < a + sz -> cover rs x USABLE) ->
  exists e, e ∈ rs /\ rtype e.2 = USABLE /\ has_room sz e.2.
Proof.
  intros Hwf Hm Hsz Ha Hc. destruct (merged_range rs a sz Hwf Hm Hsz Hc) as (e & He & Ht & Hlo & Hhi).
  exists e. split; [done|]. split; [done|]. destruct Hwf as (Hok & _). rewrite Forall_forall in Hok.
  destruct (Hok _ He) as (_ & H0 & _ & Hend). destruct size_bits_pages as (w & Hw & _).
  assert (rbase e.2 + 4095 < 2 ^ size_bits) as Hb.
  { pose proof (Z.div_mod a 4096). nia. }
  destruct (page_up_spec (rbase e.2) H0 Hb) as (_ & ? & Hmin). specialize (Hmin a Ha Hlo). split; lia.
Qed.

End Alloc.

(** ** pmm_free *)

Lemma list_remove_split l1 q r l2 : NoDup (l1 ++ (q, r) :: l2).*1 ->
  list_remove (l1 ++ (q, r) :: l2) q = l1 ++ l2.
Proof.
  induction l1 as [|e l1 IH]; cbn [app list_remove]; csimpl; [by rewrite Z.eqb_refl|].
  rewrite NoDup_cons, fmap_app, fmap_cons. intros [Hn Hnd].
  destruct (Z.eqb_spec e.1 q) as [Heq|]; [rewrite Heq in Hn; set_solver|].
  rewrite IH; [done|]. by rewrite fmap_app, fmap_cons.
Qed.

Lemma wf_app_tail l1 l2 : pmm_wf (l1 ++ l2) -> pmm_wf l2.
Proof.
  intros (H1 & H2 & H3). apply Forall_app in H1 as [_ H1]. rewrite fmap_app in H2.
  apply NoDup_app in H2 as (_ & _ & H2). by apply StronglySorted_app in H3 as (_ & H3 & _).
Qed.

(** In a sorted list two regions that touch are neighbours. *)
Lemma touching_neighbours e1 e2 rs : pmm_wf (e1 :: rs) -> e2 ∈ rs ->
  rbase e2.2 <= rbase e1.2 + rlen e1.2 ->
  exists rs', rs = e2 :: rs' /\ rbase e2.2 = rbase e1.2 + rlen e1.2.
Proof.
  intros (_ & _ & Hb & Hwf)%wf_cons Hin Ht. destruct rs as [|e rs]; [by apply elem_of_nil in Hin|].
  apply Forall_cons in Hb as [He Hb]. apply wf_cons in Hwf as ((_ & _ & ? & _) & _ & He2 & _).
  unfold before in *. apply elem_of_cons in Hin as [->|Hin]; [exists rs; split; [done|lia]|].
  rewrite Forall_forall in He2. specialize (He2 _ Hin). lia.
Qed.

Lemma adjacent_split rs e1 e2 : pmm_wf rs -> e1 ∈ rs -> e2 ∈ rs -> e1 <> e2 ->
  rbase e2.2 <= rbase e1.2 + rlen e1.2 -> rbase e1.2 <= rbase e2.2 + rlen e2.2 ->
  exists l1 l2, (rs = l1 ++ e1 :: e2 :: l2 /\ rbase e2.2 = rbase e1.2 + rlen e1.2) \/
                (rs = l1 ++ e2 :: e1 :: l2 /\ rbase e1.2 = rbase e2.2 + rlen e2.2).
Proof.
  intros Hwf H1 H2 Hne Ht1 Ht2. apply list_elem_of_split in H1 as (l1 & l2 & ->).
  apply elem_of_app in H2 as [H2|[->|H2]%elem_of_cons]; [|done|].
  - apply list_elem_of_split in H2 as (l0 & l1' & ->).
    rewrite <- app_assoc in Hwf. apply wf_app_tail in Hwf as Hwf'. cbn in Hwf'.
    destruct (touching_neighbours e2 e1 _ Hwf' ltac:(set_solver) ltac:(lia)) as (rs' & Hrs & ?).
    assert (l1' = []) as ->.
    { destruct l1' as [|e l1']; [done|]. injection Hrs as -> Hl. apply wf_cons in Hwf' as (_ & _ & _ & Hwf').
      exfalso. destruct Hwf' as (_ & Hnd & _). cbn in Hnd. apply NoDup_cons in Hnd as [Hn _].
      apply Hn. apply list_elem_of_fmap. exists e1. set_solver. }
    exists l0, l2. right. split; [|lia]. by rewrite <- app_assoc.
  - apply wf_app_tail in Hwf as Hwf'.
    destruct (touching_neighbours e1 e2 _ Hwf' H2 ltac:(lia)) as (rs' & -> & ?).
    exists l1, rs'. left. split; [done|lia].
Qed.

(** Two neighbours joined, under either pointer. *)
Lemma wf_join l1 e1 e2 l2 p t : pmm_wf (l1 ++ e1 :: e2 :: l2) ->
  rbase e2.2 = rbase e1.2 + rlen e1.2 -> p = e1.1 \/ p = e2.1 ->
  pmm_wf (l1 ++ (p, mkRegion (rbase e1.2) (rlen e1.2 + rlen e2.2) t) :: l2).
Proof.
  intros (Hok & Hnd & Hs) Heq Hp. rewrite Forall_app, !Forall_cons in Hok.
  destruct Hok as (Hok1 & (Hp1 & ? & ? & ?) & (Hp2 & ? & ? & ?) & Hok2).
  apply StronglySorted_app in Hs as (Hs1 & [[Hs2 Hb2]%StronglySorted_inv Hb1]%StronglySorted_inv & Hs12).
  split_and!.
  - rewrite Forall_app, Forall_cons. split_and!; try done. split_and!; cbn; [naive_solver|lia..].
  - rewrite !fmap_app, !fmap_cons in *. cbn. revert Hnd. rewrite !NoDup_app, !NoDup_cons.
    set_unfold. naive_solver.
  - apply StronglySorted_app. split_and!; [done| |].
    + constructor; [done|]. eapply Forall_impl; [exact Hb2|]. unfold before. cbn. intros. lia.
    + intros x y Hx [->|Hy]%elem_of_cons; [|apply Hs12; [done|by right; right]].
      specialize (Hs12 x e1 Hx ltac:(by left)). unfold before in *. cbn. lia.
Qed.

Lemma cover_join l1 e1 e2 l2 p x t : rbase e2.2 = rbase e1.2 + rlen e1.2 -> 0 <= rlen e1.2 -> 0 <= rlen e2.2 ->
  rtype e1.2 = USABLE -> rtype e2.2 = USABLE ->
  cover (l1 ++ (p, mkRegion (rbase e1.2) (rlen e1.2 + rlen e2.2) USABLE) :: l2) x t <->
  cover (l1 ++ e1 :: e2 :: l2) x t.
Proof.
  intros Heq H1 H2 Hu1 Hu2. rewrite !cover_app, !cover_cons. unfold inside. cbn. rewrite Hu1, Hu2.
  split; [|naive_solver lia]. intros [?|[[<- ?]|?]]; [tauto| |tauto].
  destruct (decide (x < rbase e1.2 + rlen e1.2)); right; [left|right; left]; split; try done; lia.
Qed.

Definition touching r1 r2 : Prop :=
  rbase r2 <= rbase r1 + rlen r1 /\ rbase r1 <= rbase r2 + rlen r2.

Lemma find_join_spec p freed rs : Forall entry_ok rs -> entry_ok (p, freed) ->
  match find_join rs p freed with
  | Some (q, fr) => exists mr, (q, mr) ∈ rs /\ q <> p /\ rtype mr = USABLE /\ touching freed mr /\
      fr = merge freed mr
  | None => forall e, e ∈ rs -> e.1 <> p -> rtype e.2 = USABLE -> ~ touching freed e.2
  end.
Proof.
  intros Hok Hf. pose proof (entry_ok_rend _ Hf) as Hfe. cbn [snd] in Hfe.
  induction Hok as [|[q mr] rs Hmr Hok IH]; cbn [find_join]; [by intros e ?%elem_of_nil|].
  pose proof (entry_ok_rend _ Hmr) as Hme. cbn [snd] in Hme.
  assert ((q = p \/ rtype mr <> USABLE \/ ~ touching freed mr) ->
    match find_join rs p freed with
    | Some (q', fr) => exists mr', (q', mr') ∈ (q, mr) :: rs /\ q' <> p /\ rtype mr' = USABLE /\
        touching freed mr' /\ fr = merge freed mr'
    | None => forall e, e ∈ (q, mr) :: rs -> e.1 <> p -> rtype e.2 = USABLE -> ~ touching freed e.2
    end) as Hskip.
  { intros Hno. destruct (find_join rs p freed) as [[q' fr]|].
    - destruct IH as (mr' & ? & ?). exists mr'. split; [by right|done].
    - intros e [->|He]%elem_of_cons; [naive_solver|by apply IH]. }
  rewrite Hfe, Hme. destruct (Z.eqb_spec q NULL) as [->|_]; [by destruct Hmr|]. cbn [orb].
  destruct (Z.eqb_spec q p) as [->|Hqp]; [apply Hskip; by left|]. cbn [orb].
  unfold usable. case_bool_decide as Hu; cbn [negb]; [|apply Hskip; tauto].
  destruct (Z.ltb_spec (rbase freed + rlen freed) (rbase mr)); cbn [orb negb].
  { destruct Hmr as (_ & ? & ? & ?), Hf as (_ & ? & ? & ?). cbn in *.
    destruct (Z.eqb_spec (rbase mr + rlen mr) (rbase freed)); [lia|].
    destruct (Z.eqb_spec (rbase freed + rlen freed) (rbase mr)); [lia|].
    apply Hskip. unfold touching. lia. }
  destruct (Z.ltb_spec (rbase mr + rlen mr) (rbase freed)); cbn [negb].
  { destruct Hmr as (_ & ? & ? & ?), Hf as (_ & ? & ? & ?). cbn in *.
    destruct (Z.eqb_spec (rbase mr + rlen mr) (rbase freed)); [lia|].
    destruct (Z.eqb_spec (rbase freed + rlen freed) (rbase mr)); [lia|].
    apply Hskip. unfold touching. lia. }
  exists mr. split_and!; try done. by left.
Qed.

Lemma merge_left e1 e2 : entry_ok e1 -> entry_ok e2 -> rbase e2.2 = rbase e1.2 + rlen e1.2 ->
  merge e2.2 e1.2 = mkRegion (rbase e1.2) (rlen e1.2 + rlen e2.2) (rtype e2.2).
Proof.
  intros H1 H2 Heq. unfold merge. rewrite !entry_ok_rend by done.
  destruct H1 as (_ & ? & ? & ?), H2 as (_ & ? & ? & ?).
  destruct (Z.ltb_spec (rbase e2.2) (rbase e1.2)); [lia|].
  destruct (Z.ltb_spec (rbase e1.2 + rlen e1.2) (rbase e2.2 + rlen e2.2)); [|lia].
  f_equal. rewrite wrap_small; lia.
Qed.

(** One round of the merge loop joins two neighbours. *)
Lemma join_step rs p freed q mr : pmm_wf rs -> (p, freed) ∈ rs -> (q, mr) ∈ rs -> q <> p ->
  rtype freed = USABLE -> rtype mr = USABLE -> touching freed mr ->
  let rs' := list_remove (assign rs p (merge freed mr)) q in
  pmm_wf rs' /\ (forall x t, cover rs' x t <-> cover rs x t) /\ (length rs = S (length rs'))%nat /\
  exists r, (p, r) ∈ rs' /\ rtype r = USABLE.
Proof.
  intros Hwf Hp Hq Hqp Hu1 Hu2 [Ht1 Ht2].
  destruct (adjacent_split rs (p, freed) (q, mr) Hwf Hp Hq ltac:(congruence) Ht1 Ht2)
    as (l1 & l2 & [[-> Heq]|[-> Heq]]); cbn [snd] in Heq; pose proof Hwf as (Hok & Hnd & _);
    rewrite Forall_app, !Forall_cons in Hok; destruct Hok as (_ & Hok1 & Hok2 & _).
  - pose proof (merge_adjacent (p, freed) (q, mr) Hok1 Hok2 Heq) as Hm. cbn [snd] in Hm.
    cbv zeta. rewrite Hm, Hu1, assign_split by done.
    set (r := mkRegion _ _ USABLE). rewrite (cons_middle (p, r)), app_assoc.
    rewrite list_remove_split by (rewrite <- app_assoc; rewrite fmap_app in *; done).
    rewrite <- app_assoc. cbn [app]. split_and!.
    + by apply (wf_join l1 (p, freed) (q, mr)); [| |left].
    + intros x t. apply (cover_join l1 (p, freed) (q, mr)); try done; [destruct Hok1|destruct Hok2]; cbn in *; lia.
    + rewrite !length_app. cbn. lia.
    + exists r. split; [set_solver|done].
  - pose proof (merge_left (q, mr) (p, freed) Hok1 Hok2 Heq) as Hm. cbn [snd] in Hm.
    cbv zeta. rewrite Hm, Hu1.
    rewrite (cons_middle (q, mr)), app_assoc in Hnd |- *. rewrite assign_split by done.
    set (r := mkRegion _ _ USABLE). rewrite <- app_assoc. cbn [app].
    rewrite list_remove_split by (rewrite <- app_assoc in Hnd; rewrite fmap_app in *; done).
    rewrite <- app_assoc. cbn [app]. split_and!.
    + by apply (wf_join l1 (q, mr) (p, freed)); [| |right].
    + intros x t. apply (cover_join l1 (q, mr) (p, freed)); try done; [destruct Hok1|destruct Hok2]; cbn in *; lia.
    + rewrite !length_app. cbn. lia.
    + exists r. split; [set_solver|done].
Qed.

Lemma deref_in rs p r : NoDup rs.*1 -> (p, r) ∈ rs -> deref rs p = Some r.
Proof. intros Hnd (l1 & l2 & ->)%list_elem_of_split. by apply deref_split. Qed.

(** The loop ends after at most one round for each region. *)
Lemma join_loop_spec fuel : forall rs p freed, pmm_wf rs -> (p, freed) ∈ rs -> rtype freed = USABLE ->
  (length rs < fuel)%nat ->
  exists rs', join_loop fuel rs p = Some rs' /\ pmm_wf rs' /\
    (forall x t, cover rs' x t <-> cover rs x t).
Proof.
  induction fuel as [|fuel IH]; intros rs p freed Hwf Hin Hu Hf; [lia|]. cbn [join_loop].
  pose proof Hwf as (Hok & Hnd & _). rewrite (deref_in _ _ _ Hnd Hin). cbn [mbind option_bind].
  assert (entry_ok (p, freed)) as Hp by (rewrite Forall_forall in Hok; auto).
  pose proof (find_join_spec p freed rs Hok Hp) as Hj.
  destruct (find_join rs p freed) as [[q fr]|]; [|by exists rs].
  destruct Hj as (mr & Hq & Hqp & Hmu & Ht & ->).
  destruct (join_step rs p freed q mr Hwf Hin Hq Hqp Hu Hmu Ht) as (Hwf' & Hcov & Hlen & r & Hr & Hru).
  destruct (IH _ p r Hwf' Hr Hru ltac:(lia)) as (rs' & -> & Hwf2 & Hcov2).
  exists rs'. split_and!; try done. intros x t. by rewrite Hcov2, Hcov.
Qed.

Lemma find_base_spec rs addr : Forall entry_ok rs ->
  match find_base rs addr with
  | Some e => e ∈ rs /\ rbase e.2 = addr
  | None => forall e, e ∈ rs -> rbase e.2 <> addr
  end.
Proof.
  induction rs as [|e rs IH]; intros Hok; cbn [find_base]; [by intros e ?%elem_of_nil|].
  apply Forall_cons in Hok as [[Hp _] Hok]. destruct (Z.eqb_spec e.1 NULL); [done|]. cbn [negb andb].
  destruct (Z.eqb_spec (rbase e.2) addr) as [Heq|Hne]; [split; [by left|done]|].
  specialize (IH Hok). destruct (find_base rs addr) as [e'|].
  - destruct IH. split; [by right|done].
  - intros e' [->|?]%elem_of_cons; auto.
Qed.

(** Two regions of a sorted list with one base are the same. *)
Lemma wf_base_eq rs e1 e2 : pmm_wf rs -> e1 ∈ rs -> e2 ∈ rs -> rbase e1.2 = rbase e2.2 -> e1 = e2.
Proof.
  intros Hwf H1 H2 Heq. pose proof Hwf as (Hok & _). rewrite Forall_forall in Hok.
  destruct (Hok _ H1) as (_ & _ & ? & _), (Hok _ H2) as (_ & _ & ? & _).
  apply (wf_inside_eq rs e1 e2 (rbase e1.2)); try done; unfold inside; lia.
Qed.

Lemma wf_retype l1 p r t l2 : pmm_wf (l1 ++ (p, r) :: l2) ->
  pmm_wf (l1 ++ (p, mkRegion (rbase r) (rlen r) t) :: l2).
Proof.
  intros Hwf. pose proof Hwf as (Hok & Hnd & _). rewrite Forall_app, Forall_cons in Hok.
  apply (wf_replace l1 p r l2 [(p, mkRegion (rbase r) (rlen r) t)] Hwf).
  - destruct Hok as (_ & (? & ? & ? & ?) & _). split; [repeat constructor|].
    constructor; [|done]. split_and!; cbn in *; try done; lia.
  - rewrite fmap_app in *. done.
Qed.

(** [pmm_free] of a pointer releases the region that starts at its page,
    if there is one that is not USABLE: exactly its bytes become USABLE, the
    list stays sorted and disjoint, and the merge loop ends.  Otherwise
    nothing changes. *)
Theorem pmm_free_spec rs ptr : pmm_wf rs -> 0 < ptr < 2 ^ size_bits ->
  let addr := ptr - ptr mod 4096 in
  (exists e rs', e ∈ rs /\ rbase e.2 = addr /\ rtype e.2 <> USABLE /\
     pmm_free (Some rs) ptr = Some (Some rs') /\ pmm_wf rs' /\
     forall x t, cover rs' x t <-> if decide (inside e.2 x) then t = USABLE else cover rs x t) \/
  (pmm_free (Some rs) ptr = Some (Some rs) /\
     forall e, e ∈ rs -> rbase e.2 = addr -> rtype e.2 = USABLE).
Proof.
  intros Hwf Hptr addr. unfold pmm_free. destruct (Z.eqb_spec ptr NULL); [unfold NULL in *; lia|].
  assert ((if negb (ptr mod 4096 =? 0) then Z.land ptr (wrap size_bits (Z.lnot 4095)) else ptr) = addr) as ->.
  { unfold addr. destruct (Z.eqb_spec (ptr mod 4096) 0) as [->|]; cbn [negb]; [lia|].
    change 4095 with (2 ^ 12 - 1). rewrite land_align_down; [done|lia|].
    clear. arch_cases; lia. }
  pose proof (find_base_spec rs addr ltac:(apply Hwf)) as Hf.
  destruct (find_base rs addr) as [[p freed]|]; cycle 1.
  { right. split; [done|]. intros e He Hb. by destruct (Hf e He). }
  destruct Hf as [Hin Hb]. cbn [snd] in Hb. unfold usable. case_bool_decide as Hu.
  { right. split; [done|]. intros e He Hbe. by rewrite (wf_base_eq rs e (p, freed) Hwf He Hin) by (cbn; lia). }
  left. apply list_elem_of_split in Hin as (l1 & l2 & ->). pose proof Hwf as (_ & Hnd & _).
  rewrite assign_split by done. set (r := mkRegion _ _ USABLE).
  destruct (join_loop_spec (S (length (l1 ++ (p, r) :: l2))) (l1 ++ (p, r) :: l2) p r)
    as (rs' & Hj & Hwf' & Hcov); [by apply wf_retype|set_solver|done|lia|].
  exists (p, freed), rs'. split; [set_solver|]. split; [done|]. split; [done|]. rewrite Hj. split; [done|].
  split; [done|]. intros x t. rewrite Hcov, !cover_app, !cover_cons. cbn [snd].
  change (inside r x) with (inside freed x). change (rtype r) with USABLE. case_decide as Hx.
  - destruct (cover_others l1 p freed l2 x t Hwf Hx).
    split; [by intros [?|[[<- _]|?]]|intros ->; right; by left].
  - rewrite cover_app, cover_cons. cbn [snd]. tauto.
Qed.
End Spec.
