(* ===== verification/PmmInit.v ===== *)
(** * Boot-time passes over the memory map, and concrete runs

    The loops of [pmm_init] insert into the list they walk.  Each acts on every
    region of the firmware's map once, replacing it by pieces; from that, no
    byte below the kernel's end and no byte of the framebuffer is USABLE, and
    the other USABLE bytes stay. *)

From Stdlib Require Import Sorting.Sorted.
From S2P Require Import Prelude Lists Pmm PmmSpec.

Section Loops.
Context `{A : Arch}.
Implicit Types (rs : region_list) (r : MemoryRegion).

Lemma next_of_split l1 p r l2 : NoDup (l1 ++ (p, r) :: l2).*1 ->
  next_of (l1 ++ (p, r) :: l2) p = fst <$> hd_error l2.
Proof.
  induction l1 as [|e l1 IH]; cbn [app next_of]; csimpl; [by rewrite Z.eqb_refl|].
  rewrite NoDup_cons, fmap_app, fmap_cons. intros [Hn Hnd].
  destruct (Z.eqb_spec e.1 p) as [Heq|]; [rewrite Heq in Hn; set_solver|].
  rewrite IH; [done|]. by rewrite fmap_app, fmap_cons.
Qed.

Lemma index_of_split l1 p r l2 i : NoDup (l1 ++ (p, r) :: l2).*1 ->
  index_of (l1 ++ (p, r) :: l2) p i = i + Z.of_nat (length l1).
Proof.
  revert i; induction l1 as [|e l1 IH]; intros i; cbn [app index_of length]; csimpl.
  { rewrite Z.eqb_refl. lia. }
  rewrite NoDup_cons, fmap_app, fmap_cons. intros [Hn Hnd].
  destruct (Z.eqb_spec e.1 p) as [Heq|]; [rewrite Heq in Hn; set_solver|].
  rewrite IH; [lia|]. by rewrite fmap_app, fmap_cons.
Qed.

(** A loop body that replaces the region it is at by [split_of], and leaves the
    regions it adds alone when the walk reaches them. *)
Section Walk.
Variable body : region_list -> Z -> option region_list.
Variable split_of : MemoryRegion -> MemoryRegion * list MemoryRegion.

Hypothesis body_step : forall l1 p r l2, pmm_wf (l1 ++ (p, r) :: l2) ->
  exists ext, body (l1 ++ (p, r) :: l2) p = Some (l1 ++ (p, (split_of r).1) :: ext ++ l2) /\
    ext.*2 = (split_of r).2 /\ pmm_wf (l1 ++ (p, (split_of r).1) :: ext ++ l2).
Hypothesis split_few : forall r, (length (split_of r).2 <= 2)%nat.
Hypothesis split_stable : forall r r', r' ∈ (split_of r).2 -> split_of r' = (r', []).

Definition pieces_of r : list MemoryRegion := (split_of r).1 :: (split_of r).2.

Let run fuel (done todo : region_list) :=
  for_nodes body fuel (done ++ todo) (fst <$> hd_error todo).

Lemma run_step fuel l1 p r l2 : pmm_wf (l1 ++ (p, r) :: l2) ->
  exists ext, run (S fuel) l1 ((p, r) :: l2) = run fuel (l1 ++ [(p, (split_of r).1)]) (ext ++ l2) /\
    ext.*2 = (split_of r).2 /\ pmm_wf ((l1 ++ [(p, (split_of r).1)]) ++ ext ++ l2).
Proof.
  intros Hwf. destruct (body_step l1 p r l2 Hwf) as (ext & Hb & Hext & Hwf').
  exists ext. unfold run. cbn. rewrite Hb. cbn [mbind option_bind].
  rewrite next_of_split by apply Hwf'. by rewrite <- app_assoc.
Qed.

(** The regions just added are walked over. *)
Lemma run_added ext : forall fuel l1 l2, pmm_wf (l1 ++ ext ++ l2) ->
  Forall (fun e => split_of e.2 = (e.2, [])) ext ->
  run (length ext + fuel) l1 (ext ++ l2) = run fuel (l1 ++ ext) l2.
Proof.
  induction ext as [|[q r] ext IH]; intros fuel l1 l2 Hwf Hst; cbn [length Nat.add app].
  { by rewrite app_nil_r. }
  apply Forall_cons in Hst as [Hr Hst]. cbn in Hr.
  destruct (run_step (length ext + fuel) l1 q r (ext ++ l2) Hwf) as (e0 & -> & He0 & Hwf').
  rewrite Hr in *. apply fmap_nil_inv in He0 as ->. cbn [fst app] in *.
  rewrite IH by done. by rewrite <- app_assoc.
Qed.

Lemma run_spec todo : forall fuel l1, pmm_wf (l1 ++ todo) -> (3 * length todo <= fuel)%nat ->
  exists rs', run fuel l1 todo = Some rs' /\ pmm_wf rs' /\
    rs'.*2 = l1.*2 ++ (todo.*2 ≫= pieces_of).
Proof.
  induction todo as [|[p r] todo IH]; intros fuel l1 Hwf Hf.
  { exists (l1 ++ []). split; [unfold run; cbn; by destruct fuel|]. split; [done|]. by rewrite fmap_app. }
  destruct fuel as [|fuel]; [cbn in Hf; lia|].
  destruct (run_step fuel l1 p r todo Hwf) as (ext & -> & Hext & Hwf').
  assert (length ext <= 2)%nat as Hl by (rewrite <- (length_fmap snd), Hext; apply split_few).
  cbn in Hf. replace fuel with (length ext + (fuel - length ext))%nat by lia.
  rewrite run_added; [|done|].
  2: { apply Forall_forall. intros e He. apply (split_stable r). rewrite <- Hext.
       apply list_elem_of_fmap. by exists e. }
  destruct (IH (fuel - length ext)%nat ((l1 ++ [(p, (split_of r).1)]) ++ ext)) as (rs' & -> & Hwf2 & Hr);
    [by rewrite <- app_assoc|lia|].
  exists rs'. split_and!; [done..|]. rewrite Hr, !fmap_app. csimpl. rewrite Hext.
  by rewrite <- !app_assoc.
Qed.

Lemma for_all_nodes_spec rs : pmm_wf rs ->
  exists rs', for_all_nodes body rs = Some rs' /\ pmm_wf rs' /\ rs'.*2 = rs.*2 ≫= pieces_of.
Proof. intros Hwf. destruct (run_spec rs (4 * length rs) [] Hwf ltac:(lia)) as (rs' & ? & ? & ?). eauto. Qed.
End Walk.

Lemma cover_regions rs x t : cover rs x t <-> exists r, r ∈ rs.*2 /\ rtype r = t /\ inside r x.
Proof.
  unfold cover. setoid_rewrite list_elem_of_fmap. split.
  - intros (e & ? & ? & ?). exists e.2. split_and!; try done. by exists e.
  - intros (r & (e & -> & ?) & ? & ?). by exists e.
Qed.

Lemma cover_bind rs rs' f x t : rs'.*2 = rs.*2 ≫= f ->
  cover rs' x t <-> exists e r, e ∈ rs /\ r ∈ f e.2 /\ rtype r = t /\ inside r x.
Proof.
  intros Hb. rewrite cover_regions, Hb. setoid_rewrite list_elem_of_bind. split.
  - intros (r & (r0 & Hr & (e & -> & He)%list_elem_of_fmap) & ? & ?). by exists e, r.
  - intros (e & r & He & Hr & ? & ?). exists r. split_and!; try done. exists e.2. split; [done|].
    apply list_elem_of_fmap. by exists e.
Qed.

Section Bodies.
Variable malloc : region_list -> region_list * option Z.
Hypotheses (Hquiet : malloc_quiet malloc) (Htotal : malloc_total malloc).

Lemma insert_after_spec l1 p r l2 r' : NoDup (l1 ++ (p, r) :: l2).*1 ->
  exists q, insert_after malloc (l1 ++ (p, r) :: l2) p r' = Some (l1 ++ (p, r) :: (q, r') :: l2) /\
    q <> NULL /\ (q ∉ (l1 ++ (p, r) :: l2).*1).
Proof.
  intros Hnd. unfold insert_after. set (rs := l1 ++ (p, r) :: l2) in *.
  destruct (Hquiet rs) as [H1 H2]. destruct (Htotal rs) as [q Hq].
  destruct (malloc rs) as [rs0 o] eqn:E. cbn in H1, H2, Hq. subst rs0 o. cbn [mbind option_bind].
  rewrite E. exists q. split; [|by apply H2]. cbn [malloc_ok]. unfold rs. rewrite index_of_split by done.
  rewrite (cons_middle (p, r)), app_assoc.
  replace (0 + Z.of_nat (length l1) + 1) with (Z.of_nat (length (l1 ++ [(p, r)]))) by (rewrite length_app; cbn; lia).
  rewrite insert_at_app. cbn [fst]. by rewrite <- app_assoc.
Qed.

(** Pieces of one region in place of it: the list stays well formed. *)
Lemma wf_pieces l1 p r l2 r1 ext : pmm_wf (l1 ++ (p, r) :: l2) -> pieces_ok r ((p, r1) :: ext) ->
  NoDup ext.*1 -> (forall q, q ∈ ext.*1 -> q ∉ (l1 ++ (p, r) :: l2).*1) ->
  pmm_wf (l1 ++ (p, r1) :: ext ++ l2).
Proof.
  intros Hwf Hps Hnd Hfr. apply (wf_replace l1 p r l2 ((p, r1) :: ext) Hwf Hps).
  by apply (NoDup_pieces l1 p r l2 _ ext.*1); [apply Hwf|..].
Qed.

Lemma split_entry l1 p r l2 : pmm_wf (l1 ++ (p, r) :: l2) ->
  NoDup (l1 ++ (p, r) :: l2).*1 /\ p <> NULL /\ 0 <= rbase r /\ 0 < rlen r /\
  rbase r + rlen r < 2 ^ size_bits /\ rend r = rbase r + rlen r.
Proof.
  intros (Hok & Hnd & _). rewrite Forall_app, Forall_cons in Hok. destruct Hok as (_ & Hr & _).
  pose proof (entry_ok_rend _ Hr). destruct Hr as (? & ? & ? & ?). by split_and!.
Qed.

(** *** Below the end of the kernel *)

Definition kernel_split (ke : Z) r : MemoryRegion * list MemoryRegion :=
  if rbase r <? ke then
    if ke <? rbase r + rlen r
    then (mkRegion (rbase r) (ke - rbase r) RESERVED, [mkRegion ke (rbase r + rlen r - ke) USABLE])
    else (mkRegion (rbase r) (rlen r) RESERVED, [])
  else (r, []).

Ltac solve_pieces :=
  split; [repeat constructor; unfold before; cbn; lia
         |repeat constructor; cbn; try done; lia].

Lemma reserve_kernel_step ke l1 p r l2 : pmm_wf (l1 ++ (p, r) :: l2) ->
  exists ext, reserve_kernel_at malloc ke (l1 ++ (p, r) :: l2) p =
      Some (l1 ++ (p, (kernel_split ke r).1) :: ext ++ l2) /\
    ext.*2 = (kernel_split ke r).2 /\ pmm_wf (l1 ++ (p, (kernel_split ke r).1) :: ext ++ l2).
Proof.
  intros Hwf. destruct (split_entry _ _ _ _ Hwf) as (Hnd & Hp & Hb & Hl & Hm & He).
  unfold reserve_kernel_at, kernel_split. rewrite deref_split by done. cbn [mbind option_bind]. rewrite He.
  destruct (Z.ltb_spec (rbase r) ke); cbn [negb]; [|by exists []].
  destruct (Z.ltb_spec ke (rbase r + rlen r)); cbn [fst snd].
  - rewrite assign_split by done. rewrite (wrap_small _ (ke - rbase r)) by lia.
    rewrite (wrap_small _ (rbase r + rlen r - ke)) by lia.
    set (r1 := mkRegion (rbase r) (ke - rbase r) (rtype r)).
    assert (NoDup (l1 ++ (p, r1) :: l2).*1) as Hnd1 by (by rewrite fmap_app in *).
    destruct (insert_after_spec l1 p r1 l2 (mkRegion ke (rbase r + rlen r - ke) USABLE) Hnd1)
      as (q & -> & Hq0 & Hq).
    cbn [mbind option_bind].
    assert (NoDup (l1 ++ (p, r1) :: (q, mkRegion ke (rbase r + rlen r - ke) USABLE) :: l2).*1) as Hnd2.
    { apply (NoDup_pieces l1 p r1 l2 [(p, r1); _] [q]); [done..|apply NoDup_singleton|].
      by intros ? ->%list_elem_of_singleton. }
    rewrite deref_split by done. cbn [mbind option_bind]. rewrite assign_split by done.
    eexists [(q, _)]. split; [done|]. split; [done|].
    apply (wf_pieces l1 p r l2); [done| |apply NoDup_singleton|].
    + solve_pieces.
    + intros ? ->%list_elem_of_singleton. by rewrite fmap_app in *.
  - cbn [mbind option_bind]. rewrite deref_split by done. cbn [mbind option_bind].
    rewrite assign_split by done. exists [].
    split; [done|]. split; [done|]. by apply wf_retype.
Qed.

(** *** The framebuffer *)

Definition fb_split (fs size : Z) r : MemoryRegion * list MemoryRegion :=
  let fe := fs + size in let re := rbase r + rlen r in
  if (rbase r <? fe) && (fs <? re) then
    if (rbase r <? fs) && (fe <? re)
    then (mkRegion (rbase r) (fs - rbase r) (rtype r),
          [mkRegion fs size RESERVED; mkRegion fe (re - fe) (rtype r)])
    else if (rbase r <? fs) && (re <=? fe) then (mkRegion (rbase r) (fs - rbase r) (rtype r), [])
    else if (fs <=? rbase r) && (fe <? re) then (mkRegion fe (re - fe) (rtype r), [])
    else (mkRegion (rbase r) (rlen r) RESERVED, [])
  else (r, []).

Lemma reserve_fb_step fs size l1 p r l2 : 0 < fs -> 0 < size -> fs + size < 2 ^ size_bits ->
  pmm_wf (l1 ++ (p, r) :: l2) ->
  exists ext, reserve_fb_at malloc fs size (l1 ++ (p, r) :: l2) p =
      Some (l1 ++ (p, (fb_split fs size r).1) :: ext ++ l2) /\
    ext.*2 = (fb_split fs size r).2 /\ pmm_wf (l1 ++ (p, (fb_split fs size r).1) :: ext ++ l2).
Proof.
  intros Hfs Hsz Hfb Hwf. destruct (split_entry _ _ _ _ Hwf) as (Hnd & Hp & Hb & Hl & Hm & He).
  assert (forall r1, pieces_ok r [(p, r1)] -> pmm_wf (l1 ++ (p, r1) :: [] ++ l2)) as Hone.
  { intros r1 Hps. apply (wf_pieces l1 p r l2 r1 []); [done..|constructor|by intros ? ?%elem_of_nil]. }
  unfold reserve_fb_at, fb_split. rewrite deref_split by done. cbn [mbind option_bind].
  rewrite He, (wrap_small _ (fs + size)) by lia.
  destruct (Z.ltb_spec (rbase r) (fs + size)); cbn [andb negb]; [|by exists []].
  destruct (Z.ltb_spec fs (rbase r + rlen r)); cbn [andb negb]; [|by exists []].
  destruct (Z.ltb_spec (rbase r) fs); cbn [andb].
  - destruct (Z.ltb_spec (fs + size) (rbase r + rlen r)).
    + rewrite assign_split by done. rewrite (wrap_small _ (fs - rbase r)) by lia.
      set (r1 := mkRegion (rbase r) (fs - rbase r) (rtype r)).
      assert (NoDup (l1 ++ (p, r1) :: l2).*1) as Hnd1 by (by rewrite fmap_app in *).
      destruct (insert_after_spec l1 p r1 l2 (mkRegion (fs + size) ((rbase r + rlen r) -[size_bits] (fs + size)) (rtype r)) Hnd1)
        as (q & -> & Hq0 & Hq).
      cbn [mbind option_bind]. rewrite wrap_small by lia. set (r2 := mkRegion (fs + size) _ (rtype r)).
      assert (NoDup (l1 ++ (p, r1) :: (q, r2) :: l2).*1) as Hnd2.
      { apply (NoDup_pieces l1 p r1 l2 [(p, r1); _] [q]); [done..|apply NoDup_singleton|].
        by intros ? ->%list_elem_of_singleton. }
      destruct (insert_after_spec l1 p r1 ((q, r2) :: l2) (mkRegion fs size RESERVED) Hnd2) as (q2 & -> & Hq20 & Hq2).
      eexists [(q2, _); (q, _)]. split; [done|]. split; [done|].
      rewrite fmap_app, !fmap_cons in Hq2. rewrite fmap_app, fmap_cons in Hq. cbn in Hq, Hq2.
      apply (wf_pieces l1 p r l2); [done| |csimpl; apply NoDup_cons; split; [|apply NoDup_singleton]; set_solver|].
      * solve_pieces.
      * intros q' Hq'. rewrite fmap_app, fmap_cons. cbn. set_solver.
    + destruct (Z.leb_spec (rbase r + rlen r) (fs + size)); [|lia].
      rewrite assign_split, wrap_small by (done || lia). exists []. split; [done|]. split; [done|].
      apply Hone. solve_pieces.
  - destruct (Z.leb_spec fs (rbase r)); [|lia]. cbn [andb].
    destruct (Z.ltb_spec (fs + size) (rbase r + rlen r)); rewrite assign_split by done; exists [].
    + rewrite wrap_small by lia. split; [done|]. split; [done|]. apply Hone. solve_pieces.
    + split; [done|]. split; [done|]. by apply wf_retype.
Qed.

Lemma kernel_pass ke rs : pmm_wf rs ->
  exists rs', for_all_nodes (reserve_kernel_at malloc ke) rs = Some rs' /\ pmm_wf rs' /\
    forall x, cover rs' x USABLE <->
      ke <= x /\ (cover rs x USABLE \/ exists e, e ∈ rs /\ rbase e.2 < ke /\ inside e.2 x).
Proof.
  intros Hwf. destruct (for_all_nodes_spec (reserve_kernel_at malloc ke) (kernel_split ke)
    (reserve_kernel_step ke)) with (rs := rs) as (rs' & Hl & Hwf' & Hrs); [| |done|].
  - intros r. unfold kernel_split. split_ifs; cbn; lia.
  - intros r r'. unfold kernel_split at 1. split_ifs; cbn [snd]; intros Hin;
      try by apply elem_of_nil in Hin. apply list_elem_of_singleton in Hin as ->.
    unfold kernel_split. cbn. by rewrite Z.ltb_irrefl.
  - exists rs'. split_and!; try done. intros x. rewrite (cover_bind _ _ _ _ _ Hrs).
    unfold pieces_of, kernel_split, cover, inside. split.
    + intros (e & r & He & Hr & Ht & Hx).
      destruct (Z.ltb_spec (rbase e.2) ke); [destruct (Z.ltb_spec ke (rbase e.2 + rlen e.2))|]; cbn in Hr.
      * apply elem_of_cons in Hr as [->| ->%list_elem_of_singleton]; [done|]. cbn in *.
        split; [lia|]. right. exists e. split_and!; try done; lia.
      * by apply list_elem_of_singleton in Hr as ->.
      * apply list_elem_of_singleton in Hr as ->. split; [lia|]. left. by exists e.
    + intros [Hke Hx].
      assert (exists e, e ∈ rs /\ rbase e.2 <= x < rbase e.2 + rlen e.2 /\ (rbase e.2 < ke \/ rtype e.2 = USABLE))
        as (e & He & Hx' & Hor) by naive_solver.
      destruct (Z.ltb_spec (rbase e.2) ke) as [Hlt|Hge].
      * exists e, (mkRegion ke (rbase e.2 + rlen e.2 - ke) USABLE). split; [done|].
        rewrite (proj2 (Z.ltb_lt _ _) Hlt), (proj2 (Z.ltb_lt ke _)) by lia. split; [|cbn; split; [done|lia]].
        right. by left.
      * exists e, e.2. split; [done|]. rewrite (proj2 (Z.ltb_ge _ _) Hge). split; [by left|].
        destruct Hor; [lia|done].
Qed.

Lemma fb_pass fs size rs : 0 < fs -> 0 < size -> fs + size < 2 ^ size_bits -> pmm_wf rs ->
  exists rs', for_all_nodes (reserve_fb_at malloc fs size) rs = Some rs' /\ pmm_wf rs' /\
    forall x, cover rs' x USABLE <-> cover rs x USABLE /\ ~ (fs <= x < fs + size).
Proof.
  intros Hfs Hsz Hfb Hwf. destruct (for_all_nodes_spec (reserve_fb_at malloc fs size) (fb_split fs size)
    (fun l1 p r l2 => reserve_fb_step fs size l1 p r l2 Hfs Hsz Hfb)) with (rs := rs)
    as (rs' & Hl & Hwf' & Hrs); [| |done|].
  - intros r. unfold fb_split. split_ifs; cbn; lia.
  - intros r r'. unfold fb_split at 1. split_ifs; cbn [snd]; intros Hin;
      try by apply elem_of_nil in Hin.
    apply elem_of_cons in Hin as [->| ->%list_elem_of_singleton]; unfold fb_split; cbn.
    + split_ifs; try done; lia.
    + by rewrite Z.ltb_irrefl.
  - exists rs'. split_and!; try done. intros x. rewrite (cover_bind _ _ _ _ _ Hrs).
    unfold pieces_of, fb_split, cover, inside. split.
    + intros (e & r & He & Hr & Ht & Hx). pose proof Hwf as (Hok & _). rewrite Forall_forall in Hok.
      destruct (Hok _ He) as (_ & ? & ? & ?).
      split_ifs_in Hr; cbn in Hr; rewrite ?elem_of_cons, ?elem_of_nil in Hr; destruct_or? Hr; subst;
        try done; cbn in *; (split; [exists e; split_and!; try done; lia|lia]).
    + intros [(e & He & Ht & Hx) Hout]. exists e.
      enough (exists r, (r ∈ (fb_split fs size e.2).1 :: (fb_split fs size e.2).2) /\ rtype r = USABLE /\
        rbase r <= x < rbase r + rlen r) as (r & ?) by (by exists r).
      unfold fb_split. destruct (Z.lt_ge_cases x fs); split_ifs; cbn [fst snd];
        first [ eexists; split; [by left|]; cbn; split; [done|lia]
              | eexists; split; [by right; right; left|]; cbn; split; [done|lia]
              | exfalso; lia ].
Qed.

End Bodies.
End Loops.

(** ** Concrete runs (x86_64) *)

#[local] Instance demo_arch : Arch := AMD64.

(** A heap that always has room: the object gets an address above the others. *)
Definition demo_malloc (rs : region_list) : region_list * option Z :=
  (rs, Some (1 + foldr Z.max 0 rs.*1)).

Lemma demo_malloc_quiet : malloc_quiet demo_malloc.
Proof.
  intros rs. split; [done|]. intros q [= <-].
  assert (forall l : list Z, 0 <= foldr Z.max 0 l /\ forall x, x ∈ l -> x <= foldr Z.max 0 l) as H.
  { induction l as [|y l [IH1 IH2]]; cbn; [split; [done|by intros ? ?%elem_of_nil]|].
    split; [lia|]. intros x [->|Hx]%elem_of_cons; [lia|]. specialize (IH2 x Hx). lia. }
  destruct (H rs.*1) as [H1 H2]. split; [unfold NULL; lia|]. intros Hin%H2. lia.
Qed.

Lemma demo_malloc_total : malloc_total demo_malloc.
Proof. intros rs. by eexists. Qed.

Definition demo_regions : region_list :=
  [(1, mkRegion 0 0x800 RESERVED); (2, mkRegion 0x800 0x10000 USABLE); (3, mkRegion 0x20000 0x1000 RESERVED)].

Lemma demo_regions_wf : pmm_wf demo_regions.
Proof.
  split_and!.
  - repeat constructor; done.
  - apply (bool_decide_unpack _). by vm_compute.
  - repeat constructor; done.
Qed.



Lemma pmm_free_spec_witness :
  (exists e rs', e ∈ demo_regions /\ rbase e.2 = 0x20000 /\ rtype e.2 <> USABLE /\
     pmm_free (Some demo_regions) 0x20010 = Some (Some rs') /\ pmm_wf rs' /\
     forall x t, cover rs' x t <-> if decide (inside e.2 x) then t = USABLE else cover demo_regions x t) \/
  (pmm_free (Some demo_regions) 0x20010 = Some (Some demo_regions) /\
     forall e, e ∈ demo_regions -> rbase e.2 = 0x20000 -> rtype e.2 = USABLE).
Proof. apply (pmm_free_spec demo_regions 0x20010 demo_regions_wf). split; done. Defined.

(** A multiboot2 map with one usable entry of 256 MiB. *)
Definition demo_mmap : multiboot_tag_mmap := mkMmap 40 24 (fun _ => (0x1000, 0x10000000, 1)).
Definition demo_fb : framebuffer := mkFb 0x8000000 4096 768.


(** ** Behaviour outside the contract *)

(** [pmm_maintain] on a list that is not sorted makes bytes between two USABLE
    regions USABLE, although no region covered them. *)
Lemma maintain_swallows_gap :
  let rs := [(1, mkRegion 0x10000 0x1000 USABLE); (2, mkRegion 0x1000 0x1000 USABLE)] in
  pmm_maintain rs = [(1, mkRegion 0x1000 0x10000 USABLE)].
Proof. by vm_compute. Qed.

(** The kernel pass turns the tail of a RESERVED region that straddles the
    kernel's end into USABLE memory. *)
Lemma kernel_pass_frees_reserved_tail :
  for_all_nodes (reserve_kernel_at demo_malloc 0x400000) [(1, mkRegion 0x300000 0x200000 RESERVED)] =
  Some [(1, mkRegion 0x300000 0x100000 RESERVED); (2, mkRegion 0x400000 0x100000 USABLE)].
Proof. by vm_compute. Qed.

(** The heap may grow while [pmm_alloc] allocates its own records: the first
    [malloc] of this run takes 8 KiB from the memory manager. *)
Definition growing_malloc (rs : region_list) : region_list * option Z :=
  if bool_decide (length rs = 1%nat)
  then match pmm_alloc demo_malloc (Some rs) 8 with
       | Some (Some rs', _) => (rs', (demo_malloc rs').2)
       | _ => (rs, None)
       end
  else demo_malloc rs.

(** The nested call and the outer call then return the same run. *)
Lemma reentrant_alloc_returns_a_run_twice :
  let rs := [(1, mkRegion 0x800 0x10000 USABLE)] in
  (snd <$> pmm_alloc demo_malloc (Some rs) 8) = Some 0x1000 /\
  (snd <$> pmm_alloc growing_malloc (Some rs) 8) = Some 0x1000.
Proof. by vm_compute. Qed.
