(* ===== verification/VfsPath.v ===== *)
(** * Paths of the virtual file system ([kernel/filesystem/VFS.c])

    Normalisation of absolute paths, the prefix test of the cache and the
    choice of a mount.  A path is the list of its bytes up to the terminator
    (so the end of the list is the NUL byte); ['/'] is 47, ['.'] is 46. *)

From S2P Require Import Prelude Bytes CString.

Inductive VFSResult :=
| VFS_RES_OK | VFS_RES_ERROR | VFS_RES_NOT_FOUND | VFS_RES_INVALID | VFS_RES_UNSUPPORTED
| VFS_RES_NO_MEMORY | VFS_RES_EXISTS | VFS_RES_BUSY | VFS_RES_NO_SPACE | VFS_RES_ACCESS.

#[export] Instance VFSResult_eq_dec : EqDecision VFSResult.
Proof. solve_decision. Defined.

Definition VFS_NAME_MAX : Z := 255.
Definition VFS_PATH_MAX : Z := 1024.
Definition VFS_MAX_SEGMENTS : Z := VFS_PATH_MAX / 2.

Definition SLASH : Z := 47.
Definition DOT : Z := 46.


(** [while ( *p == '/') p++]. *)
Fixpoint skip_slashes (p : bytes) : bytes :=
  match p with c :: p' => if c =? SLASH then skip_slashes p' else p | [] => [] end.

(** [while ( *p && *p != '/')]: the segment and what follows. *)
Fixpoint take_segment (p : bytes) : bytes * bytes :=
  match p with
  | [] => ([], [])
  | c :: p' => if c =? SLASH then ([], p)
               else let '(seg, rest) := take_segment p' in (c :: seg, rest)
  end.

(** The main loop.  [out] is the content of [out_path] (its length is [len]),
    [offs] the array [offsets] up to [depth], the last entry first. *)
Fixpoint normalize_loop (fuel : nat) (out_size : Z) (p out : bytes) (offs : list Z)
  : option (VFSResult * bytes) :=
  match fuel with
  | O => None
  | S fuel =>
    match p with
    | [] => Some (VFS_RES_OK, out)
    | _ =>
      let '(seg, rest) := take_segment p in
      let next := normalize_loop fuel out_size (skip_slashes rest) in
      if zlen seg =? 0 then next out offs
      else if VFS_NAME_MAX <? zlen seg then Some (VFS_RES_INVALID, out)
      else if bool_decide (seg = [DOT]) then next out offs
      else if bool_decide (seg = [DOT; DOT])
      then match offs with
           | [] => next out offs
           | l :: offs' => next (take (Z.to_nat l) out) offs'
           end
      else
        if (1 <? zlen out) && (out_size <=? zlen out + 1) then Some (VFS_RES_NO_SPACE, out)
        else
          let out := if 1 <? zlen out then out ++ [SLASH] else out in
          if out_size <=? zlen out + zlen seg then Some (VFS_RES_NO_SPACE, out)
          else
            let out := out ++ seg in
            let offs := if Z.of_nat (length offs) <? VFS_MAX_SEGMENTS then zlen out :: offs else offs in
            next out offs
    end
  end.

Definition vfs_normalize_path (path : option bytes) (out_size : Z) : option (VFSResult * bytes) :=
  match path with
  | None => Some (VFS_RES_INVALID, [])
  | Some path =>
      if out_size =? 0 then Some (VFS_RES_INVALID, [])
      else match path with
           | [] => if out_size <? 2 then Some (VFS_RES_NO_SPACE, []) else Some (VFS_RES_OK, [SLASH])
           | c :: _ =>
               if negb (c =? SLASH) then Some (VFS_RES_INVALID, [])
               else normalize_loop (S (length path)) out_size (skip_slashes path) [SLASH] []
           end
  end.

(** [path_at p i]: the byte [p[i]], the terminator at the end. *)
Definition path_at (p : bytes) (i : Z) : Z := default 0 (p !! Z.to_nat i).

Definition strncmp_is_0 (a b : bytes) (n : Z) : bool :=
  match strncmp (Some (cstr a)) (Some (cstr b)) n with Some r => r =? 0 | None => false end.

Definition vfs_cache_path_is_under (path prefix : bytes) : bool :=
  let prefix_len := zlen prefix in
  if prefix_len =? 0 then false
  else if negb (strncmp_is_0 path prefix prefix_len) then false
  else if path_at path prefix_len =? 0 then true
  else if path_at prefix (prefix_len - 1) =? SLASH then true
  else path_at path prefix_len =? SLASH.

(** ** Segments: what a path means *)

(** The non-empty pieces between slashes. *)
Fixpoint segments_from (cur p : bytes) : list bytes :=
  match p with
  | [] => emit cur
  | c :: p' => if c =? SLASH then emit cur ++ segments_from [] p' else segments_from (cur ++ [c]) p'
  end.
Definition segments (p : bytes) : list bytes := segments_from [] p.

Fixpoint render_tail (segs : list bytes) : bytes :=
  match segs with [] => [] | s :: segs' => SLASH :: s ++ render_tail segs' end.
Definition render (segs : list bytes) : bytes :=
  match segs with [] => [SLASH] | _ => render_tail segs end.

(** A proper name: not empty, no slash, no NUL, not [.] or [..], at most 255
    bytes. *)
Definition clean (s : bytes) : Prop :=
  s <> [] /\ (SLASH ∉ s) /\ (0 ∉ s) /\ s <> [DOT] /\ s <> [DOT; DOT] /\ zlen s <= VFS_NAME_MAX.

(** What the loop does with the segments: [..] goes back to where the path
    stood when the entry on top of the stack was pushed. *)
Definition norm_step (st : list bytes * list nat) (seg : bytes) : list bytes * list nat :=
  if bool_decide (seg = [DOT]) then st
  else if bool_decide (seg = [DOT; DOT])
  then match st.2 with [] => st | c :: cs => (take c st.1, cs) end
  else (st.1 ++ [seg], S (length st.1) :: st.2).

Definition norm_segments (segs : list bytes) : list bytes := (foldl norm_step ([], []) segs).1.

(** *** Splitting *)

Lemma segments_from_app cur p : (SLASH ∉ cur) ->
  segments_from cur p =
  let '(seg, rest) := take_segment p in emit (cur ++ seg) ++ segments (skip_slashes rest).
Proof.
  revert cur; induction p as [|c p IH]; intros cur Hc; cbn [segments_from take_segment].
  { cbn. rewrite !app_nil_r. done. }
  destruct (Z.eqb_spec c SLASH) as [->|Hne].
  - cbn [skip_slashes]. rewrite Z.eqb_refl, app_nil_r. f_equal. unfold segments.
    clear. induction p as [|c p IH]; [done|]. cbn [segments_from skip_slashes].
    destruct (Z.eqb_spec c SLASH); [by cbn|]. cbn [segments_from].
    destruct (Z.eqb_spec c SLASH); [done|]. done.
  - rewrite IH by set_solver. destruct (take_segment p) as [seg rest]. by rewrite <- app_assoc.
Qed.

Lemma segments_cons p : segments p =
  let '(seg, rest) := take_segment p in emit seg ++ segments (skip_slashes rest).
Proof. unfold segments at 1. rewrite segments_from_app by set_solver. done. Qed.

Lemma take_segment_spec p seg rest : take_segment p = (seg, rest) ->
  p = seg ++ rest /\ (SLASH ∉ seg) /\ (rest = [] \/ exists r, rest = SLASH :: r).
Proof.
  revert seg rest; induction p as [|c p IH]; intros seg rest; cbn [take_segment].
  { intros [= <- <-]. split_and!; try done; [set_solver|by left]. }
  destruct (Z.eqb_spec c SLASH) as [->|Hne].
  { intros [= <- <-]. split_and!; try done; [set_solver|]. right. eauto. }
  destruct (take_segment p) as [seg0 rest0]. intros [= <- <-].
  destruct (IH _ _ eq_refl) as (-> & ? & ?). split_and!; try done. set_solver.
Qed.

Lemma skip_slashes_length p : (length (skip_slashes p) <= length p)%nat.
Proof. induction p as [|c p IH]; [done|]. cbn. destruct (c =? SLASH); cbn; lia. Qed.

Lemma skip_slashes_head p : match skip_slashes p with [] => True | c :: _ => c <> SLASH end.
Proof.
  induction p as [|c p IH]; [done|]. cbn. destruct (Z.eqb_spec c SLASH); [done|]. done.
Qed.

Lemma segments_skip p : segments (skip_slashes p) = segments p.
Proof.
  induction p as [|c p IH]; [done|]. cbn [skip_slashes].
  destruct (Z.eqb_spec c SLASH) as [->|]; [|done]. rewrite IH. unfold segments. cbn [segments_from].
  by rewrite Z.eqb_refl.
Qed.

(** *** Rendering *)

Lemma render_tail_app a b : render_tail (a ++ b) = render_tail a ++ render_tail b.
Proof. induction a as [|s a IH]; [done|]. cbn. by rewrite IH, <- app_assoc. Qed.

Lemma render_tail_len segs : Forall (fun s => s <> []) segs ->
  2 * Z.of_nat (length segs) <= zlen (render_tail segs).
Proof.
  induction 1 as [|s segs Hs _ IH]; [done|]. cbn [render_tail length].
  rewrite zlen_cons, zlen_app. pose proof (zlen_zero s). pose proof (zlen_nonneg s).
  assert (zlen s <> 0) by tauto. lia.
Qed.

Lemma render_len segs : Forall (fun s => s <> []) segs ->
  2 * Z.of_nat (length segs) <= zlen (render segs) /\ 1 <= zlen (render segs) /\
  (1 < zlen (render segs) <-> segs <> []).
Proof.
  intros H. destruct segs as [|s segs]; [done|]. pose proof (render_tail_len _ H) as Hl.
  unfold render. cbn [length] in *. split_and!; try lia. split; [done|lia].
Qed.

(** Appending a segment, as the loop does it. *)
Lemma render_snoc segs s : Forall (fun s => s <> []) segs ->
  render (segs ++ [s]) =
  (if 1 <? zlen (render segs) then render segs ++ [SLASH] else render segs) ++ s.
Proof.
  intros H. destruct (render_len _ H) as (_ & _ & Hl). destruct segs as [|s0 segs].
  { cbn. by rewrite app_nil_r. }
  destruct (Z.ltb_spec 1 (zlen (render (s0 :: segs)))); [|naive_solver lia].
  unfold render. cbn [app].
  change (s0 :: segs ++ [s]) with ((s0 :: segs) ++ [s]). rewrite render_tail_app. cbn.
  rewrite app_nil_r, <- !app_assoc. done.
Qed.

(** Cutting back to the first [c] segments. *)
Lemma render_take segs c : (1 <= c)%nat ->
  take (Z.to_nat (zlen (render (take c segs)))) (render segs) = render (take c segs).
Proof.
  intros Hc. unfold zlen. rewrite Nat2Z.id. destruct segs as [|s segs]; [by destruct c|].
  destruct c as [|c]; [lia|]. cbn [take]. unfold render.
  rewrite <- (take_drop c segs) at 2. change (s :: take c segs ++ drop c segs) with ((s :: take c segs) ++ drop c segs).
  rewrite render_tail_app. apply take_app_length.
Qed.

Definition decreasing (cnts : list nat) : Prop :=
  forall i c d, cnts !! i = Some c -> cnts !! S i = Some d -> (d < c)%nat.

Lemma decreasing_cons c cnts : decreasing (c :: cnts) ->
  decreasing cnts /\ Forall (fun d => d < c)%nat cnts.
Proof.
  intros H. split; [intros i; apply (H (S i))|]. apply Forall_lookup.
  intros i. induction i as [|i IH]; intros d Hd; [by apply (H 0%nat)|].
  destruct (cnts !! i) as [e|] eqn:Ei.
  - specialize (H (S i) e d Ei Hd). specialize (IH e eq_refl). lia.
  - apply lookup_ge_None in Ei. apply lookup_lt_Some in Hd. lia.
Qed.

Lemma decreasing_length cnts n : decreasing cnts -> Forall (fun c => 1 <= c <= n)%nat cnts ->
  (length cnts <= n)%nat.
Proof.
  revert n; induction cnts as [|c cnts IH]; intros n Hd H; cbn; [lia|].
  apply decreasing_cons in Hd as [Hd Hlt]. apply Forall_cons in H as [Hc H].
  assert (length cnts <= c - 1)%nat; [|lia]. apply IH; [done|].
  apply Forall_forall. intros d Hin. rewrite Forall_forall in H, Hlt.
  specialize (H d Hin). specialize (Hlt d Hin). lia.
Qed.

(** The loop's offsets are those of the stack of segment counts. *)
Definition stack_ok (segs : list bytes) (cnts : list nat) (offs : list Z) : Prop :=
  Forall (fun s => s <> []) segs /\
  Forall (fun c => 1 <= c <= length segs)%nat cnts /\
  decreasing cnts /\
  offs = (fun c => zlen (render (take c segs))) <$> cnts.

Lemma stack_ok_pop segs c cnts offs : stack_ok segs (c :: cnts) offs ->
  exists offs', offs = zlen (render (take c segs)) :: offs' /\ (1 <= c <= length segs)%nat /\
    stack_ok (take c segs) cnts offs'.
Proof.
  intros (H1 & H2 & H3 & ->). apply Forall_cons in H2 as [Hc H2]. eexists. split; [done|].
  split; [done|].
  apply decreasing_cons in H3 as [H3 Hle].
  split_and!.
  - by apply Forall_take.
  - rewrite length_take. apply Forall_forall. intros d Hd. rewrite Forall_forall in H2, Hle.
    specialize (H2 d Hd). specialize (Hle d Hd). lia.
  - done.
  - apply list_fmap_ext. intros i d Hd. rewrite Forall_lookup in Hle. specialize (Hle i d Hd).
    rewrite take_take. do 3 f_equal. lia.
Qed.

Lemma stack_ok_push segs cnts offs s : s <> [] -> stack_ok segs cnts offs ->
  stack_ok (segs ++ [s]) (S (length segs) :: cnts) (zlen (render (segs ++ [s])) :: offs).
Proof.
  intros Hs (H1 & H2 & H3 & ->). split_and!.
  - apply Forall_app. split; [done|]. by constructor.
  - rewrite length_app. cbn. constructor; [lia|]. eapply Forall_impl; [exact H2|]. cbn. lia.
  - intros [|i] c d; cbn.
    + intros [= <-] Hd. rewrite Forall_lookup in H2. specialize (H2 _ _ Hd). cbn in H2. lia.
    + apply H3.
  - cbn. f_equal.
    + rewrite take_ge; [done|]. rewrite length_app. cbn. lia.
    + apply list_fmap_ext. intros i d Hd. rewrite Forall_lookup in H2. specialize (H2 _ _ Hd). cbn in H2.
      rewrite take_app_le by lia. done.
Qed.

Lemma stack_ok_depth segs cnts offs : stack_ok segs cnts offs -> (length offs <= length segs)%nat.
Proof. intros (_ & H2 & H3 & ->). rewrite length_fmap. by apply decreasing_length. Qed.

(** *** The loop *)

(** Room the loop may still need. *)
Definition need (out p : bytes) : Z :=
  zlen out + match p with [] => 0 | _ => zlen p + if 1 <? zlen out then 1 else 0 end.

(** Progress: the segment and its slashes are consumed. *)
Lemma take_segment_progress p seg rest : p <> [] -> (forall r, p <> SLASH :: r) ->
  take_segment p = (seg, rest) ->
  seg <> [] /\ zlen p = zlen seg + zlen rest /\ (length (skip_slashes rest) < length p)%nat /\
  (rest = [] \/ zlen (skip_slashes rest) + 1 <= zlen rest) /\
  (forall r, skip_slashes rest <> SLASH :: r).
Proof.
  intros Hp Hns Ht. destruct (take_segment_spec _ _ _ Ht) as (-> & Hs & Hr).
  assert (seg <> []) as Hseg.
  { intros ->. destruct Hr as [->|[r ->]]; [done|]. by destruct (Hns r). }
  pose proof (skip_slashes_length rest). rewrite zlen_app.
  assert (length seg <> 0)%nat by (by destruct seg).
  split_and!; try done.
  - rewrite length_app. lia.
  - destruct Hr as [->|[r ->]]; [by left|right]. cbn [skip_slashes]. rewrite Z.eqb_refl.
    pose proof (skip_slashes_length r). unfold zlen. cbn. lia.
  - intros r Hr'. pose proof (skip_slashes_head rest) as Hh. by rewrite Hr' in Hh.
Qed.

Lemma need_shrink out out' p p' : 1 <= zlen out' <= zlen out -> p <> [] -> zlen p' <= zlen p ->
  need out' p' <= need out p.
Proof.
  intros Ho Hp Hl. unfold need. pose proof (zlen_nonneg p).
  destruct p' as [|c' p']; destruct p as [|c p]; try done;
    destruct (Z.ltb_spec 1 (zlen out')), (Z.ltb_spec 1 (zlen out)); lia.
Qed.

(** What the loop returns from the state [(segs, cnts)] with [p] to go. *)
Definition good (out_size : Z) (p : bytes) (segs : list bytes) (cnts : list nat)
  (res : VFSResult * bytes) : Prop :=
  (res.1 = VFS_RES_OK -> res.2 = render (foldl norm_step (segs, cnts) (segments p)).1 /\
     zlen res.2 < out_size /\ Forall (fun s => zlen s <= VFS_NAME_MAX) (segments p)) /\
  (res.1 = VFS_RES_OK \/ res.1 = VFS_RES_INVALID \/ res.1 = VFS_RES_NO_SPACE) /\
  (Forall (fun s => zlen s <= VFS_NAME_MAX) (segments p) -> need (render segs) p < out_size ->
   res.1 = VFS_RES_OK).

(** One round of the loop: the segment [seg] moves the state to [(segs', cnts')]. *)
Lemma good_step out_size p seg p' segs cnts segs' cnts' res :
  segments p = seg :: segments p' -> zlen seg <= VFS_NAME_MAX ->
  norm_step (segs, cnts) seg = (segs', cnts') ->
  (need (render segs) p < out_size -> need (render segs') p' < out_size) ->
  good out_size p' segs' cnts' res -> good out_size p segs cnts res.
Proof.
  intros Hsegs Hs Hst Hneed (H1 & H2 & H3). split; [|split; [done|]]; rewrite Hsegs.
  - cbn [foldl]. rewrite Hst. intros (? & ? & ?)%H1. split_and!; try done. by constructor.
  - intros [_ Hall]%Forall_cons Hn. auto.
Qed.

Lemma good_stop out_size p segs cnts out r :
  r = VFS_RES_INVALID /\ ~ Forall (fun s => zlen s <= VFS_NAME_MAX) (segments p) \/
  r = VFS_RES_NO_SPACE /\ out_size <= need (render segs) p ->
  good out_size p segs cnts (r, out).
Proof.
  intros H. split_and!; cbn; [|naive_solver|].
  - intros ->. naive_solver.
  - intros. destruct H as [[_ ?]|[_ ?]]; [done|lia].
Qed.

(** The branch that appends a segment. *)
Lemma push_good out_size fuel p seg rest segs cnts offs :
  out_size <= VFS_PATH_MAX -> p <> [] -> zlen p = zlen seg + zlen rest ->
  (rest = [] \/ zlen (skip_slashes rest) + 1 <= zlen rest) ->
  segments p = seg :: segments (skip_slashes rest) -> seg <> [] -> zlen seg <= VFS_NAME_MAX ->
  seg <> [DOT] -> seg <> [DOT; DOT] -> stack_ok segs cnts offs ->
  (forall segs' cnts' offs', stack_ok segs' cnts' offs' -> zlen (render segs') < out_size ->
     exists res, normalize_loop fuel out_size (skip_slashes rest) (render segs') offs' = Some res /\
       good out_size (skip_slashes rest) segs' cnts' res) ->
  exists res,
    (if (1 <? zlen (render segs)) && (out_size <=? zlen (render segs) + 1) then Some (VFS_RES_NO_SPACE, render segs)
     else
       let out := if 1 <? zlen (render segs) then render segs ++ [SLASH] else render segs in
       if out_size <=? zlen out + zlen seg then Some (VFS_RES_NO_SPACE, out)
       else
         let out := out ++ seg in
         let offs := if Z.of_nat (length offs) <? VFS_MAX_SEGMENTS then zlen out :: offs else offs in
         normalize_loop fuel out_size (skip_slashes rest) out offs) = Some res /\
    good out_size p segs cnts res.
Proof.
  intros Hos Hp Hlen Hrest Hsegs Hseg Hsmall Hd Hdd Hst Hnext. cbv zeta.
  pose proof (zlen_nonneg seg). pose proof (zlen_nonneg rest). pose proof (zlen_nonneg (skip_slashes rest)).
  assert (need (render segs) p = zlen (render segs) + zlen p + if 1 <? zlen (render segs) then 1 else 0) as Hneed.
  { unfold need. destruct p; [done|]. lia. }
  pose proof (render_snoc segs seg ltac:(apply Hst)) as Hsnoc.
  set (out1 := if 1 <? zlen (render segs) then render segs ++ [SLASH] else render segs) in *.
  assert (zlen out1 = zlen (render segs) + if 1 <? zlen (render segs) then 1 else 0) as Ho1.
  { unfold out1. destruct (1 <? zlen (render segs)); [rewrite zlen_app; done|lia]. }
  destruct (_ && _) eqn:E1.
  { apply andb_true_iff in E1 as [Eb E1%Z.leb_le]. rewrite Eb in Hneed.
    eexists. split; [done|]. apply good_stop. right. pose proof (zlen_nonneg p). split; [done|lia]. }
  destruct (Z.leb_spec out_size (zlen out1 + zlen seg));
    [eexists; split; [done|]; apply good_stop; right; split; [done|lia]|].
  pose proof (stack_ok_push segs cnts offs seg Hseg Hst) as Hst'.
  destruct (render_len (segs ++ [seg]) ltac:(apply Hst')) as (Hr2 & _).
  rewrite Hsnoc, zlen_app, length_app in Hr2. cbn [length] in Hr2. pose proof (stack_ok_depth _ _ _ Hst).
  destruct (Z.ltb_spec (Z.of_nat (length offs)) VFS_MAX_SEGMENTS) as [_|Hov].
  2: { change VFS_MAX_SEGMENTS with 512 in Hov. change VFS_PATH_MAX with 1024 in Hos. clear -Hov Hos H2 H3 Hr2. lia. }
  rewrite <- Hsnoc. destruct (Hnext _ _ _ Hst') as (res & Hl & Hg); [rewrite Hsnoc, zlen_app; lia|].
  exists res. split; [done|]. eapply good_step; [done..| | |exact Hg].
  - unfold norm_step. by rewrite !bool_decide_eq_false_2.
  - intros Hn. unfold need. rewrite Hsnoc, zlen_app.
    destruct (Z.ltb_spec 1 (zlen out1 + zlen seg)); destruct Hrest as [->|Hrest]; cbn [skip_slashes];
      [lia| |lia|]; destruct (skip_slashes rest); lia.
Qed.

Lemma normalize_loop_good out_size fuel : out_size <= VFS_PATH_MAX ->
  forall p segs cnts offs, (length p < fuel)%nat -> (forall r, p <> SLASH :: r) ->
  stack_ok segs cnts offs -> zlen (render segs) < out_size ->
  exists res, normalize_loop fuel out_size p (render segs) offs = Some res /\ good out_size p segs cnts res.
Proof.
  intros Hos. induction fuel as [|fuel IH]; intros p segs cnts offs Hf Hns Hst Hfit; [lia|].
  cbn [normalize_loop]. destruct p as [|c p0] eqn:Ep.
  { eexists. split; [done|]. split_and!; cbn; auto. }
  rewrite <- Ep in *. assert (p <> []) as Hp by (by subst). clear Ep c p0.
  destruct (take_segment p) as [seg rest] eqn:Et.
  destruct (take_segment_progress p seg rest Hp Hns Et) as (Hseg & Hlen & Hless & Hrest & Hns').
  assert (segments p = seg :: segments (skip_slashes rest)) as Hsegs.
  { rewrite segments_cons, Et. by destruct seg. }
  assert (zlen (skip_slashes rest) <= zlen p) as Hle by (unfold zlen; lia).
  destruct (render_len segs ltac:(apply Hst)) as (_ & Hr1 & _).
  destruct (Z.eqb_spec (zlen seg) 0) as [H0|_]; [by apply zlen_zero in H0|].
  destruct (Z.ltb_spec VFS_NAME_MAX (zlen seg)) as [Hbig|Hsmall].
  { eexists. split; [done|]. apply good_stop. left. split; [done|]. rewrite Hsegs, Forall_cons. lia. }
  specialize (IH (skip_slashes rest)).
  case_bool_decide as Hdot; [|case_bool_decide as Hdd].
  - destruct (IH segs cnts offs ltac:(lia) Hns' Hst Hfit) as (res & Hl & Hg). exists res. split; [done|].
    eapply good_step; [done..| | |exact Hg]; [by unfold norm_step; rewrite bool_decide_eq_true_2|].
    pose proof (need_shrink (render segs) (render segs) p (skip_slashes rest) ltac:(lia) Hp Hle). lia.
  - destruct cnts as [|cc cnts].
    + pose proof Hst as (_ & _ & _ & ->). cbn [fmap list_fmap].
      destruct (IH segs [] [] ltac:(lia) Hns' Hst Hfit) as (res & Hl & Hg). exists res. split; [done|].
      eapply good_step; [done..| | |exact Hg].
      * unfold norm_step. by rewrite bool_decide_eq_false_2, bool_decide_eq_true_2.
      * pose proof (need_shrink (render segs) (render segs) p (skip_slashes rest) ltac:(lia) Hp Hle). lia.
    + destruct (stack_ok_pop _ _ _ _ Hst) as (offs' & -> & Hcc & Hst'). rewrite render_take by lia.
      assert (1 <= zlen (render (take cc segs)) <= zlen (render segs)) as Htk.
      { destruct (render_len (take cc segs) ltac:(apply Hst')) as (_ & ? & _). split; [done|].
        rewrite <- (render_take segs cc) by lia. unfold zlen at 1. rewrite length_take. unfold zlen. lia. }
      destruct (IH (take cc segs) cnts offs' ltac:(lia) Hns' Hst' ltac:(lia)) as (res & Hl & Hg).
      exists res. split; [done|]. eapply good_step; [done..| | |exact Hg].
      * unfold norm_step. by rewrite bool_decide_eq_false_2, bool_decide_eq_true_2.
      * pose proof (need_shrink (render segs) (render (take cc segs)) p (skip_slashes rest) Htk Hp Hle). lia.
  - eapply push_good; try done. intros segs' cnts' offs' H1 H2. apply IH; [lia|done..].
Qed.

(** *** Segments of paths *)

Lemma segments_from_spec cur p s : (SLASH ∉ cur) -> s ∈ segments_from cur p ->
  s <> [] /\ (SLASH ∉ s) /\ forall c, c ∈ s -> c ∈ cur \/ c ∈ p.
Proof.
  assert (forall w : bytes, s ∈ emit w -> s = w /\ w <> []) as Hemit.
  { intros [|c w]; cbn; [by intros ?%elem_of_nil|]. by intros ->%list_elem_of_singleton. }
  revert cur; induction p as [|c p IH]; intros cur Hc; cbn [segments_from].
  { intros [-> ?]%Hemit. split_and!; auto. }
  destruct (Z.eqb_spec c SLASH) as [->|Hne].
  - intros [[-> ?]%Hemit|Hin]%elem_of_app; [split_and!; auto|].
    destruct (IH [] ltac:(set_solver) Hin) as (? & ? & Hs). split_and!; try done.
    intros x Hx. destruct (Hs x Hx); [set_solver|]. right. by right.
  - intros Hin. destruct (IH (cur ++ [c]) ltac:(set_solver) Hin) as (? & ? & Hs).
    split_and!; try done. intros x Hx. destruct (Hs x Hx) as [[?|?]%elem_of_app|?]; set_solver.
Qed.

Lemma segments_spec p s : s ∈ segments p -> s <> [] /\ (SLASH ∉ s) /\ forall c, c ∈ s -> c ∈ p.
Proof.
  intros Hin. destruct (segments_from_spec [] p s ltac:(set_solver) Hin) as (? & ? & H).
  split_and!; try done. intros c Hc. destruct (H c Hc); [set_solver|done].
Qed.

(** The fold keeps only segments it was given, never [.] or [..]. *)
Lemma norm_fold_in segs0 cnts l s : s ∈ (foldl norm_step (segs0, cnts) l).1 ->
  s ∈ segs0 \/ (s ∈ l /\ s <> [DOT] /\ s <> [DOT; DOT]).
Proof.
  revert segs0 cnts; induction l as [|x l IH]; intros segs0 cnts; cbn [foldl]; [by left|].
  unfold norm_step at 2. case_bool_decide as Hd; [|case_bool_decide as Hdd].
  - intros Hin. destruct (IH _ _ Hin) as [?|(? & ? & ?)]; [by left|]. right. split; [by right|done].
  - destruct cnts as [|c cnts]; cbn [fst snd]; intros Hin.
    + destruct (IH _ _ Hin) as [?|(? & ? & ?)]; [by left|]. right. split; [by right|done].
    + destruct (IH _ _ Hin) as [Ht|(? & ? & ?)]; [left|right; split; [by right|done]].
      by eapply elem_of_take in Ht as (? & ?%list_elem_of_lookup_2 & _).
  - intros Hin. destruct (IH _ _ Hin) as [[?|Hx]%elem_of_app|(? & ? & ?)]; [by left| |].
    + apply list_elem_of_singleton in Hx as ->. right. split; [by left|done].
    + right. split; [by right|done].
Qed.

Lemma norm_segments_clean p : (0 ∉ p) -> Forall (fun s => zlen s <= VFS_NAME_MAX) (segments p) ->
  Forall clean (norm_segments (segments p)).
Proof.
  intros Hp Hlen. apply Forall_forall. intros s Hs.
  destruct (norm_fold_in _ _ _ _ Hs) as [?%elem_of_nil|(Hin & Hd & Hdd)]; [done|].
  destruct (segments_spec p s Hin) as (? & ? & Hsub). rewrite Forall_forall in Hlen.
  split_and!; auto.
Qed.

(** Without [..] only the [.] segments go. *)
Lemma norm_fold_plain segs0 cnts l : [DOT; DOT] ∉ l ->
  (foldl norm_step (segs0, cnts) l).1 = segs0 ++ filter (fun s => s <> [DOT]) l.
Proof.
  revert segs0 cnts; induction l as [|x l IH]; intros segs0 cnts Hl; cbn [foldl]; [by rewrite app_nil_r|].
  unfold norm_step at 2. case_bool_decide as Hd.
  - rewrite IH by set_solver. by rewrite filter_cons_False by naive_solver.
  - rewrite bool_decide_eq_false_2 by set_solver. rewrite IH by set_solver. cbn [fst].
    by rewrite filter_cons_True, <- app_assoc by done.
Qed.

Lemma segments_from_seg cur s p : (SLASH ∉ s) -> segments_from cur (s ++ p) = segments_from (cur ++ s) p.
Proof.
  revert cur; induction s as [|c s IH]; intros cur Hs; cbn [app segments_from]; [by rewrite app_nil_r|].
  destruct (Z.eqb_spec c SLASH); [set_solver|]. rewrite IH by set_solver. by rewrite <- app_assoc.
Qed.

Lemma segments_render segs : Forall (fun s => s <> [] /\ (SLASH ∉ s)) segs ->
  segments (render segs) = segs.
Proof.
  intros H. unfold segments.
  assert (forall segs, Forall (fun s => s <> [] /\ (SLASH ∉ s)) segs ->
    forall cur, segments_from cur (render_tail segs) = emit cur ++ segs) as Ht.
  { clear. induction 1 as [|s segs [Hs Hns] _ IH]; intros cur; cbn; [by rewrite app_nil_r|].
    rewrite segments_from_seg by done. cbn [app]. rewrite IH. by destruct s. }
  destruct segs as [|s segs]; [done|]. unfold render. by rewrite Ht.
Qed.

Lemma clean_render_nul segs : Forall clean segs -> 0 ∉ render segs.
Proof.
  intros H. assert (0 ∉ render_tail segs) as Ht.
  { induction H as [|s segs (_ & _ & Hs & _) _ IH]; cbn; [set_solver|]. unfold SLASH. set_solver by lia. }
  unfold render. destruct segs; [|done]. unfold SLASH. set_solver by lia.
Qed.

Lemma normalize_good path : path !! 0%nat = Some SLASH ->
  exists res, vfs_normalize_path (Some path) VFS_PATH_MAX = Some res /\
    good VFS_PATH_MAX (skip_slashes path) [] [] res /\ need (render []) (skip_slashes path) <= zlen path.
Proof.
  intros Hp. unfold vfs_normalize_path. destruct path as [|c path]; [done|]. injection Hp as ->.
  rewrite Z.eqb_refl. change (VFS_PATH_MAX =? 0) with false. cbn [negb].
  pose proof (skip_slashes_length path) as Hl.
  assert (skip_slashes (SLASH :: path) = skip_slashes path) as Hsk by done.
  destruct (normalize_loop_good VFS_PATH_MAX (S (length (SLASH :: path))) ltac:(lia)
    (skip_slashes (SLASH :: path)) [] [] []) as (res & Hn & Hg).
  - rewrite Hsk. cbn. lia.
  - intros r Hr. pose proof (skip_slashes_head (SLASH :: path)) as Hh. by rewrite Hr in Hh.
  - split_and!; constructor || done.
  - done.
  - exists res. split_and!; try done. rewrite Hsk, zlen_cons. unfold need.
    change (zlen (render [])) with 1. change (1 <? 1) with false. pose proof (zlen_nonneg path).
    destruct (skip_slashes path) as [|d q] eqn:E; [lia|]. rewrite <- E in *. unfold zlen. lia.
Qed.


Lemma filter_keep {X} (P : X -> Prop) `{forall x, Decision (P x)} (l : list X) :
  Forall P l -> filter P l = l.
Proof. induction 1 as [|x l Hx _ IH]; [done|]. by rewrite filter_cons_True, IH. Qed.

(** A path of clean segments is normal. *)
Lemma normalize_render segs : Forall clean segs -> zlen (render segs) < VFS_PATH_MAX ->
  vfs_normalize_path (Some (render segs)) VFS_PATH_MAX = Some (VFS_RES_OK, render segs).
Proof.
  intros Hc Hl. destruct (normalize_good (render segs)) as ([r out] & Hn & (H1 & _ & H3) & Hneed).
  { by destruct segs. }
  rewrite segments_skip, segments_render in *
    by (eapply Forall_impl; [exact Hc|]; intros s (? & ? & _); done).
  assert (Forall (fun s => zlen s <= VFS_NAME_MAX) segs) as Hall.
  { eapply Forall_impl; [exact Hc|]. intros s (_ & _ & _ & _ & _ & ?). done. }
  rewrite Hn. cbn [fst snd] in H1, H3. rewrite (H3 Hall ltac:(lia)) in *. destruct (H1 eq_refl) as (-> & _).
  rewrite norm_fold_plain.
  - cbn [app]. rewrite filter_keep; [done|]. eapply Forall_impl; [exact Hc|]. by intros s (_ & _ & _ & ? & _).
  - intros Hin. rewrite Forall_forall in Hc. by destruct (Hc _ Hin) as (_ & _ & _ & _ & ? & _).
Qed.

(** Normalisation is idempotent: a path it returned is returned
    unchanged. *)
Theorem vfs_normalize_path_idempotent path out : (0 ∉ path) ->
  vfs_normalize_path (Some path) VFS_PATH_MAX = Some (VFS_RES_OK, out) ->
  vfs_normalize_path (Some out) VFS_PATH_MAX = Some (VFS_RES_OK, out).
Proof.
  intros H0 Hn. destruct path as [|c path]; [by injection Hn as <-|].
  destruct (Z.eqb_spec c SLASH) as [->|Hne]; cycle 1.
  { unfold vfs_normalize_path in Hn. change (VFS_PATH_MAX =? 0) with false in Hn.
    by destruct (Z.eqb_spec c SLASH). }
  destruct (normalize_good (SLASH :: path) eq_refl) as (res & Hn' & (H1 & _) & _).
  rewrite Hn in Hn'. injection Hn' as <-. cbn [fst snd] in H1. destruct (H1 eq_refl) as (-> & Hl & Hall).
  rewrite segments_skip in *. apply normalize_render; [|done]. by apply norm_segments_clean.
Qed.

(** A [..] does not remove the segment before it: the stack holds the length of
    the path after the segment, not before it. *)
Lemma normalize_dotdot_keeps_segment :
  vfs_normalize_path (Some [47; 97; 47; 98; 47; 46; 46]) VFS_PATH_MAX = Some (VFS_RES_OK, [47; 97; 47; 98]).
Proof. by vm_compute. Qed.

(** ** Prefixes *)

Lemma strncmp_is_0_spec a b : (0 ∉ a) -> (0 ∉ b) -> strncmp_is_0 a b (zlen b) = true <-> b `prefix_of` a.
Proof.
  intros Ha Hb. unfold strncmp_is_0, strncmp, zlen. rewrite ?Nat2Z.id.
  destruct (strncmp_prefix a b [] Ha Hb) as (r & Hr & Hiff). unfold cstr at 1. rewrite Hr, <- Hiff.
  destruct (Z.eqb_spec (Z.of_nat (length b)) 0); [|apply Z.eqb_eq].
  destruct b; [|done]. assert (r = 0) as -> by (apply Hiff, prefix_nil). done.
Qed.

(** A prefix that ends at a segment boundary. *)
Definition at_boundary (rest : bytes) : Prop := rest = [] \/ exists r, rest = SLASH :: r.

Lemma segments_from_tail segs rest : Forall (fun s => s <> [] /\ (SLASH ∉ s)) segs -> at_boundary rest ->
  forall cur, segments_from cur (render_tail segs ++ rest) = emit cur ++ segs ++ segments rest.
Proof.
  intros H Hb. induction H as [|s segs [Hs Hns] _ IH]; intros cur; cbn [render_tail app].
  { destruct Hb as [->|[r ->]]; cbn; by rewrite ?app_nil_r. }
  cbn [segments_from]. rewrite Z.eqb_refl, <- app_assoc, segments_from_seg by done. cbn [app].
  rewrite IH. by destruct s.
Qed.

Lemma render_boundary ps qs rest : Forall clean ps -> Forall clean qs -> qs <> [] ->
  render ps = render qs ++ rest -> at_boundary rest -> qs `prefix_of` ps.
Proof.
  intros Hp Hq Hne Heq Hb.
  assert (forall l, Forall clean l -> Forall (fun s => s <> [] /\ (SLASH ∉ s)) l) as Hcl.
  { intros l Hl. eapply Forall_impl; [exact Hl|]. by intros s (? & ? & _). }
  pose proof (segments_render ps (Hcl _ Hp)) as Hs. rewrite Heq in Hs.
  unfold render in Hs. destruct qs as [|q qs]; [done|].
  unfold segments in Hs. rewrite segments_from_tail in Hs by auto. exists (segments rest). by rewrite <- Hs.
Qed.

Lemma render_prefix ps qs : Forall clean qs -> qs <> [] -> qs `prefix_of` ps ->
  exists rest, render ps = render qs ++ rest /\ at_boundary rest.
Proof.
  intros Hq Hne [more ->]. exists (render_tail more). destruct qs as [|q qs]; [done|].
  unfold render. cbn [app]. change (q :: qs ++ more) with ((q :: qs) ++ more). rewrite render_tail_app.
  split; [done|]. destruct more as [|m more]; [by left|right]. cbn. eauto.
Qed.

Lemma path_at_app p rest : (0 ∉ rest) ->
  (path_at (p ++ rest) (zlen p) =? 0) || (path_at (p ++ rest) (zlen p) =? SLASH) = true <-> at_boundary rest.
Proof.
  intros H0. unfold path_at, zlen, at_boundary. rewrite Nat2Z.id, lookup_app_r, Nat.sub_diag by lia.
  destruct rest as [|c rest]; cbn; [by split; [left|]|].
  rewrite orb_true_iff, !Z.eqb_eq. split.
  - intros [->| ->]; [set_solver|]. right. eauto.
  - intros [?|[r [= -> ->]]]; [done|by right].
Qed.

(** The test "the path is the prefix or below it" of the mount table. *)
Definition boundary_match (path prefix : bytes) : bool :=
  strncmp_is_0 path prefix (zlen prefix) &&
  ((path_at path (zlen prefix) =? 0) || (path_at path (zlen prefix) =? SLASH)).

Lemma boundary_match_spec ps qs : Forall clean ps -> Forall clean qs -> qs <> [] ->
  boundary_match (render ps) (render qs) = true <-> qs `prefix_of` ps.
Proof.
  intros Hp Hq Hne. pose proof (clean_render_nul _ Hp) as H0p. pose proof (clean_render_nul _ Hq) as H0q.
  unfold boundary_match. rewrite andb_true_iff, strncmp_is_0_spec by done. split.
  - intros [[rest Hr] Hb]. rewrite Hr in Hb, H0p. apply path_at_app in Hb; [|set_solver].
    by eapply render_boundary.
  - intros Hpre. destruct (render_prefix ps qs Hq Hne Hpre) as (rest & Hr & Hb).
    rewrite Hr in *. split; [by exists rest|]. apply path_at_app; [set_solver|done].
Qed.

Lemma render_last qs : Forall clean qs -> qs <> [] -> path_at (render qs) (zlen (render qs) - 1) <> SLASH.
Proof.
  intros Hq Hne. destruct (exists_last Hne) as (l & s & ->).
  apply Forall_app in Hq as [Hl [Hs _]%Forall_cons]. destruct Hs as (Hs & Hns & _).
  rewrite render_snoc by (eapply Forall_impl; [exact Hl|]; by intros x (? & _)).
  destruct (exists_last Hs) as (s' & c & ->). rewrite app_assoc, zlen_app. unfold path_at.
  replace (Z.to_nat _) with (length ((if 1 <? zlen (render l) then render l ++ [SLASH] else render l) ++ s'))
    by (unfold zlen; cbn; lia).
  rewrite lookup_app_r, Nat.sub_diag by lia. cbn. set_solver.
Qed.

Lemma path_is_under_spec ps qs : Forall clean ps -> Forall clean qs ->
  vfs_cache_path_is_under (render ps) (render qs) = true <-> qs `prefix_of` ps.
Proof.
  intros Hp Hq. unfold vfs_cache_path_is_under. destruct (decide (qs = [])) as [->|Hne].
  { change (zlen (render []) =? 0) with false. cbv iota.
    assert (strncmp_is_0 (render ps) (render []) (zlen (render [])) = true) as ->.
    { apply strncmp_is_0_spec; [by apply clean_render_nul|by apply (clean_render_nul [])|].
      destruct ps as [|p ps]; [done|]. eexists. cbn. reflexivity. }
    cbn [negb]. change (path_at (render []) (zlen (render []) - 1) =? SLASH) with true.
    split; [intros _; apply prefix_nil|]. by destruct (_ =? 0). }
  pose proof (render_last qs Hq Hne) as Hlast. rewrite <- (boundary_match_spec ps qs Hp Hq Hne).
  destruct (render_len qs) as (_ & H1 & _). { eapply Forall_impl; [exact Hq|]. by intros x (? & _). }
  unfold boundary_match. destruct (Z.eqb_spec (zlen (render qs)) 0); [lia|].
  destruct (strncmp_is_0 _ _ _); [|done]. cbn [negb andb].
  destruct (Z.eqb_spec (path_at (render qs) (zlen (render qs) - 1)) SLASH); [done|].
  by destruct (_ =? 0).
Qed.

(** The cache's prefix test on normal paths is the prefix relation on
    their segments: "/a/b" covers "/a/b" and "/a/b/c", not "/a/bc". *)
Theorem vfs_cache_path_is_under_spec ps qs : Forall clean ps -> Forall clean qs ->
  vfs_cache_path_is_under (render ps) (render qs) = true <-> qs `prefix_of` ps.
Proof. apply path_is_under_spec. Qed.

(** ** Choice of a mount *)

Section Select.
Context {M : Type} (mpath : M -> bytes).

(** The loop over the mount list with the best mount so far. *)
Fixpoint select_loop (path : bytes) (ms : list M) (best : option M) (best_len : Z) : option M :=
  match ms with
  | [] => best
  | m :: ms =>
      let mount_len := zlen (mpath m) in
      if zlen path <? mount_len then select_loop path ms best best_len
      else if negb (strncmp_is_0 path (mpath m) mount_len) then select_loop path ms best best_len
      else if negb (mount_len =? 1) && negb (path_at path mount_len =? 0) &&
              negb (path_at path mount_len =? SLASH) then select_loop path ms best best_len
      else match best with
           | None => select_loop path ms (Some m) mount_len
           | Some _ => if best_len <? mount_len then select_loop path ms (Some m) mount_len
                       else select_loop path ms best best_len
           end
  end.

Definition vfs_select_mount (mounts : option (list M)) (path : bytes) : option M :=
  match mounts with None => None | Some ms => select_loop path ms None 0 end.

Variable mseg : M -> list bytes.

Lemma render_len_prefix a b : Forall clean a -> Forall clean b -> b `prefix_of` a ->
  zlen (render a) <= zlen (render b) -> a = b.
Proof.
  intros Ha Hb Hpre Hle. pose proof Hpre as [[|m more] ->]; [by rewrite app_nil_r|]. exfalso.
  apply Forall_app in Ha as [_ Ha].
  assert (Forall (fun s => s <> []) (m :: more)) as Hne.
  { eapply Forall_impl; [exact Ha|]. by intros s (? & _). }
  pose proof (render_tail_len _ Hne) as Hl. cbn [length] in Hl.
  destruct b as [|s b].
  - unfold render in Hle. cbn [app] in Hle. change (zlen [SLASH]) with 1 in Hle. lia.
  - unfold render in Hle. cbn [app] in Hle. change (s :: b ++ m :: more) with ((s :: b) ++ m :: more) in Hle.
    rewrite render_tail_app, zlen_app in Hle. lia.
Qed.

(** The guards of the loop, on normal paths. *)
Lemma select_match ps qs : Forall clean ps -> Forall clean qs ->
  (zlen (render ps) <? zlen (render qs)) = false /\
  strncmp_is_0 (render ps) (render qs) (zlen (render qs)) = true /\
  negb (zlen (render qs) =? 1) && negb (path_at (render ps) (zlen (render qs)) =? 0) &&
    negb (path_at (render ps) (zlen (render qs)) =? SLASH) = false <-> qs `prefix_of` ps.
Proof.
  intros Hp Hq. destruct (decide (qs = [])) as [->|Hne].
  { split; [intros _; apply prefix_nil|]. intros _.
    assert (render [] `prefix_of` render ps) as Hpre by (destruct ps; [done|]; eexists; cbn; reflexivity).
    split_and!; [|apply strncmp_is_0_spec; [by apply clean_render_nul|by apply (clean_render_nul [])|done]|done].
    apply Z.ltb_ge. apply prefix_length in Hpre. unfold zlen. lia. }
  rewrite <- (boundary_match_spec ps qs Hp Hq Hne). unfold boundary_match.
  destruct (render_len qs) as (_ & _ & H1). { eapply Forall_impl; [exact Hq|]. by intros x (? & _). }
  destruct (Z.eqb_spec (zlen (render qs)) 1); [naive_solver lia|]. cbn [negb andb]. split.
  - intros (_ & -> & H3). cbn [andb]. by destruct (_ =? 0), (_ =? SLASH).
  - intros [Hs Hb]%andb_true_iff. split_and!; [|done|by destruct (_ =? 0), (_ =? SLASH)].
    apply strncmp_is_0_spec in Hs; [|by apply clean_render_nul..].
    apply prefix_length in Hs. apply Z.ltb_ge. unfold zlen. lia.
Qed.

Definition best_ok (ps : list bytes) (seen : list M) (best : option M) (best_len : Z) : Prop :=
  match best with
  | None => forall m, m ∈ seen -> ~ mseg m `prefix_of` ps
  | Some b => b ∈ seen /\ mseg b `prefix_of` ps /\ best_len = zlen (mpath b) /\
      forall m, m ∈ seen -> mseg m `prefix_of` ps -> zlen (mpath m) <= best_len
  end.

Lemma select_loop_spec ps ms : Forall clean ps ->
  forall seen best best_len, (forall m, m ∈ seen ++ ms -> mpath m = render (mseg m) /\ Forall clean (mseg m)) ->
  best_ok ps seen best best_len ->
  exists len, best_ok ps (seen ++ ms) (select_loop (render ps) ms best best_len) len.
Proof.
  intros Hp. induction ms as [|m ms IH]; intros seen best best_len Hms Hb; cbn [select_loop].
  { exists best_len. by rewrite app_nil_r. }
  destruct (Hms m ltac:(set_solver)) as [Hm Hc].
  rewrite (cons_middle m), app_assoc in Hms |- *. specialize (IH (seen ++ [m])).
  pose proof (select_match ps (mseg m) Hp Hc) as Hmatch. rewrite <- Hm in Hmatch.
  assert (~ mseg m `prefix_of` ps -> best_ok ps (seen ++ [m]) best best_len) as Hskip.
  { intros Hno. destruct best as [b|]; cbn in *.
    - destruct Hb as (? & ? & ? & Hle). split_and!; try done; [set_solver|].
      intros m' [?| ->%list_elem_of_singleton]%elem_of_app; [auto|done].
    - intros m' [?| ->%list_elem_of_singleton]%elem_of_app; [auto|done]. }
  destruct (zlen (render ps) <? zlen (mpath m)) eqn:E1; [apply IH, Hskip; [done|intros ?%Hmatch; naive_solver]|].
  destruct (strncmp_is_0 (render ps) (mpath m) (zlen (mpath m))) eqn:E2; cbn [negb];
    [|apply IH, Hskip; [done|intros ?%Hmatch; naive_solver]].
  destruct (_ && _ && _) eqn:E3; [apply IH, Hskip; [done|intros ?%Hmatch; naive_solver]|].
  assert (mseg m `prefix_of` ps) as Hpre by (by apply Hmatch).
  destruct best as [b|].
  - destruct Hb as (Hin & Hbp & -> & Hle). destruct (Z.ltb_spec (zlen (mpath b)) (zlen (mpath m))); apply IH; try done.
    + cbn. split_and!; try done; [set_solver|].
      intros m' [Hm'| ->%list_elem_of_singleton]%elem_of_app Hp'; [specialize (Hle m' Hm' Hp'); lia|lia].
    + cbn. split_and!; try done; [set_solver|].
      intros m' [Hm'| ->%list_elem_of_singleton]%elem_of_app Hp'; [auto|lia].
  - apply IH; [done|]. cbn. split_and!; try done; [set_solver|].
    intros m' [Hm'| ->%list_elem_of_singleton]%elem_of_app Hp'; [by destruct (Hb m')|lia].
Qed.

Lemma select_mount_spec ps ms : Forall clean ps ->
  (forall m, m ∈ ms -> mpath m = render (mseg m) /\ Forall clean (mseg m)) ->
  match vfs_select_mount (Some ms) (render ps) with
  | Some m => m ∈ ms /\ mseg m `prefix_of` ps /\
      forall m', m' ∈ ms -> mseg m' `prefix_of` ps -> mseg m' `prefix_of` mseg m
  | None => forall m, m ∈ ms -> ~ mseg m `prefix_of` ps
  end.
Proof.
  intros Hp Hms. destruct (select_loop_spec ps ms Hp [] None 0 Hms) as [len Hb];
    [by intros m ?%elem_of_nil|]. cbn [app] in Hb. unfold vfs_select_mount.
  destruct (select_loop (render ps) ms None 0) as [b|]; [|done].
  destruct Hb as (Hin & Hpre & -> & Hle). split_and!; try done. intros m Hm Hmp.
  specialize (Hle m Hm Hmp). destruct (Hms _ Hin) as [Hb Hcb], (Hms _ Hm) as [Hm' Hcm].
  destruct (prefix_weak_total (mseg m) (mseg b) ps Hmp Hpre) as [?|Hba]; [done|].
  rewrite (render_len_prefix (mseg m) (mseg b)); [done..|]. by rewrite <- Hb, <- Hm'.
Qed.
End Select.

(** Mount selection: for a normal path it finds the mount whose path is
    the longest prefix, segment by segment, and none only if no mount is a
    prefix, whatever the order of the mount list. *)
Theorem vfs_select_mount_longest {M} (mpath : M -> bytes) (mseg : M -> list bytes) ps ms : Forall clean ps ->
  (forall m, m ∈ ms -> mpath m = render (mseg m) /\ Forall clean (mseg m)) ->
  match vfs_select_mount mpath (Some ms) (render ps) with
  | Some m => m ∈ ms /\ mseg m `prefix_of` ps /\
      forall m', m' ∈ ms -> mseg m' `prefix_of` ps -> mseg m' `prefix_of` mseg m
  | None => forall m, m ∈ ms -> ~ mseg m `prefix_of` ps
  end.
Proof. apply select_mount_spec. Qed.

(** ** Concrete paths *)

Lemma clean_letters c s : Forall (fun x => 97 <= x <= 122) (c :: s) -> zlen (c :: s) <= VFS_NAME_MAX -> clean (c :: s).
Proof.
  intros Hall Hl. pose proof Hall as [Hc _]%Forall_cons. rewrite Forall_forall in Hall.
  split_and!; [done| | | | |done]; unfold SLASH, DOT.
  - intros Hin%Hall. lia.
  - intros Hin%Hall. lia.
  - intros [= -> ->]. lia.
  - intros [= -> ->]. lia.
Qed.

Ltac letters := repeat constructor; try lia; try done.

Lemma clean_a : clean [97]. Proof. apply clean_letters; [letters|done]. Qed.
Lemma clean_b : clean [98]. Proof. apply clean_letters; [letters|done]. Qed.
Lemma clean_bc : clean [98; 99]. Proof. apply clean_letters; [letters|done]. Qed.


(** "/a//b" *)
Lemma vfs_normalize_path_idempotent_witness :
  vfs_normalize_path (Some [47; 97; 47; 47; 98]) VFS_PATH_MAX = Some (VFS_RES_OK, [47; 97; 47; 98]) /\
  vfs_normalize_path (Some [47; 97; 47; 98]) VFS_PATH_MAX = Some (VFS_RES_OK, [47; 97; 47; 98]).
Proof.
  split; [vm_compute; reflexivity|]. apply (vfs_normalize_path_idempotent [47; 97; 47; 47; 98]).
  - apply (bool_decide_unpack _). vm_compute. exact I.
  - vm_compute. reflexivity.
Defined.

(** "/a/b" is under "/a". *)
Lemma vfs_cache_path_is_under_spec_witness :
  vfs_cache_path_is_under (render [[97]; [98]]) (render [[97]]) = true <-> [[97]] `prefix_of` [[97]; [98]].
Proof.
  apply (vfs_cache_path_is_under_spec [[97]; [98]] [[97]]);
    repeat (apply Forall_cons; split); try apply Forall_nil; first [apply clean_a | apply clean_b | exact I].
Defined.

(** Mounts at "/", "/a" and "/a/b": "/a/bc" belongs to "/a". *)
Lemma vfs_select_mount_longest_witness :
  vfs_select_mount render (Some [[]; [[97]]; [[97]; [98]]]) (render [[97]; [98; 99]]) = Some [[97]] /\
  match vfs_select_mount render (Some [[]; [[97]]; [[97]; [98]]]) (render [[97]; [98; 99]]) with
  | Some m => m ∈ [[]; [[97]]; [[97]; [98]]] /\ m `prefix_of` [[97]; [98; 99]] /\
      forall m', m' ∈ [[]; [[97]]; [[97]; [98]]] -> m' `prefix_of` [[97]; [98; 99]] -> m' `prefix_of` m
  | None => forall m, m ∈ [[]; [[97]]; [[97]; [98]]] -> ~ m `prefix_of` [[97]; [98; 99]]
  end.
Proof.
  split; [vm_compute; reflexivity|].
  apply (vfs_select_mount_longest render (fun m => m)).
  - apply Forall_cons. split; [apply clean_a|]. apply Forall_cons. split; [apply clean_bc|]. constructor.
  - intros m Hm. split; [done|].
    apply elem_of_cons in Hm as [->|[->|[->|[]%elem_of_nil]%elem_of_cons]%elem_of_cons].
    + constructor.
    + apply Forall_cons. split; [apply clean_a|constructor].
    + apply Forall_cons. split; [apply clean_a|]. apply Forall_cons. split; [apply clean_b|constructor].
Defined.
