(* ===== verification/Vfs.v ===== *)
(** * The virtual file system ([kernel/filesystem/VFS.c])

    Mount table, file system registry, path cache, path resolution, and the
    operations on handles.  Nodes belong to file system drivers: [W] is the
    drivers' state, [VFSWorld] gives the fields of a node and its table of
    operations ([VFSNodeOps], each possibly absent, as the C pointers).

    [mal k] tells whether the [k]-th allocation of a call succeeds. *)

From S2P Require Import Prelude Bytes CString VfsPath.

Inductive VFSNodeType :=
| VFS_NODE_UNKNOWN | VFS_NODE_DIRECTORY | VFS_NODE_REGULAR | VFS_NODE_SYMLINK
| VFS_NODE_CHAR_DEVICE | VFS_NODE_BLOCK_DEVICE | VFS_NODE_PIPE | VFS_NODE_SOCKET.

#[export] Instance VFSNodeType_eq_dec : EqDecision VFSNodeType.
Proof. solve_decision. Defined.

Definition VFS_NODE_FLAG_MOUNTPOINT : Z := 2.
Definition VFS_OPEN_READ : Z := 1.
Definition VFS_OPEN_WRITE : Z := 2.

Inductive VFSSeekWhence := VFS_SEEK_SET | VFS_SEEK_CUR | VFS_SEEK_END | VFS_SEEK_OTHER.

Record VFSDirEntry := mkDirEntry { de_name : bytes; de_type : VFSNodeType }.

Record VFSNodeInfo := mkInfo {
  i_type : VFSNodeType; i_flags : Z; i_size : Z; i_inode : Z; i_atime : Z; i_mtime : Z; i_ctime : Z
}.

Record VFSMountParams := mkParams {
  p_source : option bytes; p_block_device : Z; p_volume : Z; p_context : Z; p_flags : Z
}.

(** The fields of a node the VFS uses; [n_mount] is the path of the mount. *)
Record VFSNode := mkNode {
  n_name : option bytes; n_type : VFSNodeType; n_flags : Z; n_parent : option Z; n_mount : option bytes
}.

(** Operations of a node; out parameters are results.  [read], [write] and
    [truncate] give [None] when the driver leaves the bounds of its buffers. *)
Record VFSNodeOps (W : Type) := mkNodeOps {
  op_open : option (W -> Z -> Z -> W * VFSResult * Z);
  op_close : option (W -> Z -> Z -> W * VFSResult);
  op_read : option (W -> Z -> Z -> Z -> Z -> option (W * Z * bytes));
  op_write : option (W -> Z -> Z -> Z -> bytes -> option (W * Z));
  op_truncate : option (W -> Z -> Z -> Z -> option (W * VFSResult));
  op_readdir : option (W -> Z -> Z -> Z -> W * VFSResult * VFSDirEntry);
  op_lookup : option (W -> Z -> bytes -> W * VFSResult * option Z);
  op_create : option (W -> Z -> bytes -> VFSNodeType -> W * VFSResult);
  op_remove : option (W -> Z -> bytes -> W * VFSResult);
  op_stat : option (W -> Z -> W * VFSResult * VFSNodeInfo)
}.
Arguments op_open {_}. Arguments op_close {_}. Arguments op_read {_}. Arguments op_write {_}.
Arguments op_truncate {_}. Arguments op_readdir {_}. Arguments op_lookup {_}. Arguments op_create {_}.
Arguments op_remove {_}. Arguments op_stat {_}.

Record VFSFileSystemOps (W : Type) := mkFsOps {
  fs_probe : option (W -> option VFSMountParams -> W * bool);
  fs_mount : option (W -> option VFSMountParams -> W * VFSResult * option Z);
  fs_unmount : option (W -> Z -> W)
}.
Arguments fs_probe {_}. Arguments fs_mount {_}. Arguments fs_unmount {_}.

Record VFSFileSystem (W : Type) := mkFs { fs_name : option bytes; fs_ops : option (VFSFileSystemOps W) }.
Arguments fs_name {_}. Arguments fs_ops {_}.

(** What the drivers provide. *)
Class VFSWorld (W : Type) := {
  get_node : W -> Z -> VFSNode;
  set_node : W -> Z -> VFSNode -> W;
  node_ops : W -> Z -> option (VFSNodeOps W)
}.

Record VFSMount (W : Type) := mkMount { m_path : bytes; m_fs : VFSFileSystem W; m_root : Z; m_flags : Z }.
Arguments m_path {_}. Arguments m_fs {_}. Arguments m_root {_}. Arguments m_flags {_}. Arguments mkMount {_}.

(** The static variables of the file. *)
Record VFS (W : Type) := mkVFS {
  s_vfs_initialized : bool;
  s_filesystems : option (list (VFSFileSystem W));
  s_mounts : option (list (VFSMount W));
  s_root_mount : option (VFSMount W);
  s_cache_entries : option (list (bytes * Z));
  s_cache_capacity : Z;
  s_cache_hits : Z;
  s_cache_misses : Z
}.
Arguments s_vfs_initialized {_}. Arguments s_filesystems {_}. Arguments s_mounts {_}.
Arguments s_root_mount {_}. Arguments s_cache_entries {_}. Arguments s_cache_capacity {_}.
Arguments s_cache_hits {_}. Arguments s_cache_misses {_}. Arguments mkVFS {_}.

Record VFSHandle := mkHandle { h_node : Z; h_driver : Z; h_mode : Z; h_offset : Z }.

Section Ops.
Context `{A : Arch} {W : Type} `{WW : VFSWorld W}.
Implicit Types (v : VFS W) (w : W).

Definition with_cache v (es : option (list (bytes * Z))) : VFS W :=
  mkVFS (s_vfs_initialized v) (s_filesystems v) (s_mounts v) (s_root_mount v) es
    (s_cache_capacity v) (s_cache_hits v) (s_cache_misses v).

Definition with_mounts v (ms : option (list (VFSMount W))) (root : option (VFSMount W)) : VFS W :=
  mkVFS (s_vfs_initialized v) (s_filesystems v) ms root (s_cache_entries v)
    (s_cache_capacity v) (s_cache_hits v) (s_cache_misses v).

Definition count_hit v : VFS W :=
  mkVFS (s_vfs_initialized v) (s_filesystems v) (s_mounts v) (s_root_mount v) (s_cache_entries v)
    (s_cache_capacity v) (s_cache_hits v +[size_bits] 1) (s_cache_misses v).

Definition count_miss v : VFS W :=
  mkVFS (s_vfs_initialized v) (s_filesystems v) (s_mounts v) (s_root_mount v) (s_cache_entries v)
    (s_cache_capacity v) (s_cache_hits v) (s_cache_misses v +[size_bits] 1).

(** ** The path cache: entries, most recently used first *)

Definition vfs_cache_enabled v : bool :=
  match s_cache_entries v with None => false | Some _ => 0 <? s_cache_capacity v end.

Definition vfs_cache_init v (mal : bool) : VFS W * bool :=
  match s_cache_entries v with
  | Some _ => (v, true)
  | None => if mal then (with_cache v (Some []), true) else (v, false)
  end.

Definition vfs_cache_clear v : VFS W :=
  match s_cache_entries v with None => v | Some _ => with_cache v (Some []) end.

(** The loop removes the last entry while there are too many. *)
Fixpoint trim_loop (capacity : Z) (fuel : nat) (es : list (bytes * Z)) : list (bytes * Z) :=
  match fuel with
  | O => es
  | S fuel => if capacity <? Z.of_nat (length es)
              then trim_loop capacity fuel (delete (length es - 1)%nat es) else es
  end.

Definition vfs_cache_trim_to_capacity v : VFS W :=
  match s_cache_entries v with
  | None => v
  | Some es => if s_cache_capacity v =? 0 then vfs_cache_clear v
               else with_cache v (Some (trim_loop (s_cache_capacity v) (length es) es))
  end.

(** The loop with [index]: an entry below the prefix is removed in place. *)
Fixpoint remove_prefix_loop (prefix : bytes) (es : list (bytes * Z)) : list (bytes * Z) :=
  match es with
  | [] => []
  | e :: es => if vfs_cache_path_is_under e.1 prefix then remove_prefix_loop prefix es
               else e :: remove_prefix_loop prefix es
  end.

Definition vfs_cache_remove_prefix v (prefix : bytes) : VFS W :=
  match s_cache_entries v with
  | None => v
  | Some es => with_cache v (Some (remove_prefix_loop prefix es))
  end.

(** Index of the first entry with this path. *)
Fixpoint find_entry (path : bytes) (es : list (bytes * Z)) (index : nat) : option (nat * (bytes * Z)) :=
  match es with
  | [] => None
  | e :: es => if streq e.1 path then Some (index, e) else find_entry path es (S index)
  end.

Definition vfs_cache_remove_exact v (path : bytes) : VFS W :=
  match s_cache_entries v with
  | None => v
  | Some es => match find_entry path es 0 with
               | None => v
               | Some (i, _) => with_cache v (Some (delete i es))
               end
  end.

(** [mal]: the list node of the entry moved to the front. *)
Definition vfs_cache_lookup v (path : bytes) (mal : bool) : VFS W * option Z :=
  if negb (vfs_cache_enabled v) then (v, None)
  else match s_cache_entries v with
       | None => (v, None)
       | Some es =>
           match find_entry path es 0 with
           | None => (count_miss v, None)
           | Some (i, e) =>
               let es' := if negb (Nat.eqb i 0)
                          then (if mal then e :: delete i es else delete i es) else es in
               (count_hit (with_cache v (Some es')), Some e.2)
           end
       end.

(** [mal 0] the entry, [mal 1] its list node; the copy of the path is written
    without a test, so the model assumes it. *)
Definition vfs_cache_insert v (path : bytes) (node : Z) (mal : nat -> bool) : VFS W :=
  if node =? NULL then v
  else if negb (vfs_cache_enabled v) then v
  else match s_cache_entries v with
       | None => v
       | Some es =>
           let es := match find_entry path es 0 with None => es | Some (i, _) => delete i es end in
           let es := if s_cache_capacity v <=? Z.of_nat (length es)
                     then delete (length es - 1)%nat es else es in
           if mal 0%nat && mal 1%nat then with_cache v (Some ((path, node) :: es))
           else with_cache v (Some es)
       end.

Definition VFS_CacheFlush v : VFS W := vfs_cache_clear v.

Definition VFS_CacheSetCapacity v (capacity : Z) : VFS W :=
  let v := mkVFS (s_vfs_initialized v) (s_filesystems v) (s_mounts v) (s_root_mount v)
             (s_cache_entries v) capacity (s_cache_hits v) (s_cache_misses v) in
  match s_cache_entries v with
  | None => v
  | Some _ => if capacity =? 0 then vfs_cache_clear v else vfs_cache_trim_to_capacity v
  end.

Definition VFS_CacheResetStats v : VFS W :=
  mkVFS (s_vfs_initialized v) (s_filesystems v) (s_mounts v) (s_root_mount v)
    (s_cache_entries v) (s_cache_capacity v) 0 0.

(** hits, misses, entries, capacity. *)
Definition VFS_CacheGetStats v : Z * Z * Z * Z :=
  (s_cache_hits v, s_cache_misses v,
   match s_cache_entries v with Some es => Z.of_nat (length es) | None => 0 end, s_cache_capacity v).

(** ** Initialisation and registry *)

(** [mal 0], [mal 1], [mal 2]: the three [List_Create]. *)
Definition VFS_Init v (mal : nat -> bool) : VFS W :=
  if s_vfs_initialized v then v
  else if negb (mal 0%nat && mal 1%nat)
  then mkVFS false None None (s_root_mount v) (s_cache_entries v) (s_cache_capacity v)
         (s_cache_hits v) (s_cache_misses v)
  else
    let '(v, ok) := vfs_cache_init v (mal 2%nat) in
    if negb ok
    then mkVFS false None None (s_root_mount v) (s_cache_entries v) (s_cache_capacity v)
           (s_cache_hits v) (s_cache_misses v)
    else mkVFS true (Some []) (Some []) (s_root_mount v) (s_cache_entries v) (s_cache_capacity v)
           (s_cache_hits v) (s_cache_misses v).

Definition has_name (name : bytes) (fs : VFSFileSystem W) : bool :=
  match fs_name fs with Some n => streq n name | None => false end.

(** [mal]: the list node. *)
Definition VFS_RegisterFileSystem v (fs : VFSFileSystem W) (mal : bool) : VFS W * VFSResult :=
  match fs_name fs, fs_ops fs with
  | Some name, Some ops =>
      match fs_mount ops, fs_probe ops with
      | Some _, Some _ =>
          if negb (s_vfs_initialized v) then (v, VFS_RES_INVALID)
          else match s_filesystems v with
               | None => (v, VFS_RES_ERROR)
               | Some l =>
                   if existsb (has_name name) l then (v, VFS_RES_EXISTS)
                   else (mkVFS (s_vfs_initialized v) (Some (if mal then l ++ [fs] else l)) (s_mounts v)
                           (s_root_mount v) (s_cache_entries v) (s_cache_capacity v)
                           (s_cache_hits v) (s_cache_misses v), VFS_RES_OK)
               end
      | _, _ => (v, VFS_RES_INVALID)
      end
  | _, _ => (v, VFS_RES_INVALID)
  end.

Definition VFS_GetFileSystem v (name : bytes) : option (VFSFileSystem W) :=
  if negb (s_vfs_initialized v) then None
  else match s_filesystems v with
       | None => None
       | Some l => List.find (has_name name) l
       end.

(** ** Mounting *)

Definition vfs_attach_mount_to_tree w (path : bytes) (root : Z) : W :=
  let n := get_node w root in
  set_node w root (mkNode (n_name n) (n_type n) (Z.lor (n_flags n) VFS_NODE_FLAG_MOUNTPOINT) None (Some path)).

Definition at_path (path : bytes) (m : VFSMount W) : bool := streq (m_path m) path.

(** [mal 0] the mount, [mal 1] its list node, [mal 2] and [mal 3] the cache
    entry.  A mount whose list node could not be allocated is not in the
    list.  [strdup] writes to its buffer before any test, so the model assumes
    that its allocation succeeds. *)
Definition VFS_Mount v w (target : option bytes) (fs : VFSFileSystem W) (params : option VFSMountParams)
  (mal : nat -> bool) : option (VFS W * W * option (VFSMount W)) :=
  match target, fs_ops fs with
  | Some target, Some ops =>
      match fs_mount ops with
      | Some mount_op =>
          if negb (s_vfs_initialized v) then Some (v, w, None)
          else
            r ← vfs_normalize_path (Some target) VFS_PATH_MAX;
            match r with
            | (VFS_RES_OK, normalized) =>
                if existsb (at_path normalized) (default [] (s_mounts v)) then Some (v, w, None)
                else
                  match mount_op w params with
                  | (w, VFS_RES_OK, Some root_node) =>
                      if negb (mal 0%nat)
                      then Some (v, match fs_unmount ops with Some u => u w root_node | None => w end, None)
                      else
                        let mount := mkMount normalized fs root_node
                                       (match params with Some p => p_flags p | None => 0 end) in
                        let w := vfs_attach_mount_to_tree w normalized root_node in
                        let v := with_mounts v
                                   (if mal 1%nat then (fun ms => ms ++ [mount]) <$> s_mounts v else s_mounts v)
                                   (if streq normalized [SLASH] then Some mount else s_root_mount v) in
                        let v := vfs_cache_remove_prefix v normalized in
                        let v := vfs_cache_insert v normalized root_node (fun k => mal (2 + k)%nat) in
                        Some (v, w, Some mount)
                  | (w, _, _) => Some (v, w, None)
                  end
            | (_, _) => Some (v, w, None)
            end
      | None => Some (v, w, None)
      end
  | _, _ => Some (v, w, None)
  end.

(** The probe loop. *)
Fixpoint detect_loop (params : VFSMountParams) w (l : list (VFSFileSystem W))
  : W * option (VFSFileSystem W) :=
  match l with
  | [] => (w, None)
  | fs :: l =>
      match fs_ops fs with
      | Some ops =>
          match fs_probe ops with
          | Some probe =>
              let '(w, matches) := probe w (Some params) in
              if matches : bool then (w, Some fs) else detect_loop params w l
          | None => detect_loop params w l
          end
      | None => detect_loop params w l
      end
  end.

Definition VFS_DetectFileSystem v w (params : option VFSMountParams) : W * option (VFSFileSystem W) :=
  match params, s_filesystems v with
  | Some params, Some l => if s_vfs_initialized v then detect_loop params w l else (w, None)
  | _, _ => (w, None)
  end.

(** [mal i]: the allocations of the attempt with the [i]-th file system. *)
Fixpoint mount_auto_loop (target : bytes) (params : VFSMountParams) (mal : nat -> nat -> bool)
  v w (l : list (VFSFileSystem W)) (i : nat) : option (VFS W * W * option (VFSMount W)) :=
  match l with
  | [] => Some (v, w, None)
  | fs :: l =>
      match fs_ops fs with
      | Some ops =>
          match fs_probe ops with
          | Some probe =>
              let '(w, matches) := probe w (Some params) in
              if negb matches then mount_auto_loop target params mal v w l (S i)
              else
                r ← VFS_Mount v w (Some target) fs (Some params) (mal i);
                match r with
                | (v, w, Some m) => Some (v, w, Some m)
                | (v, w, None) => mount_auto_loop target params mal v w l (S i)
                end
          | None => mount_auto_loop target params mal v w l (S i)
          end
      | None => mount_auto_loop target params mal v w l (S i)
      end
  end.

Definition VFS_MountAuto v w (target : option bytes) (params : option VFSMountParams)
  (mal : nat -> nat -> bool) : option (VFS W * W * option (VFSMount W)) :=
  match target, params, s_filesystems v with
  | Some target, Some params, Some l =>
      if s_vfs_initialized v then mount_auto_loop target params mal v w l 0 else Some (v, w, None)
  | _, _, _ => Some (v, w, None)
  end.

(** Index and object of the first mount at a path. *)
Fixpoint find_mount (path : bytes) (ms : list (VFSMount W)) (index : nat) : option (nat * VFSMount W) :=
  match ms with
  | [] => None
  | m :: ms => if at_path path m then Some (index, m) else find_mount path ms (S index)
  end.

Definition VFS_Unmount v w (target : option bytes) : option (VFS W * W * VFSResult) :=
  match target with
  | None => Some (v, w, VFS_RES_INVALID)
  | Some target =>
      if negb (s_vfs_initialized v) then Some (v, w, VFS_RES_INVALID)
      else
        r ← vfs_normalize_path (Some target) VFS_PATH_MAX;
        match r with
        | (VFS_RES_OK, normalized) =>
            match s_mounts v with
            | None => Some (v, w, VFS_RES_NOT_FOUND)
            | Some ms =>
                match find_mount normalized ms 0 with
                | None => Some (v, w, VFS_RES_NOT_FOUND)
                | Some (i, m) =>
                    if streq (m_path m) [SLASH] then Some (v, w, VFS_RES_BUSY)
                    else
                      let w := match fs_ops (m_fs m) with
                               | Some ops => match fs_unmount ops with
                                             | Some u => u w (m_root m) | None => w end
                               | None => w
                               end in
                      let v := with_mounts v (Some (delete i ms)) (s_root_mount v) in
                      Some (vfs_cache_remove_prefix v normalized, w, VFS_RES_OK)
                end
            end
        | (e, _) => Some (v, w, e)
        end
  end.

Definition VFS_GetMount v (target : option bytes) : option (option (VFSMount W)) :=
  match target, s_mounts v with
  | Some target, Some ms =>
      if negb (s_vfs_initialized v) then Some None
      else
        r ← vfs_normalize_path (Some target) VFS_PATH_MAX;
        match r with
        | (VFS_RES_OK, normalized) => Some (snd <$> find_mount normalized ms 0)
        | _ => Some None
        end
  | _, _ => Some None
  end.

Definition VFS_GetMountRoot (mount : option (VFSMount W)) : option Z := m_root <$> mount.

(** ** Resolution *)

Fixpoint walk_loop (fuel : nat) w (current : Z) (p : bytes) : option (W * VFSResult * option Z) :=
  match fuel with
  | O => None
  | S fuel =>
    match skip_slashes p with
    | [] => Some (w, VFS_RES_OK, Some current)
    | p =>
      let '(segment, rest) := take_segment p in
      if VFS_NAME_MAX <? zlen segment then Some (w, VFS_RES_INVALID, None)
      else if streq segment [DOT] then walk_loop fuel w current rest
      else if streq segment [DOT; DOT]
      then walk_loop fuel w (match n_parent (get_node w current) with Some p => p | None => current end) rest
      else
        match node_ops w current with
        | None => Some (w, VFS_RES_UNSUPPORTED, None)
        | Some ops =>
            match op_lookup ops with
            | None => Some (w, VFS_RES_UNSUPPORTED, None)
            | Some lookup =>
                match lookup w current segment with
                | (w, VFS_RES_OK, Some next) => walk_loop fuel w next rest
                | (w, _, _) => Some (w, VFS_RES_NOT_FOUND, None)
                end
            end
        end
    end
  end.

Definition vfs_walk w (start : Z) (relative_path : bytes) : option (W * VFSResult * option Z) :=
  walk_loop (S (length relative_path)) w start relative_path.

(** The path below a mount: the pointer arithmetic on [normalized]. *)
Definition relative_to (mount_path normalized : bytes) : bytes :=
  let rel := if streq mount_path [SLASH] then normalized else drop (length mount_path) normalized in
  match rel with c :: rel' => if c =? SLASH then rel' else rel | [] => [] end.

(** Resolution without the cache: select the mount and walk below it. *)
Definition resolve_uncached v w (normalized : bytes) : option (W * VFSResult * option Z) :=
  match vfs_select_mount m_path (s_mounts v) normalized with
  | None => Some (w, VFS_RES_NOT_FOUND, None)
  | Some mount =>
      match relative_to (m_path mount) normalized with
      | [] => Some (w, VFS_RES_OK, Some (m_root mount))
      | rel => vfs_walk w (m_root mount) rel
      end
  end.

(** [if (cached)]. *)
Definition not_null (cached : option Z) : option Z :=
  c ← cached; if c =? NULL then None else Some c.

(** [mal 0] the node of a cache hit moved to the front, [mal 1], [mal 2] a new
    cache entry. *)
Definition VFS_Resolve v w (path : option bytes) (mal : nat -> bool)
  : option (VFS W * W * VFSResult * option Z) :=
  match path with
  | None => Some (v, w, VFS_RES_INVALID, None)
  | Some _ =>
      if negb (s_vfs_initialized v) then Some (v, w, VFS_RES_INVALID, None)
      else match s_root_mount v with
           | None => Some (v, w, VFS_RES_NOT_FOUND, None)
           | Some _ =>
               r ← vfs_normalize_path path VFS_PATH_MAX;
               match r with
               | (VFS_RES_OK, normalized) =>
                   let '(v, cached) := vfs_cache_lookup v normalized (mal 0%nat) in
                   match not_null cached with
                   | Some cached => Some (v, w, VFS_RES_OK, Some cached)
                   | None =>
                       x ← resolve_uncached v w normalized;
                       match x with
                       | (w, VFS_RES_OK, Some node) =>
                           Some (vfs_cache_insert v normalized node (fun k => mal (S k)), w, VFS_RES_OK, Some node)
                       | (w, e, n) => Some (v, w, e, n)
                       end
                   end
               | (e, _) => Some (v, w, e, None)
               end
           end
  end.

Definition VFS_ResolveAt v w (start : option Z) (path : option bytes) (mal : nat -> bool)
  : option (VFS W * W * VFSResult * option Z) :=
  match path with
  | None => Some (v, w, VFS_RES_INVALID, None)
  | Some p =>
      if path_at p 0 =? SLASH then VFS_Resolve v w path mal
      else
        match (match start with Some s => Some s | None => m_root <$> s_root_mount v end) with
        | None => Some (v, w, VFS_RES_NOT_FOUND, None)
        | Some base =>
            if path_at p 0 =? 0 then Some (v, w, VFS_RES_OK, Some base)
            else x ← vfs_walk w base p; Some (v, x.1.1, x.1.2, x.2)
        end
  end.

Definition VFS_NodeStat w (node : option Z) : W * VFSResult * option VFSNodeInfo :=
  match node with
  | None => (w, VFS_RES_INVALID, None)
  | Some node =>
      let plain := mkInfo (n_type (get_node w node)) (n_flags (get_node w node)) 0 0 0 0 0 in
      match node_ops w node with
      | Some ops => match op_stat ops with
                    | Some stat => let '(w, r, i) := stat w node in (w, r, Some i)
                    | None => (w, VFS_RES_OK, Some plain)
                    end
      | None => (w, VFS_RES_OK, Some plain)
      end
  end.

Definition VFS_ReadDir w (directory : option Z) (index : Z) : W * VFSResult * option VFSDirEntry :=
  match directory with
  | None => (w, VFS_RES_INVALID, None)
  | Some d =>
      if negb (bool_decide (n_type (get_node w d) = VFS_NODE_DIRECTORY)) then (w, VFS_RES_INVALID, None)
      else match node_ops w d with
           | Some ops => match op_readdir ops with
                         | Some readdir => let '(w, r, e) := readdir w d NULL index in (w, r, Some e)
                         | None => (w, VFS_RES_UNSUPPORTED, None)
                         end
           | None => (w, VFS_RES_UNSUPPORTED, None)
           end
  end.

(** ** Creating and removing *)

(** The last separator splits a normal path into parent and name. *)
Definition split_last (normalized : bytes) : option (bytes * bytes) :=
  match strrchr (Some (cstr normalized)) SLASH with
  | Some (Some off) =>
      let name := drop (Z.to_nat (off + 1)) normalized in
      if path_at normalized (off + 1) =? 0 then None
      else Some (if off =? 0 then [SLASH] else take (Z.to_nat off) normalized, name)
  | _ => None
  end.

Definition VFS_Create v w (path : option bytes) (type : VFSNodeType) (mal : nat -> bool)
  : option (VFS W * W * VFSResult) :=
  match path with
  | None => Some (v, w, VFS_RES_INVALID)
  | Some _ =>
      if bool_decide (type = VFS_NODE_UNKNOWN) then Some (v, w, VFS_RES_INVALID)
      else if negb (s_vfs_initialized v) then Some (v, w, VFS_RES_ERROR)
      else
        r ← vfs_normalize_path path VFS_PATH_MAX;
        match r with
        | (VFS_RES_OK, normalized) =>
            if streq normalized [SLASH] then Some (v, w, VFS_RES_EXISTS)
            else match split_last normalized with
                 | None => Some (v, w, VFS_RES_INVALID)
                 | Some (parent_path, name) =>
                     if VFS_NAME_MAX <? zlen name then Some (v, w, VFS_RES_INVALID)
                     else if VFS_PATH_MAX <=? zlen parent_path then Some (v, w, VFS_RES_NO_SPACE)
                     else
                       x ← VFS_Resolve v w (Some parent_path) mal;
                       match x with
                       | (v, w, VFS_RES_OK, Some parent) =>
                           match node_ops w parent with
                           | Some ops =>
                               match op_create ops with
                               | Some create =>
                                   let v := vfs_cache_remove_exact v normalized in
                                   let '(w, r) := create w parent name type in Some (v, w, r)
                               | None => Some (v, w, VFS_RES_UNSUPPORTED)
                               end
                           | None => Some (v, w, VFS_RES_UNSUPPORTED)
                           end
                       | (v, w, VFS_RES_OK, None) => None (* parent->ops of a null pointer *)
                       | (v, w, e, _) => Some (v, w, e)
                       end
                 end
        | (e, _) => Some (v, w, e)
        end
  end.

Definition VFS_Remove v w (path : option bytes) (mal : nat -> bool) : option (VFS W * W * VFSResult) :=
  match path with
  | None => Some (v, w, VFS_RES_INVALID)
  | Some _ =>
      if negb (s_vfs_initialized v) then Some (v, w, VFS_RES_ERROR)
      else
        r ← vfs_normalize_path path VFS_PATH_MAX;
        match r with
        | (VFS_RES_OK, normalized) =>
            if streq normalized [SLASH] then Some (v, w, VFS_RES_BUSY)
            else match split_last normalized with
                 | None => Some (v, w, VFS_RES_INVALID)
                 | Some (parent_path, name) =>
                     if VFS_NAME_MAX <? zlen name then Some (v, w, VFS_RES_INVALID)
                     else if VFS_PATH_MAX <=? zlen parent_path then Some (v, w, VFS_RES_NO_SPACE)
                     else
                       x ← VFS_Resolve v w (Some parent_path) mal;
                       match x with
                       | (v, w, VFS_RES_OK, Some parent) =>
                           match node_ops w parent with
                           | Some ops =>
                               match op_remove ops with
                               | Some remove =>
                                   let v := vfs_cache_remove_prefix v normalized in
                                   let '(w, r) := remove w parent name in Some (v, w, r)
                               | None => Some (v, w, VFS_RES_UNSUPPORTED)
                               end
                           | None => Some (v, w, VFS_RES_UNSUPPORTED)
                           end
                       | (v, w, VFS_RES_OK, None) => None
                       | (v, w, e, _) => Some (v, w, e)
                       end
                 end
        | (e, _) => Some (v, w, e)
        end
  end.
End Ops.
