(* ===== verification/VfsHandle.v ===== *)
(** * Handles and streams of the virtual file system

    Opening, reading, writing, seeking and truncating through a [VFSHandle]
    ([kernel/filesystem/VFS.c]), the queries built on resolution, and the
    [FileStream] wrapper ([kernel/stream/FileStream.c]).  A handle is passed in
    and out of an operation as a value; a null handle is [None].  Signed
    results and offsets are 64 bits wide, positions unsigned 64 bits. *)

From S2P Require Import Prelude Bytes CString VfsPath Vfs.

Section Handles.
Context `{A : Arch} {W : Type} `{WW : VFSWorld W}.
Implicit Types (v : VFS W) (w : W).

Definition VFS_NodeName w (node : option Z) : option bytes := n ← node; n_name (get_node w n).
Definition VFS_NodeTypeOf w (node : option Z) : VFSNodeType :=
  match node with None => VFS_NODE_UNKNOWN | Some n => n_type (get_node w n) end.
Definition VFS_NodeParent w (node : option Z) : option Z := n ← node; n_parent (get_node w n).

(** [mal 0], [mal 1], [mal 2] the resolution, [mal 3] the handle. *)
Definition VFS_Open v w (path : option bytes) (mode : Z) (mal : nat -> bool)
  : option (VFS W * W * option VFSHandle) :=
  match path with
  | None => Some (v, w, None)
  | Some _ =>
      x ← VFS_Resolve v w path mal;
      match x with
      | (v, w, VFS_RES_OK, Some node) =>
          if negb (mal 3%nat) then Some (v, w, None)
          else
            match o ← node_ops w node; op_open o with
            | Some open =>
                match open w node mode with
                | (w, VFS_RES_OK, d) => Some (v, w, Some (mkHandle node d mode 0))
                | (w, _, _) => Some (v, w, None)
                end
            | None => Some (v, w, Some (mkHandle node NULL mode 0))
            end
      | (v, w, VFS_RES_OK, None) => None (* node->ops of a null pointer *)
      | (v, w, _, _) => Some (v, w, None)
      end
  end.

Definition VFS_Close w (handle : option VFSHandle) : W * VFSResult :=
  match handle with
  | None => (w, VFS_RES_INVALID)
  | Some h =>
      match o ← node_ops w (h_node h); op_close o with
      | Some close => close w (h_node h) (h_driver h)
      | None => (w, VFS_RES_OK)
      end
  end.

Definition mode_can_read (mode : Z) : bool :=
  if negb (Z.land mode VFS_OPEN_READ =? 0) then true
  else if Z.land mode (Z.lor VFS_OPEN_READ VFS_OPEN_WRITE) =? 0 then true
  else false.
Definition mode_can_write (mode : Z) : bool := negb (Z.land mode VFS_OPEN_WRITE =? 0).

Definition vfs_handle_can_read (handle : option VFSHandle) : bool :=
  match handle with None => false | Some h => mode_can_read (h_mode h) end.
Definition vfs_handle_can_write (handle : option VFSHandle) : bool :=
  match handle with None => false | Some h => mode_can_write (h_mode h) end.

Definition at_offset (h : VFSHandle) (offset : Z) : VFSHandle :=
  mkHandle (h_node h) (h_driver h) (h_mode h) offset.

(** [handle->offset += (uint64_t)n] when [n > 0]. *)
Definition advance (h : VFSHandle) (n : Z) : VFSHandle :=
  if 0 <? n then at_offset h (h_offset h +[64] n) else h.

(** [buffer] tells whether the pointer is not null; the bytes read are the
    last component. *)
Definition VFS_ReadAt w (handle : option VFSHandle) (offset : Z) (buffer : bool) (size : Z)
  : option (W * Z * bytes) :=
  match handle with
  | None => Some (w, -1, [])
  | Some h =>
      if negb buffer || (size =? 0) then Some (w, -1, [])
      else if negb (vfs_handle_can_read handle) then Some (w, -1, [])
      else match o ← node_ops w (h_node h); op_read o with
           | Some read => read w (h_node h) (h_driver h) offset size
           | None => Some (w, -1, [])
           end
  end.

Definition VFS_Read w (handle : option VFSHandle) (buffer : bool) (size : Z)
  : option (W * option VFSHandle * Z * bytes) :=
  match handle with
  | None => Some (w, handle, -1, [])
  | Some h =>
      if negb buffer || (size =? 0) then Some (w, handle, -1, [])
      else if negb (vfs_handle_can_read handle) then Some (w, handle, -1, [])
      else match o ← node_ops w (h_node h); op_read o with
           | Some read =>
               x ← read w (h_node h) (h_driver h) (h_offset h) size;
               let '(w, n, bs) := x in Some (w, Some (advance h n), n, bs)
           | None => Some (w, handle, -1, [])
           end
  end.

(** [buffer]: the bytes to write, [None] for a null pointer. *)
Definition VFS_WriteAt w (handle : option VFSHandle) (offset : Z) (buffer : option bytes) : option (W * Z) :=
  match handle, buffer with
  | Some h, Some bs =>
      if zlen bs =? 0 then Some (w, -1)
      else if negb (vfs_handle_can_write handle) then Some (w, -1)
      else match o ← node_ops w (h_node h); op_write o with
           | Some write => write w (h_node h) (h_driver h) offset bs
           | None => Some (w, -1)
           end
  | _, _ => Some (w, -1)
  end.

Definition VFS_Write w (handle : option VFSHandle) (buffer : option bytes)
  : option (W * option VFSHandle * Z) :=
  match handle, buffer with
  | Some h, Some bs =>
      if zlen bs =? 0 then Some (w, handle, -1)
      else if negb (vfs_handle_can_write handle) then Some (w, handle, -1)
      else match o ← node_ops w (h_node h); op_write o with
           | Some write =>
               x ← write w (h_node h) (h_driver h) (h_offset h) bs;
               let '(w, n) := x in Some (w, Some (advance h n), n)
           | None => Some (w, handle, -1)
           end
  | _, _ => Some (w, handle, -1)
  end.

Definition VFS_TruncateHandle w (handle : option VFSHandle) (length : Z) : option (W * VFSResult) :=
  match handle with
  | None => Some (w, VFS_RES_INVALID)
  | Some h =>
      if negb (vfs_handle_can_write handle) then Some (w, VFS_RES_ACCESS)
      else match o ← node_ops w (h_node h); op_truncate o with
           | Some truncate => truncate w (h_node h) (h_driver h) length
           | None => Some (w, VFS_RES_UNSUPPORTED)
           end
  end.

(** [offset < 0 && (uint64_t)(-offset) > base], where negating [INT64_MIN]
    overflows. *)
Definition seek_from (base offset : Z) : option (option Z) :=
  if offset <? 0
  then if offset =? - 2 ^ 63 then None
       else if base <? wrap 64 (- offset) then Some None
       else Some (Some (base +[64] wrap 64 offset))
  else Some (Some (base +[64] wrap 64 offset)).

Definition VFS_SeekHandle w (handle : option VFSHandle) (offset : Z) (whence : VFSSeekWhence)
  : option (W * option VFSHandle * VFSResult) :=
  match handle with
  | None => Some (w, None, VFS_RES_INVALID)
  | Some h =>
      let move w (base : Z) :=
        p ← seek_from base offset;
        Some (match p with
              | Some p => (w, Some (at_offset h p), VFS_RES_OK)
              | None => (w, handle, VFS_RES_INVALID)
              end) in
      match whence with
      | VFS_SEEK_SET =>
          Some (if offset <? 0 then (w, handle, VFS_RES_INVALID)
                else (w, Some (at_offset h offset), VFS_RES_OK))
      | VFS_SEEK_CUR => move w (h_offset h)
      | VFS_SEEK_END =>
          match VFS_NodeStat w (Some (h_node h)) with
          | (w, VFS_RES_OK, Some info) => move w (i_size info)
          | (w, _, _) => Some (w, handle, VFS_RES_ERROR)
          end
      | VFS_SEEK_OTHER => Some (w, handle, VFS_RES_INVALID)
      end
  end.
(** ** Queries *)

Definition VFS_DirectoryExists v w (path : option bytes) (mal : nat -> bool) : option (VFS W * W * bool) :=
  match path with
  | None => Some (v, w, false)
  | Some _ =>
      x ← VFS_Resolve v w path mal;
      match x with
      | (v, w, VFS_RES_OK, Some n) => Some (v, w, bool_decide (n_type (get_node w n) = VFS_NODE_DIRECTORY))
      | (v, w, _, _) => Some (v, w, false)
      end
  end.

Definition VFS_FileExists v w (path : option bytes) (mal : nat -> bool) : option (VFS W * W * bool) :=
  match path with
  | None => Some (v, w, false)
  | Some _ =>
      x ← VFS_Resolve v w path mal;
      match x with
      | (v, w, VFS_RES_OK, Some n) =>
          Some (v, w, bool_decide (n_type (get_node w n) = VFS_NODE_REGULAR)
                      || bool_decide (n_type (get_node w n) = VFS_NODE_SYMLINK))
      | (v, w, _, _) => Some (v, w, false)
      end
  end.

(** The loop over [index]; [emal i] allocates the entry, [lmal i] its list
    node (without it [List_Add] drops the entry).  The loop ends only when the
    driver says so: [None] means the fuel ran out. *)
Fixpoint contents_loop (readdir : W -> Z -> Z -> Z -> W * VFSResult * VFSDirEntry) (emal lmal : nat -> bool)
  (fuel : nat) w (directory : Z) (index : nat) (contents : list VFSDirEntry)
  : option (W * option (list VFSDirEntry)) :=
  match fuel with
  | O => None
  | S fuel =>
      if negb (emal index) then Some (w, None)
      else
        match readdir w directory NULL (wrap size_bits (Z.of_nat index)) with
        | (w, VFS_RES_NOT_FOUND, _) => Some (w, Some contents)
        | (w, VFS_RES_OK, e) =>
            contents_loop readdir emal lmal fuel w directory (S index)
              (if lmal index then contents ++ [e] else contents)
        | (w, _, _) => Some (w, None)
        end
  end.

(** [mal 3]: the list. *)
Definition VFS_GetDirectoryContents (fuel : nat) v w (path : option bytes) (mal emal lmal : nat -> bool)
  : option (VFS W * W * option (list VFSDirEntry)) :=
  match path with
  | None => Some (v, w, None)
  | Some _ =>
      x ← VFS_Resolve v w path mal;
      match x with
      | (v, w, VFS_RES_OK, Some d) =>
          if negb (bool_decide (n_type (get_node w d) = VFS_NODE_DIRECTORY)) then Some (v, w, None)
          else match o ← node_ops w d; op_readdir o with
               | None => Some (v, w, None)
               | Some readdir =>
                   if negb (mal 3%nat) then Some (v, w, None)
                   else r ← contents_loop readdir emal lmal fuel w d 0 []; Some (v, r.1, r.2)
               end
      | (v, w, _, _) => Some (v, w, None)
      end
  end.

(** ** [FileStream] *)

Record FileStream := mkStream { f_handle : option VFSHandle; f_mode : Z; f_owns_handle : bool }.

Definition filestream_alloc (handle : option VFSHandle) (mode : Z) (take_ownership mal : bool)
  : option FileStream :=
  match handle with
  | None => None
  | Some h => if mal then Some (mkStream handle (if mode =? 0 then h_mode h else mode) take_ownership) else None
  end.

Definition FileStream_Create w (handle : option VFSHandle) (mode : Z) (take_ownership mal : bool)
  : W * option FileStream :=
  match filestream_alloc handle mode take_ownership mal, handle with
  | None, Some _ => (if take_ownership then (VFS_Close w handle).1 else w, None)
  | s, _ => (w, s)
  end.

Definition FileStream_Open v w (path : option bytes) (mode : Z) (mal : nat -> bool)
  : option (VFS W * W * option FileStream) :=
  x ← VFS_Open v w path mode mal;
  match x with
  | (v, w, None) => Some (v, w, None)
  | (v, w, h) => match filestream_alloc h mode true (mal 4%nat) with
                 | None => Some (v, (VFS_Close w h).1, None)
                 | s => Some (v, w, s)
                 end
  end.

Definition FileStream_Close w (stream : option FileStream) : W :=
  match stream with
  | None => w
  | Some s => match f_handle s with
              | Some _ => if f_owns_handle s then (VFS_Close w (f_handle s)).1 else w
              | None => w
              end
  end.

Definition FileStream_CanRead (stream : option FileStream) : bool :=
  match stream with
  | Some s => match f_handle s with Some _ => mode_can_read (f_mode s) | None => false end
  | None => false
  end.
Definition FileStream_CanWrite (stream : option FileStream) : bool :=
  match stream with
  | Some s => match f_handle s with Some _ => mode_can_write (f_mode s) | None => false end
  | None => false
  end.

Definition stream_handle (stream : option FileStream) : option VFSHandle := s ← stream; f_handle s.
Definition set_handle (stream : option FileStream) (h : option VFSHandle) : option FileStream :=
  (fun s => mkStream h (f_mode s) (f_owns_handle s)) <$> stream.

Definition FileStream_Read w (stream : option FileStream) (buffer : bool) (size : Z)
  : option (W * option FileStream * Z * bytes) :=
  if negb (FileStream_CanRead stream) then Some (w, stream, -1, [])
  else x ← VFS_Read w (stream_handle stream) buffer size;
       let '(w, h, n, bs) := x in Some (w, set_handle stream h, n, bs).

Definition FileStream_ReadAt w (stream : option FileStream) (offset : Z) (buffer : bool) (size : Z)
  : option (W * Z * bytes) :=
  if negb (FileStream_CanRead stream) then Some (w, -1, [])
  else VFS_ReadAt w (stream_handle stream) offset buffer size.

Definition FileStream_Write w (stream : option FileStream) (buffer : option bytes)
  : option (W * option FileStream * Z) :=
  if negb (FileStream_CanWrite stream) then Some (w, stream, -1)
  else x ← VFS_Write w (stream_handle stream) buffer;
       let '(w, h, n) := x in Some (w, set_handle stream h, n).

Definition FileStream_WriteAt w (stream : option FileStream) (offset : Z) (buffer : option bytes)
  : option (W * Z) :=
  if negb (FileStream_CanWrite stream) then Some (w, -1)
  else VFS_WriteAt w (stream_handle stream) offset buffer.

Definition FileStream_Seek w (stream : option FileStream) (offset : Z) (whence : VFSSeekWhence)
  : option (W * option FileStream * VFSResult) :=
  match stream_handle stream with
  | None => Some (w, stream, VFS_RES_INVALID)
  | h => x ← VFS_SeekHandle w h offset whence; Some (x.1.1, set_handle stream x.1.2, x.2)
  end.

Definition FileStream_Truncate w (stream : option FileStream) (length : Z) : option (W * VFSResult) :=
  match stream_handle stream with
  | None => Some (w, VFS_RES_INVALID)
  | h => VFS_TruncateHandle w h length
  end.

Definition FileStream_Tell (stream : option FileStream) : Z :=
  match stream_handle stream with None => 0 | Some h => h_offset h end.
End Handles.

(** ** Seeking *)

Section Seek.
Context `{A : Arch} {W : Type} `{WW : VFSWorld W}.

(** The position an offset counts from: the start, the handle's position or
    the size the driver reports. *)
Definition seek_base (w : W) (h : VFSHandle) (whence : VFSSeekWhence) : option (W * Z) :=
  match whence with
  | VFS_SEEK_SET => Some (w, 0)
  | VFS_SEEK_CUR => Some (w, h_offset h)
  | VFS_SEEK_END => match VFS_NodeStat w (Some (h_node h)) with
                    | (w, VFS_RES_OK, Some info) => Some (w, i_size info)
                    | _ => None
                    end
  | VFS_SEEK_OTHER => None
  end.

Lemma seek_from_spec base off : 0 <= base < 2 ^ 64 -> - 2 ^ 63 < off < 2 ^ 63 ->
  seek_from base off = Some (if base + off <? 0 then None else Some (wrap 64 (base + off))).
Proof.
  intros Hb Ho. unfold seek_from.
  assert (base +[64] wrap 64 off = wrap 64 (base + off)) as Hw by (unfold wrap; by rewrite Zplus_mod_idemp_r).
  rewrite Hw. destruct (Z.ltb_spec off 0).
  - destruct (Z.eqb_spec off (- 2 ^ 63)); [lia|]. rewrite wrap_small by lia.
    destruct (Z.ltb_spec base (- off)), (Z.ltb_spec (base + off) 0); try lia; done.
  - destruct (Z.ltb_spec (base + off) 0); [lia|done].
Qed.

(** Seeking by any offset but the most negative one returns: a target
    before the start of the file is refused and the position stays; otherwise
    the position is the base plus the offset (modulo 2^64), for each of the
    three bases. *)
Theorem vfs_seek_spec (w w' : W) h off whence base : - 2 ^ 63 < off < 2 ^ 63 ->
  seek_base w h whence = Some (w', base) -> 0 <= base < 2 ^ 64 ->
  VFS_SeekHandle w (Some h) off whence =
  Some (if base + off <? 0 then (w', Some h, VFS_RES_INVALID)
        else (w', Some (at_offset h (wrap 64 (base + off))), VFS_RES_OK)).
Proof.
  intros Ho Hbase Hb. destruct whence; cbn [VFS_SeekHandle seek_base] in *; [| | |done].
  - injection Hbase as <- <-. rewrite Z.add_0_l. destruct (Z.ltb_spec off 0); [done|]. by rewrite wrap_small by lia.
  - injection Hbase as <- <-. rewrite seek_from_spec by lia. cbn [mbind option_bind]. by destruct (_ <? 0).
  - destruct (VFS_NodeStat w (Some (h_node h))) as [[w1 []] [info|]]; try done. injection Hbase as <- <-.
    rewrite seek_from_spec by lia. cbn [mbind option_bind]. by destruct (_ <? 0).
Qed.
End Seek.

(** A world without nodes, and a handle at position 10 moved back by 4. *)
Definition no_nodes : VFSWorld unit :=
  {| get_node := fun _ _ => mkNode None VFS_NODE_UNKNOWN 0 None None; set_node := fun w _ _ => w; node_ops := fun _ _ => None |}.

Lemma vfs_seek_spec_witness :
  @VFS_SeekHandle unit no_nodes tt (Some (mkHandle 1 0 1 10)) (-4) VFS_SEEK_CUR =
  Some (if 10 + -4 <? 0 then (tt, Some (mkHandle 1 0 1 10), VFS_RES_INVALID)
        else (tt, Some (at_offset (mkHandle 1 0 1 10) (wrap 64 (10 + -4))), VFS_RES_OK)).
Proof. apply (@vfs_seek_spec unit no_nodes tt tt (mkHandle 1 0 1 10) (-4) VFS_SEEK_CUR 10); [lia|reflexivity|lia]. Defined.

(** Negating the most negative offset overflows. *)
Lemma seek_min_overflows : @VFS_SeekHandle unit no_nodes tt (Some (mkHandle 1 0 1 10)) (- 2 ^ 63) VFS_SEEK_CUR = None.
Proof. reflexivity. Qed.
