(* ===== verification/VfsCache.v ===== *)
(** * The path cache is an LRU map

    The list operations of the cache ([vfs_cache_lookup], [vfs_cache_insert],
    [vfs_cache_remove_exact], [vfs_cache_remove_prefix],
    [vfs_cache_trim_to_capacity]) against a reference least-recently-used map
    of bounded size. *)

From S2P Require Import Prelude Bytes CString VfsPath Vfs.

(** Keys are distinct C strings, nodes are not null, and the capacity holds. *)
Definition cache_ok (cap : Z) (es : list (bytes * Z)) : Prop :=
  NoDup es.*1 /\ Forall (fun e => (0 ∉ e.1) /\ e.2 <> NULL) es /\ Z.of_nat (length es) <= cap.

(** ** The reference *)

Definition lru_without (path : bytes) (es : list (bytes * Z)) : list (bytes * Z) :=
  filter (fun e => e.1 <> path) es.
Definition lru_get (path : bytes) (es : list (bytes * Z)) : option Z :=
  snd <$> List.find (fun e => bool_decide (e.1 = path)) es.
Definition lru_touch (path : bytes) (es : list (bytes * Z)) : list (bytes * Z) :=
  match lru_get path es with Some n => (path, n) :: lru_without path es | None => es end.
Definition lru_room (cap : Z) (path : bytes) (es : list (bytes * Z)) : list (bytes * Z) :=
  take (Z.to_nat (cap - 1)) (lru_without path es).
Definition lru_put (cap : Z) (path : bytes) (node : Z) (es : list (bytes * Z)) : list (bytes * Z) :=
  (path, node) :: lru_room cap path es.
Definition lru_drop (prefix : bytes) (es : list (bytes * Z)) : list (bytes * Z) :=
  filter (fun e => vfs_cache_path_is_under e.1 prefix = false) es.

(** ** Lists of entries *)

Lemma cache_ok_sub cap es es' : es' `sublist_of` es -> cache_ok cap es -> cache_ok cap es'.
Proof.
  intros Hs (Hn & Hf & Hl). split_and!.
  - eapply sublist_NoDup; [done|]. by apply (fmap_sublist fst).
  - rewrite Forall_forall in Hf |- *. intros e He. apply Hf. apply elem_of_submseteq with es'; [done|]. by apply sublist_submseteq.
  - apply sublist_length in Hs. lia.
Qed.

Lemma cache_ok_perm cap es es' : es' ≡ₚ es -> cache_ok cap es -> cache_ok cap es'.
Proof. intros Hp. unfold cache_ok. by rewrite Hp. Qed.

Lemma without_notin path es : path ∉ es.*1 -> lru_without path es = es.
Proof.
  induction es as [|e es IH]; [done|]. rewrite fmap_cons, not_elem_of_cons. intros [Hne Hin].
  unfold lru_without. rewrite filter_cons_True by done. f_equal. by apply IH.
Qed.

Lemma without_mid path n a b : NoDup (a ++ (path, n) :: b).*1 -> lru_without path (a ++ (path, n) :: b) = a ++ b.
Proof.
  rewrite fmap_app, fmap_cons. cbn [fst]. intros (_ & Ha & [Hb _]%NoDup_cons)%NoDup_app.
  unfold lru_without. rewrite filter_app, filter_cons_False by naive_solver. f_equal; apply without_notin; set_solver.
Qed.

Lemma get_mid path n a b : (path ∉ a.*1) -> lru_get path (a ++ (path, n) :: b) = Some n.
Proof.
  unfold lru_get. induction a as [|e a IH]; cbn [app List.find fst].
  - by rewrite bool_decide_eq_true_2.
  - rewrite fmap_cons, not_elem_of_cons. intros [Hne Hin]. rewrite bool_decide_eq_false_2 by done. by apply IH.
Qed.

Lemma get_notin path es : path ∉ es.*1 -> lru_get path es = None.
Proof.
  unfold lru_get. induction es as [|e es IH]; [done|]. rewrite fmap_cons, not_elem_of_cons. intros [Hne Hin].
  cbn [List.find]. rewrite bool_decide_eq_false_2 by done. by apply IH.
Qed.

Lemma get_in path n es : lru_get path es = Some n -> (path, n) ∈ es.
Proof.
  unfold lru_get. destruct (List.find _ es) as [[p m]|] eqn:E; [|done]. intros [= <-].
  apply List.find_some in E as [Hin Hp]. cbn [fst snd] in *. apply bool_decide_eq_true_1 in Hp. subst.
  by apply list_elem_of_In.
Qed.

(** The search of the loops: the first entry with the path, and its index. *)
Lemma find_entry_spec path es i : (0 ∉ path) -> Forall (fun e => (0 ∉ e.1) /\ e.2 <> NULL) es ->
  match find_entry path es i with
  | None => path ∉ es.*1
  | Some (j, e) => exists a b, es = a ++ e :: b /\ j = (i + length a)%nat /\ e.1 = path /\ (path ∉ a.*1)
  end.
Proof.
  intros Hp Hf. revert i. induction Hf as [|e es [He _] _ IH]; intros i; cbn [find_entry]; [by apply not_elem_of_nil|].
  destruct (streq e.1 path) eqn:E.
  - apply streq_spec in E; [|done..]. exists [], es. split_and!; [done|cbn; lia|done|by apply not_elem_of_nil].
  - assert (e.1 <> path) as Hne by (intros Heq; apply streq_spec in Heq; [congruence|done..]).
    specialize (IH (S i)). destruct (find_entry path es (S i)) as [[j e']|].
    + destruct IH as (a & b & -> & -> & ? & ?). exists (e :: a), b. split_and!; [done|cbn; lia|done|].
      rewrite fmap_cons, not_elem_of_cons. done.
    + rewrite fmap_cons, not_elem_of_cons. done.
Qed.

Lemma delete_mid {X} (a b : list X) x : delete (length a) (a ++ x :: b) = a ++ b.
Proof. induction a; cbn; [done|]. by f_equal. Qed.

Lemma delete_last {X} (l : list X) : delete (length l - 1)%nat l = take (length l - 1) l.
Proof.
  destruct l as [|x l _] using rev_ind; [done|]. rewrite length_app. cbn [length].
  replace (length l + 1 - 1)%nat with (length l) by lia. by rewrite delete_mid, app_nil_r, take_app_length.
Qed.

Lemma trim_loop_spec cap fuel es : 0 <= cap -> (length es <= fuel)%nat ->
  trim_loop cap fuel es = take (Z.to_nat cap) es.
Proof.
  intros Hc. revert es. induction fuel as [|fuel IH]; intros es Hf; cbn [trim_loop].
  { destruct es; [|cbn in Hf; lia]. by rewrite take_nil. }
  destruct (Z.ltb_spec cap (Z.of_nat (length es))).
  - rewrite IH by (rewrite delete_last, length_take; lia). rewrite delete_last, take_take. f_equal. lia.
  - rewrite take_ge; [done|lia].
Qed.

Lemma remove_prefix_loop_spec prefix es : remove_prefix_loop prefix es = lru_drop prefix es.
Proof.
  induction es as [|e es IH]; [done|]. cbn [remove_prefix_loop]. unfold lru_drop.
  destruct (vfs_cache_path_is_under e.1 prefix) eqn:E.
  - rewrite filter_cons_False by congruence. done.
  - rewrite filter_cons_True by done. by f_equal.
Qed.

(** ** The operations *)

Section Ops.
Context `{A : Arch} {W : Type}.
Implicit Types (v : VFS W).

(** Everything but the cache and its counters. *)
Definition same_mounts v v' : Prop :=
  s_vfs_initialized v' = s_vfs_initialized v /\ s_filesystems v' = s_filesystems v /\
  s_mounts v' = s_mounts v /\ s_root_mount v' = s_root_mount v /\ s_cache_capacity v' = s_cache_capacity v.

Lemma same_mounts_trans v1 v2 v3 : same_mounts v1 v2 -> same_mounts v2 v3 -> same_mounts v1 v3.
Proof. unfold same_mounts. intuition congruence. Qed.

Definition cache_is v (es : list (bytes * Z)) : Prop :=
  s_cache_entries v = Some es /\ cache_ok (s_cache_capacity v) es.

Lemma lookup_refines v es path mal : cache_is v es -> (0 ∉ path) ->
  let '(v', n) := vfs_cache_lookup v path mal in
  n = lru_get path es /\ same_mounts v v' /\
  exists es', cache_is v' es' /\ (es' = lru_touch path es \/ (mal = false /\ es' = lru_without path es)).
Proof.
  intros [He Hok] Hp. pose proof Hok as (Hn & Hf & Hl). unfold vfs_cache_lookup, vfs_cache_enabled. rewrite He.
  destruct (Z.ltb_spec 0 (s_cache_capacity v)) as [Hc|Hc]; cbn [negb]; cycle 1.
  { destruct es as [|e es]; [|cbn in Hl; lia]. split; [done|]. split; [by repeat split|]. exists []. split; [done|by left]. }
  pose proof (find_entry_spec path es 0 Hp Hf) as Hfind. destruct (find_entry path es 0) as [[j [q n]]|].
  - destruct Hfind as (a & b & -> & -> & Hq & Ha). cbn [fst snd] in *. subst q. rewrite (get_mid path n a b Ha).
    split; [done|]. split; [by repeat split|]. cbn [plus]. unfold lru_touch. rewrite (get_mid path n a b Ha).
    rewrite (without_mid path n a b Hn), delete_mid. destruct a as [|e a]; cbn [Nat.eqb length negb app].
    { exists ((path, n) :: b). split; [|by left]. split; done. }
    destruct mal; (eexists; split; [|by eauto]); (split; [done|]).
    + eapply cache_ok_perm; [|exact Hok]. apply (Permutation_middle (e :: a)).
    + eapply cache_ok_sub; [|done].
      change (e :: a ++ b) with ((e :: a) ++ b). apply sublist_app; [done|]. by apply sublist_cons.
  - rewrite (get_notin path es Hfind). split; [done|]. split; [by repeat split|]. exists es. split; [done|].
    left. unfold lru_touch. by rewrite (get_notin path es Hfind).
Qed.
Lemma delete_found path es : (0 ∉ path) -> NoDup es.*1 -> Forall (fun e => (0 ∉ e.1) /\ e.2 <> NULL) es ->
  match find_entry path es 0 with None => es | Some (i, _) => delete i es end = lru_without path es.
Proof.
  intros Hp Hn Hf. pose proof (find_entry_spec path es 0 Hp Hf) as H.
  destruct (find_entry path es 0) as [[j [q n]]|]; [|by rewrite without_notin].
  destruct H as (a & b & -> & -> & Hq & _). cbn [fst] in Hq. subst q.
  by rewrite Nat.add_0_l, delete_mid, without_mid.
Qed.

Lemma without_sublist path es : lru_without path es `sublist_of` es.
Proof. apply sublist_filter. Qed.

Lemma notin_without path es : path ∉ (lru_without path es).*1.
Proof. intros ([q n] & -> & [Hne _]%list_elem_of_filter)%list_elem_of_fmap. done. Qed.

Lemma room_sublist cap path es : lru_room cap path es `sublist_of` es.
Proof. etrans; [apply sublist_take|apply without_sublist]. Qed.

Lemma put_ok cap path node es : 0 < cap -> (0 ∉ path) -> node <> NULL -> cache_ok cap es ->
  cache_ok cap (lru_put cap path node es).
Proof.
  intros Hc Hp Hn Hok. destruct (cache_ok_sub cap es _ (room_sublist cap path es) Hok) as (H1 & H2 & _).
  unfold lru_put. split_and!.
  - rewrite fmap_cons. constructor; [|done]. intros Hin. apply (notin_without path es).
    eapply elem_of_submseteq; [exact Hin|]. apply sublist_submseteq, (fmap_sublist fst), sublist_take.
  - by constructor.
  - cbn [length]. unfold lru_room. rewrite length_take. lia.
Qed.

Lemma insert_refines v es path node mal : cache_is v es -> (0 ∉ path) -> node <> NULL -> 0 < s_cache_capacity v ->
  let v' := vfs_cache_insert v path node mal in
  same_mounts v v' /\
  cache_is v' (if mal 0%nat && mal 1%nat then lru_put (s_cache_capacity v) path node es
               else lru_room (s_cache_capacity v) path es).
Proof.
  intros [He Hok] Hp Hnode Hc v'. subst v'. pose proof Hok as (Hn & Hf & Hl).
  unfold vfs_cache_insert, vfs_cache_enabled. rewrite He.
  destruct (Z.eqb_spec node NULL); [done|]. destruct (Z.ltb_spec 0 (s_cache_capacity v)); [|lia]. cbn [negb].
  rewrite (delete_found path es Hp Hn Hf).
  pose proof (sublist_length _ _ (without_sublist path es)) as Hlen.
  replace (if s_cache_capacity v <=? Z.of_nat (length (lru_without path es))
    then delete (length (lru_without path es) - 1)%nat (lru_without path es) else lru_without path es)
    with (lru_room (s_cache_capacity v) path es).
  - destruct (mal 0%nat && mal 1%nat); (split; [by repeat split|]); (split; [done|]).
    + by apply put_ok.
    + eapply cache_ok_sub; [apply room_sublist|done].
  - unfold lru_room. destruct (Z.leb_spec (s_cache_capacity v) (Z.of_nat (length (lru_without path es)))).
    + rewrite delete_last. f_equal. lia.
    + rewrite take_ge; [done|lia].
Qed.

Lemma remove_exact_refines v es path : cache_is v es -> (0 ∉ path) ->
  same_mounts v (vfs_cache_remove_exact v path) /\ cache_is (vfs_cache_remove_exact v path) (lru_without path es).
Proof.
  intros [He Hok] Hp. pose proof Hok as (Hn & Hf & Hl). unfold vfs_cache_remove_exact. rewrite He.
  pose proof (delete_found path es Hp Hn Hf) as Hd. pose proof (without_sublist path es) as Hs.
  destruct (find_entry path es 0) as [[i e]|]; (split; [by repeat split|]).
  - rewrite Hd. split; [done|]. by eapply cache_ok_sub.
  - rewrite <- Hd. done.
Qed.

Lemma remove_prefix_refines v es prefix : cache_is v es ->
  same_mounts v (vfs_cache_remove_prefix v prefix) /\ cache_is (vfs_cache_remove_prefix v prefix) (lru_drop prefix es).
Proof.
  intros [He Hok]. unfold vfs_cache_remove_prefix. rewrite He, remove_prefix_loop_spec. split; [by repeat split|].
  split; [done|]. eapply cache_ok_sub; [apply sublist_filter|done].
Qed.

Lemma set_capacity_refines v es cap : cache_is v es -> 0 <= cap ->
  cache_is (VFS_CacheSetCapacity v cap) (take (Z.to_nat cap) es) /\
  s_cache_capacity (VFS_CacheSetCapacity v cap) = cap /\
  s_mounts (VFS_CacheSetCapacity v cap) = s_mounts v /\ s_root_mount (VFS_CacheSetCapacity v cap) = s_root_mount v /\
  s_vfs_initialized (VFS_CacheSetCapacity v cap) = s_vfs_initialized v.
Proof.
  intros [He (Hn & Hf & Hl)] Hc. unfold VFS_CacheSetCapacity, vfs_cache_trim_to_capacity, vfs_cache_clear.
  cbn [s_cache_entries s_cache_capacity]. rewrite He.
  assert (cache_ok cap (take (Z.to_nat cap) es)) as Hok.
  { destruct (cache_ok_sub (s_cache_capacity v) es (take (Z.to_nat cap) es)) as (H1 & H2 & _).
    - apply sublist_take.
    - done.
    - split_and!; try done. rewrite length_take. lia. }
  destruct (Z.eqb_spec cap 0) as [->|]; [by (split; [split|repeat split])|].
  rewrite trim_loop_spec by lia. by (split; [split|repeat split]).
Qed.
(** ** Sequences of operations *)

Inductive cache_op :=
| OpLookup (path : bytes) | OpInsert (path : bytes) (node : Z) | OpRemoveExact (path : bytes)
| OpRemovePrefix (prefix : bytes) | OpSetCapacity (capacity : Z) | OpFlush.

Definition op_ok (op : cache_op) : Prop :=
  match op with
  | OpLookup path | OpRemoveExact path => 0 ∉ path
  | OpInsert path node => (0 ∉ path) /\ node <> NULL
  | OpSetCapacity c => 0 <= c
  | _ => True
  end.

(** The code, with allocations that succeed. *)
Definition cache_run v (op : cache_op) : VFS W * option Z :=
  match op with
  | OpLookup path => vfs_cache_lookup v path true
  | OpInsert path node => (vfs_cache_insert v path node (fun _ => true), None)
  | OpRemoveExact path => (vfs_cache_remove_exact v path, None)
  | OpRemovePrefix prefix => (vfs_cache_remove_prefix v prefix, None)
  | OpSetCapacity c => (VFS_CacheSetCapacity v c, None)
  | OpFlush => (VFS_CacheFlush v, None)
  end.

(** The reference, on capacity and entries. *)
Definition lru_run (st : Z * list (bytes * Z)) (op : cache_op) : Z * list (bytes * Z) * option Z :=
  let '(cap, es) := st in
  match op with
  | OpLookup path => (cap, lru_touch path es, lru_get path es)
  | OpInsert path node => (cap, if 0 <? cap then lru_put cap path node es else es, None)
  | OpRemoveExact path => (cap, lru_without path es, None)
  | OpRemovePrefix prefix => (cap, lru_drop prefix es, None)
  | OpSetCapacity c => (c, take (Z.to_nat c) es, None)
  | OpFlush => (cap, [], None)
  end.

Lemma cache_run_step v es op : cache_is v es -> op_ok op ->
  let '(v', r) := cache_run v op in
  exists es', lru_run (s_cache_capacity v, es) op = (s_cache_capacity v', es', r) /\ cache_is v' es'.
Proof.
  intros Hc Hop. destruct op as [path|path node|path|prefix|c|]; cbn [cache_run lru_run].
  - pose proof (lookup_refines v es path true Hc Hop) as H. destruct (vfs_cache_lookup v path true) as [v' r].
    destruct H as (-> & (_ & _ & _ & _ & ->) & es' & Hc' & [->|[? _]]); [|done]. by eauto.
  - destruct Hop as [Hp Hn]. destruct (Z.ltb_spec 0 (s_cache_capacity v)) as [Hcap|Hcap].
    + destruct (insert_refines v es path node (fun _ => true) Hc Hp Hn Hcap) as ((_ & _ & _ & _ & ->) & ?). by eauto.
    + unfold vfs_cache_insert, vfs_cache_enabled. destruct Hc as [He Hok]. rewrite He.
      destruct (Z.eqb_spec node NULL); [done|]. destruct (Z.ltb_spec 0 (s_cache_capacity v)); [lia|]. by eexists.
  - destruct (remove_exact_refines v es path Hc Hop) as ((_ & _ & _ & _ & ->) & ?). by eauto.
  - destruct (remove_prefix_refines v es prefix Hc) as ((_ & _ & _ & _ & ->) & ?). by eauto.
  - destruct (set_capacity_refines v es c Hc Hop) as (? & -> & _). by eauto.
  - exists []. destruct Hc as [He (? & ? & ?)]. unfold VFS_CacheFlush, vfs_cache_clear. rewrite He. split; [done|].
    split; [done|]. split_and!; [constructor|constructor|cbn in *; lia].
Qed.

Fixpoint cache_runs v (ops : list cache_op) : VFS W * list (option Z) :=
  match ops with
  | [] => (v, [])
  | op :: ops => let '(v, r) := cache_run v op in let '(v, rs) := cache_runs v ops in (v, r :: rs)
  end.

Fixpoint lru_runs (st : Z * list (bytes * Z)) (ops : list cache_op) : Z * list (bytes * Z) * list (option Z) :=
  match ops with
  | [] => (st, [])
  | op :: ops => let '(st, r) := lru_run st op in let '(st, rs) := lru_runs st ops in (st, r :: rs)
  end.

(** C5.  Over any sequence of lookups, insertions, removals, changes of
    capacity and flushes the path cache answers exactly as a bounded
    least-recently-used map, its entries stay in recency order, its keys stay
    distinct and it never holds more entries than its capacity. *)
Theorem vfs_cache_refines_lru v es ops : cache_is v es -> Forall op_ok ops ->
  let '(v', rs) := cache_runs v ops in
  exists es', lru_runs (s_cache_capacity v, es) ops = (s_cache_capacity v', es', rs) /\ cache_is v' es'.
Proof.
  intros Hc Hops. revert v es Hc. induction Hops as [|op ops Hop _ IH]; intros v es Hc; cbn [cache_runs lru_runs].
  { by exists es. }
  pose proof (cache_run_step v es op Hc Hop) as H. destruct (cache_run v op) as [v1 r].
  destruct H as (es1 & -> & Hc1). specialize (IH v1 es1 Hc1). destruct (cache_runs v1 ops) as [v2 rs].
  destruct IH as (es2 & -> & Hc2). by exists es2.
Qed.
End Ops.

(** An empty cache of capacity 2; after "/a", "/b", a lookup of "/a" and "/c",
    the entry of "/b" is the one evicted. *)
Definition example_cache : VFS unit := mkVFS true (Some []) (Some []) None (Some []) 2 0 0.
Definition example_ops : list cache_op :=
  [OpInsert [47; 97] 1; OpInsert [47; 98] 2; OpLookup [47; 97]; OpInsert [47; 99] 3;
   OpLookup [47; 98]; OpLookup [47; 97]].

Lemma vfs_cache_refines_lru_witness :
  let '(v, rs) := @cache_runs AMD64 unit example_cache example_ops in
  rs = [None; None; Some 1; None; None; Some 1] /\
  exists es, lru_runs (2, []) example_ops = (s_cache_capacity v, es, rs) /\ cache_is v es.
Proof.
  pose proof (@vfs_cache_refines_lru AMD64 unit example_cache [] example_ops) as H.
  assert (cache_is example_cache []) as Hc.
  { split; [done|]. split_and!; [constructor|constructor|cbn; lia]. }
  assert (Forall op_ok example_ops) as Ho.
  { unfold example_ops. repeat constructor; cbn; try (apply (bool_decide_unpack _); vm_compute; exact I); done. }
  specialize (H Hc Ho). destruct (cache_runs example_cache example_ops) as [v rs] eqn:E.
  split; [|exact H]. apply (f_equal snd) in E. vm_compute in E. by rewrite <- E.
Defined.
