(* ===== verification/VfsResolve.v ===== *)
(** * Resolution of paths, with and without the cache

    What a file system driver promises to the virtual file system ([FsLaws]),
    and what the virtual file system then promises to its clients: resolving a
    path through the cache gives the node that the mount table and the drivers
    give, in every state reached by resolving, creating, removing, mounting
    and unmounting. *)

From S2P Require Import Prelude Bytes CString VfsPath Vfs VfsCache.

(** The tree of a driver: the node below [n] with a name, if any. *)
Fixpoint descend {W} (child : W -> Z -> bytes -> option Z) (w : W) (n : Z) (segs : list bytes) : option Z :=
  match segs with [] => Some n | s :: segs => c ← child w n s; descend child w c segs end.

(** Nothing of the tree of [w] is lost or changed in [w']. *)
Definition keeps {W} (child : W -> Z -> bytes -> option Z) (w w' : W) : Prop :=
  forall n s c, child w n s = Some c -> child w' n s = Some c.
Definition same_tree {W} (child : W -> Z -> bytes -> option Z) (w w' : W) : Prop :=
  forall n s, child w' n s = child w n s.

(** A forest with these roots: nodes are not null, no root is a child, and a
    node has one parent and one name. *)
Record forest {W} (child : W -> Z -> bytes -> option Z) (rs : list Z) (w : W) : Prop := {
  roots_distinct : NoDup rs;
  roots_not_null : NULL ∉ rs;
  child_ok : forall n s c, child w n s = Some c -> c <> NULL /\ (c ∉ rs);
  child_inj : forall n s n' s' c, child w n s = Some c -> child w n' s' = Some c -> n = n' /\ s = s'
}.

(** The node belongs to the tree of a root. *)
Definition live {W} (child : W -> Z -> bytes -> option Z) (rs : list Z) (w : W) (n : Z) : Prop :=
  exists r segs, r ∈ rs /\ descend child w r segs = Some n.

(** Children outside the subtree of [d] are kept. *)
Definition keeps_outside {W} (child : W -> Z -> bytes -> option Z) (w w' : W) (d : Z) : Prop :=
  forall n s c, child w n s = Some c -> (forall u, descend child w d u <> Some n) -> c <> d -> child w' n s = Some c.

(** The contract of the drivers; [fs_inv rs w] holds in the states of the
    drivers when [rs] are the roots of the mounted file systems. *)
Class FsLaws (W : Type) `{WW : VFSWorld W} := {
  child : W -> Z -> bytes -> option Z;
  fs_inv : list Z -> W -> Prop;
  fs_known : VFSFileSystem W -> Prop;
  inv_forest rs w : fs_inv rs w -> forest child rs w;
  inv_perm rs rs' w : rs ≡ₚ rs' -> fs_inv rs w -> fs_inv rs' w;
  no_lookup rs w n s : fs_inv rs w -> (o ← node_ops w n; op_lookup o) = None -> child w n s = None;
  lookup_law rs w n s o f w' r x : fs_inv rs w -> live child rs w n -> clean s ->
    node_ops w n = Some o -> op_lookup o = Some f -> f w n s = (w', r, x) ->
    fs_inv rs w' /\ same_tree child w w' /\
    child w n s = match r with VFS_RES_OK => x | _ => None end;
  create_law rs w n s t o f w' r : fs_inv rs w -> live child rs w n -> clean s ->
    node_ops w n = Some o -> op_create o = Some f -> f w n s t = (w', r) ->
    fs_inv rs w' /\ keeps child w w';
  remove_law rs w n s o f w' r : fs_inv rs w -> live child rs w n -> clean s ->
    node_ops w n = Some o -> op_remove o = Some f -> f w n s = (w', r) ->
    fs_inv rs w' /\
    match child w n s with
    | Some d => keeps_outside child w w' d
    | None => keeps child w w'
    end;
  mount_law rs w fs o f ps w' r x : fs_inv rs w -> fs_known fs ->
    fs_ops fs = Some o -> fs_mount o = Some f -> f w ps = (w', r, x) ->
    keeps child w w' /\
    match r, x with VFS_RES_OK, Some root => fs_inv (root :: rs) w' | _, _ => fs_inv rs w' end;
  attach_law rs w path root : fs_inv rs w -> root ∈ rs ->
    fs_inv rs (vfs_attach_mount_to_tree w path root) /\
    same_tree child w (vfs_attach_mount_to_tree w path root);
  unmount_law rs w fs o f root : fs_inv (root :: rs) w -> fs_known fs ->
    fs_ops fs = Some o -> fs_unmount o = Some f ->
    fs_inv rs (f w root) /\ keeps_outside child w (f w root) root;
  forget_root rs w root : fs_inv (root :: rs) w -> fs_inv rs w
}.

(** ** Trees *)

Section Trees.
Context {W : Type} (ch : W -> Z -> bytes -> option Z).
Implicit Types (w : W).

Lemma descend_app w n a b : descend ch w n (a ++ b) = (m ← descend ch w n a; descend ch w m b).
Proof. revert n; induction a as [|s a IH]; intros n; cbn; [done|]. destruct (ch w n s); cbn; [apply IH|done]. Qed.

Lemma descend_keeps w w' n segs c : keeps ch w w' -> descend ch w n segs = Some c -> descend ch w' n segs = Some c.
Proof.
  intros Hk. revert n; induction segs as [|s segs IH]; intros n; cbn; [done|].
  destruct (ch w n s) as [m|] eqn:E; [|done]. cbn. rewrite (Hk _ _ _ E). apply IH.
Qed.

Lemma same_keeps w w' : same_tree ch w w' -> keeps ch w w'.
Proof. intros H n s c. by rewrite H. Qed.

Lemma descend_same w w' n segs : same_tree ch w w' -> descend ch w' n segs = descend ch w n segs.
Proof. intros H. revert n; induction segs as [|s segs IH]; intros n; cbn; [done|]. rewrite H. destruct (ch w n s); [apply IH|done]. Qed.

Lemma same_tree_trans w1 w2 w3 : same_tree ch w1 w2 -> same_tree ch w2 w3 -> same_tree ch w1 w3.
Proof. intros H1 H2 n s. by rewrite H2. Qed.

(** A node of the forest has one path. *)
Lemma unique_path rs w r1 r2 a b x : forest ch rs w -> r1 ∈ rs -> r2 ∈ rs ->
  descend ch w r1 a = Some x -> descend ch w r2 b = Some x -> r1 = r2 /\ a = b.
Proof.
  intros F H1 H2. revert b x. induction a as [|s a IH] using rev_ind; intros b x Ha Hb.
  - injection Ha as <-. destruct b as [|t b _] using rev_ind; [by injection Hb|].
    rewrite descend_app in Hb. destruct (descend ch w r2 b) as [m|]; [|done]. cbn in Hb.
    destruct (ch w m t) eqn:E; [|done]. injection Hb as ->. by destruct (child_ok _ _ _ F _ _ _ E).
  - rewrite descend_app in Ha. destruct (descend ch w r1 a) as [m|] eqn:Em; [|done]. cbn in Ha.
    destruct (ch w m s) as [x'|] eqn:E; [|done]. injection Ha as ->.
    destruct b as [|t b _] using rev_ind.
    { injection Hb as ->. by destruct (child_ok _ _ _ F _ _ _ E). }
    rewrite descend_app in Hb. destruct (descend ch w r2 b) as [m'|] eqn:Em'; [|done]. cbn in Hb.
    destruct (ch w m' t) as [x'|] eqn:E'; [|done]. injection Hb as ->.
    destruct (child_inj _ _ _ F _ _ _ _ _ E E') as [-> ->]. by destruct (IH b m' eq_refl Em') as [-> ->].
Qed.

(** A path that does not go through [d] survives the loss of the subtree of
    [d]. *)
Lemma descend_outside w w' d n segs c : keeps_outside ch w w' d -> descend ch w n segs = Some c ->
  (forall u a b, segs = a ++ b -> descend ch w n a <> descend ch w d u) -> descend ch w' n segs = Some c.
Proof.
  intros Hk. revert n; induction segs as [|s segs IH]; intros n; cbn; [done|]. intros Hd Hu.
  destruct (ch w n s) as [m|] eqn:E; [|done]. cbn in Hd.
  assert (m <> d) as Hmd. { intros ->. apply (Hu [] [s] segs eq_refl). cbn. by rewrite E. }
  rewrite (Hk _ _ _ E); [|intros u Hdu; by apply (Hu u [] (s :: segs) eq_refl)|done]. cbn. apply IH; [done|].
  intros u a b ->. specialize (Hu u (s :: a) b eq_refl). cbn in Hu. by rewrite E in Hu.
Qed.
End Trees.

(** ** Paths below a mount *)

(** The rest of a path, without its first slash. *)
Definition rel_of (rest : list bytes) : bytes :=
  match rest with [] => [] | s :: rest => s ++ render_tail rest end.

Lemma rel_of_nil rest : Forall clean rest -> rel_of rest = [] -> rest = [].
Proof. destruct rest as [|s rest]; [done|]. intros [(Hs & _) _]%Forall_cons. cbn. by destruct s. Qed.

Lemma relative_render ps rest : Forall clean (ps ++ rest) -> relative_to (render ps) (render (ps ++ rest)) = rel_of rest.
Proof.
  intros Hc. unfold relative_to. apply Forall_app in Hc as [Hp Hr].
  destruct (streq (render ps) [SLASH]) eqn:E.
  - apply streq_spec in E; [|by apply clean_render_nul|by apply (clean_render_nul [])].
    assert (ps = []) as ->.
    { destruct ps as [|s ps]; [done|]. apply Forall_cons in Hp as [(Hs & _) _]. cbn in E. by destruct s. }
    by destruct rest.
  - destruct ps as [|s ps]; [done|]. unfold render. cbn [app]. change (s :: ps ++ rest) with ((s :: ps) ++ rest).
    rewrite render_tail_app, drop_app_length. by destruct rest.
Qed.

Lemma skip_rel rest : Forall clean rest -> skip_slashes (rel_of rest) = rel_of rest.
Proof.
  destruct rest as [|[|c s] rest]; [done|..]; intros [(Hs & Hsl & _) _]%Forall_cons; [done|]. cbn.
  destruct (Z.eqb_spec c SLASH); [set_solver|done].
Qed.

Lemma skip_tail rest : Forall clean rest -> skip_slashes (render_tail rest) = rel_of rest.
Proof. destruct rest as [|s rest]; [done|]. intros H. cbn. by apply (skip_rel (s :: rest)). Qed.

Lemma take_rel s rest : (SLASH ∉ s) -> take_segment (s ++ render_tail rest) = (s, render_tail rest).
Proof.
  induction s as [|c s IH]; cbn [app take_segment]; [by destruct rest|]. intros Hs.
  destruct (Z.eqb_spec c SLASH); [set_solver|]. by rewrite IH by set_solver.
Qed.

Lemma rel_of_length rest : Forall clean rest -> (length rest <= length (rel_of rest))%nat.
Proof.
  assert (forall r, Forall clean r -> (length r <= length (render_tail r))%nat) as Ht.
  { induction 1 as [|s r (Hs & _) _ IH]; cbn; [lia|]. rewrite length_app. lia. }
  destruct rest as [|s rest]; [cbn; lia|]. intros [(Hs & _) Hr]%Forall_cons. cbn. rewrite length_app.
  specialize (Ht rest Hr). destruct s; [done|]. cbn. lia.
Qed.

Lemma clean_not_dots s : clean s -> streq s [DOT] = false /\ streq s [DOT; DOT] = false.
Proof.
  intros (_ & _ & H0 & H1 & H2 & _).
  assert ((0 ∉ [DOT]) /\ (0 ∉ [DOT; DOT])) as [? ?] by (split; apply (bool_decide_unpack _); vm_compute; exact I).
  split; destruct (streq s _) eqn:E; try done; apply streq_spec in E; done.
Qed.

(** ** Parent and name *)

Lemma strrchr_none b off last : (0 ∉ b) -> (SLASH ∉ b) -> strrchr_loop (b ++ [0]) SLASH off last = Some last.
Proof.
  revert off. induction b as [|c b IH]; intros off H0 Hs; cbn [app strrchr_loop]; [done|].
  change (wrap 8 SLASH) with SLASH. destruct (Z.eqb_spec c SLASH); [set_solver|].
  destruct (Z.eqb_spec c 0); [set_solver|]. apply IH; set_solver.
Qed.

Lemma strrchr_last a b off last : (0 ∉ a) -> (0 ∉ b) -> (SLASH ∉ b) ->
  strrchr_loop (a ++ SLASH :: b ++ [0]) SLASH off last = Some (Some (off + zlen a)).
Proof.
  revert off last. induction a as [|c a IH]; intros off last Ha H0 Hs; cbn [app strrchr_loop].
  { change (wrap 8 SLASH) with SLASH. rewrite Z.eqb_refl. change (SLASH =? 0) with false.
    rewrite strrchr_none by done. f_equal. f_equal. unfold zlen. cbn. lia. }
  destruct (Z.eqb_spec c 0); [set_solver|]. rewrite IH by set_solver. rewrite zlen_cons. do 2 f_equal. lia.
Qed.

Lemma render_tail_nil ps : render_tail ps = [] -> ps = [].
Proof. by destruct ps. Qed.

Lemma split_last_render ps s : Forall clean (ps ++ [s]) -> split_last (render (ps ++ [s])) = Some (render ps, s).
Proof.
  intros Hc. pose proof (clean_render_nul _ Hc) as H0. apply Forall_app in Hc as [Hp [(Hne & Hsl & Hs0 & _) _]%Forall_cons].
  assert (render (ps ++ [s]) = render_tail ps ++ SLASH :: s) as Hr.
  { replace (render (ps ++ [s])) with (render_tail (ps ++ [s])) by (by destruct ps).
    rewrite render_tail_app. cbn. by rewrite app_nil_r. }
  rewrite Hr in *. unfold split_last, strrchr, cstr. rewrite <- app_assoc. cbn [app].
  rewrite strrchr_last by set_solver. rewrite Z.add_0_l.
  replace (Z.to_nat (zlen (render_tail ps) + 1)) with (length (render_tail ps ++ [SLASH]))
    by (rewrite length_app; unfold zlen; cbn; lia).
  rewrite cons_middle, app_assoc, drop_app_length. unfold path_at.
  replace (Z.to_nat (zlen (render_tail ps) + 1)) with (length (render_tail ps ++ [SLASH]) + 0)%nat
    by (rewrite length_app; unfold zlen; cbn; lia).
  rewrite lookup_app_r, Nat.add_0_r, Nat.sub_diag by lia. destruct s as [|b s]; [done|].
  change (default 0 ((b :: s) !! 0%nat)) with b.
  destruct (Z.eqb_spec b 0); [set_solver|]. f_equal. f_equal.
  destruct (Z.eqb_spec (zlen (render_tail ps)) 0) as [Hz|Hz].
  - apply zlen_zero, render_tail_nil in Hz. by subst ps.
  - unfold zlen. rewrite Nat2Z.id, <- app_assoc, take_app_length. destruct ps; [done|]. done.
Qed.

(** ** Resolution *)

Section Resolve.
Context `{A : Arch} {W : Type} `{WW : VFSWorld W} `{L : !FsLaws W}.
Implicit Types (v : VFS W) (w : W) (ms : list (VFSMount W)) (m : VFSMount W).

(** What a resolution answers: the node, or an error and no node. *)
Definition answers (found : option Z) (r : VFSResult) (x : option Z) : Prop :=
  x = found /\ (r = VFS_RES_OK <-> is_Some found).

Lemma live_child rs w n s c : live child rs w n -> child w n s = Some c -> live child rs w c.
Proof.
  intros (r & segs & Hr & Hd) Hc. exists r, (segs ++ [s]). split; [done|]. rewrite descend_app, Hd. cbn. by rewrite Hc.
Qed.

Lemma live_same rs w w' n : same_tree child w w' -> live child rs w n -> live child rs w' n.
Proof. intros Hs (r & segs & Hr & Hd). exists r, segs. by rewrite (descend_same _ w). Qed.

Lemma walk_loop_spec rs rest : Forall clean rest -> forall fuel w n p,
  skip_slashes p = rel_of rest -> (length rest < fuel)%nat -> fs_inv rs w -> live child rs w n ->
  exists w' r x, walk_loop fuel w n p = Some (w', r, x) /\ fs_inv rs w' /\ same_tree child w w' /\
    answers (descend child w n rest) r x.
Proof.
  induction 1 as [|s rest Hs Hrest IH]; intros fuel w n p Hp Hf Hinv Hlive;
    (destruct fuel as [|fuel]; [cbn in Hf; lia|]); cbn [walk_loop]; rewrite Hp; cbn [rel_of].
  { exists w, VFS_RES_OK, (Some n). split_and!; try done. }
  pose proof Hs as (Hne & Hsl & H0 & _ & _ & Hlen).
  destruct s as [|b s]; [done|]. cbn [app]. set (s' := b :: s) in *.
  change (b :: s ++ render_tail rest) with (s' ++ render_tail rest). rewrite take_rel by done.
  destruct (clean_not_dots s' Hs) as [Hd1 Hd2]. rewrite Hd1, Hd2.
  destruct (Z.ltb_spec VFS_NAME_MAX (zlen s')); [lia|]. cbn [descend].
  assert (forall e, e <> VFS_RES_OK -> answers None e None) as Hbad.
  { intros e He. split; [done|]. split; [done|by intros [? ?]]. }
  pose proof (no_lookup rs w n s' Hinv) as Hno. destruct (node_ops w n) as [o|] eqn:Eo; cbn in Hno; cycle 1.
  { rewrite Hno by done. do 3 eexists. split_and!; [done..|]. by apply Hbad. }
  destruct (op_lookup o) as [f|] eqn:Ef; cycle 1.
  { rewrite Hno by done. do 3 eexists. split_and!; [done..|]. by apply Hbad. }
  destruct (f w n s') as [[w1 r] x] eqn:E.
  destruct (lookup_law rs w n s' o f w1 r x Hinv Hlive Hs Eo Ef E) as (Hinv1 & Hsame & Hch).
  destruct r; try (rewrite Hch; do 3 eexists; split_and!; [done..|]; by apply Hbad).
  rewrite Hch. destruct x as [c|]; cbn; [|do 3 eexists; split_and!; [done..|]; by apply Hbad].
  destruct (IH fuel w1 c (render_tail rest)) as (w2 & r & x & Hw & Hinv2 & Hsame2 & Hans).
  { by apply skip_tail. }
  { cbn in Hf. lia. }
  { done. }
  { eapply live_same, live_child; done. }
  exists w2, r, x. split_and!; [done|done|by eapply same_tree_trans|]. by rewrite <- (descend_same _ w w1).
Qed.

Lemma vfs_walk_spec rs w n rest : Forall clean rest -> fs_inv rs w -> live child rs w n ->
  exists w' r x, vfs_walk w n (rel_of rest) = Some (w', r, x) /\ fs_inv rs w' /\ same_tree child w w' /\
    answers (descend child w n rest) r x.
Proof.
  intros Hc Hinv Hl. apply walk_loop_spec; try done; [by apply skip_rel|].
  pose proof (rel_of_length rest Hc). lia.
Qed.

(** ** The mount table *)

Definition mseg (m : VFSMount W) : list bytes := segments (m_path m).

Definition mounts_ok (ms : list (VFSMount W)) : Prop :=
  NoDup (m_path <$> ms) /\
  forall m, m ∈ ms -> m_path m = render (mseg m) /\ Forall clean (mseg m) /\ fs_known (m_fs m).

(** The meaning of a normal path: the mount with the longest prefix, then the
    tree of its driver. *)
Definition resolve_view (ms : list (VFSMount W)) w (segs : list bytes) : option Z :=
  m ← vfs_select_mount m_path (Some ms) (render segs);
  descend child w (m_root m) (drop (length (mseg m)) segs).

Lemma mounts_render ms : mounts_ok ms -> forall m, m ∈ ms -> m_path m = render (mseg m) /\ Forall clean (mseg m).
Proof. intros [_ H] m Hm. by destruct (H m Hm) as (? & ? & _). Qed.

Lemma resolve_uncached_spec v w ms segs : s_mounts v = Some ms -> mounts_ok ms -> fs_inv (m_root <$> ms) w ->
  Forall clean segs ->
  exists w' r x, resolve_uncached v w (render segs) = Some (w', r, x) /\ fs_inv (m_root <$> ms) w' /\
    same_tree child w w' /\ answers (resolve_view ms w segs) r x.
Proof.
  intros Hv Hms Hinv Hc. unfold resolve_uncached, resolve_view. rewrite Hv.
  pose proof (select_mount_spec m_path mseg segs ms Hc (mounts_render ms Hms)) as Hsel.
  destruct (vfs_select_mount m_path (Some ms) (render segs)) as [m|]; cbn [mbind option_bind]; cycle 1.
  { exists w, VFS_RES_NOT_FOUND, None. split_and!; try done. }
  destruct Hsel as (Hm & [rest ->] & _). destruct (mounts_render ms Hms m Hm) as [Hp _].
  rewrite Hp, relative_render, drop_app_length by done. apply Forall_app in Hc as [_ Hc].
  assert (live child (m_root <$> ms) w (m_root m)) as Hl.
  { exists (m_root m), []. split; [|done]. apply list_elem_of_fmap. eauto. }
  destruct (rel_of rest) as [|b rel] eqn:Er.
  - rewrite (rel_of_nil rest Hc Er). exists w, VFS_RES_OK, (Some (m_root m)). split_and!; try done.
  - rewrite <- Er. by apply vfs_walk_spec.
Qed.
(** ** The invariant *)

Definition coherent (ms : list (VFSMount W)) w (es : list (bytes * Z)) : Prop :=
  forall p n, (p, n) ∈ es -> exists segs, Forall clean segs /\ p = render segs /\ resolve_view ms w segs = Some n.

Record vfs_inv v w (ms : list (VFSMount W)) (es : list (bytes * Z)) : Prop := {
  inv_init : s_vfs_initialized v = true;
  inv_mounts : s_mounts v = Some ms;
  inv_mounts_ok : mounts_ok ms;
  inv_root : forall m, s_root_mount v = Some m -> m ∈ ms /\ m_path m = [SLASH];
  inv_drivers : fs_inv (m_root <$> ms) w;
  inv_cache : cache_is v es;
  inv_coherent : coherent ms w es
}.

Lemma normalize_total path : (0 ∉ path) ->
  exists r out, vfs_normalize_path (Some path) VFS_PATH_MAX = Some (r, out) /\
    (r = VFS_RES_OK -> exists segs, Forall clean segs /\ out = render segs /\ zlen out < VFS_PATH_MAX).
Proof.
  intros H0. destruct path as [|c path].
  { exists VFS_RES_OK, [SLASH]. split; [done|]. intros _. exists []. split_and!; [constructor|done|done]. }
  destruct (Z.eqb_spec c SLASH) as [->|Hne]; cycle 1.
  { exists VFS_RES_INVALID, []. split; [|done]. unfold vfs_normalize_path.
    change (VFS_PATH_MAX =? 0) with false. by destruct (Z.eqb_spec c SLASH). }
  destruct (normalize_good (SLASH :: path) eq_refl) as ([r out] & Hn & (H1 & _) & _). cbn [fst snd] in H1.
  exists r, out. split; [done|]. intros Hr. destruct (H1 Hr) as (-> & Hl & Hall). rewrite segments_skip in *.
  eexists. split_and!; [|done|done]. by apply norm_segments_clean.
Qed.

Lemma coherent_sub ms w es es' : (forall e, e ∈ es' -> e ∈ es) -> coherent ms w es -> coherent ms w es'.
Proof. intros Hs Hc p n Hin. apply Hc, Hs, Hin. Qed.

Lemma resolve_view_same ms w w' segs : same_tree child w w' -> resolve_view ms w' segs = resolve_view ms w segs.
Proof.
  intros Hs. unfold resolve_view. destruct (vfs_select_mount _ _ _); [|done]. cbn [mbind option_bind].
  by apply descend_same.
Qed.

Lemma resolve_view_keeps ms w w' segs n : keeps child w w' -> resolve_view ms w segs = Some n ->
  resolve_view ms w' segs = Some n.
Proof.
  intros Hs. unfold resolve_view. destruct (vfs_select_mount _ _ _); [|done]. cbn [mbind option_bind].
  by apply descend_keeps.
Qed.

Lemma coherent_keeps ms w w' es : keeps child w w' -> coherent ms w es -> coherent ms w' es.
Proof.
  intros Hs Hc p n Hin. destruct (Hc p n Hin) as (segs & ? & ? & Hv). exists segs. split_and!; try done.
  by eapply resolve_view_keeps.
Qed.

(** Nodes the view gives are live and not null. *)
Lemma resolve_view_live ms w segs n : mounts_ok ms -> Forall clean segs -> resolve_view ms w segs = Some n ->
  live child (m_root <$> ms) w n.
Proof.
  intros Hms Hc. unfold resolve_view.
  pose proof (select_mount_spec m_path mseg segs ms Hc (mounts_render ms Hms)) as Hsel.
  destruct (vfs_select_mount _ _ _) as [m|]; [|done]. cbn [mbind option_bind]. destruct Hsel as (Hm & _).
  intros Hd. exists (m_root m). eexists. split; [|exact Hd]. apply list_elem_of_fmap. eauto.
Qed.

Lemma live_not_null rs w n : fs_inv rs w -> live child rs w n -> n <> NULL.
Proof.
  intros F%inv_forest (r & segs & Hr & Hd). destruct segs as [|s segs _] using rev_ind.
  - injection Hd as <-. intros ->. by apply (roots_not_null _ _ _ F).
  - rewrite descend_app in Hd. destruct (descend child w r segs) as [m|]; [|done]. cbn in Hd.
    destruct (child w m s) eqn:E; [|done]. injection Hd as ->. by destruct (child_ok _ _ _ F _ _ _ E).
Qed.

Lemma touch_sub path es e : e ∈ lru_touch path es -> e ∈ es.
Proof.
  unfold lru_touch. destruct (lru_get path es) as [n|] eqn:E; [|done].
  intros [->|[_ H]%list_elem_of_filter]%elem_of_cons; [|done]. by apply get_in.
Qed.

(** Cache operations that only forget or reorder entries keep the invariant. *)
Lemma vfs_inv_cache v v' w ms es es' : vfs_inv v w ms es -> same_mounts v v' -> cache_is v' es' ->
  (forall e, e ∈ es' -> e ∈ es) -> vfs_inv v' w ms es'.
Proof.
  intros [H1 H2 H3 H4 H5 H6 H7] (Hi & _ & Hm & Hr & _) Hc Hsub. split; try done.
  - by rewrite Hi.
  - by rewrite Hm.
  - by rewrite Hr.
  - by eapply coherent_sub.
Qed.

Lemma vfs_inv_world v w w' ms es : vfs_inv v w ms es -> keeps child w w' -> fs_inv (m_root <$> ms) w' ->
  vfs_inv v w' ms es.
Proof. intros [H1 H2 H3 H4 H5 H6 H7] Hk Hf. split; try done. by eapply coherent_keeps. Qed.
Lemma room_sub cap path es e : e ∈ lru_room cap path es -> e ∈ es.
Proof. intros H. eapply elem_of_submseteq; [exact H|]. apply sublist_submseteq, room_sublist. Qed.

Lemma insert_inv v w ms es segs node mal : vfs_inv v w ms es -> Forall clean segs ->
  resolve_view ms w segs = Some node ->
  let v' := vfs_cache_insert v (render segs) node mal in
  same_mounts v v' /\ exists es', vfs_inv v' w ms es'.
Proof.
  intros HI Hc Hr v'. subst v'. pose proof (inv_cache _ _ _ _ HI) as HC.
  assert (node <> NULL) as Hn.
  { eapply live_not_null; [apply (inv_drivers _ _ _ _ HI)|].
    eapply resolve_view_live; [apply (inv_mounts_ok _ _ _ _ HI)|done..]. }
  destruct (Z.ltb_spec 0 (s_cache_capacity v)) as [Hcap|Hcap]; cycle 1.
  { replace (vfs_cache_insert v (render segs) node mal) with v; [split; [by repeat split|by eauto]|].
    unfold vfs_cache_insert, vfs_cache_enabled. destruct HC as [-> _]. destruct (Z.eqb_spec node NULL); [done|].
    by destruct (Z.ltb_spec 0 (s_cache_capacity v)); [lia|]. }
  destruct (insert_refines v es (render segs) node mal HC (clean_render_nul _ Hc) Hn Hcap) as [Hs HC'].
  split; [done|]. destruct (mal 0%nat && mal 1%nat).
  - eexists. destruct HI as [H1 H2 H3 H4 H5 H6 H7]. destruct Hs as (Hi & _ & Hm & Hrt & _).
    split; try done; [congruence..|by rewrite Hrt|]. intros p n [[= -> ->]|Hin%room_sub]%elem_of_cons; [by eauto|auto].
  - eexists. eapply vfs_inv_cache; [done..|]. intros e. apply room_sub.
Qed.

Lemma lru_hit_view v w ms es segs n : vfs_inv v w ms es -> Forall clean segs -> lru_get (render segs) es = Some n ->
  resolve_view ms w segs = Some n.
Proof.
  intros HI Hc Hg%get_in. destruct (inv_coherent _ _ _ _ HI _ _ Hg) as (segs' & Hc' & Heq & Hv).
  assert (forall l, Forall clean l -> Forall (fun s => s <> [] /\ (SLASH ∉ s)) l) as Hw.
  { intros l Hl. eapply Forall_impl; [exact Hl|]. by intros s (? & ? & _). }
  rewrite <- (segments_render segs), Heq, segments_render by auto. done.
Qed.

Lemma vfs_resolve_spec v w ms es path mal : vfs_inv v w ms es -> (0 ∉ path) ->
  exists v' w' r x es', VFS_Resolve v w (Some path) mal = Some (v', w', r, x) /\
    vfs_inv v' w' ms es' /\ same_mounts v v' /\ same_tree child w w' /\
    (r = VFS_RES_OK -> is_Some (s_root_mount v)) /\
    (s_root_mount v = None -> r = VFS_RES_NOT_FOUND /\ x = None) /\
    (is_Some (s_root_mount v) -> exists e out, vfs_normalize_path (Some path) VFS_PATH_MAX = Some (e, out) /\
      match e with
      | VFS_RES_OK => (exists w'', resolve_uncached v w out = Some (w'', r, x)) /\
          exists segs, Forall clean segs /\ out = render segs /\ answers (resolve_view ms w segs) r x
      | _ => r = e /\ x = None
      end).
Proof.
  intros HI H0. unfold VFS_Resolve. rewrite (inv_init _ _ _ _ HI). cbn [negb].
  destruct (s_root_mount v) as [root|] eqn:Eroot; cycle 1.
  { exists v, w, VFS_RES_NOT_FOUND, None, es. split_and!; (done || (by repeat split) || (by intros [? ?])). }
  destruct (normalize_total path H0) as (e & out & Hn & Hok). rewrite Hn. cbn [mbind option_bind].
  destruct (decide (e = VFS_RES_OK)) as [->|He]; cycle 1.
  { destruct e; try done; (do 4 eexists; exists es; split_and!; [done|done|by repeat split|done|done|done|]);
      intros _; by do 2 eexists. }
  destruct (Hok eq_refl) as (segs & Hc & -> & Hlen).
  pose proof (lookup_refines v es (render segs) (mal 0%nat) (inv_cache _ _ _ _ HI) (clean_render_nul _ Hc)) as HL.
  destruct (vfs_cache_lookup v (render segs) (mal 0%nat)) as [v1 cached]. destruct HL as (-> & Hs1 & es1 & HC1 & Hes1).
  assert (vfs_inv v1 w ms es1) as HI1.
  { eapply vfs_inv_cache; [done..|]. intros e. destruct Hes1 as [->|[_ ->]]; [apply touch_sub|].
    by intros [_ ?]%list_elem_of_filter. }
  destruct (resolve_uncached_spec v w ms segs (inv_mounts _ _ _ _ HI) (inv_mounts_ok _ _ _ _ HI)
    (inv_drivers _ _ _ _ HI) Hc) as (w2 & r & x & Hun & Hinv2 & Hsame & Hans).
  assert (resolve_uncached v1 w (render segs) = resolve_uncached v w (render segs)) as Hunv.
  { unfold resolve_uncached. by destruct Hs1 as (_ & _ & -> & _). }
  destruct (lru_get (render segs) es) as [n|] eqn:Eg.
  - pose proof (lru_hit_view v w ms es segs n HI Hc Eg) as Hview.
    assert (n <> NULL) as Hnn.
    { eapply live_not_null; [apply (inv_drivers _ _ _ _ HI)|].
      eapply resolve_view_live; [apply (inv_mounts_ok _ _ _ _ HI)|done..]. }
    unfold not_null. cbn [mbind option_bind]. destruct (Z.eqb_spec n NULL); [done|].
    destruct Hans as [-> Hr]. rewrite Hview in Hr. destruct Hr as [_ Hr]. rewrite Hr in Hun by eauto.
    exists v1, w, VFS_RES_OK, (Some n), es1. split_and!; try done. intros _. exists VFS_RES_OK, (render segs).
    split; [done|]. split; [exists w2; congruence|]. exists segs. split_and!; [done|done|].
    rewrite Hview. split; [done|]. naive_solver.
  - cbn [not_null mbind option_bind]. rewrite Hunv, Hun. cbn [mbind option_bind].
    assert (vfs_inv v1 w2 ms es1) as HI2. { eapply vfs_inv_world; [done|by apply same_keeps|done]. }
    assert (exists e out, vfs_normalize_path (Some path) VFS_PATH_MAX = Some (e, out) /\ match e with
      | VFS_RES_OK => (exists w'', resolve_uncached v w out = Some (w'', r, x)) /\
          exists segs, Forall clean segs /\ out = render segs /\ answers (resolve_view ms w segs) r x
      | _ => r = e /\ x = None end) as Hfin.
    { exists VFS_RES_OK, (render segs). split_and!; [done|by eauto|]. by exists segs. }
    pose proof Hans as [-> Hr]. destruct (resolve_view ms w segs) as [n|] eqn:Ev.
    + destruct Hr as [_ Hr]. rewrite Hr in * by eauto.
      destruct (insert_inv v1 w2 ms es1 segs n (fun k => mal (S k)) HI2 Hc) as (Hs2 & es2 & HI3).
      { by rewrite (resolve_view_same ms w w2 segs Hsame). }
      do 4 eexists. exists es2. split_and!; try done; [by eapply same_mounts_trans|]. intros _. by rewrite <- Hn.
    + assert (r <> VFS_RES_OK) as Hne by (intros Hr'; apply Hr in Hr'; by destruct Hr').
      destruct r; try done; (do 4 eexists; exists es1; split_and!; try done; intros _; by rewrite <- Hn).
Qed.
(** ** Creating and removing *)

Lemma root_inj ms w m m' : fs_inv (m_root <$> ms) w -> m ∈ ms -> m' ∈ ms -> m_root m = m_root m' -> m = m'.
Proof.
  intros F%inv_forest Hm Hm' Heq. pose proof (roots_distinct _ _ _ F) as Hn.
  apply list_elem_of_lookup in Hm as [i Hi], Hm' as [j Hj].
  assert (i = j) as ->.
  { apply (NoDup_lookup (m_root <$> ms) i j (m_root m) Hn); rewrite list_lookup_fmap; [by rewrite Hi|].
    by rewrite Hj, Heq. }
  congruence.
Qed.

(** The view of a path splits into a mount and a descent. *)
Lemma resolve_view_inv ms w segs n : mounts_ok ms -> Forall clean segs -> resolve_view ms w segs = Some n ->
  exists m rel, m ∈ ms /\ segs = mseg m ++ rel /\ vfs_select_mount m_path (Some ms) (render segs) = Some m /\
    descend child w (m_root m) rel = Some n.
Proof.
  intros Hms Hc. unfold resolve_view.
  pose proof (select_mount_spec m_path mseg segs ms Hc (mounts_render ms Hms)) as Hsel.
  destruct (vfs_select_mount _ _ _) as [m|]; [|done]. cbn [mbind option_bind]. destruct Hsel as (Hm & [rel ->] & _).
  rewrite drop_app_length. by exists m, rel.
Qed.

Lemma resolve_view_intro ms w m rel n : vfs_select_mount m_path (Some ms) (render (mseg m ++ rel)) = Some m ->
  descend child w (m_root m) rel = Some n -> resolve_view ms w (mseg m ++ rel) = Some n.
Proof. intros Hs Hd. unfold resolve_view. rewrite Hs. cbn [mbind option_bind]. by rewrite drop_app_length. Qed.

(** Losing the subtree of the node of [ps] affects only paths below [ps]. *)
Lemma view_outside ms w w' ps qs d c : mounts_ok ms -> fs_inv (m_root <$> ms) w ->
  Forall clean ps -> Forall clean qs -> keeps_outside child w w' d ->
  (exists m rel, m ∈ ms /\ ps = mseg m ++ rel /\ descend child w (m_root m) rel = Some d) ->
  ~ ps `prefix_of` qs -> resolve_view ms w qs = Some c -> resolve_view ms w' qs = Some c.
Proof.
  intros Hms Hinv Hp Hq Hk (m & rel & Hm & -> & Hd) Hno Hv.
  destruct (resolve_view_inv ms w qs c Hms Hq Hv) as (m' & rel' & Hm' & -> & Hsel & Hd').
  apply resolve_view_intro; [done|]. eapply descend_outside; [done..|].
  intros u a b -> Heq. apply Hno. rewrite descend_app in Hd'.
  destruct (descend child w (m_root m') a) as [x|] eqn:Ea; [|done].
  destruct (unique_path child (m_root <$> ms) w (m_root m') (m_root m) a (rel ++ u) x) as [Hr ->].
  - by apply inv_forest.
  - apply list_elem_of_fmap. eauto.
  - apply list_elem_of_fmap. eauto.
  - done.
  - rewrite descend_app, Hd. done.
  - rewrite (root_inj ms w m' m Hinv Hm' Hm Hr). exists (u ++ b). by rewrite <- !app_assoc.
Qed.

Lemma drop_coherent ms ms' w w' es ps : Forall clean ps ->
  (forall qs c, Forall clean qs -> ~ ps `prefix_of` qs -> resolve_view ms w qs = Some c -> resolve_view ms' w' qs = Some c) ->
  coherent ms w es -> coherent ms' w' (lru_drop (render ps) es).
Proof.
  intros Hp Hv Hc p n [Hnot Hin]%list_elem_of_filter. destruct (Hc p n Hin) as (qs & Hq & -> & Hr).
  exists qs. split_and!; try done. apply Hv; [done| |done]. intros Hpre. cbn [fst] in Hnot.
  apply path_is_under_spec in Hpre; [|done..]. congruence.
Qed.

Lemma render_parent_len ps s : zlen (render ps) <= zlen (render (ps ++ [s])).
Proof.
  assert (render (ps ++ [s]) = render_tail ps ++ SLASH :: s) as ->.
  { replace (render (ps ++ [s])) with (render_tail (ps ++ [s])) by (by destruct ps).
    rewrite render_tail_app. cbn. by rewrite app_nil_r. }
  rewrite zlen_app, zlen_cons. pose proof (zlen_nonneg s). pose proof (zlen_nonneg (render_tail ps)).
  destruct ps; [change (zlen (render [])) with 1; lia|]. change (render (l :: ps)) with (render_tail (l :: ps)). lia.
Qed.

(** The calls of the parent's resolution in [VFS_Create] and [VFS_Remove]. *)
Lemma resolve_parent v w ms es ps mal : vfs_inv v w ms es -> Forall clean ps -> zlen (render ps) < VFS_PATH_MAX ->
  exists v' w' r x es', VFS_Resolve v w (Some (render ps)) mal = Some (v', w', r, x) /\ vfs_inv v' w' ms es' /\
    (r = VFS_RES_OK -> exists n, x = Some n /\ resolve_view ms w' ps = Some n).
Proof.
  intros HI Hc Hl. destruct (vfs_resolve_spec v w ms es (render ps) mal HI (clean_render_nul _ Hc))
    as (v' & w' & r & x & es' & H1 & H2 & _ & Hs & Hroot & _ & H3).
  exists v', w', r, x, es'. split_and!; try done. intros Hr. destruct (H3 (Hroot Hr)) as (e & out & Hn & Hm).
  rewrite normalize_render in Hn by done. injection Hn as <- <-.
  destruct Hm as (_ & segs & Hcs & Heq & [-> Hok]). rewrite Hr in Hok. destruct Hok as [Hok _].
  destruct (Hok eq_refl) as [n Hv]. exists n. split; [done|]. rewrite (resolve_view_same ms w w' ps Hs).
  rewrite <- (segments_render ps), Heq, segments_render; [done|..];
    (eapply Forall_impl; [eassumption|]; by intros ? (? & ? & _)).
Qed.
Lemma streq_root segs : Forall clean segs -> streq (render segs) [SLASH] = bool_decide (segs = []).
Proof.
  intros Hc. destruct segs as [|s segs]; [done|]. rewrite bool_decide_eq_false_2 by done.
  destruct (streq _ _) eqn:E; [|done]. apply streq_spec in E; [|by apply clean_render_nul|by apply (clean_render_nul [])].
  apply Forall_cons in Hc as [(Hs & _) _]. by destruct s.
Qed.

Lemma vfs_create_inv v w ms es path t mal : vfs_inv v w ms es -> (0 ∉ path) ->
  exists v' w' r es', VFS_Create v w (Some path) t mal = Some (v', w', r) /\ vfs_inv v' w' ms es'.
Proof.
  intros HI H0. unfold VFS_Create. rewrite (inv_init _ _ _ _ HI). cbn [negb].
  case_bool_decide; [by do 4 eexists|].
  destruct (normalize_total path H0) as (e & out & Hn & Hok). rewrite Hn. cbn [mbind option_bind].
  destruct (decide (e = VFS_RES_OK)) as [->|He]; [|destruct e; try done; by do 4 eexists].
  destruct (Hok eq_refl) as (segs & Hc & -> & Hlen). rewrite (streq_root segs Hc).
  case_bool_decide as Hs; [by do 4 eexists|]. destruct segs as [|s ps _] using rev_ind; [done|].
  rewrite (split_last_render ps s Hc). pose proof Hc as [Hp [Hcs _]%Forall_cons]%Forall_app.
  pose proof (render_parent_len ps s). pose proof Hcs as (_ & _ & _ & _ & _ & Hns).
  destruct (Z.ltb_spec VFS_NAME_MAX (zlen s)); [lia|]. destruct (Z.leb_spec VFS_PATH_MAX (zlen (render ps))); [lia|].
  destruct (resolve_parent v w ms es ps mal HI Hp ltac:(lia)) as (v1 & w1 & r & x & es1 & Hr & HI1 & Hx).
  rewrite Hr. cbn [mbind option_bind]. destruct (decide (r = VFS_RES_OK)) as [->|]; [|destruct r; try done; by do 4 eexists].
  destruct (Hx eq_refl) as (n & -> & Hv). destruct (node_ops w1 n) as [o|] eqn:Eo; [|by do 4 eexists].
  destruct (op_create o) as [f|] eqn:Ef; [|by do 4 eexists]. destruct (f w1 n s t) as [w2 r2] eqn:E.
  destruct (create_law (m_root <$> ms) w1 n s t o f w2 r2) as [Hinv Hk]; [apply (inv_drivers _ _ _ _ HI1)| |done..|].
  { eapply resolve_view_live; [apply (inv_mounts_ok _ _ _ _ HI1)|done..]. }
  destruct (remove_exact_refines v1 es1 (render (ps ++ [s])) (inv_cache _ _ _ _ HI1) (clean_render_nul _ Hc)) as [Hs1 HC].
  do 4 eexists. split; [done|]. eapply vfs_inv_world; [|done..]. eapply vfs_inv_cache; [done..|].
  by intros e [_ ?]%list_elem_of_filter.
Qed.

Lemma vfs_remove_inv v w ms es path mal : vfs_inv v w ms es -> (0 ∉ path) ->
  exists v' w' r es', VFS_Remove v w (Some path) mal = Some (v', w', r) /\ vfs_inv v' w' ms es'.
Proof.
  intros HI H0. unfold VFS_Remove. rewrite (inv_init _ _ _ _ HI). cbn [negb].
  destruct (normalize_total path H0) as (e & out & Hn & Hok). rewrite Hn. cbn [mbind option_bind].
  destruct (decide (e = VFS_RES_OK)) as [->|He]; [|destruct e; try done; by do 4 eexists].
  destruct (Hok eq_refl) as (segs & Hc & -> & Hlen). rewrite (streq_root segs Hc).
  case_bool_decide as Hs; [by do 4 eexists|]. destruct segs as [|s ps _] using rev_ind; [done|].
  rewrite (split_last_render ps s Hc). pose proof Hc as [Hp [Hcs _]%Forall_cons]%Forall_app.
  pose proof (render_parent_len ps s). pose proof Hcs as (_ & _ & _ & _ & _ & Hns).
  destruct (Z.ltb_spec VFS_NAME_MAX (zlen s)); [lia|]. destruct (Z.leb_spec VFS_PATH_MAX (zlen (render ps))); [lia|].
  destruct (resolve_parent v w ms es ps mal HI Hp ltac:(lia)) as (v1 & w1 & r & x & es1 & Hr & HI1 & Hx).
  rewrite Hr. cbn [mbind option_bind]. destruct (decide (r = VFS_RES_OK)) as [->|]; [|destruct r; try done; by do 4 eexists].
  destruct (Hx eq_refl) as (n & -> & Hv). destruct (node_ops w1 n) as [o|] eqn:Eo; [|by do 4 eexists].
  destruct (op_remove o) as [f|] eqn:Ef; [|by do 4 eexists]. destruct (f w1 n s) as [w2 r2] eqn:E.
  pose proof (inv_mounts_ok _ _ _ _ HI1) as Hms. pose proof (inv_drivers _ _ _ _ HI1) as Hdr.
  destruct (remove_law (m_root <$> ms) w1 n s o f w2 r2) as [Hinv Hk]; [done| |done..|].
  { by eapply resolve_view_live. }
  destruct (remove_prefix_refines v1 es1 (render (ps ++ [s])) (inv_cache _ _ _ _ HI1)) as [Hs1 HC].
  do 4 eexists. split; [done|]. destruct HI1 as [G1 G2 G3 G4 G5 G6 G7]. destruct Hs1 as (Hi & _ & Hm & Hrt & _).
  split; try done; [by rewrite Hi|by rewrite Hm|by rewrite Hrt|]. eapply drop_coherent; [done| |done].
  intros qs c Hq Hno Hres. destruct (child w1 n s) as [d|] eqn:Ed; [|by eapply resolve_view_keeps].
  apply (view_outside ms w1 w2 (ps ++ [s]) qs d c); [done..| |done|done].
  destruct (resolve_view_inv ms w1 ps n Hms Hp Hv) as (m & rel & Hm' & -> & _ & Hd). exists m, (rel ++ [s]).
  split_and!; [done|by rewrite app_assoc|]. rewrite descend_app, Hd. cbn. by rewrite Ed.
Qed.
(** ** Mounting and unmounting *)

Lemma path_inj ms m m' : mounts_ok ms -> m ∈ ms -> m' ∈ ms -> mseg m = mseg m' -> m = m'.
Proof.
  intros Hms Hm Hm' Heq. destruct (mounts_render ms Hms m Hm) as [H1 _], (mounts_render ms Hms m' Hm') as [H2 _].
  destruct Hms as [Hn _]. apply list_elem_of_lookup in Hm as [i Hi], Hm' as [j Hj].
  assert (i = j) as ->.
  { apply (NoDup_lookup (m_path <$> ms) i j (m_path m) Hn); rewrite list_lookup_fmap; [by rewrite Hi|].
    rewrite Hj. cbn. by rewrite H1, H2, Heq. }
  congruence.
Qed.

(** The selected mount is the one with the longest prefix. *)
Lemma select_char ms m segs : mounts_ok ms -> Forall clean segs -> m ∈ ms -> mseg m `prefix_of` segs ->
  (forall m', m' ∈ ms -> mseg m' `prefix_of` segs -> mseg m' `prefix_of` mseg m) ->
  vfs_select_mount m_path (Some ms) (render segs) = Some m.
Proof.
  intros Hms Hc Hm Hp Hbest. pose proof (select_mount_spec m_path mseg segs ms Hc (mounts_render ms Hms)) as Hsel.
  destruct (vfs_select_mount _ _ _) as [b|]; [|by destruct (Hsel m Hm)].
  destruct Hsel as (Hb & Hbp & Hbb). f_equal. apply (path_inj ms); try done.
  apply (anti_symm prefix); [by apply Hbest|by apply Hbb].
Qed.

Lemma select_spec ms m segs : mounts_ok ms -> Forall clean segs ->
  vfs_select_mount m_path (Some ms) (render segs) = Some m ->
  m ∈ ms /\ mseg m `prefix_of` segs /\ forall m', m' ∈ ms -> mseg m' `prefix_of` segs -> mseg m' `prefix_of` mseg m.
Proof.
  intros Hms Hc Hs. pose proof (select_mount_spec m_path mseg segs ms Hc (mounts_render ms Hms)) as Hsel.
  by rewrite Hs in Hsel.
Qed.

(** Tables that differ only in mounts off the path give the same view. *)
Lemma view_mounts ms ms' w segs c : mounts_ok ms -> mounts_ok ms' -> Forall clean segs ->
  (forall m, mseg m `prefix_of` segs -> m ∈ ms <-> m ∈ ms') ->
  resolve_view ms w segs = Some c -> resolve_view ms' w segs = Some c.
Proof.
  intros H1 H2 Hc Hiff Hv. destruct (resolve_view_inv ms w segs c H1 Hc Hv) as (m & rel & Hm & -> & Hsel & Hd).
  destruct (select_spec ms m _ H1 Hc Hsel) as (_ & Hp & Hb). apply resolve_view_intro; [|done].
  apply select_char; [done..| |done|].
  - by apply Hiff.
  - intros m' Hm' Hp'. apply Hb; [|done]. by apply Hiff.
Qed.

Lemma existsb_at_path ms segs : mounts_ok ms -> Forall clean segs -> existsb (at_path (render segs)) ms = false ->
  render segs ∉ m_path <$> ms.
Proof.
  intros Hms Hc Hex (m & Heq & Hm)%list_elem_of_fmap.
  destruct (mounts_render ms Hms m Hm) as [Hr Hcm].
  assert (existsb (at_path (render segs)) ms = true); [|congruence].
  apply existsb_exists. exists m. split; [by apply list_elem_of_In|]. unfold at_path. rewrite <- Heq.
  by apply streq_spec; [apply clean_render_nul..|].
Qed.

Lemma mseg_render segs fs root fl : Forall clean segs -> mseg (mkMount (render segs) fs root fl) = segs.
Proof. intros Hc. apply segments_render. eapply Forall_impl; [exact Hc|]. by intros s (? & ? & _). Qed.

Lemma mounts_ok_snoc ms segs fs root fl : mounts_ok ms -> Forall clean segs -> (render segs ∉ m_path <$> ms) ->
  fs_known fs -> mounts_ok (ms ++ [mkMount (render segs) fs root fl]).
Proof.
  intros [Hn Hall] Hc Hnot Hk. split.
  - rewrite fmap_app. cbn. apply NoDup_app. split_and!; [done| |apply NoDup_singleton].
    intros p Hp ->%list_elem_of_singleton. done.
  - intros m [Hm| ->%list_elem_of_singleton]%elem_of_app; [auto|]. rewrite (mseg_render segs) by done. done.
Qed.

Lemma mount_coherent ms w w' es segs mount : mounts_ok ms -> mounts_ok (ms ++ [mount]) -> mseg mount = segs ->
  Forall clean segs -> keeps child w w' -> coherent ms w es -> coherent (ms ++ [mount]) w' (lru_drop (render segs) es).
Proof.
  intros Hms Hms' Hseg Hc Hk Hco. eapply drop_coherent; [done| |exact Hco].
  intros qs c Hq Hno Hv. apply (view_mounts ms); [done..| |by eapply resolve_view_keeps].
  intros m Hp. rewrite elem_of_app, list_elem_of_singleton. split; [by left|]. intros [?| ->]; [done|]. by rewrite Hseg in Hp.
Qed.

(** The loss of a tree that is not mounted is not seen. *)
Lemma coherent_outside ms w w' es root : mounts_ok ms -> fs_inv (root :: (m_root <$> ms)) w ->
  keeps_outside child w w' root -> coherent ms w es -> coherent ms w' es.
Proof.
  intros Hms F%inv_forest Hk Hco p n Hin. destruct (Hco p n Hin) as (qs & Hq & -> & Hv). exists qs. split_and!; try done.
  destruct (resolve_view_inv ms w qs n Hms Hq Hv) as (m & rel & Hm & -> & Hsel & Hd).
  apply resolve_view_intro; [done|]. eapply descend_outside; [done..|]. intros u a b -> Heq. rewrite descend_app in Hd.
  assert (m_root m ∈ m_root <$> ms) as Hr by (apply list_elem_of_fmap; eauto).
  destruct (descend child w (m_root m) a) as [x|] eqn:Ea; [|done].
  destruct (unique_path child (root :: (m_root <$> ms)) w (m_root m) root a u x) as [Hrr _]; try done; [set_solver..|].
  pose proof (roots_distinct _ _ _ F) as Hn. apply NoDup_cons in Hn as [Hn _]. by rewrite <- Hrr in Hn.
Qed.

Lemma vfs_inv_mounted v w w' ms es segs fs root fl mal : vfs_inv v w ms es -> Forall clean segs ->
  (render segs ∉ m_path <$> ms) -> fs_known fs -> keeps child w w' -> fs_inv (root :: (m_root <$> ms)) w' ->
  let mount := mkMount (render segs) fs root fl in
  let v1 := with_mounts v (Some (ms ++ [mount])) (if streq (render segs) [SLASH] then Some mount else s_root_mount v) in
  exists es', vfs_inv (vfs_cache_insert (vfs_cache_remove_prefix v1 (render segs)) (render segs) root mal) w' (ms ++ [mount]) es'.
Proof.
  intros HI Hc Hnot Hk Hkeep Hinv mount v1. destruct HI as [G1 G2 G3 G4 G5 G6 G7].
  assert (mseg mount = segs) as Hseg by (by apply mseg_render).
  assert (mounts_ok (ms ++ [mount])) as Hms' by (by apply mounts_ok_snoc).
  assert (cache_is v1 es) as HC by done.
  destruct (remove_prefix_refines v1 es (render segs) HC) as [(Hi & _ & Hm & Hrt & _) HC'].
  set (v2 := vfs_cache_remove_prefix v1 (render segs)) in *.
  assert (vfs_inv v2 w' (ms ++ [mount]) (lru_drop (render segs) es)) as HI2.
  { split; try done.
    - by rewrite Hi.
    - intros m Hr. rewrite Hrt in Hr. cbn in Hr.
      rewrite streq_root in Hr by done. case_bool_decide as Hs.
      + injection Hr as <-. split; [set_solver|]. cbn. by rewrite Hs.
      + destruct (G4 m Hr). split; [set_solver|done].
    - rewrite fmap_app. cbn. eapply inv_perm; [|exact Hinv]. by rewrite Permutation_app_comm.
    - by eapply mount_coherent. }
  apply (insert_inv v2 w' (ms ++ [mount]) _ segs root mal HI2 Hc).
  rewrite <- Hseg at 1. rewrite <- (app_nil_r (mseg mount)). apply resolve_view_intro; [|done].
  rewrite app_nil_r. apply select_char; [done| |set_solver|done|done]. by rewrite Hseg.
Qed.

Lemma vfs_mount_inv v w ms es target fs ps mal : vfs_inv v w ms es -> (0 ∉ target) -> fs_known fs ->
  mal 1%nat = true ->
  exists v' w' o ms' es', VFS_Mount v w (Some target) fs ps mal = Some (v', w', o) /\ vfs_inv v' w' ms' es'.
Proof.
  intros HI H0 Hk Hmal. unfold VFS_Mount. rewrite (inv_init _ _ _ _ HI). cbn [negb].
  destruct (fs_ops fs) as [ops|] eqn:Eops; [|by do 5 eexists].
  destruct (fs_mount ops) as [f|] eqn:Ef; [|by do 5 eexists].
  destruct (normalize_total target H0) as (e & out & Hn & Hok). rewrite Hn. cbn [mbind option_bind].
  destruct (decide (e = VFS_RES_OK)) as [->|He]; [|destruct e; try done; by do 5 eexists].
  destruct (Hok eq_refl) as (segs & Hc & -> & Hlen). rewrite (inv_mounts _ _ _ _ HI). cbn [default from_option].
  destruct (existsb _ _) eqn:Eex; [by do 5 eexists|].
  pose proof (existsb_at_path ms segs (inv_mounts_ok _ _ _ _ HI) Hc Eex) as Hnot.
  destruct (f w ps) as [[w1 r] x] eqn:E.
  destruct (mount_law (m_root <$> ms) w fs ops f ps w1 r x (inv_drivers _ _ _ _ HI) Hk Eops Ef E) as [Hkeep Hinv].
  destruct (decide (r = VFS_RES_OK)) as [->|Hr]; cycle 1.
  { destruct r; try done; do 5 eexists; (split; [done|]); by eapply vfs_inv_world. }
  destruct x as [root|]; [|do 5 eexists; split; [done|]; by eapply vfs_inv_world].
  destruct (mal 0%nat); cbn [negb]; cycle 1.
  { do 5 eexists. split; [done|]. destruct (fs_unmount ops) as [u|] eqn:Eu; cycle 1.
    - eapply vfs_inv_world; [done..|]. by eapply forget_root.
    - destruct (unmount_law (m_root <$> ms) w1 fs ops u root Hinv Hk Eops Eu) as [Hinv' Hout].
      destruct HI as [G1 G2 G3 G4 G5 G6 G7].
      split; try done. eapply coherent_outside; [done..|]. by eapply coherent_keeps. }
  rewrite Hmal. cbn [fmap option_fmap option_map].
  destruct (attach_law (root :: (m_root <$> ms)) w1 (render segs) root Hinv ltac:(set_solver)) as [Hinv2 Hsame].
  edestruct (vfs_inv_mounted v w (vfs_attach_mount_to_tree w1 (render segs) root) ms es segs fs root)
    as [es' HI']; [done..| | |].
  - intros n s c Hch. rewrite Hsame. by apply Hkeep.
  - done.
  - do 5 eexists. split; [done|]. exact HI'.
Qed.
Lemma find_mount_spec path ms i : mounts_ok ms -> (0 ∉ path) ->
  match find_mount path ms i with
  | Some (j, m) => exists a b, ms = a ++ m :: b /\ j = (i + length a)%nat /\ m_path m = path
  | None => path ∉ m_path <$> ms
  end.
Proof.
  intros Hms Hp. assert (forall m, m ∈ ms -> 0 ∉ m_path m) as H0.
  { intros m Hm. destruct (mounts_render ms Hms m Hm) as [-> ?]. by apply clean_render_nul. }
  clear Hms. revert i. induction ms as [|m ms IH]; intros i; cbn [find_mount]; [by apply not_elem_of_nil|].
  unfold at_path. destruct (streq (m_path m) path) eqn:E.
  - apply streq_spec in E; [|apply H0; set_solver|done]. exists [], ms. split_and!; [done|cbn; lia|done].
  - assert (m_path m <> path) as Hne.
    { intros Heq. apply streq_spec in Heq; [congruence|apply H0; set_solver|done]. }
    specialize (IH ltac:(intros; apply H0; set_solver) (S i)). destruct (find_mount path ms (S i)) as [[j m']|].
    + destruct IH as (a & b & -> & -> & ?). exists (m :: a), b. split_and!; [done|cbn; lia|done].
    + rewrite fmap_cons, not_elem_of_cons. done.
Qed.

Lemma mounts_ok_delete a m b : mounts_ok (a ++ m :: b) -> mounts_ok (a ++ b) /\ (m_path m ∉ m_path <$> (a ++ b)).
Proof.
  intros [Hn Hall]. rewrite fmap_app, fmap_cons in Hn.
  assert (NoDup (m_path m :: ((m_path <$> a) ++ (m_path <$> b)))) as Hn'.
  { by rewrite Permutation_middle. }
  apply NoDup_cons in Hn' as [Hno Hn']. rewrite fmap_app. split; [split|done]; [by rewrite fmap_app|].
  intros m' Hm'. apply Hall. set_solver.
Qed.

Lemma unmount_coherent a m b w es : mounts_ok (a ++ m :: b) ->
  coherent (a ++ m :: b) w es -> coherent (a ++ b) w (lru_drop (render (mseg m)) es).
Proof.
  intros Hms Hco. destruct (mounts_ok_delete a m b Hms) as [Hms' _].
  destruct (mounts_render _ Hms m ltac:(set_solver)) as [_ Hc].
  eapply drop_coherent; [done| |exact Hco]. intros qs c Hq Hno Hv. apply (view_mounts (a ++ m :: b)); try done.
  intros m' Hp. rewrite !elem_of_app, elem_of_cons. split; [|naive_solver]. intros [?|[->|?]]; [by left|done|by right].
Qed.

Lemma vfs_unmount_inv v w ms es target : vfs_inv v w ms es -> (0 ∉ target) ->
  exists v' w' r ms' es', VFS_Unmount v w (Some target) = Some (v', w', r) /\ vfs_inv v' w' ms' es'.
Proof.
  intros HI H0. unfold VFS_Unmount. rewrite (inv_init _ _ _ _ HI). cbn [negb].
  destruct (normalize_total target H0) as (e & out & Hn & Hok). rewrite Hn. cbn [mbind option_bind].
  destruct (decide (e = VFS_RES_OK)) as [->|He]; [|destruct e; try done; by do 5 eexists].
  destruct (Hok eq_refl) as (segs & Hc & -> & Hlen). rewrite (inv_mounts _ _ _ _ HI).
  pose proof (find_mount_spec (render segs) ms 0 (inv_mounts_ok _ _ _ _ HI) (clean_render_nul _ Hc)) as Hf.
  destruct (find_mount (render segs) ms 0) as [[j m]|]; [|by do 5 eexists].
  destruct Hf as (a & b & -> & -> & Hp). rewrite Hp, (streq_root segs Hc), Nat.add_0_l, delete_mid.
  case_bool_decide as Hs; [by do 5 eexists|]. destruct HI as [G1 G2 G3 G4 G5 G6 G7].
  set (w1 := match fs_ops (m_fs m) with Some _ => _ | None => w end).
  assert (m ∈ a ++ m :: b) as Hm by set_solver. pose proof G3 as [_ Hall].
  destruct (Hall m Hm) as (Hr & Hcm & Hk). destruct (mounts_ok_delete a m b G3) as [Hms' Hnot].
  assert (render (mseg m) = render segs) as Hseg by congruence.
  assert (fs_inv (m_root m :: (m_root <$> (a ++ b))) w) as Hinv.
  { eapply inv_perm; [|exact G5]. rewrite !fmap_app, fmap_cons. by rewrite Permutation_middle. }
  pose proof (unmount_coherent a m b w es G3 G7) as Hco. rewrite Hseg in Hco.
  assert (fs_inv (m_root <$> (a ++ b)) w1 /\ coherent (a ++ b) w1 (lru_drop (render segs) es)) as [Hinv1 Hco1].
  { subst w1. destruct (fs_ops (m_fs m)) as [ops|] eqn:Eops; [|by eauto using forget_root].
    destruct (fs_unmount ops) as [u|] eqn:Eu; [|by eauto using forget_root].
    destruct (unmount_law _ w (m_fs m) ops u (m_root m) Hinv Hk Eops Eu) as [? ?]. split; [done|].
    by eapply coherent_outside. }
  destruct (remove_prefix_refines (with_mounts v (Some (a ++ b)) (s_root_mount v)) es (render segs))
    as [(Hi & _ & Hm' & Hrt & _) HC]; [done|].
  do 5 eexists. split; [done|]. split; try done; [by rewrite Hi|by rewrite Hm'|].
  intros m' Hr'. rewrite Hrt in Hr'. destruct (G4 m' Hr') as [Hin Hsl]. split; [|done].
  apply elem_of_app in Hin as [?|[->|?]%elem_of_cons]; [set_solver| |set_solver].
  exfalso. apply Hs. assert (render segs = [SLASH]) as Hx by congruence.
  pose proof (streq_root segs Hc) as Hb. rewrite Hx in Hb. symmetry in Hb. by apply bool_decide_eq_true_1 in Hb.
Qed.
(** ** Clients *)

(** The calls of a client that reach the cache, the mount table or the trees;
    the list node of a new mount is allocated. *)
Inductive vfs_step : VFS W * W -> VFS W * W -> Prop :=
| StResolve v w path mal v' w' r x : (0 ∉ path) ->
    VFS_Resolve v w (Some path) mal = Some (v', w', r, x) -> vfs_step (v, w) (v', w')
| StCreate v w path t mal v' w' r : (0 ∉ path) ->
    VFS_Create v w (Some path) t mal = Some (v', w', r) -> vfs_step (v, w) (v', w')
| StRemove v w path mal v' w' r : (0 ∉ path) ->
    VFS_Remove v w (Some path) mal = Some (v', w', r) -> vfs_step (v, w) (v', w')
| StMount v w target fs ps mal v' w' o : (0 ∉ target) -> fs_known fs -> mal 1%nat = true ->
    VFS_Mount v w (Some target) fs ps mal = Some (v', w', o) -> vfs_step (v, w) (v', w')
| StUnmount v w target v' w' r : (0 ∉ target) ->
    VFS_Unmount v w (Some target) = Some (v', w', r) -> vfs_step (v, w) (v', w')
| StSetCapacity v w cap : 0 <= cap -> vfs_step (v, w) (VFS_CacheSetCapacity v cap, w)
| StFlush v w : vfs_step (v, w) (VFS_CacheFlush v, w).

Definition vfs_good (st : VFS W * W) : Prop := exists ms es, vfs_inv st.1 st.2 ms es.

Lemma flush_inv v w ms es : vfs_inv v w ms es -> vfs_inv (VFS_CacheFlush v) w ms [].
Proof.
  intros [G1 G2 G3 G4 G5 [He (? & ? & Hl)] G7]. unfold VFS_CacheFlush, vfs_cache_clear. rewrite He. split; try done.
  - split; [done|]. split_and!; [constructor|constructor|cbn in *; lia].
  - by intros p n ?%elem_of_nil.
Qed.

Lemma set_capacity_inv v w ms es cap : vfs_inv v w ms es -> 0 <= cap ->
  vfs_inv (VFS_CacheSetCapacity v cap) w ms (take (Z.to_nat cap) es).
Proof.
  intros [G1 G2 G3 G4 G5 G6 G7] Hc. destruct (set_capacity_refines v es cap G6 Hc) as (HC & _ & Hm & Hr & Hi).
  split; try done; [by rewrite Hi|by rewrite Hm|by rewrite Hr|].
  eapply coherent_sub; [|done]. intros e He. eapply elem_of_submseteq; [exact He|]. apply sublist_submseteq, sublist_take.
Qed.

Lemma vfs_step_good st st' : vfs_step st st' -> vfs_good st -> vfs_good st'.
Proof.
  intros Hs (ms & es & HI). destruct Hs as [v w path mal v' w' r x H0 E|v w path t mal v' w' r H0 E|
    v w path mal v' w' r H0 E|v w target fs ps mal v' w' o H0 Hk Hm E|v w target v' w' r H0 E|v w cap Hc|v w];
    cbn [fst snd] in *.
  - destruct (vfs_resolve_spec v w ms es path mal HI H0) as (? & ? & ? & ? & es' & E' & ? & _).
    rewrite E in E'. injection E' as <- <- <- <-. by exists ms, es'.
  - destruct (vfs_create_inv v w ms es path t mal HI H0) as (? & ? & ? & es' & E' & ?).
    rewrite E in E'. injection E' as <- <- <-. by exists ms, es'.
  - destruct (vfs_remove_inv v w ms es path mal HI H0) as (? & ? & ? & es' & E' & ?).
    rewrite E in E'. injection E' as <- <- <-. by exists ms, es'.
  - destruct (vfs_mount_inv v w ms es target fs ps mal HI H0 Hk Hm) as (? & ? & ? & ms' & es' & E' & ?).
    rewrite E in E'. injection E' as <- <- <-. by exists ms', es'.
  - destruct (vfs_unmount_inv v w ms es target HI H0) as (? & ? & ? & ms' & es' & E' & ?).
    rewrite E in E'. injection E' as <- <- <-. by exists ms', es'.
  - eexists _, _. by apply set_capacity_inv.
  - eexists _, _. by eapply flush_inv.
Qed.

Lemma vfs_steps_good st st' : rtc vfs_step st st' -> vfs_good st -> vfs_good st'.
Proof. induction 1; eauto using vfs_step_good. Qed.

(** The static variables at boot, and with the cache absent. *)
Definition boot_vfs : VFS W := mkVFS false None None None None 128 0 0.
Definition no_cache v : VFS W := with_cache v None.

Lemma boot_good w : fs_inv [] w -> vfs_good (VFS_Init boot_vfs (fun _ => true), w).
Proof.
  intros Hw. exists [], []. split; try done.
  - split; [constructor|]. by intros m ?%elem_of_nil.
  - split; [done|]. split_and!; [constructor|constructor|cbn; lia].
  - by intros p n ?%elem_of_nil.
Qed.

Lemma resolve_no_cache v w path mal : s_vfs_initialized v = true ->
  VFS_Resolve (no_cache v) w (Some path) mal =
  match s_root_mount v with
  | None => Some (no_cache v, w, VFS_RES_NOT_FOUND, None)
  | Some _ =>
      r ← vfs_normalize_path (Some path) VFS_PATH_MAX;
      match r with
      | (VFS_RES_OK, normalized) => x ← resolve_uncached v w normalized; Some (no_cache v, x.1.1, x.1.2, x.2)
      | (e, _) => Some (no_cache v, w, e, None)
      end
  end.
Proof.
  intros Hi. unfold VFS_Resolve. cbn [no_cache with_cache s_vfs_initialized s_root_mount]. rewrite Hi. cbn [negb].
  destruct (s_root_mount v); [|done]. destruct (vfs_normalize_path _ _) as [[[] out]|]; try done. cbn [mbind option_bind].
  change (resolve_uncached (no_cache v) w out) with (resolve_uncached v w out). cbn [vfs_cache_lookup not_null mbind option_bind].
  change (vfs_cache_lookup (no_cache v) out (mal 0%nat)) with (no_cache v, @None Z). cbn [not_null mbind option_bind].
  change (resolve_uncached (no_cache v) w out) with (resolve_uncached v w out).
  destruct (resolve_uncached v w out) as [[[w1 []] [n|]]|]; try done. cbn. unfold vfs_cache_insert. by destruct (n =? NULL).
Qed.

End Resolve.
