(* ===== verification/Ramfs.v ===== *)
(** * The memory file system ([kernel/filesystem/ramfs.c])

    A node is a [VFSNode] with its payload: the children of a directory in
    list order, the bytes of a file ([r_data], whose length is the field
    [capacity]) and the file's size.  The world is the set of nodes in memory.
    [mal k] tells whether the [k]-th allocation succeeds, and [addr k nodes] is
    the address a new node gets. *)

From S2P Require Import Prelude Bytes CString VfsPath Vfs.

Record RamFSNode := mkRam {
  r_node : VFSNode; r_children : option (list Z); r_data : bytes; r_size : Z
}.

Record RamWorld := mkWorld { rw_nodes : gmap Z RamFSNode; rw_clock : nat }.

Definition null_node : VFSNode := mkNode None VFS_NODE_UNKNOWN 0 None None.

Definition with_nodes (w : RamWorld) (ns : gmap Z RamFSNode) : RamWorld := mkWorld ns (rw_clock w).

(** Subtrees: [ramfs_free_node] and its loop over the children. *)
Fixpoint free_node (fuel : nat) (ns : gmap Z RamFSNode) (n : Z) : gmap Z RamFSNode :=
  match fuel with
  | O => ns
  | S fuel =>
      match ns !! n with
      | None => ns
      | Some x =>
          let ns := match n_type (r_node x), r_children x with
                    | VFS_NODE_DIRECTORY, Some cs => foldl (free_node fuel) ns cs
                    | _, _ => ns
                    end in
          delete n ns
      end
  end.

Definition ramfs_free_node (w : RamWorld) (n : Z) : RamWorld :=
  with_nodes w (free_node (size (rw_nodes w)) (rw_nodes w) n).

Section Ramfs.
Context `{A : Arch} (mal : nat -> bool) (addr : nat -> gmap Z RamFSNode -> Z).
Implicit Types (w : RamWorld).

(** An allocation whose address does not matter. *)
Definition malloc_ok w : RamWorld * bool := (mkWorld (rw_nodes w) (S (rw_clock w)), mal (rw_clock w)).

(** The node, its payload and, for a directory, its list of children. *)
Definition ramfs_new_node w (name : bytes) (type : VFSNodeType) : RamWorld * option Z :=
  let a := addr (rw_clock w) (rw_nodes w) in
  let '(w, ok) := malloc_ok w in
  if negb ok then (w, None)
  else
    let '(w, ok) := malloc_ok w in
    if negb ok then (w, None)
    else
      let '(w, children) :=
        if bool_decide (type = VFS_NODE_DIRECTORY)
        then let '(w, ok) := malloc_ok w in (w, if ok : bool then Some (Some []) else None)
        else (w, Some None) in
      match children with
      | None => (w, None)
      | Some cs => (with_nodes w (<[a := mkRam (mkNode (Some name) type 0 None None) cs [] 0]> (rw_nodes w)), Some a)
      end.

(** The loop that doubles the capacity. *)
Fixpoint double_loop (fuel : nat) (new_capacity required : Z) : option Z :=
  match fuel with
  | O => None
  | S fuel =>
      if new_capacity <? required
      then if SIZE_MAX / 2 <? new_capacity then Some required
           else double_loop fuel (new_capacity *[size_bits] 2) required
      else Some new_capacity
  end.

(** [realloc] keeps the old bytes, the new ones are cleared. *)
Definition ramfs_grow_buffer w (data : bytes) (required : Z) : option (RamWorld * option bytes) :=
  let capacity := zlen data in
  if required <=? capacity then Some (w, Some data)
  else
    new_capacity ← double_loop (S (Z.to_nat size_bits)) (if capacity =? 0 then 64 else capacity) required;
    let '(w, ok) := malloc_ok w in
    Some (w, if ok : bool then Some (data ++ replicate (Z.to_nat (new_capacity - capacity)) 0) else None).

Definition ramfs_mount w (params : option VFSMountParams) : RamWorld * VFSResult * option Z :=
  match ramfs_new_node w [] VFS_NODE_DIRECTORY with
  | (w, None) => (w, VFS_RES_NO_MEMORY, None)
  | (w, Some root) => (w, VFS_RES_OK, Some root)
  end.

Definition ramfs_unmount w (root : Z) : RamWorld := ramfs_free_node w root.

Definition ramfs_probe w (params : option VFSMountParams) : RamWorld * bool :=
  (w, match params with
      | None => false
      | Some p => if negb (p_block_device p =? NULL) || negb (p_volume p =? NULL) then false else true
      end).

Definition ramfs_open w (node mode : Z) : RamWorld * VFSResult * Z :=
  match rw_nodes w !! node with
  | None => (w, VFS_RES_INVALID, NULL)
  | Some x =>
      if bool_decide (n_type (r_node x) = VFS_NODE_DIRECTORY) && negb (Z.land mode VFS_OPEN_WRITE =? 0)
      then (w, VFS_RES_ACCESS, NULL) else (w, VFS_RES_OK, NULL)
  end.

Definition ramfs_close w (node handle : Z) : RamWorld * VFSResult := (w, VFS_RES_OK).

Definition ramfs_read w (node handle offset size : Z) : option (RamWorld * Z * bytes) :=
  match rw_nodes w !! node with
  | None => Some (w, -1, [])
  | Some x =>
      if negb (bool_decide (n_type (r_node x) = VFS_NODE_REGULAR)) then Some (w, -1, [])
      else if r_size x <=? offset then Some (w, 0, [])
      else
        let remaining := r_size x -[size_bits] offset in
        let to_copy := if size <? remaining then size else remaining in
        if zlen (r_data x) <? offset + to_copy then None
        else Some (w, to_copy, take (Z.to_nat to_copy) (drop (Z.to_nat offset) (r_data x)))
  end.

Definition with_data (x : RamFSNode) (data : bytes) (size : Z) : RamFSNode :=
  mkRam (r_node x) (r_children x) data size.

Definition set_ram w (node : Z) (x : RamFSNode) : RamWorld := with_nodes w (<[node := x]> (rw_nodes w)).

Definition ramfs_write w (node handle offset : Z) (buffer : bytes) : option (RamWorld * Z) :=
  match rw_nodes w !! node with
  | None => Some (w, -1)
  | Some x =>
      if negb (bool_decide (n_type (r_node x) = VFS_NODE_REGULAR)) then Some (w, -1)
      else
        let size := zlen buffer in
        let end_pos := offset +[64] size in
        if SIZE_MAX <? end_pos then Some (w, -1)
        else
          g ← ramfs_grow_buffer w (r_data x) end_pos;
          match g with
          | (w, None) => Some (w, -1)
          | (w, Some data) =>
              if zlen data <? offset + size then None
              else
                let data := take (Z.to_nat offset) data ++ buffer ++ drop (Z.to_nat (offset + size)) data in
                let new_size := if r_size x <? end_pos then end_pos else r_size x in
                Some (set_ram w node (with_data x data new_size), size)
          end
  end.

Definition ramfs_truncate w (node handle length : Z) : option (RamWorld * VFSResult) :=
  match rw_nodes w !! node with
  | None => Some (w, VFS_RES_INVALID)
  | Some x =>
      if negb (bool_decide (n_type (r_node x) = VFS_NODE_REGULAR)) then Some (w, VFS_RES_UNSUPPORTED)
      else if SIZE_MAX <? length then Some (w, VFS_RES_INVALID)
      else
        g ← ramfs_grow_buffer w (r_data x) length;
        match g with
        | (w, None) => Some (w, VFS_RES_NO_MEMORY)
        | (w, Some data) =>
            if (length <? r_size x) && (zlen data <? r_size x) then None
            else
              let data := if length <? r_size x
                          then take (Z.to_nat length) data ++ replicate (Z.to_nat (r_size x - length)) 0
                               ++ drop (Z.to_nat (r_size x)) data
                          else data in
              Some (set_ram w node (with_data x data length), VFS_RES_OK)
        end
  end.

(** The entry of a child; names over 255 bytes are cut. *)
Definition ramfs_readdir w (node handle index : Z) : RamWorld * VFSResult * VFSDirEntry :=
  let none := mkDirEntry [] VFS_NODE_UNKNOWN in
  match rw_nodes w !! node with
  | None => (w, VFS_RES_INVALID, none)
  | Some x =>
      if negb (bool_decide (n_type (r_node x) = VFS_NODE_DIRECTORY)) then (w, VFS_RES_INVALID, none)
      else match r_children x with
           | None => (w, VFS_RES_ERROR, none)
           | Some cs =>
               match y ← cs !! Z.to_nat index; rw_nodes w !! y with
               | None => (w, VFS_RES_NOT_FOUND, none)
               | Some y => (w, VFS_RES_OK,
                            mkDirEntry (take (Z.to_nat VFS_NAME_MAX) (default [] (n_name (r_node y)))) (n_type (r_node y)))
               end
           end
  end.

(** [child && child->name && strcmp(child->name, name) == 0]. *)
Definition is_named (ns : gmap Z RamFSNode) (name : bytes) (c : Z) : bool :=
  match y ← ns !! c; n_name (r_node y) with Some s => streq s name | None => false end.

Definition ramfs_lookup w (node : Z) (name : bytes) : RamWorld * VFSResult * option Z :=
  match rw_nodes w !! node with
  | None => (w, VFS_RES_INVALID, None)
  | Some x =>
      if negb (bool_decide (n_type (r_node x) = VFS_NODE_DIRECTORY)) then (w, VFS_RES_INVALID, None)
      else match r_children x with
           | None => (w, VFS_RES_ERROR, None)
           | Some cs => match List.find (is_named (rw_nodes w) name) cs with
                        | Some c => (w, VFS_RES_OK, Some c)
                        | None => (w, VFS_RES_NOT_FOUND, None)
                        end
           end
  end.

Definition with_children (x : RamFSNode) (cs : list Z) : RamFSNode :=
  mkRam (r_node x) (Some cs) (r_data x) (r_size x).

(** [child->parent = node; child->mount = node->mount]. *)
Definition adopt (y : RamFSNode) (parent : Z) (mount : option bytes) : RamFSNode :=
  let v := r_node y in
  mkRam (mkNode (n_name v) (n_type v) (n_flags v) (Some parent) mount) (r_children y) (r_data y) (r_size y).

Definition ramfs_create w (node : Z) (name : bytes) (type : VFSNodeType) : RamWorld * VFSResult :=
  match rw_nodes w !! node with
  | None => (w, VFS_RES_INVALID)
  | Some x =>
      if negb (bool_decide (n_type (r_node x) = VFS_NODE_DIRECTORY)) then (w, VFS_RES_INVALID)
      else match r_children x with
           | None => (w, VFS_RES_ERROR)
           | Some cs =>
               match ramfs_lookup w node name with
               | (w, VFS_RES_OK, _) => (w, VFS_RES_EXISTS)
               | (w, _, _) =>
                   match ramfs_new_node w name type with
                   | (w, None) => (w, VFS_RES_NO_MEMORY)
                   | (w, Some c) =>
                       let w := with_nodes w
                                  (alter (fun y => adopt y node (n_mount (r_node x))) c (rw_nodes w)) in
                       (* List_Add: without its node the child is not listed *)
                       let '(w, ok) := malloc_ok w in
                       (if ok : bool then set_ram w node (with_children x (cs ++ [c])) else w, VFS_RES_OK)
                   end
               end
           end
  end.

Fixpoint find_index (ns : gmap Z RamFSNode) (name : bytes) (cs : list Z) (index : nat) : option (nat * Z) :=
  match cs with
  | [] => None
  | c :: cs => if is_named ns name c then Some (index, c) else find_index ns name cs (S index)
  end.

Definition ramfs_remove w (node : Z) (name : bytes) : RamWorld * VFSResult :=
  match rw_nodes w !! node with
  | None => (w, VFS_RES_INVALID)
  | Some x =>
      if negb (bool_decide (n_type (r_node x) = VFS_NODE_DIRECTORY)) then (w, VFS_RES_INVALID)
      else match r_children x with
           | None => (w, VFS_RES_ERROR)
           | Some cs =>
               match find_index (rw_nodes w) name cs 0 with
               | None => (w, VFS_RES_NOT_FOUND)
               | Some (i, c) =>
                   (ramfs_free_node (set_ram w node (with_children x (delete i cs))) c, VFS_RES_OK)
               end
           end
  end.

Definition ramfs_stat w (node : Z) : RamWorld * VFSResult * VFSNodeInfo :=
  match rw_nodes w !! node with
  | None => (w, VFS_RES_INVALID, mkInfo VFS_NODE_UNKNOWN 0 0 0 0 0 0)
  | Some x => (w, VFS_RES_OK, mkInfo (n_type (r_node x)) (n_flags (r_node x)) (r_size x) node 0 0 0)
  end.

Definition s_ramfs_node_ops : VFSNodeOps RamWorld :=
  mkNodeOps _ (Some ramfs_open) (Some ramfs_close) (Some ramfs_read) (Some ramfs_write) (Some ramfs_truncate)
    (Some ramfs_readdir) (Some ramfs_lookup) (Some ramfs_create) (Some ramfs_remove) (Some ramfs_stat).

Definition s_ramfs_ops : VFSFileSystemOps RamWorld :=
  mkFsOps _ (Some ramfs_probe) (Some ramfs_mount) (Some ramfs_unmount).

Definition RamFS_Create (label : option bytes) (ok : bool) : option (VFSFileSystem RamWorld) :=
  if ok then Some (mkFs _ (Some (default [114; 97; 109; 102; 115] label)) (Some s_ramfs_ops)) else None.

(** The nodes of this driver, as the virtual file system sees them. *)
#[export] Instance ram_vfs_world : VFSWorld RamWorld := {
  get_node w n := match rw_nodes w !! n with Some x => r_node x | None => null_node end;
  set_node w n v := with_nodes w (alter (fun x => mkRam v (r_children x) (r_data x) (r_size x)) n (rw_nodes w));
  node_ops w n := match rw_nodes w !! n with Some _ => Some s_ramfs_node_ops | None => None end
}.
End Ramfs.
