(* ===== verification/RamfsTree.v ===== *)
(** * The tree of the memory file system

    The invariant of the nodes, what [ramfs_free_node] frees (a subtree, all
    of it and nothing else), and the proof that ramfs keeps the contract the
    virtual file system relies on ([FsLaws]). *)

From S2P Require Import Prelude Bytes CString VfsPath Vfs VfsCache VfsResolve Ramfs.

Definition kids (ns : gmap Z RamFSNode) (n : Z) : list Z :=
  match ns !! n with
  | Some x => match n_type (r_node x), r_children x with VFS_NODE_DIRECTORY, Some cs => cs | _, _ => [] end
  | None => []
  end.
Definition kid (ns : gmap Z RamFSNode) (a b : Z) : Prop := b ∈ kids ns a.
Definition name_of (ns : gmap Z RamFSNode) (n : Z) : option bytes := x ← ns !! n; n_name (r_node x).
Definition parent_of (ns : gmap Z RamFSNode) (n : Z) : option Z := x ← ns !! n; n_parent (r_node x).

(** Nodes are not null; a child is a node whose parent pointer and name are
    set; siblings differ, also by name; and there are no cycles. *)
Record nodes_ok (ns : gmap Z RamFSNode) : Prop := {
  key_ok : forall n x, ns !! n = Some x -> n <> NULL;
  kid_ok : forall n c, kid ns n c -> parent_of ns c = Some n /\ exists s, name_of ns c = Some s /\ (0 ∉ s);
  kid_nodup : forall n, NoDup (kids ns n);
  kid_names : forall n c c', kid ns n c -> kid ns n c' -> name_of ns c = name_of ns c' -> c = c';
  ranked : exists rk : Z -> nat, forall n c, kid ns n c -> (rk n < rk c)%nat
}.

Definition ram_inv (rs : list Z) (w : RamWorld) : Prop :=
  NoDup rs /\ (forall r, r ∈ rs -> is_Some (rw_nodes w !! r) /\ parent_of (rw_nodes w) r = None) /\ nodes_ok (rw_nodes w).

Definition ram_child (w : RamWorld) (n : Z) (s : bytes) : option Z :=
  List.find (fun c => bool_decide (name_of (rw_nodes w) c = Some s)) (kids (rw_nodes w) n).

(** ** Subtrees *)

Section Subtree.
Context (ns : gmap Z RamFSNode) (OK : nodes_ok ns).

Lemma kid_parent a b c : kid ns a c -> kid ns b c -> a = b.
Proof. intros [Ha _]%(kid_ok _ OK) [Hb _]%(kid_ok _ OK). congruence. Qed.

Lemma kid_node a b : kid ns a b -> is_Some (ns !! a) /\ is_Some (ns !! b).
Proof.
  intros Hk. split.
  - unfold kid, kids in Hk. destruct (ns !! a); [by eauto|by apply elem_of_nil in Hk].
  - destruct (kid_ok _ OK _ _ Hk) as [Hp _]. unfold parent_of in Hp. destruct (ns !! b); [by eauto|done].
Qed.

Lemma rtc_rank rk a b : (forall n c, kid ns n c -> (rk n < rk c)%nat) -> rtc (kid ns) a b -> (rk a <= rk b)%nat.
Proof. intros Hr. induction 1 as [|a b c Hk _ IH]; [lia|]. specialize (Hr _ _ Hk). lia. Qed.

(** A child does not reach its parent. *)
Lemma kid_acyclic a b : kid ns a b -> ~ rtc (kid ns) b a.
Proof.
  intros Hk Hr. destruct (ranked _ OK) as [rk Hrk]. pose proof (Hrk _ _ Hk). pose proof (rtc_rank rk b a Hrk Hr). lia.
Qed.

(** What reaches a node other than itself reaches its parent. *)
Lemma rtc_parent a b p : rtc (kid ns) a b -> kid ns p b -> a = b \/ rtc (kid ns) a p.
Proof.
  intros H Hp. apply rtc_inv_r in H as [->|(y & Hay & Hy)]; [by left|]. right.
  by rewrite (kid_parent p y b).
Qed.

Lemma rtc_comparable a b m : rtc (kid ns) a m -> rtc (kid ns) b m -> rtc (kid ns) a b \/ rtc (kid ns) b a.
Proof.
  intros Ha Hb. revert Ha. induction Hb as [|b y m Hby Hym IH]; [by left|]. intros Ham.
  destruct (IH Ham) as [Hay|Hya]; [|right; by eapply rtc_l].
  destruct (rtc_parent a y b Hay Hby) as [->|?]; [right; by apply rtc_once|by left].
Qed.

(** Siblings have disjoint subtrees. *)
Lemma siblings_disjoint n c c' m : kid ns n c -> kid ns n c' -> rtc (kid ns) c m -> rtc (kid ns) c' m -> c = c'.
Proof.
  intros Hc Hc' H1 H2. destruct (rtc_comparable c c' m H1 H2) as [H|H].
  - destruct (rtc_parent c c' n H Hc') as [?|Hr]; [done|]. by destruct (kid_acyclic n c Hc).
  - destruct (rtc_parent c' c n H Hc) as [?|Hr]; [done|]. by destruct (kid_acyclic n c' Hc').
Qed.

(** Paths are shorter than the number of nodes. *)
Lemma path_short k n m : nsteps (kid ns) k n m -> is_Some (ns !! n) -> (k < size ns)%nat.
Proof.
  intros Hk Hn. destruct (ranked _ OK) as [rk Hrk].
  assert (exists l, length l = S k /\ NoDup l /\ forall a, a ∈ l -> a ∈ dom ns /\ (rk n <= rk a)%nat) as (l & Hl & Hnd & Hin).
  { clear -Hk Hn Hrk OK. induction Hk as [n|k n y m Hny _ IH].
    - exists [n]. split_and!; [done|apply NoDup_singleton|]. intros a ->%list_elem_of_singleton.
      split; [by apply elem_of_dom|lia].
    - destruct (IH (proj2 (kid_node _ _ Hny))) as (l & Hl & Hnd & Hin). pose proof (Hrk _ _ Hny). exists (n :: l).
      split_and!; [cbn; lia| |].
      + constructor; [|done]. intros [_ ?]%Hin. lia.
      + intros a [->|Ha]%elem_of_cons; [split; [by apply elem_of_dom|lia]|]. destruct (Hin a Ha). split; [done|lia]. }
  assert (list_to_set l ⊆ dom ns) as Hsub by (intros a Ha; apply Hin; set_solver).
  apply subseteq_size in Hsub. rewrite size_list_to_set, size_dom in Hsub by done. lia.
Qed.

(** ** [ramfs_free_node] *)

Lemma free_unfold fuel ns1 n : is_Some (ns1 !! n) ->
  free_node (S fuel) ns1 n = delete n (foldl (free_node fuel) ns1 (kids ns1 n)).
Proof. intros [x Hx]. cbn [free_node]. unfold kids. rewrite Hx. by destruct (n_type (r_node x)), (r_children x). Qed.

(** On a map that has the subtree of [n], the subtree is removed and the rest
    stays. *)
Lemma free_node_spec fuel : forall ns1 n, (forall k m, nsteps (kid ns) k n m -> (k < fuel)%nat) -> is_Some (ns !! n) ->
  (forall m, rtc (kid ns) n m -> ns1 !! m = ns !! m) ->
  forall m, (rtc (kid ns) n m -> free_node fuel ns1 n !! m = None) /\
            (~ rtc (kid ns) n m -> free_node fuel ns1 n !! m = ns1 !! m).
Proof.
  induction fuel as [|fuel IH]; intros ns1 n Hfuel Hn Hag m.
  { specialize (Hfuel O n (nsteps_O _ _)). lia. }
  assert (kids ns1 n = kids ns n) as Hkids by (unfold kids; by rewrite (Hag n (rtc_refl _ _))).
  rewrite free_unfold by (by rewrite (Hag n (rtc_refl _ _))). rewrite Hkids.
  assert (forall cs ns2, (forall c, c ∈ cs -> kid ns n c) -> NoDup cs ->
    (forall c m, c ∈ cs -> rtc (kid ns) c m -> ns2 !! m = ns !! m) ->
    ((exists c, c ∈ cs /\ rtc (kid ns) c m) -> foldl (free_node fuel) ns2 cs !! m = None) /\
    (~ (exists c, c ∈ cs /\ rtc (kid ns) c m) -> foldl (free_node fuel) ns2 cs !! m = ns2 !! m)) as Hfold.
  { induction cs as [|c cs IHcs]; intros ns2 Hcs Hnd Hag2.
    { split; [by intros (c & ?%elem_of_nil & _)|done]. }
    cbn [foldl]. apply NoDup_cons in Hnd as [Hc Hnd]. assert (kid ns n c) as Hkc by (apply Hcs; set_solver).
    assert (forall m, (rtc (kid ns) c m -> free_node fuel ns2 c !! m = None) /\
            (~ rtc (kid ns) c m -> free_node fuel ns2 c !! m = ns2 !! m)) as Hone.
    { apply IH; [|by eapply kid_node|intros; eapply Hag2; [|done]; set_solver].
      intros k m' Hk. specialize (Hfuel (S k) m' (nsteps_l _ _ _ _ _ Hkc Hk)). lia. }
    assert (forall c', c' ∈ cs -> forall m, rtc (kid ns) c' m -> ~ rtc (kid ns) c m) as Hdis.
    { intros c' Hc' m' H1 H2. assert (c = c') as -> by (eapply siblings_disjoint; eauto; apply Hcs; set_solver). done. }
    destruct (IHcs (free_node fuel ns2 c)) as [I1 I2].
    - intros; apply Hcs; set_solver.
    - done.
    - intros c' m' Hc' Hm'. rewrite (proj2 (Hone m') (Hdis c' Hc' m' Hm')). eapply Hag2; [|done]. set_solver.
    - split.
      + intros (c' & [->|Hc']%elem_of_cons & Hm'); [|apply I1; by exists c'].
        rewrite I2; [by apply Hone|]. intros (c'' & Hc'' & Hm''). by apply (Hdis c'' Hc'' m).
      + intros Hno. rewrite I2; [apply Hone|]; [intros ?; apply Hno; exists c; set_solver|].
        intros (c'' & Hc'' & Hm''). apply Hno. exists c''. set_solver. }
  destruct (Hfold (kids ns n) ns1) as [F1 F2].
  { done. } { apply (kid_nodup _ OK). } { intros c m' Hc Hm'. apply Hag. by eapply rtc_l. }
  split.
  - intros [->|(y & Hy & Hym)]%rtc_inv; [apply lookup_delete_eq|].
    rewrite lookup_delete_ne by (intros ->; by apply (kid_acyclic m y)). apply F1. by exists y.
  - intros Hno. rewrite lookup_delete_ne by (intros ->; by apply Hno). apply F2. intros (c & Hc & Hcm).
    apply Hno. by eapply rtc_l.
Qed.
End Subtree.

(** ** The view of the tree *)

Lemma ram_child_spec w n s c : nodes_ok (rw_nodes w) ->
  ram_child w n s = Some c <-> kid (rw_nodes w) n c /\ name_of (rw_nodes w) c = Some s.
Proof.
  intros OK. unfold ram_child. split.
  - intros [Hin Hn]%List.find_some. apply bool_decide_eq_true_1 in Hn. split; [|done]. by apply list_elem_of_In.
  - intros [Hk Hn]. destruct (List.find _ _) as [c'|] eqn:E.
    + apply List.find_some in E as [Hin Hn']. apply bool_decide_eq_true_1 in Hn'. f_equal.
      apply (kid_names _ OK n); [by apply list_elem_of_In|done|congruence].
    + apply list_elem_of_In in Hk. pose proof (List.find_none _ _ E _ Hk) as Hf.
      by apply bool_decide_eq_false_1 in Hf.
Qed.

Lemma descend_rtc w d m : nodes_ok (rw_nodes w) ->
  rtc (kid (rw_nodes w)) d m <-> exists u, descend ram_child w d u = Some m.
Proof.
  intros OK. split.
  - induction 1 as [d|d y m Hk _ [u IH]]; [by exists []|].
    destruct (kid_ok _ OK _ _ Hk) as (_ & s & Hs & _). exists (s :: u). cbn.
    by rewrite (proj2 (ram_child_spec w d s y OK) (conj Hk Hs)).
  - intros [u Hu]. revert d Hu. induction u as [|s u IH]; intros d; cbn; [by intros [= ->]|].
    destruct (ram_child w d s) as [y|] eqn:E; [|done]. intros Hu. apply ram_child_spec in E as [Hk _]; [|done].
    eapply rtc_l; [done|]. by apply IH.
Qed.

Lemma ram_forest rs w : ram_inv rs w -> forest ram_child rs w.
Proof.
  intros (Hnd & Hrs & OK). split; [done|..].
  - intros Hin. destruct (Hrs _ Hin) as [[x Hx] _]. by apply (key_ok _ OK) in Hx.
  - intros n s c [Hk _]%ram_child_spec; [|done]. split.
    + destruct (kid_node _ OK _ _ Hk) as [_ [x Hx]]. by apply (key_ok _ OK) in Hx.
    + intros Hin. destruct (Hrs _ Hin) as [_ Hp]. destruct (kid_ok _ OK _ _ Hk) as [Hp' _]. congruence.
  - intros n s n' s' c [Hk Hs]%ram_child_spec [Hk' Hs']%ram_child_spec; [|done..].
    split; [by eapply kid_parent|congruence].
Qed.

(** ** Maps that keep the invariant *)

(** Fewer nodes and fewer children. *)
Lemma nodes_ok_restrict ns ns' : nodes_ok ns ->
  (forall n x, ns' !! n = Some x -> exists y, ns !! n = Some y /\ r_node x = r_node y) ->
  (forall n, kids ns' n `sublist_of` kids ns n) ->
  (forall n c, kid ns' n c -> is_Some (ns' !! c)) -> nodes_ok ns'.
Proof.
  intros OK Hsub Hkids Hcl.
  assert (forall n c, kid ns' n c -> kid ns n c) as Hk.
  { intros n c Hc. eapply elem_of_submseteq; [exact Hc|]. apply sublist_submseteq, Hkids. }
  assert (forall n c, kid ns' n c -> parent_of ns' c = parent_of ns c /\ name_of ns' c = name_of ns c) as Hsame.
  { intros n c Hc. destruct (Hcl _ _ Hc) as [x Hx]. destruct (Hsub _ _ Hx) as (y & Hy & Heq).
    unfold parent_of, name_of. rewrite Hx, Hy. cbn. by rewrite Heq. }
  split.
  - intros n x Hx. destruct (Hsub _ _ Hx) as (y & Hy & _). by apply (key_ok _ OK) in Hy.
  - intros n c Hc. destruct (Hsame _ _ Hc) as [-> ->]. by apply (kid_ok _ OK), Hk.
  - intros n. eapply sublist_NoDup; [apply (kid_nodup _ OK)|apply Hkids].
  - intros n c c' Hc Hc'. destruct (Hsame _ _ Hc) as [_ ->], (Hsame _ _ Hc') as [_ ->].
    apply (kid_names _ OK n); by apply Hk.
  - destruct (ranked _ OK) as [rk Hrk]. exists rk. intros n c Hc. by apply Hrk, Hk.
Qed.

(** The same tree. *)
Lemma nodes_ok_ext ns ns' : nodes_ok ns -> (forall n, kids ns' n = kids ns n) ->
  (forall n, is_Some (ns' !! n) -> is_Some (ns !! n)) ->
  (forall n, name_of ns' n = name_of ns n) -> (forall n, parent_of ns' n = parent_of ns n) -> nodes_ok ns'.
Proof.
  intros OK Hk Hd Hn Hp. assert (forall n c, kid ns' n c <-> kid ns n c) as Hkid by (intros; unfold kid; by rewrite Hk).
  split.
  - intros n x Hx. destruct (Hd n ltac:(eauto)) as [y Hy]. by apply (key_ok _ OK) in Hy.
  - intros n c Hc%Hkid. rewrite Hp, Hn. by apply (kid_ok _ OK).
  - intros n. rewrite Hk. apply (kid_nodup _ OK).
  - intros n c c' Hc%Hkid Hc'%Hkid. rewrite !Hn. by apply (kid_names _ OK n).
  - destruct (ranked _ OK) as [rk Hrk]. exists rk. intros n c Hc%Hkid. by apply Hrk.
Qed.

Lemma kids_insert_ne ns a x n : n <> a -> kids (<[a := x]> ns) n = kids ns n.
Proof. intros Hne. unfold kids. by rewrite lookup_insert_ne. Qed.

Definition own_kids (x : RamFSNode) : list Z :=
  match n_type (r_node x), r_children x with VFS_NODE_DIRECTORY, Some cs => cs | _, _ => [] end.

Lemma kids_insert_eq ns a x : kids (<[a := x]> ns) a = own_kids x.
Proof. unfold kids. by rewrite lookup_insert_eq. Qed.

Lemma kids_lookup ns a x : ns !! a = Some x -> kids ns a = own_kids x.
Proof. intros Hx. unfold kids. by rewrite Hx. Qed.

(** A new node without children. *)
Lemma nodes_ok_leaf ns a x : nodes_ok ns -> ns !! a = None -> a <> NULL -> own_kids x = [] ->
  nodes_ok (<[a := x]> ns) /\ forall n, kids (<[a := x]> ns) n = kids ns n.
Proof.
  intros OK Ha Hnull Hx.
  assert (forall n, kids (<[a := x]> ns) n = kids ns n) as Hk.
  { intros n. destruct (decide (n = a)) as [->|]; [|by apply kids_insert_ne].
    rewrite kids_insert_eq, Hx. unfold kids. by rewrite Ha. }
  split; [|done].
  assert (forall n c, kid (<[a := x]> ns) n c -> kid ns n c /\ c <> a) as Hkid.
  { intros n c Hc. unfold kid in Hc. rewrite Hk in Hc. split; [done|]. intros ->.
    destruct (kid_node _ OK n a Hc) as [_ [? ?]]. congruence. }
  split.
  - intros n y. destruct (decide (n = a)) as [->|]; [done|]. rewrite lookup_insert_ne by done. apply (key_ok _ OK).
  - intros n c [Hc Hne]%Hkid. unfold parent_of, name_of. rewrite lookup_insert_ne by done. by apply (kid_ok _ OK).
  - intros n. rewrite Hk. apply (kid_nodup _ OK).
  - intros n c c' [Hc Hne]%Hkid [Hc' Hne']%Hkid. unfold name_of. rewrite !lookup_insert_ne by done.
    by apply (kid_names _ OK n).
  - destruct (ranked _ OK) as [rk Hrk]. exists rk. intros n c [Hc _]%Hkid. by apply Hrk.
Qed.

(** A node without parent becomes the last child of a directory. *)
Lemma nodes_ok_link ns node x cs c s : nodes_ok ns -> ns !! node = Some x ->
  n_type (r_node x) = VFS_NODE_DIRECTORY -> r_children x = Some cs ->
  kids ns c = [] -> parent_of ns c = Some node -> name_of ns c = Some s -> (0 ∉ s) ->
  (forall c', kid ns node c' -> name_of ns c' <> Some s) -> (forall n, ~ kid ns n c) -> c <> node ->
  let ns' := <[node := with_children x (cs ++ [c])]> ns in
  nodes_ok ns' /\ kids ns' node = kids ns node ++ [c] /\ forall n, n <> node -> kids ns' n = kids ns n.
Proof.
  intros OK Hx Ht Hcs Hkc Hp Hs H0 Hnew Hno Hne ns'.
  assert (kids ns node = cs) as Hkn. { rewrite (kids_lookup _ _ _ Hx). unfold own_kids. by rewrite Ht, Hcs. }
  assert (kids ns' node = kids ns node ++ [c]) as Hkn'.
  { subst ns'. rewrite kids_insert_eq, Hkn. unfold own_kids, with_children. cbn. by rewrite Ht. }
  assert (forall n, n <> node -> kids ns' n = kids ns n) as Hk by (intros; by apply kids_insert_ne).
  assert (forall n, name_of ns' n = name_of ns n /\ parent_of ns' n = parent_of ns n) as Hsame.
  { intros n. unfold name_of, parent_of, ns'. destruct (decide (n = node)) as [->|]; [|by rewrite lookup_insert_ne].
    by rewrite lookup_insert_eq, Hx. }
  assert (forall n k, kid ns' n k -> kid ns n k \/ n = node /\ k = c) as Hkid.
  { intros n k. unfold kid. destruct (decide (n = node)) as [->|]; [|rewrite Hk by done; by left].
    rewrite Hkn', elem_of_app, list_elem_of_singleton. naive_solver. }
  split; [|done]. split.
  - intros n y. unfold ns'. destruct (decide (n = node)) as [->|].
    + intros _. by apply (key_ok _ OK) in Hx.
    + rewrite lookup_insert_ne by done. apply (key_ok _ OK).
  - intros n k Hn. destruct (Hsame k) as [-> ->]. destruct (Hkid _ _ Hn) as [?|[-> ->]]; [by apply (kid_ok _ OK)|by eauto].
  - intros n. destruct (decide (n = node)) as [->|]; [|rewrite Hk by done; apply (kid_nodup _ OK)].
    rewrite Hkn'. apply NoDup_app. split_and!; [apply (kid_nodup _ OK)| |apply NoDup_singleton].
    intros k Hin ->%list_elem_of_singleton. by apply (Hno node).
  - intros n k k' H1 H2. destruct (Hsame k) as [-> _], (Hsame k') as [-> _].
    destruct (Hkid _ _ H1) as [G1|[-> ->]], (Hkid _ _ H2) as [G2|[Hn' ->]]; intros Heq.
    + by apply (kid_names _ OK n).
    + subst. exfalso. apply (Hnew k G1). congruence.
    + exfalso. apply (Hnew k' G2). congruence.
    + done.
  - destruct (ranked _ OK) as [rk Hrk]. exists (fun m => if decide (m = c) then S (rk node) else rk m).
    intros n k Hn. destruct (Hkid _ _ Hn) as [G|[-> ->]].
    + destruct (decide (n = c)) as [->|]; [unfold kid in G; rewrite Hkc in G; by apply elem_of_nil in G|].
      destruct (decide (k = c)) as [->|]; [by destruct (Hno n)|]. by apply Hrk.
    + destruct (decide (node = c)); [done|]. destruct (decide (c = c)); [lia|done].
Qed.

(** The subtree of [c] is gone; the rest is as in [ns1], where [c] is no
    longer a child. *)
Lemma nodes_ok_prune ns ns1 ns' c : nodes_ok ns ->
  (forall n x, ns1 !! n = Some x -> exists y, ns !! n = Some y /\ r_node x = r_node y) ->
  (forall n, is_Some (ns !! n) -> is_Some (ns1 !! n)) ->
  (forall n, kids ns1 n `sublist_of` kids ns n) -> (forall n, ~ kid ns1 n c) ->
  (forall m, (rtc (kid ns) c m -> ns' !! m = None) /\ (~ rtc (kid ns) c m -> ns' !! m = ns1 !! m)) ->
  nodes_ok ns'.
Proof.
  intros OK Hsub Hdom Hkids Hno Hns.
  assert (forall n x, ns' !! n = Some x -> ns1 !! n = Some x /\ ~ rtc (kid ns) c n) as Hold.
  { intros n x Hx. assert (~ rtc (kid ns) c n) as Hr by (intros Hr; apply Hns in Hr; congruence).
    by rewrite <- (proj2 (Hns n) Hr). }
  assert (forall n, kids ns' n = kids ns1 n \/ kids ns' n = []) as Hk.
  { intros n. unfold kids at 1 3. destruct (ns' !! n) as [x|] eqn:E; [left|by right].
    destruct (Hold _ _ E) as [E1 _]. unfold kids. by rewrite E1. }
  apply (nodes_ok_restrict ns); [done|..].
  - intros n x Hx. destruct (Hold _ _ Hx) as [Hx1 _]. by apply Hsub.
  - intros n. destruct (Hk n) as [->| ->]; [apply Hkids|apply sublist_nil_l].
  - intros n k Hnk. assert (kid ns1 n k) as H1.
    { unfold kid in *. destruct (Hk n) as [<-|E]; [done|]. rewrite E in Hnk. by apply elem_of_nil in Hnk. }
    assert (kid ns n k) as H2. { eapply elem_of_submseteq; [exact H1|]. apply sublist_submseteq, Hkids. }
    assert (exists x, ns' !! n = Some x) as [x Hx].
    { unfold kid, kids in Hnk. destruct (ns' !! n) eqn:E; [by eauto|by apply elem_of_nil in Hnk]. }
    destruct (Hold _ _ Hx) as [_ Hnr]. assert (~ rtc (kid ns) c k) as Hkr.
    { intros Hr. destruct (rtc_parent ns OK c k n Hr H2) as [->|?]; [by apply (Hno n)|done]. }
    rewrite (proj2 (Hns k) Hkr). apply Hdom. by apply (kid_node ns OK n k).
Qed.

Lemma find_ext {X} (f g : X -> bool) l : (forall x, x ∈ l -> f x = g x) -> List.find f l = List.find g l.
Proof.
  induction l as [|x l IH]; [done|]. intros H. cbn. rewrite (H x) by set_solver.
  by rewrite IH by (intros; apply H; set_solver).
Qed.

Lemma is_named_spec ns n c s : nodes_ok ns -> kid ns n c -> (0 ∉ s) ->
  is_named ns s c = bool_decide (name_of ns c = Some s).
Proof.
  intros OK Hk Hs. destruct (kid_ok _ OK _ _ Hk) as (_ & t & Ht & H0). unfold is_named. fold (name_of ns c).
  rewrite Ht. destruct (streq t s) eqn:E.
  - apply streq_spec in E; [|done..]. by rewrite bool_decide_eq_true_2 by congruence.
  - rewrite bool_decide_eq_false_2; [done|]. intros [= ->]. by rewrite (proj2 (streq_spec s s Hs Hs) eq_refl) in E.
Qed.

Lemma ram_child_named w n s : nodes_ok (rw_nodes w) -> (0 ∉ s) ->
  ram_child w n s = List.find (is_named (rw_nodes w) s) (kids (rw_nodes w) n).
Proof. intros OK Hs. symmetry. apply find_ext. intros c Hc. by eapply is_named_spec. Qed.

(** The search of [ramfs_remove]: the child and its index. *)
Lemma find_index_spec ns s cs i :
  match find_index ns s cs i with
  | Some (j, c) => exists a b, cs = a ++ c :: b /\ j = (i + length a)%nat /\ List.find (is_named ns s) cs = Some c
  | None => List.find (is_named ns s) cs = None
  end.
Proof.
  revert i; induction cs as [|c cs IH]; intros i; cbn [find_index List.find]; [done|].
  destruct (is_named ns s c); [exists [], cs; split_and!; [done|cbn; lia|done]|].
  specialize (IH (S i)). destruct (find_index ns s cs (S i)) as [[j c']|]; [|done].
  destruct IH as (a & b & -> & -> & Hf). exists (c :: a), b. split_and!; [done|cbn; lia|done].
Qed.

Lemma free_subtree ns ns1 c : nodes_ok ns -> is_Some (ns !! c) -> size ns1 = size ns ->
  (forall m, rtc (kid ns) c m -> ns1 !! m = ns !! m) ->
  forall m, (rtc (kid ns) c m -> free_node (size ns1) ns1 c !! m = None) /\
            (~ rtc (kid ns) c m -> free_node (size ns1) ns1 c !! m = ns1 !! m).
Proof.
  intros OK Hc Hsz Hag. apply (free_node_spec ns OK); [|done..]. intros k m Hk. rewrite Hsz.
  by eapply path_short.
Qed.

(** What is kept of the view when the subtree of [d] goes. *)
Lemma prune_keeps w w' d : nodes_ok (rw_nodes w) -> nodes_ok (rw_nodes w') ->
  (forall n k, kid (rw_nodes w) n k -> ~ rtc (kid (rw_nodes w)) d n -> k <> d ->
     kid (rw_nodes w') n k /\ name_of (rw_nodes w') k = name_of (rw_nodes w) k) ->
  keeps_outside ram_child w w' d.
Proof.
  intros OK OK' Hkeep n s c [Hk Hs]%ram_child_spec Hno Hne; [|done]. apply ram_child_spec; [done|].
  destruct (Hkeep n c Hk) as [? ->]; [|done|done]. rewrite descend_rtc by done. intros [u Hu]. by apply (Hno u).
Qed.

Section Laws.
Context `{A : Arch} (mal : nat -> bool) (addr : nat -> gmap Z RamFSNode -> Z).
Hypothesis addr_fresh : forall k ns, ns !! addr k ns = None /\ addr k ns <> NULL.

Lemma new_node_spec w name type : nodes_ok (rw_nodes w) ->
  let '(w', o) := ramfs_new_node mal addr w name type in
  match o with
  | None => rw_nodes w' = rw_nodes w
  | Some a => rw_nodes w !! a = None /\ a <> NULL /\ exists x, own_kids x = [] /\
      r_node x = mkNode (Some name) type 0 None None /\ rw_nodes w' = <[a := x]> (rw_nodes w)
  end.
Proof.
  intros OK. unfold ramfs_new_node. cbn [malloc_ok fst snd rw_nodes rw_clock].
  destruct (addr_fresh (rw_clock w) (rw_nodes w)) as [Hf Hn].
  destruct (mal (rw_clock w)); cbn [negb]; [|done]. destruct (mal (S (rw_clock w))); cbn [negb]; [|done].
  case_bool_decide as Ht.
  - destruct (mal (S (S (rw_clock w)))); [|done]. split_and!; try done.
    exists (mkRam (mkNode (Some name) type 0 None None) (Some []) [] 0). split_and!; [|done|done]. by subst.
  - split_and!; try done. exists (mkRam (mkNode (Some name) type 0 None None) None [] 0).
    split_and!; [|done|done]. unfold own_kids. cbn. by destruct type.
Qed.

Lemma ram_lookup_law rs w n s w' r x : ram_inv rs w -> clean s -> ramfs_lookup w n s = (w', r, x) ->
  w' = w /\ ram_child w n s = match r with VFS_RES_OK => x | _ => None end.
Proof.
  intros (_ & _ & OK) (_ & _ & H0 & _) E. rewrite ram_child_named by done. unfold ramfs_lookup in E. unfold kids.
  destruct (rw_nodes w !! n) as [y|]; [|by injection E as <- <- <-].
  case_bool_decide as Ht; cbn [negb] in E; cycle 1.
  { injection E as <- <- <-. by destruct (n_type (r_node y)). }
  rewrite Ht. destruct (r_children y) as [cs|]; [|by injection E as <- <- <-].
  destruct (List.find _ cs); by injection E as <- <- <-.
Qed.
Lemma keeps_intro w w' : nodes_ok (rw_nodes w) -> nodes_ok (rw_nodes w') ->
  (forall n c, kid (rw_nodes w) n c -> kid (rw_nodes w') n c /\ name_of (rw_nodes w') c = name_of (rw_nodes w) c) ->
  keeps ram_child w w'.
Proof.
  intros OK OK' H n s c [Hk Hs]%ram_child_spec; [|done]. apply ram_child_spec; [done|]. destruct (H n c Hk) as [? ->]. done.
Qed.

(** A new leaf, not linked to a directory. *)
Lemma leaf_world rs w w' a x : ram_inv rs w -> rw_nodes w !! a = None -> a <> NULL -> own_kids x = [] ->
  rw_nodes w' = <[a := x]> (rw_nodes w) -> ram_inv rs w' /\ keeps ram_child w w'.
Proof.
  intros (Hnd & Hrs & OK) Ha Hn Hx Hw'. destruct (nodes_ok_leaf (rw_nodes w) a x OK Ha Hn Hx) as [OK' Hk].
  rewrite <- Hw' in OK', Hk.
  assert (forall n y, rw_nodes w !! n = Some y -> rw_nodes w' !! n = Some y) as Hold.
  { intros n y Hy. rewrite Hw', lookup_insert_ne; [done|]. intros ->. congruence. }
  split.
  - split_and!; try done. intros r [[y Hy] Hp]%Hrs. unfold parent_of in *. rewrite (Hold _ _ Hy). rewrite Hy in Hp. eauto.
  - apply keeps_intro; [done..|]. intros n c Hc. unfold kid. rewrite Hk. split; [done|].
    destruct (kid_node _ OK n c Hc) as [_ [y Hy]]. unfold name_of. by rewrite (Hold _ _ Hy), Hy.
Qed.

Lemma same_nodes rs w w' : rw_nodes w' = rw_nodes w -> ram_inv rs w -> ram_inv rs w' /\ keeps ram_child w w'.
Proof. intros Heq H. unfold ram_inv, keeps, ram_child in *. by rewrite Heq. Qed.

(** A leaf is linked to its directory. *)
Lemma link_world rs w n x cs c s : ram_inv rs w -> rw_nodes w !! n = Some x ->
  n_type (r_node x) = VFS_NODE_DIRECTORY -> r_children x = Some cs ->
  kids (rw_nodes w) c = [] -> parent_of (rw_nodes w) c = Some n -> name_of (rw_nodes w) c = Some s -> (0 ∉ s) ->
  ram_child w n s = None -> (forall m, ~ kid (rw_nodes w) m c) -> c <> n ->
  ram_inv rs (set_ram w n (with_children x (cs ++ [c]))) /\ keeps ram_child w (set_ram w n (with_children x (cs ++ [c]))).
Proof.
  intros (Hnd & Hrs & OK) Hx Ht Hcs Hkc Hp Hs H0 Hnone Hno Hne.
  destruct (nodes_ok_link (rw_nodes w) n x cs c s OK Hx Ht Hcs Hkc Hp Hs H0) as (OK' & Hk1 & Hk2); try done.
  { intros c' Hc' Hs'. by rewrite (proj2 (ram_child_spec w n s c' OK) (conj Hc' Hs')) in Hnone. }
  assert (forall m, name_of (rw_nodes (set_ram w n (with_children x (cs ++ [c])))) m = name_of (rw_nodes w) m /\
    parent_of (rw_nodes (set_ram w n (with_children x (cs ++ [c])))) m = parent_of (rw_nodes w) m) as Hsame.
  { intros m. unfold name_of, parent_of. cbn. destruct (decide (m = n)) as [->|]; [|by rewrite lookup_insert_ne].
    by rewrite lookup_insert_eq, Hx. }
  split.
  - split_and!; try done. intros r [Hr Hpr]%Hrs. rewrite (proj2 (Hsame r)). split; [|done]. cbn.
    destruct (decide (r = n)) as [->|]; [rewrite lookup_insert_eq; eauto|by rewrite lookup_insert_ne].
  - apply keeps_intro; [done..|]. intros m k Hm. rewrite (proj1 (Hsame k)). split; [|done]. unfold kid. cbn.
    destruct (decide (m = n)) as [->|]; [|by rewrite Hk2]. rewrite Hk1. apply elem_of_app. by left.
Qed.

Lemma keeps_trans w1 w2 w3 : keeps ram_child w1 w2 -> keeps ram_child w2 w3 -> keeps ram_child w1 w3.
Proof. intros H1 H2 n s c Hc. by apply H2, H1. Qed.

Lemma ram_create_law rs w n s t w' r : ram_inv rs w -> clean s -> ramfs_create mal addr w n s t = (w', r) ->
  ram_inv rs w' /\ keeps ram_child w w'.
Proof.
  intros HI Hc E. pose proof HI as (Hnd & Hrs & OK). unfold ramfs_create in E.
  destruct (rw_nodes w !! n) as [x|] eqn:Ex; [|injection E as <- <-; by apply same_nodes].
  case_bool_decide as Ht; cbn [negb] in E; [|injection E as <- <-; by apply same_nodes].
  destruct (r_children x) as [cs|] eqn:Ecs; [|injection E as <- <-; by apply same_nodes].
  destruct (ramfs_lookup w n s) as [[w0 e] o] eqn:El.
  destruct (ram_lookup_law rs w n s w0 e o HI Hc El) as [-> Hch].
  destruct (decide (e = VFS_RES_OK)) as [->|He]; [injection E as <- <-; by apply same_nodes|].
  assert (ram_child w n s = None) as Hnone by (rewrite Hch; by destruct e). clear Hch.
  assert (match ramfs_new_node mal addr w s t with
    | (w, None) => (w, VFS_RES_NO_MEMORY)
    | (w, Some c) =>
        let w := with_nodes w (alter (fun y => adopt y n (n_mount (r_node x))) c (rw_nodes w)) in
        let '(w, ok) := malloc_ok mal w in
        (if ok : bool then set_ram w n (with_children x (cs ++ [c])) else w, VFS_RES_OK)
    end = (w', r)) as E' by (by destruct e). clear E.
  pose proof (new_node_spec w s t OK) as Hnew. destruct (ramfs_new_node mal addr w s t) as [w1 [a|]].
  2:{ injection E' as <- <-. by apply same_nodes. }
  destruct Hnew as (Ha & Hnull & y & Hy & Hyn & Hw1).
  set (y' := adopt y n (n_mount (r_node x))) in *. cbn zeta in E'. unfold malloc_ok in E'.
  assert (own_kids y' = []) as Hy' by done.
  assert (alter (fun y => adopt y n (n_mount (r_node x))) a (rw_nodes w1) = <[a := y']> (rw_nodes w)) as Halt.
  { rewrite Hw1. apply map_eq. intros k. destruct (decide (k = a)) as [->|].
    - by rewrite lookup_alter_eq, !lookup_insert_eq.
    - by rewrite lookup_alter_ne, !lookup_insert_ne. }
  cbn [with_nodes rw_nodes rw_clock] in E'. rewrite Halt in E'. injection E' as <- <-.
  set (w2 := mkWorld (<[a := y']> (rw_nodes w)) (S (rw_clock w1))).
  destruct (leaf_world rs w w2 a y' HI Ha Hnull Hy' eq_refl) as [HI2 Hk2].
  destruct (mal (rw_clock w1)); [|done].
  destruct (nodes_ok_leaf (rw_nodes w) a y' OK Ha Hnull Hy') as [_ Hkeq].
  assert (a <> n) as Hane by congruence. pose proof Hc as (_ & _ & H0 & _).
  assert (forall m, ~ kid (rw_nodes w) m a) as Hnoa.
  { intros m Hm. destruct (kid_node _ OK m a Hm) as [_ [? ?]]. congruence. }
  destruct (link_world rs w2 n x cs a s) as [HI3 Hk3]; try done; cbn [w2 rw_nodes].
  - by rewrite lookup_insert_ne.
  - rewrite kids_insert_eq. done.
  - unfold parent_of. by rewrite lookup_insert_eq.
  - unfold name_of. rewrite lookup_insert_eq. unfold y'. cbn. by rewrite Hyn.
  - rewrite <- Hnone. unfold ram_child. cbn [w2 rw_nodes]. rewrite Hkeq. apply find_ext. intros k Hk. unfold name_of.
    rewrite lookup_insert_ne; [done|]. intros <-. by apply (Hnoa n).
  - intros m. unfold kid. rewrite Hkeq. apply Hnoa.
  - split; [done|]. by eapply keeps_trans.
Qed.
End Laws.

(** [ramfs_free_node] after [c] has been unlinked. *)
Lemma prune_world rs w w1 c : nodes_ok (rw_nodes w) -> NoDup rs ->
  (forall r, r ∈ rs -> is_Some (rw_nodes w !! r) /\ parent_of (rw_nodes w) r = None /\ r <> c) ->
  is_Some (rw_nodes w !! c) -> size (rw_nodes w1) = size (rw_nodes w) ->
  (forall n, match rw_nodes w !! n, rw_nodes w1 !! n with
             | Some x, Some y => r_node y = r_node x | None, None => True | _, _ => False end) ->
  (forall n, kids (rw_nodes w1) n `sublist_of` kids (rw_nodes w) n) ->
  (forall n k, kid (rw_nodes w) n k -> k <> c -> kid (rw_nodes w1) n k) -> (forall n, ~ kid (rw_nodes w1) n c) ->
  (forall m, rtc (kid (rw_nodes w)) c m -> rw_nodes w1 !! m = rw_nodes w !! m) ->
  ram_inv rs (ramfs_free_node w1 c) /\ keeps_outside ram_child w (ramfs_free_node w1 c) c /\
  (forall m, is_Some (rw_nodes (ramfs_free_node w1 c) !! m) <-> is_Some (rw_nodes w !! m) /\ ~ rtc (kid (rw_nodes w)) c m) /\
  (forall n k, kid (rw_nodes (ramfs_free_node w1 c)) n k ->
     kid (rw_nodes w) n k /\ name_of (rw_nodes (ramfs_free_node w1 c)) k = name_of (rw_nodes w) k).
Proof.
  intros OK Hnd Hrs Hc Hsz Hdom Hsub Hkeep Hno Hag.
  pose proof (free_subtree (rw_nodes w) (rw_nodes w1) c OK Hc Hsz Hag) as Hfree.
  change (free_node (size (rw_nodes w1)) (rw_nodes w1) c) with (rw_nodes (ramfs_free_node w1 c)) in Hfree.
  set (w' := ramfs_free_node w1 c) in *.
  assert (nodes_ok (rw_nodes w')) as OK'.
  { apply (nodes_ok_prune (rw_nodes w) (rw_nodes w1) _ c OK); try done.
    - intros n x Hx. specialize (Hdom n). rewrite Hx in Hdom. destruct (rw_nodes w !! n) as [y|]; [by exists y|done].
    - intros n [x Hx]. specialize (Hdom n). rewrite Hx in Hdom. by destruct (rw_nodes w1 !! n). }
  assert (forall n, ~ rtc (kid (rw_nodes w)) c n -> name_of (rw_nodes w') n = name_of (rw_nodes w) n /\
    parent_of (rw_nodes w') n = parent_of (rw_nodes w) n /\ kids (rw_nodes w') n = kids (rw_nodes w1) n /\
    (is_Some (rw_nodes w !! n) -> is_Some (rw_nodes w' !! n))) as Hsame.
  { intros n Hn. unfold name_of, parent_of, kids. rewrite (proj2 (Hfree n) Hn). specialize (Hdom n).
    destruct (rw_nodes w !! n), (rw_nodes w1 !! n); try done. cbn. rewrite Hdom. split_and!; eauto. }
  assert (forall m, is_Some (rw_nodes w' !! m) <-> is_Some (rw_nodes w !! m) /\ ~ rtc (kid (rw_nodes w)) c m) as Hlive.
  { intros m. specialize (Hdom m). split.
    - intros [x Hx]. assert (~ rtc (kid (rw_nodes w)) c m) as Hm by (intros Hm; apply Hfree in Hm; congruence).
      rewrite (proj2 (Hfree m) Hm) in Hx. rewrite Hx in Hdom. split; [|done]. destruct (rw_nodes w !! m); [by eauto|done].
    - intros [Hi Hm]. by apply (Hsame m Hm). }
  split_and!; [|..|done|].
  - split; [done|]. split; [|done]. intros r Hr. destruct (Hrs r Hr) as (Hi & Hp & Hne).
    assert (~ rtc (kid (rw_nodes w)) c r) as Hnr.
    { intros Hx. apply rtc_inv_r in Hx as [?|(y & _ & Hy)]; [done|]. destruct (kid_ok _ OK _ _ Hy). congruence. }
    destruct (Hsame r Hnr) as (_ & -> & _ & Hs). auto.
  - apply prune_keeps; [done..|]. intros n k Hk Hn Hne.
    assert (~ rtc (kid (rw_nodes w)) c k) as Hnk.
    { intros Hx. destruct (rtc_parent _ OK c k n Hx Hk); [congruence|done]. }
    destruct (Hsame k Hnk) as (-> & _), (Hsame n Hn) as (_ & _ & Hkn & _). split; [|done]. unfold kid. rewrite Hkn.
    by apply Hkeep.
  - intros n k Hk. destruct (kid_node _ OK' n k Hk) as [Hn [_ Hnk]%Hlive]. apply Hlive in Hn as [_ Hn].
    split; [|by apply Hsame]. unfold kid in *. destruct (Hsame n Hn) as (_ & _ & Hkn & _). rewrite Hkn in Hk.
    eapply elem_of_submseteq; [exact Hk|]. apply sublist_submseteq, Hsub.
Qed.

Lemma ram_unmount_law rs w root : ram_inv (root :: rs) w ->
  ram_inv rs (ramfs_unmount w root) /\ keeps_outside ram_child w (ramfs_unmount w root) root.
Proof.
  intros (Hnd & Hrs & OK). apply NoDup_cons in Hnd as [Hnot Hnd]. destruct (Hrs root ltac:(set_solver)) as [Hroot Hp].
  destruct (prune_world rs w w root) as (? & ? & _); try done.
  - intros r Hr. destruct (Hrs r ltac:(set_solver)). split_and!; try done. by intros ->.
  - intros n. by destruct (rw_nodes w !! n).
  - intros n Hk. destruct (kid_ok _ OK _ _ Hk). congruence.
Qed.

(** [ramfs_remove] on a name that exists. *)
Lemma remove_found rs w n s d : ram_inv rs w -> (0 ∉ s) -> ram_child w n s = Some d ->
  exists w', ramfs_remove w n s = (w', VFS_RES_OK) /\ ram_inv rs w' /\ keeps_outside ram_child w w' d /\
  (forall m, is_Some (rw_nodes w' !! m) <-> is_Some (rw_nodes w !! m) /\ ~ rtc (kid (rw_nodes w)) d m) /\
  (forall n k, kid (rw_nodes w') n k -> kid (rw_nodes w) n k /\ name_of (rw_nodes w') k = name_of (rw_nodes w) k).
Proof.
  intros HI H0 Hch. pose proof HI as (Hnd & Hrs & OK). rewrite ram_child_named in Hch by done.
  unfold ramfs_remove. unfold kids in Hch. destruct (rw_nodes w !! n) as [x|] eqn:Ex; [|done].
  destruct (n_type (r_node x)) eqn:Ht; try done. destruct (r_children x) as [cs|] eqn:Ecs; [|done].
  rewrite bool_decide_eq_true_2 by done. cbn [negb].
  pose proof (find_index_spec (rw_nodes w) s cs 0) as Hf. destruct (find_index (rw_nodes w) s cs 0) as [[i c]|]; [|congruence].
  destruct Hf as (a & b & -> & -> & Hf). assert (c = d) as -> by congruence. rewrite Nat.add_0_l, delete_mid.
  eexists. split; [done|].
  assert (kids (rw_nodes w) n = a ++ d :: b) as Hkn. { rewrite (kids_lookup _ _ _ Ex). unfold own_kids. by rewrite Ht, Ecs. }
  assert (kid (rw_nodes w) n d) as Hc. { unfold kid. rewrite Hkn. set_solver. }
  set (w1 := set_ram w n (with_children x (a ++ b))).
  assert (kids (rw_nodes w1) n = a ++ b) as Hk1. { cbn. rewrite kids_insert_eq. unfold own_kids. cbn. by rewrite Ht. }
  assert (forall m, m <> n -> kids (rw_nodes w1) m = kids (rw_nodes w) m) as Hk2 by (intros; by apply kids_insert_ne).
  destruct (kid_ok _ OK _ _ Hc) as [Hpc _].
  apply (prune_world rs w w1 d); try done.
  - intros r Hr. destruct (Hrs r Hr). split_and!; try done. congruence.
  - by apply (kid_node _ OK n d).
  - cbn. by apply map_size_insert_Some.
  - intros m. cbn. destruct (decide (m = n)) as [->|]; [by rewrite Ex, lookup_insert_eq|].
    rewrite lookup_insert_ne by done. by destruct (rw_nodes w !! m).
  - intros m. destruct (decide (m = n)) as [->|]; [|by rewrite Hk2]. rewrite Hk1, Hkn.
    apply sublist_app; [done|]. by apply sublist_cons.
  - intros m k Hk Hne. unfold kid. destruct (decide (m = n)) as [->|]; [|by rewrite Hk2]. rewrite Hk1.
    unfold kid in Hk. rewrite Hkn in Hk. set_solver.
  - intros m Hm. destruct (decide (m = n)) as [->|Hmn].
    + unfold kid in Hm. rewrite Hk1 in Hm. pose proof (kid_nodup _ OK n) as Hn'. rewrite Hkn in Hn'.
      rewrite <- Permutation_middle in Hn'. apply NoDup_cons in Hn' as [Hn' _]. done.
    + unfold kid in Hm. rewrite Hk2 in Hm by done. apply Hmn. by eapply (kid_parent _ OK).
  - intros m Hm. cbn. rewrite lookup_insert_ne; [done|]. intros <-. by apply (kid_acyclic _ OK n d).
Qed.

Lemma remove_missing rs w n s : ram_inv rs w -> (0 ∉ s) -> ram_child w n s = None -> (ramfs_remove w n s).1 = w.
Proof.
  intros (_ & _ & OK) H0. rewrite ram_child_named by done. unfold ramfs_remove, kids.
  destruct (rw_nodes w !! n) as [x|]; [|done]. case_bool_decide as Ht; cbn [negb]; [|done]. rewrite Ht.
  destruct (r_children x) as [cs|]; [|done]. pose proof (find_index_spec (rw_nodes w) s cs 0) as Hf.
  destruct (find_index (rw_nodes w) s cs 0) as [[i c]|]; [|done]. destruct Hf as (_ & _ & _ & _ & ->). done.
Qed.

Lemma ram_remove_law rs w n s w' r : ram_inv rs w -> clean s -> ramfs_remove w n s = (w', r) ->
  ram_inv rs w' /\ match ram_child w n s with Some d => keeps_outside ram_child w w' d | None => keeps ram_child w w' end.
Proof.
  intros HI (_ & _ & H0 & _) E. destruct (ram_child w n s) as [d|] eqn:Ed.
  - destruct (remove_found rs w n s d HI H0 Ed) as (w1 & E1 & ? & ? & _). rewrite E in E1. by injection E1 as <- ->.
  - pose proof (remove_missing rs w n s HI H0 Ed) as Hm. rewrite E in Hm. cbn in Hm. subst. by apply same_nodes.
Qed.

Section Contract.
Context `{A : Arch} (mal : nat -> bool) (addr : nat -> gmap Z RamFSNode -> Z).
Hypothesis addr_fresh : forall k ns, ns !! addr k ns = None /\ addr k ns <> NULL.

Lemma ram_mount_law rs w ps w' r x : ram_inv rs w -> ramfs_mount mal addr w ps = (w', r, x) ->
  keeps ram_child w w' /\ match r, x with VFS_RES_OK, Some root => ram_inv (root :: rs) w' | _, _ => ram_inv rs w' end.
Proof.
  intros HI E. pose proof HI as (Hnd & Hrs & OK). unfold ramfs_mount in E.
  pose proof (new_node_spec mal addr addr_fresh w [] VFS_NODE_DIRECTORY OK) as Hn.
  destruct (ramfs_new_node mal addr w [] VFS_NODE_DIRECTORY) as [w1 [a|]]; injection E as <- <- <-.
  2:{ destruct (same_nodes rs w w1 Hn HI). done. }
  destruct Hn as (Ha & Hnull & y & Hy & Hyn & Hw1).
  destruct (leaf_world rs w w1 a y HI Ha Hnull Hy Hw1) as [(Hnd1 & Hrs1 & OK1) Hk]. split; [done|]. split_and!; try done.
  - constructor; [|done]. intros Hin. destruct (Hrs a Hin) as [[? ?] _]. congruence.
  - intros r [->|Hr]%elem_of_cons; [|by apply Hrs1]. unfold parent_of. rewrite Hw1, lookup_insert_eq. cbn. rewrite Hyn. by eauto.
Qed.

Lemma ram_attach_law rs w path root : ram_inv rs w -> root ∈ rs ->
  ram_inv rs (@vfs_attach_mount_to_tree _ (ram_vfs_world mal addr) w path root) /\
  same_tree ram_child w (@vfs_attach_mount_to_tree _ (ram_vfs_world mal addr) w path root).
Proof.
  intros (Hnd & Hrs & OK) Hroot. destruct (Hrs root Hroot) as [[x Hx] Hp]. unfold parent_of in Hp. rewrite Hx in Hp.
  set (w' := vfs_attach_mount_to_tree w path root).
  assert (forall n, kids (rw_nodes w') n = kids (rw_nodes w) n /\ name_of (rw_nodes w') n = name_of (rw_nodes w) n /\
    parent_of (rw_nodes w') n = parent_of (rw_nodes w) n /\ (is_Some (rw_nodes w' !! n) <-> is_Some (rw_nodes w !! n))) as H.
  { intros n. unfold kids, name_of, parent_of, w', vfs_attach_mount_to_tree. cbn. rewrite Hx. destruct (decide (n = root)) as [->|].
    - rewrite lookup_alter_eq, Hx. cbn. cbn in Hp. by split_and!.
    - by rewrite lookup_alter_ne. }
  split.
  - split_and!; [done| |].
    + intros r Hr. destruct (H r) as (_ & _ & -> & Hs). rewrite Hs. by apply Hrs.
    + apply (nodes_ok_ext (rw_nodes w)); [done|intros n; apply H..].
  - intros n s. unfold ram_child. destruct (H n) as (-> & _). apply find_ext. intros c _. by destruct (H c) as (_ & -> & _).
Qed.

Definition is_ramfs (fs : VFSFileSystem RamWorld) : Prop := fs_ops fs = Some (s_ramfs_ops mal addr).

(** Ramfs keeps the contract of the virtual file system. *)
#[local] Existing Instance ram_vfs_world.
Lemma ram_no_lookup rs w n s : ram_inv rs w -> (o ← @node_ops _ (ram_vfs_world mal addr) w n; op_lookup o) = None ->
  ram_child w n s = None.
Proof.
  intros _. cbn. unfold ram_child, kids. by destruct (rw_nodes w !! n).
Qed.

Program Definition ram_laws : @FsLaws RamWorld (ram_vfs_world mal addr) := {|
  child := ram_child;
  fs_inv := ram_inv;
  fs_known := is_ramfs;
  inv_forest := ram_forest;
  no_lookup := ram_no_lookup;
  attach_law := ram_attach_law
|}.
Next Obligation. intros rs rs' w Hp (Hnd & Hrs & OK). split_and!; [by rewrite <- Hp| |done]. intros r. rewrite <- Hp. apply Hrs. Qed.
Next Obligation.
  intros rs w n s o f w' r x HI _ Hc Ho Hf E. cbn in Ho. destruct (rw_nodes w !! n); [|done]. injection Ho as <-.
  injection Hf as <-. by destruct (ram_lookup_law rs w n s w' r x HI Hc E) as [-> ?].
Qed.
Next Obligation.
  intros rs w n s t o f w' r HI _ Hc Ho Hf E. cbn in Ho. destruct (rw_nodes w !! n); [|done]. injection Ho as <-.
  injection Hf as <-. by eapply ram_create_law.
Qed.
Next Obligation.
  intros rs w n s o f w' r HI _ Hc Ho Hf E. cbn in Ho. destruct (rw_nodes w !! n); [|done]. injection Ho as <-.
  injection Hf as <-. by eapply ram_remove_law.
Qed.
Next Obligation.
  intros rs w fs o f ps w' r x HI Hk Ho Hf E. rewrite Hk in Ho. injection Ho as <-. injection Hf as <-.
  by eapply ram_mount_law.
Qed.
Next Obligation.
  intros rs w fs o f root HI Hk Ho Hf. rewrite Hk in Ho. injection Ho as <-. injection Hf as <-.
  by apply ram_unmount_law.
Qed.
Next Obligation.
  intros rs w root (Hnd & Hrs & OK). apply NoDup_cons in Hnd as [_ Hnd]. split_and!; [done| |done].
  intros r Hr. apply Hrs. set_solver.
Qed.
End Contract.
