(* ===== verification/RamfsSpec.v ===== *)
(** * What the memory file system promises

    Creating, removing and looking up names, the contents of files under
    [ramfs_read], [ramfs_write] and [ramfs_truncate], and concrete runs of the
    virtual file system over ramfs. *)

From S2P Require Import Prelude Bytes CString VfsPath Vfs VfsHandle VfsCache VfsResolve Ramfs RamfsTree.

(** ** Contents of a file *)

(** What a reader sees, and the state of the buffer: the bytes past the end
    are zero. *)
Definition contents (x : RamFSNode) : bytes := take (Z.to_nat (r_size x)) (r_data x).


Section Files.
Context `{A : Arch}.

Definition file_ok (x : RamFSNode) : Prop :=
  0 <= r_size x <= zlen (r_data x) /\ zlen (r_data x) <= SIZE_MAX /\
  r_data x = contents x ++ zeros (zlen (r_data x) - r_size x).

(** A write at an offset; a gap after the end reads as zeros. *)
Definition pwrite (c : bytes) (offset : Z) (bs : bytes) : bytes :=
  take (Z.to_nat offset) (c ++ zeros (offset - zlen c)) ++ bs ++ drop (Z.to_nat (offset + zlen bs)) c.

Definition resize (c : bytes) (length : Z) : bytes := take (Z.to_nat length) (c ++ zeros (length - zlen c)).

Lemma double_loop_spec fuel c req : 1 <= c <= SIZE_MAX -> req <= SIZE_MAX -> SIZE_MAX < c * 2 ^ (Z.of_nat fuel - 1) ->
  exists r, double_loop fuel c req = Some r /\ c <= r /\ req <= r <= SIZE_MAX.
Proof.
  revert c. induction fuel as [|fuel IH]; intros c Hc Hreq Hf.
  { rewrite Z.pow_neg_r in Hf by lia. lia. }
  cbn [double_loop]. destruct (Z.ltb_spec c req); [|exists c; split; [done|lia]].
  destruct (Z.ltb_spec (SIZE_MAX / 2) c); [exists req; split; [done|lia]|].
  assert (2 * c <= SIZE_MAX) as H2. { pose proof (Z.mul_div_le SIZE_MAX 2). lia. }
  rewrite wrap_small by (unfold SIZE_MAX in *; lia).
  destruct (decide (fuel = O)) as [->|]; [cbn in Hf; lia|].
  destruct (IH (c * 2)) as (r & -> & Hr); [lia|lia| |exists r; split; [done|lia]].
  replace (c * 2 * 2 ^ (Z.of_nat fuel - 1)) with (c * 2 ^ (Z.of_nat (S fuel) - 1)); [done|].
  rewrite <- Z.mul_assoc, <- Z.pow_succ_r by lia. do 2 f_equal. lia.
Qed.

(** Growing keeps the bytes and adds zeros; it fails only with the allocator. *)
Lemma grow_spec mal w data req : 0 <= req <= SIZE_MAX -> zlen data <= SIZE_MAX ->
  exists w' o, ramfs_grow_buffer mal w data req = Some (w', o) /\ rw_nodes w' = rw_nodes w /\
    match o with
    | None => zlen data < req /\ mal (rw_clock w) = false
    | Some d => exists z, d = data ++ zeros z /\ 0 <= z /\ req <= zlen d <= SIZE_MAX
    end.
Proof.
  intros Hreq Hd. unfold ramfs_grow_buffer. pose proof (zlen_nonneg data) as H0.
  destruct (Z.leb_spec req (zlen data)).
  { do 2 eexists. split_and!; [done|done|]. exists 0. rewrite app_nil_r. split; [done|lia]. }
  destruct (double_loop_spec (S (Z.to_nat size_bits)) (if zlen data =? 0 then 64 else zlen data) req)
    as (r & -> & Hr1 & Hr2).
  - destruct (Z.eqb_spec (zlen data) 0); [|lia]. unfold SIZE_MAX, size_bits. destruct the_arch; cbn; lia.
  - lia.
  - pose proof size_bits_nonneg. replace (Z.of_nat (S (Z.to_nat size_bits)) - 1) with size_bits by lia. unfold SIZE_MAX.
    assert (0 < 2 ^ size_bits) by (by apply Z.pow_pos_nonneg). destruct (Z.eqb_spec (zlen data) 0); nia.
  - cbn [mbind option_bind malloc_ok]. destruct (mal (rw_clock w)) eqn:Em; do 2 eexists; (split_and!; [done|done|]).
    + exists (r - zlen data). split; [done|].
      change (replicate (Z.to_nat (r - zlen data)) 0) with (zeros (r - zlen data)). rewrite zlen_app, zlen_zeros.
      destruct (Z.eqb_spec (zlen data) 0); lia.
    + done.
Qed.
Lemma file_intro x c k : 0 <= k -> r_data x = c ++ zeros k -> r_size x = zlen c -> zlen c + k <= SIZE_MAX ->
  file_ok x /\ contents x = c.
Proof.
  intros Hk Hd Hs Hm. assert (contents x = c) as Hc by (unfold contents; rewrite Hd, Hs; apply take_zlen).
  split; [|done]. pose proof (zlen_nonneg c). unfold file_ok. rewrite Hc, Hs. rewrite Hd in *.
  rewrite zlen_app, zlen_zeros in *. split_and!; [lia|lia|lia|]. do 2 f_equal. lia.
Qed.

Lemma file_elim x : file_ok x -> exists k, 0 <= k /\ r_data x = contents x ++ zeros k /\ r_size x = zlen (contents x) /\
  zlen (contents x) + k <= SIZE_MAX.
Proof.
  intros (Hs & Hm & Hd). exists (zlen (r_data x) - r_size x).
  assert (zlen (contents x) = r_size x). { unfold contents, zlen. rewrite length_take. unfold zlen in Hs. lia. }
  split_and!; [lia|done|done|lia].
Qed.

Lemma zlen_pwrite c off bs : 0 <= off -> zlen (pwrite c off bs) = Z.max (zlen c) (off + zlen bs).
Proof.
  intros. pose proof (zlen_nonneg c). pose proof (zlen_nonneg bs). unfold pwrite.
  rewrite !zlen_app, zlen_take, zlen_drop, zlen_app, zlen_zeros by lia. lia.
Qed.

(** The buffer after the copy. *)
Lemma pwrite_buffer c k off bs : 0 <= off -> 0 <= k -> off + zlen bs <= zlen c + k ->
  take (Z.to_nat off) (c ++ zeros k) ++ bs ++ drop (Z.to_nat (off + zlen bs)) (c ++ zeros k) =
  pwrite c off bs ++ zeros (k - Z.max 0 (off + zlen bs - zlen c)).
Proof.
  intros Ho Hk Hle. pose proof (zlen_nonneg c). pose proof (zlen_nonneg bs). unfold pwrite.
  rewrite (take_pad off c k) by lia. rewrite <- !app_assoc. do 2 f_equal.
  rewrite drop_app. f_equal.
  replace (Z.to_nat (off + zlen bs) - length c)%nat with (Z.to_nat (off + zlen bs - zlen c)) by (unfold zlen in *; lia).
  apply drop_zeros.
Qed.
Lemma read_spec w n h x o len : rw_nodes w !! n = Some x -> n_type (r_node x) = VFS_NODE_REGULAR -> file_ok x ->
  0 <= o -> 0 <= len ->
  let got := take (Z.to_nat len) (drop (Z.to_nat o) (contents x)) in
  ramfs_read w n h o len = Some (w, zlen got, got).
Proof.
  intros Hx Ht Hf Ho Hl got. destruct (file_elim x Hf) as (k & Hk & Hd & Hs & Hm). pose proof (zlen_nonneg (contents x)).
  assert (zlen got = Z.min len (Z.max 0 (zlen (contents x) - o))) as Hgot.
  { unfold got. rewrite zlen_take, zlen_drop by lia. done. }
  unfold ramfs_read. rewrite Hx. rewrite bool_decide_eq_true_2 by done. cbn [negb]. rewrite Hs.
  destruct (Z.leb_spec (zlen (contents x)) o) as [Hle|Hgt].
  { assert (got = []) as -> by (apply zlen_zero; lia). done. }
  rewrite wrap_small by (unfold SIZE_MAX in *; lia).
  set (n' := if len <? _ then len else _).
  assert (n' = zlen got) as Hn'. { unfold n'. destruct (Z.ltb_spec len (zlen (contents x) - o)); lia. }
  rewrite Hn', Hd, zlen_app, zlen_zeros. destruct (Z.ltb_spec (zlen (contents x) + Z.max 0 k) (o + zlen got)); [lia|].
  f_equal. f_equal. rewrite drop_app_le by (unfold zlen in *; lia). rewrite take_app_le.
  2:{ rewrite length_drop. unfold zlen in *. lia. }
  unfold got at 2. destruct (Z.le_gt_cases len (zlen (contents x) - o)).
  - f_equal. lia.
  - rewrite !take_ge; [done|..]; rewrite length_drop; unfold zlen in *; lia.
Qed.

Lemma write_effect mal w n h x off bs : rw_nodes w !! n = Some x -> n_type (r_node x) = VFS_NODE_REGULAR ->
  file_ok x -> 0 <= off -> off + zlen bs <= SIZE_MAX ->
  exists w' r, ramfs_write mal w n h off bs = Some (w', r) /\
    (r = -1 /\ mal (rw_clock w) = false /\ rw_nodes w' = rw_nodes w \/
     r = zlen bs /\ exists x', rw_nodes w' = <[n := x']> (rw_nodes w) /\ r_node x' = r_node x /\ file_ok x' /\
       contents x' = pwrite (contents x) off bs).
Proof.
  intros Hx Ht Hf Ho Hle. destruct (file_elim x Hf) as (k & Hk & Hd & Hs & Hm).
  pose proof (zlen_nonneg bs). pose proof (zlen_nonneg (contents x)).
  unfold ramfs_write. rewrite Hx. rewrite bool_decide_eq_true_2 by done. cbn [negb].
  assert (SIZE_MAX < 2 ^ 64) by (unfold SIZE_MAX, size_bits; destruct the_arch; cbn; lia).
  rewrite wrap_small by lia. destruct (Z.ltb_spec SIZE_MAX (off + zlen bs)); [lia|].
  destruct (grow_spec mal w (r_data x) (off + zlen bs)) as (w1 & o & -> & Hn1 & Hg); [lia|apply Hf|].
  cbn [mbind option_bind]. destruct o as [d|]; [|do 2 eexists; split; [done|]; left; by destruct Hg].
  destruct Hg as (z & -> & Hz & Hd1). rewrite Hd, <- app_assoc, zeros_app in * by lia.
  destruct (Z.ltb_spec (zlen (contents x ++ zeros (k + z))) (off + zlen bs)); [lia|].
  rewrite zlen_app, zlen_zeros in *. rewrite pwrite_buffer by lia. do 2 eexists. split; [done|]. right. split; [done|].
  set (x' := with_data x _ _).
  assert (file_ok x' /\ contents x' = pwrite (contents x) off bs) as [Hf' Hc'].
  { eapply file_intro; [|reflexivity|..]; cbn [x' with_data r_data r_size]; rewrite ?zlen_app, ?zlen_zeros, ?zlen_pwrite; try lia.
    rewrite Hs. destruct (Z.ltb_spec (zlen (contents x)) (off + zlen bs)); lia. }
  exists x'. split_and!; try done; try apply Hf'. cbn. by rewrite Hn1.
Qed.

(** C9.  Writing to a regular file within the address space returns: it fails
    only if the allocator does, and then nothing has changed; otherwise it
    reports every byte written, the file's contents are the old ones with the
    bytes in place (a gap past the end filled with zeros), the buffer stays
    well formed, and reads at any offset and length return the new contents. *)
Theorem ramfs_write_spec mal w n h x off bs : rw_nodes w !! n = Some x -> n_type (r_node x) = VFS_NODE_REGULAR ->
  file_ok x -> 0 <= off -> off + zlen bs <= SIZE_MAX ->
  exists w' r, ramfs_write mal w n h off bs = Some (w', r) /\
    (r = -1 /\ mal (rw_clock w) = false /\ rw_nodes w' = rw_nodes w \/
     r = zlen bs /\ exists x', rw_nodes w' = <[n := x']> (rw_nodes w) /\ r_node x' = r_node x /\ file_ok x' /\
       contents x' = pwrite (contents x) off bs /\
       forall h' o len, 0 <= o -> 0 <= len ->
         let got := take (Z.to_nat len) (drop (Z.to_nat o) (pwrite (contents x) off bs)) in
         ramfs_read w' n h' o len = Some (w', zlen got, got)).
Proof.
  intros Hx Ht Hf Ho Hle. destruct (write_effect mal w n h x off bs Hx Ht Hf Ho Hle) as (w' & r & E & Hr).
  exists w', r. split; [done|]. destruct Hr as [?|(-> & x' & Hw & Hn & Hf' & Hc)]; [by left|]. right. split; [done|].
  exists x'. repeat (split; [done|]). intros h' o len Ho' Hl. rewrite <- Hc. apply read_spec; try done.
  - rewrite Hw. apply lookup_insert_eq.
  - congruence.
Qed.

(** Truncating or extending a regular file returns: it fails only if the
    allocator does, and then nothing has changed; otherwise the contents are
    cut to the length, or extended to it with zeros, never with old bytes. *)
Theorem ramfs_truncate_spec mal w n h x len : rw_nodes w !! n = Some x -> n_type (r_node x) = VFS_NODE_REGULAR ->
  file_ok x -> 0 <= len <= SIZE_MAX ->
  exists w' r, ramfs_truncate mal w n h len = Some (w', r) /\
    (r = VFS_RES_NO_MEMORY /\ mal (rw_clock w) = false /\ rw_nodes w' = rw_nodes w \/
     r = VFS_RES_OK /\ exists x', rw_nodes w' = <[n := x']> (rw_nodes w) /\ r_node x' = r_node x /\ file_ok x' /\
       contents x' = resize (contents x) len).
Proof.
  intros Hx Ht Hf Hl. destruct (file_elim x Hf) as (k & Hk & Hd & Hs & Hm). pose proof (zlen_nonneg (contents x)).
  unfold ramfs_truncate. rewrite Hx. rewrite bool_decide_eq_true_2 by done. cbn [negb].
  destruct (Z.ltb_spec SIZE_MAX len); [lia|].
  destruct (grow_spec mal w (r_data x) len) as (w1 & o & -> & Hn1 & Hg); [lia|apply Hf|].
  cbn [mbind option_bind]. destruct o as [d|]; [|do 2 eexists; split; [done|]; left; by destruct Hg].
  destruct Hg as (z & -> & Hz & Hd1). rewrite Hd, <- app_assoc, zeros_app in * by lia. rewrite Hs.
  rewrite zlen_app, zlen_zeros in *. destruct (Z.ltb_spec (zlen (contents x) + Z.max 0 (k + z)) (zlen (contents x))); [lia|].
  rewrite andb_false_r. do 2 eexists. split; [done|]. right. split; [done|]. eexists. split; [cbn; by rewrite Hn1|]. split; [done|].
  unfold resize. destruct (Z.ltb_spec len (zlen (contents x))) as [Hlt|Hge].
  - apply (file_intro _ _ (zlen (contents x) - len + (k + z))); cbn [with_data r_data r_size]; [lia|..].
    + rewrite (take_pad len (contents x) (k + z)) by lia. f_equal.
      unfold zlen at 2. rewrite Nat2Z.id, drop_app_length. apply zeros_app; lia.
    + rewrite zlen_take, zlen_app, zlen_zeros by lia. lia.
    + rewrite zlen_take, zlen_app, zlen_zeros by lia. lia.
  - apply (file_intro _ _ (k + z - (len - zlen (contents x)))); cbn [with_data r_data r_size]; [lia|..].
    + rewrite take_ge by (rewrite length_app; unfold zeros; rewrite length_replicate; unfold zlen in *; lia).
      rewrite <- app_assoc, zeros_app by lia. do 2 f_equal. lia.
    + rewrite zlen_take, zlen_app, zlen_zeros by lia. lia.
    + rewrite zlen_take, zlen_app, zlen_zeros by lia. lia.
Qed.
End Files.

(** ** Writing through a handle *)

Section Chunks.
Context `{A : Arch} (addr : nat -> gmap Z RamFSNode -> Z).
#[local] Instance ram_world : VFSWorld RamWorld := ram_vfs_world (fun _ => true) addr.

(** Consecutive calls of [VFS_Write]. *)
Fixpoint write_chunks (w : RamWorld) (h : option VFSHandle) (chunks : list bytes)
  : option (RamWorld * option VFSHandle * list Z) :=
  match chunks with
  | [] => Some (w, h, [])
  | bs :: chunks =>
      x ← VFS_Write w h (Some bs);
      let '(w, h, n) := x in
      y ← write_chunks w h chunks;
      let '(w, h, ns) := y in Some (w, h, n :: ns)
  end.

Lemma pwrite_pwrite c o a b : 0 <= o -> pwrite (pwrite c o a) (o + zlen a) b = pwrite c o (a ++ b).
Proof.
  intros Ho. pose proof (zlen_nonneg a). pose proof (zlen_nonneg b). pose proof (zlen_nonneg c).
  unfold pwrite at 1. rewrite (zlen_pwrite c o a) by lia.
  set (p := take (Z.to_nat o) (c ++ zeros (o - zlen c))).
  assert (zlen p = o) as Hp. { unfold p. rewrite zlen_take, zlen_app, zlen_zeros by lia. lia. }
  assert (pwrite c o a = (p ++ a) ++ drop (Z.to_nat (o + zlen a)) c) as Hw by (unfold pwrite; by rewrite app_assoc).
  rewrite Hw. unfold pwrite. fold p. rewrite zlen_app, !Z.add_assoc.
  rewrite <- (app_assoc (p ++ a)), take_app_le by (rewrite length_app; unfold zlen in *; lia).
  rewrite take_ge by (rewrite length_app; unfold zlen in *; lia).
  rewrite drop_app_ge by (rewrite length_app; unfold zlen in *; lia). rewrite drop_drop, <- !app_assoc. do 4 f_equal.
  rewrite length_app. unfold zlen in *. lia.
Qed.

(** C14.  Writing a file in chunks through a handle gives, for any number and
    sizes of chunks, the file that one write of their concatenation gives:
    every call reports its whole chunk and the position ends after the last
    byte.  (Memory available, the file within the address space.) *)
Theorem vfs_write_chunks chunks w n d mode off x : rw_nodes w !! n = Some x -> n_type (r_node x) = VFS_NODE_REGULAR ->
  file_ok x -> mode_can_write mode = true -> 0 <= off -> off + zlen (concat chunks) <= SIZE_MAX ->
  Forall (fun bs => bs <> []) chunks ->
  exists w' x', write_chunks w (Some (mkHandle n d mode off)) chunks =
      Some (w', Some (mkHandle n d mode (off + zlen (concat chunks))), zlen <$> chunks) /\
    rw_nodes w' = <[n := x']> (rw_nodes w) /\ r_node x' = r_node x /\ file_ok x' /\
    contents x' = match chunks with [] => contents x | _ => pwrite (contents x) off (concat chunks) end.
Proof.
  intros Hx Ht Hf Hm Ho Hle Hne. revert w off x Hx Ht Hf Ho Hle.
  induction Hne as [|bs chunks Hbs _ IH]; intros w off x Hx Ht Hf Ho Hle; cbn [write_chunks concat] in *.
  { exists w, x. rewrite insert_id by done. rewrite Z.add_0_r. done. }
  rewrite zlen_app in Hle. pose proof (zlen_nonneg bs). pose proof (zlen_nonneg (concat chunks)).
  destruct (write_effect (fun _ => true) w n d x off bs Hx Ht Hf Ho ltac:(lia))
    as (w1 & r & E & [(_ & ? & _)|(-> & x1 & Hw1 & Hn1 & Hf1 & Hc1)]); [done|].
  assert (zlen bs <> 0) as Hz by (by rewrite zlen_zero).
  assert (SIZE_MAX < 2 ^ 64) by (unfold SIZE_MAX, size_bits; destruct the_arch; cbn; lia).
  assert (VFS_Write w (Some (mkHandle n d mode off)) (Some bs) =
    Some (w1, Some (mkHandle n d mode (off + zlen bs)), zlen bs)) as ->.
  { unfold VFS_Write. destruct (Z.eqb_spec (zlen bs) 0); [done|]. cbn [vfs_handle_can_write h_mode]. rewrite Hm. cbn [negb].
    cbn. rewrite Hx. cbn. rewrite E. cbn. unfold advance. destruct (Z.ltb_spec 0 (zlen bs)); [|lia].
    unfold at_offset. cbn [h_node h_driver h_mode h_offset]. by rewrite wrap_small by lia. }
  cbn [mbind option_bind].
  destruct (IH w1 (off + zlen bs) x1) as (w2 & x2 & -> & Hw2 & Hn2 & Hf2 & Hc2).
  { rewrite Hw1. apply lookup_insert_eq. } { congruence. } { done. } { lia. } { lia. }
  cbn [mbind option_bind]. exists w2, x2.
  split; [rewrite zlen_app, Z.add_assoc; done|]. split; [rewrite Hw2, Hw1; apply insert_insert_eq|].
  split; [congruence|]. split; [done|]. rewrite Hc2. destruct chunks as [|b chunks].
  - by rewrite Hc1, app_nil_r.
  - rewrite Hc1. by apply pwrite_pwrite.
Qed.
End Chunks.

(** ** Names *)

(** C8.  Removing a name that exists frees its node and every node below it,
    and no other node: the fuel of [ramfs_free_node] is enough for any tree.
    The name is then gone, and the nodes still form a tree. *)
Theorem ramfs_remove_exact rs w n s d : ram_inv rs w -> (0 ∉ s) -> ram_child w n s = Some d ->
  exists w', ramfs_remove w n s = (w', VFS_RES_OK) /\ ram_inv rs w' /\ ram_child w' n s = None /\
    forall m, is_Some (rw_nodes w' !! m) <-> is_Some (rw_nodes w !! m) /\ ~ rtc (kid (rw_nodes w)) d m.
Proof.
  intros HI H0 Hch. destruct (remove_found rs w n s d HI H0 Hch) as (w' & E & HI' & _ & Hlive & Hkid).
  exists w'. split_and!; try apply HI'; try done. destruct (ram_child w' n s) as [c|] eqn:Ec; [|done]. exfalso.
  destruct HI as (_ & _ & OK), HI' as (_ & _ & OK'). apply ram_child_spec in Ec as [Hk Hs], Hch as [Hk' Hs']; [|done..].
  destruct (Hkid _ _ Hk) as [Hk0 Hn0]. assert (c = d) as ->. { apply (kid_names _ OK n); [done..|congruence]. }
  destruct (kid_node _ OK' n d Hk) as [_ [_ Hno]%Hlive]. by apply Hno.
Qed.

Lemma find_snoc_ext {X} (f g : X -> bool) l y : (forall x, x ∈ l -> f x = g x) -> f y = false ->
  List.find f (l ++ [y]) = List.find g l.
Proof.
  induction l as [|x l IH]; cbn; [intros _ ->; done|]. intros H Hy. rewrite (H x) by set_solver.
  by rewrite IH by (intros; first [done | apply H; set_solver]).
Qed.

Section Names.
Context `{A : Arch} (addr : nat -> gmap Z RamFSNode -> Z).
Hypothesis addr_fresh : forall k ns, ns !! addr k ns = None /\ addr k ns <> NULL.

(** The nodes after a creation for which the allocator had memory. *)
Definition created (w : RamWorld) (n : Z) (x : RamFSNode) (cs : list Z) (s : bytes) (t : VFSNodeType) (c : Z)
  : gmap Z RamFSNode :=
  <[n := with_children x (cs ++ [c])]>
  (<[c := mkRam (mkNode (Some s) t 0 (Some n) (n_mount (r_node x)))
            (if bool_decide (t = VFS_NODE_DIRECTORY) then Some [] else None) [] 0]> (rw_nodes w)).

Lemma create_shape rs w n x cs s t : ram_inv rs w -> clean s -> rw_nodes w !! n = Some x ->
  n_type (r_node x) = VFS_NODE_DIRECTORY -> r_children x = Some cs -> ram_child w n s = None ->
  exists w', ramfs_create (fun _ => true) addr w n s t = (w', VFS_RES_OK) /\
    rw_nodes w' = created w n x cs s t (addr (rw_clock w) (rw_nodes w)).
Proof.
  intros HI Hc Hx Ht Hcs Hnone. unfold ramfs_create. rewrite Hx, bool_decide_eq_true_2, Hcs by done. cbn [negb].
  destruct (ramfs_lookup w n s) as [[w0 e] o] eqn:El.
  destruct (ram_lookup_law rs w n s w0 e o HI Hc El) as [-> Hch]. rewrite Hnone in Hch.
  assert (e <> VFS_RES_OK) as He.
  { intros ->. subst o. unfold ramfs_lookup in El. rewrite Hx, bool_decide_eq_true_2, Hcs in El by done. cbn in El.
    by destruct (List.find _ cs). }
  unfold ramfs_new_node, malloc_ok. cbn [rw_nodes rw_clock with_nodes negb]. unfold created.
  set (a := addr (rw_clock w) (rw_nodes w)).
  assert (forall y f, alter f a (<[a := y]> (rw_nodes w)) = <[a := f y]> (rw_nodes w)) as Halt.
  { intros y f. apply map_eq. intros k. destruct (decide (k = a)) as [->|].
    - by rewrite lookup_alter_eq, !lookup_insert_eq.
    - by rewrite lookup_alter_ne, !lookup_insert_ne. }
  case_bool_decide; cbn [rw_nodes rw_clock with_nodes set_ram]; rewrite Halt; destruct e; try done; by eexists.
Qed.

(** Creating a name in a directory, with memory available: a name that
    exists is refused and nothing changes; otherwise the new node has the
    type, the name, the parent and the mount asked for and no contents,
    looking the name up finds it, every other lookup answers as before, and
    the nodes still form a tree. *)
Theorem ramfs_create_spec rs w n x cs s t : ram_inv rs w -> clean s -> rw_nodes w !! n = Some x ->
  n_type (r_node x) = VFS_NODE_DIRECTORY -> r_children x = Some cs ->
  match ram_child w n s with
  | Some _ => ramfs_create (fun _ => true) addr w n s t = (w, VFS_RES_EXISTS)
  | None => exists w' c y, ramfs_create (fun _ => true) addr w n s t = (w', VFS_RES_OK) /\ ram_inv rs w' /\
      rw_nodes w !! c = None /\ rw_nodes w' !! c = Some y /\
      r_node y = mkNode (Some s) t 0 (Some n) (n_mount (r_node x)) /\ r_size y = 0 /\ kids (rw_nodes w') c = [] /\
      ramfs_lookup w' n s = (w', VFS_RES_OK, Some c) /\
      forall m s', (m, s') <> (n, s) -> ram_child w' m s' = ram_child w m s'
  end.
Proof.
  intros HI Hc Hx Ht Hcs. pose proof HI as (_ & _ & OK). pose proof Hc as (_ & _ & H0 & _).
  destruct (ram_child w n s) as [d|] eqn:Ed.
  { unfold ramfs_create. rewrite Hx, bool_decide_eq_true_2, Hcs by done. cbn [negb].
    destruct (ramfs_lookup w n s) as [[w0 e] o] eqn:El.
    destruct (ram_lookup_law rs w n s w0 e o HI Hc El) as [-> Hch]. rewrite Ed in Hch. by destruct e. }
  destruct (create_shape rs w n x cs s t HI Hc Hx Ht Hcs Ed) as (w' & E & Hns).
  destruct (ram_create_law (fun _ => true) addr addr_fresh rs w n s t w' _ HI Hc E) as [HI' _].
  destruct (addr_fresh (rw_clock w) (rw_nodes w)) as [Hfresh _]. set (c := addr (rw_clock w) (rw_nodes w)) in *.
  assert (c <> n) as Hne by congruence.
  assert (kids (rw_nodes w') n = kids (rw_nodes w) n ++ [c]) as Hkn.
  { rewrite Hns. unfold created. rewrite kids_insert_eq, (kids_lookup _ _ _ Hx). unfold own_kids. cbn. by rewrite Ht, Hcs. }
  assert (forall m, m <> n -> kids (rw_nodes w') m = kids (rw_nodes w) m) as Hko.
  { intros m Hm. rewrite Hns. unfold created. rewrite kids_insert_ne by done. destruct (decide (m = c)) as [->|].
    - rewrite kids_insert_eq. unfold own_kids, kids. rewrite Hfresh. cbn. by destruct t.
    - by rewrite kids_insert_ne. }
  assert (forall m, m <> c -> name_of (rw_nodes w') m = name_of (rw_nodes w) m) as Hnm.
  { intros m Hm. unfold name_of. rewrite Hns. unfold created. destruct (decide (m = n)) as [->|].
    - by rewrite lookup_insert_eq, Hx.
    - by rewrite !lookup_insert_ne. }
  assert (name_of (rw_nodes w') c = Some s) as Hnc.
  { unfold name_of. rewrite Hns. unfold created. by rewrite lookup_insert_ne, lookup_insert_eq. }
  assert (forall m, m ∈ kids (rw_nodes w) n -> m <> c) as Hcn.
  { intros m Hm ->. destruct (kid_node _ OK n c Hm) as [_ [? ?]]. congruence. }
  assert (rw_nodes w' !! c = Some (mkRam (mkNode (Some s) t 0 (Some n) (n_mount (r_node x)))
    (if bool_decide (t = VFS_NODE_DIRECTORY) then Some [] else None) [] 0)) as Hy.
  { rewrite Hns. unfold created. by rewrite lookup_insert_ne, lookup_insert_eq. }
  assert (ram_child w' n s = Some c) as Hch.
  { apply ram_child_spec; [apply HI'|]. split; [|done]. unfold kid. rewrite Hkn. set_solver. }
  exists w', c. eexists. split; [done|]. split; [done|]. split; [done|]. split; [exact Hy|].
  split; [done|]. split; [done|]. split; [rewrite Hko by done; unfold kids; by rewrite Hfresh|]. split.
  - destruct (ramfs_lookup w' n s) as [[w0 e] o] eqn:El.
    destruct (ram_lookup_law rs w' n s w0 e o HI' Hc El) as [-> Hl]. rewrite Hch in Hl. by destruct e; simplify_eq.
  - intros m s' Hms. unfold ram_child. destruct (decide (m = n)) as [->|Hm].
    + rewrite Hkn. apply find_snoc_ext; [intros k Hk; by rewrite Hnm by auto|].
      rewrite Hnc. apply bool_decide_eq_false_2. congruence.
    + rewrite Hko by done. apply find_ext. intros k Hk. rewrite Hnm; [done|]. intros ->.
      destruct (kid_node _ OK m c Hk) as [_ [? ?]]. congruence.
Qed.
End Names.

(** ** Concrete runs *)

Module Example.

(** An allocator: the address after the highest one in use. *)
Definition next_addr (k : nat) (ns : gmap Z RamFSNode) : Z := 1 + foldr Z.max 0 (map_to_list ns).*1.

Lemma foldr_max l k : k ∈ l -> k <= foldr Z.max 0 l.
Proof. induction l as [|x l IH]; [by intros ?%elem_of_nil|]. intros [->|?%IH]%elem_of_cons; cbn; lia. Qed.

Lemma next_fresh k ns : ns !! next_addr k ns = None /\ next_addr k ns <> NULL.
Proof.
  split.
  - destruct (ns !! next_addr k ns) as [x|] eqn:E; [|done]. exfalso. unfold next_addr in E at 1.
    assert (next_addr k ns <= foldr Z.max 0 (map_to_list ns).*1); [|unfold next_addr in *; lia].
    apply foldr_max, list_elem_of_fmap. exists (next_addr k ns, x). split; [done|]. by apply elem_of_map_to_list.
  - assert (0 <= foldr Z.max 0 (map_to_list ns).*1); [|unfold next_addr, NULL; lia].
    induction (map_to_list ns).*1; cbn; lia.
Qed.

Definition yes (k : nat) : bool := true.
Definition empty_world : RamWorld := mkWorld ∅ 0.

Lemma empty_ok : ram_inv [] empty_world.
Proof.
  split_and!; [constructor|by intros r ?%elem_of_nil|]. split.
  - intros n x. cbn [rw_nodes empty_world]. by rewrite lookup_empty.
  - intros n c Hk. by apply elem_of_nil in Hk.
  - intros n. constructor.
  - intros n c c' Hk. by apply elem_of_nil in Hk.
  - exists (fun _ => O). intros n c Hk. by apply elem_of_nil in Hk.
Qed.

(** A root (1), a directory "a" (2) in it, and a file "b" (3) in "a". *)
Definition root_world : RamWorld := (ramfs_mount yes next_addr empty_world None).1.1.
Definition dir_world : RamWorld := (ramfs_create yes next_addr root_world 1 [97] VFS_NODE_DIRECTORY).1.
Definition file_world : RamWorld := (ramfs_create yes next_addr dir_world 2 [98] VFS_NODE_REGULAR).1.

Lemma clean_letter c : 97 <= c <= 122 -> clean [c].
Proof.
  intros Hc. split_and!; [done| | | | |done].
  - unfold SLASH. rewrite list_elem_of_singleton. lia.
  - rewrite list_elem_of_singleton. lia.
  - unfold DOT. intros [= ?]. lia.
  - done.
Qed.

Lemma root_ok : ram_inv [1] root_world.
Proof. by apply (ram_mount_law yes next_addr next_fresh [] empty_world None root_world VFS_RES_OK (Some 1) empty_ok). Qed.

Lemma dir_ok : ram_inv [1] dir_world.
Proof.
  refine (proj1 (ram_create_law yes next_addr next_fresh [1] root_world 1 [97] VFS_NODE_DIRECTORY dir_world VFS_RES_OK
    root_ok (clean_letter 97 _) _)); [lia|]. vm_compute. reflexivity.
Qed.

Lemma file_ok3 : ram_inv [1] file_world.
Proof.
  refine (proj1 (ram_create_law yes next_addr next_fresh [1] dir_world 2 [98] VFS_NODE_REGULAR file_world VFS_RES_OK
    dir_ok (clean_letter 98 _) _)); [lia|]. vm_compute. reflexivity.
Qed.
End Example.

(** Removing "a" from the root frees the nodes 2 and 3 and keeps node 1. *)
Lemma ramfs_remove_exact_witness : exists w, ramfs_remove Example.file_world 1 [97] = (w, VFS_RES_OK) /\
  ram_inv [1] w /\ ram_child w 1 [97] = None /\
  forall m, is_Some (rw_nodes w !! m) <->
    is_Some (rw_nodes Example.file_world !! m) /\ ~ rtc (kid (rw_nodes Example.file_world)) 2 m.
Proof.
  apply (ramfs_remove_exact [1] Example.file_world 1 [97] 2 Example.file_ok3).
  - apply (Example.clean_letter 97). lia.
  - vm_compute. reflexivity.
Defined.

(** Creating "c" next to "b". *)
Lemma ramfs_create_spec_witness : ram_child Example.file_world 2 [99] = None /\
  exists w c y, ramfs_create (fun _ => true) Example.next_addr Example.file_world 2 [99] VFS_NODE_REGULAR = (w, VFS_RES_OK) /\
    ram_inv [1] w /\ rw_nodes w !! c = Some y /\ ramfs_lookup w 2 [99] = (w, VFS_RES_OK, Some c).
Proof.
  pose proof (ramfs_create_spec Example.next_addr Example.next_fresh [1] Example.file_world 2
    (default (mkRam null_node None [] 0) (rw_nodes Example.file_world !! 2)) [3] [99] VFS_NODE_REGULAR Example.file_ok3) as H.
  split; [vm_compute; reflexivity|].
  replace (ram_child Example.file_world 2 [99]) with (@None Z) in H by (vm_compute; reflexivity).
  destruct H as (w & c & y & H1 & H2 & _ & H3 & _ & _ & _ & H4 & _).
  - apply (Example.clean_letter 99). lia.
  - vm_compute. reflexivity.
  - vm_compute. reflexivity.
  - vm_compute. reflexivity.
  - exists w, c, y. auto.
Defined.

Module FileExample.
(** Node 3 as a file that contains "hi". *)
Definition hi : RamFSNode := mkRam (mkNode (Some [98]) VFS_NODE_REGULAR 0 (Some 2) None) None [104; 105; 0; 0] 2.
Definition hi_world : RamWorld := mkWorld {[3 := hi]} 0.

Lemma hi_ok `{A : Arch} : file_ok hi.
Proof.
  split_and!; [done|done| |done]. cbn. unfold SIZE_MAX, size_bits. destruct the_arch; vm_compute; discriminate.
Qed.
End FileExample.

(** Writing two bytes at offset 3 leaves a zero in the gap. *)
Lemma ramfs_write_spec_witness :
  pwrite (contents FileExample.hi) 3 [33; 33] = [104; 105; 0; 33; 33] /\
  exists w r, ramfs_write (A := AMD64) (fun _ => true) FileExample.hi_world 3 0 3 [33; 33] = Some (w, r) /\
    (r = -1 /\ true = false /\ rw_nodes w = rw_nodes FileExample.hi_world \/
     r = 2 /\ exists x, rw_nodes w = <[3 := x]> (rw_nodes FileExample.hi_world) /\ r_node x = r_node FileExample.hi /\
       file_ok (A := AMD64) x /\ contents x = pwrite (contents FileExample.hi) 3 [33; 33] /\
       forall h' o len, 0 <= o -> 0 <= len ->
         let got := take (Z.to_nat len) (drop (Z.to_nat o) (pwrite (contents FileExample.hi) 3 [33; 33])) in
         ramfs_read (A := AMD64) w 3 h' o len = Some (w, zlen got, got)).
Proof.
  split; [vm_compute; reflexivity|].
  apply (ramfs_write_spec (A := AMD64) (fun _ => true) FileExample.hi_world 3 0 FileExample.hi 3 [33; 33]);
    [reflexivity|reflexivity|apply FileExample.hi_ok|lia|vm_compute; discriminate].
Defined.

(** Extending "hi" to four bytes, then the contents end with two zeros. *)
Lemma ramfs_truncate_spec_witness :
  resize (contents FileExample.hi) 4 = [104; 105; 0; 0] /\
  exists w r, ramfs_truncate (A := AMD64) (fun _ => true) FileExample.hi_world 3 0 4 = Some (w, r) /\
    (r = VFS_RES_NO_MEMORY /\ true = false /\ rw_nodes w = rw_nodes FileExample.hi_world \/
     r = VFS_RES_OK /\ exists x, rw_nodes w = <[3 := x]> (rw_nodes FileExample.hi_world) /\
       r_node x = r_node FileExample.hi /\ file_ok (A := AMD64) x /\ contents x = resize (contents FileExample.hi) 4).
Proof.
  split; [vm_compute; reflexivity|].
  apply (ramfs_truncate_spec (A := AMD64) (fun _ => true) FileExample.hi_world 3 0 FileExample.hi 4);
    [reflexivity|reflexivity|apply FileExample.hi_ok|]. split; [lia|vm_compute; discriminate].
Defined.

(** The end of a write wraps around 64 bits: the guard sees a small number and
    the copy leaves the buffer. *)
Lemma ramfs_write_wraps :
  ramfs_write (A := AMD64) (fun _ => true) FileExample.hi_world 3 0 (2 ^ 64 - 1) [33; 33] = None.
Proof. vm_compute. reflexivity. Qed.

Module VfsExample.
Import Example.

#[export] Instance world : VFSWorld RamWorld := ram_vfs_world (A := AMD64) yes next_addr.
#[export] Instance laws : FsLaws RamWorld := ram_laws (A := AMD64) yes next_addr next_fresh.
#[export] Instance target : Arch := AMD64.

Definition ramfs : VFSFileSystem RamWorld := mkFs _ (Some [114]) (Some (s_ramfs_ops yes next_addr)).
Definition boot : VFS RamWorld * RamWorld := (VFS_Init boot_vfs (fun _ => true), empty_world).

Definition state_of {X} (st : VFS RamWorld * RamWorld) (r : option (VFS RamWorld * RamWorld * X)) :=
  match r with Some (v, w, _) => (v, w) | None => st end.

(** Mount ramfs at "/", create the directory "/a", and resolve it. *)
Definition mounted := state_of boot (VFS_Mount boot.1 boot.2 (Some [47]) ramfs None yes).
Definition with_a := state_of mounted (VFS_Create mounted.1 mounted.2 (Some [47; 97]) VFS_NODE_DIRECTORY yes).

Lemma no_nul_a : 0 ∉ [47; 97].
Proof. apply (bool_decide_unpack _). vm_compute. exact I. Qed.

Lemma runs : rtc vfs_step boot with_a.
Proof.
  eapply (rtc_l _ _ mounted); [|eapply (rtc_l _ _ with_a); [|apply rtc_refl]].
  - unfold mounted, boot. cbn [fst snd]. destruct (VFS_Mount _ _ _ _ _ _) as [[[v w] o]|] eqn:E.
    + eapply (StMount _ _ [47] ramfs None yes v w o); [|done|done|exact E].
      apply (bool_decide_unpack _). vm_compute. exact I.
    + exfalso. vm_compute in E. discriminate.
  - unfold with_a. destruct mounted as [v0 w0] eqn:E0. cbn [fst snd]. destruct (VFS_Create _ _ _ _ _) as [[[v w] r]|] eqn:E.
    + eapply (StCreate _ _ [47; 97] VFS_NODE_DIRECTORY yes v w r); [apply no_nul_a|exact E].
    + exfalso. replace v0 with mounted.1 in E by (by rewrite E0). replace w0 with mounted.2 in E by (by rewrite E0).
      vm_compute in E. discriminate.
Qed.
End VfsExample.
Import VfsExample.


(** Two chunks, "ab" and "c", at offset 2 of the file "hi". *)
Lemma vfs_write_chunks_witness : exists w x,
  write_chunks (A := AMD64) Example.next_addr FileExample.hi_world (Some (mkHandle 3 0 2 2)) [[97; 98]; [99]] =
    Some (w, Some (mkHandle 3 0 2 5), [2; 1]) /\
  rw_nodes w = <[3 := x]> (rw_nodes FileExample.hi_world) /\ r_node x = r_node FileExample.hi /\
  file_ok (A := AMD64) x /\ contents x = [104; 105; 97; 98; 99].
Proof.
  apply (vfs_write_chunks (A := AMD64) Example.next_addr [[97; 98]; [99]] FileExample.hi_world 3 0 2 2 FileExample.hi);
    [reflexivity|reflexivity|apply FileExample.hi_ok|reflexivity|lia|vm_compute; discriminate|].
  repeat constructor; discriminate.
Defined.
