(* ===== verification/Convert.v ===== *)
(** * Numbers to strings ([kernel/util/convert.c])

    The integer conversions on the caller's buffer, a byte list of its size;
    writing outside the buffer gives [None].  [dtoa] works on floating-point
    values and is not modelled. *)

From S2P Require Import Prelude Bytes CString VfsPath.

Definition store (buffer : bytes) (i : Z) (c : Z) : option bytes :=
  if (0 <=? i) && (i <? zlen buffer) then Some (<[Z.to_nat i := c]> buffer) else None.

Definition validate_base (base : Z) : bool := (2 <=? base) && (base <=? 36).

(** The loop over the bits of the value, from bit [i] down. *)
Fixpoint divmod_loop (value base : Z) (i : nat) (q r : Z) : Z * Z :=
  let r := Z.lor (wrap 64 (Z.shiftl r 1)) (Z.land (Z.shiftr value (Z.of_nat i)) 1) in
  let '(q, r) := if base <=? r then (Z.lor q (wrap 64 (Z.shiftl 1 (Z.of_nat i))), r -[64] base) else (q, r) in
  match i with O => (q, r) | S i => divmod_loop value base i q r end.

Definition udivmod_u64 (value base : Z) : Z * Z :=
  let '(q, r) := divmod_loop value base 63 0 0 in (q, wrap 32 r).

(** ["0123456789abc..."] *)
Definition digits_low : bytes := (fun i => if i <? 10 then 48 + i else 87 + i) <$> seqZ 0 36.
Definition digits_up : bytes := (fun i => if i <? 10 then 48 + i else 55 + i) <$> seqZ 0 36.

Fixpoint digit_loop (fuel : nat) (digits : bytes) (value base : Z) (buffer : bytes) (i : Z) : option (bytes * Z) :=
  match fuel with
  | O => None
  | S fuel =>
      if 0 <? value
      then let '(value, rem) := udivmod_u64 value base in
           c ← digits !! Z.to_nat rem;
           buffer ← store buffer i c;
           digit_loop fuel digits value base buffer (i + 1)
      else Some (buffer, i)
  end.

(** [n] swaps are left, of the positions [j] and [i - 1 - j]. *)
Fixpoint reverse_loop (n : nat) (buffer : bytes) (i j : Z) : option bytes :=
  match n with
  | O => Some buffer
  | S n =>
      tmp ← buffer !! Z.to_nat j;
      c ← buffer !! Z.to_nat (i - 1 - j);
      buffer ← store buffer j c;
      buffer ← store buffer (i - 1 - j) tmp;
      reverse_loop n buffer i (j + 1)
  end.

Definition utoa_impl (value : Z) (buffer : bytes) (base : Z) (uppercase : bool) : option bytes :=
  let digits := if uppercase then digits_up else digits_low in
  if value =? 0 then buffer ← store buffer 0 48; store buffer 1 0
  else
    x ← digit_loop 65 digits value (wrap 32 base) buffer 0;
    let '(buffer, i) := x in
    buffer ← reverse_loop (Z.to_nat (i / 2)) buffer i 0;
    store buffer i 0.

(** [static] is the internal buffer, used for a null pointer.  The result is
    the buffer written, or a null pointer. *)
Definition ulltoa (static : bytes) (value : Z) (buffer : option bytes) (base : Z) : option (option bytes) :=
  if negb (validate_base base) then Some None
  else b ← utoa_impl value (default static buffer) base false; Some (Some b).

Definition ultoa (static : bytes) (value : Z) (buffer : option bytes) (base : Z) : option (option bytes) :=
  ulltoa static value buffer base.
Definition utoa (static : bytes) (value : Z) (buffer : option bytes) (base : Z) : option (option bytes) :=
  ulltoa static value buffer base.

(** Negating the least 64-bit integer overflows. *)
Definition sign_wrap (static : bytes) (v : Z) (buffer : option bytes) (base : Z) : option (option bytes) :=
  let buffer := default static buffer in
  if negb (validate_base base) then Some None
  else if v <? 0
  then if v =? - 2 ^ 63 then None
       else b ← store buffer 0 45; s ← utoa_impl (- v) (drop 1 b) base false; Some (Some (take 1 b ++ s))
  else b ← utoa_impl v buffer base false; Some (Some b).

Definition lltoa := sign_wrap.
Definition ltoa := sign_wrap.
Definition itoa := sign_wrap.

(** ** Division bit by bit *)

Lemma land_1 v : 0 <= Z.land v 1 <= 1 /\ Z.land v 1 = v mod 2.
Proof. change (Z.land v 1) with (Z.land v (Z.ones 1)). rewrite Z.land_ones by lia. change (2 ^ 1) with 2. split; [|done]. pose proof (Z.mod_pos_bound v 2). lia. Qed.

Lemma shiftr_bit v i : Z.shiftr v (Z.of_nat i) = 2 * Z.shiftr v (Z.of_nat (S i)) + Z.land (Z.shiftr v (Z.of_nat i)) 1.
Proof.
  rewrite (proj2 (land_1 _)). rewrite Nat2Z.inj_succ, <- Z.add_1_r, <- Z.shiftr_shiftr by lia.
  rewrite (Z.shiftr_div_pow2 (Z.shiftr v _) 1) by lia. change (2 ^ 1) with 2.
  pose proof (Z.div_mod (Z.shiftr v (Z.of_nat i)) 2). lia.
Qed.

Lemma lor_low r b : 0 <= r -> 0 <= b <= 1 -> Z.lor (2 * r) b = 2 * r + b.
Proof.
  intros Hr Hb. assert (b = 0 \/ b = 1) as [->| ->] by lia; [rewrite Z.lor_0_r; lia|]. by destruct r.
Qed.

Lemma lor_bit h i : 0 <= h -> 0 <= i -> Z.lor (2 * h * 2 ^ i) (2 ^ i) = (2 * h + 1) * 2 ^ i.
Proof.
  intros Hh Hi. rewrite <- (Z.mul_1_l (2 ^ i)) at 2. rewrite <- !Z.shiftl_mul_pow2, <- Z.shiftl_lor by lia.
  by rewrite lor_low by lia.
Qed.

(** The step for bit [k]: shift the remainder and add the bit. *)
Ltac bit_step v k :=
  rewrite Z.shiftl_mul_pow2, (Z.mul_comm _ (2 ^ 1)), (wrap_small 64 (2 ^ 1 * _)) by (change (2 ^ 1) with 2; lia);
  change (2 ^ 1) with 2; rewrite lor_low by (try apply land_1; lia);
  pose proof (shiftr_bit v k) as Hs; pose proof (proj1 (land_1 (Z.shiftr v (Z.of_nat k)))) as Hbit;
  set (bit := Z.land (Z.shiftr v (Z.of_nat k)) 1) in *; set (j := Z.of_nat k) in *;
  match goal with |- context [?h * 2 ^ Z.of_nat (S _)] =>
    replace (h * 2 ^ Z.of_nat (S _)) with (2 * h * 2 ^ j)
      by (unfold j; rewrite !Nat2Z.inj_succ, !Z.pow_succ_r by lia; lia) end.

(** [v / 2^(i+1) = h * base + r] before the step for bit [i]. *)
Lemma divmod_loop_spec v base i : 0 <= v < 2 ^ 64 -> 0 < base < 2 ^ 32 -> (i < 64)%nat -> forall h r,
  Z.shiftr v (Z.of_nat (S i)) = h * base + r -> 0 <= h -> 0 <= r < base ->
  divmod_loop v base i (h * 2 ^ (Z.of_nat (S i))) r = (v / base, v mod base).
Proof.
  intros Hv Hb. induction i as [|i IH]; intros Hi h r Hinv Hh Hr; cbn [divmod_loop]; [bit_step v O|bit_step v (S i)];
    rewrite Hinv in Hs.
  - assert (v = 2 * (h * base + r) + bit) as Hv' by (rewrite <- Hs; unfold j; cbn; by rewrite Z.shiftr_0_r).
    change (2 ^ j) with 1. rewrite Z.mul_1_r. change (wrap 64 (Z.shiftl 1 j)) with 1.
    destruct (Z.leb_spec base (2 * r + bit)).
    + rewrite lor_low by lia. rewrite wrap_small by lia. f_equal; [apply (Z.div_unique_pos v base _ (2 * r + bit - base)); lia|].
      apply (Z.mod_unique_pos v base (2 * h + 1)); lia.
    + f_equal; [apply (Z.div_unique_pos v base _ (2 * r + bit)); lia|apply (Z.mod_unique_pos v base (2 * h)); lia].
  - assert (0 <= j < 64) by (unfold j; lia).
    replace (wrap 64 (Z.shiftl 1 j)) with (2 ^ j)
      by (rewrite Z.shiftl_1_l; symmetry; apply wrap_small; split; [apply Z.pow_nonneg; lia|apply Z.pow_lt_mono_r; lia]).
    destruct (Z.leb_spec base (2 * r + bit)).
    + rewrite lor_bit, wrap_small by lia. apply IH; [lia| |lia|lia]. fold j. lia.
    + apply (IH ltac:(lia) (2 * h) (2 * r + bit)); [fold j; lia|lia|lia].
Qed.

Lemma udivmod_spec v base : 0 <= v < 2 ^ 64 -> 0 < base < 2 ^ 32 -> udivmod_u64 v base = (v / base, v mod base).
Proof.
  intros Hv Hb. unfold udivmod_u64. pose proof (divmod_loop_spec v base 63 Hv Hb ltac:(lia) 0 0) as H.
  change (0 * 2 ^ Z.of_nat 64) with 0 in H. rewrite H; [|rewrite Z.shiftr_div_pow2 by lia; rewrite Z.div_small; [lia|exact Hv]|lia|lia].
  pose proof (Z.mod_pos_bound v base). by rewrite wrap_small by lia.
Qed.

(** ** Digits *)

(** The digits of a value, least significant first. *)
Fixpoint lsd (fuel : nat) (base v : Z) : list Z :=
  match fuel with O => [] | S fuel => if 0 <? v then v mod base :: lsd fuel base (v / base) else [] end.

Fixpoint lsd_value (base : Z) (ds : list Z) : Z := match ds with [] => 0 | d :: ds => d + base * lsd_value base ds end.

(** The number a string denotes, most significant digit first. *)
Definition digit_value (c : Z) : Z := if c <? 58 then c - 48 else if c <? 91 then c - 55 else c - 87.
Definition parse (base : Z) (s : bytes) : Z := foldl (fun acc c => acc * base + digit_value c) 0 s.

Lemma lsd_value_spec base fuel v : 2 <= base -> 0 <= v < 2 ^ Z.of_nat fuel -> lsd_value base (lsd fuel base v) = v.
Proof.
  intros Hb. revert v. induction fuel as [|fuel IH]; intros v Hv; cbn [lsd].
  { change (2 ^ Z.of_nat 0) with 1 in Hv. cbn. lia. }
  destruct (Z.ltb_spec 0 v); [|cbn; lia]. cbn [lsd_value]. rewrite IH.
  - pose proof (Z.div_mod v base). lia.
  - rewrite Nat2Z.inj_succ, Z.pow_succ_r in Hv by lia. split; [apply Z.div_pos; lia|].
    apply Z.div_lt_upper_bound; [lia|]. nia.
Qed.

Lemma lsd_length base fuel v : (length (lsd fuel base v) <= fuel)%nat.
Proof. revert v; induction fuel as [|fuel IH]; intros v; cbn; [lia|]. destruct (0 <? v); cbn; [|lia]. specialize (IH (v / base)). lia. Qed.

Lemma lsd_digits base fuel v : 2 <= base -> Forall (fun d => 0 <= d < base) (lsd fuel base v).
Proof.
  intros Hb. revert v; induction fuel as [|fuel IH]; intros v; cbn; [constructor|]. destruct (0 <? v); [|constructor].
  constructor; [apply Z.mod_pos_bound; lia|apply IH].
Qed.

(** The most significant digit is not zero. *)
Lemma lsd_last base fuel v : 2 <= base -> 0 < v < 2 ^ Z.of_nat fuel -> exists ds d, lsd fuel base v = ds ++ [d] /\ d <> 0.
Proof.
  intros Hb. revert v. induction fuel as [|fuel IH]; intros v Hv; [change (2 ^ Z.of_nat 0) with 1 in Hv; lia|]. cbn [lsd].
  destruct (Z.ltb_spec 0 v); [|lia]. pose proof (Z.div_mod v base ltac:(lia)) as Hdm.
  assert (0 <= v / base) by (apply Z.div_pos; lia).
  destruct (Z.eq_dec (v / base) 0) as [Hz|Hz].
  - exists [], (v mod base). rewrite Hz. split; [|lia]. by destruct fuel.
  - rewrite Nat2Z.inj_succ, Z.pow_succ_r in Hv by lia.
    destruct (IH (v / base)) as (ds & d & -> & Hd); [split; [lia|apply Z.div_lt_upper_bound; [lia|]; nia]|].
    by exists (v mod base :: ds), d.
Qed.

Lemma digit_char up d : 0 <= d < 36 -> exists c, (if up : bool then digits_up else digits_low) !! Z.to_nat d = Some c /\
  digit_value c = d /\ c <> 0 /\ (d <> 0 -> c <> 48).
Proof.
  intros Hd. exists (if d <? 10 then 48 + d else (if up then 55 else 87) + d). split.
  - unfold digits_up, digits_low. destruct up; rewrite list_lookup_fmap, lookup_seqZ_lt by lia; cbn;
      rewrite Z2Nat.id by lia; done.
  - unfold digit_value. destruct (Z.ltb_spec d 10), up;
      repeat match goal with |- context [?a <? ?b] => destruct (Z.ltb_spec a b) end; split_and!; lia.
Qed.

Lemma store_at a x c rest : store (a ++ x :: rest) (zlen a) c = Some (a ++ c :: rest).
Proof.
  unfold store. rewrite zlen_app, zlen_cons. pose proof (zlen_nonneg a). pose proof (zlen_nonneg rest).
  destruct (Z.leb_spec 0 (zlen a)); [|lia]. destruct (Z.ltb_spec (zlen a) (zlen a + (1 + zlen rest))); [|lia].
  cbn [andb]. f_equal. unfold zlen. rewrite Nat2Z.id. by rewrite insert_app_r_alt, Nat.sub_diag by lia.
Qed.

Lemma buffer_lookup_at (a : bytes) x rest : (a ++ x :: rest) !! Z.to_nat (zlen a) = Some x.
Proof. unfold zlen. rewrite Nat2Z.id. by apply list_lookup_middle. Qed.

Lemma digit_loop_spec up base fuel v acc rest : 2 <= base <= 36 -> (fuel <= 64)%nat -> 0 <= v < 2 ^ Z.of_nat fuel ->
  (length (lsd fuel base v) <= length rest)%nat ->
  exists cs, Forall2 (fun d c => (if up : bool then digits_up else digits_low) !! Z.to_nat d = Some c) (lsd fuel base v) cs /\
    digit_loop (S fuel) (if up then digits_up else digits_low) v base (acc ++ rest) (zlen acc) =
    Some (acc ++ cs ++ drop (length cs) rest, zlen (acc ++ cs)).
Proof.
  intros Hb. revert v acc rest. induction fuel as [|fuel IH]; intros v acc rest Hf Hv Hl.
  { change (2 ^ Z.of_nat 0) with 1 in Hv. exists []. split; [constructor|]. cbn [digit_loop]. destruct (Z.ltb_spec 0 v); [lia|].
    by rewrite app_nil_r. }
  cbn [lsd] in *. assert (v < 2 ^ 64) as H64. { eapply Z.lt_le_trans; [apply Hv|]. apply Z.pow_le_mono_r; lia. }
  remember (S fuel) as sf. cbn [digit_loop]. destruct (Z.ltb_spec 0 v); cycle 1.
  { exists []. split; [constructor|]. by rewrite app_nil_r. }
  rewrite udivmod_spec by lia. pose proof (Z.mod_pos_bound v base ltac:(lia)).
  destruct (digit_char up (v mod base)) as (c & Hc & _); [lia|]. rewrite Hc. cbn [mbind option_bind].
  destruct rest as [|x rest]; [cbn in Hl; lia|]. rewrite store_at. cbn [mbind option_bind]. subst sf.
  rewrite Nat2Z.inj_succ, Z.pow_succ_r in Hv by lia.
  destruct (IH (v / base) (acc ++ [c]) rest) as (cs & Hcs & Hd).
  - lia.
  - split; [apply Z.div_pos; lia|]. apply Z.div_lt_upper_bound; [lia|]. nia.
  - cbn in Hl. lia.
  - exists (c :: cs). split; [by constructor|]. replace (zlen acc + 1) with (zlen (acc ++ [c])) by (rewrite zlen_app; done).
    rewrite <- app_assoc in Hd. cbn [app] in Hd. rewrite Hd. rewrite <- !app_assoc. done.
Qed.

Lemma reverse_loop_spec n a m b rest : length a = length b -> n = (length m / 2)%nat ->
  reverse_loop n (a ++ m ++ b ++ rest) (zlen (a ++ m ++ b)) (zlen a) = Some (a ++ reverse m ++ b ++ rest).
Proof.
  revert a m b. induction n as [|n IH]; intros a m b Hab Hn; cbn [reverse_loop].
  { symmetry in Hn. apply Nat.div_small_iff in Hn; [|lia]. destruct m as [|x [|y m]]; [done..|]. cbn in Hn. lia. }
  destruct m as [|x m]; [done|]. destruct m as [|y m _] using rev_ind; [done|].
  change ((x :: m ++ [y]) ++ b ++ rest) with (x :: (m ++ [y]) ++ b ++ rest). rewrite buffer_lookup_at. cbn [mbind option_bind].
  assert (zlen (a ++ (x :: m ++ [y]) ++ b) - 1 - zlen a = zlen (a ++ x :: m)) as ->.
  { rewrite !zlen_app, !zlen_cons, !zlen_app. change (zlen [y]) with 1. unfold zlen. lia. }
  assert (a ++ x :: (m ++ [y]) ++ b ++ rest = (a ++ x :: m) ++ y :: b ++ rest) as Heq by (by rewrite <- !app_assoc).
  rewrite Heq, buffer_lookup_at, <- Heq. cbn [mbind option_bind]. rewrite store_at. cbn [mbind option_bind].
  assert (a ++ y :: (m ++ [y]) ++ b ++ rest = (a ++ y :: m) ++ y :: b ++ rest) as Heq2 by (by rewrite <- !app_assoc).
  rewrite Heq2. replace (zlen (a ++ x :: m)) with (zlen (a ++ y :: m)) by (by rewrite !zlen_app, !zlen_cons).
  rewrite store_at. cbn [mbind option_bind].
  specialize (IH (a ++ [y]) m (x :: b)). rewrite <- !app_assoc in IH. cbn [app] in IH.
  replace (zlen (a ++ (x :: m ++ [y]) ++ b)) with (zlen (a ++ y :: m ++ x :: b))
    by (rewrite !zlen_app, !zlen_cons, !zlen_app, !zlen_cons; change (zlen [y]) with 1; change (zlen []) with 0; lia).
  replace (zlen a + 1) with (zlen (a ++ [y])) by (by rewrite zlen_app).
  rewrite <- app_assoc. cbn [app]. rewrite IH.
  - rewrite reverse_cons, reverse_app, reverse_singleton, <- !app_assoc. done.
  - rewrite length_app. cbn. lia.
  - cbn [length] in Hn. rewrite length_app in Hn. cbn [length] in Hn.
    replace (S (length m + 1)) with (length m + 1 * 2)%nat in Hn by lia. rewrite Nat.div_add in Hn by lia. lia.
Qed.

Lemma parse_reverse base cs : parse base (reverse cs) = lsd_value base (digit_value <$> cs).
Proof.
  unfold parse. induction cs as [|c cs IH]; [done|]. rewrite reverse_cons, foldl_app, IH, fmap_cons. cbn [foldl lsd_value]. lia.
Qed.

(** A string that denotes [v]: digits only, no leading zero. *)
Definition denotes (base v : Z) (s : bytes) : Prop :=
  parse base s = v /\ (0 ∉ s) /\ s <> [] /\ zlen s <= 64 /\ (v <> 0 -> hd_error s <> Some 48).

Lemma utoa_impl_fits up base v buffer : 2 <= base <= 36 -> 0 <= v < 2 ^ 64 ->
  (length (lsd 64 base v) < length buffer)%nat -> (2 <= length buffer)%nat ->
  exists s rest, utoa_impl v buffer base up = Some (s ++ 0 :: rest) /\ denotes base v s /\
    length (s ++ 0 :: rest) = length buffer /\ (length s <= Nat.max 1 (length (lsd 64 base v)))%nat.
Proof.
  intros Hb Hv Hl Hl2. unfold utoa_impl. rewrite wrap_small by lia. destruct (Z.eqb_spec v 0) as [->|Hv0].
  { destruct buffer as [|x [|y rest]]; [cbn in Hl2; lia..|]. exists [48], rest.
    change (store (x :: y :: rest) 0 48) with (store ([] ++ x :: y :: rest) (zlen []) 48). rewrite store_at. cbn [mbind option_bind].
    change (store ([] ++ 48 :: y :: rest) 1 0) with (store ([48] ++ y :: rest) (zlen [48]) 0). rewrite store_at.
    split; [done|]. split; [|split; [done|cbn; lia]]. split; [done|]. split; [|done]. rewrite list_elem_of_singleton. lia. }
  pose proof (lsd_length base 64 v) as Hlen.
  destruct (digit_loop_spec up base 64 v [] buffer Hb ltac:(lia) Hv ltac:(lia)) as (cs & Hcs & Hd).
  change (digit_loop 65 _ v base buffer 0) with
    (digit_loop 65 (if up then digits_up else digits_low) v base ([] ++ buffer) (zlen [])). rewrite Hd. cbn [mbind option_bind app].
  pose proof (Forall2_length _ _ _ Hcs) as Hlcs.
  pose proof (reverse_loop_spec (Z.to_nat (zlen cs / 2)) [] cs [] (drop (length cs) buffer) eq_refl) as Hrev.
  cbn [app] in Hrev. rewrite app_nil_r in Hrev. change (zlen []) with 0 in Hrev.
  rewrite Hrev by (unfold zlen; rewrite Z2Nat.inj_div, Nat2Z.id by lia; done). cbn [mbind option_bind].
  destruct (drop (length cs) buffer) as [|y rest] eqn:Edrop.
  { apply (f_equal length) in Edrop. rewrite length_drop in Edrop. cbn in Edrop. lia. }
  exists (reverse cs), rest. replace (zlen cs) with (zlen (reverse cs)) by (unfold zlen; by rewrite length_reverse).
  rewrite store_at. split; [done|].
  assert (Forall (fun c => c <> 0) cs /\ digit_value <$> cs = lsd 64 base v) as [Hnz Hdv].
  { pose proof (lsd_digits base 64 v ltac:(lia)) as Hds. clear -Hcs Hds Hb. induction Hcs as [|d c ds cs Hc _ IH]; [by split; [constructor|]|].
    apply Forall_cons in Hds as [Hd Hds]. destruct (IH Hds) as [H1 H2]. destruct (digit_char up d) as (c' & Hc' & Hv' & Hz & _); [lia|].
    assert (c' = c) as -> by congruence. split; [by constructor|]. rewrite fmap_cons. by f_equal. }
  split; [split_and!|split].
  - rewrite parse_reverse, Hdv. by apply lsd_value_spec; [lia|].
  - rewrite elem_of_reverse. intros Hin. rewrite Forall_forall in Hnz. by apply (Hnz 0).
  - intros Hr. apply (f_equal reverse) in Hr. rewrite reverse_involutive in Hr. subst cs.
    destruct (lsd_last base 64 v ltac:(lia) ltac:(lia)) as (ds & d & Hx & _). rewrite Hx, length_app in Hlcs. cbn in Hlcs. lia.
  - unfold zlen. rewrite length_reverse. lia.
  - intros _. destruct (lsd_last base 64 v ltac:(lia) ltac:(lia)) as (ds & d & Hx & Hd0). rewrite Hx in Hcs.
    apply Forall2_app_inv_l in Hcs as (cs1 & cs2 & _ & H2 & ->). apply Forall2_cons_inv_l in H2 as (c & cs3 & Hc & H3 & ->).
    apply Forall2_nil_inv_l in H3 as ->. rewrite reverse_app, reverse_singleton. cbn.
    pose proof (lsd_digits base 64 v ltac:(lia)) as Hds. rewrite Hx, Forall_app, Forall_singleton in Hds.
    destruct (digit_char up d) as (c' & Hc' & _ & _ & H48); [lia|]. assert (c' = c) as -> by congruence.
    intros [= ->]. by apply H48.
  - apply (f_equal length) in Edrop. rewrite length_drop in Edrop. rewrite length_app, length_reverse. cbn in *. lia.
  - rewrite length_reverse. lia.
Qed.

Lemma utoa_impl_spec up base v buffer : 2 <= base <= 36 -> 0 <= v < 2 ^ 64 -> (65 <= length buffer)%nat ->
  exists s rest, utoa_impl v buffer base up = Some (s ++ 0 :: rest) /\ denotes base v s /\
    length (s ++ 0 :: rest) = length buffer.
Proof.
  intros Hb Hv Hl. pose proof (lsd_length base 64 v).
  destruct (utoa_impl_fits up base v buffer Hb Hv ltac:(lia) ltac:(lia)) as (s & rest & H1 & H2 & H3 & _). by exists s, rest.
Qed.

(** A value below [base ^ k] has at most [k] digits. *)
Lemma lsd_length_bound base fuel k v : 2 <= base -> v < base ^ Z.of_nat k -> (length (lsd fuel base v) <= k)%nat.
Proof.
  intros Hb. revert fuel v. induction k as [|k IH]; intros [|fuel] v Hv; cbn; try lia; destruct (Z.ltb_spec 0 v); cbn; try lia.
  apply le_n_S, IH. rewrite Nat2Z.inj_succ, Z.pow_succ_r in Hv by lia. apply Z.div_lt_upper_bound; lia.
Qed.

(** [ulltoa] in a base from 2 to 36 writes, into any buffer of 65 bytes
    and into the internal one, a string that reads back as the value: at most
    64 digits, no leading zero, terminated within the buffer; other bases are
    refused.  The division by shifts and the reversal in place are exact. *)
Theorem ulltoa_roundtrip static v buffer base : 0 <= v < 2 ^ 64 -> (65 <= length (default static buffer))%nat ->
  if validate_base base
  then exists s rest, ulltoa static v buffer base = Some (Some (s ++ 0 :: rest)) /\ denotes base v s /\
         length (s ++ 0 :: rest) = length (default static buffer)
  else ulltoa static v buffer base = Some None.
Proof.
  intros Hv Hl. unfold ulltoa. destruct (validate_base base) eqn:Eb; cbn [negb]; [|done].
  unfold validate_base in Eb. apply andb_true_iff in Eb as [H1%Z.leb_le H2%Z.leb_le].
  destruct (utoa_impl_spec false base v (default static buffer)) as (s & rest & -> & Hd & Hlen); [lia|done|done|].
  by exists s, rest.
Qed.

(** The signed conversions, for every value but the least 64-bit one:
    a minus sign exactly for negative values, then the digits of the
    magnitude; 66 bytes are always enough. *)
Theorem lltoa_roundtrip static v buffer base : - 2 ^ 63 < v < 2 ^ 63 -> 2 <= base <= 36 ->
  (66 <= length (default static buffer))%nat ->
  exists s rest, lltoa static v buffer base = Some (Some ((if v <? 0 then 45 :: s else s) ++ 0 :: rest)) /\
    denotes base (Z.abs v) s.
Proof.
  intros Hv Hb Hl. unfold lltoa, sign_wrap, validate_base.
  destruct (Z.leb_spec 2 base); [|lia]. destruct (Z.leb_spec base 36); [|lia]. cbn [andb negb].
  destruct (Z.ltb_spec v 0).
  - destruct (Z.eqb_spec v (- 2 ^ 63)); [lia|]. destruct (default static buffer) as [|x b] eqn:E; [cbn in Hl; lia|].
    change (store (x :: b) 0 45) with (store ([] ++ x :: b) (zlen []) 45). rewrite store_at. cbn [mbind option_bind app].
    change (drop 1 (45 :: b)) with (drop 0 b). rewrite drop_0. cbn [length] in Hl.
    destruct (utoa_impl_spec false base (- v) b) as (s & rest & -> & Hd & _); [lia|lia|lia|].
    exists s, rest. split; [done|]. by replace (Z.abs v) with (- v) by lia.
  - destruct (utoa_impl_spec false base v (default static buffer)) as (s & rest & -> & Hd & _); [lia|lia|lia|].
    exists s, rest. split; [done|]. by replace (Z.abs v) with v by lia.
Qed.

Lemma ulltoa_roundtrip_witness : if validate_base 16
  then exists s rest, ulltoa (replicate 66 7) 48879 None 16 = Some (Some (s ++ 0 :: rest)) /\ denotes 16 48879 s /\
         length (s ++ 0 :: rest) = 66%nat
  else ulltoa (replicate 66 7) 48879 None 16 = Some None.
Proof. apply (ulltoa_roundtrip (replicate 66 7) 48879 None 16); [lia|cbn; lia]. Defined.

Lemma lltoa_roundtrip_witness : exists s rest,
  lltoa (replicate 66 7) (-40) None 10 = Some (Some ((if -40 <? 0 then 45 :: s else s) ++ 0 :: rest)) /\
  denotes 10 (Z.abs (-40)) s.
Proof. apply (lltoa_roundtrip (replicate 66 7) (-40) None 10); [lia|lia|cbn; lia]. Defined.

(** The least 64-bit value. *)
Lemma lltoa_min_overflows : lltoa (replicate 66 7) (- 2 ^ 63) None 10 = None.
Proof. reflexivity. Qed.
