(* ===== verification/Buffer.v ===== *)
(** * The event queue ([kernel/buffer.c], [kernel_include/buffer.h])

    A queue of fixed-size records in a singly linked chain.  The nodes live in
    a store from addresses to [BufferNode]; an access outside of it is
    undefined and gives [None].  A record's address is the address of its node
    plus the size of the node header.  The result of [malloc] is an argument. *)

From S2P Require Import Prelude Bytes CString Lists.

Record BufferNode := mkBufferNode { bn_next : Z; bn_size : Z; bn_data : bytes }.

Record Buffer := mkBuffer
  { b_head : Z; b_tail : Z; b_count : Z; b_total : Z; default_data_size : Z }.

Section Ops.
Context `{A : Arch}.
Implicit Types (m : gmap Z BufferNode) (b : Buffer) (self : option Buffer).

(** [sizeof(BufferNode)], which is also the offset of [data]. *)
Definition sizeof_BufferNode : Z := 2 * sizeof_size_t.

(** [self] is [None] for a null [Buffer*]. *)
Definition buffer_create (size : Z) (mal : bool) : option Buffer :=
  if mal then Some (mkBuffer NULL NULL 0 0 size) else None.

Fixpoint buffer_clear_loop m (fuel : nat) (current : Z) : option (gmap Z BufferNode) :=
  match fuel with
  | O => None
  | S fuel =>
      if current =? NULL then Some m
      else n ← m !! current; buffer_clear_loop (delete current m) fuel (bn_next n)
  end.

Definition buffer_clear m self : option (gmap Z BufferNode * option Buffer) :=
  match self with
  | None => Some (m, None)
  | Some b =>
      m ← buffer_clear_loop m (S (size m)) (b_head b);
      Some (m, Some (mkBuffer NULL NULL 0 0 (default_data_size b)))
  end.

(** The [Buffer] object is freed after its nodes. *)
Definition buffer_destroy m self : option (gmap Z BufferNode) :=
  match self with
  | None => Some m
  | Some _ => r ← buffer_clear m self; Some r.1
  end.

(** [data] is the memory behind the pointer.  The size of the new block wraps
    like any [size_t], and the copy must fit both ends. *)
Definition buffer_push m self (data : option bytes) (mal : option Z)
  : option (gmap Z BufferNode * option Buffer * Z) :=
  match self, data with
  | Some b, Some data =>
      let data_size := default_data_size b in
      match mal with
      | None => Some (m, self, -1)
      | Some new_node =>
          if (sizeof_BufferNode +[size_bits] data_size) <? sizeof_BufferNode + data_size then None
          else if zlen data <? data_size then None
          else
            let m1 := <[new_node := mkBufferNode NULL data_size (take (Z.to_nat data_size) data)]> m in
            m2 ← (if b_count b =? 0 then Some m1
                  else t ← m1 !! b_tail b; Some (<[b_tail b := mkBufferNode new_node (bn_size t) (bn_data t)]> m1));
            Some (m2, Some (mkBuffer (if b_count b =? 0 then new_node else b_head b) new_node
                                     (b_count b +[size_bits] 1) (b_total b +[size_bits] data_size) data_size), 0)
      end
  | _, _ => Some (m, self, -1)
  end.

Definition buffer_push_default m self (data : option bytes) (mal : option Z)
  : option (gmap Z BufferNode * option Buffer * Z) := buffer_push m self data mal.
Definition buffer_push_copy m self (data : option bytes) (mal : option Z)
  : option (gmap Z BufferNode * option Buffer * Z) := buffer_push m self data mal.

(** The record stays in its node, which is no longer linked. *)
Definition buffer_pop m self : option (option Buffer * Z) :=
  match self with
  | Some b =>
      if b_count b =? 0 then Some (self, NULL)
      else
        n ← m !! b_head b;
        Some (Some (mkBuffer (bn_next n) (if b_count b =? 1 then NULL else b_tail b)
                             (b_count b -[size_bits] 1) (b_total b -[size_bits] bn_size n) (default_data_size b)),
              b_head b + sizeof_BufferNode)
  | None => Some (None, NULL)
  end.

Definition buffer_peek m self : option Z :=
  match self with
  | Some b => if b_count b =? 0 then Some NULL else n ← m !! b_head b; Some (b_head b + sizeof_BufferNode)
  | None => Some NULL
  end.

Definition buffer_count self : Z := match self with Some b => b_count b | None => 0 end.
Definition buffer_total_size self : Z := match self with Some b => b_total b | None => 0 end.
Definition buffer_data_size self : Z := match self with Some b => default_data_size b | None => 0 end.
Definition buffer_is_empty self : bool := match self with Some b => b_count b =? 0 | None => true end.

Definition buffer_pop_node m self : option (gmap Z BufferNode * option Buffer * Z) :=
  match self with
  | Some b =>
      if b_count b =? 0 then Some (m, self, NULL)
      else
        n ← m !! b_head b;
        Some (<[b_head b := mkBufferNode NULL (bn_size n) (bn_data n)]> m,
              Some (mkBuffer (bn_next n) (if b_count b =? 1 then NULL else b_tail b)
                             (b_count b -[size_bits] 1) (b_total b -[size_bits] bn_size n) (default_data_size b)),
              b_head b)
  | None => Some (m, None, NULL)
  end.

Definition buffer_free_node m (node : Z) : gmap Z BufferNode := if node =? NULL then m else delete node m.

Definition buffer_iterator_begin self : Z := match self with Some b => b_head b | None => NULL end.
Definition buffer_iterator_next m (current : Z) : option Z :=
  if current =? NULL then Some NULL else n ← m !! current; Some (bn_next n).
Definition buffer_node_data (node : Z) : Z := if node =? NULL then NULL else node + sizeof_BufferNode.
Definition buffer_node_data_size m (node : Z) : option Z :=
  if node =? NULL then Some 0 else n ← m !! node; Some (bn_size n).

End Ops.

(** ** Representation *)

Section Rep.
Context `{A : Arch}.
Implicit Types (m : gmap Z BufferNode) (b : Buffer) (ns : list (Z * bytes)).

(** The chain from [p] runs through the nodes [ns] (address and record), each
    of [size] bytes, and ends with a null pointer. *)
Fixpoint bseg m (size : Z) (p : Z) ns : Prop :=
  match ns with
  | [] => p = NULL
  | (a, d) :: ns => p = a /\ zlen d = size /\ exists nx, m !! a = Some (mkBufferNode nx size d) /\ bseg m size nx ns
  end.

Definition end_of ns : Z := default NULL (last ns.*1).

(** The invariant of a queue that holds the records [ns]. *)
Definition buffer_rep m b ns : Prop :=
  bseg m (default_data_size b) (b_head b) ns /\ NoDup ns.*1 /\ Forall addr_ok ns.*1 /\
  b_tail b = end_of ns /\ b_count b = Z.of_nat (length ns) /\
  b_total b = wrap size_bits (Z.of_nat (length ns) * default_data_size b).

Definition fresh_node m (mal : option Z) : Prop := match mal with None => True | Some a => addr_ok a /\ m !! a = None end.

Lemma bseg_frame m m' s p ns : (forall a, a ∈ ns.*1 -> m' !! a = m !! a) -> bseg m s p ns -> bseg m' s p ns.
Proof.
  revert p; induction ns as [|[a d] ns IH]; intros p Hf; cbn; [done|].
  intros (-> & Hd & nx & Ha & Hs). split_and!; [done..|]. exists nx. split; [rewrite Hf; [done|set_solver]|].
  apply IH; [|done]. intros c Hc. apply Hf. set_solver.
Qed.

Lemma bseg_in m s p ns a : bseg m s p ns -> a ∈ ns.*1 -> is_Some (m !! a).
Proof.
  revert p; induction ns as [|[c d] ns IH]; intros p; cbn; [set_solver|].
  intros (-> & _ & nx & Ha & Hs) [->|Hin]%elem_of_cons; [by eexists|eauto].
Qed.

(** Replacing the null pointer at the end of the chain by a new node. *)
Lemma bseg_snoc m s p ns t d a x : bseg m s p (ns ++ [(t, d)]) -> NoDup (ns ++ [(t, d)]).*1 ->
  a ∉ (ns ++ [(t, d)]).*1 -> zlen x = s ->
  m !! t = Some (mkBufferNode NULL s d) /\
  bseg (<[t := mkBufferNode a s d]> (<[a := mkBufferNode NULL s x]> m)) s p ((ns ++ [(t, d)]) ++ [(a, x)]).
Proof.
  intros Hs Hnd Ha Hx. revert p Hs Hnd Ha. induction ns as [|[c e] ns IH]; intros p Hs Hnd Ha; csimpl in *.
  - destruct Hs as (-> & Hd & nx & Ht & ->). split; [done|]. split_and!; [done..|]. exists a.
    rewrite lookup_insert_eq. split_and!; [done..|]. exists NULL. rewrite lookup_insert_ne, lookup_insert_eq by set_solver. done.
  - destruct Hs as (-> & Hd & nx & Hc & Hs). apply NoDup_cons in Hnd as [Hn Hnd].
    destruct (IH nx Hs Hnd) as [Ht IH']; [by apply not_elem_of_cons in Ha as [_ Ha]|]. split; [done|]. split_and!; [done..|]. exists nx. split; [|done].
    rewrite !lookup_insert_ne; [done|intros ->; apply Ha, list_elem_of_here|intros ->; apply Hn; rewrite fmap_app; set_solver].
Qed.

Lemma end_of_snoc ns a d : end_of (ns ++ [(a, d)]) = a.
Proof. unfold end_of. rewrite fmap_app. cbn. by rewrite last_snoc. Qed.

Lemma buffer_rep_count m b ns : buffer_rep m b ns -> Z.of_nat (length ns) < 2 ^ size_bits.
Proof. intros (_ & Hnd & Hok & _). rewrite <- (length_fmap fst). by apply NoDup_addr_bound. Qed.

Lemma buffer_rep_fuel m b ns : buffer_rep m b ns -> (length ns <= base.size m)%nat.
Proof.
  intros (Hs & Hnd & _). rewrite <- (length_fmap fst). apply NoDup_dom_length; [done|]. intros k Hk. by eapply bseg_in.
Qed.

Lemma buffer_create_rep s : buffer_rep ∅ (mkBuffer NULL NULL 0 0 s) [].
Proof. by split_and!; cbn; try constructor. Qed.

(** ** The operations *)

Lemma wrap_add_l w x y : wrap w (wrap w x + y) = wrap w (x + y).
Proof. unfold wrap. apply Zplus_mod_idemp_l. Qed.

Lemma wrap_sub_l w x y : wrap w (wrap w x - y) = wrap w (x - y).
Proof. unfold wrap. apply Zminus_mod_idemp_l. Qed.

Definition record_fits b (data : bytes) : Prop :=
  0 <= default_data_size b <= zlen data /\ sizeof_BufferNode + default_data_size b < 2 ^ size_bits.

Lemma buffer_push_rep m b ns data mal : buffer_rep m b ns -> fresh_node m mal -> record_fits b data ->
  match mal with
  | None => buffer_push m (Some b) (Some data) mal = Some (m, Some b, -1)
  | Some a => exists m' b', buffer_push m (Some b) (Some data) mal = Some (m', Some b', 0) /\
      default_data_size b' = default_data_size b /\
      buffer_rep m' b' (ns ++ [(a, take (Z.to_nat (default_data_size b)) data)]) /\
      (forall c, c ∉ ns.*1 -> c <> a -> m' !! c = m !! c)
  end.
Proof.
  intros Hrep Hm [Hd Hsz]. destruct mal as [a|]; [|done]. destruct Hm as [Ha Hf].
  pose proof Hrep as (Hs & Hnd & Hok & Ht & Hc & Htot).
  assert (a ∉ ns.*1) as Hni by (intros Hin; destruct (bseg_in _ _ _ _ _ Hs Hin); congruence).
  set (s := default_data_size b) in *. set (x := take (Z.to_nat s) data).
  assert (zlen x = s) as Hx by (unfold x; rewrite zlen_take; lia).
  assert (0 <= sizeof_BufferNode) by (unfold sizeof_BufferNode, sizeof_size_t; destruct the_arch; lia).
  cbn [buffer_push]. fold s. fold x. rewrite wrap_small by lia. rewrite Z.ltb_irrefl.
  destruct (Z.ltb_spec (zlen data) s); [lia|].
  assert (NoDup (ns ++ [(a, x)]).*1) as Hnd'. { rewrite fmap_app. apply NoDup_app. cbn. split_and!; [done|set_solver|apply NoDup_singleton]. }
  assert (Forall addr_ok (ns ++ [(a, x)]).*1) as Hok' by (rewrite fmap_app, Forall_app; split; [done|by apply Forall_singleton]).
  pose proof (NoDup_addr_bound _ Hnd' Hok') as Hb. rewrite length_fmap, length_app in Hb. cbn in Hb.
  assert (b_count b +[size_bits] 1 = Z.of_nat (length (ns ++ [(a, x)]))) as Hcnt.
  { rewrite Hc, wrap_small, length_app by lia. cbn. lia. }
  assert (b_total b +[size_bits] s = wrap size_bits (Z.of_nat (length (ns ++ [(a, x)])) * s)) as Htot'.
  { rewrite Htot, wrap_add_l, length_app. f_equal. cbn. lia. }
  rewrite Hc. destruct ns as [|[t d] ns0 _] using rev_ind.
  - cbn. do 2 eexists. split; [done|]. split; [done|]. split.
    + split_and!; cbn in *; try done; [|by rewrite <- Hc]. split_and!; [done..|]. exists NULL. by rewrite lookup_insert_eq.
    + intros c _ Hca. by rewrite lookup_insert_ne.
  - destruct (bseg_snoc _ _ _ _ _ _ a x Hs Hnd Hni Hx) as [Htn Hs']. rewrite end_of_snoc in Ht.
    destruct (Z.eqb_spec (Z.of_nat (length (ns0 ++ [(t, d)]))) 0); [rewrite length_app in *; cbn in *; lia|].
    rewrite Ht, lookup_insert_ne, Htn by (intros <-; apply Hni; rewrite fmap_app; set_solver). cbn [mbind option_bind bn_size bn_data].
    do 2 eexists. split; [done|]. split; [done|]. split.
    + split_and!; cbn [b_head b_tail b_count b_total default_data_size]; try done; by rewrite <- ?Hc, ?end_of_snoc.
    + intros c Hcn Hca. rewrite !lookup_insert_ne; [done|done|]. intros <-. apply Hcn. rewrite fmap_app. set_solver.
Qed.

(** Popping unlinks the first node and leaves the store as it is. *)
Lemma buffer_pop_rep m b ns : buffer_rep m b ns ->
  match ns with
  | [] => buffer_pop m (Some b) = Some (Some b, NULL)
  | (a, d) :: ns' => exists b' nx, buffer_pop m (Some b) = Some (Some b', a + sizeof_BufferNode) /\
      default_data_size b' = default_data_size b /\ m !! a = Some (mkBufferNode nx (default_data_size b) d) /\
      buffer_rep m b' ns' /\ buffer_rep (delete a m) b' ns'
  end.
Proof.
  intros Hrep. pose proof (buffer_rep_count _ _ _ Hrep) as Hb. pose proof Hrep as (Hs & Hnd & Hok & Ht & Hc & Htot).
  cbn [buffer_pop]. rewrite Hc. destruct ns as [|[a d] ns]; [done|]. cbn [bseg] in Hs.
  destruct Hs as (Hh & Hd & nx & Ha & Hs). destruct (Z.eqb_spec (Z.of_nat (length ((a, d) :: ns))) 0); [cbn in *; lia|].
  rewrite Hh, Ha. cbn [mbind option_bind bn_next bn_size]. do 2 eexists. split; [done|]. split; [done|]. split; [done|].
  apply NoDup_cons in Hnd as [Hn Hnd]. apply Forall_cons in Hok as [_ Hok].
  assert (forall m', bseg m' (default_data_size b) nx ns -> buffer_rep m'
     (mkBuffer nx (if Z.of_nat (length ((a, d) :: ns)) =? 1 then NULL else b_tail b) (Z.of_nat (length ((a, d) :: ns)) -[size_bits] 1)
        (b_total b -[size_bits] default_data_size b) (default_data_size b)) ns) as H.
  { intros m' Hs'. split_and!; cbn [b_head b_tail b_count b_total default_data_size]; try done.
    - rewrite Ht. destruct ns as [|y ns]; [done|]. cbn [length]. destruct (Z.eqb_spec (Z.of_nat (S (S (length ns)))) 1); [lia|].
      unfold end_of. by rewrite !fmap_cons, last_cons_cons.
    - cbn [length] in *. rewrite wrap_small; lia.
    - rewrite Htot, wrap_sub_l. f_equal. cbn [length]. lia. }
  split; apply H; [done|]. eapply bseg_frame; [|done]. intros c Hc'. apply lookup_delete_ne. set_solver.
Qed.

Lemma buffer_clear_loop_spec s ns : forall m p fuel, bseg m s p ns -> NoDup ns.*1 -> Forall addr_ok ns.*1 -> (length ns < fuel)%nat ->
  exists m', buffer_clear_loop m fuel p = Some m' /\ (forall c, c ∉ ns.*1 -> m' !! c = m !! c) /\ (forall c, c ∈ ns.*1 -> m' !! c = None).
Proof.
  induction ns as [|[a d] ns IH]; intros m p fuel Hs Hnd Hok Hf; (destruct fuel as [|fuel]; [cbn in Hf; lia|]).
  { cbn in Hs. subst p. exists m. split_and!; [done|done|set_solver]. }
  destruct Hs as (-> & _ & nx & Ha & Hs). apply NoDup_cons in Hnd as [Hn Hnd]. apply Forall_cons in Hok as [Ho Hok].
  cbn in Hf. cbn [buffer_clear_loop]. destruct (Z.eqb_spec a NULL) as [->|_]; [unfold addr_ok, NULL in Ho; cbn in Ho; lia|].
  rewrite Ha. cbn [mbind option_bind bn_next].
  destruct (IH (delete a m) nx fuel) as (m' & Hc & Hout & Hin); [|done|done|lia|].
  { eapply bseg_frame; [|done]. intros c Hc. apply lookup_delete_ne. set_solver. }
  exists m'. split; [done|]. split.
  - intros c Hc'. rewrite Hout by set_solver. apply lookup_delete_ne. set_solver.
  - intros c Hc'. destruct (decide (c ∈ ns.*1)) as [|Hni]; [by apply Hin|].
    rewrite Hout by done. cbn in Hc'. apply elem_of_cons in Hc' as [->|]; [apply lookup_delete_eq|done].
Qed.
End Rep.

(** ** Runs of a client *)

Inductive queue_op := QPush (data : bytes) | QPop (release : bool) | QPopNode | QPeek | QClear.

Inductive queue_out := Pushed (ok : bool) | Got (record : option bytes) | Cleared.

Section Run.
Context `{A : Arch}.
Implicit Types (m : gmap Z BufferNode) (b : Buffer) (ns : list (Z * bytes)) (q : list bytes).

(** What a client reads through a record pointer. *)
Definition load m (p : Z) : option bytes := n ← m !! (p - sizeof_BufferNode); Some (bn_data n).

(** One call.  A client that is done with a popped record may release it:
    [free] takes the block its argument points into. *)
Definition queue_step (mal : option Z) (op : queue_op) m self : option (gmap Z BufferNode * option Buffer * queue_out) :=
  match op with
  | QPush data => r ← buffer_push m self (Some data) mal; Some (r.1, Pushed (r.2 =? 0))
  | QPop release =>
      r ← buffer_pop m self;
      if r.2 =? NULL then Some (m, r.1, Got None)
      else d ← load m r.2; Some (if release : bool then delete (r.2 - sizeof_BufferNode) m else m, r.1, Got (Some d))
  | QPopNode =>
      r ← buffer_pop_node m self;
      if r.2 =? NULL then Some (r.1, Got None)
      else d ← load r.1.1 (buffer_node_data r.2); Some (buffer_free_node r.1.1 r.2, r.1.2, Got (Some d))
  | QPeek =>
      p ← buffer_peek m self;
      if p =? NULL then Some (m, self, Got None) else d ← load m p; Some (m, self, Got (Some d))
  | QClear => r ← buffer_clear m self; Some (r.1, r.2, Cleared)
  end.

(** The abstract queue: records in order of arrival. *)
Definition fifo_step (size : Z) (op : queue_op) (ok : bool) q : list bytes * queue_out :=
  match op with
  | QPush data => (if ok then q ++ [take (Z.to_nat size) data] else q, Pushed ok)
  | QPop _ | QPopNode => (drop 1 q, Got (hd_error q))
  | QPeek => (q, Got (hd_error q))
  | QClear => ([], Cleared)
  end.

Definition op_fits (b : Buffer) (op : queue_op) : Prop := match op with QPush data => record_fits b data | _ => True end.

Definition got_memory (mal : option Z) : bool := match mal with Some _ => true | None => false end.

Lemma load_node m a x s d : m !! a = Some (mkBufferNode x s d) -> load m (a + sizeof_BufferNode) = Some d.
Proof. intros Ha. unfold load. replace (a + sizeof_BufferNode - sizeof_BufferNode) with a by lia. by rewrite Ha. Qed.

Lemma record_not_null a : addr_ok a -> (a + sizeof_BufferNode =? NULL) = false.
Proof.
  unfold addr_ok, sizeof_BufferNode, sizeof_size_t, NULL. intros Ha. destruct (Z.eqb_spec (a + 2 * match the_arch with I386 => 4 | AMD64 => 8 end) 0); [|done].
  destruct the_arch; lia.
Qed.

Lemma buffer_pop_node_eq m b : buffer_pop_node m (Some b) =
  if b_count b =? 0 then Some (m, Some b, NULL)
  else n ← m !! b_head b; r ← buffer_pop m (Some b); Some (<[b_head b := mkBufferNode NULL (bn_size n) (bn_data n)]> m, r.1, b_head b).
Proof. cbn. destruct (b_count b =? 0) eqn:E; [done|]. by destruct (m !! b_head b). Qed.

(** Every call keeps the representation and acts as the abstract queue. *)
Lemma queue_step_rep m b ns mal op : buffer_rep m b ns -> fresh_node m mal -> op_fits b op ->
  exists m' b' ns' out, queue_step mal op m (Some b) = Some (m', Some b', out) /\ buffer_rep m' b' ns' /\
    default_data_size b' = default_data_size b /\
    (ns'.*2, out) = fifo_step (default_data_size b) op (got_memory mal) ns.*2.
Proof.
  intros Hrep Hm Hop. pose proof Hrep as (Hs & Hnd & Hok & Ht & Hc & Htot). destruct op as [data|release| | |]; cbn [queue_step fifo_step].
  - pose proof (buffer_push_rep _ _ _ _ _ Hrep Hm Hop) as H. destruct mal as [a|].
    + destruct H as (m' & b' & -> & Hsz & Hrep' & _). do 4 eexists. split_and!; [done..|]. cbn. by rewrite fmap_app.
    + rewrite H. by exists m, b, ns, (Pushed false).
  - pose proof (buffer_pop_rep _ _ _ Hrep) as H. destruct ns as [|[a d] ns].
    + rewrite H. by exists m, b, [], (Got None).
    + destruct H as (b' & nx & -> & Hsz & Ha & Hr1 & Hr2). cbn [mbind option_bind fst snd]. apply Forall_cons in Hok as [Hoka _].
      rewrite record_not_null by done. erewrite load_node by done. cbn [mbind option_bind].
      replace (a + sizeof_BufferNode - sizeof_BufferNode) with a by lia.
      do 4 eexists. split; [done|]. by destruct release.
  - pose proof (buffer_pop_rep _ _ _ Hrep) as H. rewrite buffer_pop_node_eq, Hc. destruct ns as [|[a d] ns].
    + by exists m, b, [], (Got None).
    + destruct H as (b' & nx & -> & Hsz & Ha & _ & Hr2). destruct Hs as (-> & _). apply Forall_cons in Hok as [Hoka _].
      destruct (Z.eqb_spec (Z.of_nat (length ((a, d) :: ns))) 0); [cbn in *; lia|]. rewrite Ha. cbn [mbind option_bind fst snd bn_size bn_data].
      unfold buffer_node_data, buffer_free_node. destruct (Z.eqb_spec a NULL); [unfold addr_ok, NULL in *; cbn in *; lia|].
      erewrite load_node by (by rewrite lookup_insert_eq). cbn [mbind option_bind]. rewrite delete_insert_eq. by do 4 eexists.
  - cbn [buffer_peek]. rewrite Hc. destruct ns as [|[a d] ns]; [by exists m, b, [], (Got None)|].
    destruct Hs as (Hh & _ & nx & Ha & _). rewrite Hh.
    destruct (Z.eqb_spec (Z.of_nat (length ((a, d) :: ns))) 0); [cbn in *; lia|]. rewrite Ha. cbn [mbind option_bind].
    apply Forall_cons in Hok as [Hoka _]. rewrite record_not_null by done. erewrite load_node by done. by exists m, b, ((a, d) :: ns), (Got (Some d)).
  - cbn [buffer_clear]. destruct (buffer_clear_loop_spec _ ns m (b_head b) (S (size m)) Hs Hnd Hok) as (m' & -> & _).
    { pose proof (buffer_rep_fuel _ _ _ Hrep). lia. }
    exists m', (mkBuffer NULL NULL 0 0 (default_data_size b)), [], Cleared. split; [done|]. split; [|done].
    by split_and!; cbn; try constructor.
Qed.

(** A run: [alloc k] is the allocator at the [k]-th call. *)
Fixpoint queue_run (alloc : nat -> gmap Z BufferNode -> option Z) (k : nat) (ops : list queue_op) m self
  : option (option Buffer * list queue_out) :=
  match ops with
  | [] => Some (self, [])
  | op :: ops =>
      x ← queue_step (alloc k m) op m self;
      let '(m, self, out) := x in
      y ← queue_run alloc (S k) ops m self;
      Some (y.1, out :: y.2)
  end.

Definition pushed_ok (out : queue_out) : bool := match out with Pushed ok => ok | _ => true end.

(** What the abstract queue answers, and what it holds at the end, when the
    pushes that find no memory are those that report it. *)
Fixpoint fifo_run (size : Z) (ops : list queue_op) (oks : list bool) q : list bytes * list queue_out :=
  match ops, oks with
  | op :: ops, ok :: oks => let '(q, out) := fifo_step size op ok q in let '(q, outs) := fifo_run size ops oks q in (q, out :: outs)
  | _, _ => (q, [])
  end.

Lemma queue_run_rep alloc ops : (forall k m, fresh_node m (alloc k m)) -> forall k m b ns,
  buffer_rep m b ns -> Forall (op_fits b) ops ->
  exists b' outs q, queue_run alloc k ops m (Some b) = Some (Some b', outs) /\
    fifo_run (default_data_size b) ops (pushed_ok <$> outs) ns.*2 = (q, outs) /\
    b_count b' = Z.of_nat (length q) /\ b_total b' = wrap size_bits (Z.of_nat (length q) * default_data_size b) /\
    default_data_size b' = default_data_size b.
Proof.
  intros Hal. induction ops as [|op ops IH]; intros k m b ns Hrep Hops; cbn [queue_run].
  { exists b, [], ns.*2. destruct Hrep as (_ & _ & _ & _ & Hc & Ht). rewrite length_fmap. done. }
  apply Forall_cons in Hops as [Hop Hops].
  destruct (queue_step_rep m b ns (alloc k m) op Hrep (Hal k m) Hop) as (m' & b' & ns' & out & -> & Hrep' & Hsz & Hst). cbn [mbind option_bind].
  destruct (IH (S k) m' b' ns' Hrep') as (b'' & outs & q & -> & Hq & Hc & Ht & Hsz').
  { eapply Forall_impl; [exact Hops|]. intros [data| | | |]; cbn; unfold record_fits; by rewrite ?Hsz. }
  rewrite Hsz in *. cbn [mbind option_bind fst snd]. exists b'', (out :: outs), q. split; [done|]. split; [|done].
  rewrite fmap_cons. cbn [fifo_run].
  assert (fifo_step (default_data_size b) op (pushed_ok out) ns.*2 = (ns'.*2, out)) as ->; [|by rewrite Hq].
  destruct op; cbn [fifo_step] in *; injection Hst as H1 H2; rewrite H1, H2; done.
Qed.
End Run.

(** C15.  From [buffer_create], any sequence of pushes, pops, peeks and clears
    terminates without an invalid access, whatever the allocator does, and
    answers what a first-in first-out queue of records answers; popped records
    may be released or not, and [buffer_count], [buffer_is_empty] and
    [buffer_total_size] (modulo the width of [size_t]) tell what is left. *)
Theorem buffer_is_fifo `{A : Arch} (alloc : nat -> gmap Z BufferNode -> option Z) size ops :
  (forall k m, fresh_node m (alloc k m)) -> 0 <= size -> sizeof_BufferNode + size < 2 ^ size_bits ->
  Forall (fun op => match op with QPush data => size <= zlen data | _ => True end) ops ->
  exists self outs q, queue_run alloc 0 ops ∅ (buffer_create size true) = Some (self, outs) /\
    fifo_run size ops (pushed_ok <$> outs) [] = (q, outs) /\ buffer_count self = Z.of_nat (length q) /\
    (buffer_is_empty self = true <-> q = []) /\ buffer_total_size self = wrap size_bits (Z.of_nat (length q) * size) /\
    buffer_data_size self = size.
Proof.
  intros Hal Hsz Hb Hops.
  destruct (queue_run_rep alloc ops Hal 0 ∅ (mkBuffer NULL NULL 0 0 size) [] (buffer_create_rep size)) as (b & outs & q & Hr & Hq & Hc & Ht & Hd).
  { eapply Forall_impl; [exact Hops|]. intros [data| | | |]; cbn; [|done..]. intros. split; cbn; lia. }
  exists (Some b), outs, q. split_and!; [done|done|done| |done|done]. cbn. rewrite Hc, Z.eqb_eq. destruct q; cbn; split; (done || lia).
Qed.

Section Example.
#[local] Instance buffer_example_arch : Arch := AMD64.

(** An allocator with three addresses. *)
Definition three_nodes (k : nat) (m : gmap Z BufferNode) : option Z :=
  snd <$> list_find (fun a => m !! a = None) [16; 64; 128].

Lemma buffer_is_fifo_witness :
  let ops := [QPush [1; 2]; QPush [3; 4]; QPop true; QPush [5; 6; 7]; QPeek; QPop false; QPopNode; QPop true; QClear] in
  exists self outs q, queue_run three_nodes 0 ops ∅ (buffer_create 2 true) = Some (self, outs) /\
    fifo_run 2 ops (pushed_ok <$> outs) [] = (q, outs) /\ buffer_count self = Z.of_nat (length q) /\
    (buffer_is_empty self = true <-> q = []) /\ buffer_total_size self = wrap size_bits (Z.of_nat (length q) * 2) /\
    buffer_data_size self = 2.
Proof.
  apply (@buffer_is_fifo AMD64 three_nodes 2); [|lia|vm_compute; done|repeat constructor; done].
  intros k m. unfold three_nodes. destruct (list_find _ _) as [[i a]|] eqn:E; [|done].
  apply list_find_Some in E as (Hi & Ha & _). split; [|done]. unfold addr_ok. cbn.
  apply list_elem_of_lookup_2 in Hi. set_unfold in Hi. destruct Hi as [->|[->|[->|[]]]]; by split.
Defined.
End Example.
