(* ===== verification/BlockDevice.v ===== *)
(** * Block devices ([kernel/storage/BlockDevice.c], [BlockDevice.h])

    The registry of devices, the calls through their function tables, and the
    contract of the drivers behind them.  The drivers themselves are a
    parameter: a state [W] and three functions.  A null [BlockDevice*] and a
    null table are [None]; a table records which pointers are set. *)

From S2P Require Import Prelude Bytes.

Inductive BlockDeviceType := BLKDEV_TYPE_DISK | BLKDEV_TYPE_CDROM | BLKDEV_TYPE_VIRTUAL.

Record BlockDeviceOps := mkBlockOps { has_read : bool; has_write : bool; has_flush : bool }.

Record BlockDevice := mkBlockDevice {
  d_name : option bytes;
  d_type : BlockDeviceType;
  logical_block_size : Z;
  total_blocks : Z;
  d_ops : option BlockDeviceOps;
  driver_ctx : Z
}.

#[global] Instance BlockDeviceType_eq_dec : EqDecision BlockDeviceType.
Proof. solve_decision. Defined.

(** The functions behind the tables.  A read gives the bytes it stored. *)
Class BlockDriver (W : Type) := {
  drv_read : W -> BlockDevice -> Z -> Z -> W * option bytes;
  drv_write : W -> BlockDevice -> Z -> Z -> bytes -> W * bool;
  drv_flush : W -> BlockDevice -> W * bool
}.

(** ** Registry *)

(** [mal] tells whether the list object can be allocated. *)
Definition BlockDevice_InitRegistry (mal : bool) (s_blkdev_list : option (list BlockDevice)) : option (list BlockDevice) :=
  match s_blkdev_list with
  | None => if mal then Some [] else None
  | Some _ => s_blkdev_list
  end.

(** Allocations in order: the list, the device, the list node. *)
Definition BlockDevice_Register (mal : nat -> bool) (reg : option (list BlockDevice)) (name : option bytes) (type : BlockDeviceType)
  (block_size total : Z) (ops : option BlockDeviceOps) (ctx : Z) : option (list BlockDevice) * option BlockDevice :=
  let reg := BlockDevice_InitRegistry (mal 0%nat) reg in
  match ops with
  | Some o =>
      if has_read o
      then
        if mal 1%nat
        then let d := mkBlockDevice name type (if block_size =? 0 then 512 else block_size) total ops ctx in
             (if mal 2%nat then (fun ds => ds ++ [d]) <$> reg else reg, Some d)
        else (reg, None)
      else (reg, None)
  | None => (reg, None)
  end.

Definition BlockDevice_Count (reg : option (list BlockDevice)) : Z :=
  match reg with Some ds => Z.of_nat (length ds) | None => 0 end.

Definition BlockDevice_GetAt (reg : option (list BlockDevice)) (index : Z) : option BlockDevice :=
  ds ← reg; ds !! Z.to_nat index.

(** ** Calls through the table *)

Section Calls.
Context {W : Type} `{!BlockDriver W}.

Definition BlockDevice_Read (w : W) (dev : option BlockDevice) (lba count : Z) : W * option bytes :=
  match dev with
  | Some d => match d_ops d with
              | Some o => if has_read o then drv_read w d lba count else (w, None)
              | None => (w, None)
              end
  | None => (w, None)
  end.

Definition BlockDevice_Write (w : W) (dev : option BlockDevice) (lba count : Z) (buffer : bytes) : W * bool :=
  match dev with
  | Some d => match d_ops d with
              | Some o => if has_write o then drv_write w d lba count buffer else (w, false)
              | None => (w, false)
              end
  | None => (w, false)
  end.

Definition BlockDevice_Flush (w : W) (dev : option BlockDevice) : W * bool :=
  match dev with
  | Some d => match d_ops d with
              | Some o => if has_flush o then drv_flush w d else (w, true)
              | None => (w, true)
              end
  | None => (w, true)
  end.

End Calls.

(** ** What a driver promises for one device

    The device is an array of [disk_size] sectors.  A read of sectors of the
    device stores their bytes or fails, and changes none; a write changes no
    sector outside of its range, and stores the bytes if it reports success. *)
Class DiskLaws {W : Type} `{!BlockDriver W} (d : BlockDevice) := {
  disk_size : Z;
  sector : W -> Z -> bytes;
  sector_len w lba : 0 <= lba < disk_size -> zlen (sector w lba) = logical_block_size d;
  block_size_pos : 0 < logical_block_size d < 2 ^ 32;
  total_blocks_size : total_blocks d = 0 \/ total_blocks d = disk_size;
  drv_read_law w lba count w' r : 0 <= lba -> 0 < count -> lba + count <= disk_size ->
    drv_read w d lba count = (w', r) ->
    (forall i, sector w' i = sector w i) /\
    (forall bs, r = Some bs -> bs = concat (sector w <$> seqZ lba count));
  drv_write_law w lba count buf w' ok : 0 <= lba -> 0 < count -> lba + count <= disk_size ->
    zlen buf = count * logical_block_size d -> drv_write w d lba count buf = (w', ok) ->
    (forall i, ~ (lba <= i < lba + count) -> sector w' i = sector w i) /\
    (ok = true -> concat (sector w' <$> seqZ lba count) = buf);
  drv_flush_law w w' ok : drv_flush w d = (w', ok) -> forall i, sector w' i = sector w i
}.

(** A device that never fails. *)
Definition reads_succeed {W : Type} `{!BlockDriver W} (d : BlockDevice) (size : Z) : Prop :=
  forall w lba count, 0 <= lba -> 0 < count -> lba + count <= size -> (drv_read w d lba count).2 <> None.
Definition writes_succeed {W : Type} `{!BlockDriver W} (d : BlockDevice) (size : Z) : Prop :=
  forall w lba count buf, 0 <= lba -> 0 < count -> lba + count <= size -> (drv_write w d lba count buf).2 = true.

(** ** A device in memory

    The smallest driver with these laws: the state maps sector numbers to
    bytes, a missing or short sector reads as zeros. *)
Module MemDisk.

Definition get (w : gmap Z bytes) (d : BlockDevice) (lba : Z) : bytes :=
  take (Z.to_nat (logical_block_size d)) (default [] (w !! lba) ++ zeros (logical_block_size d)).

Definition in_range (d : BlockDevice) (lba count : Z) : bool := (0 <=? lba) && (0 <? count) && (lba + count <=? total_blocks d).

Definition read (w : gmap Z bytes) (d : BlockDevice) (lba count : Z) : gmap Z bytes * option bytes :=
  (w, if in_range d lba count then Some (concat (get w d <$> seqZ lba count)) else None).

Fixpoint put (n : nat) (bs : Z) (w : gmap Z bytes) (lba : Z) (buf : bytes) : gmap Z bytes :=
  match n with
  | O => w
  | S n => put n bs (<[lba := take (Z.to_nat bs) buf]> w) (lba + 1) (drop (Z.to_nat bs) buf)
  end.

Definition write (w : gmap Z bytes) (d : BlockDevice) (lba count : Z) (buf : bytes) : gmap Z bytes * bool :=
  if in_range d lba count then (put (Z.to_nat count) (logical_block_size d) w lba buf, true) else (w, false).

#[global] Instance mem_driver : BlockDriver (gmap Z bytes) :=
  {| drv_read := read; drv_write := write; drv_flush w _ := (w, true) |}.

Lemma get_len w d lba : 0 < logical_block_size d -> zlen (get w d lba) = logical_block_size d.
Proof.
  intros Hb. unfold get. rewrite zlen_take, zlen_app, zlen_zeros by lia. pose proof (zlen_nonneg (default [] (w !! lba))). lia.
Qed.

Lemma put_out n bs : forall w lba buf i, ~ (lba <= i < lba + Z.of_nat n) -> put n bs w lba buf !! i = w !! i.
Proof.
  induction n as [|n IH]; intros w lba buf i Hi; [done|]. cbn [put]. rewrite IH by lia. apply lookup_insert_ne. lia.
Qed.

Lemma put_in d n : 0 < logical_block_size d -> forall w lba buf, zlen buf = Z.of_nat n * logical_block_size d ->
  concat (get (put n (logical_block_size d) w lba buf) d <$> seqZ lba (Z.of_nat n)) = buf.
Proof.
  intros Hb. set (bs := logical_block_size d) in *. induction n as [|n IH]; intros w lba buf Hl.
  { symmetry. apply zlen_zero. lia. }
  rewrite Nat2Z.inj_succ, seqZ_cons by lia. rewrite fmap_cons. cbn [concat put]. replace (Z.pred (Z.succ (Z.of_nat n))) with (Z.of_nat n) by lia.
  rewrite <- Z.add_1_r. rewrite IH by (rewrite zlen_drop; lia). etransitivity; [|apply (take_drop (Z.to_nat bs))]. f_equal.
  unfold get. fold bs. rewrite put_out, lookup_insert_eq by lia. cbn [default from_option id].
  rewrite take_app_le by (rewrite length_take; unfold zlen in *; lia). by rewrite take_take, Nat.min_id.
Qed.

Lemma mem_laws d : 0 < logical_block_size d < 2 ^ 32 -> 0 <= total_blocks d -> DiskLaws (W := gmap Z bytes) d.
Proof.
  intros Hb Ht. refine {| disk_size := total_blocks d; sector w lba := get w d lba |}.
  - intros w lba _. apply get_len. lia.
  - done.
  - by right.
  - intros w lba count w' r _ _ _. cbn. unfold read. intros [= <- <-]. split; [done|]. intros bs.
    destruct (in_range d lba count); [|done]. by intros [= <-].
  - intros w lba count buf w' ok H0 H1 H2 Hl. cbn. unfold write, in_range.
    destruct (Z.leb_spec 0 lba), (Z.ltb_spec 0 count), (Z.leb_spec (lba + count) (total_blocks d)); try lia. cbn [andb].
    intros [= <- <-]. split.
    + intros i Hi. unfold get. rewrite put_out by lia. done.
    + intros _. pose proof (put_in d (Z.to_nat count) ltac:(lia) w lba buf ltac:(lia)) as H'. by rewrite Z2Nat.id in H' by lia.
  - intros w w' ok [= <- _]. done.
Defined.

Lemma mem_reads d : reads_succeed (W := gmap Z bytes) d (total_blocks d).
Proof.
  intros w lba count H0 H1 H2. cbn. unfold in_range.
  destruct (Z.leb_spec 0 lba), (Z.ltb_spec 0 count), (Z.leb_spec (lba + count) (total_blocks d)); (done || lia).
Qed.

Lemma mem_writes d : writes_succeed (W := gmap Z bytes) d (total_blocks d).
Proof.
  intros w lba count buf H0 H1 H2. cbn. unfold write, in_range.
  destruct (Z.leb_spec 0 lba), (Z.ltb_spec 0 count), (Z.leb_spec (lba + count) (total_blocks d)); (done || lia).
Qed.

End MemDisk.
