(* ===== verification/DiskStream.v ===== *)
(** * Byte access to a device ([kernel/stream/DiskStream.c])

    A stream over a block device.  The results of [malloc] are arguments;
    [None] is undefined behaviour: a division by a block size of zero, or bytes
    outside of a buffer.  Warnings are not modelled. *)

From S2P Require Import Prelude Bytes BlockDevice.

Inductive DiskStreamDeviceType := DISKSTREAM_DEVICE_UNKNOWN | DISKSTREAM_DEVICE_BLOCK.

Record DiskStream := mkDiskStream {
  ds_device : option BlockDevice;
  device_type : DiskStreamDeviceType;
  isOpen : bool;
  ds_readonly : bool
}.

Definition is_block (t : DiskStreamDeviceType) : bool := match t with DISKSTREAM_DEVICE_BLOCK => true | _ => false end.

Definition DiskStream_CreateFromBlockDevice (blockDevice : option BlockDevice) (mal : bool) : option DiskStream :=
  match blockDevice with
  | None => None
  | Some _ => if mal then Some (mkDiskStream blockDevice DISKSTREAM_DEVICE_BLOCK false true) else None
  end.

Definition DiskStream_Open (stream : option DiskStream) (readonly : bool) : option DiskStream * option BlockDevice :=
  match stream with
  | None => (None, None)
  | Some s =>
      if isOpen s then (stream, ds_device s)
      else (Some (mkDiskStream (ds_device s) (device_type s) true readonly), ds_device s)
  end.

Definition DiskStream_Close (stream : option DiskStream) : option DiskStream :=
  match stream with
  | None => None
  | Some s => if isOpen s then Some (mkDiskStream (ds_device s) (device_type s) false (ds_readonly s)) else stream
  end.

Section Ops.
Context `{A : Arch} {W : Type} `{!BlockDriver W}.

(** Bytes a driver stored in a buffer of [cap] bytes. *)
Definition into_buffer (cap : Z) (r : option bytes) : option (option bytes) :=
  match r with
  | None => Some None
  | Some bs => if zlen bs <=? cap then Some (Some bs) else None
  end.

(** The device of a stream that is open and of the block type. *)
Definition open_device (stream : option DiskStream) : option (option BlockDevice) :=
  match stream with
  | Some s => if isOpen s && is_block (device_type s) then Some (ds_device s) else None
  | None => None
  end.

Definition DiskStream_ReadSector (mal : bool) (w : W) (stream : option DiskStream) (sector : Z) : option (W * option bytes) :=
  match open_device stream with
  | None => Some (w, None)
  | Some dev =>
      d ← dev;
      if negb (total_blocks d =? 0) && (total_blocks d <=? sector) then Some (w, None)
      else if negb mal then Some (w, None)
      else let '(w, r) := BlockDevice_Read w dev sector 1 in
           r ← into_buffer (logical_block_size d) r; Some (w, r)
  end.

Definition DiskStream_ReadSectors (mal : bool) (w : W) (stream : option DiskStream) (sector count : Z) : option (W * option bytes) :=
  match open_device stream with
  | None => Some (w, None)
  | Some dev =>
      if count =? 0 then Some (w, None)
      else
        d ← dev;
        let block_size := logical_block_size d in
        if negb (total_blocks d =? 0) && ((total_blocks d <=? sector) || (total_blocks d -[64] sector <? count)) then Some (w, None)
        else if block_size =? 0 then None
        else if SIZE_MAX / block_size <? count then Some (w, None)
        else if 2 ^ 32 - 1 <? count then Some (w, None)
        else if negb mal then Some (w, None)
        else let '(w, r) := BlockDevice_Read w dev sector (wrap 32 count) in
             r ← into_buffer (count *[size_bits] block_size) r; Some (w, r)
  end.

(** The loop of [DiskStream_Read]; [acc] is the part of [out] filled so far. *)
Fixpoint read_loop (fuel : nat) (w : W) (d : BlockDevice) (size copied cur_offset : Z) (acc : bytes) : option (W * option bytes) :=
  match fuel with
  | O => None
  | S fuel =>
      if copied <? size
      then
        let block_size := logical_block_size d in
        let lba := cur_offset / block_size in
        let intra := wrap size_bits (cur_offset mod block_size) in
        let remain := size - copied in
        let chunk := block_size - intra in
        let chunk := if remain <? chunk then remain else chunk in
        let '(w, r) := BlockDevice_Read w (Some d) lba 1 in
        r ← into_buffer block_size r;
        match r with
        | None => Some (w, None)
        | Some block_buf =>
            part ← sub_bytes block_buf intra chunk;
            read_loop fuel w d size (copied + chunk) (cur_offset +[64] chunk) (acc ++ part)
        end
      else Some (w, Some acc)
  end.

(** The checks shared by reads and writes: [Some (Some d)] when the range may
    be accessed. *)
Definition range_ok (d : BlockDevice) (offset size : Z) : option bool :=
  let block_size := logical_block_size d in
  if block_size =? 0 then None
  else
    let start_lba := offset / block_size in
    if 2 ^ 64 - 1 - (size - 1) <? offset then Some false
    else
      let end_lba := (offset + size - 1) / block_size in
      Some (negb (negb (total_blocks d =? 0) && ((total_blocks d <=? start_lba) || (total_blocks d <=? end_lba)))).

(** [mal1] and [mal2]: the result and the block buffer. *)
Definition DiskStream_Read (mal1 mal2 : bool) (w : W) (stream : option DiskStream) (offset size : Z) : option (W * option bytes) :=
  match open_device stream with
  | None => Some (w, None)
  | Some dev =>
      if size =? 0 then Some (w, None)
      else
        d ← dev;
        ok ← range_ok d offset size;
        if negb ok then Some (w, None)
        else if negb (mal1 && mal2) then Some (w, None)
        else read_loop (S (Z.to_nat size)) w d size 0 offset []
  end.

Definition diskstream_can_write (stream : option DiskStream) : bool :=
  match stream with
  | None => false
  | Some s =>
      isOpen s && negb (ds_readonly s) && is_block (device_type s) &&
      match ds_device s with
      | Some d => match d_ops d with Some o => has_write o | None => false end
      | None => false
      end
  end.

(** The loop of [DiskStream_Write]; it stops at the first failing transfer.
    The result is the number of bytes written. *)
Fixpoint write_loop (fuel : nat) (w : W) (d : BlockDevice) (src : bytes) (size written cur_offset : Z) : option (W * Z) :=
  match fuel with
  | O => None
  | S fuel =>
      if written <? size
      then
        let block_size := logical_block_size d in
        let lba := cur_offset / block_size in
        let intra := wrap size_bits (cur_offset mod block_size) in
        let remain := size - written in
        let chunk := block_size - intra in
        let chunk := if remain <? chunk then remain else chunk in
        part ← sub_bytes src written chunk;
        if (intra =? 0) && (chunk =? block_size)
        then
          let '(w, ok) := BlockDevice_Write w (Some d) lba 1 part in
          if ok then write_loop fuel w d src size (written + chunk) (cur_offset +[64] chunk) else Some (w, written)
        else
          let '(w, r) := BlockDevice_Read w (Some d) lba 1 in
          r ← into_buffer block_size r;
          match r with
          | None => Some (w, written)
          | Some block_buf =>
              block_buf ← put_bytes block_buf intra part;
              let '(w, ok) := BlockDevice_Write w (Some d) lba 1 block_buf in
              if ok then write_loop fuel w d src size (written + chunk) (cur_offset +[64] chunk) else Some (w, written)
          end
      else Some (w, written)
  end.

Definition DiskStream_Write (mal : bool) (w : W) (stream : option DiskStream) (offset : Z) (data : option bytes) (size : Z) : option W :=
  match stream with
  | None => Some w
  | Some s =>
      if negb (diskstream_can_write stream) then Some w
      else
        match data with
        | None => Some w
        | Some src =>
            if size =? 0 then Some w
            else
              d ← ds_device s;
              ok ← range_ok d offset size;
              if negb ok then Some w
              else if negb mal then Some w
              else
                x ← write_loop (S (Z.to_nat size)) w d src size 0 offset;
                Some (BlockDevice_Flush x.1 (Some d)).1
        end
  end.

Definition DiskStream_Wrtie8 (mal : bool) (w : W) (stream : option DiskStream) (offset value : Z) : option W :=
  DiskStream_Write mal w stream offset (Some (le_bytes 1 value)) 1.
Definition DiskStream_Wrtie16 (mal : bool) (w : W) (stream : option DiskStream) (offset value : Z) : option W :=
  DiskStream_Write mal w stream offset (Some (le_bytes 2 value)) 2.
Definition DiskStream_Wrtie32 (mal : bool) (w : W) (stream : option DiskStream) (offset value : Z) : option W :=
  DiskStream_Write mal w stream offset (Some (le_bytes 4 value)) 4.
Definition DiskStream_Wrtie64 (mal : bool) (w : W) (stream : option DiskStream) (offset value : Z) : option W :=
  DiskStream_Write mal w stream offset (Some (le_bytes 8 value)) 8.

(** The first [n] bytes of what was read as a number; 0 if nothing was. *)
Definition value_of (n : Z) (r : option (W * option bytes)) : option (W * Z) :=
  x ← r; match x.2 with None => Some (x.1, 0) | Some buf => v ← le_at n buf 0; Some (x.1, v) end.

Definition DiskStream_Read8 (mal1 mal2 : bool) (w : W) (stream : option DiskStream) (offset : Z) : option (W * Z) :=
  value_of 1 (DiskStream_Read mal1 mal2 w stream offset 1).
Definition DiskStream_Read16 (mal1 mal2 : bool) (w : W) (stream : option DiskStream) (offset : Z) : option (W * Z) :=
  value_of 2 (DiskStream_Read mal1 mal2 w stream offset 2).
Definition DiskStream_Read32 (mal1 mal2 : bool) (w : W) (stream : option DiskStream) (offset : Z) : option (W * Z) :=
  value_of 4 (DiskStream_Read mal1 mal2 w stream offset 4).
Definition DiskStream_Read64 (mal1 mal2 : bool) (w : W) (stream : option DiskStream) (offset : Z) : option (W * Z) :=
  value_of 8 (DiskStream_Read mal1 mal2 w stream offset 8).

End Ops.

(** The object is freed whether it was open or not. *)
Definition DiskStream_Destroy (stream : option DiskStream) : option DiskStream := None.

(** ** The bytes of a device *)

Section Spec.
Context `{A : Arch} {W : Type} `{!BlockDriver W} (d : BlockDevice) `{!DiskLaws d}.
Local Abbreviation bs := (logical_block_size d).

(** The byte at an offset of the device. *)
Definition disk_byte (w : W) (o : Z) : Z := nth (Z.to_nat (o mod bs)) (sector (d := d) w (o / bs)) 0.

Definition same_sectors (w w' : W) : Prop := forall i, sector (d := d) w' i = sector (d := d) w i.

Lemma same_bytes w w' : same_sectors w w' -> forall o, disk_byte w' o = disk_byte w o.
Proof. intros H o. unfold disk_byte. by rewrite H. Qed.

Lemma byte_at w lba i : 0 <= i < bs -> disk_byte w (lba * bs + i) = nth (Z.to_nat i) (sector (d := d) w lba) 0.
Proof.
  intros Hi. unfold disk_byte. rewrite Z.add_comm, Z.div_add, Z.mod_add by lia.
  by rewrite Z.div_small, Z.mod_small by lia.
Qed.

(** A sector is a slice of the device. *)
Lemma sector_bytes w lba : 0 <= lba < disk_size (d := d) -> sector (d := d) w lba = bslice (disk_byte w) (lba * bs) bs.
Proof.
  intros Hl. pose proof (sector_len (d := d) w lba Hl) as Hlen. rewrite (list_as_bslice (sector w lba)), Hlen.
  unfold bslice. apply list_fmap_ext. intros k i Hi. apply lookup_seqZ in Hi. rewrite byte_at by lia. by rewrite Z.add_0_l.
Qed.

(** Cutting a slice. *)
Lemma sub_bslice f o n i k : 0 <= i -> 0 <= k -> i + k <= n -> sub_bytes (bslice f o n) i k = Some (bslice f (o + i) k).
Proof.
  intros Hi Hk Hn. rewrite sub_bytes_ok by (rewrite ?zlen_bslice; lia). f_equal.
  replace n with (i + (k + (n - i - k))) by lia. rewrite !bslice_app by lia.
  pose proof (zlen_bslice f o i Hi). pose proof (zlen_bslice f (o + i) k Hk). unfold zlen in *.
  rewrite drop_app_length' by lia. by rewrite take_app_length' by lia.
Qed.

Lemma put_bslice f o n i part : 0 <= i -> i + zlen part <= n ->
  put_bytes (bslice f o n) i part = Some (bslice (fun x => if (o + i <=? x) && (x <? o + i + zlen part)
     then nth (Z.to_nat (x - (o + i))) part 0 else f x) o n).
Proof.
  intros Hi Hn. pose proof (zlen_nonneg part) as Hp. set (g := fun x => _). unfold put_bytes. rewrite zlen_bslice by lia.
  destruct (Z.leb_spec 0 i); [|lia]. destruct (Z.leb_spec (i + zlen part) n); [|lia]. cbn [andb]. f_equal.
  replace n with (i + (zlen part + (n - i - zlen part))) by lia. rewrite !bslice_app by lia.
  pose proof (zlen_bslice f o i Hi) as H1. pose proof (zlen_bslice f (o + i) (zlen part) Hp) as H2. unfold zlen in H1.
  rewrite take_app_length' by lia.
  rewrite (app_assoc (bslice f o i) (bslice f (o + i) (zlen part))), drop_app_length' by (unfold zlen in *; rewrite length_app; lia).
  f_equal; [|f_equal].
  - apply bslice_ext. intros x Hx. unfold g. destruct (Z.leb_spec (o + i) x); [lia|done].
  - rewrite (list_as_bslice part) at 1. unfold bslice. apply list_fmap_ext. intros k x Hx. apply lookup_seqZ in Hx.
    unfold g. destruct (Z.leb_spec (o + i) (o + i + x)); [|lia]. destruct (Z.ltb_spec (o + i + x) (o + i + zlen part)); [|lia].
    cbn [andb]. do 2 f_equal. lia.
  - apply bslice_ext. intros x Hx. unfold g. destruct (Z.ltb_spec x (o + i + zlen part)); [lia|]. by rewrite andb_false_r.
Qed.

(** One block, read or written through the table. *)
Lemma read_block w lba w' r : 0 <= lba < disk_size (d := d) -> BlockDevice_Read w (Some d) lba 1 = (w', r) ->
  same_sectors w w' /\ (r = None \/ r = Some (bslice (disk_byte w) (lba * bs) bs)).
Proof.
  intros Hl. cbn. destruct (d_ops d) as [o|]; [|intros [= <- <-]; split; [by intros i|by left]].
  destruct (has_read o); [|intros [= <- <-]; split; [by intros i|by left]]. intros Hr.
  destruct (drv_read_law (d := d) w lba 1 w' r) as [Hs Hb]; [lia|lia|lia|done|]. split; [done|]. destruct r as [b|]; [right|by left].
  f_equal. rewrite (Hb b eq_refl). change (seqZ lba 1) with [lba]. cbn. by rewrite app_nil_r, sector_bytes.
Qed.

Lemma write_block w lba buf w' ok : 0 <= lba < disk_size (d := d) -> zlen buf = bs -> BlockDevice_Write w (Some d) lba 1 buf = (w', ok) ->
  (forall i, i <> lba -> sector (d := d) w' i = sector (d := d) w i) /\ (ok = true -> bslice (disk_byte w') (lba * bs) bs = buf).
Proof.
  intros Hl Hb. cbn. destruct (d_ops d) as [o|]; [|by intros [= <- <-]]. destruct (has_write o); [|by intros [= <- <-]]. intros Hw.
  destruct (drv_write_law (d := d) w lba 1 buf w' ok) as [Hs Hok]; [lia|lia|lia|lia|done|]. split.
  - intros i Hi. apply Hs. lia.
  - intros ->. specialize (Hok eq_refl). change (seqZ lba 1) with [lba] in Hok. cbn in Hok.
    rewrite app_nil_r in Hok. by rewrite <- sector_bytes.
Qed.

Lemma wrap_intra o : wrap size_bits (o mod bs) = o mod bs.
Proof.
  pose proof (block_size_pos (d := d)) as Hb. apply wrap_small. pose proof (Z.mod_pos_bound o bs ltac:(lia)).
  assert (2 ^ 32 <= 2 ^ size_bits) by (unfold size_bits; destruct the_arch; cbn; lia). lia.
Qed.

(** The chunk at an offset, with [n] bytes to go: it stays in its block. *)
Lemma chunk_spec o n : 0 <= o -> 0 < n -> o + n <= disk_size (d := d) * bs ->
  let intra := o mod bs in let chunk := if n <? bs - intra then n else bs - intra in
  0 <= o / bs < disk_size (d := d) /\ 0 <= intra /\ 0 < chunk <= n /\ intra + chunk <= bs /\ o = o / bs * bs + intra.
Proof.
  intros Ho Hn Hd. cbv zeta. pose proof (block_size_pos (d := d)) as Hb. pose proof (Z.mod_pos_bound o bs ltac:(lia)).
  pose proof (Z.div_mod o bs ltac:(lia)). assert (0 <= o / bs) by (apply Z.div_pos; lia).
  assert (o / bs < disk_size (d := d)) by (apply Z.div_lt_upper_bound; lia).
  destruct (Z.ltb_spec n (bs - o mod bs)); split_and!; lia.
Qed.

(** ** Reading *)

Lemma read_loop_spec offset size : 0 <= offset -> offset + size <= disk_size (d := d) * bs -> offset + size <= 2 ^ 64 ->
  forall fuel w copied acc, 0 <= copied <= size -> size - copied < Z.of_nat fuel ->
  exists w' r, read_loop fuel w d size copied (wrap 64 (offset + copied)) acc = Some (w', r) /\ same_sectors w w' /\
    (r = None \/ r = Some (acc ++ bslice (disk_byte w) (offset + copied) (size - copied))) /\
    (reads_succeed d (disk_size (d := d)) -> (exists o, d_ops d = Some o /\ has_read o = true) -> r <> None).
Proof.
  intros Ho Hd H64. induction fuel as [|fuel IH]; intros w copied acc Hc Hf; [lia|]. cbn [read_loop].
  destruct (Z.ltb_spec copied size); cycle 1.
  { do 2 eexists. split; [done|]. split; [by intros i|]. split; [|done]. right. replace (size - copied) with 0 by lia.
    by rewrite app_nil_r. }
  rewrite (wrap_small 64 (offset + copied)) by lia. rewrite wrap_intra.
  destruct (chunk_spec (offset + copied) (size - copied)) as (Hl & Hi & Hch & Hbs & Heq); [lia..|].
  set (lba := (offset + copied) / bs) in *. set (intra := (offset + copied) mod bs) in *.
  set (chunk := if size - copied <? bs - intra then size - copied else bs - intra) in *.
  destruct (BlockDevice_Read w (Some d) lba 1) as [w1 r1] eqn:Er. destruct (read_block _ _ _ _ Hl Er) as [Hsame [-> | ->]].
  { do 2 eexists. split; [done|]. split; [done|]. split; [by left|]. intros Hrd (o & Hops & Hr) _. cbn in Er. rewrite Hops, Hr in Er.
    apply (Hrd w lba 1); [lia|lia|lia|by rewrite Er]. }
  cbn [into_buffer]. rewrite zlen_bslice, Z.leb_refl by lia. cbn [mbind option_bind]. rewrite sub_bslice by lia. cbn [mbind option_bind].
  rewrite <- Heq. replace ((offset + copied) +[64] chunk) with (wrap 64 (offset + (copied + chunk))) by (f_equal; lia).
  destruct (IH w1 (copied + chunk) (acc ++ bslice (disk_byte w) (offset + copied) chunk)) as (w' & r & Hl' & Hs' & Hr & Hok); [lia|lia|].
  exists w', r. split; [done|]. split; [intros i; by rewrite Hs', Hsame|]. split; [|done].
  destruct Hr as [-> | ->]; [by left|right]. rewrite <- app_assoc. do 2 f_equal.
  replace (size - copied) with (chunk + (size - (copied + chunk))) by lia. rewrite bslice_app by lia. f_equal.
  rewrite Z.add_assoc. apply bslice_ext. intros. by apply same_bytes.
Qed.

(** ** Writing *)

(** The bytes [part] laid over [f] from [o] on. *)
Definition overlay (f : Z -> Z) (o : Z) (part : bytes) (x : Z) : Z :=
  if (o <=? x) && (x <? o + zlen part) then nth (Z.to_nat (x - o)) part 0 else f x.

Lemma overlay_in f o part x : o <= x < o + zlen part -> overlay f o part x = nth (Z.to_nat (x - o)) part 0.
Proof. intros. unfold overlay. destruct (Z.leb_spec o x); [|lia]. destruct (Z.ltb_spec x (o + zlen part)); [done|lia]. Qed.

Lemma overlay_out f o part x : ~ (o <= x < o + zlen part) -> overlay f o part x = f x.
Proof. intros. unfold overlay. destruct (Z.leb_spec o x); [|done]. destruct (Z.ltb_spec x (o + zlen part)); [lia|done]. Qed.

Lemma block_of o lba : o / bs = lba <-> lba * bs <= o < lba * bs + bs.
Proof.
  pose proof (block_size_pos (d := d)). pose proof (Z.div_mod o bs ltac:(lia)). pose proof (Z.mod_pos_bound o bs ltac:(lia)).
  split; [intros <-; lia|]. intros Ho. symmetry. apply (Z.div_unique_pos o bs lba (o - lba * bs)); lia.
Qed.

(** A block is replaced; the rest of the device keeps its bytes. *)
Lemma write_block_bytes w lba g w' ok : 0 <= lba < disk_size (d := d) ->
  BlockDevice_Write w (Some d) lba 1 (bslice g (lba * bs) bs) = (w', ok) ->
  forall o, (o / bs <> lba -> disk_byte w' o = disk_byte w o) /\ (ok = true -> o / bs = lba -> disk_byte w' o = g o).
Proof.
  intros Hl Hw o. pose proof (block_size_pos (d := d)).
  assert (zlen (bslice g (lba * bs) bs) = bs) as Hlen by (apply zlen_bslice; lia).
  destruct (write_block w lba _ w' ok Hl Hlen Hw) as [Hout Hin]. split.
  - intros Ho. unfold disk_byte. by rewrite Hout.
  - intros -> Ho. apply block_of in Ho. by apply (bslice_inj _ _ (lba * bs) bs); [apply Hin|lia].
Qed.

Definition has_both : Prop := exists o, d_ops d = Some o /\ has_read o = true /\ has_write o = true.

(** One round of the loop, on either path: block [lba] gets [part] at [o]. *)
Lemma write_round w lba o intra part : 0 <= lba < disk_size (d := d) -> o = lba * bs + intra -> 0 <= intra ->
  intra + zlen part <= bs ->
  exists w' ok, (if (intra =? 0) && (zlen part =? bs)
     then Some (BlockDevice_Write w (Some d) lba 1 part)
     else let '(w1, r) := BlockDevice_Read w (Some d) lba 1 in
          r ← into_buffer bs r;
          match r with None => Some (w1, false)
          | Some b => b ← put_bytes b intra part; Some (BlockDevice_Write w1 (Some d) lba 1 b) end) = Some (w', ok) /\
    (forall x, (x / bs <> lba -> disk_byte w' x = disk_byte w x) /\
       (ok = true -> x / bs = lba -> disk_byte w' x = overlay (disk_byte w) o part x)) /\
    (has_both -> reads_succeed d (disk_size (d := d)) -> writes_succeed d (disk_size (d := d)) -> ok = true).
Proof.
  intros Hl -> Hi Hp. pose proof (block_size_pos (d := d)) as Hb.
  assert (forall w1 b w' ok, BlockDevice_Write w1 (Some d) lba 1 b = (w', ok) -> has_both -> writes_succeed d (disk_size (d := d)) -> ok = true) as Hwok.
  { intros w1 b w' ok Hw (o & Ho & _ & Hwr) Hws. cbn in Hw. rewrite Ho, Hwr in Hw. specialize (Hws w1 lba 1 b). rewrite Hw in Hws. apply Hws; lia. }
  destruct ((intra =? 0) && (zlen part =? bs)) eqn:E.
  - apply andb_true_iff in E as [->%Z.eqb_eq E2%Z.eqb_eq].
    assert (part = bslice (overlay (disk_byte w) (lba * bs + 0) part) (lba * bs) bs) as Heq.
    { rewrite (list_as_bslice part) at 1. rewrite E2. unfold bslice. apply list_fmap_ext. intros k x Hx. apply lookup_seqZ in Hx.
      rewrite overlay_in by lia. do 2 f_equal. lia. }
    destruct (BlockDevice_Write w (Some d) lba 1 part) as [w' ok] eqn:Hw. exists w', ok. split; [done|]. split; [|eauto].
    rewrite Heq in Hw. by apply write_block_bytes.
  - clear E. destruct (BlockDevice_Read w (Some d) lba 1) as [w1 r] eqn:Er. destruct (read_block _ _ _ _ Hl Er) as [Hsame [-> | ->]].
    { exists w1, false. split; [done|]. split.
      - intros x. split; [intros _; by apply same_bytes|done].
      - intros (o & Ho & Hrd & _) Hr _. exfalso. cbn in Er. rewrite Ho, Hrd in Er. apply (Hr w lba 1); [lia|lia|lia|by rewrite Er]. }
    cbn [into_buffer]. rewrite zlen_bslice, Z.leb_refl by lia. cbn [mbind option_bind]. rewrite put_bslice by lia. cbn [mbind option_bind].
    fold (overlay (disk_byte w) (lba * bs + intra) part). set (g := overlay (disk_byte w) (lba * bs + intra) part).
    change (bslice _ (lba * bs) bs) with (bslice g (lba * bs) bs).
    destruct (BlockDevice_Write w1 (Some d) lba 1 (bslice g (lba * bs) bs)) as [w' ok] eqn:Hw.
    exists w', ok. split; [done|]. split; [|eauto]. intros x.
    destruct (write_block_bytes _ _ _ _ _ Hl Hw x) as [H1 H2]. split; [|done]. intros Hx. by rewrite H1, (same_bytes w w1).
Qed.

(** The round of [write_loop] as a step of its own. *)
Definition round (w : W) (lba intra : Z) (part : bytes) : option (W * bool) :=
  if (intra =? 0) && (zlen part =? bs)
  then Some (BlockDevice_Write w (Some d) lba 1 part)
  else let '(w1, r) := BlockDevice_Read w (Some d) lba 1 in
       r ← into_buffer bs r;
       match r with None => Some (w1, false)
       | Some b => b ← put_bytes b intra part; Some (BlockDevice_Write w1 (Some d) lba 1 b) end.

Lemma write_loop_unfold fuel w src size written cur : written < size ->
  let intra := wrap size_bits (cur mod bs) in
  let chunk := if size - written <? bs - intra then size - written else bs - intra in
  write_loop (S fuel) w d src size written cur =
    part ← sub_bytes src written chunk;
    x ← round w (cur / bs) intra part;
    if x.2 : bool then write_loop fuel x.1 d src size (written + chunk) (cur +[64] chunk) else Some (x.1, written).
Proof.
  intros Hlt intra chunk. cbn [write_loop]. destruct (Z.ltb_spec written size); [|lia]. fold intra. fold chunk.
  destruct (sub_bytes src written chunk) as [part|] eqn:Ep; [|done]. cbn [mbind option_bind].
  apply sub_bytes_spec in Ep as (_ & _ & _ & Hlen & _). unfold round. rewrite Hlen. destruct ((intra =? 0) && (chunk =? bs)).
  - by destruct (BlockDevice_Write _ _ _ _ _) as [w' []].
  - destruct (BlockDevice_Read _ _ _ _) as [w1 r]. destruct (into_buffer bs r) as [[b|]|]; [|done..]. cbn [mbind option_bind].
    destruct (put_bytes b intra part); [|done]. cbn [mbind option_bind]. by destruct (BlockDevice_Write _ _ _ _ _) as [w' []].
Qed.

(** Byte [x] after a write of which the bytes from [o1] to [o2] arrived. *)
Definition arrived (src : bytes) (offset o1 o2 : Z) (w w' : W) (failed : Prop) : Prop :=
  forall x, (o1 <= x < o2 -> disk_byte w' x = nth (Z.to_nat (x - offset)) src 0) /\
    (~ (o1 <= x < o2) -> ~ (failed /\ x / bs = o2 / bs) -> disk_byte w' x = disk_byte w x).

Lemma write_loop_spec offset src size : 0 <= offset -> offset + size <= disk_size (d := d) * bs -> offset + size <= 2 ^ 64 ->
  size <= zlen src -> forall fuel w written, 0 <= written <= size -> size - written < Z.of_nat fuel ->
  exists w' n, write_loop fuel w d src size written (wrap 64 (offset + written)) = Some (w', n) /\ written <= n <= size /\
    arrived src offset (offset + written) (offset + n) w w' (n < size) /\
    (has_both -> reads_succeed d (disk_size (d := d)) -> writes_succeed d (disk_size (d := d)) -> n = size).
Proof.
  intros Ho Hd H64 Hsrc. induction fuel as [|fuel IH]; intros w written Hw Hf; [lia|]. destruct (Z.lt_ge_cases written size) as [Hlt|]; cycle 1.
  { cbn [write_loop]. destruct (Z.ltb_spec written size); [lia|]. exists w, written. split; [done|]. split; [lia|]. split; [|lia].
    intros x. split; [lia|done]. }
  rewrite write_loop_unfold, (wrap_small 64 (offset + written)), wrap_intra by lia.
  destruct (chunk_spec (offset + written) (size - written)) as (Hl & Hi & Hch & Hbs & Heq); [lia..|].
  set (lba := (offset + written) / bs) in *. set (intra := (offset + written) mod bs) in *.
  set (chunk := if size - written <? bs - intra then size - written else bs - intra) in *.
  rewrite sub_bytes_ok by lia. set (part := take (Z.to_nat chunk) (drop (Z.to_nat written) src)). cbn [mbind option_bind].
  assert (zlen part = chunk) as Hpart by (unfold part; rewrite zlen_take, zlen_drop by lia; lia).
  destruct (write_round w lba (offset + written) intra part) as (w1 & ok & Hr & Hbytes & Hok); [done|done|done|lia|].
  fold (round w lba intra part) in Hr. rewrite Hr. cbn [mbind option_bind fst snd]. destruct ok; cycle 1.
  { exists w1, written. split; [done|]. split; [lia|]. split; [|intros; by discriminate Hok].
    intros x. split; [lia|]. intros _ Hx. apply Hbytes. intros E. apply Hx. by rewrite E. }
  replace ((offset + written) +[64] chunk) with (wrap 64 (offset + (written + chunk))) by (f_equal; lia).
  destruct (IH w1 (written + chunk)) as (w' & n & Hlp & Hn & Harr & Hall); [lia|lia|]. exists w', n. split; [done|]. split; [lia|].
  split; [|done]. intros x. destruct (Harr x) as [H1 H2]. destruct (Hbytes x) as [Hb1 Hb2].
  assert (n < size -> (offset + n) / bs <> lba) as Hfar.
  { intros Hns E. apply block_of in E. unfold chunk in *. destruct (Z.ltb_spec (size - written) (bs - intra)); lia. }
  split.
  - intros Hx. destruct (Z.lt_ge_cases x (offset + (written + chunk))) as [Hc|]; [|apply H1; lia].
    assert (x / bs = lba) as Hxl by (apply block_of; lia).
    rewrite H2, Hb2, overlay_in; [|lia|done|done|lia|rewrite Hxl; intros [Hns E]; by apply (Hfar Hns)].
    unfold part. rewrite nth_lookup, lookup_take_lt, lookup_drop, <- nth_lookup by lia. f_equal. lia.
  - intros Hx Hf'. rewrite H2; [|lia|done]. destruct (Z.eq_dec (x / bs) lba) as [E|E]; [|by apply Hb1].
    rewrite Hb2, overlay_out by (done || lia). done.
Qed.

(** ** The interface *)

Definition opened (ro : bool) : option DiskStream := Some (mkDiskStream (Some d) DISKSTREAM_DEVICE_BLOCK true ro).

(** The range lies on the device and in the address space of offsets. *)
Definition on_disk (offset size : Z) : Prop := offset + size <= disk_size (d := d) * bs /\ offset + size <= 2 ^ 64.

Lemma range_ok_spec offset size : 0 <= offset -> 0 < size -> exists b, range_ok d offset size = Some b /\
  (on_disk offset size -> b = true) /\ (total_blocks d <> 0 -> b = true -> on_disk offset size).
Proof.
  intros Ho Hs. pose proof (block_size_pos (d := d)) as Hb. unfold range_ok, on_disk. destruct (Z.eqb_spec bs 0); [lia|].
  destruct (Z.ltb_spec (2 ^ 64 - 1 - (size - 1)) offset); [exists false; split; [done|split; [lia|done]]|].
  eexists. split; [done|]. pose proof (Z.div_mod (offset + size - 1) bs ltac:(lia)). pose proof (Z.mod_pos_bound (offset + size - 1) bs ltac:(lia)).
  pose proof (Z.div_le_mono offset (offset + size - 1) bs ltac:(lia) ltac:(lia)).
  destruct (total_blocks_size (d := d)) as [->|Ht]; [done|]. rewrite Ht.
  destruct (Z.eqb_spec (disk_size (d := d)) 0) as [E|_]; [split; [done|lia]|]. cbn [negb andb].
  destruct (Z.leb_spec (disk_size (d := d)) (offset / bs)), (Z.leb_spec (disk_size (d := d)) ((offset + size - 1) / bs));
    cbn [orb negb]; (split; [intros []; first [done|exfalso; nia]|intros _ H'; first [done|split; [nia|lia]]]).
Qed.

Lemma DiskStream_Read_ok mal1 mal2 w ro offset size : 0 <= offset -> 0 < size -> on_disk offset size ->
  exists w' r, DiskStream_Read mal1 mal2 w (opened ro) offset size = Some (w', r) /\ same_sectors w w' /\
    (r = None \/ r = Some (bslice (disk_byte w) offset size)) /\
    (mal1 && mal2 = true -> reads_succeed d (disk_size (d := d)) -> (exists o, d_ops d = Some o /\ has_read o = true) -> r <> None).
Proof.
  intros Ho Hs [Hd H64]. unfold DiskStream_Read, opened. cbn [open_device isOpen is_block device_type ds_device andb mbind option_bind].
  destruct (Z.eqb_spec size 0); [lia|]. destruct (range_ok_spec offset size Ho Hs) as (b & -> & Hin & _).
  rewrite Hin by done. cbn [mbind option_bind negb]. destruct (mal1 && mal2); cbn [negb].
  - destruct (read_loop_spec offset size Ho Hd H64 (S (Z.to_nat size)) w 0 []) as (w' & r & Hr & Hsm & Hb & Hok); [lia|lia|].
    rewrite Z.add_0_r, Z.sub_0_r, wrap_small in * by lia. cbn [app] in *. exists w', r. split; [done|]. split; [done|]. by split; [|intros _].
  - exists w, None. split; [done|]. split; [by intros i|]. split; [by left|done].
Qed.

Lemma DiskStream_Write_ok mal w offset data size : 0 <= offset -> 0 < size <= zlen data -> on_disk offset size ->
  exists w' n, DiskStream_Write mal w (opened false) offset (Some data) size = Some w' /\ 0 <= n <= size /\
    arrived data offset offset (offset + n) w w' (n < size) /\
    (mal = true -> has_both -> reads_succeed d (disk_size (d := d)) -> writes_succeed d (disk_size (d := d)) -> n = size).
Proof.
  intros Ho Hs [Hd H64]. unfold DiskStream_Write, opened.
  cbn [diskstream_can_write isOpen ds_readonly is_block device_type ds_device andb negb mbind option_bind].
  assert (exists w' n, Some w = Some w' /\ 0 <= n <= size /\ arrived data offset offset (offset + n) w w' (n < size) /\ n = 0) as (w0 & n0 & Hw0 & Hn0 & Ha0 & Hz0).
  { exists w, 0. split; [done|]. split; [lia|]. split; [|done]. intros x. split; [lia|done]. }
  destruct (match d_ops d with Some o => has_write o | None => false end) eqn:Eo; cbn [negb andb]; cycle 1.
  { exists w0, n0. split; [done|]. split; [done|]. split; [done|]. intros _ (o & E1 & _ & E2). rewrite E1 in Eo. congruence. }
  destruct (Z.eqb_spec size 0) as [|Hs0]; [lia|]. destruct (range_ok_spec offset size Ho ltac:(lia)) as (b & -> & Hin & _).
  rewrite Hin by done. cbn [mbind option_bind negb]. destruct mal; cbn [negb]; [|by exists w0, n0].
  destruct (write_loop_spec offset data size Ho Hd H64 ltac:(lia) (S (Z.to_nat size)) w 0) as (w' & n & Hr & Hn & Harr & Hok); [lia|lia|].
  rewrite Z.add_0_r, wrap_small in * by lia. rewrite Hr. cbn [mbind option_bind fst].
  destruct (BlockDevice_Flush w' (Some d)) as [w'' fl] eqn:Ef. exists w'', n. split; [done|]. split; [lia|]. split; [|by intros _].
  assert (same_sectors w' w'') as Hfl.
  { cbn in Ef. destruct (d_ops d) as [o|]; [|by injection Ef as <- _]. destruct (has_flush o); [|by injection Ef as <- _].
    intros i. by eapply drv_flush_law. }
  intros x. destruct (Harr x) as [H1 H2]. rewrite (same_bytes _ _ Hfl). done.
Qed.

(** C16.  [DiskStream_Read] on an open stream.  A range that leaves the device
    or the 64-bit offsets is refused without an access when the size of the
    device is known.  A range on the device gives either a failure or exactly
    the bytes of the range, whatever its alignment and the number of blocks it
    touches, and leaves every sector alone; it fails only if memory or the
    device does. *)
Theorem DiskStream_Read_spec mal1 mal2 w ro offset size : 0 <= offset -> 0 < size ->
  (total_blocks d <> 0 -> ~ on_disk offset size -> DiskStream_Read mal1 mal2 w (opened ro) offset size = Some (w, None)) /\
  (on_disk offset size ->
   exists w' r, DiskStream_Read mal1 mal2 w (opened ro) offset size = Some (w', r) /\ same_sectors w w' /\
     (r = None \/ r = Some (bslice (disk_byte w) offset size)) /\
     (mal1 && mal2 = true -> reads_succeed d (disk_size (d := d)) -> (exists o, d_ops d = Some o /\ has_read o = true) -> r <> None)).
Proof.
  intros Ho Hs. split; [|by apply DiskStream_Read_ok]. intros Ht Hn. unfold DiskStream_Read, opened.
  cbn [open_device isOpen is_block device_type ds_device andb mbind option_bind]. destruct (Z.eqb_spec size 0); [lia|].
  destruct (range_ok_spec offset size Ho Hs) as (b & -> & _ & Hout). destruct b; [|done]. by destruct Hn; apply Hout.
Qed.

(** C17.  [DiskStream_Write] on a writable stream, for a range on the device:
    the first [n] bytes of the data arrive at their offsets; every other byte
    of the device keeps its value, the block whose transfer failed (if [n] is
    less than the size) excepted.  On a device that does not fail all bytes
    arrive.  A stream opened read-only changes nothing. *)
Theorem DiskStream_Write_spec mal w offset data size : 0 <= offset -> 0 < size <= zlen data -> on_disk offset size ->
  DiskStream_Write mal w (opened true) offset (Some data) size = Some w /\
  exists w' n, DiskStream_Write mal w (opened false) offset (Some data) size = Some w' /\ 0 <= n <= size /\
    arrived data offset offset (offset + n) w w' (n < size) /\
    (mal = true -> has_both -> reads_succeed d (disk_size (d := d)) -> writes_succeed d (disk_size (d := d)) -> n = size).
Proof. intros. split; [done|]. by apply DiskStream_Write_ok. Qed.

(** Storing [k] bytes of a value and reading [k] bytes back. *)
Lemma value_roundtrip (k : nat) w offset v : 0 <= offset -> (0 < k)%nat -> on_disk offset (Z.of_nat k) -> has_both ->
  reads_succeed d (disk_size (d := d)) -> writes_succeed d (disk_size (d := d)) ->
  exists w' w'', DiskStream_Write true w (opened false) offset (Some (le_bytes k v)) (Z.of_nat k) = Some w' /\
    value_of (Z.of_nat k) (DiskStream_Read true true w' (opened false) offset (Z.of_nat k)) = Some (w'', v mod 256 ^ Z.of_nat k).
Proof.
  intros Ho Hk Hd Hb Hr Hw. pose proof (zlen_le_bytes k v) as Hlen.
  destruct (DiskStream_Write_ok true w offset (le_bytes k v) (Z.of_nat k) Ho ltac:(lia) Hd) as (w' & n & Hw1 & Hn & Harr & Hok).
  rewrite Hok in * by done.
  destruct (DiskStream_Read_ok true true w' false offset (Z.of_nat k) Ho ltac:(lia) Hd) as (w2 & r & Hrd & _ & Hres & Hne).
  destruct Hb as (o & H1 & H2 & _). destruct Hres as [->| ->]; [exfalso; apply Hne; eauto|]. exists w', w2. split; [done|]. rewrite Hrd. unfold value_of. cbn [mbind option_bind fst snd].
  unfold le_at. rewrite <- (Z.add_0_r offset), sub_bslice by lia. cbn [mbind option_bind]. do 2 f_equal.
  rewrite <- le_le_bytes. f_equal. rewrite (list_as_bslice (le_bytes k v)), Hlen. rewrite !Z.add_0_r.
  unfold bslice. apply list_fmap_ext. intros j x Hx. apply lookup_seqZ in Hx.
  rewrite (proj1 (Harr (offset + x))) by lia. do 2 f_equal. lia.
Qed.

(** What the [Wrtie] functions store is what the [Read] functions of the
    same width return, at every offset of a device that does not fail: block
    boundaries inside the value included. *)
Theorem DiskStream_value_roundtrip w offset v : 0 <= offset -> on_disk offset 8 -> has_both ->
  reads_succeed d (disk_size (d := d)) -> writes_succeed d (disk_size (d := d)) ->
  (exists w' w'', DiskStream_Wrtie8 true w (opened false) offset v = Some w' /\
     DiskStream_Read8 true true w' (opened false) offset = Some (w'', v mod 2 ^ 8)) /\
  (exists w' w'', DiskStream_Wrtie16 true w (opened false) offset v = Some w' /\
     DiskStream_Read16 true true w' (opened false) offset = Some (w'', v mod 2 ^ 16)) /\
  (exists w' w'', DiskStream_Wrtie32 true w (opened false) offset v = Some w' /\
     DiskStream_Read32 true true w' (opened false) offset = Some (w'', v mod 2 ^ 32)) /\
  (exists w' w'', DiskStream_Wrtie64 true w (opened false) offset v = Some w' /\
     DiskStream_Read64 true true w' (opened false) offset = Some (w'', v mod 2 ^ 64)).
Proof.
  intros Ho [Hd H64] Hb Hr Hw. split_and!; [apply (value_roundtrip 1)|apply (value_roundtrip 2)|apply (value_roundtrip 4)|apply (value_roundtrip 8)];
    try done; try lia; split; lia.
Qed.
End Spec.

(** ** A disk in memory *)

Section Example.
#[local] Instance disk_example_arch : Arch := I386.

(** Three blocks of four bytes. *)
Definition small_disk : BlockDevice := mkBlockDevice None BLKDEV_TYPE_VIRTUAL 4 3 (Some (mkBlockOps true true false)) 0.

#[local] Instance small_laws : DiskLaws (W := gmap Z bytes) small_disk := MemDisk.mem_laws small_disk ltac:(cbn; lia) ltac:(cbn; lia).

Definition small_state : gmap Z bytes := {[ 0 := [1; 2; 3; 4]; 1 := [5; 6; 7; 8]; 2 := [9; 10; 11; 12] ]}.

Lemma DiskStream_Read_spec_witness :
  exists w' r, DiskStream_Read true true small_state (opened small_disk true) 3 6 = Some (w', r) /\ same_sectors small_disk small_state w' /\
     (r = None \/ r = Some [4; 5; 6; 7; 8; 9]) /\
     (true && true = true -> reads_succeed small_disk 3 -> (exists o, d_ops small_disk = Some o /\ has_read o = true) -> r <> None).
Proof.
  refine (proj2 (DiskStream_Read_spec small_disk true true small_state true 3 6 _ _) _); [lia|lia|]. split; cbn; lia.
Defined.

Lemma DiskStream_Write_spec_witness :
  DiskStream_Write true small_state (opened small_disk true) 3 (Some [20; 21; 22; 23; 24; 25]) 6 = Some small_state /\
  exists w' n, DiskStream_Write true small_state (opened small_disk false) 3 (Some [20; 21; 22; 23; 24; 25]) 6 = Some w' /\ 0 <= n <= 6 /\
    arrived small_disk [20; 21; 22; 23; 24; 25] 3 3 (3 + n) small_state w' (n < 6) /\
    (true = true -> has_both small_disk -> reads_succeed small_disk (disk_size (d := small_disk)) ->
     writes_succeed small_disk (disk_size (d := small_disk)) -> n = 6).
Proof.
  apply (DiskStream_Write_spec small_disk true small_state 3 [20; 21; 22; 23; 24; 25] 6); [lia|unfold zlen; cbn; lia|]. split; cbn; lia.
Defined.

Lemma DiskStream_value_roundtrip_witness :
  exists w' w'', DiskStream_Wrtie32 true small_state (opened small_disk false) 2 305419896 = Some w' /\
     DiskStream_Read32 true true w' (opened small_disk false) 2 = Some (w'', 305419896 mod 2 ^ 32).
Proof.
  refine (proj1 (proj2 (proj2 (DiskStream_value_roundtrip small_disk small_state 2 305419896 _ _ _ _ _)))).
  - lia.
  - split; cbn; lia.
  - by exists (mkBlockOps true true false).
  - apply MemDisk.mem_reads.
  - apply MemDisk.mem_writes.
Defined.
End Example.
