(* ===== verification/DiskRead.v ===== *)
(** * Reading sectors

    The monad of code that reads devices and allocates, and what a read of
    whole sectors gives when the device does not fail: the bytes of the
    device. *)

From S2P Require Import Prelude Bytes BlockDevice DiskStream.

(** The drivers' state and the clock. *)
Abbreviation io W := (st (W * nat)).

Definition io_malloc {W} (mal : nat -> bool) : io W bool := fun s => Some (s.1, S s.2, mal s.2).

(** [count] sectors from [lba] on into a buffer of [cap] bytes *)
Definition io_read {W} `{!BlockDriver W} (dev : option BlockDevice) (lba count cap : Z) : io W (option bytes) := fun s =>
  let '(w, r) := BlockDevice_Read s.1 dev lba count in r ← into_buffer cap r; Some ((w, s.2), r).

Lemma into_buffer_fits cap b : zlen b <= cap -> into_buffer cap (Some b) = Some (Some b).
Proof. intros H. cbn. by destruct (Z.leb_spec (zlen b) cap); [|lia]. Qed.

Section Sectors.
Context {W : Type} `{!BlockDriver W} (d : BlockDevice) `{!DiskLaws d}.

Local Abbreviation bs := (logical_block_size d).
Local Abbreviation same := (same_sectors d).

Lemma disk_bytes_concat w lba n : 0 <= lba -> lba + Z.of_nat n <= disk_size (d := d) ->
  concat (sector (d := d) w <$> seqZ lba (Z.of_nat n)) = bslice (disk_byte d w) (lba * bs) (Z.of_nat n * bs).
Proof.
  pose proof (block_size_pos (d := d)). revert lba. induction n as [|n IH]; intros lba Hl Hn; [done|].
  rewrite Nat2Z.inj_succ, seqZ_cons, fmap_cons by lia. cbn [concat]. rewrite Z.pred_succ, <- Z.add_1_r, IH by lia.
  rewrite sector_bytes by lia. replace (Z.succ (Z.of_nat n) * bs) with (bs + Z.of_nat n * bs) by lia.
  rewrite bslice_app by lia. do 2 f_equal. lia.
Qed.

Lemma same_refl w : same w w.
Proof. by intros i. Qed.

Lemma same_trans w1 w2 w3 : same w1 w2 -> same w2 w3 -> same w1 w3.
Proof. intros H1 H2 i. by rewrite H2, H1. Qed.

Hypothesis Hreads : reads_succeed d (disk_size (d := d)).
Hypothesis Hops : exists o, d_ops d = Some o /\ has_read o = true.

Lemma device_read w lba n : 0 <= lba -> 0 < n -> lba + n <= disk_size (d := d) ->
  exists w', BlockDevice_Read w (Some d) lba n = (w', Some (bslice (disk_byte d w) (lba * bs) (n * bs))) /\ same w w'.
Proof.
  intros Hl Hn Hd. cbn. destruct Hops as (o & -> & ->). destruct (drv_read w d lba n) as [w' r] eqn:E.
  pose proof (Hreads w lba n Hl Hn Hd) as Hr. rewrite E in Hr. destruct r as [b|]; [|done].
  destruct (drv_read_law (d := d) w lba n w' _ Hl Hn Hd E) as [Hs Hb]. exists w'. split; [|done].
  rewrite (Hb b eq_refl). pose proof (disk_bytes_concat w lba (Z.to_nat n)) as Hc. rewrite Z2Nat.id in Hc by lia. by rewrite Hc by lia.
Qed.

Lemma io_read_run w t lba n cap : 0 <= lba -> 0 < n -> lba + n <= disk_size (d := d) -> n * bs <= cap ->
  exists w', io_read (Some d) lba n cap (w, t) = Some ((w', t), Some (bslice (disk_byte d w) (lba * bs) (n * bs))) /\ same w w'.
Proof.
  intros Hl Hn Hd Hc. destruct (device_read w lba n Hl Hn Hd) as (w' & E & Hw). exists w'. split; [|done]. pose proof (block_size_pos (d := d)).
  unfold io_read. cbn [fst snd]. rewrite E, into_buffer_fits by (rewrite zlen_bslice; nia). done.
Qed.

End Sectors.
