(* ===== verification/Volume.v ===== *)
(** * Volumes and partition tables ([kernel/storage/VolumeManager.c], [Volume.h])

    The volume list, the scan of MBR and GPT partition tables, and sector
    access through a volume.  Names are byte strings with their terminator.
    The state holds the volume list, the device registry, the drivers and a
    clock: [mal k] tells whether the [k]-th allocation succeeds.  [None] is
    undefined behaviour.  Log output is not modelled. *)

From S2P Require Import Prelude Bytes CString Convert BlockDevice DiskStream.

Inductive VolumeType := VOLUME_TYPE_WHOLE_DEVICE | VOLUME_TYPE_MBR_PARTITION | VOLUME_TYPE_GPT_PARTITION.

Record Volume := mkVolume {
  v_name : option bytes;
  v_type : VolumeType;
  v_device : option BlockDevice;
  start_lba : Z;
  block_count : Z;
  v_block_size : Z;
  mbr_type : Z;
  attributes : Z;
  type_guid : bytes;
  unique_guid : bytes
}.

(** Field offsets of the packed structures. *)
Definition MBR_entry_at (i : Z) : Z := 446 + 16 * i.
Definition MBR_type : Z := 4.
Definition MBR_first_lba : Z := 8.
Definition MBR_sector_count : Z := 12.

Definition GPT_entry_lba : Z := 72.
Definition GPT_entry_count : Z := 80.
Definition GPT_entry_size : Z := 84.

Definition sizeof_GPTPartitionEntry : Z := 128.

(** ["EFI PART"], ["block"], ["disk"], ["p"] *)
Definition EFI_PART : bytes := [69; 70; 73; 32; 80; 65; 82; 84].
Definition str_block : bytes := cstr [98; 108; 111; 99; 107].
Definition str_disk : bytes := cstr [100; 105; 115; 107].
Definition str_p : bytes := cstr [112].

Record VolumeManager (W : Type) := mkVM {
  s_initialized : bool;
  s_volumes : option (list Volume);
  s_devices : option (list BlockDevice);
  vm_clock : nat;
  vm_drivers : W
}.
Arguments mkVM {W}.
Arguments s_initialized {W}.
Arguments s_volumes {W}.
Arguments s_devices {W}.
Arguments vm_clock {W}.
Arguments vm_drivers {W}.

Section Ops.
Context `{A : Arch} {W : Type} `{!BlockDriver W} (mal : nat -> bool).
Implicit Types vm : VolumeManager W.

(** One call of [malloc]. *)
Definition vm_malloc vm : VolumeManager W * bool :=
  (mkVM (s_initialized vm) (s_volumes vm) (s_devices vm) (S (vm_clock vm)) (vm_drivers vm), mal (vm_clock vm)).

Definition set_volumes vm (vs : option (list Volume)) : VolumeManager W :=
  mkVM (s_initialized vm) vs (s_devices vm) (vm_clock vm) (vm_drivers vm).

Definition volume_manager_ensure_init vm : VolumeManager W :=
  if s_initialized vm then vm
  else
    let '(vm, ok) := match s_devices vm with None => vm_malloc vm | Some _ => (vm, true) end in
    let reg := BlockDevice_InitRegistry ok (s_devices vm) in
    let '(vm, ok) := vm_malloc vm in
    if ok then mkVM true (Some []) reg (vm_clock vm) (vm_drivers vm)
    else mkVM false None reg (vm_clock vm) (vm_drivers vm).

(** [strdup] of a string object. *)
Definition vm_strdup vm (s : bytes) : option (VolumeManager W * bytes) :=
  let '(vm, ok) := vm_malloc vm in n ← strdup (Some s) ok; Some (vm, n).

Definition volume_allocate vm (device : option BlockDevice) (type : VolumeType) (name : option bytes)
  (start blocks bs : Z) : option (VolumeManager W * option Volume) :=
  let '(vm, ok) := vm_malloc vm in
  if negb ok then Some (vm, None)
  else
    let volume n := mkVolume n type device start blocks bs 0 0 (zeros 16) (zeros 16) in
    match name with
    | Some s => x ← vm_strdup vm s; Some (x.1, Some (volume (Some x.2)))
    | None => Some (vm, Some (volume None))
    end.

(** Every volume of the list is removed and freed. *)
Definition volume_manager_clear vm : VolumeManager W :=
  match s_volumes vm with None => vm | Some _ => set_volumes vm (Some []) end.

(** [buffer_len] is the size of the array; every byte of it is written. *)
Definition volume_base_name (device : option BlockDevice) (buffer : bytes) (index : Z) : option bytes :=
  let dev_name := match device with Some d => default str_block (d_name d) | None => str_block end in
  buffer ← store buffer 0 0;
  b ← strncpy (Some buffer) (Some dev_name) (zlen buffer - 1);
  buffer ← b;
  buffer ← store buffer (zlen buffer - 1) 0;
  if index =? SIZE_MAX then Some buffer
  else
    b ← strcat (Some buffer) (Some str_p);
    idx_buf ← utoa [] (wrap 32 index) (Some (zeros 16)) 10;
    b ← strcat b idx_buf;
    b.

Definition volume_manager_add vm (volume : Volume) : VolumeManager W :=
  match s_volumes vm with
  | None => vm
  | Some vs => let '(vm, ok) := vm_malloc vm in if ok then set_volumes vm (Some (vs ++ [volume])) else vm
  end.

Definition volume_read_device vm (device : option BlockDevice) (lba count : Z) : VolumeManager W * option bytes :=
  let '(w, r) := BlockDevice_Read (vm_drivers vm) device lba count in
  (mkVM (s_initialized vm) (s_volumes vm) (s_devices vm) (vm_clock vm) w, r).

(** The loop of [gpt_decode_name]: characters of [out] in reverse. *)
Fixpoint decode_name_loop (name : list Z) (out_len pos : Z) (out : bytes) : bytes :=
  match name with
  | [] => out
  | ch :: name =>
      if negb (ch =? 0) && (pos + 1 <? out_len)
      then decode_name_loop name out_len (pos + 1) (out ++ [if ch <? 128 then ch else 63]) else out
  end.

Definition gpt_decode_name (name : list Z) (out_len : Z) : option bytes :=
  if out_len =? 0 then None else Some (cstr (decode_name_loop name out_len 0 [])).

Definition is_zero (b : Z) : bool := b =? 0.

(** [volume->name = strdup(base_buf)] and the rest of the registration of a
    partition; [update] sets the fields that depend on the kind of table. *)
Definition register_partition vm (device : option BlockDevice) (index : Z) (volume : Volume) : option (VolumeManager W) :=
  base_buf ← volume_base_name device (zeros 64) index;
  x ← vm_strdup vm base_buf;
  Some (volume_manager_add x.1
    (mkVolume (Some x.2) (v_type volume) (v_device volume) (start_lba volume) (block_count volume) (v_block_size volume)
              (mbr_type volume) (attributes volume) (type_guid volume) (unique_guid volume))).

(** The body of the loop over the GPT entries: [part] is [partition_index]. *)
Definition scan_gpt_entry vm (device : option BlockDevice) (bs : Z) (entries : bytes) (entry_size i part : Z)
  : option (VolumeManager W * Z) :=
  let entry := i *[size_bits] entry_size in
  tguid ← sub_bytes entries entry 16;
  if forallb is_zero tguid then Some (vm, part)
  else
    first_lba ← le_at 8 entries (entry + 32);
    last_lba ← le_at 8 entries (entry + 40);
    if last_lba <? first_lba then Some (vm, part)
    else
      let blocks := wrap 64 (last_lba - first_lba + 1) in
      if blocks =? 0 then Some (vm, part)
      else
        x ← volume_allocate vm device VOLUME_TYPE_GPT_PARTITION None first_lba blocks bs;
        match x.2 with
        | None => Some (x.1, part)
        | Some volume =>
            uguid ← sub_bytes entries (entry + 16) 16;
            attrs ← le_at 8 entries (entry + 48);
            let volume := mkVolume (v_name volume) (v_type volume) (v_device volume) (start_lba volume) (block_count volume)
                                   (v_block_size volume) 238 attrs tguid uguid in
            vm ← register_partition x.1 device part volume;
            Some (vm, part +[size_bits] 1)
        end.

(** [n] entries are left, from entry [i] on. *)
Fixpoint scan_gpt_loop (n : nat) vm (device : option BlockDevice) (bs : Z) (entries : bytes) (entry_size i part : Z)
  : option (VolumeManager W) :=
  match n with
  | O => Some vm
  | S n => x ← scan_gpt_entry vm device bs entries entry_size i part;
           scan_gpt_loop n x.1 device bs entries entry_size (i + 1) x.2
  end.

Definition volume_scan_gpt vm (device : option BlockDevice) (bs : Z) : option (VolumeManager W) :=
  let '(vm, ok) := vm_malloc vm in
  if negb ok then Some vm
  else
    let '(vm, r) := volume_read_device vm device 1 1 in
    r ← into_buffer bs r;
    match r with
    | None => Some vm
    | Some header =>
        signature ← sub_bytes header 0 8;
        if negb (bool_decide (signature = EFI_PART)) then Some vm
        else
          entry_size ← le_at 4 header GPT_entry_size;
          entry_count ← le_at 4 header GPT_entry_count;
          entry_lba ← le_at 8 header GPT_entry_lba;
          if (entry_size <? sizeof_GPTPartitionEntry) || (entry_count =? 0) then Some vm
          else if bs =? 0 then None
          else
            let table_size_bytes := entry_size *[64] entry_count in
            let blocks_to_read := wrap 64 (table_size_bytes + bs - 1) / bs in
            let '(vm, ok) := vm_malloc vm in
            if negb ok then Some vm
            else
              let '(vm, r) := volume_read_device vm device entry_lba (wrap 32 blocks_to_read) in
              r ← into_buffer (wrap size_bits (blocks_to_read *[64] bs)) r;
              match r with
              | None => Some vm
              | Some entries => scan_gpt_loop (Z.to_nat entry_count) vm device bs entries entry_size 0 1
              end
    end.

(** The loop that looks for a protective entry, from entry [i] on. *)
Fixpoint gpt_protective (n : nat) (sector : bytes) (i : Z) : option bool :=
  match n with
  | O => Some false
  | S n => t ← le_at 1 sector (MBR_entry_at i + MBR_type);
           if t =? 238 then Some true else gpt_protective n sector (i + 1)
  end.

Definition scan_mbr_entry vm (device : option BlockDevice) (bs : Z) (sector : bytes) (i : Z) : option (VolumeManager W) :=
  part_type ← le_at 1 sector (MBR_entry_at i + MBR_type);
  first_lba ← le_at 4 sector (MBR_entry_at i + MBR_first_lba);
  sector_count ← le_at 4 sector (MBR_entry_at i + MBR_sector_count);
  if (part_type =? 0) || (sector_count =? 0) then Some vm
  else
    x ← volume_allocate vm device VOLUME_TYPE_MBR_PARTITION None first_lba sector_count bs;
    match x.2 with
    | None => Some x.1
    | Some volume =>
        register_partition x.1 device (i + 1)
          (mkVolume (v_name volume) (v_type volume) (v_device volume) (start_lba volume) (block_count volume)
                    (v_block_size volume) part_type (attributes volume) (type_guid volume) (unique_guid volume))
    end.

Fixpoint scan_mbr_loop (n : nat) vm (device : option BlockDevice) (bs : Z) (sector : bytes) (i : Z) : option (VolumeManager W) :=
  match n with
  | O => Some vm
  | S n => vm ← scan_mbr_entry vm device bs sector i; scan_mbr_loop n vm device bs sector (i + 1)
  end.

Definition volume_scan_mbr vm (device : option BlockDevice) (bs : Z) : option (VolumeManager W) :=
  let '(vm, ok) := vm_malloc vm in
  if negb ok then Some vm
  else
    let '(vm, r) := volume_read_device vm device 0 1 in
    r ← into_buffer bs r;
    match r with
    | None => Some vm
    | Some sector =>
        s0 ← le_at 1 sector 510;
        s1 ← (if s0 =? 85 then le_at 1 sector 511 else Some 0);
        if negb ((s0 =? 85) && (s1 =? 170)) then Some vm
        else
          gpt ← gpt_protective 4 sector 0;
          if gpt : bool then volume_scan_gpt vm device bs
          else scan_mbr_loop 4 vm device bs sector 0
    end.

Definition VolumeManager_Init vm : VolumeManager W := volume_manager_ensure_init vm.

Definition is_cdrom (t : BlockDeviceType) : bool := match t with BLKDEV_TYPE_CDROM => true | _ => false end.

(** The body of the loop over the devices. *)
Definition rebuild_device vm (i : Z) : option (VolumeManager W) :=
  match BlockDevice_GetAt (s_devices vm) i with
  | None => Some vm
  | Some device =>
      let bs := if logical_block_size device =? 0 then 512 else logical_block_size device in
      let base_name := default str_disk (d_name device) in
      x ← volume_allocate vm (Some device) VOLUME_TYPE_WHOLE_DEVICE (Some base_name) 0 (total_blocks device) bs;
      let vm := match x.2 with Some whole => volume_manager_add x.1 whole | None => x.1 end in
      if is_cdrom (d_type device) then Some vm else volume_scan_mbr vm (Some device) bs
  end.

Fixpoint rebuild_loop (n : nat) vm (i : Z) : option (VolumeManager W) :=
  match n with
  | O => Some vm
  | S n => vm ← rebuild_device vm i; rebuild_loop n vm (i + 1)
  end.

Definition VolumeManager_Rebuild vm : option (VolumeManager W) :=
  let vm := volume_manager_ensure_init vm in
  match s_volumes vm with
  | None => Some vm
  | Some _ =>
      let vm := volume_manager_clear vm in
      rebuild_loop (Z.to_nat (BlockDevice_Count (s_devices vm))) vm 0
  end.

Definition VolumeManager_Count vm : Z := match s_volumes vm with Some vs => Z.of_nat (length vs) | None => 0 end.
Definition VolumeManager_GetAt vm (index : Z) : option Volume := vs ← s_volumes vm; vs !! Z.to_nat index.

End Ops.

(** ** Access through a volume; [None] is a null [Volume*] *)

Definition Volume_Name (volume : option Volume) : option bytes := v ← volume; v_name v.
Definition Volume_BlockSize (volume : option Volume) : Z := match volume with Some v => v_block_size v | None => 0 end.
Definition Volume_Length (volume : option Volume) : Z := match volume with Some v => block_count v | None => 0 end.
Definition Volume_StartLBA (volume : option Volume) : Z := match volume with Some v => start_lba v | None => 0 end.

Section Access.
Context {W : Type} `{!BlockDriver W}.

(** [has_buffer] tells that the buffer pointer is not null. *)
Definition Volume_ReadSectors (w : W) (volume : option Volume) (lba count : Z) (has_buffer : bool) : W * option bytes :=
  match volume with
  | None => (w, None)
  | Some v =>
      if negb has_buffer || (count =? 0) then (w, None)
      else
        let absolute_lba := start_lba v +[64] lba in
        if (start_lba v +[64] block_count v) <? (absolute_lba +[64] count) then (w, None)
        else BlockDevice_Read w (v_device v) absolute_lba count
  end.

Definition Volume_WriteSectors (w : W) (volume : option Volume) (lba count : Z) (buffer : option bytes) : W * bool :=
  match volume, buffer with
  | Some v, Some buffer =>
      if count =? 0 then (w, false)
      else
        let absolute_lba := start_lba v +[64] lba in
        if (start_lba v +[64] block_count v) <? (absolute_lba +[64] count) then (w, false)
        else BlockDevice_Write w (v_device v) absolute_lba count buffer
  | _, _ => (w, false)
  end.

End Access.

(** ** A volume is a window of its device *)

Section Window.
Context {W : Type} `{!BlockDriver W} (d : BlockDevice) `{!DiskLaws d}.

(** The volume lies on the device, and the range does not wrap around. *)
Definition volume_on (v : Volume) : Prop :=
  v_device v = Some d /\ 0 <= start_lba v /\ 0 <= block_count v /\ start_lba v + block_count v <= disk_size (d := d) /\ disk_size (d := d) < 2 ^ 64.

Definition vol_sector (v : Volume) (w : W) (i : Z) : bytes := sector (d := d) w (start_lba v + i).

Lemma window_arith v lba count : volume_on v -> 0 <= lba -> 0 < count -> start_lba v + lba + count < 2 ^ 64 ->
  start_lba v +[64] lba = start_lba v + lba /\
  ((start_lba v +[64] block_count v) <? ((start_lba v +[64] lba) +[64] count)) = (block_count v <? lba + count).
Proof.
  intros (_ & H1 & H2 & H3 & H4) Hl Hc Hw. rewrite !(wrap_small 64 (start_lba v + _)) by lia. rewrite wrap_small by lia. split; [done|].
  destruct (Z.ltb_spec (start_lba v + block_count v) (start_lba v + lba + count)), (Z.ltb_spec (block_count v) (lba + count)); (done || lia).
Qed.

(** C18.  Access through a volume stays in the volume.  Sectors that are not
    all in the volume are refused without an access to the device; otherwise a
    read gives the sectors of the volume (or fails) and changes nothing, and a
    write stores the buffer in them, touching no sector outside of the range:
    in particular none before or after the volume.  The sector numbers must
    not wrap around. *)
Theorem volume_confined v w lba count buf : volume_on v -> 0 <= lba -> 0 < count -> start_lba v + lba + count < 2 ^ 64 ->
  zlen buf = count * logical_block_size d ->
  if block_count v <? lba + count
  then Volume_ReadSectors w (Some v) lba count true = (w, None) /\ Volume_WriteSectors w (Some v) lba count (Some buf) = (w, false)
  else
    (forall w' r, Volume_ReadSectors w (Some v) lba count true = (w', r) ->
       (forall i, sector (d := d) w' i = sector (d := d) w i) /\ (forall bs, r = Some bs -> bs = concat (vol_sector v w <$> seqZ lba count))) /\
    (forall w' ok, Volume_WriteSectors w (Some v) lba count (Some buf) = (w', ok) ->
       (forall i, ~ (start_lba v + lba <= i < start_lba v + lba + count) -> sector (d := d) w' i = sector (d := d) w i) /\
       (ok = true -> concat (vol_sector v w' <$> seqZ lba count) = buf)).
Proof.
  intros Hon Hl Hc Hw Hb. destruct (window_arith v lba count Hon Hl Hc Hw) as [Ha Hcmp].
  cbn. rewrite Hcmp, Ha. destruct (Z.eqb_spec count 0) as [|_]; [lia|]. cbn [negb orb].
  destruct Hon as (-> & H1 & H2 & H3 & H4). destruct (Z.ltb_spec (block_count v) (lba + count)) as [|Hin]; [done|]. cbn.
  assert (forall w', vol_sector v w' <$> seqZ lba count = sector (d := d) w' <$> seqZ (start_lba v + lba) count) as Hvs.
  { intros w'. rewrite <- fmap_add_seqZ, <- list_fmap_compose. done. }
  split; intros w' r; rewrite Hvs; (destruct (d_ops d) as [o|]; [|by intros [= <- <-]]).
  - destruct (has_read o); [|by intros [= <- <-]]. apply drv_read_law; lia.
  - destruct (has_write o); [|by intros [= <- <-]]. apply drv_write_law; lia.
Qed.
End Window.

Section WindowExample.

Definition part_of_small : Volume := mkVolume None VOLUME_TYPE_MBR_PARTITION (Some small_disk) 1 2 4 12 0 [] [].

#[local] Instance window_laws : DiskLaws (W := gmap Z bytes) small_disk := MemDisk.mem_laws small_disk ltac:(cbn; lia) ltac:(cbn; lia).

Lemma part_on_small : volume_on small_disk part_of_small.
Proof. split; [done|]. cbn. lia. Qed.

Lemma volume_confined_witness : volume_on small_disk part_of_small /\
  (forall w' r, Volume_ReadSectors small_state (Some part_of_small) 1 1 true = (w', r) ->
     (forall i, sector (d := small_disk) w' i = sector (d := small_disk) small_state i) /\
     (forall bs, r = Some bs -> bs = concat (vol_sector small_disk part_of_small small_state <$> seqZ 1 1))).
Proof.
  split; [apply part_on_small|]. refine (proj1 (volume_confined small_disk part_of_small small_state 1 1 [0; 0; 0; 0] part_on_small _ _ _ _)); [lia|lia|cbn; lia|done].
Defined.

(** The sum [start_lba + lba] wraps: a sector number of [2^64 - 1] names the
    sector before the volume. *)
Lemma volume_read_escapes :
  (Volume_ReadSectors small_state (Some part_of_small) (2 ^ 64 - 1) 1 true).2 = Some [1; 2; 3; 4].
Proof. reflexivity. Qed.

End WindowExample.
