(* ===== verification/VolumeScan.v ===== *)
(** * What the scan of a partition table finds

    Partition tables as they lie on a disk, and the volumes the manager
    registers for them: [VolumeManager_Rebuild] reads back every entry of an
    MBR or GPT table. *)

From S2P Require Import Prelude Bytes CString Convert BlockDevice DiskStream Volume.

(** ** Fields *)

Lemma le_at_app a b c : le_at (zlen b) (a ++ b ++ c) (zlen a) = Some (le b).
Proof. unfold le_at. by rewrite sub_bytes_app. Qed.

(** The field of [n] bytes at [off], found by splitting the buffer there. *)
Lemma le_at_split n buf off a v c : buf = a ++ le_bytes n v ++ c -> zlen a = off -> 0 <= v < 256 ^ Z.of_nat n ->
  le_at (Z.of_nat n) buf off = Some v.
Proof.
  intros -> <- Hv. rewrite <- (zlen_le_bytes n v), le_at_app, le_le_bytes. f_equal. by apply Z.mod_small.
Qed.

Lemma sub_bytes_split n buf off a b c : buf = a ++ b ++ c -> zlen a = off -> zlen b = n -> sub_bytes buf off n = Some b.
Proof. intros -> <- <-. apply sub_bytes_app. Qed.

(** ** Names *)

Section Names.
Context `{A : Arch}.

Lemma strdup_string s rest : (0 ∉ s) -> strdup (Some (s ++ 0 :: rest)) true = Some (cstr s).
Proof.
  intros Hs. unfold strdup. erewrite strlen_spec by (split; [exact Hs|by eexists]). cbn [mbind option_bind]. f_equal.
  replace (Z.to_nat (Z.of_nat (length s) + 1)) with (length s + 1)%nat by lia. rewrite take_app_add. done.
Qed.

(** A device name that leaves room for the suffix. *)
Definition named (d : BlockDevice) (n : bytes) : Prop := d_name d = Some (cstr n) /\ (0 ∉ n) /\ zlen n <= 52.

Definition index_ok (i : Z) : Prop := 0 <= i < 2 ^ 32 - 1.

Lemma index_not_max i : index_ok i -> (i =? SIZE_MAX) = false.
Proof. unfold index_ok. intros Hi. apply Z.eqb_neq. unfold SIZE_MAX, size_bits. destruct the_arch; cbn; lia. Qed.

(** ["disk"] becomes ["diskp7"]. *)
Lemma volume_base_name_spec d n i : named d n -> index_ok i ->
  exists s rest, volume_base_name (Some d) (zeros 64) i = Some (n ++ 112 :: s ++ 0 :: rest) /\ denotes 10 i s.
Proof.
  intros (Hn & Hn0 & Hl) Hi. unfold zlen in Hl. unfold volume_base_name. rewrite Hn. cbn [default from_option id].
  change (store (zeros 64) 0 0) with (Some (zeros 64)). cbn [mbind option_bind]. change (zlen (zeros 64)) with 64.
  change (64 - 1) with 63. cbn [strncpy]. unfold cstr. rewrite strncpy_loop_spec; [|done|change (Z.to_nat 63) with 63%nat; change (length (zeros 64)) with 64%nat; lia].
  cbn [mbind option_bind fmap option_fmap option_map]. change (Z.to_nat 63) with 63%nat. change (drop 63 (zeros 64)) with [0].
  set (buf := n ++ replicate (63 - length n) 0 ++ [0]).
  assert (zlen buf = 64) as Hbl by (unfold buf, zlen; rewrite !length_app, length_replicate; cbn; lia).
  assert (store buf (zlen buf - 1) 0 = Some buf) as ->.
  { rewrite Hbl. unfold buf. rewrite app_assoc. replace (64 - 1) with (zlen (n ++ replicate (63 - length n) 0))
      by (unfold zlen; rewrite length_app, length_replicate; lia). apply store_at. }
  cbn [mbind option_bind]. rewrite index_not_max by done.
  assert (buf = n ++ 0 :: replicate (63 - length n) 0) as ->.
  { unfold buf. f_equal. by rewrite <- replicate_S_end. }
  change str_p with ([112] ++ 0 :: []). rewrite strcat_spec; [|done|set_solver by lia|rewrite length_replicate; cbn; lia].
  cbn [mbind option_bind]. unfold utoa, ulltoa. cbn [validate_base Z.leb andb negb default from_option id].
  rewrite wrap_small by (unfold index_ok in Hi; lia).
  assert (length (lsd 64 10 i) <= 10)%nat as Hlen by (apply lsd_length_bound; [lia|unfold index_ok in Hi; cbn; lia]).
  destruct (utoa_impl_fits false 10 i (zeros 16)) as (s & rest & Hu & Hd & _ & Hs); [lia|unfold index_ok in Hi; lia|change (length (zeros 16)) with 16%nat; lia|change (length (zeros 16)) with 16%nat; lia|].
  change (negb (validate_base 10)) with false. cbv iota. rewrite Hu. cbn [mbind option_bind]. pose proof Hd as (_ & Hs0 & _).
  rewrite (app_assoc n [112]).
  assert (0 ∉ n ++ [112]) as Hnp by (intros [?|?%list_elem_of_singleton]%elem_of_app; [done|lia]).
  rewrite strcat_spec; [|done|done|rewrite length_drop, length_replicate; cbn [length]; lia].
  cbn [mbind option_bind]. exists s. eexists. split; [|done]. rewrite <- !app_assoc. done.
Qed.
End Names.

(** ** Registering one partition *)

Section Scan.
Context `{A : Arch} {W : Type} `{!BlockDriver W} (mal : nat -> bool) (mal_ok : forall k, mal k = true).
Implicit Types vm : VolumeManager W.

(** Everything but the volumes and the clock is as before. *)
Definition frame vm vm' : Prop :=
  s_devices vm' = s_devices vm /\ vm_drivers vm' = vm_drivers vm /\ s_initialized vm' = s_initialized vm.

Definition with_name (v : Volume) (name : bytes) : Volume :=
  mkVolume (Some name) (v_type v) (v_device v) (start_lba v) (block_count v) (v_block_size v) (mbr_type v) (attributes v)
           (type_guid v) (unique_guid v).

(** [v] is the volume [w] under the name of partition [i]. *)
Definition numbered (n : bytes) (i : Z) (w v : Volume) : Prop := exists s, denotes 10 i s /\ v = with_name w (cstr (n ++ 112 :: s)).

Lemma frame_trans a b c : frame a b -> frame b c -> frame a c.
Proof. intros (H1 & H2 & H3) (H4 & H5 & H6). split_and!; congruence. Qed.

Lemma register_partition_spec vm vs d n i w : named d n -> index_ok i -> s_volumes vm = Some vs ->
  exists vm' v, register_partition mal vm (Some d) i w = Some vm' /\ numbered n i w v /\
    s_volumes vm' = Some (vs ++ [v]) /\ frame vm vm'.
Proof.
  intros Hn Hi Hv. unfold register_partition. destruct (volume_base_name_spec d n i Hn Hi) as (s & rest & -> & Hd). cbn [mbind option_bind].
  unfold vm_strdup. cbn [vm_malloc]. rewrite mal_ok.
  assert (0 ∉ n ++ 112 :: s) as H0.
  { destruct Hn as (_ & Hn & _), Hd as (_ & Hs & _). intros [?|[?|?]%elem_of_cons]%elem_of_app; [done|lia|done]. }
  replace (n ++ 112 :: s ++ 0 :: rest) with ((n ++ 112 :: s) ++ 0 :: rest) by (by rewrite <- app_assoc).
  rewrite strdup_string by done. cbn [mbind option_bind fst snd]. unfold volume_manager_add. cbn [vm_malloc s_volumes]. rewrite Hv, mal_ok.
  do 2 eexists. split; [done|]. split; [by exists s|]. done.
Qed.

Lemma volume_allocate_anonymous vm dev type start blocks bs : volume_allocate mal vm dev type None start blocks bs =
  Some ((vm_malloc mal vm).1, Some (mkVolume None type dev start blocks bs 0 0 (zeros 16) (zeros 16))).
Proof. unfold volume_allocate. cbn [vm_malloc]. by rewrite mal_ok. Qed.

(** ** MBR tables *)

Record mbr_entry := mkMbrEntry { me_status : Z; me_chs_first : bytes; me_type : Z; me_chs_last : bytes; me_first : Z; me_count : Z }.

Definition mbr_entry_ok (e : mbr_entry) : Prop :=
  0 <= me_type e < 256 /\ 0 <= me_first e < 2 ^ 32 /\ 0 <= me_count e < 2 ^ 32 /\ zlen (me_chs_first e) = 3 /\ zlen (me_chs_last e) = 3.

Definition encode_mbr_entry (e : mbr_entry) : bytes :=
  [me_status e] ++ me_chs_first e ++ le_bytes 1 (me_type e) ++ me_chs_last e ++ le_bytes 4 (me_first e) ++ le_bytes 4 (me_count e).

(** A boot sector: code, four entries, signature. *)
Definition mbr_sector (boot : bytes) (es : list mbr_entry) (rest : bytes) : bytes :=
  boot ++ concat (encode_mbr_entry <$> es) ++ le_bytes 1 85 ++ le_bytes 1 170 ++ rest.

Definition mbr_ok (boot : bytes) (es : list mbr_entry) : Prop := zlen boot = 446 /\ length es = 4%nat /\ Forall mbr_entry_ok es.

Lemma zlen_encode_mbr e : mbr_entry_ok e -> zlen (encode_mbr_entry e) = 16.
Proof. intros (_ & _ & _ & H1 & H2). unfold encode_mbr_entry. rewrite !zlen_app, !zlen_le_bytes, H1, H2. done. Qed.

Lemma zlen_concat {X} (f : X -> bytes) (P : X -> Prop) k es : (forall e, P e -> zlen (f e) = k) -> Forall P es ->
  zlen (concat (f <$> es)) = k * Z.of_nat (length es).
Proof.
  intros Hf. induction 1 as [|e es He _ IH]; [change (0 = k * 0); lia|]. rewrite fmap_cons. cbn [concat length]. rewrite zlen_app, IH, Hf by done. lia.
Qed.

(** The fields of the entry after the entries [es1]. *)
Lemma mbr_fields boot es1 e es2 rest : mbr_ok boot (es1 ++ e :: es2) ->
  let sec := mbr_sector boot (es1 ++ e :: es2) rest in let at_ := MBR_entry_at (Z.of_nat (length es1)) in
  le_at 1 sec (at_ + MBR_type) = Some (me_type e) /\ le_at 4 sec (at_ + MBR_first_lba) = Some (me_first e) /\
  le_at 4 sec (at_ + MBR_sector_count) = Some (me_count e).
Proof.
  intros (Hb & _ & [H1 [He H2]%Forall_cons]%Forall_app). cbv zeta. unfold MBR_entry_at.
  pose proof (zlen_concat encode_mbr_entry _ 16 es1 zlen_encode_mbr H1) as Hl. destruct He as (Ht & Hf & Hc & Hc1 & Hc2).
  unfold mbr_sector. rewrite fmap_app, concat_app, fmap_cons. cbn [concat]. unfold encode_mbr_entry at 2 5 8.
  set (pre := concat (encode_mbr_entry <$> es1)) in *. split_and!.
  - eapply (le_at_split 1 _ _ (boot ++ pre ++ [me_status e] ++ me_chs_first e)); [by rewrite <- !app_assoc| |done].
    rewrite !zlen_app, Hb, Hl, Hc1. unfold MBR_type. change (zlen [me_status e]) with 1. lia.
  - eapply (le_at_split 4 _ _ (boot ++ pre ++ [me_status e] ++ me_chs_first e ++ le_bytes 1 (me_type e) ++ me_chs_last e)); [by rewrite <- !app_assoc| |done].
    rewrite !zlen_app, Hb, Hl, Hc1, Hc2, zlen_le_bytes. unfold MBR_first_lba. change (zlen [me_status e]) with 1. lia.
  - eapply (le_at_split 4 _ _ (boot ++ pre ++ [me_status e] ++ me_chs_first e ++ le_bytes 1 (me_type e) ++ me_chs_last e ++ le_bytes 4 (me_first e)));
      [by rewrite <- !app_assoc| |done].
    rewrite !zlen_app, Hb, Hl, Hc1, Hc2, !zlen_le_bytes. unfold MBR_sector_count. change (zlen [me_status e]) with 1. lia.
Qed.

Lemma mbr_signature boot es rest : mbr_ok boot es ->
  le_at 1 (mbr_sector boot es rest) 510 = Some 85 /\ le_at 1 (mbr_sector boot es rest) 511 = Some 170.
Proof.
  intros (Hb & Hl & He). pose proof (zlen_concat encode_mbr_entry _ 16 es zlen_encode_mbr He) as Hc. rewrite Hl in Hc.
  unfold mbr_sector. set (pre := concat _) in *. split.
  - eapply (le_at_split 1 _ _ (boot ++ pre)); [by rewrite <- !app_assoc|rewrite zlen_app; lia|lia].
  - eapply (le_at_split 1 _ _ (boot ++ pre ++ le_bytes 1 85)); [by rewrite <- !app_assoc|rewrite !zlen_app, zlen_le_bytes; lia|lia].
Qed.

Definition protective (e : mbr_entry) : bool := me_type e =? 238.

Lemma gpt_protective_spec boot rest es2 : forall es1, mbr_ok boot (es1 ++ es2) ->
  gpt_protective (length es2) (mbr_sector boot (es1 ++ es2) rest) (Z.of_nat (length es1)) = Some (existsb protective es2).
Proof.
  induction es2 as [|e es2 IH]; intros es1 Hok; [done|]. cbn [length gpt_protective existsb].
  destruct (mbr_fields _ _ _ _ rest Hok) as (-> & _). cbn [mbind option_bind]. unfold protective at 1. destruct (me_type e =? 238); [done|]. cbn [orb].
  specialize (IH (es1 ++ [e])). rewrite <- app_assoc in IH. cbn [app] in IH. rewrite <- IH by done.
  f_equal. rewrite length_app. cbn. lia.
Qed.

(** The volume of an entry, before it gets its name. *)
Definition mbr_volume (d : BlockDevice) (bs : Z) (e : mbr_entry) : Volume :=
  mkVolume None VOLUME_TYPE_MBR_PARTITION (Some d) (me_first e) (me_count e) bs (me_type e) 0 (zeros 16) (zeros 16).

Definition mbr_used (e : mbr_entry) : bool := negb (me_type e =? 0) && negb (me_count e =? 0).

(** Entries that are used, with their numbers from [i] on. *)
Fixpoint mbr_parts (i : Z) (es : list mbr_entry) : list (Z * mbr_entry) :=
  match es with [] => [] | e :: es => (if mbr_used e then [(i, e)] else []) ++ mbr_parts (i + 1) es end.

Lemma scan_mbr_loop_spec d n bs boot rest es2 : named d n -> forall es1 vm vs, mbr_ok boot (es1 ++ es2) -> s_volumes vm = Some vs ->
  exists vm' vs', scan_mbr_loop mal (length es2) vm (Some d) bs (mbr_sector boot (es1 ++ es2) rest) (Z.of_nat (length es1)) = Some vm' /\
    Forall2 (fun p v => numbered n p.1 (mbr_volume d bs p.2) v) (mbr_parts (Z.of_nat (length es1) + 1) es2) vs' /\
    s_volumes vm' = Some (vs ++ vs') /\ frame vm vm'.
Proof.
  intros Hn. induction es2 as [|e es2 IH]; intros es1 vm vs Hok Hv.
  { exists vm, []. rewrite (app_nil_r vs). split; [done|]. split; [constructor|]. done. }
  cbn [length scan_mbr_loop mbr_parts]. unfold scan_mbr_entry. destruct (mbr_fields _ _ _ _ rest Hok) as (-> & -> & ->). cbn [mbind option_bind].
  specialize (IH (es1 ++ [e])). rewrite <- app_assoc, length_app in IH. cbn [app length] in IH.
  replace (Z.of_nat (length es1 + 1)) with (Z.of_nat (length es1) + 1) in IH by lia. unfold mbr_used at 1.
  assert (length es1 < 4)%nat as Hl4. { destruct Hok as (_ & Hl & _). rewrite length_app in Hl. cbn in Hl. lia. }
  destruct (me_type e =? 0) eqn:E1, (me_count e =? 0) eqn:E2; cbn [orb negb andb app]; try (by apply IH).
  rewrite volume_allocate_anonymous. cbn [mbind option_bind fst snd].
  destruct (register_partition_spec (vm_malloc mal vm).1 vs d n (Z.of_nat (length es1) + 1) (mbr_volume d bs e) Hn) as (vm1 & v & Hr & Hnum & Hv1 & Hf1);
    [unfold index_ok; lia|done|]. unfold mbr_volume in Hr. cbn [v_name v_type v_device start_lba block_count v_block_size attributes type_guid unique_guid]. rewrite Hr. cbn [mbind option_bind].
  destruct (IH vm1 (vs ++ [v]) Hok Hv1) as (vm' & vs' & Hr' & Hall & Hv' & Hf'). exists vm', (v :: vs'). split; [done|]. split; [by constructor|].
  split; [by rewrite Hv', <- app_assoc|]. by eapply frame_trans.
Qed.

(** ** GPT tables *)

Record gpt_entry := mkGptEntry { ge_type : bytes; ge_unique : bytes; ge_first : Z; ge_last : Z; ge_attributes : Z; ge_rest : bytes }.

Definition encode_gpt_entry (e : gpt_entry) : bytes :=
  ge_type e ++ ge_unique e ++ le_bytes 8 (ge_first e) ++ le_bytes 8 (ge_last e) ++ le_bytes 8 (ge_attributes e) ++ ge_rest e.

Definition gpt_entry_ok (size : Z) (e : gpt_entry) : Prop :=
  zlen (ge_type e) = 16 /\ zlen (ge_unique e) = 16 /\ 0 <= ge_first e < 2 ^ 64 /\ 0 <= ge_last e < 2 ^ 64 - 1 /\
  0 <= ge_attributes e < 2 ^ 64 /\ zlen (ge_rest e) = size - 56.

Lemma zlen_encode_gpt size e : gpt_entry_ok size e -> zlen (encode_gpt_entry e) = size.
Proof. intros (H1 & H2 & _ & _ & _ & H3). unfold encode_gpt_entry. rewrite !zlen_app, !zlen_le_bytes, H1, H2, H3. lia. Qed.

Lemma gpt_fields size es1 e es2 pad : Forall (gpt_entry_ok size) (es1 ++ e :: es2) ->
  let tab := concat (encode_gpt_entry <$> (es1 ++ e :: es2)) ++ pad in let at_ := Z.of_nat (length es1) * size in
  sub_bytes tab at_ 16 = Some (ge_type e) /\ sub_bytes tab (at_ + 16) 16 = Some (ge_unique e) /\
  le_at 8 tab (at_ + 32) = Some (ge_first e) /\ le_at 8 tab (at_ + 40) = Some (ge_last e) /\ le_at 8 tab (at_ + 48) = Some (ge_attributes e).
Proof.
  intros [H1 [He H2]%Forall_cons]%Forall_app. cbv zeta.
  pose proof (zlen_concat encode_gpt_entry _ size es1 (zlen_encode_gpt size) H1) as Hl. destruct He as (Ht & Hu & Hf & Hla & Hat & _).
  rewrite fmap_app, concat_app, fmap_cons. cbn [concat]. unfold encode_gpt_entry at 2 5 8 11 14.
  set (pre := concat (encode_gpt_entry <$> es1)) in *. split_and!.
  - eapply (sub_bytes_split 16 _ _ pre); [by rewrite <- !app_assoc|lia|done].
  - eapply (sub_bytes_split 16 _ _ (pre ++ ge_type e)); [by rewrite <- !app_assoc|rewrite zlen_app; lia|done].
  - eapply (le_at_split 8 _ _ (pre ++ ge_type e ++ ge_unique e)); [by rewrite <- !app_assoc|rewrite !zlen_app; lia|lia].
  - eapply (le_at_split 8 _ _ (pre ++ ge_type e ++ ge_unique e ++ le_bytes 8 (ge_first e)));
      [by rewrite <- !app_assoc|rewrite !zlen_app, zlen_le_bytes; lia|lia].
  - eapply (le_at_split 8 _ _ (pre ++ ge_type e ++ ge_unique e ++ le_bytes 8 (ge_first e) ++ le_bytes 8 (ge_last e)));
      [by rewrite <- !app_assoc|rewrite !zlen_app, !zlen_le_bytes; lia|lia].
Qed.

Definition gpt_volume (d : BlockDevice) (bs : Z) (e : gpt_entry) : Volume :=
  mkVolume None VOLUME_TYPE_GPT_PARTITION (Some d) (ge_first e) (ge_last e - ge_first e + 1) bs 238 (ge_attributes e) (ge_type e) (ge_unique e).

Definition gpt_used (e : gpt_entry) : bool := negb (forallb is_zero (ge_type e)) && (ge_first e <=? ge_last e).

(** Used entries are numbered from [i] on. *)
Fixpoint number {X} (i : Z) (es : list X) : list (Z * X) := match es with [] => [] | e :: es => (i, e) :: number (i + 1) es end.

Lemma scan_gpt_loop_spec d n bs size pad es2 : named d n -> 128 <= size -> forall es1 vm vs part,
  Forall (gpt_entry_ok size) (es1 ++ es2) -> Z.of_nat (length (es1 ++ es2)) * size < 2 ^ 32 ->
  1 <= part <= Z.of_nat (length es1) + 1 -> s_volumes vm = Some vs ->
  exists vm' vs', scan_gpt_loop mal (length es2) vm (Some d) bs (concat (encode_gpt_entry <$> (es1 ++ es2)) ++ pad) size
      (Z.of_nat (length es1)) part = Some vm' /\
    Forall2 (fun p v => numbered n p.1 (gpt_volume d bs p.2) v) (number part (List.filter gpt_used es2)) vs' /\
    s_volumes vm' = Some (vs ++ vs') /\ frame vm vm'.
Proof.
  intros Hn Hsz. induction es2 as [|e es2 IH]; intros es1 vm vs part Hok Hlt Hp Hv.
  { exists vm, []. rewrite (app_nil_r vs). split; [done|]. split; [constructor|]. done. }
  cbn [length scan_gpt_loop]. unfold scan_gpt_entry. cbv zeta. rewrite length_app in Hlt. cbn [length] in Hlt.
  assert (2 ^ 32 <= 2 ^ size_bits) as H32 by (unfold size_bits; destruct the_arch; cbn; lia). rewrite (wrap_small size_bits (Z.of_nat (length es1) * size)) by nia.
  destruct (gpt_fields size es1 e es2 pad Hok) as (-> & -> & -> & -> & ->). cbn [mbind option_bind].
  specialize (IH (es1 ++ [e])). rewrite <- app_assoc, !length_app in IH. cbn [app length] in IH.
  replace (Z.of_nat (length es1 + 1)) with (Z.of_nat (length es1) + 1) in IH by lia.
  cbn [List.filter]. unfold gpt_used at 1. destruct (forallb is_zero (ge_type e)) eqn:E1; cbn [negb andb].
  { apply (IH vm vs part); (done || lia). }
  pose proof Hok as [_ [(_ & _ & Hf & Hla & _) _]%Forall_cons]%Forall_app.
  destruct (Z.ltb_spec (ge_last e) (ge_first e)), (Z.leb_spec (ge_first e) (ge_last e)); try lia.
  { apply (IH vm vs part); (done || lia). }
  rewrite (wrap_small 64) by lia. destruct (Z.eqb_spec (ge_last e - ge_first e + 1) 0); [lia|].
  rewrite volume_allocate_anonymous. cbn [mbind option_bind fst snd].
  destruct (register_partition_spec (vm_malloc mal vm).1 vs d n part (gpt_volume d bs e) Hn) as (vm1 & v & Hr & Hnum & Hv1 & Hf1);
    [unfold index_ok; nia|done|]. unfold gpt_volume in Hr.
  cbn [v_name v_type v_device start_lba block_count v_block_size attributes type_guid unique_guid]. rewrite Hr. cbn [mbind option_bind fst snd].
  rewrite wrap_small by nia. destruct (IH vm1 (vs ++ [v]) (part + 1) Hok ltac:(lia) ltac:(lia) Hv1) as (vm' & vs' & Hr' & Hall & Hv' & Hf').
  exists vm', (v :: vs'). split; [done|]. split; [by constructor|]. split; [by rewrite Hv', <- app_assoc|]. by eapply frame_trans.
Qed.
End Scan.

(** ** Rebuilding the volume list *)

Section Rebuild.
Context `{A : Arch} {W : Type} `{!BlockDriver W} (mal : nat -> bool) (mal_ok : forall k, mal k = true).
Context (d : BlockDevice) `{!DiskLaws d} (n : bytes).
Context (d_named : named d n) (d_reads : reads_succeed d (disk_size (d := d))) (d_table : exists o, d_ops d = Some o /\ has_read o = true)
  (d_disk : d_type d = BLKDEV_TYPE_DISK).
Local Abbreviation bs := (logical_block_size d).
Implicit Types vm : VolumeManager W.

Definition tick vm : VolumeManager W := mkVM (s_initialized vm) (s_volumes vm) (s_devices vm) (S (vm_clock vm)) (vm_drivers vm).

Lemma vm_malloc_ok vm : vm_malloc mal vm = (tick vm, true).
Proof. unfold vm_malloc. by rewrite mal_ok. Qed.

(** The sectors of the device are untouched. *)
Definition frame_disk vm vm' : Prop :=
  s_devices vm' = s_devices vm /\ s_initialized vm' = s_initialized vm /\ same_sectors d (vm_drivers vm) (vm_drivers vm').

Lemma read_device_spec vm lba count : 0 <= lba -> 0 < count -> lba + count <= disk_size (d := d) ->
  exists vm', volume_read_device vm (Some d) lba count = (vm', Some (concat (sector (d := d) (vm_drivers vm) <$> seqZ lba count))) /\
    s_volumes vm' = s_volumes vm /\ frame_disk vm vm'.
Proof.
  intros H0 H1 H2. unfold volume_read_device. cbn [BlockDevice_Read]. destruct d_table as (o & Ho & Hr). rewrite Ho, Hr.
  destruct (drv_read (vm_drivers vm) d lba count) as [w r] eqn:E. destruct (drv_read_law (d := d) _ _ _ _ _ H0 H1 H2 E) as [Hs Hb].
  destruct r as [b|]; [|exfalso; apply (d_reads (vm_drivers vm) lba count H0 H1 H2); by rewrite E].
  rewrite (Hb b eq_refl). by eexists.
Qed.

Lemma read_one_spec vm lba : 0 <= lba < disk_size (d := d) ->
  exists vm', volume_read_device vm (Some d) lba 1 = (vm', Some (sector (d := d) (vm_drivers vm) lba)) /\
    s_volumes vm' = s_volumes vm /\ frame_disk vm vm'.
Proof.
  intros Hl. destruct (read_device_spec vm lba 1) as (vm' & Hr & H); [lia..|]. exists vm'. split; [|done]. rewrite Hr. do 2 f_equal.
  change (seqZ lba 1) with [lba]. cbn. apply app_nil_r.
Qed.

Lemma same_sectors_trans w1 w2 w3 : same_sectors d w1 w2 -> same_sectors d w2 w3 -> same_sectors d w1 w3.
Proof. intros H1 H2 i. by rewrite H2, H1. Qed.

(** The disk starts with an MBR whose entries are [es]. *)
Definition has_mbr (w : W) (boot : bytes) (es : list mbr_entry) (rest : bytes) : Prop :=
  0 < disk_size (d := d) /\ mbr_ok boot es /\ sector (d := d) w 0 = mbr_sector boot es rest.

(** Up to the choice of the scheme the scan depends on the MBR alone. *)
Lemma scan_start vm boot es rest : has_mbr (vm_drivers vm) boot es rest ->
  exists vm1, s_volumes vm1 = s_volumes vm /\ frame_disk vm vm1 /\
    volume_scan_mbr mal vm (Some d) bs =
      if existsb protective es then volume_scan_gpt mal vm1 (Some d) bs else scan_mbr_loop mal 4 vm1 (Some d) bs (mbr_sector boot es rest) 0.
Proof.
  intros (Hd & Hok & Hs). unfold volume_scan_mbr. rewrite vm_malloc_ok. cbn [negb].
  destruct (read_one_spec (tick vm) 0) as (vm1 & -> & Hv & Hf); [lia|]. exists vm1. split; [done|]. split; [done|]. cbn [tick vm_drivers].
  assert (zlen (sector (d := d) (vm_drivers vm) 0) = bs) as Hl by (apply sector_len; lia). cbn [into_buffer]. rewrite Hl, Z.leb_refl. cbn [mbind option_bind].
  rewrite Hs. destruct (mbr_signature boot es rest Hok) as [-> ->]. cbn [mbind option_bind Z.eqb Pos.eqb andb negb].
  pose proof (gpt_protective_spec boot rest es [] Hok) as Hg. destruct Hok as (_ & Hl4 & _). rewrite Hl4 in Hg. cbn [app length] in Hg.
  change (Z.of_nat 0) with 0 in Hg. rewrite Hg. done.
Qed.

Definition whole_volume : Volume :=
  mkVolume (Some (cstr n)) VOLUME_TYPE_WHOLE_DEVICE (Some d) 0 (total_blocks d) bs 0 0 (zeros 16) (zeros 16).

(** The state of a manager that knows the device. *)
Definition manages vm : Prop := s_devices vm = Some [d] /\ (s_initialized vm = true -> is_Some (s_volumes vm)).

Lemma rebuild_start vm : manages vm -> exists vm1, s_volumes vm1 = Some [whole_volume] /\ s_devices vm1 = Some [d] /\
  vm_drivers vm1 = vm_drivers vm /\ VolumeManager_Rebuild mal vm = volume_scan_mbr mal vm1 (Some d) bs.
Proof.
  intros [Hdev Hinit]. unfold VolumeManager_Rebuild.
  assert (exists vm0, volume_manager_ensure_init mal vm = vm0 /\ is_Some (s_volumes vm0) /\ s_devices vm0 = Some [d] /\ vm_drivers vm0 = vm_drivers vm)
    as (vm0 & -> & [vs Hvs] & Hdev0 & Hdrv).
  { unfold volume_manager_ensure_init. destruct (s_initialized vm) eqn:Ei; [eexists; eauto|]. rewrite Hdev. cbn [vm_malloc s_devices].
    rewrite Hdev, mal_ok. by eexists. }
  rewrite Hvs. unfold volume_manager_clear. rewrite Hvs. unfold set_volumes. cbn [s_devices]. rewrite Hdev0. cbn [BlockDevice_Count length].
  change (Z.to_nat (Z.of_nat 1)) with 1%nat. cbn [rebuild_loop]. unfold rebuild_device. cbn [s_devices BlockDevice_GetAt mbind option_bind].
  change (Z.to_nat 0) with 0%nat. cbn [lookup list_lookup]. pose proof (block_size_pos (d := d)) as Hb. destruct (Z.eqb_spec bs 0); [lia|].
  destruct d_named as (Hn & Hn0 & _). rewrite Hn. cbn [default from_option id]. unfold volume_allocate. cbn [vm_malloc]. rewrite mal_ok. cbn [negb].
  unfold vm_strdup. cbn [vm_malloc]. rewrite mal_ok. unfold cstr at 1. rewrite strdup_string by done. cbn [mbind option_bind fst snd].
  unfold volume_manager_add. cbn [vm_malloc s_volumes]. rewrite mal_ok. rewrite d_disk. cbn [is_cdrom].
  match goal with |- context [volume_scan_mbr mal ?v (Some d) bs ≫= _] => exists v end.
  split; [done|]. split; [done|]. split; [done|]. by destruct (volume_scan_mbr _ _ _ _).
Qed.

(** [VolumeManager_Rebuild] on a disk with an MBR: the volume list is
    cleared and becomes the whole disk followed by one volume for each entry
    of the table that has a type and a length, in order, with the type, first
    sector and length of the entry and the disk's name with the number of the
    entry; the disk is not written.  (No allocation fails, the disk answers, no
    entry announces a GPT.) *)
Theorem rebuild_finds_mbr vm boot es rest : manages vm -> has_mbr (vm_drivers vm) boot es rest -> existsb protective es = false ->
  exists vm' vs, VolumeManager_Rebuild mal vm = Some vm' /\ s_volumes vm' = Some (whole_volume :: vs) /\
    Forall2 (fun p v => numbered n p.1 (mbr_volume d bs p.2) v) (mbr_parts 1 es) vs /\
    same_sectors d (vm_drivers vm) (vm_drivers vm').
Proof.
  intros Hm Hmbr Hp. destruct (rebuild_start vm Hm) as (vm1 & Hv1 & Hd1 & Hw1 & ->). rewrite <- Hw1 in Hmbr |- *.
  destruct (scan_start vm1 boot es rest Hmbr) as (vm2 & Hv2 & (_ & _ & Hs2) & ->). rewrite Hp. rewrite Hv1 in Hv2.
  destruct Hmbr as (_ & Hok & _). pose proof Hok as (_ & Hl & _).
  destruct (scan_mbr_loop_spec mal mal_ok d n bs boot rest es d_named [] vm2 [whole_volume] Hok Hv2) as (vm3 & vs & Hr & Hall & Hv3 & (_ & Hw3 & _)).
  rewrite Hl in Hr. exists vm3, vs. split; [exact Hr|]. split; [exact Hv3|]. split; [exact Hall|]. by rewrite Hw3.
Qed.

(** A GPT: the header in sector 1 and the table it points to. *)
Definition gpt_header (mid : bytes) (lba count size : Z) (rest : bytes) : bytes :=
  EFI_PART ++ mid ++ le_bytes 8 lba ++ le_bytes 4 count ++ le_bytes 4 size ++ rest.

Definition has_gpt (w : W) (es : list gpt_entry) (size : Z) : Prop :=
  exists mid lba rest pad, zlen mid = 64 /\ 1 < disk_size (d := d) /\
    sector (d := d) w 1 = gpt_header mid lba (Z.of_nat (length es)) size rest /\
    128 <= size < 2 ^ 32 /\ es <> [] /\ Z.of_nat (length es) * size + bs <= 2 ^ 32 /\ Forall (gpt_entry_ok size) es /\
    let blocks := (size * Z.of_nat (length es) + bs - 1) / bs in
    0 <= lba < 2 ^ 64 /\ lba + blocks <= disk_size (d := d) /\
    concat (sector (d := d) w <$> seqZ lba blocks) = concat (encode_gpt_entry <$> es) ++ pad.

Lemma gpt_header_fields mid lba count size rest : zlen mid = 64 -> 0 <= lba < 2 ^ 64 -> 0 <= count < 2 ^ 32 -> 0 <= size < 2 ^ 32 ->
  let h := gpt_header mid lba count size rest in
  sub_bytes h 0 8 = Some EFI_PART /\ le_at 4 h GPT_entry_size = Some size /\ le_at 4 h GPT_entry_count = Some count /\
  le_at 8 h GPT_entry_lba = Some lba.
Proof.
  intros Hm Hl Hc Hs. cbv zeta. unfold gpt_header. split_and!.
  - by apply (sub_bytes_split 8 _ _ [] EFI_PART (mid ++ le_bytes 8 lba ++ le_bytes 4 count ++ le_bytes 4 size ++ rest)).
  - eapply (le_at_split 4 _ _ (EFI_PART ++ mid ++ le_bytes 8 lba ++ le_bytes 4 count)); [by rewrite <- !app_assoc|rewrite !zlen_app, !zlen_le_bytes, Hm; done|lia].
  - eapply (le_at_split 4 _ _ (EFI_PART ++ mid ++ le_bytes 8 lba)); [by rewrite <- !app_assoc|rewrite !zlen_app, !zlen_le_bytes, Hm; done|lia].
  - eapply (le_at_split 8 _ _ (EFI_PART ++ mid)); [by rewrite <- !app_assoc|rewrite !zlen_app, Hm; done|lia].
Qed.

Lemma sectors_ext w w' lba k : same_sectors d w w' -> sector (d := d) w' <$> seqZ lba k = sector (d := d) w <$> seqZ lba k.
Proof. intros H. apply list_fmap_ext. intros. apply H. Qed.

Lemma volume_scan_gpt_spec vm vs es size : s_volumes vm = Some vs -> has_gpt (vm_drivers vm) es size ->
  exists vm' vs', volume_scan_gpt mal vm (Some d) bs = Some vm' /\
    Forall2 (fun p v => numbered n p.1 (gpt_volume d bs p.2) v) (number 1 (List.filter gpt_used es)) vs' /\
    s_volumes vm' = Some (vs ++ vs') /\ same_sectors d (vm_drivers vm) (vm_drivers vm').
Proof.
  intros Hv (mid & lba & rest & pad & Hm & Hd1 & Hs1 & Hsz & Hne & Hbig & Hok & Hl & Hin & Htab). unfold volume_scan_gpt.
  pose proof (block_size_pos (d := d)) as Hb. rewrite vm_malloc_ok. cbn [negb].
  destruct (read_one_spec (tick vm) 1) as (vm1 & -> & Hv1 & (_ & _ & Hw1)); [lia|]. cbn [tick vm_drivers].
  assert (zlen (sector (d := d) (vm_drivers vm) 1) = bs) as Hlen by (apply sector_len; lia).
  cbn [into_buffer]. rewrite Hlen, Z.leb_refl. cbn [mbind option_bind]. rewrite Hs1.
  assert (0 < Z.of_nat (length es)) as Hpos by (destruct es; cbn; [done|lia]).
  destruct (gpt_header_fields mid lba (Z.of_nat (length es)) size rest Hm Hl) as (-> & -> & -> & ->); [nia|lia|]. cbn [mbind option_bind].
  rewrite bool_decide_eq_true_2 by done. cbn [negb]. unfold sizeof_GPTPartitionEntry.
  destruct (Z.ltb_spec size 128), (Z.eqb_spec (Z.of_nat (length es)) 0), (Z.eqb_spec bs 0); try lia. cbn [orb]. rewrite vm_malloc_ok. cbn [negb].
  rewrite (wrap_small 64 (size * _)) by nia. rewrite (wrap_small 64 (_ - 1)) by nia.
  set (blocks := (size * Z.of_nat (length es) + bs - 1) / bs) in *.
  assert (0 < blocks /\ blocks * bs < 2 ^ 32) as [Hb0 Hbb].
  { pose proof (Z.mul_div_le (size * Z.of_nat (length es) + bs - 1) bs ltac:(lia)). fold blocks in H0.
    split; [apply Z.div_str_pos; nia|lia]. }
  assert (2 ^ 32 <= 2 ^ size_bits) as H32 by (unfold size_bits; destruct the_arch; cbn; lia).
  rewrite (wrap_small 32 blocks), (wrap_small 64 (blocks * bs)), (wrap_small size_bits) by nia.
  destruct (read_device_spec (tick vm1) lba blocks) as (vm2 & -> & Hv2 & (_ & _ & Hw2)); [lia|lia|lia|]. cbn [tick vm_drivers].
  rewrite (sectors_ext (vm_drivers vm)) by done. rewrite Htab. cbn [into_buffer].
  assert (zlen (concat (encode_gpt_entry <$> es) ++ pad) = blocks * bs) as ->.
  { rewrite <- Htab. rewrite (zlen_concat (sector (d := d) (vm_drivers vm)) (fun i => 0 <= i < disk_size (d := d)) bs).
    - rewrite length_seqZ. lia.
    - intros i Hi. by apply sector_len.
    - apply Forall_seqZ. intros i Hi. lia. }
  rewrite Z.leb_refl. cbn [mbind option_bind]. rewrite Nat2Z.id.
  destruct (scan_gpt_loop_spec mal mal_ok d n bs size pad es d_named ltac:(lia) [] vm2 vs 1 Hok) as (vm3 & vs' & Hr & Hall & Hv3 & (_ & Hw3 & _));
    [cbn; lia|cbn; lia|rewrite Hv2; exact (eq_trans Hv1 Hv)|].
  exists vm3, vs'. split; [exact Hr|]. split; [done|]. split; [done|]. rewrite Hw3. by eapply same_sectors_trans.
Qed.

(** C19.  [VolumeManager_Rebuild] on a disk with a protective MBR and a GPT: the
    volumes are the whole disk and one volume for each entry of the table that
    has a type and is not reversed, in order and numbered from 1, with the
    first sector, the length, the attributes and both identifiers of the
    entry.  Tables of up to 4 GiB, with entries of any size from 128 bytes,
    anywhere on the disk; the disk is not written. *)
Theorem rebuild_finds_gpt vm boot mes rest es size : manages vm -> has_mbr (vm_drivers vm) boot mes rest -> existsb protective mes = true ->
  has_gpt (vm_drivers vm) es size ->
  exists vm' vs, VolumeManager_Rebuild mal vm = Some vm' /\ s_volumes vm' = Some (whole_volume :: vs) /\
    Forall2 (fun p v => numbered n p.1 (gpt_volume d bs p.2) v) (number 1 (List.filter gpt_used es)) vs /\
    same_sectors d (vm_drivers vm) (vm_drivers vm').
Proof.
  intros Hm Hmbr Hp Hg. destruct (rebuild_start vm Hm) as (vm1 & Hv1 & Hd1 & Hw1 & ->). rewrite <- Hw1 in Hmbr, Hg |- *.
  destruct (scan_start vm1 boot mes rest Hmbr) as (vm2 & Hv2 & (_ & _ & Hs2) & ->). rewrite Hp. rewrite Hv1 in Hv2.
  assert (has_gpt (vm_drivers vm2) es size) as Hg2.
  { destruct Hg as (mid & lba & rs & pad & H1 & H2 & H3 & H4 & H5 & H6 & H7 & H8 & H9 & H10). exists mid, lba, rs, pad.
    cbv zeta. rewrite (Hs2 1), (sectors_ext (vm_drivers vm1) (vm_drivers vm2)) by done. done. }
  destruct (volume_scan_gpt_spec vm2 [whole_volume] es size Hv2 Hg2) as (vm3 & vs & Hr & Hall & Hv3 & Hw3).
  exists vm3, vs. split; [exact Hr|]. split; [exact Hv3|]. split; [done|]. by eapply same_sectors_trans.
Qed.
End Rebuild.

(** ** Two disks in memory *)

Section Example.
#[local] Instance scan_example_arch : Arch := AMD64.

Definition hd_disk : BlockDevice := mkBlockDevice (Some (cstr [104; 100])) BLKDEV_TYPE_DISK 512 40 (Some (mkBlockOps true true false)) 0.

#[local] Instance hd_laws : DiskLaws (W := gmap Z bytes) hd_disk := MemDisk.mem_laws hd_disk ltac:(cbn; lia) ltac:(cbn; lia).

Lemma hd_named : named hd_disk [104; 100].
Proof. split; [done|]. split; [set_solver by lia|]. unfold zlen. cbn. lia. Qed.

Lemma hd_table : exists o, d_ops hd_disk = Some o /\ has_read o = true.
Proof. by exists (mkBlockOps true true false). Qed.

Lemma hd_reads : reads_succeed hd_disk (disk_size (d := hd_disk)).
Proof. exact (MemDisk.mem_reads hd_disk). Qed.

(** Entries 1 and 3 are used. *)
Definition hd_entries (t : Z) : list mbr_entry :=
  [mkMbrEntry 128 [0; 0; 0] t [0; 0; 0] 1 10; mkMbrEntry 0 [0; 0; 0] 0 [0; 0; 0] 0 0;
   mkMbrEntry 0 [0; 0; 0] 131 [0; 0; 0] 11 29; mkMbrEntry 0 [0; 0; 0] 0 [0; 0; 0] 0 0].

Definition hd_boot (t : Z) : bytes := mbr_sector (zeros 446) (hd_entries t) [].

Definition hd_manager (w : gmap Z bytes) : VolumeManager (gmap Z bytes) := mkVM false None (Some [hd_disk]) 0 w.

Lemma hd_manages w : manages hd_disk (hd_manager w).
Proof. by split. Qed.

Lemma hd_mbr_ok t : 0 <= t < 256 -> mbr_ok (zeros 446) (hd_entries t).
Proof. intros Ht. split; [done|]. split; [done|]. repeat (apply Forall_cons; split; [repeat split; cbn; lia|]). constructor. Qed.

Lemma rebuild_finds_mbr_witness :
  exists vm' vs, VolumeManager_Rebuild (fun _ => true) (hd_manager {[ 0 := hd_boot 12 ]}) = Some vm' /\
    s_volumes vm' = Some (whole_volume hd_disk [104; 100] :: vs) /\
    Forall2 (fun p v => numbered [104; 100] p.1 (mbr_volume hd_disk (logical_block_size hd_disk) p.2) v) (mbr_parts 1 (hd_entries 12)) vs /\
    same_sectors hd_disk (vm_drivers (hd_manager {[ 0 := hd_boot 12 ]})) (vm_drivers vm').
Proof.
  apply (rebuild_finds_mbr (fun _ => true) (fun _ => eq_refl) hd_disk [104; 100] hd_named hd_reads hd_table eq_refl
    (hd_manager {[ 0 := hd_boot 12 ]}) (zeros 446) (hd_entries 12) []).
  - apply hd_manages.
  - split; [done|]. split; [apply hd_mbr_ok; lia|]. vm_compute. reflexivity.
  - reflexivity.
Defined.

(** Two partitions and an unused entry in a table in sector 2. *)
Definition hd_gpt : list gpt_entry :=
  [mkGptEntry (replicate 16 7) (replicate 16 1) 3 9 0 (zeros 72); mkGptEntry (zeros 16) (zeros 16) 0 0 0 (zeros 72);
   mkGptEntry (replicate 16 8) (replicate 16 2) 10 39 4 (zeros 72)].

Definition hd_gpt_disk : gmap Z bytes :=
  {[ 0 := hd_boot 238; 1 := gpt_header (zeros 64) 2 3 128 (zeros 424); 2 := concat (encode_gpt_entry <$> hd_gpt) ++ zeros 128 ]}.

Lemma hd_gpt_ok : has_gpt hd_disk hd_gpt_disk hd_gpt 128.
Proof.
  exists (zeros 64), 2, (zeros 424), (zeros 128). split; [done|]. split; [done|]. split; [vm_compute; reflexivity|].
  split; [lia|]. split; [done|]. split; [done|]. split; [repeat (apply Forall_cons; split; [repeat split; cbn; lia|]); constructor|].
  cbv zeta. split; [lia|]. split; [done|]. vm_compute. reflexivity.
Qed.

Lemma rebuild_finds_gpt_witness :
  exists vm' vs, VolumeManager_Rebuild (fun _ => true) (hd_manager hd_gpt_disk) = Some vm' /\
    s_volumes vm' = Some (whole_volume hd_disk [104; 100] :: vs) /\
    Forall2 (fun p v => numbered [104; 100] p.1 (gpt_volume hd_disk (logical_block_size hd_disk) p.2) v) (number 1 (List.filter gpt_used hd_gpt)) vs /\
    same_sectors hd_disk (vm_drivers (hd_manager hd_gpt_disk)) (vm_drivers vm').
Proof.
  apply (rebuild_finds_gpt (fun _ => true) (fun _ => eq_refl) hd_disk [104; 100] hd_named hd_reads hd_table eq_refl
    (hd_manager hd_gpt_disk) (zeros 446) (hd_entries 238) [] hd_gpt 128).
  - apply hd_manages.
  - split; [done|]. split; [apply hd_mbr_ok; lia|]. vm_compute. reflexivity.
  - reflexivity.
  - apply hd_gpt_ok.
Defined.

(** A device name of 62 bytes leaves no room for the suffix: [strcat] writes
    past the 64 bytes of the buffer. *)
Lemma base_name_overflows :
  volume_base_name (Some (mkBlockDevice (Some (cstr (replicate 62 97))) BLKDEV_TYPE_DISK 512 40 None 0)) (zeros 64) 1 = None.
Proof. vm_compute. reflexivity. Qed.

(** A device with blocks of 256 bytes: the signature lies outside of the
    sector buffer. *)
Lemma small_blocks_over_read :
  volume_scan_mbr (fun _ => true) (mkVM true (Some []) None 0 (∅ : gmap Z bytes))
    (Some (mkBlockDevice None BLKDEV_TYPE_DISK 256 4 (Some (mkBlockOps true true false)) 0)) 256 = None.
Proof. vm_compute. reflexivity. Qed.
End Example.
