(* ===== verification/Fat.v ===== *)
(** * FAT volumes ([kernel/filesystem/fat/volume.c], [fat16.c], [fat32.c], and
    the on-disk half of [fatfs.c])

    Boot sector, file allocation table, cluster chains, directory entries and
    file contents.  Functions that touch the disk thread the drivers' state and
    a clock of allocations ([mal k] tells whether the [k]-th succeeds).  [None]
    is undefined behaviour, or a loop over a cluster chain that needs more
    rounds than its fuel: the chain comes from the disk, and the code does not
    bound it. *)

From S2P Require Import Prelude Bytes CString BlockDevice DiskStream DiskRead Volume.

Definition FAT_ATTR_VOLUME_ID : Z := 8.
Definition FAT_ATTR_DIRECTORY : Z := 16.
Definition FAT_ATTR_LONG_NAME : Z := 15.

Inductive FATType := FAT_TYPE_INVALID | FAT_TYPE_16 | FAT_TYPE_32.

#[global] Instance FATType_eq_dec : EqDecision FATType.
Proof. solve_decision. Defined.

(** The fields of the boot sector the driver uses. *)
Record FAT_BootSector := mkBPB {
  jmpBoot0 : Z;
  bytesPerSector : Z;
  sectorsPerCluster : Z;
  reservedSectorCount : Z;
  numFATs : Z;
  rootEntryCount : Z;
  totalSectors16 : Z;
  FATSize16 : Z;
  totalSectors32 : Z;
  fat16_bootSignature : Z;
  FATSize32 : Z;
  rootCluster : Z;
  fat32_bootSignature : Z
}.

Definition sizeof_FAT_BootSector : Z := 512.

(** [memcpy(out_bpb, sector, sizeof(FAT_BootSector))] *)
Definition read_bpb (sector : bytes) : option FAT_BootSector :=
  b ← sub_bytes sector 0 sizeof_FAT_BootSector;
  jmp ← le_at 1 b 0;
  bps ← le_at 2 b 11;
  spc ← le_at 1 b 13;
  rsv ← le_at 2 b 14;
  nf ← le_at 1 b 16;
  rec ← le_at 2 b 17;
  ts16 ← le_at 2 b 19;
  fs16 ← le_at 2 b 22;
  ts32 ← le_at 4 b 32;
  sig16 ← le_at 1 b 38;
  fs32 ← le_at 4 b 36;
  rc ← le_at 4 b 44;
  sig32 ← le_at 1 b 66;
  Some (mkBPB jmp bps spc rsv nf rec ts16 fs16 ts32 sig16 fs32 rc sig32).

Record FATVolume := mkFATVolume {
  f_device : option BlockDevice;
  backing_volume : option Volume;
  lba_offset : Z;
  f_type : FATType;
  bytes_per_sector : Z;
  sectors_per_cluster : Z;
  cluster_size_bytes : Z;
  reserved_sectors : Z;
  fat_count : Z;
  sectors_per_fat : Z;
  root_dir_entries : Z;
  root_dir_sectors : Z;
  fat_start_sector : Z;
  root_dir_sector : Z;
  first_data_sector : Z;
  cluster_count : Z;
  root_cluster : Z;
  total_sectors : Z;
  fat_bits : Z
}.

(** ** Geometry *)

(** [total_sectors], [cluster_count], [root_dir_sectors] and the type; [None]
    when the function returns false. *)
Definition fat_volume_probe_type (bpb : FAT_BootSector) : option (Z * Z * Z * FATType) :=
  let bps := bytesPerSector bpb in
  let spc := sectorsPerCluster bpb in
  if (bps =? 0) || (spc =? 0) || (numFATs bpb =? 0) then None
  else
    let total := if totalSectors16 bpb =? 0 then totalSectors32 bpb else totalSectors16 bpb in
    if total =? 0 then None
    else
      let fat_size := if FATSize16 bpb =? 0 then FATSize32 bpb else FATSize16 bpb in
      if fat_size =? 0 then None
      else
        let root_sectors := wrap 32 (rootEntryCount bpb * 32 + (bps - 1)) / bps in
        let data_sectors := wrap 32 (total - wrap 32 (reservedSectorCount bpb + numFATs bpb * fat_size + root_sectors)) in
        let clusters := data_sectors / spc in
        if clusters <? 4085 then None
        else Some (total, clusters, root_sectors, if clusters <? 65525 then FAT_TYPE_16 else FAT_TYPE_32).

Definition fat16_configure (device : option BlockDevice) (backing : option Volume) (offset total clusters : Z)
  (bpb : FAT_BootSector) : option FATVolume :=
  if FATSize16 bpb =? 0 then None
  else
    let bps := bytesPerSector bpb in
    let rsv := reservedSectorCount bpb in
    let root_sectors := wrap 32 (rootEntryCount bpb * 32 + (bps - 1)) / bps in
    let root_sector := wrap 32 (rsv + numFATs bpb * FATSize16 bpb) in
    Some (mkFATVolume device backing offset FAT_TYPE_16 bps (sectorsPerCluster bpb) (bps *[32] sectorsPerCluster bpb) rsv
            (numFATs bpb) (FATSize16 bpb) (rootEntryCount bpb) root_sectors rsv root_sector
            (root_sector +[32] root_sectors) clusters 0 total 16).

Definition fat32_configure (device : option BlockDevice) (backing : option Volume) (offset total clusters : Z)
  (bpb : FAT_BootSector) : option FATVolume :=
  let fat_size := FATSize32 bpb in
  if fat_size =? 0 then None
  else
    let bps := bytesPerSector bpb in
    let rsv := reservedSectorCount bpb in
    Some (mkFATVolume device backing offset FAT_TYPE_32 bps (sectorsPerCluster bpb) (bps *[32] sectorsPerCluster bpb) rsv
            (numFATs bpb) fat_size 0 0 rsv 0 (wrap 32 (rsv + numFATs bpb * fat_size)) clusters
            (if rootCluster bpb <? 2 then 2 else rootCluster bpb) total 32).

Definition fat_volume_init (backing : option Volume) (device : option BlockDevice) (offset : Z) (bpb : FAT_BootSector) : option FATVolume :=
  p ← fat_volume_probe_type bpb;
  let '(total, clusters, _, type) := p in
  match type with
  | FAT_TYPE_16 => fat16_configure device backing offset total clusters bpb
  | FAT_TYPE_32 => fat32_configure device backing offset total clusters bpb
  | FAT_TYPE_INVALID => None
  end.

(** ** Values of the allocation table *)

Definition fat_volume_is_end (v : FATVolume) (value : Z) : bool :=
  if value <? 2 then true
  else if value =? 4294967295 then true
  else if fat_bits v =? 32 then 268435448 <=? value
  else 65528 <=? value.

Definition fat_volume_is_bad (v : FATVolume) (value : Z) : bool :=
  if fat_bits v =? 32 then value =? 268435447 else value =? 65527.

(** ["FAT16"], ["FAT32"], ["unsupported"] *)
Definition fat_volume_type_name (v : FATVolume) : bytes :=
  match f_type v with
  | FAT_TYPE_16 => [70; 65; 84; 49; 54]
  | FAT_TYPE_32 => [70; 65; 84; 51; 50]
  | FAT_TYPE_INVALID => [117; 110; 115; 117; 112; 112; 111; 114; 116; 101; 100]
  end.

(** ** Names *)

Definition SPACE : Z := 32.
Definition PERIOD : Z := 46.

(** The part before and the part after the first dot, if there is one. *)
Fixpoint split_dot (s : bytes) : bytes * option bytes :=
  match s with
  | [] => ([], None)
  | c :: s => if c =? PERIOD then ([], Some s) else let '(a, b) := split_dot s in (c :: a, b)
  end.

Definition short_char (c : Z) : Z := let c := to_upper c in if c =? SPACE then 95 else c.

Definition pad_to (n : Z) (s : bytes) : bytes := s ++ replicate (Z.to_nat (n - zlen s)) SPACE.

(** The 11 bytes of the short name; [None] when the function returns false. *)
Definition fatfs_name_to_83 (name : bytes) : option bytes :=
  if bool_decide (name = [PERIOD]) || bool_decide (name = [PERIOD; PERIOD]) then Some (pad_to 11 (to_upper <$> name))
  else
    let '(base, ext) := split_dot name in
    let ext := default [] ext in
    if (zlen base =? 0) || (8 <? zlen base) || (3 <? zlen ext) then None
    else Some (pad_to 8 (short_char <$> base) ++ pad_to 3 (short_char <$> ext)).

(** Copy up to a space while there is room for a terminator. *)
Fixpoint copy_lower (src out : bytes) (out_size : Z) : bytes :=
  match src with
  | [] => out
  | c :: src => if c =? SPACE then out
                else if out_size <=? zlen out + 1 then out else copy_lower src (out ++ [to_lower c]) out_size
  end.

(** The string in a buffer ends at its first NUL. *)
Fixpoint until_nul (s : bytes) : bytes := match s with [] => [] | c :: s => if c =? 0 then [] else c :: until_nul s end.

Definition fatfs_83_to_name (short : bytes) (out_size : Z) : bytes :=
  let out := copy_lower (take 8 short) [] out_size in
  let ext := take 3 (drop 8 short) in
  let out := if existsb (fun c => negb (c =? SPACE)) ext
             then if zlen out + 1 <? out_size then copy_lower ext (out ++ [PERIOD]) out_size else out
             else out in
  until_nul out.

(** ** Directory entries: 32 bytes *)

Definition sizeof_FAT_DirEntry : Z := 32.
Definition entry_name (entry : bytes) : bytes := take 11 entry.
Definition entry_attr (entry : bytes) : Z := default 0 (le_at 1 entry 11).
Definition entry_size (entry : bytes) : Z := default 0 (le_at 4 entry 28).

Definition fat_direntry_is_free (entry : bytes) : bool :=
  let c := default 0 (le_at 1 entry 0) in (c =? 0) || (c =? 229).
Definition fat_direntry_is_long (entry : bytes) : bool := entry_attr entry =? FAT_ATTR_LONG_NAME.
Definition fat_direntry_is_directory (entry : bytes) : bool := negb (Z.land (entry_attr entry) FAT_ATTR_DIRECTORY =? 0).
Definition fat_direntry_first_cluster (entry : bytes) : Z :=
  Z.lor (wrap 32 (Z.shiftl (default 0 (le_at 2 entry 20)) 16)) (default 0 (le_at 2 entry 26)).
Definition is_volume_id (entry : bytes) : bool := negb (Z.land (entry_attr entry) FAT_ATTR_VOLUME_ID =? 0).

(** ** Disk access *)

Section Disk.
Context `{A : Arch} {W : Type} `{!BlockDriver W} (mal : nat -> bool).

(** A driver stores into a buffer of [cap] bytes. *)
Definition fat_volume_read_sector (v : FATVolume) (sector cap : Z) : io W (option bytes) := fun s =>
  let '(w, r) :=
    match backing_volume v with
    | Some vol => Volume_ReadSectors s.1 (Some vol) sector 1 true
    | None => match f_device v with
              | None => (s.1, None)
              | Some _ => BlockDevice_Read s.1 (f_device v) (lba_offset v +[64] sector) 1
              end
    end in
  r ← into_buffer cap r; Some ((w, s.2), r).

Definition fat_volume_read_cluster (v : FATVolume) (cluster cap : Z) : io W (option bytes) := fun s =>
  if cluster <? 2 then Some (s, None)
  else
    let first_sector := wrap 32 (first_data_sector v + (cluster - 2) * sectors_per_cluster v) in
    let sectors := sectors_per_cluster v in
    let '(w, r) :=
      match backing_volume v with
      | Some vol => Volume_ReadSectors s.1 (Some vol) first_sector sectors true
      | None => BlockDevice_Read s.1 (f_device v) (lba_offset v +[64] first_sector) sectors
      end in
    r ← into_buffer cap r; Some ((w, s.2), r).

(** [0xFFFFFFFF] when the sector cannot be read. *)
Definition fat_read_fat_entry (v : FATVolume) (cluster : Z) : io W Z :=
  let entry_size := if fat_bits v =? 32 then 4 else 2 in
  let fat_offset := cluster *[32] entry_size in
  if bytes_per_sector v =? 0 then lift None
  else
    let sector := fat_start_sector v +[32] (fat_offset / bytes_per_sector v) in
    let offset := fat_offset mod bytes_per_sector v in
    ok ← io_malloc mal;
    if negb ok then mret 4294967295
    else
      r ← fat_volume_read_sector v sector (bytes_per_sector v);
      match r with
      | None => mret 4294967295
      | Some buffer =>
          value ← lift (le_at entry_size buffer offset);
          mret (if fat_bits v =? 32 then Z.land value 268435455 else Z.land value 65535)
      end.

Definition fat_volume_get_next_cluster (v : FATVolume) (cluster : Z) : io W Z := fat_read_fat_entry v cluster.

(** ** Directories *)

(** What the loop over the entries of one buffer ends with: an entry, the end
    of the directory, or the state to go on with. *)
Inductive scan (S : Type) := Found (entry : bytes) | Stop | More (s : S).
Arguments Found {S}. Arguments Stop {S}. Arguments More {S}.

(** The loop over [n] entries from number [e] on; [visit] is its body after the
    tests that the two directory functions share: [inr tt] stops at the entry. *)
Fixpoint scan_entries {S} (visit : S -> bytes -> option (S + unit)) (n : nat) (buffer : bytes) (e : Z) (s : S) : option (scan S) :=
  match n with
  | O => Some (More s)
  | Datatypes.S n =>
      entry ← sub_bytes buffer (sizeof_FAT_DirEntry * e) sizeof_FAT_DirEntry;
      first ← le_at 1 entry 0;
      if first =? 0 then Some Stop
      else if fat_direntry_is_free entry || fat_direntry_is_long entry then scan_entries visit n buffer (e + 1) s
      else
        r ← visit s entry;
        match r with
        | inr _ => Some (Found entry)
        | inl s => scan_entries visit n buffer (e + 1) s
        end
  end.

(** The fixed root directory of FAT16, [n] sectors from [i] on. *)
Fixpoint scan_root {S} (visit : S -> bytes -> option (S + unit)) (v : FATVolume) (n : nat) (i : Z) (s : S) : io W (option bytes) :=
  match n with
  | O => mret None
  | Datatypes.S n =>
      r ← fat_volume_read_sector v (root_dir_sector v +[32] i) (bytes_per_sector v);
      match r with
      | None => mret None
      | Some buffer =>
          x ← lift (scan_entries visit (Z.to_nat (bytes_per_sector v / sizeof_FAT_DirEntry)) buffer 0 s);
          match x with
          | Found entry => mret (Some entry)
          | Stop => mret None
          | More s => scan_root visit v n (i + 1) s
          end
      end
  end.

(** A directory in a cluster chain. *)
Fixpoint scan_chain {S} (visit : S -> bytes -> option (S + unit)) (v : FATVolume) (fuel : nat) (cluster : Z) (s : S) : io W (option bytes) :=
  match fuel with
  | O => lift None
  | Datatypes.S fuel =>
      if fat_volume_is_end v cluster then mret None
      else
        r ← fat_volume_read_cluster v cluster (cluster_size_bytes v);
        match r with
        | None => mret None
        | Some buffer =>
            x ← lift (scan_entries visit (Z.to_nat (cluster_size_bytes v / sizeof_FAT_DirEntry)) buffer 0 s);
            match x with
            | Found entry => mret (Some entry)
            | Stop => mret None
            | More s =>
                next ← fat_volume_get_next_cluster v cluster;
                if fat_volume_is_bad v next then mret None else scan_chain visit v fuel next s
            end
        end
  end.

Definition is_fat16 (v : FATVolume) : bool := bool_decide (f_type v = FAT_TYPE_16).

Definition scan_dir {S} (visit : S -> bytes -> option (S + unit)) (fuel : nat) (v : FATVolume) (is_root : bool) (first_cluster : Z) (s : S)
  : io W (option bytes) :=
  ok ← io_malloc mal;
  if negb ok then mret None
  else if is_root && is_fat16 v then scan_root visit v (Z.to_nat (root_dir_sectors v)) 0 s
  else scan_chain visit v fuel first_cluster s.

(** The state is [logical_index].  Only the loop over the FAT16 root skips
    volume labels. *)
Definition visit_index (skip_labels : bool) (target : Z) (logical : Z) (entry : bytes) : option (Z + unit) :=
  if skip_labels && is_volume_id entry then Some (inl logical)
  else if logical =? target then Some (inr tt) else Some (inl (logical +[size_bits] 1)).

(** The entry and its name; every caller passes a name buffer of 64 bytes. *)
Definition fatfs_read_dir_entry_by_index (fuel : nat) (v : FATVolume) (is_root : bool) (first_cluster target : Z)
  : io W (option (bytes * bytes)) :=
  r ← scan_dir (visit_index (is_root && is_fat16 v) target) fuel v is_root first_cluster 0;
  mret ((fun e => (e, fatfs_83_to_name (entry_name e) 64)) <$> r).

Definition visit_name (name : bytes) (want_short : option bytes) (_ : unit) (entry : bytes) : option (unit + unit) :=
  if is_volume_id entry then Some (inl tt)
  else
    let same_short := match want_short with Some s => bool_decide (entry_name entry = s) | None => false end in
    c ← (if same_short then Some 0
         else strcasecmp (Some (cstr (fatfs_83_to_name (entry_name entry) 64))) (Some (cstr name)));
    Some (if c =? 0 then inr tt else inl tt).

Definition fatfs_find_entry (fuel : nat) (v : FATVolume) (is_root : bool) (first_cluster : Z) (name : bytes)
  : io W (option (bytes * bytes)) :=
  let want_short := fatfs_name_to_83 name in
  r ← scan_dir (visit_name name want_short) fuel v is_root first_cluster tt;
  mret ((fun e => (e, fatfs_83_to_name (entry_name e) 64)) <$> r).

(** ** File contents *)

(** [n] links down the chain; [None] when it ends before. *)
Fixpoint skip_loop (v : FATVolume) (n : nat) (cluster : Z) : io W (option Z) :=
  match n with
  | O => mret (Some cluster)
  | S n =>
      cluster ← fat_volume_get_next_cluster v cluster;
      if fat_volume_is_end v cluster then mret None else skip_loop v n cluster
  end.

(** [acc] holds the bytes copied to the caller's buffer so far. *)
Fixpoint read_file_loop (v : FATVolume) (fuel : nat) (cluster cluster_offset to_read : Z) (acc : bytes) : io W bytes :=
  match fuel with
  | O => lift None
  | S fuel =>
      if (0 <? to_read) && negb (fat_volume_is_end v cluster)
      then
        r ← fat_volume_read_cluster v cluster (cluster_size_bytes v);
        match r with
        | None => mret acc
        | Some temp =>
            let start := if zlen acc =? 0 then cluster_offset else 0 in
            let available := cluster_size_bytes v -[size_bits] start in
            let chunk := if to_read <? available then to_read else available in
            part ← lift (sub_bytes temp start chunk);
            let acc := acc ++ part in
            let to_read := to_read - chunk in
            next ← fat_volume_get_next_cluster v cluster;
            if fat_volume_is_bad v next then mret acc else read_file_loop v fuel next 0 to_read acc
        end
      else mret acc
  end.

(** The result code and the bytes stored in the buffer. *)
Definition fatfs_read_file (v : FATVolume) (first_cluster file_size offset size : Z) : io W (Z * bytes) :=
  if file_size <=? offset then mret (0, [])
  else
    let remaining := file_size - offset in
    let to_read := if size <? remaining then size else remaining in
    if to_read =? 0 then mret (0, [])
    else if first_cluster <? 2 then mret (-1, [])
    else if cluster_size_bytes v =? 0 then lift None
    else
      let skip := wrap 32 (offset / cluster_size_bytes v) in
      let cluster_offset := wrap 32 (offset mod cluster_size_bytes v) in
      c ← skip_loop v (Z.to_nat skip) first_cluster;
      match c with
      | None => mret (0, [])
      | Some cluster =>
          ok ← io_malloc mal;
          if negb ok then mret (-1, [])
          else
            out ← read_file_loop v (S (Z.to_nat to_read)) cluster cluster_offset to_read [];
            mret (zlen out, out)
      end.

(** The loop of [fatfs_directory_disk_entry_count], for a directory on the disk. *)
Fixpoint count_loop (fuel chain_fuel : nat) (v : FATVolume) (is_root : bool) (first_cluster count : Z) : io W Z :=
  match fuel with
  | O => lift None
  | S fuel =>
      r ← fatfs_read_dir_entry_by_index chain_fuel v is_root first_cluster count;
      match r with
      | Some _ => count_loop fuel chain_fuel v is_root first_cluster (count +[size_bits] 1)
      | None => mret count
      end
  end.

Definition fatfs_directory_disk_entry_count (fuel : nat) (v : FATVolume) (is_root : bool) (first_cluster : Z) : io W Z :=
  count_loop fuel fuel v is_root first_cluster 0.

(** ** The boot sector *)

Definition fat_read_boot_sector (device : option BlockDevice) (volume : option Volume) : io W (option FAT_BootSector) :=
  match volume, device with
  | None, None => mret None
  | _, _ =>
      let bs := match volume with
                | Some _ => Volume_BlockSize volume
                | None => match device with Some d => logical_block_size d | None => 0 end
                end in
      let bs := if bs =? 0 then 512 else bs in
      ok ← io_malloc mal;
      if negb ok then mret None
      else fun s =>
        let '(w, r) := match volume with
                       | Some _ => Volume_ReadSectors s.1 volume 0 1 true
                       | None => BlockDevice_Read s.1 device 0 1
                       end in
        (r ← lift (into_buffer bs r);
         match r with
         | None => mret None
         | Some sector =>
             b510 ← lift (le_at 1 sector 510);
             b511 ← lift (le_at 1 sector 511);
             bpb ← lift (read_bpb sector);
             mret (if (b510 =? 85) && (b511 =? 170) then Some bpb else None)
         end) (w, s.2)
  end.

Definition fat_probe (device : option BlockDevice) (volume : option Volume) : io W bool :=
  r ← fat_read_boot_sector device volume;
  mret match r with
       | None => false
       | Some bpb =>
           if negb ((jmpBoot0 bpb =? 235) || (jmpBoot0 bpb =? 233)) then false
           else if (bytesPerSector bpb =? 0) || negb (Z.land (bytesPerSector bpb) (bytesPerSector bpb - 1) =? 0) then false
           else if (sectorsPerCluster bpb =? 0) || negb (Z.land (sectorsPerCluster bpb) (sectorsPerCluster bpb - 1) =? 0) then false
           else if 128 <? sectorsPerCluster bpb then false
           else if (numFATs bpb =? 0) || (2 <? numFATs bpb) then false
           else if reservedSectorCount bpb =? 0 then false
           else match fat_volume_probe_type bpb with
                | None => false
                | Some (_, _, _, FAT_TYPE_32) => fat32_bootSignature bpb =? 41
                | Some _ => fat16_bootSignature bpb =? 41
                end
       end.

End Disk.
