(* ===== verification/FatSpec.v ===== *)
(** * Contents of a FAT volume

    The bytes of the volume, the values of its allocation table, the contents
    of a cluster chain, and that the functions of [Fat] compute them.  The
    device behind the volume is any one with the laws of [DiskLaws] whose
    sectors have the size the boot sector claims. *)

From S2P Require Import Prelude Bytes CString BlockDevice DiskStream DiskRead Volume Fat.

Section Contents.
Context `{A : Arch} {W : Type} `{!BlockDriver W} (d : BlockDevice) `{!DiskLaws d}.
Context (mal : nat -> bool).

Local Abbreviation bs := (logical_block_size d).
Local Abbreviation same := (same_sectors d).

(** ** Where the volume lies *)

Definition base (v : FATVolume) : Z := match backing_volume v with Some vol => start_lba vol | None => lba_offset v end.

Definition volume_sectors (v : FATVolume) : Z :=
  match backing_volume v with Some vol => block_count vol | None => disk_size (d := d) - lba_offset v end.

Definition placed (v : FATVolume) : Prop :=
  disk_size (d := d) < 2 ^ 63 /\
  match backing_volume v with
  | Some vol => volume_on d vol
  | None => f_device v = Some d /\ 0 <= lba_offset v <= disk_size (d := d)
  end.

Definition fat_byte (v : FATVolume) (w : W) (o : Z) : Z := disk_byte d w (base v * bs + o).

(** ** Geometry *)

Definition entry_bytes (v : FATVolume) : Z := if fat_bits v =? 32 then 4 else 2.

Definition max_clusters (v : FATVolume) : Z := if fat_bits v =? 32 then 268435445 else 65525.

(** The three areas of the volume follow each other and hold [cluster_count]
    clusters; sectors hold whole table and directory entries. *)
Record fat_ok (v : FATVolume) : Prop := {
  ok_placed : placed v;
  ok_sector : bytes_per_sector v = bs;
  ok_align : bs mod 32 = 0;
  ok_spc : 0 < sectors_per_cluster v;
  ok_cluster : cluster_size_bytes v = bs * sectors_per_cluster v;
  ok_cluster32 : cluster_size_bytes v < 2 ^ 32;
  ok_start : 0 <= fat_start_sector v;
  ok_count : 0 <= cluster_count v;
  ok_fat : fat_start_sector v * bs + (cluster_count v + 2) * entry_bytes v <= first_data_sector v * bs;
  ok_root : is_fat16 v = true -> 0 <= root_dir_sector v /\ 0 <= root_dir_sectors v /\
              root_dir_sector v + root_dir_sectors v <= first_data_sector v;
  ok_data : first_data_sector v + cluster_count v * sectors_per_cluster v <= volume_sectors v;
  ok_total : first_data_sector v + cluster_count v * sectors_per_cluster v < 2 ^ 32;
  ok_numbers : cluster_count v < max_clusters v
}.

Definition is_cluster (v : FATVolume) (c : Z) : Prop := 2 <= c < cluster_count v + 2.

Definition cluster_offset (v : FATVolume) (c : Z) : Z := (first_data_sector v + (c - 2) * sectors_per_cluster v) * bs.

Definition cluster_bytes (v : FATVolume) (w : W) (c : Z) : bytes := bslice (fat_byte v w) (cluster_offset v c) (cluster_size_bytes v).

Definition fat_value (v : FATVolume) (w : W) (c : Z) : Z :=
  let raw := le (bslice (fat_byte v w) (fat_start_sector v * bs + c * entry_bytes v) (entry_bytes v)) in
  if fat_bits v =? 32 then Z.land raw 268435455 else Z.land raw 65535.

(** A chain of clusters that ends with an end mark. *)
Fixpoint linked (v : FATVolume) (w : W) (c : Z) (cs : list Z) : Prop :=
  is_cluster v c /\
  match cs with
  | [] => fat_volume_is_end v (fat_value v w c) = true
  | c' :: cs => fat_value v w c = c' /\ linked v w c' cs
  end.

Definition chain_bytes (v : FATVolume) (w : W) (cs : list Z) : bytes := concat (cluster_bytes v w <$> cs).

(** ** A boot sector that describes its volume *)

Definition total_of (bpb : FAT_BootSector) : Z := if totalSectors16 bpb =? 0 then totalSectors32 bpb else totalSectors16 bpb.
Definition fat_size_of (bpb : FAT_BootSector) : Z := if FATSize16 bpb =? 0 then FATSize32 bpb else FATSize16 bpb.
Definition root_sectors_of (bpb : FAT_BootSector) : Z := (rootEntryCount bpb * 32 + (bytesPerSector bpb - 1)) / bytesPerSector bpb.
Definition system_sectors (bpb : FAT_BootSector) : Z :=
  reservedSectorCount bpb + numFATs bpb * fat_size_of bpb + root_sectors_of bpb.
Definition clusters_of (bpb : FAT_BootSector) : Z := (total_of bpb - system_sectors bpb) / sectorsPerCluster bpb.

(** The fields have the ranges of their types, the areas fit into [sectors]
    sectors, and each allocation table has an entry for every cluster. *)
Record describes (bpb : FAT_BootSector) (sectors : Z) : Prop := {
  bp_sector : bytesPerSector bpb = bs;
  bp_range : bs < 2 ^ 16 /\ bs mod 32 = 0;
  bp_spc : 0 < sectorsPerCluster bpb < 2 ^ 8;
  bp_fats : 0 < numFATs bpb < 2 ^ 8;
  bp_reserved : 0 <= reservedSectorCount bpb < 2 ^ 16;
  bp_root : 0 <= rootEntryCount bpb < 2 ^ 16;
  bp_fat16 : 0 <= FATSize16 bpb < 2 ^ 16;
  bp_fat32 : 0 <= FATSize32 bpb < 2 ^ 32;
  bp_total : system_sectors bpb <= total_of bpb <= sectors;
  bp_total32 : total_of bpb < 2 ^ 32;
  bp_clusters : 4085 <= clusters_of bpb < 268435445;
  bp_small : clusters_of bpb < 65525 -> 0 < FATSize16 bpb /\ (clusters_of bpb + 2) * 2 <= FATSize16 bpb * bs;
  bp_large : 65525 <= clusters_of bpb -> FATSize16 bpb = 0 /\ rootEntryCount bpb = 0 /\ (clusters_of bpb + 2) * 4 <= FATSize32 bpb * bs
}.

Lemma clusters_fit bpb sectors : describes bpb sectors -> clusters_of bpb * sectorsPerCluster bpb <= total_of bpb - system_sectors bpb.
Proof. intros H. pose proof (bp_spc _ _ H). unfold clusters_of. rewrite Z.mul_comm. apply Z.mul_div_le. lia. Qed.

Lemma root_sectors_pos bpb sectors : describes bpb sectors -> 0 <= root_sectors_of bpb.
Proof.
  intros H. pose proof (bp_root _ _ H). pose proof (bp_sector _ _ H) as Hs. pose proof (block_size_pos (d := d)).
  unfold root_sectors_of. rewrite Hs. apply Z.div_pos; lia.
Qed.

Lemma probe_describes bpb sectors : describes bpb sectors ->
  fat_volume_probe_type bpb = Some (total_of bpb, clusters_of bpb, root_sectors_of bpb, if clusters_of bpb <? 65525 then FAT_TYPE_16 else FAT_TYPE_32).
Proof.
  intros H. pose proof (block_size_pos (d := d)) as Hb. pose proof (bp_sector _ _ H) as Hs. pose proof (bp_range _ _ H). pose proof (bp_spc _ _ H).
  pose proof (bp_fats _ _ H). pose proof (bp_reserved _ _ H). pose proof (bp_root _ _ H). pose proof (bp_total _ _ H). pose proof (bp_total32 _ _ H).
  pose proof (bp_clusters _ _ H) as Hc. pose proof (bp_fat16 _ _ H). pose proof (bp_fat32 _ _ H). pose proof (root_sectors_pos _ _ H).
  pose proof (clusters_fit _ _ H). assert (0 < fat_size_of bpb) as Hf.
  { unfold fat_size_of. destruct (Z.eqb_spec (FATSize16 bpb) 0) as [E|]; [|lia]. destruct (Z.lt_ge_cases (clusters_of bpb) 65525) as [Hl|Hl].
    - pose proof (bp_small _ _ H Hl). lia.
    - pose proof (bp_large _ _ H Hl). nia. }
  unfold fat_volume_probe_type. rewrite Hs. fold (total_of bpb) (fat_size_of bpb).
  destruct (Z.eqb_spec bs 0), (Z.eqb_spec (sectorsPerCluster bpb) 0), (Z.eqb_spec (numFATs bpb) 0); try lia. cbn [orb].
  assert (0 <= system_sectors bpb) by (unfold system_sectors; nia). assert (0 < total_of bpb) by nia.
  destruct (Z.eqb_spec (total_of bpb) 0); [lia|]. destruct (Z.eqb_spec (fat_size_of bpb) 0); [lia|].
  rewrite (wrap_small 32 (rootEntryCount bpb * 32 + _)) by lia.
  assert ((rootEntryCount bpb * 32 + (bs - 1)) / bs = root_sectors_of bpb) as -> by (unfold root_sectors_of; by rewrite Hs).
  fold (system_sectors bpb). rewrite (wrap_small 32 (system_sectors bpb)) by lia. rewrite (wrap_small 32 (_ - _)) by lia. cbv zeta. fold (clusters_of bpb).
  destruct (Z.ltb_spec (clusters_of bpb) 4085); [lia|]. done.
Qed.

(** The tables come before the data area. *)
Lemma area_fits rsv fats size root need : 0 < fats -> 0 <= size -> 0 <= root -> need <= size * bs ->
  rsv * bs + need <= (rsv + fats * size + root) * bs.
Proof.
  intros H1 H2 H3 H4. pose proof (block_size_pos (d := d)). assert (size <= fats * size) by nia.
  assert (size * bs <= fats * size * bs) by (apply Z.mul_le_mono_nonneg_r; lia).
  assert (0 <= root * bs) by (apply Z.mul_nonneg_nonneg; lia). rewrite !Z.mul_add_distr_r. lia.
Qed.


(** ** Reading sectors *)

Lemma fat_byte_slice v w o n : bslice (disk_byte d w) (base v * bs + o) n = bslice (fat_byte v w) o n.
Proof. unfold bslice, fat_byte. apply list_fmap_ext. intros k i _. by rewrite Z.add_assoc. Qed.

Lemma fat_byte_same v w w' : same w w' -> forall o, fat_byte v w' o = fat_byte v w o.
Proof. intros H o. by apply same_bytes. Qed.

Lemma bslice_same v w w' o n : same w w' -> bslice (fat_byte v w') o n = bslice (fat_byte v w) o n.
Proof. intros H. unfold bslice. apply list_fmap_ext. intros k i _. by apply fat_byte_same. Qed.

Lemma fat_value_same v w w' c : same w w' -> fat_value v w' c = fat_value v w c.
Proof. intros H. unfold fat_value. by rewrite (bslice_same v w w'). Qed.

Lemma linked_same v w w' c cs : same w w' -> linked v w c cs -> linked v w' c cs.
Proof. intros H. revert c. induction cs as [|c' cs IH]; intros c; cbn [linked]; rewrite (fat_value_same v w w') by done; naive_solver. Qed.

Lemma chain_bytes_same v w w' cs : same w w' -> chain_bytes v w' cs = chain_bytes v w cs.
Proof. intros H. unfold chain_bytes. f_equal. apply list_fmap_ext. intros k c _. by apply bslice_same. Qed.

Hypothesis Hreads : reads_succeed d (disk_size (d := d)).
Hypothesis Hops : exists o, d_ops d = Some o /\ has_read o = true.

(** Both ways to the device, [n] sectors from [s] of the volume on. *)
Lemma placed_read v w s n : placed v -> 0 <= s -> 0 < n -> s + n <= volume_sectors v ->
  exists w', match backing_volume v with
             | Some vol => Volume_ReadSectors w (Some vol) s n true
             | None => BlockDevice_Read w (f_device v) (lba_offset v +[64] s) n
             end = (w', Some (bslice (fat_byte v w) (s * bs) (n * bs))) /\ same w w'.
Proof.
  intros [Hsz Hp] Hs Hn Hv. unfold volume_sectors, fat_byte, base in *. destruct (backing_volume v) as [vol|] eqn:E.
  - pose proof Hp as (Hd & H1 & H2 & H3 & H4). destruct (window_arith d vol s n Hp Hs Hn) as [-> Hlt]; [lia|].
    cbn [Volume_ReadSectors negb orb]. rewrite (wrap_small 64 (start_lba vol + s)) in * by lia. rewrite Hlt.
    destruct (Z.eqb_spec n 0); [lia|]. destruct (Z.ltb_spec (block_count vol) (s + n)); [lia|]. cbv zeta.
    rewrite Hd. destruct (device_read d Hreads Hops w (start_lba vol + s) n) as (w' & -> & Hw); [lia..|]. exists w'. split; [|done].
    do 2 f_equal. unfold bslice. apply list_fmap_ext. intros k i _. f_equal. lia.
  - destruct Hp as [Hd Ho]. rewrite Hd, wrap_small by lia.
    destruct (device_read d Hreads Hops w (lba_offset v + s) n) as (w' & -> & Hw); [lia..|]. exists w'. split; [|done].
    do 2 f_equal. unfold bslice. apply list_fmap_ext. intros k i _. f_equal. lia.
Qed.

Lemma read_sector_spec v w t s : fat_ok v -> 0 <= s < volume_sectors v ->
  exists w', fat_volume_read_sector v s (bytes_per_sector v) (w, t) = Some (w', t, Some (bslice (fat_byte v w) (s * bs) bs)) /\ same w w'.
Proof.
  intros Hv Hs. pose proof (block_size_pos (d := d)). pose proof (ok_placed v Hv) as Hp.
  destruct (placed_read v w s 1 Hp) as (w' & Hr & Hw); [lia..|]. exists w'. split; [|done].
  unfold fat_volume_read_sector. cbn [fst snd]. rewrite Z.mul_1_l in Hr. destruct Hp as [_ Hp].
  destruct (backing_volume v) as [vol|]; [|rewrite (proj1 Hp) in *]; rewrite Hr; cbn [mbind option_bind];
    rewrite into_buffer_fits by (rewrite zlen_bslice, (ok_sector v Hv); lia); done.
Qed.

(** The first sector of a cluster, which the code computes modulo [2 ^ 32]. *)
Lemma cluster_window v c : fat_ok v -> is_cluster v c ->
  0 <= (c - 2) * sectors_per_cluster v /\
  (c - 2) * sectors_per_cluster v + sectors_per_cluster v <= cluster_count v * sectors_per_cluster v.
Proof. intros Hv [H1 H2]. pose proof (ok_spc v Hv). nia. Qed.

Lemma first_data_pos v : fat_ok v -> 0 <= first_data_sector v.
Proof.
  intros Hv. pose proof (block_size_pos (d := d)). pose proof (ok_fat v Hv). pose proof (ok_start v Hv). pose proof (ok_count v Hv).
  assert (0 <= entry_bytes v) by (unfold entry_bytes; by destruct (_ =? _)). nia.
Qed.

Lemma read_cluster_spec v w t c : fat_ok v -> is_cluster v c ->
  exists w', fat_volume_read_cluster v c (cluster_size_bytes v) (w, t) = Some (w', t, Some (cluster_bytes v w c)) /\ same w w'.
Proof.
  intros Hv Hc. pose proof (block_size_pos (d := d)). pose proof (cluster_window v c Hv Hc). pose proof (first_data_pos v Hv).
  pose proof (ok_data v Hv). pose proof (ok_total v Hv). pose proof (ok_spc v Hv). pose proof (ok_cluster v Hv) as Hcs. destruct Hc as [Hc1 Hc2].
  unfold fat_volume_read_cluster. destruct (Z.ltb_spec c 2); [lia|]. rewrite wrap_small by lia. cbv zeta. cbn [fst snd].
  destruct (placed_read v w (first_data_sector v + (c - 2) * sectors_per_cluster v) (sectors_per_cluster v) (ok_placed v Hv))
    as (w' & Hr & Hw); [lia..|]. exists w'. split; [|done].
  unfold cluster_bytes, cluster_offset. rewrite Hcs, (Z.mul_comm bs).
  destruct (backing_volume v) as [vol|]; rewrite Hr; cbn [mbind option_bind]; rewrite into_buffer_fits by (rewrite zlen_bslice; lia); done.
Qed.

(** ** The allocation table *)

(** An entry of the table lies in one sector. *)
Lemma entry_in_sector v c : fat_ok v -> is_cluster v c ->
  let o := c * entry_bytes v in
  0 <= o /\ o mod bs + entry_bytes v <= bs /\ 0 <= o / bs /\ 0 <= fat_start_sector v + o / bs < first_data_sector v /\ o < 2 ^ 32.
Proof.
  intros Hv [H1 H2]. cbv zeta. pose proof (block_size_pos (d := d)) as Hb. pose proof (ok_align v Hv) as Ha. pose proof (ok_fat v Hv) as Hf.
  pose proof (ok_start v Hv). pose proof (ok_numbers v Hv) as Hn. unfold max_clusters in Hn.
  assert (exists k, bs = k * 32) as [k Hk] by (exists (bs / 32); pose proof (Z.div_mod bs 32); lia).
  assert (entry_bytes v = 2 \/ entry_bytes v = 4) as He by (unfold entry_bytes; destruct (_ =? _); auto).
  assert (c * entry_bytes v < 2 ^ 32) by (unfold entry_bytes in *; destruct (fat_bits v =? 32); lia).
  set (o := c * entry_bytes v) in *. pose proof (Z.div_mod o bs ltac:(lia)). pose proof (Z.mod_pos_bound o bs ltac:(lia)).
  assert (0 <= o) by (subst o; nia). assert (0 <= o / bs) by (apply Z.div_pos; lia).
  assert (exists q, o mod bs = q * entry_bytes v) as [q Hq].
  { rewrite Z.mod_eq by lia. destruct He as [He|He]; rewrite He in *.
    - exists (c - k * 16 * (o / bs)). subst o. lia.
    - exists (c - k * 8 * (o / bs)). subst o. lia. }
  assert (o mod bs + entry_bytes v <= bs) by (destruct He as [He|He]; rewrite He in *; lia).
  split_and!; [lia|lia|lia|lia| |lia]. apply (Z.mul_lt_mono_pos_r bs); [lia|]. nia.
Qed.

Hypothesis Hmal : forall k, mal k = true.

Lemma next_cluster_spec v w t c : fat_ok v -> is_cluster v c ->
  exists w', fat_volume_get_next_cluster mal v c (w, t) = Some (w', S t, fat_value v w c) /\ same w w'.
Proof.
  intros Hv Hc. pose proof (entry_in_sector v c Hv Hc) as (H1 & H2 & H3 & H4 & H5). pose proof (block_size_pos (d := d)) as Hb.
  pose proof (ok_data v Hv). pose proof (ok_total v Hv). pose proof (ok_count v Hv). pose proof (ok_spc v Hv).
  unfold fat_volume_get_next_cluster, fat_read_fat_entry. fold (entry_bytes v). rewrite !(ok_sector v Hv).
  destruct (Z.eqb_spec bs 0); [lia|]. rewrite (wrap_small 32 (c * _)) by lia.
  assert (0 <= cluster_count v * sectors_per_cluster v) by nia. rewrite (wrap_small 32 (fat_start_sector v + _)) by lia.
  unfold io_malloc, mbind, st_bind. cbn [fst snd]. rewrite Hmal. cbn [negb].
  destruct (read_sector_spec v w (S t) (fat_start_sector v + c * entry_bytes v / bs) Hv) as (w' & Hr & Hw); [lia|].
  rewrite (ok_sector v Hv) in Hr. rewrite Hr. unfold lift, le_at.
  assert (0 <= entry_bytes v) by (unfold entry_bytes; by destruct (_ =? _)).
  pose proof (Z.mod_pos_bound (c * entry_bytes v) bs ltac:(lia)). rewrite sub_bslice by lia. cbn [mbind option_bind].
  exists w'. split; [|done]. pose proof (Z.div_mod (c * entry_bytes v) bs ltac:(lia)).
  replace ((fat_start_sector v + _) * bs + _) with (fat_start_sector v * bs + c * entry_bytes v) by lia. done.
Qed.

(** A cluster number is neither an end mark nor the bad mark. *)
Lemma cluster_plain v c : fat_ok v -> is_cluster v c -> fat_volume_is_end v c = false /\ fat_volume_is_bad v c = false.
Proof.
  intros Hv [H1 H2]. pose proof (ok_numbers v Hv) as Hn. unfold max_clusters in Hn. unfold fat_volume_is_end, fat_volume_is_bad.
  destruct (Z.ltb_spec c 2); [lia|]. destruct (fat_bits v =? 32).
  - destruct (Z.eqb_spec c 4294967295), (Z.leb_spec 268435448 c), (Z.eqb_spec c 268435447); (lia || done).
  - destruct (Z.eqb_spec c 4294967295), (Z.leb_spec 65528 c), (Z.eqb_spec c 65527); (lia || done).
Qed.

Lemma end_not_bad v x : fat_volume_is_end v x = true -> fat_volume_is_bad v x = false.
Proof.
  unfold fat_volume_is_end, fat_volume_is_bad. destruct (Z.ltb_spec x 2), (Z.eqb_spec x 4294967295), (fat_bits v =? 32);
  repeat match goal with |- context [?a =? ?b] => destruct (Z.eqb_spec a b) end; try (done || lia);
  repeat match goal with |- context [?a <=? ?b] => destruct (Z.leb_spec a b) end; (done || lia).
Qed.

(** ** File contents *)

(** [c] is the head of the chain [l], or an end mark when [l] is empty. *)
Definition tailed (v : FATVolume) (w : W) (c : Z) (l : list Z) : Prop :=
  match l with [] => fat_volume_is_end v c = true | c' :: cs => c' = c /\ linked v w c cs end.

Lemma linked_head v w c cs : linked v w c cs -> is_cluster v c.
Proof. destruct cs; by intros [H _]. Qed.

Lemma linked_next v w c cs : linked v w c cs -> tailed v w (fat_value v w c) cs.
Proof. destruct cs as [|c' cs]; cbn; intros [_ H]; [done|]. destruct H as [-> H]. done. Qed.

Lemma tailed_same v w w' c l : same w w' -> tailed v w c l -> tailed v w' c l.
Proof. intros H. destruct l as [|c' cs]; cbn; [done|]. intros [-> Hl]. split; [done|]. by apply (linked_same v w). Qed.

Lemma tailed_end v w c l : fat_ok v -> tailed v w c l -> fat_volume_is_end v c = bool_decide (l = []).
Proof. intros Hv. destruct l as [|c' cs]; cbn; [done|]. intros [-> Hl]. by apply cluster_plain, (linked_head v w c cs). Qed.

Lemma tailed_not_bad v w c l : fat_ok v -> tailed v w c l -> fat_volume_is_bad v c = false.
Proof. intros Hv. destruct l as [|c' cs]; cbn; [apply end_not_bad|]. intros [-> Hl]. by apply cluster_plain, (linked_head v w c cs). Qed.

(** One link of the chain, as every loop takes it. *)
Lemma follow v w t c cs : fat_ok v -> linked v w c cs ->
  exists w' c', fat_volume_get_next_cluster mal v c (w, t) = Some (w', S t, c') /\ same w w' /\ tailed v w' c' cs.
Proof.
  intros Hv Hl. destruct (next_cluster_spec v w t c Hv (linked_head _ _ _ _ Hl)) as (w' & Hn & Hw).
  exists w', (fat_value v w c). split_and!; [done..|]. eapply tailed_same, linked_next; done.
Qed.

Lemma skip_loop_spec v n : fat_ok v -> forall w t c cs, linked v w c cs ->
  exists w' t' r, skip_loop mal v n c (w, t) = Some (w', t', r) /\ same w w' /\
    match drop n (c :: cs) with [] => r = None | c' :: cs' => r = Some c' /\ linked v w' c' cs' end.
Proof.
  intros Hv. induction n as [|n IH]; intros w t c cs Hl; cbn [skip_loop].
  { exists w, t, (Some c). split_and!; [done|apply same_refl|]. done. }
  unfold mbind, st_bind. destruct (follow v w t c cs Hv Hl) as (w1 & c1 & -> & Hw1 & Ht).
  rewrite (tailed_end v w1 c1 cs Hv Ht). destruct cs as [|c' cs]; cbn [bool_decide_eq_true].
  - rewrite bool_decide_true by done. exists w1, (S t), None. split_and!; [done|done|]. destruct n; done.
  - rewrite bool_decide_false by done. destruct Ht as [-> Ht].
    destruct (IH w1 (S t) c1 cs Ht) as (w' & t' & r & -> & Hw' & Hr). exists w', t', r. split_and!; [done|by eapply same_trans|done].
Qed.

Lemma cluster_bytes_len v w c : fat_ok v -> zlen (cluster_bytes v w c) = cluster_size_bytes v.
Proof. intros Hv. apply zlen_bslice. pose proof (ok_cluster v Hv). pose proof (ok_spc v Hv). pose proof (block_size_pos (d := d)). nia. Qed.

Lemma cluster_size_pos v : fat_ok v -> 0 < cluster_size_bytes v.
Proof. intros Hv. pose proof (ok_cluster v Hv). pose proof (ok_spc v Hv). pose proof (block_size_pos (d := d)). nia. Qed.

(** A cut that starts in the first of two pieces. *)
Lemma cut_app (a b : bytes) o n : 0 <= o < zlen a -> 0 <= n ->
  let chunk := if n <? zlen a - o then n else zlen a - o in
  take (Z.to_nat n) (drop (Z.to_nat o) (a ++ b)) =
    take (Z.to_nat chunk) (drop (Z.to_nat o) a) ++ take (Z.to_nat (n - chunk)) b.
Proof.
  intros Ho Hn. cbv zeta. rewrite drop_app_le by (unfold zlen in *; lia). destruct (Z.ltb_spec n (zlen a - o)).
  - rewrite Z.sub_diag. cbn [take Z.to_nat]. rewrite take_app_le by (rewrite length_drop; unfold zlen in *; lia). by rewrite app_nil_r.
  - rewrite take_app. rewrite length_drop. f_equal; [|f_equal; unfold zlen in *; lia].
    rewrite !take_ge by (rewrite length_drop; unfold zlen in *; lia). done.
Qed.

Lemma read_file_loop_spec v : fat_ok v -> forall fuel w t c l co to_read acc, tailed v w c l ->
  0 <= co < cluster_size_bytes v -> (acc <> [] -> co = 0) -> 0 <= to_read < 2 ^ 32 -> to_read < Z.of_nat fuel ->
  exists w' t', read_file_loop mal v fuel c co to_read acc (w, t) =
      Some (w', t', acc ++ take (Z.to_nat to_read) (drop (Z.to_nat co) (chain_bytes v w l))) /\ same w w'.
Proof.
  intros Hv. pose proof (cluster_size_pos v Hv) as Hp. pose proof (ok_cluster32 v Hv) as H32.
  induction fuel as [|fuel IH]; intros w t c l co to_read acc Ht Hco Hacc Htr Hf; [lia|].
  cbn [read_file_loop]. rewrite (tailed_end v w c l Hv Ht). destruct (Z.ltb_spec 0 to_read) as [Hpos|]; cycle 1.
  { replace to_read with 0 by lia. exists w, t. cbn [andb take Z.to_nat]. rewrite app_nil_r. split; [done|apply same_refl]. }
  destruct l as [|c0 cs].
  { rewrite bool_decide_true by done. exists w, t. cbn [andb negb chain_bytes fmap list_fmap concat]. rewrite drop_nil, take_nil, app_nil_r. split; [done|apply same_refl]. }
  rewrite bool_decide_false by done. cbn [andb negb]. destruct Ht as [-> Hl]. unfold mbind at 1, st_bind at 1.
  destruct (read_cluster_spec v w t c Hv (linked_head _ _ _ _ Hl)) as (w1 & -> & Hw1). cbv zeta.
  replace (if zlen acc =? 0 then co else 0) with co.
  2: { destruct (Z.eqb_spec (zlen acc) 0) as [|Hn]; [done|]. apply Hacc. intros ->. done. }
  rewrite wrap_small by (assert (2 ^ 32 <= 2 ^ size_bits) by (unfold size_bits; destruct the_arch; cbn; lia); lia).
  pose proof (cluster_bytes_len v w c Hv) as Hlen. unfold chain_bytes. rewrite fmap_cons. cbn [concat]. fold (chain_bytes v w cs).
  pose proof (cut_app (cluster_bytes v w c) (chain_bytes v w cs) co to_read ltac:(lia) ltac:(lia)) as Hcut. cbv zeta in Hcut. rewrite Hlen in Hcut.
  set (chunk := if to_read <? cluster_size_bytes v - co then to_read else cluster_size_bytes v - co) in *.
  assert (0 < chunk <= to_read /\ co + chunk <= cluster_size_bytes v) as Hch by (subst chunk; destruct (Z.ltb_spec to_read (cluster_size_bytes v - co)); lia).
  unfold mbind at 1, st_bind at 1, lift. rewrite sub_bytes_ok by lia. cbn [mbind option_bind].
  unfold mbind at 1, st_bind at 1. destruct (follow v w1 t c cs Hv) as (w2 & c2 & -> & Hw2 & Ht2); [by eapply linked_same|].
  rewrite (tailed_not_bad v w2 c2 cs Hv Ht2). set (part := take (Z.to_nat chunk) _) in *.
  assert (zlen part = chunk) as Hpl by (subst part; rewrite zlen_take, zlen_drop by lia; lia).
  destruct (IH w2 (S t) c2 cs 0 (to_read - chunk) (acc ++ part) Ht2) as (w' & t' & Hrun & Hw'); [lia|done|lia|lia|].
  exists w', t'. rewrite Hrun, Hcut, drop_0, (chain_bytes_same v w w2), app_assoc by (by eapply same_trans). split; [done|].
  eapply same_trans; [eapply same_trans|]; done.
Qed.

Lemma drop_chain v w n : fat_ok v -> forall l co, 0 <= co ->
  drop (Z.to_nat (Z.of_nat n * cluster_size_bytes v + co)) (chain_bytes v w l) = drop (Z.to_nat co) (chain_bytes v w (drop n l)).
Proof.
  intros Hv. pose proof (cluster_size_pos v Hv) as Hp. induction n as [|n IH]; intros l co Hco; [done|].
  destruct l as [|c l]; cbn [drop]; [unfold chain_bytes; cbn [fmap list_fmap concat]; by rewrite !drop_nil|]. rewrite <- IH by done.
  unfold chain_bytes. rewrite fmap_cons. cbn [concat]. fold (chain_bytes v w l).
  pose proof (cluster_bytes_len v w c Hv) as Hlen. rewrite drop_app_ge by (unfold zlen in *; nia). f_equal. unfold zlen in *. nia.
Qed.

(** Reading a file on a FAT volume gives the bytes of its cluster chain:
    the [size] bytes from [offset] on of the first [file_size] bytes of the
    chain, fewer at the end of the file, for any offset and any chain that
    ends; the read terminates, leaves the device as it was, and never leaves a
    buffer. *)
Lemma fatfs_read_file_spec v w t c cs file_size offset size :
  fat_ok v -> linked v w c cs -> 0 <= file_size < 2 ^ 32 -> 0 <= offset -> 0 <= size ->
  exists w' t' out, fatfs_read_file mal v c file_size offset size (w, t) = Some (w', t', (zlen out, out)) /\ same w w' /\
    out = take (Z.to_nat size) (drop (Z.to_nat offset) (take (Z.to_nat file_size) (chain_bytes v w (c :: cs)))).
Proof.
  intros Hv Hl Hfs Ho Hs. pose proof (cluster_size_pos v Hv) as Hp. pose proof (linked_head _ _ _ _ Hl) as [Hc _].
  unfold fatfs_read_file. set (chain := chain_bytes v w (c :: cs)).
  rewrite skipn_firstn_comm, take_take. set (to_read := if size <? file_size - offset then size else file_size - offset).
  destruct (Z.leb_spec file_size offset) as [|Hlt].
  { exists w, t, []. split_and!; [done|apply same_refl|]. replace (_ `min` _)%nat with 0%nat by lia. done. }
  replace (Z.to_nat size `min` _)%nat with (Z.to_nat to_read) by (subst to_read; destruct (Z.ltb_spec size (file_size - offset)); lia).
  assert (0 <= to_read < 2 ^ 32) as Htr by (subst to_read; destruct (Z.ltb_spec size (file_size - offset)); lia). cbv zeta. fold to_read.
  destruct (Z.eqb_spec to_read 0) as [->|Hnz].
  { exists w, t, []. split_and!; [done|apply same_refl|done]. }
  destruct (Z.ltb_spec c 2); [lia|]. destruct (Z.eqb_spec (cluster_size_bytes v) 0); [lia|].
  pose proof (Z.div_mod offset (cluster_size_bytes v) ltac:(lia)) as Hdm. pose proof (Z.mod_pos_bound offset (cluster_size_bytes v) ltac:(lia)) as Hm.
  assert (0 <= offset / cluster_size_bytes v <= offset) as Hq by (split; [apply Z.div_pos; lia|apply Z.div_le_upper_bound; nia]).
  rewrite !wrap_small by lia. set (k := Z.to_nat (offset / cluster_size_bytes v)). set (co := offset mod cluster_size_bytes v) in *.
  replace (Z.to_nat offset) with (Z.to_nat (Z.of_nat k * cluster_size_bytes v + co)) by lia. subst chain. rewrite drop_chain by (done || lia).
  unfold mbind at 1, st_bind at 1. destruct (skip_loop_spec v k Hv w t c cs Hl) as (w1 & t1 & r & -> & Hw1 & Hr).
  destruct (drop k (c :: cs)) as [|c' cs'] eqn:Ed.
  { subst r. exists w1, t1, []. split_and!; [done|done|]. cbn. by rewrite drop_nil, take_nil. }
  destruct Hr as [-> Hl']. unfold mbind at 1, st_bind at 1, io_malloc. cbn [fst snd]. rewrite Hmal. cbn [negb].
  destruct (read_file_loop_spec v Hv (S (Z.to_nat to_read)) w1 (S t1) c' (c' :: cs') co to_read []) as (w' & t' & Hrun & Hw');
    [done|lia|done|lia|lia|]. unfold mbind, st_bind. rewrite Hrun. cbn [app]. exists w', t', (take (Z.to_nat to_read) (drop (Z.to_nat co) (chain_bytes v w1 (c' :: cs')))).
  split_and!; [done|by eapply same_trans|]. by rewrite (chain_bytes_same v w w1).
Qed.

End Contents.
