(* ===== verification/FatDir.v ===== *)
(** * Directories of a FAT volume

    The entries of a directory as a list, and that looking up an entry by
    number or by name is looking it up in that list. *)

From S2P Require Import Prelude Bytes CString BlockDevice DiskStream DiskRead Volume Fat FatSpec.

(** ** Entries of a buffer *)

Fixpoint entries_of (n : nat) (b : bytes) : list bytes :=
  match n with O => [] | S n => take 32 b :: entries_of n (drop 32 b) end.

Definition first_byte (e : bytes) : Z := default 0 (e !! 0%nat).

(** The entries up to the end mark that are in use. *)
Fixpoint live (es : list bytes) : list bytes :=
  match es with
  | [] => []
  | e :: es => if first_byte e =? 0 then []
               else if fat_direntry_is_free e || fat_direntry_is_long e then live es
               else e :: live es
  end.

Lemma entries_of_app a : forall b x y, zlen x = 32 * Z.of_nat a -> entries_of (a + b) (x ++ y) = entries_of a x ++ entries_of b y.
Proof.
  induction a as [|a IH]; intros b x y Hx.
  { by rewrite (proj1 (zlen_zero x)) by lia. }
  cbn [entries_of Nat.add app]. unfold zlen in *. rewrite take_app_le, drop_app_le by lia. f_equal. apply IH. unfold zlen. rewrite length_drop. lia.
Qed.

Lemma entries_of_len n : forall b, 32 * Z.of_nat n <= zlen b -> Forall (fun e => zlen e = 32) (entries_of n b).
Proof.
  induction n as [|n IH]; intros b Hb; cbn [entries_of]; constructor.
  - pose proof (zlen_take 32 b ltac:(lia)) as Ht. change (Z.to_nat 32) with 32%nat in Ht. lia.
  - apply IH. pose proof (zlen_drop 32 b ltac:(lia)) as Ht. change (Z.to_nat 32) with 32%nat in Ht. lia.
Qed.

Lemma first_byte_le e : zlen e = 32 -> le_at 1 e 0 = Some (first_byte e).
Proof.
  intros He. unfold le_at. rewrite sub_bytes_ok by lia. unfold first_byte. destruct e as [|b e]; [done|]. change (Some (b + 256 * 0) = Some b). f_equal. lia.
Qed.

Section Scan.
Context {S : Type} (visit : S -> bytes -> option (S + unit)).

(** [scan_entries] on a list. *)
Fixpoint run (s : S) (es : list bytes) : option (scan S) :=
  match es with
  | [] => Some (More S s)
  | e :: es =>
      if first_byte e =? 0 then Some (Stop S)
      else if fat_direntry_is_free e || fat_direntry_is_long e then run s es
      else r ← visit s e; match r with inr _ => Some (Found S e) | inl s => run s es end
  end.

Lemma scan_entries_run n : forall buffer e s, 0 <= e -> 32 * (e + Z.of_nat n) <= zlen buffer ->
  scan_entries visit n buffer e s = run s (entries_of n (drop (Z.to_nat (32 * e)) buffer)).
Proof.
  induction n as [|n IH]; intros buffer e s He Hb; [done|]. cbn [scan_entries entries_of run].
  unfold sizeof_FAT_DirEntry. rewrite sub_bytes_ok by lia. cbn [mbind option_bind]. change (Z.to_nat 32) with 32%nat.
  set (entry := take 32 _). assert (zlen entry = 32) as Hl.
  { subst entry. pose proof (zlen_take 32 (drop (Z.to_nat (32 * e)) buffer) ltac:(lia)) as Ht. rewrite zlen_drop in Ht by lia.
    change (Z.to_nat 32) with 32%nat in Ht. lia. }
  rewrite first_byte_le by done. cbn [mbind option_bind]. destruct (first_byte entry =? 0); [done|].
  assert (drop 32 (drop (Z.to_nat (32 * e)) buffer) = drop (Z.to_nat (32 * (e + 1))) buffer) as -> by (rewrite drop_drop; f_equal; lia).
  destruct (_ || _); [apply IH; lia|]. destruct (visit s entry) as [[s'|]|]; cbn [mbind option_bind]; [apply IH; lia|done|done].
Qed.

Lemma run_app es1 : forall s es2, run s (es1 ++ es2) =
  match run s es1 with Some (More _ s') => run s' es2 | r => r end.
Proof.
  induction es1 as [|e es1 IH]; intros s es2; [done|]. cbn [run app]. destruct (first_byte e =? 0); [done|].
  destruct (_ || _); [apply IH|]. destruct (visit s e) as [[s'|]|]; cbn [mbind option_bind]; [apply IH|done|done].
Qed.

Definition outcome (x : scan S) : option bytes := match x with Found _ e => Some e | _ => None end.

End Scan.

(** ** The two searches on a list of entries *)

(** The entries a search can see: [skip] leaves out volume labels. *)
Definition visible (skip : bool) (es : list bytes) : list bytes := List.filter (fun e => negb (skip && is_volume_id e)) (live es).

Definition short_name (e : bytes) : bytes := fatfs_83_to_name (entry_name e) 64.

Definition name_matches (name e : bytes) : bool :=
  match fatfs_name_to_83 name with Some s => bool_decide (entry_name e = s) | None => false end ||
  bool_decide (to_lower <$> short_name e = to_lower <$> name).

Lemma run_index `{A : Arch} skip target es : forall logical, 0 <= logical <= target -> target < 2 ^ size_bits ->
  exists x, run (visit_index skip target) logical es = Some x /\ outcome x = visible skip es !! Z.to_nat (target - logical).
Proof.
  unfold visible. induction es as [|e es IH]; intros logical Hl Ht; cbn [run live].
  { by exists (More Z logical). }
  destruct (first_byte e =? 0); [by exists (Stop Z)|]. destruct (_ || _); [by apply IH|].
  cbn [List.filter]. assert (visit_index skip target logical e = if skip && is_volume_id e then Some (inl logical)
    else if logical =? target then Some (inr tt) else Some (inl (logical +[size_bits] 1))) as -> by done.
  destruct (skip && is_volume_id e); cbn [negb mbind option_bind]; [by apply IH|].
  destruct (Z.eqb_spec logical target) as [->|Hne]; cbn [mbind option_bind].
  - exists (Found Z e). split; [done|]. by rewrite Z.sub_diag.
  - rewrite wrap_small by lia. destruct (IH (logical + 1)) as (x & Hx & Ho); [lia|done|]. exists x. split; [done|].
    rewrite Ho. replace (Z.to_nat (target - logical)) with (S (Z.to_nat (target - (logical + 1)))) by lia. done.
Qed.

Lemma until_nul_bytes s : Forall is_byte s -> Forall (fun c => 0 < c < 256) (until_nul s).
Proof. induction 1 as [|c s Hc _ IH]; [constructor|]. cbn. destruct (Z.eqb_spec c 0); constructor; [lia|done]. Qed.

Lemma copy_lower_bytes n src : Forall is_byte src -> forall out, Forall is_byte out -> Forall is_byte (copy_lower src out n).
Proof.
  induction 1 as [|c src Hc _ IH]; intros out Ho; cbn; [done|]. destruct (c =? SPACE), (n <=? zlen out + 1); try done. apply IH.
  apply Forall_app. split; [done|]. constructor; [|constructor]. unfold to_lower. destruct (Z.leb_spec 65 c), (Z.leb_spec c 90); cbn [andb]; lia.
Qed.

Lemma short_name_bytes e : Forall is_byte e -> Forall (fun c => 0 < c < 256) (short_name e).
Proof.
  intros He. apply until_nul_bytes. unfold entry_name.
  assert (Forall is_byte (copy_lower (take 8 (take 11 e)) [] 64)) as Ho by (apply copy_lower_bytes; [by repeat apply Forall_take|constructor]).
  destruct (existsb _ _); [|done]. destruct (_ <? _); [|done]. apply copy_lower_bytes; [by apply Forall_take, Forall_drop, Forall_take|].
  apply Forall_app. split; [done|]. constructor; [unfold PERIOD; lia|constructor].
Qed.

Lemma visit_name_spec name e : Forall (fun c => 0 < c < 256) name -> Forall is_byte e ->
  visit_name name (fatfs_name_to_83 name) tt e = Some (if is_volume_id e then inl tt else if name_matches name e then inr tt else inl tt).
Proof.
  intros Hn He. unfold visit_name, name_matches. fold (short_name e). destruct (is_volume_id e); [done|].
  destruct (match fatfs_name_to_83 name with Some _ => _ | None => _ end); [done|]. cbn [orb].
  destruct (strcasecmp_fold (short_name e) name) as (z & -> & Hz); [by apply short_name_bytes|done|]. cbn [mbind option_bind].
  destruct (Z.eqb_spec z 0) as [E|E]; [by rewrite bool_decide_true by (by apply Hz)|by rewrite bool_decide_false by (by rewrite <- Hz)].
Qed.

Lemma run_name name es : Forall (fun c => 0 < c < 256) name -> Forall (Forall is_byte) es ->
  exists x, run (visit_name name (fatfs_name_to_83 name)) tt es = Some x /\ outcome x = List.find (name_matches name) (visible true es).
Proof.
  intros Hn. unfold visible. induction 1 as [|e es He _ IH]; cbn [run live].
  { by exists (More unit tt). }
  destruct (first_byte e =? 0); [by exists (Stop unit)|]. destruct (_ || _); [by apply IH|].
  cbn [List.filter andb]. rewrite visit_name_spec by done. destruct (is_volume_id e); cbn [negb mbind option_bind]; [by apply IH|].
  cbn [List.find]. destruct (name_matches name e); [by exists (Found unit e)|by apply IH].
Qed.

(** ** Short names *)

Lemma split_dot_spec name : forall base ext, split_dot name = (base, ext) ->
  name = base ++ match ext with Some e => PERIOD :: e | None => [] end.
Proof.
  induction name as [|c name IH]; intros base ext; cbn; [by intros [= <- <-]|].
  destruct (Z.eqb_spec c PERIOD) as [->|]; [by intros [= <- <-]|]. destruct (split_dot name) as [a b] eqn:E. intros [= <- <-].
  cbn. by rewrite (IH a b eq_refl) at 1.
Qed.

Lemma lower_short c : c <> SPACE -> short_char c <> SPACE /\ to_lower (short_char c) = to_lower c.
Proof.
  unfold short_char, to_upper, to_lower, SPACE. intros Hc.
  destruct (Z.leb_spec 97 c), (Z.leb_spec c 122); cbn [andb];
    repeat match goal with |- context [?a =? ?b] => destruct (Z.eqb_spec a b) end;
    repeat match goal with |- context [?a <=? ?b] => destruct (Z.leb_spec a b) end; cbn [andb]; split; lia.
Qed.

(** Copying a padded name. *)
Lemma copy_lower_pad k src : (SPACE ∉ src) -> forall out n, zlen out + zlen src < n ->
  copy_lower ((short_char <$> src) ++ replicate k SPACE) out n = out ++ (to_lower <$> src).
Proof.
  intros Hs. induction src as [|c src IH]; intros out n Hn.
  - rewrite app_nil_r. destruct k; [done|]. done.
  - apply not_elem_of_cons in Hs as [Hc Hs]. destruct (lower_short c) as [H1 H2]; [done|]. rewrite zlen_cons in Hn. pose proof (zlen_nonneg src).
    cbn [fmap list_fmap app copy_lower]. destruct (Z.eqb_spec (short_char c) SPACE); [done|]. destruct (Z.leb_spec n (zlen out + 1)); [lia|].
    rewrite H2. rewrite IH by (done || (rewrite zlen_app, zlen_cons; change (zlen []) with 0; lia)).
    rewrite <- app_assoc. done.
Qed.

Lemma pad_len n s : zlen s <= n -> length (pad_to n (short_char <$> s)) = Z.to_nat n.
Proof. intros H. unfold pad_to, zlen in *. rewrite length_app, length_replicate, !length_fmap. lia. Qed.

Lemma until_nul_all s : (0 ∉ s) -> until_nul s = s.
Proof.
  induction s as [|c s IH]; intros H; [done|]. apply not_elem_of_cons in H as [Hc H]. cbn. destruct (Z.eqb_spec c 0); [done|]. by rewrite IH.
Qed.

Lemma lower_nonzero (s : bytes) : (0 ∉ s) -> (0 ∉ (to_lower <$> s)).
Proof.
  intros H. rewrite list_elem_of_fmap. intros (c & E & Hc). unfold to_lower in E. destruct (Z.leb_spec 65 c), (Z.leb_spec c 90); cbn [andb] in E; [lia|..]; subst; done.
Qed.

Lemma pad_blank s : (SPACE ∉ s) -> existsb (fun c => negb (c =? SPACE)) (pad_to 3 (short_char <$> s)) = negb (bool_decide (s = [])).
Proof.
  destruct s as [|c s]; [done|]. intros H. apply not_elem_of_cons in H as [Hc _]. cbn. destruct (lower_short c) as [H1 _]; [done|].
  by destruct (Z.eqb_spec (short_char c) SPACE).
Qed.

(** A name with a short form (at most eight characters, a dot and at most
    three more, no blanks) is 11 bytes on the disk, and the name the driver
    shows for these bytes is the same name in lower case. *)
Theorem short_name_roundtrip name s : fatfs_name_to_83 name = Some s -> (SPACE ∉ name) -> (0 ∉ name) ->
  last name <> Some PERIOD -> length s = 11%nat /\ fatfs_83_to_name s 64 = to_lower <$> name.
Proof.
  intros H Hs H0 Hd. unfold fatfs_name_to_83 in H.
  assert ((bool_decide (name = [PERIOD]) || bool_decide (name = [PERIOD; PERIOD])) = false) as E.
  { apply orb_false_iff. split; apply bool_decide_false; by intros ->. }
  rewrite E in H. destruct (split_dot name) as [base ext] eqn:Hsp. apply split_dot_spec in Hsp. set (x := default [] ext) in *.
  destruct (Z.eqb_spec (zlen base) 0), (Z.ltb_spec 8 (zlen base)), (Z.ltb_spec 3 (zlen x)); try done. cbn [orb] in H. injection H as <-.
  pose proof (pad_len 8 base ltac:(lia)) as L8. pose proof (pad_len 3 x ltac:(lia)) as L3. split; [rewrite length_app, L8, L3; done|].
  assert ((SPACE ∉ base) /\ (SPACE ∉ x)) as [Hb Hx].
  { rewrite Hsp in Hs. apply not_elem_of_app in Hs as [Hs1 Hs2]. split; [done|]. subst x. destruct ext; [|apply not_elem_of_nil].
    by apply not_elem_of_cons in Hs2 as [_ Hs2]. }
  unfold fatfs_83_to_name. rewrite take_app_length', drop_app_length', (take_ge (pad_to 3 _)) by (rewrite ?L8, ?L3; done).
  rewrite pad_blank by done. pose proof (zlen_nonneg base).
  assert (zlen (to_lower <$> base) = zlen base) as Hlb by (unfold zlen; by rewrite length_fmap).
  assert (copy_lower (pad_to 8 (short_char <$> base)) [] 64 = to_lower <$> base) as -> by (apply copy_lower_pad; [done|change (zlen []) with 0; lia]).
  rewrite Hlb. destruct (Z.ltb_spec (zlen base + 1) 64); [|lia].
  assert ((if negb (bool_decide (x = [])) then copy_lower (pad_to 3 (short_char <$> x)) ((to_lower <$> base) ++ [PERIOD]) 64 else to_lower <$> base) = to_lower <$> name) as Hn.
  { rewrite Hsp, fmap_app. destruct ext as [e|]; cbn in x; subst x; [|by rewrite app_nil_r].
    destruct e as [|c e]; [by rewrite Hsp, last_snoc in Hd|]. cbn [negb bool_decide]. unfold pad_to.
    rewrite copy_lower_pad by (done || (cbn [default from_option id] in *; rewrite zlen_app, Hlb; change (zlen [PERIOD]) with 1; lia)). rewrite <- app_assoc. done. }
  rewrite Hn. by apply until_nul_all, lower_nonzero.
Qed.

(** ** Directories on the disk *)

Section Dirs.
Context `{A : Arch} {W : Type} `{!BlockDriver W} (d : BlockDevice) `{!DiskLaws d}.
Context (mal : nat -> bool).
Hypothesis Hreads : reads_succeed d (disk_size (d := d)).
Hypothesis Hops : exists o, d_ops d = Some o /\ has_read o = true.
Hypothesis Hmal : forall k, mal k = true.

Local Abbreviation bs := (logical_block_size d).
Local Abbreviation same := (same_sectors d).

Definition per_sector : nat := Z.to_nat (bs / 32).
Definition per_cluster (v : FATVolume) : nat := Z.to_nat (cluster_size_bytes v / 32).

(** The FAT16 root directory lies in its own area, any other in a chain. *)
Definition dir_entries (v : FATVolume) (w : W) (is_root : bool) (l : list Z) : list bytes :=
  if is_root && is_fat16 v
  then entries_of (Z.to_nat (root_dir_sectors v) * per_sector) (bslice (fat_byte d v w) (root_dir_sector v * bs) (root_dir_sectors v * bs))
  else entries_of (length l * per_cluster v) (chain_bytes d v w l).

Definition is_dir (v : FATVolume) (w : W) (is_root : bool) (c : Z) (l : list Z) : Prop :=
  if is_root && is_fat16 v then True else tailed d v w c l.

Lemma per_sector_size v : fat_ok d v -> 32 * Z.of_nat per_sector = bs.
Proof.
  intros Hv. pose proof (ok_align d v Hv). pose proof (block_size_pos (d := d)). unfold per_sector.
  rewrite Z2Nat.id by (apply Z.div_pos; lia). pose proof (Z.div_mod bs 32). lia.
Qed.

Lemma per_cluster_size v : fat_ok d v -> 32 * Z.of_nat (per_cluster v) = cluster_size_bytes v.
Proof.
  intros Hv. pose proof (cluster_size_pos d v Hv). unfold per_cluster. rewrite Z2Nat.id by (apply Z.div_pos; lia).
  assert (cluster_size_bytes v mod 32 = 0) as Hm.
  { rewrite (ok_cluster d v Hv), Z.mul_mod, (ok_align d v Hv) by lia. done. }
  pose proof (Z.div_mod (cluster_size_bytes v) 32). lia.
Qed.

Section Visit.
Context {S : Type} (visit : S -> bytes -> option (S + unit)).

Lemma scan_root_run v n : fat_ok d v -> is_fat16 v = true -> forall i w t s x, 0 <= i -> i + Z.of_nat n <= root_dir_sectors v ->
  run visit s (entries_of (n * per_sector) (bslice (fat_byte d v w) ((root_dir_sector v + i) * bs) (Z.of_nat n * bs))) = Some x ->
  exists w', scan_root visit v n i s (w, t) = Some (w', t, outcome x) /\ same w w'.
Proof.
  intros Hv H16. pose proof (per_sector_size v Hv) as Hps. pose proof (block_size_pos (d := d)) as Hb.
  destruct (ok_root d v Hv H16) as (Hr1 & Hr2 & Hr3). pose proof (ok_data d v Hv). pose proof (ok_total d v Hv).
  assert (0 <= cluster_count v * sectors_per_cluster v) by (pose proof (ok_count d v Hv); pose proof (ok_spc d v Hv); nia).
  induction n as [|n IH]; intros i w t s x Hi Hn.
  { cbn. intros [= <-]. exists w. split; [done|apply same_refl]. }
  replace (Z.of_nat (Datatypes.S n) * bs) with (bs + Z.of_nat n * bs) by lia. rewrite bslice_app by lia.
  change (Datatypes.S n * per_sector)%nat with (per_sector + n * per_sector)%nat. rewrite entries_of_app, run_app by (rewrite zlen_bslice; lia).
  cbn [scan_root]. rewrite wrap_small by lia. unfold mbind at 1, st_bind at 1.
  destruct (read_sector_spec d Hreads Hops v w t (root_dir_sector v + i) Hv) as (w1 & -> & Hw1); [lia|].
  rewrite (ok_sector d v Hv). unfold sizeof_FAT_DirEntry. fold per_sector.
  unfold mbind at 1, st_bind at 1, lift. rewrite scan_entries_run by (rewrite ?zlen_bslice; lia). change (Z.to_nat (32 * 0)) with 0%nat. rewrite drop_0.
  destruct (run visit s _) as [[e| |s']|]; cbn [mbind option_bind]; intros Hx; try (injection Hx as <-; exists w1; done); [|done].
  destruct (IH (i + 1) w1 t s' x) as (w' & Hrun & Hw'); [lia|lia| |].
  - rewrite (bslice_same d v w w1) by done. rewrite <- Hx. do 2 f_equal. unfold bslice. apply list_fmap_ext. intros k j _. f_equal. lia.
  - exists w'. split; [done|]. by eapply same_trans.
Qed.

Lemma scan_chain_run v : fat_ok d v -> forall l fuel w t c s x, tailed d v w c l -> (length l < fuel)%nat ->
  run visit s (entries_of (length l * per_cluster v) (chain_bytes d v w l)) = Some x ->
  exists w' t', scan_chain mal visit v fuel c s (w, t) = Some (w', t', outcome x) /\ same w w'.
Proof.
  intros Hv. pose proof (per_cluster_size v Hv) as Hps. induction l as [|c0 l IH]; intros fuel w t c s x Ht Hf; (destruct fuel as [|fuel]; [cbn in Hf; lia|]).
  { cbn. rewrite Ht. intros [= <-]. exists w, t. split; [done|apply same_refl]. }
  cbn [scan_chain]. rewrite (tailed_end d v w c (c0 :: l) Hv Ht), bool_decide_false by done. destruct Ht as [-> Hl].
  unfold mbind at 1, st_bind at 1. destruct (read_cluster_spec d Hreads Hops v w t c Hv (linked_head d _ _ _ _ Hl)) as (w1 & -> & Hw1).
  pose proof (cluster_bytes_len d v w c Hv) as Hlen. unfold chain_bytes. rewrite fmap_cons. cbn [concat length]. fold (chain_bytes d v w l).
  change (Datatypes.S (length l) * per_cluster v)%nat with (per_cluster v + length l * per_cluster v)%nat. rewrite entries_of_app, run_app by lia.
  unfold sizeof_FAT_DirEntry. fold (per_cluster v). unfold mbind at 1, st_bind at 1, lift. rewrite scan_entries_run by lia.
  change (Z.to_nat (32 * 0)) with 0%nat. rewrite drop_0.
  destruct (run visit s _) as [[e| |s']|]; cbn [mbind option_bind]; intros Hx; try (injection Hx as <-; exists w1, t; done); [|done].
  unfold mbind at 1, st_bind at 1. destruct (follow d mal Hreads Hops Hmal v w1 t c l Hv) as (w2 & c2 & -> & Hw2 & Ht2); [by eapply linked_same|].
  rewrite (tailed_not_bad d v w2 c2 l Hv Ht2).
  destruct (IH fuel w2 (Datatypes.S t) c2 s' x Ht2) as (w' & t' & Hrun & Hw').
  - cbn in Hf. lia.
  - rewrite <- Hx. do 2 f_equal. apply chain_bytes_same. by eapply same_trans.
  - exists w', t'. split; [done|]. eapply same_trans; [eapply same_trans|]; done.
Qed.

Lemma scan_dir_run v fuel w t is_root c l s x : fat_ok d v -> is_dir v w is_root c l -> (length l < fuel)%nat ->
  run visit s (dir_entries v w is_root l) = Some x ->
  exists w' t', scan_dir mal visit fuel v is_root c s (w, t) = Some (w', t', outcome x) /\ same w w'.
Proof.
  intros Hv Hd Hf Hx. unfold scan_dir, is_dir, dir_entries in *. unfold mbind, st_bind, io_malloc. cbn [fst snd]. rewrite Hmal. cbn [negb].
  destruct (is_root && is_fat16 v) eqn:E.
  - apply andb_true_iff in E as [_ H16]. pose proof (ok_root d v Hv H16) as (_ & Hr & _).
    destruct (scan_root_run v (Z.to_nat (root_dir_sectors v)) Hv H16 0 w (Datatypes.S t) s x) as (w' & Hrun & Hw'); [lia|lia| |by exists w', (Datatypes.S t)].
    rewrite Z2Nat.id, Z.add_0_r by lia. done.
  - by apply (scan_chain_run v Hv l).
Qed.

End Visit.

(** Reading the directory entry with number [i] gives the [i]-th entry in
    use and its name, or nothing when there are fewer: for the fixed root
    directory of FAT16 and for every directory in a cluster chain that ends. *)
Theorem fatfs_dir_entry_by_index_spec v w t fuel is_root c l i : fat_ok d v -> is_dir v w is_root c l -> (length l < fuel)%nat ->
  0 <= i < 2 ^ size_bits ->
  exists w' t', fatfs_read_dir_entry_by_index mal fuel v is_root c i (w, t) =
      Some (w', t', (fun e => (e, short_name e)) <$> visible (is_root && is_fat16 v) (dir_entries v w is_root l) !! Z.to_nat i) /\ same w w'.
Proof.
  intros Hv Hd Hf Hi. unfold fatfs_read_dir_entry_by_index.
  destruct (run_index (is_root && is_fat16 v) i (dir_entries v w is_root l) 0) as (x & Hx & Ho); [lia|lia|].
  destruct (scan_dir_run _ v fuel w t is_root c l 0 x Hv Hd Hf Hx) as (w' & t' & Hrun & Hw'). exists w', t'. split; [|done].
  unfold mbind, st_bind. rewrite Hrun, Ho, Z.sub_0_r. done.
Qed.

(** Every byte of the volume is a byte. *)
Definition sane (v : FATVolume) (w : W) : Prop := forall o, is_byte (fat_byte d v w o).

Lemma bslice_sane v w o n : sane v w -> Forall is_byte (bslice (fat_byte d v w) o n).
Proof. intros H. apply Forall_fmap, Forall_forall. intros i _. apply H. Qed.

Lemma entries_of_bytes n : forall b, Forall is_byte b -> Forall (Forall is_byte) (entries_of n b).
Proof. induction n as [|n IH]; intros b Hb; cbn [entries_of]; constructor; [by apply Forall_take|]. by apply IH, Forall_drop. Qed.

Lemma dir_entries_bytes v w is_root l : sane v w -> Forall (Forall is_byte) (dir_entries v w is_root l).
Proof.
  intros H. unfold dir_entries. destruct (_ && _); apply entries_of_bytes; [by apply bslice_sane|].
  unfold chain_bytes. induction l as [|c l IH]; [constructor|]. rewrite fmap_cons. apply Forall_app. split; [by apply bslice_sane|apply IH].
Qed.

Lemma find_entry_run v w t fuel is_root c l name : fat_ok d v -> is_dir v w is_root c l -> (length l < fuel)%nat -> sane v w ->
  Forall (fun x => 0 < x < 256) name ->
  exists w' t', fatfs_find_entry mal fuel v is_root c name (w, t) =
      Some (w', t', (fun e => (e, short_name e)) <$> List.find (name_matches name) (visible true (dir_entries v w is_root l))) /\ same w w'.
Proof.
  intros Hv Hd Hf Hs Hn. unfold fatfs_find_entry. destruct (run_name name (dir_entries v w is_root l) Hn (dir_entries_bytes _ _ _ _ Hs)) as (x & Hx & Ho).
  destruct (scan_dir_run _ v fuel w t is_root c l tt x Hv Hd Hf Hx) as (w' & t' & Hrun & Hw'). exists w', t'. split; [|done].
  unfold mbind, st_bind. by rewrite Hrun, Ho.
Qed.

End Dirs.
