(* ===== verification/FsWorld.v ===== *)
(** * The memory of a file system driver

    Drivers that keep nodes and volumes on the heap share this state: the
    drivers' state, the clock of allocations, the nodes by address with the
    driver's information, and the volumes with the list of their nodes.  The
    use of an address that holds nothing is [None]. *)

From S2P Require Import Prelude Bytes CString BlockDevice DiskStream DiskRead VfsPath Vfs.

Definition VFS_NODE_FLAG_READONLY : Z := 1.
Definition VFS_OPEN_APPEND : Z := 4.
Definition VFS_OPEN_TRUNC : Z := 16.

Record FsWorld (W I V : Type) := mkFsWorld {
  fw_disk : W;
  fw_clock : nat;
  fw_nodes : gmap Z (VFSNode * I);
  fw_volumes : gmap Z (V * option (list Z))
}.
Arguments mkFsWorld {W I V}. Arguments fw_disk {W I V}. Arguments fw_clock {W I V}. Arguments fw_nodes {W I V}. Arguments fw_volumes {W I V}.

Section World.
Context {W I V : Type}.

Local Abbreviation world := (st (FsWorld W I V)).

Definition run_io {X} (m : io W X) : world X := fun fw =>
  x ← m (fw_disk fw, fw_clock fw);
  let '(w, t, r) := x in Some (mkFsWorld w t (fw_nodes fw) (fw_volumes fw), r).

Definition get_nodes : world (gmap Z (VFSNode * I)) := fun fw => Some (fw, fw_nodes fw).
Definition put_nodes (ns : gmap Z (VFSNode * I)) : world unit := fun fw =>
  Some (mkFsWorld (fw_disk fw) (fw_clock fw) ns (fw_volumes fw), tt).
Definition get_volumes : world (gmap Z (V * option (list Z))) := fun fw => Some (fw, fw_volumes fw).
Definition put_volumes (vs : gmap Z (V * option (list Z))) : world unit := fun fw =>
  Some (mkFsWorld (fw_disk fw) (fw_clock fw) (fw_nodes fw) vs, tt).
Definition get_clock : world nat := fun fw => Some (fw, fw_clock fw).

(** The object behind a pointer that must be valid. *)
Definition the_node (n : Z) : world (VFSNode * I) := ns ← get_nodes; lift (ns !! n).
Definition the_volume (a : Z) : world (V * option (list Z)) := vs ← get_volumes; lift (vs !! a).

Definition put_info (n : Z) (node : VFSNode) (info : I) : world unit := ns ← get_nodes; put_nodes (<[n := (node, info)]> ns).

Lemma node_run (fw : FsWorld W I V) n x : fw_nodes fw !! n = Some x -> the_node n fw = Some (fw, x).
Proof. intros H. unfold the_node, get_nodes, mbind, st_bind, lift. by rewrite H. Qed.

Lemma volume_run (fw : FsWorld W I V) a v : fw_volumes fw !! a = Some v -> the_volume a fw = Some (fw, v).
Proof. intros H. unfold the_volume, get_volumes, mbind, st_bind, lift. by rewrite H. Qed.

Lemma io_run {X} (m : io W X) (fw : FsWorld W I V) w t x : m (fw_disk fw, fw_clock fw) = Some (w, t, x) ->
  run_io m fw = Some (mkFsWorld w t (fw_nodes fw) (fw_volumes fw), x).
Proof. intros H. unfold run_io. by rewrite H. Qed.

End World.

(** Every allocation succeeds. *)
Definition all_ok (k : nat) : bool := true.

(** A name that is neither [.] nor [..] *)
Definition plain_name (name : bytes) : Prop := Forall (fun c => 0 < c < 256) name /\ name <> [46] /\ name <> [46; 46].

Lemma plain_not_dots name : plain_name name -> streq name [46] = false /\ streq name [46; 46] = false.
Proof.
  intros (Hb & H1 & H2). assert (0 ∉ name) as H0 by (intros Hi; rewrite Forall_forall in Hb; specialize (Hb 0 Hi); lia).
  split; apply not_true_iff_false; intros E; apply streq_spec in E; try done; by rewrite !not_elem_of_cons; repeat split; try apply not_elem_of_nil.
Qed.
