(* ===== verification/FatNode.v ===== *)
(** * FAT nodes ([kernel/filesystem/fat/fatfs.c], the driver's operations)

    The driver is read-only on the disk; files and directories created at run
    time live in memory, as the overlay of a node.  The world holds the
    drivers' state, the clock of allocations, the nodes and the volumes in
    memory, each volume with its list of nodes.  [naddr] and [vaddr] give the
    addresses of new nodes and volumes.  [None] is undefined behaviour: the use
    of a freed node among others. *)

From S2P Require Import Prelude Bytes CString BlockDevice DiskStream DiskRead Volume VfsPath Vfs Ramfs Fat FsWorld.

(** [overlay_data] has [overlay_capacity] bytes, none when it is null. *)
Record FATNodeInfo := mkFATNodeInfo {
  fi_volume : Z;
  first_cluster : Z;
  fi_size : Z;
  fi_attr : Z;
  is_root : bool;
  is_overlay : bool;
  overlay_data : bytes;
  overlay_size : Z;
  overlay_children : option (list Z)
}.

Abbreviation FatWorld W := (FsWorld W FATNodeInfo FATVolume).

Section Nodes.
Context `{A : Arch} {W : Type} `{!BlockDriver W} (mal : nat -> bool).
Context (naddr : nat -> gmap Z (VFSNode * FATNodeInfo) -> Z) (vaddr : nat -> gmap Z (FATVolume * option (list Z)) -> Z).

Local Abbreviation fat := (st (FatWorld W)).

Definition fat_malloc : fat bool := run_io (io_malloc mal).

Definition fat_node_info (n : Z) : fat (VFSNode * FATNodeInfo) := the_node n.

(** ** Nodes and volumes *)

Definition fatfs_free_node (n : Z) : fat unit :=
  if n =? NULL then mret tt
  else ns ← get_nodes; lift (ns !! n) ≫= fun _ => put_nodes (delete n ns).

Fixpoint free_all (l : list Z) : fat unit :=
  match l with [] => mret tt | n :: l => fatfs_free_node n ≫= fun _ => free_all l end.

Definition fatfs_destroy_volume (a : Z) : fat unit :=
  if a =? NULL then mret tt
  else
    v ← the_volume a;
    match v.2 with Some l => free_all l | None => mret tt end ≫= fun _ =>
    vs ← get_volumes; put_volumes (delete a vs).

(** Allocations: the node, its information, the copy of the name, the list of
    the volume and its new cell.  [List_Add] drops the node if the last fails. *)
Definition fatfs_alloc_node (a : Z) (parent : Z) (name : bytes) (type : VFSNodeType) : fat (option Z) :=
  if a =? NULL then mret None
  else
    t ← get_clock; ns ← get_nodes;
    let n := naddr t ns in
    ok ← fat_malloc;
    if negb ok then mret None
    else
      ok ← fat_malloc;
      if negb ok then mret None
      else
        node_name ← (if bool_decide (name = []) then mret None
                     else ok ← fat_malloc; lift (strdup (Some (cstr name)) ok) ≫= fun _ => mret (Some name));
        mount ← (if parent =? NULL then mret None else p ← fat_node_info parent; mret (n_mount p.1));
        let info := mkFATNodeInfo a 0 0 0 false false [] 0 None in
        let node := mkNode node_name type VFS_NODE_FLAG_READONLY (if parent =? NULL then None else Some parent) mount in
        v ← the_volume a;
        l ← (match v.2 with
             | Some l => mret (Some l)
             | None => ok ← fat_malloc; mret (if ok : bool then Some [] else None)
             end);
        match l with
        | None => mret None
        | Some l =>
            ok ← fat_malloc;
            vs ← get_volumes;
            put_volumes (<[a := (v.1, Some (if ok : bool then l ++ [n] else l))]> vs) ≫= fun _ =>
            ns ← get_nodes;
            put_nodes (<[n := (node, info)]> ns) ≫= fun _ => mret (Some n)
        end.

(** ** The overlay *)

Definition with_overlay (i : FATNodeInfo) (data : bytes) (size fsize : Z) : FATNodeInfo :=
  mkFATNodeInfo (fi_volume i) (first_cluster i) fsize (fi_attr i) (is_root i) (is_overlay i) data size (overlay_children i).

(** The data after the call; [None] when it returns false.  The loop that
    doubles the capacity is the one of ramfs. *)
Definition fatfs_overlay_reserve (data : bytes) (required : Z) : fat (option bytes) :=
  let capacity := zlen data in
  if required <=? capacity then mret (Some data)
  else
    new_capacity ← lift (double_loop (S (Z.to_nat size_bits)) (if capacity =? 0 then 64 else capacity) required);
    ok ← fat_malloc;
    mret (if ok : bool then Some (data ++ zeros (new_capacity - capacity)) else None).

(** The loop over the children. *)
Fixpoint find_child (ns : gmap Z (VFSNode * FATNodeInfo)) (name : bytes) (cs : list Z) : option (option Z) :=
  match cs with
  | [] => Some None
  | c :: cs =>
      if c =? NULL then find_child ns name cs
      else
        x ← ns !! c;
        match n_name x.1 with
        | Some s => if streq s name then Some (Some c) else find_child ns name cs
        | None => find_child ns name cs
        end
  end.

Definition fatfs_overlay_find_child (info : FATNodeInfo) (name : bytes) : fat (option Z) :=
  match overlay_children info with
  | None => mret None
  | Some cs => ns ← get_nodes; lift (find_child ns name cs)
  end.

Definition fatfs_overlay_child_count (info : FATNodeInfo) : Z :=
  match overlay_children info with Some cs => Z.of_nat (length cs) | None => 0 end.

Definition with_overlay_children (i : FATNodeInfo) (cs : option (list Z)) : FATNodeInfo :=
  mkFATNodeInfo (fi_volume i) (first_cluster i) (fi_size i) (fi_attr i) (is_root i) (is_overlay i) (overlay_data i) (overlay_size i) cs.

Definition fatfs_overlay_add_child (dir child : Z) : fat bool :=
  x ← fat_node_info dir;
  cs ← (match overlay_children x.2 with
        | Some cs => mret (Some cs)
        | None => ok ← fat_malloc; mret (if ok : bool then Some [] else None)
        end);
  match cs with
  | None => mret false
  | Some cs =>
      ok ← fat_malloc;
      put_info dir x.1 (with_overlay_children x.2 (Some (if ok : bool then cs ++ [child] else cs))) ≫= fun _ => mret true
  end.

(** ** Mounting *)

Definition set_root (a : Z) (v : FATVolume) (node : VFSNode) (info : FATNodeInfo) : VFSNode * FATNodeInfo :=
  (mkNode (n_name node) (n_type node) (n_flags node) None None,
   mkFATNodeInfo a (if is_fat16 v then 0 else root_cluster v) 0 FAT_ATTR_DIRECTORY true (is_overlay info) (overlay_data info)
     (overlay_size info) (overlay_children info)).

Definition fat_mount (device : option BlockDevice) (volume : option Volume) : fat (VFSResult * option Z) :=
  match device, volume with
  | None, None => mret (VFS_RES_INVALID, None)
  | _, _ =>
      t ← get_clock; vs ← get_volumes;
      let a := vaddr t vs in
      ok ← fat_malloc;
      if negb ok then mret (VFS_RES_NO_MEMORY, None)
      else
        r ← run_io (fat_read_boot_sector mal device volume);
        match r with
        | None => mret (VFS_RES_ERROR, None)
        | Some bpb =>
            let dev := match device with Some _ => device | None => v ← volume; v_device v end in
            match fat_volume_init volume dev 0 bpb with
            | None => mret (VFS_RES_UNSUPPORTED, None)
            | Some v =>
                vs ← get_volumes;
                put_volumes (<[a := (v, None)]> vs) ≫= fun _ =>
                root ← fatfs_alloc_node a NULL [] VFS_NODE_DIRECTORY;
                match root with
                | None => fatfs_destroy_volume a ≫= fun _ => mret (VFS_RES_NO_MEMORY, None)
                | Some n =>
                    x ← fat_node_info n;
                    let '(node, info) := set_root a v x.1 x.2 in
                    put_info n node info ≫= fun _ => mret (VFS_RES_OK, Some n)
                end
            end
        end
  end.

Definition fat_unmount (root : Z) : fat VFSResult :=
  if root =? NULL then mret VFS_RES_INVALID
  else x ← fat_node_info root; fatfs_destroy_volume (fi_volume x.2) ≫= fun _ => mret VFS_RES_OK.

(** ** Operations of a node *)

(** The handle, null on an error. *)
Definition fat_node_open (n mode : Z) (handle : Z) : fat (VFSResult * Z) :=
  if n =? NULL then mret (VFS_RES_INVALID, NULL)
  else
    x ← fat_node_info n;
    let '(node, info) := x in
    let wants_write := negb (Z.land mode (Z.lor (Z.lor VFS_OPEN_WRITE VFS_OPEN_APPEND) VFS_OPEN_TRUNC) =? 0) in
    if negb (is_overlay info) && wants_write then mret (VFS_RES_ACCESS, NULL)
    else if is_overlay info && bool_decide (n_type node = VFS_NODE_DIRECTORY) && wants_write then mret (VFS_RES_ACCESS, NULL)
    else
      (if is_overlay info && bool_decide (n_type node = VFS_NODE_REGULAR) && negb (Z.land mode VFS_OPEN_TRUNC =? 0)
       then put_info n node (with_overlay info (overlay_data info) 0 0) else mret tt) ≫= fun _ =>
      ok ← fat_malloc;
      mret (if ok : bool then (VFS_RES_OK, handle) else (VFS_RES_NO_MEMORY, NULL)).

Definition fat_node_close (n handle : Z) : fat VFSResult := mret VFS_RES_OK.

(** The result and the bytes stored in the buffer of [size] bytes. *)
Definition fat_node_read (n offset size : Z) : fat (Z * bytes) :=
  if (n =? NULL) || (size =? 0) then mret (-1, [])
  else
    x ← fat_node_info n;
    let '(node, info) := x in
    if is_overlay info
    then
      if bool_decide (n_type node = VFS_NODE_DIRECTORY) then mret (-1, [])
      else if (overlay_size info <=? offset) || bool_decide (overlay_data info = []) then mret (0, [])
      else
        let available := Z.min size (overlay_size info - offset) in
        out ← lift (sub_bytes (overlay_data info) offset available);
        mret (available, out)
    else if bool_decide (n_type node = VFS_NODE_DIRECTORY) then mret (-1, [])
    else
      v ← the_volume (fi_volume info);
      run_io (fatfs_read_file mal v.1 (first_cluster info) (fi_size info) offset size).

Definition fat_node_write (n offset : Z) (buffer : bytes) : fat Z :=
  let size := zlen buffer in
  if (n =? NULL) || (size =? 0) then mret (-1)
  else
    x ← fat_node_info n;
    let '(node, info) := x in
    if bool_decide (n_type node = VFS_NODE_DIRECTORY) then mret (-1)
    else if negb (is_overlay info) then mret (-1)
    else
      let end_pos := offset +[64] size in
      if SIZE_MAX <? end_pos then mret (-1)
      else
        r ← fatfs_overlay_reserve (overlay_data info) end_pos;
        match r with
        | None => mret (-1)
        | Some data =>
            data ← lift (put_bytes data offset buffer);
            let new_size := if overlay_size info <? end_pos then end_pos else overlay_size info in
            put_info n node (with_overlay info data new_size (wrap 32 new_size)) ≫= fun _ => mret size
        end.

Definition fat_node_truncate (n length : Z) : fat VFSResult :=
  if n =? NULL then mret VFS_RES_INVALID
  else
    x ← fat_node_info n;
    let '(node, info) := x in
    if bool_decide (n_type node = VFS_NODE_DIRECTORY) then mret VFS_RES_INVALID
    else if negb (is_overlay info) then mret VFS_RES_UNSUPPORTED
    else if SIZE_MAX <? length then mret VFS_RES_NO_SPACE
    else
      r ← fatfs_overlay_reserve (overlay_data info) length;
      match r with
      | None => mret VFS_RES_NO_MEMORY
      | Some data =>
          data ← (if overlay_size info <? length
                  then lift (put_bytes data (overlay_size info) (zeros (length - overlay_size info))) else mret data);
          put_info n node (with_overlay info data length (wrap 32 length)) ≫= fun _ => mret VFS_RES_OK
      end.

Definition entry_type (e : bytes) : VFSNodeType := if fat_direntry_is_directory e then VFS_NODE_DIRECTORY else VFS_NODE_REGULAR.

Definition cut_name (s : bytes) : bytes := take (Z.to_nat VFS_NAME_MAX) s.

Definition fat_node_readdir (fuel : nat) (n index : Z) : fat (VFSResult * option VFSDirEntry) :=
  if n =? NULL then mret (VFS_RES_INVALID, None)
  else
    x ← fat_node_info n;
    let '(node, info) := x in
    if negb (bool_decide (n_type node = VFS_NODE_DIRECTORY)) then mret (VFS_RES_INVALID, None)
    else
      r ← (if is_overlay info then mret None
           else v ← the_volume (fi_volume info);
                run_io (fatfs_read_dir_entry_by_index mal fuel v.1 (is_root info) (first_cluster info) index));
      match r with
      | Some (e, name) => mret (VFS_RES_OK, Some (mkDirEntry (cut_name name) (entry_type e)))
      | None =>
          disk_count ← (if is_overlay info then mret 0
                        else v ← the_volume (fi_volume info);
                             run_io (fatfs_directory_disk_entry_count mal fuel v.1 (is_root info) (first_cluster info)));
          let overlay_count := fatfs_overlay_child_count info in
          if index <? disk_count then mret (VFS_RES_NOT_FOUND, None)
          else if overlay_count <=? index - disk_count then mret (VFS_RES_NOT_FOUND, None)
          else
            ns ← get_nodes;
            match overlay_children info with
            | None => mret (VFS_RES_NOT_FOUND, None)
            | Some cs =>
                match cs !! Z.to_nat (index - disk_count) with
                | None => mret (VFS_RES_NOT_FOUND, None)
                | Some c =>
                    if c =? NULL then mret (VFS_RES_NOT_FOUND, None)
                    else
                      y ← lift (ns !! c);
                      match n_name y.1 with
                      | None => mret (VFS_RES_NOT_FOUND, None)
                      | Some s => mret (VFS_RES_OK, Some (mkDirEntry (cut_name s) (n_type y.1)))
                      end
                end
            end
      end.

(** The fields a node gets from its directory entry. *)
Definition from_entry (i : FATNodeInfo) (a : Z) (e : bytes) : FATNodeInfo :=
  mkFATNodeInfo a (fat_direntry_first_cluster e) (entry_size e) (entry_attr e) false (is_overlay i) (overlay_data i) (overlay_size i) (overlay_children i).

Definition fat_node_lookup (fuel : nat) (n : Z) (name : bytes) : fat (VFSResult * option Z) :=
  if n =? NULL then mret (VFS_RES_INVALID, None)
  else
    x ← fat_node_info n;
    let '(node, info) := x in
    if negb (bool_decide (n_type node = VFS_NODE_DIRECTORY)) then mret (VFS_RES_INVALID, None)
    else if streq name [PERIOD] then mret (VFS_RES_OK, Some n)
    else if streq name [PERIOD; PERIOD] then mret (VFS_RES_OK, Some (default n (n_parent node)))
    else
      o ← fatfs_overlay_find_child info name;
      match o with
      | Some c => mret (VFS_RES_OK, Some c)
      | None =>
          if is_overlay info then mret (VFS_RES_NOT_FOUND, None)
          else
            v ← the_volume (fi_volume info);
            r ← run_io (fatfs_find_entry mal fuel v.1 (is_root info) (first_cluster info) name);
            match r with
            | None => mret (VFS_RES_NOT_FOUND, None)
            | Some (e, actual_name) =>
                child ← fatfs_alloc_node (fi_volume info) n actual_name (entry_type e);
                match child with
                | None => mret (VFS_RES_NO_MEMORY, None)
                | Some c =>
                    y ← fat_node_info c;
                    put_info c y.1 (from_entry y.2 (fi_volume info) e) ≫= fun _ => mret (VFS_RES_OK, Some c)
                end
            end
      end.

Definition new_overlay (i : FATNodeInfo) (attr : Z) : FATNodeInfo :=
  mkFATNodeInfo (fi_volume i) (first_cluster i) (fi_size i) attr (is_root i) true (overlay_data i) (overlay_size i) (overlay_children i).

Definition set_flags (v : VFSNode) (flags : Z) : VFSNode := mkNode (n_name v) (n_type v) flags (n_parent v) (n_mount v).

Definition fat_node_create (fuel : nat) (n : Z) (name : bytes) (type : VFSNodeType) : fat (VFSResult * option Z) :=
  if (n =? NULL) || bool_decide (name = []) then mret (VFS_RES_INVALID, None)
  else
    x ← fat_node_info n;
    let '(node, info) := x in
    if negb (bool_decide (n_type node = VFS_NODE_DIRECTORY)) then mret (VFS_RES_INVALID, None)
    else if VFS_NAME_MAX <? zlen name then mret (VFS_RES_INVALID, None)
    else if negb (bool_decide (type = VFS_NODE_REGULAR)) && negb (bool_decide (type = VFS_NODE_DIRECTORY)) then mret (VFS_RES_UNSUPPORTED, None)
    else
      o ← fatfs_overlay_find_child info name;
      match o with
      | Some _ => mret (VFS_RES_EXISTS, None)
      | None =>
          r ← (if is_overlay info then mret None
               else v ← the_volume (fi_volume info);
                    run_io (fatfs_find_entry mal fuel v.1 (is_root info) (first_cluster info) name));
          match r with
          | Some _ => mret (VFS_RES_EXISTS, None)
          | None =>
              child ← fatfs_alloc_node (fi_volume info) n name type;
              match child with
              | None => mret (VFS_RES_NO_MEMORY, None)
              | Some c =>
                  y ← fat_node_info c;
                  put_info c (set_flags y.1 0) (new_overlay y.2 (if bool_decide (type = VFS_NODE_DIRECTORY) then FAT_ATTR_DIRECTORY else 0)) ≫= fun _ =>
                  ok ← fatfs_overlay_add_child n c;
                  if negb ok then fatfs_free_node c ≫= fun _ => mret (VFS_RES_NO_MEMORY, None)
                  else mret (VFS_RES_OK, Some c)
              end
          end
      end.

Definition fat_node_remove (n : Z) (name : bytes) : fat VFSResult := mret VFS_RES_UNSUPPORTED.

Definition fat_node_stat (n : Z) : fat (VFSResult * option VFSNodeInfo) :=
  if n =? NULL then mret (VFS_RES_INVALID, None)
  else
    x ← fat_node_info n;
    let '(node, info) := x in
    mret (VFS_RES_OK, Some
      (if is_overlay info then mkInfo (n_type node) 0 (overlay_size info) (first_cluster info) 0 0 0
       else mkInfo (n_type node) (n_flags node) (fi_size info) (first_cluster info) 0 0 0)).

End Nodes.
