(* ===== verification/FatNodeSpec.v ===== *)
(** * Files of a mounted FAT volume

    Looking a name up in a directory on the disk and reading the node it gives
    reads the contents of the file, through the driver, the volume and the
    block device; and what the overlay keeps. *)

From S2P Require Import Prelude Bytes CString BlockDevice DiskStream DiskRead Volume VfsPath Vfs Ramfs RamfsSpec Fat FatSpec FatDir FsWorld FatNode.

Section Lookup.
Context `{A : Arch} {W : Type} `{!BlockDriver W} (d : BlockDevice) `{!DiskLaws d}.
Context (naddr : nat -> gmap Z (VFSNode * FATNodeInfo) -> Z).
Hypothesis Hreads : reads_succeed d (disk_size (d := d)).
Hypothesis Hops : exists o, d_ops d = Some o /\ has_read o = true.
Hypothesis Hfresh : forall k ns, ns !! naddr k ns = None /\ naddr k ns <> NULL.

Local Abbreviation same := (same_sectors d).

Lemma info_run (fw : FatWorld W) n x : fw_nodes fw !! n = Some x -> fat_node_info n fw = Some (fw, x).
Proof. apply node_run. Qed.

(** A new node: read-only, without a cluster, in the list of its volume. *)
Lemma alloc_node_run (fw : FatWorld W) a v l p pnode name type : a <> NULL -> p <> NULL -> fw_volumes fw !! a = Some (v, l) ->
  fw_nodes fw !! p = Some pnode -> (0 ∉ name) ->
  let n := naddr (fw_clock fw) (fw_nodes fw) in
  exists t, fatfs_alloc_node all_ok naddr a p name type fw =
    Some (mkFsWorld (fw_disk fw) t
            (<[n := (mkNode (if bool_decide (name = []) then None else Some name) type VFS_NODE_FLAG_READONLY (Some p) (n_mount pnode.1),
                     mkFATNodeInfo a 0 0 0 false false [] 0 None)]> (fw_nodes fw))
            (<[a := (v, Some (default [] l ++ [n]))]> (fw_volumes fw)), Some n).
Proof.
  intros Ha Hp Hv Hn H0 n. unfold fatfs_alloc_node. destruct (Z.eqb_spec a NULL); [done|]. destruct (Z.eqb_spec p NULL); [done|].
  assert (exists s, strdup (Some (cstr name)) true = Some s) as [s Hs] by (unfold strdup; rewrite strlen_cstr by done; by eexists).
  unfold mbind, st_bind, fat_malloc, run_io, io_malloc, get_clock, get_nodes, all_ok, lift, get_volumes, mret, st_ret.
  destruct name as [|c name]; destruct l as [l|]; cbn [fw_disk fw_clock fw_nodes fw_volumes fst snd mbind option_bind negb bool_decide decide_rel list_eq_dec];
    rewrite ?Hs; cbn; (erewrite info_run by exact Hn); cbn; (erewrite volume_run by exact Hv); cbn; by eexists.
Qed.

Lemma visible_in skip es e : e ∈ visible skip es -> e ∈ es.
Proof.
  unfold visible. rewrite !list_elem_of_In, List.filter_In. intros [H _]. revert H. induction es as [|x es IH]; cbn; [done|].
  destruct (first_byte x =? 0); [done|]. destruct (_ || _); [auto|]. intros [H|H]; auto.
Qed.

(** A directory on the disk, in memory as the node [n]. *)
Record disk_dir (fw : FatWorld W) (n : Z) (v : FATVolume) (info : FATNodeInfo) (l : list Z) : Prop := {
  dd_node : exists node, fw_nodes fw !! n = Some (node, info) /\ n_type node = VFS_NODE_DIRECTORY;
  dd_null : n <> NULL /\ fi_volume info <> NULL;
  dd_overlay : is_overlay info = false /\ overlay_children info = None;
  dd_volume : exists nl, fw_volumes fw !! fi_volume info = Some (v, nl);
  dd_ok : fat_ok d v;
  dd_sane : sane d v (fw_disk fw);
  dd_dir : is_dir d v (fw_disk fw) (is_root info) (first_cluster info) l
}.

(** The node [lookup] makes for a directory entry. *)
Definition node_of (n : Z) (info : FATNodeInfo) (e : bytes) (x : VFSNode * FATNodeInfo) : Prop :=
  n_type x.1 = entry_type e /\ n_parent x.1 = Some n /\ x.2 = mkFATNodeInfo (fi_volume info) (fat_direntry_first_cluster e) (entry_size e) (entry_attr e) false false [] 0 None.

Lemma lookup_run fw fuel n v info l name : disk_dir fw n v info l -> (length l < fuel)%nat -> plain_name name ->
  match List.find (name_matches name) (visible true (dir_entries d v (fw_disk fw) (is_root info) l)) with
  | None => exists fw', fat_node_lookup all_ok naddr fuel n name fw = Some (fw', (VFS_RES_NOT_FOUND, None)) /\
              fw_nodes fw' = fw_nodes fw /\ fw_volumes fw' = fw_volumes fw /\ same (fw_disk fw) (fw_disk fw')
  | Some e => exists fw' c x nl, fat_node_lookup all_ok naddr fuel n name fw = Some (fw', (VFS_RES_OK, Some c)) /\ c <> NULL /\
              fw_nodes fw !! c = None /\ fw_nodes fw' = <[c := x]> (fw_nodes fw) /\ node_of n info e x /\
              fw_volumes fw' !! fi_volume info = Some (v, nl) /\ same (fw_disk fw) (fw_disk fw')
  end.
Proof.
  intros H Hf Hn. destruct (dd_node _ _ _ _ _ H) as (node & Hnode & Ht). destruct (dd_null _ _ _ _ _ H) as [Hn0 Ha0].
  destruct (dd_overlay _ _ _ _ _ H) as [Ho Hc]. destruct (dd_volume _ _ _ _ _ H) as [nl Hv].
  destruct (find_entry_run d all_ok Hreads Hops (fun _ => eq_refl) v (fw_disk fw) (fw_clock fw) fuel (is_root info) (first_cluster info) l name
    (dd_ok _ _ _ _ _ H) (dd_dir _ _ _ _ _ H) Hf (dd_sane _ _ _ _ _ H) (proj1 Hn)) as (w' & t' & Hfind & Hw').
  destruct (plain_not_dots name Hn) as [D1 D2]. change 46 with PERIOD in D1, D2. unfold fat_node_lookup. destruct (Z.eqb_spec n NULL); [done|].
  rewrite (bind_run _ _ _ _ _ (info_run fw n _ Hnode)). rewrite bool_decide_true, D1, D2 by done. cbn [negb].
  unfold fatfs_overlay_find_child. rewrite Hc. rewrite (bind_run (mret None) _ fw fw None eq_refl), Ho.
  rewrite (bind_run _ _ _ _ _ (volume_run fw _ _ Hv)). rewrite (bind_run _ _ _ _ _ (io_run _ fw _ _ _ Hfind)).
  set (fw1 := mkFsWorld w' t' (fw_nodes fw) (fw_volumes fw)). destruct (List.find _ _) as [e|] eqn:Efind; cbn [fmap option_fmap option_map]; [|by exists fw1].
  assert (0 ∉ short_name e) as H0.
  { apply List.find_some in Efind as [Hin _]. apply list_elem_of_In, visible_in in Hin. intros Hz.
    pose proof (dir_entries_bytes d v (fw_disk fw) (is_root info) l (dd_sane _ _ _ _ _ H)) as Hb. rewrite Forall_forall in Hb.
    pose proof (short_name_bytes e (Hb e Hin)) as Hs. rewrite Forall_forall in Hs. specialize (Hs 0 Hz). lia. }
  destruct (alloc_node_run fw1 (fi_volume info) v nl n (node, info) (short_name e) (entry_type e) Ha0 Hn0 Hv Hnode H0) as [t Halloc].
  rewrite (bind_run _ _ _ _ _ Halloc). set (c := naddr (fw_clock fw1) (fw_nodes fw1)). destruct (Hfresh (fw_clock fw1) (fw_nodes fw1)) as [Hfr Hfn]. fold c in Hfr, Hfn.
  erewrite bind_run by (apply info_run; cbn [fw_nodes]; apply lookup_insert_eq).
  unfold put_info, mbind, st_bind, get_nodes, put_nodes, mret, st_ret. cbn [fw_disk fw_clock fw_nodes fw_volumes fst snd].
  rewrite insert_insert_eq. eexists _, c, _, _. split_and!; [reflexivity|done|done|reflexivity|done| |done]. cbn. by rewrite lookup_insert_eq.
Qed.

(** C20. Opening a file on a FAT volume by name and reading it gives its
    contents: when the first visible entry of the directory whose name matches
    (in its short form, or ignoring case) is a file, lookup makes a new node
    for it, and reading [size] bytes at [offset] of that node gives these bytes
    of the file's cluster chain cut to the file's size, through volume and
    device, whose sectors do not change. *)
Theorem fat_lookup_read fw fuel n v info l name e cs : disk_dir fw n v info l -> (length l < fuel)%nat -> plain_name name ->
  List.find (name_matches name) (visible true (dir_entries d v (fw_disk fw) (is_root info) l)) = Some e ->
  fat_direntry_is_directory e = false -> 0 <= entry_size e < 2 ^ 32 -> linked d v (fw_disk fw) (fat_direntry_first_cluster e) cs ->
  exists fw' c, fat_node_lookup all_ok naddr fuel n name fw = Some (fw', (VFS_RES_OK, Some c)) /\ fw_nodes fw !! c = None /\
    forall offset size, 0 <= offset -> 0 < size ->
    exists fw'' out, fat_node_read all_ok c offset size fw' = Some (fw'', (zlen out, out)) /\ same (fw_disk fw) (fw_disk fw'') /\
      out = take (Z.to_nat size) (drop (Z.to_nat offset)
              (take (Z.to_nat (entry_size e)) (chain_bytes d v (fw_disk fw) (fat_direntry_first_cluster e :: cs)))).
Proof.
  intros H Hf Hn Hfind Hreg Hsz Hl. pose proof (lookup_run fw fuel n v info l name H Hf Hn) as Hrun. rewrite Hfind in Hrun.
  destruct Hrun as (fw' & c & x & nl & Hlk & Hc0 & Hfr & Hns & (Htype & _ & Hinfo) & Hv & Hw). exists fw', c. split_and!; [done|done|].
  intros offset size Ho Hs. unfold fat_node_read. destruct (Z.eqb_spec c NULL); [done|]. destruct (Z.eqb_spec size 0); [lia|]. cbn [orb].
  erewrite bind_run by (apply info_run; rewrite Hns; apply lookup_insert_eq). destruct x as [node i]. cbn [fst snd] in *. subst i.
  cbn [is_overlay]. rewrite Htype. unfold entry_type. rewrite Hreg. cbn [bool_decide fi_volume first_cluster fi_size].
  rewrite bool_decide_false by done. rewrite (bind_run _ _ _ _ _ (volume_run fw' _ _ Hv)). cbn [fst].
  destruct (fatfs_read_file_spec d all_ok Hreads Hops (fun _ => eq_refl) v (fw_disk fw') (fw_clock fw') (fat_direntry_first_cluster e) cs (entry_size e) offset size)
    as (w'' & t'' & out & Hr & Hw'' & Hout); [apply (dd_ok _ _ _ _ _ H)|by apply (linked_same d v (fw_disk fw))|lia|lia|lia|].
  eexists _, out. split_and!; [apply io_run; exact Hr|cbn; by eapply same_trans|]. by rewrite Hout, (chain_bytes_same d v (fw_disk fw)).
Qed.

End Lookup.

(** ** A small volume

    Sectors of 32 bytes: the boot sector, the table, two sectors of root
    directory and three clusters.  [a.txt] has 40 bytes in the clusters 2 and
    4; the directory [d] is the cluster 3, which links to itself. *)
Module Tiny.

Definition device : BlockDevice := mkBlockDevice None BLKDEV_TYPE_DISK 32 7 (Some (mkBlockOps true true true)) 0.

Definition volume : FATVolume :=
  mkFATVolume (Some device) None 0 FAT_TYPE_16 32 1 32 1 1 1 2 2 1 2 4 3 0 7 16.

(** An entry: name, attributes, first cluster, size. *)
Definition entry (name : bytes) (attr cluster size : Z) : bytes :=
  name ++ [attr] ++ zeros 14 ++ le_bytes 2 cluster ++ le_bytes 4 size.

Definition file_entry : bytes := entry ([65] ++ replicate 7 32 ++ [84; 88; 84]) 32 2 40.
Definition dir_entry : bytes := entry ([68] ++ replicate 10 32) 16 3 0.

Definition disk : gmap Z bytes :=
  <[1 := zeros 4 ++ [4; 0; 3; 0; 255; 255]]> (<[2 := file_entry]> (<[3 := dir_entry]>
  (<[4 := replicate 32 1]> (<[5 := entry (replicate 11 88) 32 0 0]> (<[6 := replicate 32 2]> ∅))))).

#[export] Instance laws : DiskLaws (W := gmap Z bytes) device := MemDisk.mem_laws device ltac:(cbn; lia) ltac:(cbn; lia).

Lemma volume_ok : fat_ok device volume.
Proof. constructor; try (done || (cbn; lia)). Qed.

Lemma mem_sane (w : gmap Z bytes) v : map_Forall (fun _ => Forall is_byte) w -> sane device v w.
Proof.
  intros Hw o. unfold fat_byte, disk_byte. set (i := Z.to_nat _). set (k := _ / _). cbn [sector laws MemDisk.mem_laws].
  assert (Forall is_byte (MemDisk.get w device k)) as Hs.
  { unfold MemDisk.get. apply Forall_take, Forall_app. split; [|apply Forall_replicate; lia].
    destruct (w !! k) as [b|] eqn:E; cbn; [apply (Hw k b E)|constructor]. }
  destruct (nth_in_or_default i (MemDisk.get w device k) 0) as [Hin| ->]; [|lia].
  rewrite Forall_forall in Hs. apply Hs. by apply list_elem_of_In.
Qed.

Lemma disk_sane : sane device volume disk.
Proof. apply mem_sane. apply (bool_decide_unpack _). vm_compute. done. Qed.

Definition root_node : VFSNode := mkNode None VFS_NODE_DIRECTORY VFS_NODE_FLAG_READONLY None None.
Definition root_info : FATNodeInfo := mkFATNodeInfo 9 0 0 16 true false [] 0 None.
Definition world : FatWorld (gmap Z bytes) := mkFsWorld disk 0 {[1 := (root_node, root_info)]} {[9 := (volume, Some [1])]}.

Definition naddr (k : nat) (ns : gmap Z (VFSNode * FATNodeInfo)) : Z := fresh ({[NULL]} ∪ dom ns : gset Z).

Lemma naddr_fresh k ns : ns !! naddr k ns = None /\ naddr k ns <> NULL.
Proof.
  unfold naddr. pose proof (is_fresh ({[NULL]} ∪ dom ns : gset Z)) as H. rewrite elem_of_union, elem_of_singleton, elem_of_dom in H.
  split; [|tauto]. apply eq_None_not_Some. intros Hs. apply H. by right.
Qed.

Lemma reads : reads_succeed (W := gmap Z bytes) device (disk_size (d := device)).
Proof. apply MemDisk.mem_reads. Qed.

Lemma ops : exists o, d_ops device = Some o /\ has_read o = true.
Proof. by eexists. Qed.

Lemma root_dir : disk_dir device world 1 volume root_info [].
Proof.
  constructor; [by exists root_node|done|done|by exists (Some [1])|apply volume_ok|apply disk_sane|done].
Qed.

End Tiny.

(** Reading ten bytes at offset 28 of [A.TXT]: four of the first cluster, six
    of the second. *)
Lemma fat_lookup_read_witness : exists fw' c,
  fat_node_lookup all_ok Tiny.naddr 1 1 [65; 46; 84; 88; 84] Tiny.world = Some (fw', (VFS_RES_OK, Some c)) /\
  exists fw'' out, fat_node_read (A := I386) all_ok c 28 10 fw' = Some (fw'', (zlen out, out)) /\ out = replicate 4 1 ++ replicate 6 2.
Proof.
  destruct (fat_lookup_read (A := I386) Tiny.device Tiny.naddr Tiny.reads Tiny.ops Tiny.naddr_fresh Tiny.world 1 1 Tiny.volume Tiny.root_info []
    [65; 46; 84; 88; 84] Tiny.file_entry [4] Tiny.root_dir) as (fw' & c & Hl & _ & Hr).
  - cbn. lia.
  - split_and!; [|done|done]. apply (bool_decide_unpack _). done.
  - vm_compute. reflexivity.
  - reflexivity.
  - vm_compute. split; congruence.
  - vm_compute. split_and!; congruence.
  - exists fw', c. split; [done|]. destruct (Hr 28 10) as (fw'' & out & Hrd & _ & Hout); [lia|lia|]. exists fw'', out. split; [done|].
    rewrite Hout. vm_compute. reflexivity.
Defined.

Lemma fatfs_dir_entry_by_index_spec_witness : exists w t,
  fatfs_read_dir_entry_by_index (A := I386) all_ok 1 Tiny.volume true 0 1 (Tiny.disk, 0%nat) = Some (w, t, Some (Tiny.dir_entry, [100])).
Proof.
  destruct (fatfs_dir_entry_by_index_spec (A := I386) Tiny.device all_ok Tiny.reads Tiny.ops (fun _ => eq_refl) Tiny.volume Tiny.disk 0 1 true 0 [] 1
    Tiny.volume_ok I (le_n 1) ltac:(cbn; lia)) as (w & t & H & _).
  exists w, t. etransitivity; [exact H|]. vm_compute. reflexivity.
Defined.

(** The boot sector of a FAT16 volume of 40000 sectors. *)
Definition floppy_bpb : FAT_BootSector := mkBPB 235 512 4 1 2 512 0 40 40000 41 0 0 0.
Definition disk512 : BlockDevice := mkBlockDevice None BLKDEV_TYPE_DISK 512 40000 (Some (mkBlockOps true true true)) 0.
#[local] Instance laws512 : DiskLaws (W := gmap Z bytes) disk512 := MemDisk.mem_laws disk512 ltac:(cbn; lia) ltac:(cbn; lia).


(** [A.txt] is stored as [A       TXT] and shown as [a.txt]. *)
Lemma short_name_roundtrip_witness : fatfs_name_to_83 [65; 46; 116; 120; 116] = Some (entry_name Tiny.file_entry) /\
  fatfs_83_to_name (entry_name Tiny.file_entry) 64 = [97; 46; 116; 120; 116].
Proof.
  split; [reflexivity|].
  refine (proj2 (short_name_roundtrip [65; 46; 116; 120; 116] (entry_name Tiny.file_entry) eq_refl _ _ _)); [..|done];
    apply (bool_decide_unpack _); vm_compute; done.
Defined.

(** ** Defects *)

(** A directory whose chain is a cycle: a search for a name that is not in it
    never ends, whatever the number of rounds. *)
Lemma find_entry_diverges fuel : fatfs_find_entry all_ok fuel Tiny.volume false 3 [121] (Tiny.disk, 0%nat) = None.
Proof.
  assert (forall t, scan_chain all_ok (visit_name [121] (fatfs_name_to_83 [121])) Tiny.volume fuel 3 tt (Tiny.disk, t) = None) as H.
  { induction fuel as [|fuel IH]; intros t; [done|]. cbn [scan_chain]. change (fat_volume_is_end Tiny.volume 3) with false. cbv iota.
    rewrite (bind_run _ _ (Tiny.disk, t) (Tiny.disk, t) (Some (Tiny.entry (replicate 11 88) 32 0 0))) by (vm_compute; reflexivity).
    rewrite (bind_run _ _ (Tiny.disk, t) (Tiny.disk, t) (More unit tt)) by (vm_compute; reflexivity).
    rewrite (bind_run _ _ (Tiny.disk, t) (Tiny.disk, S t) 3) by (vm_compute; reflexivity). apply IH. }
  unfold fatfs_find_entry, scan_dir. unfold mbind, st_bind. cbn [io_malloc]. unfold io_malloc. cbn [fst snd all_ok negb andb].
  by rewrite H.
Qed.

(** A volume label in a directory that is not the FAT16 root is listed, but a
    lookup of the listed name does not find it. *)
Definition label_disk : gmap Z bytes :=
  <[1 := zeros 4 ++ [4; 0; 255; 255; 255; 255]]> (<[5 := Tiny.entry (replicate 11 76) 8 0 0]> Tiny.disk).

Lemma label_listed_not_found :
  (exists s e name, fatfs_read_dir_entry_by_index (A := I386) all_ok 2 Tiny.volume false 3 0 (label_disk, 0%nat) = Some (s, Some (e, name)) /\
     is_volume_id e = true /\
     exists s', fatfs_find_entry all_ok 2 Tiny.volume false 3 name (label_disk, 0%nat) = Some (s', None)).
Proof. eexists _, _, _. split; [vm_compute; reflexivity|]. split; [reflexivity|]. eexists. vm_compute. reflexivity. Qed.

(** A boot sector that claims sectors smaller than those of the device: the
    driver writes past the end of the buffer. *)
Definition half_volume : FATVolume := mkFATVolume (Some Tiny.device) None 0 FAT_TYPE_16 16 2 32 1 1 1 2 2 1 2 4 3 0 7 16.

Lemma small_sectors_overflow : fat_volume_get_next_cluster all_ok half_volume 2 (Tiny.disk, 0%nat) = None.
Proof. vm_compute. reflexivity. Qed.

(** A file shortened to nothing and then written past its start shows bytes
    that were cut off. *)
Definition overlay_world : FatWorld (gmap Z bytes) :=
  mkFsWorld Tiny.disk 0
    {[2 := (mkNode (Some [120]) VFS_NODE_REGULAR 0 (Some 1) None, mkFATNodeInfo 9 0 3 0 false true [7; 7; 7] 3 None)]} ∅.

Lemma truncated_bytes_return :
  (fat_node_truncate (A := I386) all_ok 2 0 ≫= fun _ => fat_node_write (A := I386) all_ok 2 2 [5] ≫= fun _ => fat_node_read (A := I386) all_ok 2 0 3)
    overlay_world = Some (mkFsWorld Tiny.disk 0
      {[2 := (mkNode (Some [120]) VFS_NODE_REGULAR 0 (Some 1) None, mkFATNodeInfo 9 0 3 0 false true [7; 7; 5] 3 None)]} ∅, (3, [7; 7; 5])).
Proof. vm_compute. reflexivity. Qed.

(** Creating a file whose directory cannot get a list of children frees the
    new node but leaves it in the volume's list: unmounting frees it again. *)
Definition fails_at (n k : nat) : bool := negb (Nat.eqb k n).

Lemma failed_create_double_free :
  (exists fw, fat_node_create (fails_at 5) Tiny.naddr 1 1 [98] VFS_NODE_REGULAR Tiny.world = Some (fw, (VFS_RES_NO_MEMORY, None)) /\
     fat_unmount 1 fw = None) /\
  (exists fw, fat_unmount 1 Tiny.world = Some (fw, VFS_RES_OK)).
Proof. split; eexists; [split|]; vm_compute; reflexivity. Qed.

(** A write whose end wraps around 64 bits leaves the buffer. *)
Lemma overlay_write_wraps : fat_node_write (A := AMD64) all_ok 2 (2 ^ 64 - 1) [5; 5] overlay_world = None.
Proof. vm_compute. reflexivity. Qed.
