(* ===== verification/Iso9660.v ===== *)
(** * The ISO 9660 file system ([kernel/filesystem/iso9660/iso9660.c])

    A read-only driver: the primary volume descriptor, directory records, file
    extents and the node operations.  Offsets of fields are those of the packed
    structures.  A block in memory is its bytes; reading outside of it is
    [None], as is any use of freed memory.  The bytes of the caller's buffer
    are an argument of the read and part of its result. *)

From S2P Require Import Prelude Bytes CString BlockDevice DiskStream DiskRead Volume VfsPath Vfs FsWorld.

Definition ISO9660_VOLUME_DESCRIPTOR_PRIMARY : Z := 1.
Definition ISO9660_VOLUME_DESCRIPTOR_TERMINATOR : Z := 255.
(** ["CD001"] *)
Definition ISO9660_STANDARD_ID : bytes := [67; 68; 48; 48; 49].
Definition ISO9660_FILE_FLAG_DIRECTORY : Z := 2.

(** Offsets in [ISO9660PrimaryVolumeDescriptor] and [ISO9660DirectoryRecordHeader] *)
Definition sizeof_ISO9660PrimaryVolumeDescriptor : Z := 190.
Definition pvd_logical_block_size : Z := 128.
Definition pvd_root_directory_record : Z := 156.
Definition sizeof_ISO9660DirectoryRecordHeader : Z := 33.
Definition rec_extent_lba : Z := 2.
Definition rec_data_length : Z := 10.
Definition rec_file_flags : Z := 25.
Definition rec_identifier_length : Z := 32.

Record ISO9660NodeInfo := mkIsoInfo {
  ii_volume : Z;
  extent_lba : Z;
  data_length : Z;
  ii_flags : Z;
  ii_is_root : bool
}.

(** The list of nodes is kept with the volume in the state. *)
Record ISO9660Volume := mkIsoVolume { iv_device : option BlockDevice; iv_block_size : Z }.

Record ISO9660ParsedDirRecord := mkRecord { r_extent_lba : Z; r_data_length : Z; r_flags : Z; r_name : bytes }.

Definition iso9660_read_lsb16 (buf : bytes) (off : Z) : option Z :=
  b0 ← le_at 1 buf off;
  b1 ← le_at 1 buf (off + 1);
  Some (wrap 16 (Z.lor b0 (Z.shiftl b1 8))).

Definition iso9660_read_lsb32 (buf : bytes) (off : Z) : option Z :=
  b0 ← le_at 1 buf off;
  b1 ← le_at 1 buf (off + 1);
  b2 ← le_at 1 buf (off + 2);
  b3 ← le_at 1 buf (off + 3);
  Some (Z.lor (Z.lor (Z.lor b0 (Z.shiftl b1 8)) (Z.shiftl b2 16)) (Z.shiftl b3 24)).

(** ** Names *)

(** The copying loop over the [n] bytes of the identifier that are left, the
    next at [off]; [pos] characters are in the buffer of [out_size]. *)
Fixpoint normalize_chars (n : nat) (block : bytes) (off pos out_size : Z) : option bytes :=
  match n with
  | O => Some []
  | S n =>
      c ← le_at 1 block off;
      if (c =? 59) || (c =? 0) then Some []
      else if out_size <=? pos + 1 then Some []
      else
        let c := if (65 <=? c) && (c <=? 90) then to_lower c else c in
        rest ← normalize_chars n block (off + 1) (pos + 1) out_size;
        Some (c :: rest)
  end.

(** The loop that drops trailing spaces, from the last character on *)
Fixpoint trim_spaces (rev_name : bytes) : bytes :=
  match rev_name with c :: s => if c =? 32 then trim_spaces s else rev_name | [] => [] end.

(** The characters before the terminator *)
Definition iso9660_normalize_name (block : bytes) (raw raw_len out_size : Z) : option bytes :=
  if out_size =? 0 then Some []
  else
    out ← normalize_chars (Z.to_nat raw_len) block raw 0 out_size;
    Some (reverse (trim_spaces (reverse out))).

(** ** Directories *)

(** What the loop over one block ends with *)
Inductive block_end (S : Type) := NextBlock (s : S) | Stopped (s : S) | Malformed.
Arguments NextBlock {S}. Arguments Stopped {S}. Arguments Malformed {S}.

(** The records of the directory itself and of its parent *)
Definition is_special (block : bytes) (identifier identifier_len : Z) : option bool :=
  if identifier_len =? 1 then c ← le_at 1 block identifier; Some ((c =? 0) || (c =? 1)) else Some false.

Section Driver.
Context `{A : Arch} {W : Type} `{!BlockDriver W} (mal : nat -> bool).
Context (naddr : nat -> gmap Z (VFSNode * ISO9660NodeInfo) -> Z) (vaddr : nat -> gmap Z (ISO9660Volume * option (list Z)) -> Z).

Local Abbreviation iso := (st (FsWorld W ISO9660NodeInfo ISO9660Volume)).

(** [callback] gives the new context and whether to go on. *)
Fixpoint block_loop {S} (callback : S -> ISO9660ParsedDirRecord -> option (S * bool)) (fuel : nat) (block : bytes) (block_size dir_length block_index pos : Z) (s : S)
  : option (block_end S) :=
  match fuel with
  | O => None
  | Datatypes.S fuel =>
      if negb (pos <? block_size) then Some (NextBlock s)
      else
        let absolute_offset := (block_index *[size_bits] block_size) +[size_bits] pos in
        if dir_length <=? absolute_offset then Some (NextBlock s)
        else
          length ← le_at 1 block pos;
          if length =? 0 then Some (NextBlock s)
          else if dir_length <? absolute_offset +[size_bits] length then Some Malformed
          else
            identifier_len ← le_at 1 block (pos + rec_identifier_length);
            let identifier := pos + sizeof_ISO9660DirectoryRecordHeader in
            special ← is_special block identifier identifier_len;
            if special : bool then block_loop callback fuel block block_size dir_length block_index (pos + length) s
            else
              extent ← iso9660_read_lsb32 block (pos + rec_extent_lba);
              len ← iso9660_read_lsb32 block (pos + rec_data_length);
              flags ← le_at 1 block (pos + rec_file_flags);
              name ← iso9660_normalize_name block identifier identifier_len (VFS_NAME_MAX + 1);
              if bool_decide (name = []) then block_loop callback fuel block block_size dir_length block_index (pos + length) s
              else
                r ← callback s (mkRecord extent len flags name);
                if negb r.2 then Some (Stopped r.1)
                else block_loop callback fuel block block_size dir_length block_index (pos + length) r.1
  end.

(** The loop over [n] more blocks; [None] when the function returns false *)
Fixpoint blocks_loop {S} (callback : S -> ISO9660ParsedDirRecord -> option (S * bool)) (n : nat) (v : ISO9660Volume) (block_size extent dir_length block_index : Z) (s : S)
  : io W (option S) :=
  match n with
  | O => mret (Some s)
  | Datatypes.S n =>
      r ← io_read (iv_device v) (extent +[32] block_index) 1 block_size;
      match r with
      | None => mret None
      | Some block =>
          x ← lift (block_loop callback (Datatypes.S (Z.to_nat block_size)) block block_size dir_length block_index 0 s);
          match x with
          | Malformed => mret None
          | Stopped s => mret (Some s)
          | NextBlock s => blocks_loop callback n v block_size extent dir_length (block_index + 1) s
          end
      end
  end.

Definition block_size_of (v : ISO9660Volume) : Z := if iv_block_size v =? 0 then 2048 else iv_block_size v.

Definition iso9660_iterate_directory {S} (callback : S -> ISO9660ParsedDirRecord -> option (S * bool)) (v : ISO9660Volume) (dir : ISO9660NodeInfo) (s : S)
  : io W (option S) :=
  match iv_device v with
  | None => mret None
  | Some _ =>
      let block_size := block_size_of v in
      if data_length dir =? 0 then mret (Some s)
      else
        ok ← io_malloc mal;
        if negb ok then mret None
        else
          let total_blocks := wrap 32 (data_length dir + block_size - 1) / block_size in
          blocks_loop callback (Z.to_nat total_blocks) v block_size (extent_lba dir) (data_length dir) 0 s
  end.

(** The contexts of the two callbacks: the position, and the record found *)
Definition iso9660_readdir_cb (target : Z) (ctx : Z * option ISO9660ParsedDirRecord) (record : ISO9660ParsedDirRecord)
  : option (Z * option ISO9660ParsedDirRecord * bool) :=
  let '(current, found) := ctx in
  if bool_decide (found = None) && (current =? target) then Some (current, Some record, false)
  else Some (current +[size_bits] 1, found, true).

Definition iso9660_lookup_cb (name : bytes) (ctx : option ISO9660ParsedDirRecord) (record : ISO9660ParsedDirRecord)
  : option (option ISO9660ParsedDirRecord * bool) :=
  match ctx with
  | Some _ => Some (ctx, true)
  | None =>
      c ← strcasecmp (Some (cstr (r_name record))) (Some (cstr name));
      Some (if c =? 0 then (Some record, false) else (None, true))
  end.

(** ** Nodes and volumes *)

Definition iso_malloc : iso bool := run_io (io_malloc mal).

Definition iso9660_free_node (n : Z) : iso unit :=
  if n =? NULL then mret tt
  else ns ← get_nodes; lift (ns !! n) ≫= fun _ => put_nodes (delete n ns).

Fixpoint free_nodes (l : list Z) : iso unit :=
  match l with [] => mret tt | n :: l => iso9660_free_node n ≫= fun _ => free_nodes l end.

Definition iso9660_destroy_volume (a : Z) : iso unit :=
  if a =? NULL then mret tt
  else
    v ← the_volume a;
    match v.2 with Some l => free_nodes l | None => mret tt end ≫= fun _ =>
    vs ← get_volumes; put_volumes (delete a vs).

(** Allocations: the node, its information, the copy of the name, the list of
    the volume and its new cell.  [List_Add] drops the node if the last fails;
    [strdup] does not return when its allocation fails. *)
Definition iso9660_alloc_node (a : Z) (parent : Z) (name : bytes) (type : VFSNodeType) : iso (option Z) :=
  if a =? NULL then mret None
  else
    t ← get_clock; ns ← get_nodes;
    let n := naddr t ns in
    ok ← iso_malloc;
    if negb ok then mret None
    else
      ok ← iso_malloc;
      if negb ok then mret None
      else
        node_name ← (if bool_decide (name = []) then mret None
                     else ok ← iso_malloc; lift (strdup (Some (cstr name)) ok) ≫= fun _ => mret (Some name));
        mount ← (if parent =? NULL then mret None else p ← the_node parent; mret (n_mount p.1));
        let info := mkIsoInfo a 0 0 0 false in
        let node := mkNode node_name type VFS_NODE_FLAG_READONLY (if parent =? NULL then None else Some parent) mount in
        v ← the_volume a;
        l ← (match v.2 with
             | Some l => mret (Some l)
             | None => ok ← iso_malloc; mret (if ok : bool then Some [] else None)
             end);
        match l with
        | None => mret None
        | Some l =>
            ok ← iso_malloc;
            vs ← get_volumes;
            put_volumes (<[a := (v.1, Some (if ok : bool then l ++ [n] else l))]> vs) ≫= fun _ =>
            ns ← get_nodes;
            put_nodes (<[n := (node, info)]> ns) ≫= fun _ => mret (Some n)
        end.

(** ** Mounting *)

Definition iso9660_read_sector (device : option BlockDevice) (volume : option Volume) (block_size lba : Z) : io W (option bytes) := fun s =>
  let '(w, r) := match volume with
                 | Some _ => Volume_ReadSectors s.1 volume lba 1 true
                 | None => BlockDevice_Read s.1 device lba 1
                 end in
  r ← into_buffer block_size r; Some ((w, s.2), r).

Definition probe_block_size (device : option BlockDevice) (volume : option Volume) : Z :=
  let block_size := match volume with
                    | Some _ => Volume_BlockSize volume
                    | None => match device with Some d => logical_block_size d | None => 0 end
                    end in
  if block_size =? 0 then 2048 else block_size.

(** The loop over [n] sectors from [lba] on: [None] a read failed, [Some None]
    no descriptor, otherwise the bytes copied to [primary]. *)
Fixpoint find_primary (n : nat) (device : option BlockDevice) (volume : option Volume) (block_size lba : Z) : io W (option (option bytes)) :=
  match n with
  | O => mret (Some None)
  | S n =>
      r ← iso9660_read_sector device volume block_size lba;
      match r with
      | None => mret None
      | Some sector =>
          type ← lift (le_at 1 sector 0);
          id ← lift (sub_bytes sector 1 5);
          if negb (bool_decide (id = ISO9660_STANDARD_ID))
          then if type =? ISO9660_VOLUME_DESCRIPTOR_TERMINATOR then mret (Some None) else find_primary n device volume block_size (lba + 1)
          else if type =? ISO9660_VOLUME_DESCRIPTOR_PRIMARY
          then primary ← lift (sub_bytes sector 0 sizeof_ISO9660PrimaryVolumeDescriptor); mret (Some (Some primary))
          else if type =? ISO9660_VOLUME_DESCRIPTOR_TERMINATOR then mret (Some None)
          else find_primary n device volume block_size (lba + 1)
      end
  end.

(** The root node from the descriptor's record of the root directory *)
Definition root_fields (a : Z) (primary : bytes) (node : VFSNode) : option (VFSNode * ISO9660NodeInfo) :=
  extent ← iso9660_read_lsb32 primary (pvd_root_directory_record + rec_extent_lba);
  len ← iso9660_read_lsb32 primary (pvd_root_directory_record + rec_data_length);
  Some (mkNode (n_name node) (n_type node) (n_flags node) None None, mkIsoInfo a extent len ISO9660_FILE_FLAG_DIRECTORY true).

(** The descriptor's block size is only logged. *)
Definition iso9660_mount (block_device : option BlockDevice) (volume : option Volume) : iso (VFSResult * option Z) :=
  match block_device, volume with
  | None, None => mret (VFS_RES_INVALID, None)
  | _, _ =>
      let device := match block_device with Some _ => block_device | None => v ← volume; v_device v end in
      let block_size := probe_block_size device volume in
      ok ← iso_malloc;
      if negb ok then mret (VFS_RES_NO_MEMORY, None)
      else
        r ← run_io (find_primary 64 block_device volume block_size 16);
        match r with
        | None => mret (VFS_RES_ERROR, None)
        | Some None => mret (VFS_RES_UNSUPPORTED, None)
        | Some (Some primary) =>
            t ← get_clock; vs ← get_volumes;
            let a := vaddr t vs in
            ok ← iso_malloc;
            if negb ok then mret (VFS_RES_NO_MEMORY, None)
            else
              ok ← iso_malloc;
              if negb ok then mret (VFS_RES_NO_MEMORY, None)
              else
                put_volumes (<[a := (mkIsoVolume device block_size, Some [])]> vs) ≫= fun _ =>
                root ← iso9660_alloc_node a NULL [] VFS_NODE_DIRECTORY;
                match root with
                | None => iso9660_destroy_volume a ≫= fun _ => mret (VFS_RES_NO_MEMORY, None)
                | Some n =>
                    x ← the_node n;
                    y ← lift (root_fields a primary x.1);
                    put_info n y.1 y.2 ≫= fun _ => mret (VFS_RES_OK, Some n)
                end
        end
  end.

Definition iso9660_unmount (root : Z) : iso VFSResult :=
  if root =? NULL then mret VFS_RES_INVALID
  else x ← the_node root; iso9660_destroy_volume (ii_volume x.2) ≫= fun _ => mret VFS_RES_OK.

Definition iso9660_probe (device : option BlockDevice) (volume : option Volume) : io W bool :=
  let block_size := probe_block_size device volume in
  ok ← io_malloc mal;
  if negb ok then mret false
  else
    r ← iso9660_read_sector device volume block_size 16;
    match r with
    | None => mret false
    | Some sector =>
        id ← lift (sub_bytes sector 1 5);
        type ← lift (le_at 1 sector 0);
        mret (bool_decide (id = ISO9660_STANDARD_ID) && ((type =? ISO9660_VOLUME_DESCRIPTOR_PRIMARY) || (type =? 0)))
    end.

(** ** Operations of a node *)

(** The handle, null on an error *)
Definition iso9660_node_open (n mode handle : Z) : iso (VFSResult * Z) :=
  if n =? NULL then mret (VFS_RES_INVALID, NULL)
  else if negb (Z.land mode VFS_OPEN_WRITE =? 0) || negb (Z.land mode VFS_OPEN_APPEND =? 0) then mret (VFS_RES_ACCESS, NULL)
  else
    x ← the_node n;
    ok ← iso_malloc;
    mret (if ok : bool then (VFS_RES_OK, handle) else (VFS_RES_NO_MEMORY, NULL)).

Definition iso9660_node_close (n handle : Z) : iso VFSResult := mret VFS_RES_OK.

(** [total_read] bytes are in the caller's buffer [out]. *)
Fixpoint extent_loop (fuel : nat) (v : ISO9660Volume) (block_size extent offset remaining total_read : Z) (out : bytes) : io W (Z * bytes) :=
  match fuel with
  | O => lift None
  | S fuel =>
      if negb (total_read <? remaining) then mret (total_read, out)
      else
        let abs_offset := offset +[64] total_read in
        let lba := extent +[32] (wrap 32 (abs_offset / block_size)) in
        let intra := abs_offset mod block_size in
        let chunk := Z.min (remaining - total_read) (block_size - intra) in
        if (intra =? 0) && (chunk =? block_size) && (block_size <=? remaining - total_read)
        then
          let max_blocks := (remaining - total_read) / block_size in
          let max_blocks := if 4294967295 <? max_blocks then 4294967295 else max_blocks in
          r ← io_read (iv_device v) lba max_blocks (zlen out - total_read);
          match r with
          | None => mret (total_read, out)
          | Some b =>
              out ← lift (put_bytes out total_read b);
              extent_loop fuel v block_size extent offset remaining (total_read +[size_bits] (max_blocks *[size_bits] block_size)) out
          end
        else
          r ← io_read (iv_device v) lba 1 block_size;
          match r with
          | None => mret (total_read, out)
          | Some temp =>
              part ← lift (sub_bytes temp intra chunk);
              out ← lift (put_bytes out total_read part);
              extent_loop fuel v block_size extent offset remaining (total_read + chunk) out
          end
  end.

Definition read_extent (v : ISO9660Volume) (info : ISO9660NodeInfo) (offset : Z) (buffer : bytes) : io W (Z * bytes) :=
  match iv_device v with
  | None => mret (-1, buffer)
  | Some _ =>
      if data_length info <=? offset then mret (0, buffer)
      else
        let remaining := zlen buffer in
        let remaining := if data_length info <? offset +[64] remaining then wrap size_bits (data_length info - offset) else remaining in
        if remaining =? 0 then mret (0, buffer)
        else
          ok ← io_malloc mal;
          if negb ok then mret (-1, buffer)
          else extent_loop (S (Z.to_nat remaining)) v (block_size_of v) (extent_lba info) offset remaining 0 buffer
  end.

Definition iso9660_node_read (n offset : Z) (buffer : bytes) : iso (Z * bytes) :=
  if (n =? NULL) || (zlen buffer =? 0) then mret (-1, buffer)
  else
    x ← the_node n;
    if bool_decide (n_type x.1 = VFS_NODE_DIRECTORY) then mret (-1, buffer)
    else v ← the_volume (ii_volume x.2); run_io (read_extent v.1 x.2 offset buffer).

Definition iso9660_node_write (n handle offset : Z) (buffer : bytes) : iso Z := mret (-1).
Definition iso9660_node_truncate (n handle length : Z) : iso VFSResult := mret VFS_RES_UNSUPPORTED.

Definition record_type (flags : Z) : VFSNodeType := if Z.land flags ISO9660_FILE_FLAG_DIRECTORY =? 0 then VFS_NODE_REGULAR else VFS_NODE_DIRECTORY.

Definition iso9660_node_readdir (n index : Z) : iso (VFSResult * option VFSDirEntry) :=
  if n =? NULL then mret (VFS_RES_INVALID, None)
  else
    x ← the_node n;
    if negb (bool_decide (n_type x.1 = VFS_NODE_DIRECTORY)) then mret (VFS_RES_INVALID, None)
    else
      v ← the_volume (ii_volume x.2);
      r ← run_io (iso9660_iterate_directory (iso9660_readdir_cb index) v.1 x.2 (0, None));
      match r with
      | None => mret (VFS_RES_ERROR, None)
      | Some (_, None) => mret (VFS_RES_NOT_FOUND, None)
      | Some (_, Some found) => mret (VFS_RES_OK, Some (mkDirEntry (take (Z.to_nat VFS_NAME_MAX) (r_name found)) (record_type (r_flags found))))
      end.

Definition iso9660_node_lookup (n : Z) (name : bytes) : iso (VFSResult * option Z) :=
  if n =? NULL then mret (VFS_RES_INVALID, None)
  else
    x ← the_node n;
    let '(node, info) := x in
    if negb (bool_decide (n_type node = VFS_NODE_DIRECTORY)) then mret (VFS_RES_INVALID, None)
    else if streq name [46] then mret (VFS_RES_OK, Some n)
    else if streq name [46; 46] then mret (VFS_RES_OK, Some (default n (n_parent node)))
    else
      v ← the_volume (ii_volume info);
      r ← run_io (iso9660_iterate_directory (iso9660_lookup_cb name) v.1 info None);
      match r with
      | None => mret (VFS_RES_ERROR, None)
      | Some None => mret (VFS_RES_NOT_FOUND, None)
      | Some (Some found) =>
          child ← iso9660_alloc_node (ii_volume info) n (r_name found) (record_type (r_flags found));
          match child with
          | None => mret (VFS_RES_NO_MEMORY, None)
          | Some c =>
              y ← the_node c;
              put_info c y.1 (mkIsoInfo (ii_volume y.2) (r_extent_lba found) (r_data_length found) (r_flags found) false) ≫= fun _ =>
              mret (VFS_RES_OK, Some c)
          end
      end.

Definition iso9660_node_create (n : Z) (name : bytes) (type : VFSNodeType) : iso VFSResult := mret VFS_RES_UNSUPPORTED.
Definition iso9660_node_remove (n : Z) (name : bytes) : iso VFSResult := mret VFS_RES_UNSUPPORTED.

Definition iso9660_node_stat (n : Z) : iso (VFSResult * option VFSNodeInfo) :=
  if n =? NULL then mret (VFS_RES_INVALID, None)
  else
    x ← the_node n;
    mret (VFS_RES_OK, Some (mkInfo (n_type x.1) (n_flags x.1) (data_length x.2) (extent_lba x.2) 0 0 0)).

End Driver.
