(* ===== verification/IsoSpec.v ===== *)
(** * Directories and files of an ISO 9660 volume

    A directory is a sequence of blocks, each the concatenation of its records
    and zeros.  Going through a directory visits its records in order, without
    the two special ones; looking a name up finds the first record with the
    name, in any case; reading gives the bytes of the extent. *)

From S2P Require Import Prelude Bytes CString BlockDevice DiskStream DiskRead Volume VfsPath Vfs FsWorld Iso9660.

(** ** Records *)

Definition byte_of (r : bytes) (i : Z) : Z := nth (Z.to_nat i) r 0.
Definition word_of (r : bytes) (i : Z) : Z := le (take 4 (drop (Z.to_nat i) r)).
Definition identifier_of (r : bytes) : bytes := take (Z.to_nat (byte_of r 32)) (drop 33 r).

(** A record holds its length in its first byte and its identifier after the header. *)
Record rec_ok (r : bytes) : Prop := {
  ro_bytes : Forall is_byte r;
  ro_length : byte_of r 0 = zlen r;
  ro_header : 33 + byte_of r 32 <= zlen r
}.

(** The name: the characters before a [;] or NUL in lower case, without trailing spaces *)
Fixpoint plain_chars (id : bytes) : bytes :=
  match id with [] => [] | c :: id => if (c =? 59) || (c =? 0) then [] else to_lower c :: plain_chars id end.
Definition iso_name (id : bytes) : bytes := reverse (trim_spaces (reverse (plain_chars id))).

Definition special (r : bytes) : bool := bool_decide (identifier_of r = [0] \/ identifier_of r = [1]).

Definition parse (r : bytes) : ISO9660ParsedDirRecord := mkRecord (word_of r 2) (word_of r 10) (byte_of r 25) (iso_name (identifier_of r)).

Definition visible (r : bytes) : bool := negb (special r) && negb (bool_decide (iso_name (identifier_of r) = [])).

(** What a directory lists *)
Definition listing (rs : list bytes) : list ISO9660ParsedDirRecord := parse <$> List.filter visible rs.

(** ** Bytes inside of a block *)

Lemma sub_bytes_in a r c k n : 0 <= k -> 0 <= n -> k + n <= zlen r -> sub_bytes (a ++ r ++ c) (zlen a + k) n = sub_bytes r k n.
Proof.
  intros Hk Hn Hr. pose proof (zlen_nonneg a). pose proof (zlen_nonneg c). rewrite (sub_bytes_ok r), sub_bytes_ok by (rewrite ?zlen_app; lia). f_equal. unfold zlen in *.
  rewrite drop_app, (drop_ge a) by lia. cbn [app]. replace (Z.to_nat (Z.of_nat (length a) + k) - length a)%nat with (Z.to_nat k) by lia.
  rewrite drop_app_le by lia. apply take_app_le. rewrite length_drop. lia.
Qed.

Lemma byte_of_at r k : 0 <= k < zlen r -> le_at 1 r k = Some (byte_of r k).
Proof.
  intros Hk. unfold le_at, byte_of. rewrite sub_bytes_ok by lia. cbn [mbind option_bind]. unfold zlen in *.
  destruct (nth_lookup_or_length r (Z.to_nat k) 0) as [E|E]; [|lia]. rewrite (drop_S _ _ _ E). change (Z.to_nat 1) with 1%nat. cbn [firstn le].
  rewrite take_0. cbn [le]. f_equal. lia.
Qed.

Lemma byte_in a r c k : 0 <= k < zlen r -> le_at 1 (a ++ r ++ c) (zlen a + k) = Some (byte_of r k).
Proof. intros Hk. unfold le_at. rewrite sub_bytes_in by lia. now apply byte_of_at. Qed.

Lemma byte_range r k : Forall is_byte r -> 0 <= byte_of r k < 256.
Proof.
  intros H. unfold byte_of. destruct (nth_lookup_or_length r (Z.to_nat k) 0) as [E|E]; [|rewrite nth_overflow by lia; lia].
  rewrite Forall_lookup in H. exact (H _ _ E).
Qed.

Lemma lsb32_in a r c k : Forall is_byte r -> 0 <= k -> k + 4 <= zlen r -> iso9660_read_lsb32 (a ++ r ++ c) (zlen a + k) = Some (word_of r k).
Proof.
  intros Hb Hk Hr. unfold iso9660_read_lsb32. rewrite <- !Z.add_assoc, !byte_in by lia. cbn [mbind option_bind]. f_equal.
  pose proof (byte_range r k Hb). pose proof (byte_range r (k + 1) Hb). pose proof (byte_range r (k + 2) Hb). pose proof (byte_range r (k + 3) Hb).
  rewrite (lor_byte (byte_of r k)), (lor_byte _ (byte_of r (k + 2))), (lor_byte _ (byte_of r (k + 3))) by lia.
  assert (E : word_of r k = byte_of r k + 256 * (byte_of r (k + 1) + 256 * (byte_of r (k + 2) + 256 * (byte_of r (k + 3) + 256 * 0)))); [|lia].
  unfold word_of, byte_of, zlen in *. replace (Z.to_nat (k + 1)) with (S (Z.to_nat k)) by lia. replace (Z.to_nat (k + 2)) with (S (S (Z.to_nat k))) by lia.
  replace (Z.to_nat (k + 3)) with (S (S (S (Z.to_nat k)))) by lia. set (n := Z.to_nat k) in *.
  assert (Hd : forall m, (m < length r)%nat -> drop m r = nth m r 0 :: drop (S m) r).
  { intros m Hm. apply drop_S. destruct (nth_lookup_or_length r m 0); [assumption|lia]. }
  rewrite (Hd n), (Hd (S n)), (Hd (S (S n))), (Hd (S (S (S n)))) by lia. reflexivity.
Qed.

Lemma normalize_chars_spec a c id : forall off pos out, Forall is_byte id -> off = zlen a -> pos + zlen id < out -> 0 <= pos ->
  normalize_chars (length id) (a ++ id ++ c) off pos out = Some (plain_chars id).
Proof.
  revert a. induction id as [|x id IH]; intros a off pos out Hb -> Hp Hpos; [reflexivity|]. rewrite zlen_cons in Hp. pose proof (zlen_nonneg id).
  cbn [length normalize_chars plain_chars]. replace (zlen a) with (zlen a + 0) at 1 by lia.
  rewrite byte_in by (rewrite zlen_cons; lia). cbn [mbind option_bind]. change (byte_of (x :: id) 0) with x.
  destruct ((x =? 59) || (x =? 0)); [reflexivity|]. destruct (Z.leb_spec out (pos + 1)); [lia|].
  replace (a ++ (x :: id) ++ c) with ((a ++ [x]) ++ id ++ c) by now rewrite <- app_assoc. apply Forall_cons in Hb as [Hx Hb].
  rewrite (IH (a ++ [x])) by (assumption || (rewrite ?zlen_app; change (zlen [x]) with 1; lia)). cbn [mbind option_bind]. unfold to_lower.
  destruct ((65 <=? x) && (x <=? 90)); reflexivity.
Qed.

(** ** Fields of a record in a block *)

Lemma rec_split r : rec_ok r -> exists h tl, r = h ++ identifier_of r ++ tl /\ zlen h = 33 /\ zlen (identifier_of r) = byte_of r 32 /\ zlen (identifier_of r) <= 222.
Proof.
  intros [Hb Hl Hh]. pose proof (byte_range r 32 Hb). pose proof (byte_range r 0 Hb). exists (take 33 r), (drop (Z.to_nat (byte_of r 32)) (drop 33 r)).
  unfold identifier_of. rewrite take_drop, take_drop. split; [reflexivity|]. pose proof (zlen_take 33 r ltac:(lia)) as H33. change (Z.to_nat 33) with 33%nat in H33.
  rewrite zlen_take by lia. pose proof (zlen_drop 33 r ltac:(lia)) as Hd. change (Z.to_nat 33) with 33%nat in Hd. lia.
Qed.

Lemma identifier_bytes r : Forall is_byte r -> Forall is_byte (identifier_of r).
Proof. intros H. unfold identifier_of. now apply Forall_take, Forall_drop. Qed.

Lemma normalize_in a r c : rec_ok r -> iso9660_normalize_name (a ++ r ++ c) (zlen a + 33) (byte_of r 32) (VFS_NAME_MAX + 1) = Some (iso_name (identifier_of r)).
Proof.
  intros Hr. destruct (rec_split r Hr) as (h & tl & E & Hh & Hi & Hm). pose proof (identifier_bytes r (ro_bytes r Hr)) as Hb.
  unfold iso9660_normalize_name. change (VFS_NAME_MAX + 1 =? 0) with false. cbv iota. set (id := identifier_of r) in *. rewrite <- Hi, E.
  replace (a ++ (h ++ id ++ tl) ++ c) with ((a ++ h) ++ id ++ (tl ++ c)) by now rewrite <- !app_assoc.
  replace (Z.to_nat (zlen id)) with (length id) by (unfold zlen; lia).
  rewrite normalize_chars_spec; [reflexivity|assumption|rewrite zlen_app; lia|change (VFS_NAME_MAX + 1) with 256; lia|lia].
Qed.

Lemma special_in a r c : rec_ok r -> is_special (a ++ r ++ c) (zlen a + 33) (byte_of r 32) = Some (special r).
Proof.
  intros Hr. destruct (rec_split r Hr) as (h & tl & E & Hh & Hi & Hm). unfold is_special, special. set (id := identifier_of r) in *.
  destruct (Z.eqb_spec (byte_of r 32) 1) as [E1|E1].
  - assert (exists x, id = [x]) as [x Hx1].
    { rewrite E1 in Hi. clear -Hi. destruct id as [|x id]; [discriminate|]. exists x. f_equal. apply zlen_zero. rewrite zlen_cons in Hi. lia. }
    pose proof (ro_header r Hr). rewrite byte_in by lia. cbn [mbind option_bind]. f_equal.
    assert (Hx : byte_of r 33 = x).
    { rewrite E, Hx1. unfold byte_of, zlen in *. rewrite app_nth2 by lia. replace (Z.to_nat 33 - length h)%nat with 0%nat by lia. reflexivity. }
    rewrite Hx, Hx1. symmetry. destruct (Z.eqb_spec x 0) as [->|H0]; [apply bool_decide_eq_true_2; now left|]. destruct (Z.eqb_spec x 1) as [->|H1]; [apply bool_decide_eq_true_2; now right|].
    apply bool_decide_eq_false_2. intros [[=]|[=]]; congruence.
  - f_equal. symmetry. apply bool_decide_eq_false_2. intros [H|H]; rewrite H in Hi; change (zlen [_]) with 1 in Hi; lia.
Qed.

(** ** Visiting *)

Section Visit.
Context {S : Type} (f : S -> ISO9660ParsedDirRecord -> S * bool).

(** The state after the records up to the one where [f] stops, and whether it did *)
Fixpoint visit (s : S) (l : list ISO9660ParsedDirRecord) : S * bool :=
  match l with [] => (s, false) | r :: l => let '(s, keep) := f s r in if keep then visit s l else (s, true) end.

Lemma visit_app s l1 l2 : visit s (l1 ++ l2) = let '(s, stopped) := visit s l1 in if stopped then (s, true) else visit s l2.
Proof. revert s. induction l1 as [|r l1 IH]; intros s; cbn; [reflexivity|]. destruct (f s r) as [s' []]; [apply IH|reflexivity]. Qed.

Context `{A : Arch} (callback : S -> ISO9660ParsedDirRecord -> option (S * bool)).

Lemma block_loop_spec bsz dl bi pad : zlen pad <= bsz -> bi * bsz + bsz <= dl -> 0 <= bi -> 0 < bsz -> dl < 2 ^ 32 ->
  (pad = [] \/ exists tl, pad = 0 :: tl) -> forall rs pre fuel s, Forall rec_ok rs -> zlen (pre ++ concat rs ++ pad) = bsz ->
  (forall s r, r ∈ listing rs -> callback s r = Some (f s r)) -> zlen (concat rs) < Z.of_nat fuel ->
  block_loop callback fuel (pre ++ concat rs ++ pad) bsz dl bi (zlen pre) s =
    let '(s', stopped) := visit s (listing rs) in Some (if stopped : bool then Stopped s' else NextBlock s').
Proof.
  intros Hpad Hdl Hbi Hbs Hdl32 Hz. assert (0 <= bi * bsz) by nia. pose proof (zlen_nonneg pad). assert (H32 : 2 ^ 32 <= 2 ^ size_bits) by (arch_cases; lia).
  induction rs as [|r rs IH]; intros pre fuel s Hok Hlen Hcb Hf; (destruct fuel as [|fuel]; [match type of Hf with zlen ?x < _ => pose proof (zlen_nonneg x) end; lia|]); cbn [block_loop].
  - cbn [concat app] in *. rewrite zlen_app in Hlen. pose proof (zlen_nonneg pre). rewrite (wrap_small size_bits (bi * bsz)), (wrap_small size_bits) by lia.
    destruct (Z.ltb_spec (zlen pre) bsz); cbn [negb]; [|reflexivity]. destruct (Z.leb_spec dl (bi * bsz + zlen pre)); [reflexivity|].
    destruct Hz as [->|[tl ->]]; [change (zlen []) with 0 in Hlen; lia|].
    pose proof (byte_in pre (0 :: tl) [] 0 ltac:(rewrite zlen_cons; pose proof (zlen_nonneg tl); lia)) as Hb. rewrite app_nil_r, Z.add_0_r in Hb. rewrite Hb. reflexivity.
  - apply Forall_cons in Hok as [Hr Hok]. cbn [concat] in *. rewrite <- app_assoc in *. pose proof (ro_header r Hr) as Hh. pose proof (ro_length r Hr) as Hl.
    pose proof (byte_range r 32 (ro_bytes r Hr)). pose proof (byte_range r 0 (ro_bytes r Hr)). rewrite !zlen_app in Hlen. rewrite zlen_app in Hf.
    pose proof (zlen_nonneg pre). pose proof (zlen_nonneg (concat rs)). pose proof (zlen_nonneg pad).
    rewrite (wrap_small size_bits (bi * bsz)), (wrap_small size_bits (bi * bsz + _)) by lia.
    destruct (Z.ltb_spec (zlen pre) bsz); cbn [negb]; [|lia]. destruct (Z.leb_spec dl (bi * bsz + zlen pre)); [lia|].
    pose proof (byte_in pre r (concat rs ++ pad) 0 ltac:(lia)) as Hb0. rewrite Z.add_0_r in Hb0. rewrite Hb0. cbn [mbind option_bind]. rewrite Hl.
    destruct (Z.eqb_spec (zlen r) 0); [lia|]. rewrite wrap_small by lia. destruct (Z.ltb_spec dl (bi * bsz + zlen pre + zlen r)); [lia|].
    unfold rec_identifier_length, sizeof_ISO9660DirectoryRecordHeader, rec_extent_lba, rec_data_length, rec_file_flags.
    rewrite (byte_in pre r _ 32) by lia. cbn [mbind option_bind]. rewrite special_in by assumption. cbn [mbind option_bind].
    assert (Hgo : forall s, (forall s r, r ∈ listing rs -> callback s r = Some (f s r)) -> block_loop callback fuel (pre ++ r ++ concat rs ++ pad) bsz dl bi (zlen pre + zlen r) s =
      let '(s', stopped) := visit s (listing rs) in Some (if stopped : bool then Stopped s' else NextBlock s')).
    { intros s0 Hcb0. rewrite <- zlen_app, app_assoc. apply IH; [assumption|rewrite !zlen_app; lia|assumption|lia]. }
    unfold listing in *. cbn [List.filter] in *. unfold visible at 1 in Hcb. unfold visible at 1. destruct (special r); cbn [negb andb] in *; [now apply Hgo|].
    rewrite (lsb32_in pre r _ 2) by (apply Hr || lia). cbn [mbind option_bind]. rewrite (lsb32_in pre r _ 10), (byte_in pre r _ 25) by (apply Hr || lia). cbn [mbind option_bind]. rewrite normalize_in by assumption. cbn [mbind option_bind].
    destruct (bool_decide (iso_name (identifier_of r) = [])); cbn [negb] in *; [now apply Hgo|]. rewrite fmap_cons in *. cbn [visit].
    change (mkRecord _ _ _ _) with (parse r). rewrite Hcb by constructor. cbn [mbind option_bind]. destruct (f s (parse r)) as [s' []]; cbn [fst snd negb]; [|reflexivity].
    apply Hgo. intros s0 x Hx. apply Hcb. now constructor.
Qed.

End Visit.

(** ** Directories on the disk *)

Section Contents.
Context `{A : Arch} {W : Type} `{!BlockDriver W} (d : BlockDevice) `{!DiskLaws d} (mal : nat -> bool).
Hypothesis Hreads : reads_succeed d (disk_size (d := d)).
Hypothesis Hops : exists o, d_ops d = Some o /\ has_read o = true.
Hypothesis Hmal : forall k, mal k = true.

Local Abbreviation bs := (logical_block_size d).
Local Abbreviation same := (same_sectors d).

Definition block_holds (w : W) (lba : Z) (rs : list bytes) : Prop :=
  Forall rec_ok rs /\ exists pad, sector (d := d) w lba = concat rs ++ pad /\ (pad = [] \/ exists tl, pad = 0 :: tl).

(** The volume reads the device in its own blocks; the directory takes whole blocks of it. *)
Definition volume_ok (v : ISO9660Volume) : Prop := iv_device v = Some d /\ iv_block_size v = bs.

Record iso_dir (w : W) (info : ISO9660NodeInfo) (blocks : list (list bytes)) : Prop := {
  id_length : data_length info = Z.of_nat (length blocks) * bs;
  id_32 : data_length info + bs <= 2 ^ 32;
  id_extent : 0 <= extent_lba info /\ extent_lba info + Z.of_nat (length blocks) <= Z.min (disk_size (d := d)) (2 ^ 32);
  id_blocks : forall i rs, blocks !! i = Some rs -> block_holds w (extent_lba info + Z.of_nat i) rs
}.

Lemma block_size_ok v : volume_ok v -> block_size_of v = bs.
Proof. intros [_ E]. unfold block_size_of. rewrite E. pose proof (block_size_pos (d := d)). now rewrite (proj2 (Z.eqb_neq bs 0)) by lia. Qed.

Section Iterate.
Context {S : Type} (f : S -> ISO9660ParsedDirRecord -> S * bool) (callback : S -> ISO9660ParsedDirRecord -> option (S * bool)).

Lemma listing_app rs1 rs2 : listing (rs1 ++ rs2) = listing rs1 ++ listing rs2.
Proof. unfold listing. now rewrite List.filter_app, fmap_app. Qed.

Lemma blocks_loop_spec v extent dl : volume_ok v -> 0 <= extent -> dl < 2 ^ 32 -> forall blocks bi w t s,
  0 <= bi -> extent + bi + Z.of_nat (length blocks) <= Z.min (disk_size (d := d)) (2 ^ 32) -> (bi + Z.of_nat (length blocks)) * bs <= dl ->
  (forall i rs, blocks !! i = Some rs -> block_holds w (extent + bi + Z.of_nat i) rs) ->
  (forall s r, r ∈ listing (concat blocks) -> callback s r = Some (f s r)) ->
  exists w', blocks_loop callback (length blocks) v bs extent dl bi s (w, t) = Some (w', t, Some (visit f s (listing (concat blocks))).1) /\ same w w'.
Proof.
  intros [Hdev Hbs] Hext Hdl. pose proof (block_size_pos (d := d)) as Hp. induction blocks as [|rs blocks IH]; intros bi w t s Hbi Hlba Hlen Hbl Hcb.
  { exists w. split; [reflexivity|apply same_refl]. }
  cbn [length blocks_loop concat] in *. rewrite Nat2Z.inj_succ in *. rewrite wrap_small, Hdev by lia.
  destruct (io_read_run d Hreads Hops w t (extent + bi) 1 bs) as (w1 & E1 & Hw1); [lia..|]. rewrite (bind_run _ _ _ _ _ E1). rewrite Z.mul_1_l, <- sector_bytes by lia.
  destruct (Hbl 0%nat rs eq_refl) as (Hok & pad & Hsec & Hpad). rewrite Z.add_0_r in Hsec.
  assert (Hin : 0 <= extent + bi < disk_size (d := d)) by lia. pose proof (sector_len (d := d) w (extent + bi) Hin) as Hsl. rewrite Hsec in Hsl |- *. rewrite zlen_app in Hsl. pose proof (zlen_nonneg pad). pose proof (zlen_nonneg (concat rs)).
  rewrite listing_app in *. pose proof (block_loop_spec f callback bs dl bi pad ltac:(lia) ltac:(nia) Hbi ltac:(lia) Hdl Hpad rs [] (Datatypes.S (Z.to_nat bs)) s Hok) as Hb.
  cbn [app] in Hb. change (zlen []) with 0 in Hb. specialize (Hb ltac:(rewrite zlen_app; lia) (fun s r Hr => Hcb s r (proj2 (elem_of_app _ _ _) (or_introl Hr))) ltac:(lia)).
  unfold lift, mbind at 1, st_bind. cbn [mbind option_bind]. rewrite Hb. rewrite visit_app. destruct (visit f s (listing rs)) as [s1 []]; cbn [fst mbind option_bind].
  { exists w1. split; [reflexivity|assumption]. }
  destruct (IH (bi + 1) w1 t s1) as (w' & E & Hw'); [lia|lia|lia| |intros s0 r Hr; apply Hcb, elem_of_app; now right|].
  { intros i rs' Hi. destruct (Hbl (Datatypes.S i) rs' Hi) as (Hok' & pad' & Hs' & Hp'). split; [assumption|]. exists pad'. split; [|assumption].
    rewrite Hw1, <- Hs'. f_equal. lia. }
  exists w'. split; [exact E|]. eapply same_trans; eassumption.
Qed.

Lemma iterate_spec v w t info blocks s : volume_ok v -> iso_dir w info blocks -> (forall s r, r ∈ listing (concat blocks) -> callback s r = Some (f s r)) ->
  exists w' t', iso9660_iterate_directory mal callback v info s (w, t) = Some (w', t', Some (visit f s (listing (concat blocks))).1) /\ same w w'.
Proof.
  intros Hv [Hl H32 [He1 He2] Hb] Hcb. pose proof (block_size_pos (d := d)). unfold iso9660_iterate_directory. rewrite (proj1 Hv), block_size_ok by assumption.
  destruct (Z.eqb_spec (data_length info) 0) as [E|E].
  - assert (blocks = []) as -> by (destruct blocks; [reflexivity|cbn [length] in Hl; lia]). exists w, t. split; [reflexivity|apply same_refl].
  - assert (0 <= Z.of_nat (length blocks) * bs) by nia. rewrite wrap_small by lia.
    replace ((data_length info + bs - 1) / bs) with (Z.of_nat (length blocks)).
    2: { rewrite Hl. apply (Z.div_unique _ _ _ (bs - 1)); lia. }
    unfold io_malloc, mbind at 1, st_bind. cbn [fst snd]. rewrite Hmal. cbn [negb]. rewrite Nat2Z.id.
    destruct (blocks_loop_spec v (extent_lba info) (data_length info) Hv He1 ltac:(lia) blocks 0 w (Datatypes.S t) s) as (w' & Er & Hw); [lia|lia|lia| |assumption|].
    { intros i rs Hi. rewrite Z.add_0_r. now apply Hb. }
    exists w', (Datatypes.S t). split; assumption.
Qed.

End Iterate.

(** ** The two uses *)

Definition readdir_step (target : Z) (ctx : Z * option ISO9660ParsedDirRecord) (r : ISO9660ParsedDirRecord) : Z * option ISO9660ParsedDirRecord * bool :=
  if bool_decide (ctx.2 = None) && (ctx.1 =? target) then (ctx.1, Some r, false) else (ctx.1 +[size_bits] 1, ctx.2, true).

Lemma readdir_visit target l : forall cur, 0 <= cur <= target -> target < 2 ^ size_bits ->
  (visit (readdir_step target) (cur, None) l).1.2 = l !! Z.to_nat (target - cur).
Proof.
  induction l as [|r l IH]; intros cur Hc Ht; [reflexivity|]. cbn [visit]. unfold readdir_step at 1. cbn [fst snd]. rewrite bool_decide_eq_true_2 by reflexivity. cbn [andb].
  destruct (Z.eqb_spec cur target) as [->|]; [now rewrite Z.sub_diag|]. rewrite wrap_small, IH by lia.
  replace (Z.to_nat (target - cur)) with (S (Z.to_nat (target - (cur + 1)))) by lia. reflexivity.
Qed.

Definition same_name (name : bytes) (r : ISO9660ParsedDirRecord) : bool := bool_decide (to_lower <$> r_name r = to_lower <$> name).
Definition lookup_step (name : bytes) (ctx : option ISO9660ParsedDirRecord) (r : ISO9660ParsedDirRecord) : option ISO9660ParsedDirRecord * bool :=
  match ctx with Some _ => (ctx, true) | None => if same_name name r then (Some r, false) else (None, true) end.

Lemma lookup_visit name l : (visit (lookup_step name) None l).1 = List.find (same_name name) l.
Proof. induction l as [|r l IH]; [reflexivity|]. cbn. destruct (same_name name r); [reflexivity|exact IH]. Qed.

Lemma plain_chars_bytes id : Forall is_byte id -> Forall (fun c => 0 < c < 256) (plain_chars id).
Proof.
  induction 1 as [|c id Hc _ IH]; [constructor|]. cbn. destruct (Z.eqb_spec c 59), (Z.eqb_spec c 0); cbn; try constructor; try assumption.
  apply lower_byte. lia.
Qed.

Lemma trim_sub s : exists p, s = p ++ trim_spaces s.
Proof. induction s as [|c s [p IH]]; [now exists []|]. cbn. destruct (c =? 32); [exists (c :: p); cbn; congruence|now exists []]. Qed.

Lemma iso_name_bytes id : Forall is_byte id -> Forall (fun c => 0 < c < 256) (iso_name id).
Proof.
  intros H%plain_chars_bytes. unfold iso_name. apply Forall_reverse. apply Forall_reverse in H. destruct (trim_sub (reverse (plain_chars id))) as [p E].
  rewrite E in H. now apply Forall_app in H.
Qed.

Lemma listing_names rs r : Forall rec_ok rs -> r ∈ listing rs -> Forall (fun c => 0 < c < 256) (r_name r).
Proof.
  intros Hok (x & -> & Hx)%list_elem_of_fmap. apply list_elem_of_In, filter_In in Hx as [Hx%list_elem_of_In _]. rewrite Forall_forall in Hok.
  apply iso_name_bytes, identifier_bytes, (Hok x Hx).
Qed.

Lemma dir_records w info blocks : iso_dir w info blocks -> Forall rec_ok (concat blocks).
Proof.
  intros H. apply Forall_concat, Forall_lookup. intros i rs Hi. apply (id_blocks _ _ _ H i rs Hi).
Qed.

Lemma lookup_cb_step name s r : Forall (fun c => 0 < c < 256) (r_name r) -> Forall (fun c => 0 < c < 256) name -> iso9660_lookup_cb name s r = Some (lookup_step name s r).
Proof.
  intros Hr Hn. unfold iso9660_lookup_cb, lookup_step. destruct s; [reflexivity|]. destruct (strcasecmp_fold (r_name r) name Hr Hn) as (z & -> & Hz). cbn [mbind option_bind].
  unfold same_name. destruct (Z.eqb_spec z 0) as [E|E]; [rewrite bool_decide_eq_true_2 by now apply Hz|rewrite bool_decide_eq_false_2 by (intros H; now apply E, Hz)]; reflexivity.
Qed.

(** ** Extents *)

Definition file_bytes (w : W) (info : ISO9660NodeInfo) (offset n : Z) : bytes := bslice (disk_byte d w) (extent_lba info * bs + offset) n.

(** The extent lies on the disk. *)
Definition extent_ok (extent len : Z) : Prop := 0 <= extent /\ 0 <= len < 2 ^ 32 /\ extent * bs + len <= Z.min (disk_size (d := d)) (2 ^ 32) * bs.

Lemma put_at pre rest b : zlen b <= zlen rest -> put_bytes (pre ++ rest) (zlen pre) b = Some (pre ++ b ++ drop (length b) rest).
Proof.
  intros H. unfold put_bytes. pose proof (zlen_nonneg pre). rewrite zlen_app.
  destruct (Z.leb_spec 0 (zlen pre)), (Z.leb_spec (zlen pre + zlen b) (zlen pre + zlen rest)); cbn [andb]; try lia. f_equal. unfold zlen.
  rewrite take_app_length' by lia. do 2 f_equal. rewrite drop_app. rewrite drop_ge by lia. cbn [app]. f_equal. lia.
Qed.

Lemma sector_of extent len a : extent_ok extent len -> 0 <= a < len -> 0 <= a / bs /\ extent + a / bs < Z.min (disk_size (d := d)) (2 ^ 32).
Proof.
  intros (He & Hl & Hd) Ha. pose proof (block_size_pos (d := d)) as Hp. split; [apply Z.div_pos; lia|].
  pose proof (Z.div_mod a bs ltac:(lia)). pose proof (Z.mod_pos_bound a bs ltac:(lia)). apply (Z.mul_lt_mono_pos_r bs); [lia|]. nia.
Qed.

(** The loop fills the buffer behind the [pre] bytes already there. *)
Lemma extent_loop_spec v info offset remaining : volume_ok v -> extent_ok (extent_lba info) (data_length info) -> 0 <= offset -> 0 <= remaining -> offset + remaining <= data_length info ->
  forall fuel w t pre rest, remaining - zlen pre < Z.of_nat fuel -> zlen pre <= remaining -> remaining - zlen pre <= zlen rest -> zlen pre + zlen rest < 2 ^ size_bits ->
  exists w', extent_loop fuel v bs (extent_lba info) offset remaining (zlen pre) (pre ++ rest) (w, t) =
    Some (w', t, (remaining, pre ++ file_bytes w info (offset + zlen pre) (remaining - zlen pre) ++ drop (Z.to_nat (remaining - zlen pre)) rest)) /\ same w w'.
Proof.
  intros [Hdev Hbs] He Ho Hr Hdl. pose proof (block_size_pos (d := d)) as Hp. assert (H32 : 2 ^ 32 <= 2 ^ size_bits) by (arch_cases; lia). pose proof He as (He1 & He2 & He3).
  induction fuel as [|fuel IH]; intros w t pre rest Hf Hpre Hrest Hsz; [lia|]. cbn [extent_loop]. pose proof (zlen_nonneg pre) as Hp0.
  destruct (Z.ltb_spec (zlen pre) remaining) as [Hlt|Hge]; cbn [negb].
  2: { exists w. replace (remaining - zlen pre) with 0 by lia. split; [|apply same_refl]. now replace remaining with (zlen pre) by lia. }
  rewrite (wrap_small 64) by lia. set (a := offset + zlen pre). assert (Ha : 0 <= a < data_length info) by lia.
  destruct (sector_of _ _ a He Ha) as [Hs0 Hs1]. pose proof (Z.div_mod a bs ltac:(lia)) as Hdm. pose proof (Z.mod_pos_bound a bs ltac:(lia)) as Hm.
  rewrite (wrap_small 32 (a / bs)), (wrap_small 32 (extent_lba info + a / bs)) by lia. set (rem := remaining - zlen pre) in *. rewrite Hdev.
  (* what one read of [k] bytes leaves to do *)
  assert (Hnext : forall w1 part k, same w w1 -> part = file_bytes w info a k -> 0 < k <= rem ->
    exists w', extent_loop fuel v bs (extent_lba info) offset remaining (zlen (pre ++ part)) (pre ++ part ++ drop (length part) rest) (w1, t) =
      Some (w', t, (remaining, pre ++ file_bytes w info a rem ++ drop (Z.to_nat rem) rest)) /\ same w w').
  { intros w1 part k Hw1 Hpart Hk. assert (Hlp : zlen part = k) by (rewrite Hpart; apply zlen_bslice; lia).
    assert (Hdr : zlen (drop (length part) rest) = zlen rest - k). { replace (length part) with (Z.to_nat k) by (unfold zlen in Hlp; lia). rewrite zlen_drop by lia. lia. }
    destruct (IH w1 t (pre ++ part) (drop (length part) rest)) as (w' & E & Hw'); [rewrite zlen_app; lia|rewrite zlen_app; lia|rewrite zlen_app; lia|rewrite zlen_app; lia|].
    exists w'. split; [|eapply same_trans; eassumption]. rewrite app_assoc, E, zlen_app, Hlp, <- app_assoc. do 4 f_equal.
    rewrite drop_drop. replace (length part + Z.to_nat (remaining - (zlen pre + k)))%nat with (Z.to_nat rem) by (unfold zlen in *; lia). rewrite app_assoc. f_equal.
    replace rem with (k + (remaining - (zlen pre + k))) by lia. unfold file_bytes. rewrite bslice_app by lia. rewrite Hpart. unfold file_bytes. f_equal.
    replace (extent_lba info * bs + (offset + (zlen pre + k))) with (extent_lba info * bs + a + k) by lia. apply bslice_ext. intros. now apply same_bytes. }
  destruct ((a mod bs =? 0) && _ && _) eqn:Ebulk.
  - apply andb_prop in Ebulk as [[Ei%Z.eqb_eq Ec%Z.eqb_eq]%andb_prop Eb%Z.leb_le]. set (mb := rem / bs).
    assert (Hmb : 0 < mb /\ mb * bs <= rem) by (split; [apply Z.div_str_pos; lia|rewrite Z.mul_comm; apply Z.mul_div_le; lia]).
    assert (mb <= rem) by (clear -Hmb Hp; clearbody mb rem; nia).
    rewrite (proj2 (Z.ltb_ge 4294967295 mb)) by lia.
    destruct (io_read_run d Hreads Hops w t (extent_lba info + a / bs) mb (zlen (pre ++ rest) - zlen pre)) as (w1 & E1 & Hw1); [lia|lia| |rewrite zlen_app; lia|].
    { apply (Z.mul_le_mono_pos_r _ _ bs); [lia|]. rewrite !Z.mul_add_distr_r. assert (a / bs * bs = a) by lia.
      assert (a + rem <= data_length info) by (subst a rem; lia). assert (Z.min (disk_size (d := d)) (2 ^ 32) * bs <= disk_size (d := d) * bs) by (apply Z.mul_le_mono_nonneg_r; lia). lia. }
    rewrite (bind_run _ _ _ _ _ E1). set (b := bslice _ _ _). assert (Hlb : zlen b = mb * bs) by (apply zlen_bslice; lia).
    unfold lift, mbind at 1, st_bind. rewrite put_at by lia. cbn [mbind option_bind]. rewrite !wrap_small by (rewrite ?wrap_small; lia). rewrite <- Hlb, <- zlen_app.
    apply (Hnext w1 b (mb * bs) Hw1); [|lia]. unfold b, file_bytes. f_equal. lia.
  - set (chunk := Z.min rem (bs - a mod bs)). assert (Hck : 0 < chunk <= rem) by lia.
    destruct (io_read_run d Hreads Hops w t (extent_lba info + a / bs) 1 bs) as (w1 & E1 & Hw1); [lia..|]. rewrite (bind_run _ _ _ _ _ E1).
    unfold lift, mbind at 1, st_bind. rewrite sub_bslice by lia. cbn [mbind option_bind]. set (b := bslice _ _ _). assert (Hlb : zlen b = chunk) by (apply zlen_bslice; lia).
    rewrite put_at by lia. cbn [mbind option_bind]. rewrite <- Hlb, <- zlen_app. apply (Hnext w1 b chunk Hw1); [|lia]. unfold b, file_bytes. f_equal. lia.
Qed.

Lemma read_extent_spec v info w t offset buffer : volume_ok v -> extent_ok (extent_lba info) (data_length info) -> 0 <= offset -> offset + zlen buffer < 2 ^ 64 ->
  zlen buffer < 2 ^ size_bits -> 0 < zlen buffer ->
  let n := Z.max 0 (Z.min (zlen buffer) (data_length info - offset)) in
  exists w' t', read_extent mal v info offset buffer (w, t) = Some (w', t', (n, file_bytes w info offset n ++ drop (Z.to_nat n) buffer)) /\ same w w'.
Proof.
  intros Hv He Ho Hw Hs Hb n. unfold read_extent. rewrite (proj1 Hv). pose proof He as (He1 & He2 & He3). assert (H32 : 2 ^ 32 <= 2 ^ size_bits) by (arch_cases; lia).
  destruct (Z.leb_spec (data_length info) offset) as [Hd|Hd].
  { exists w, t. replace n with 0 by lia. split; [reflexivity|apply same_refl]. }
  rewrite (wrap_small 64) by lia. set (remaining := if data_length info <? offset + zlen buffer then wrap size_bits (data_length info - offset) else zlen buffer).
  assert (Hrem : remaining = n). { subst remaining n. destruct (Z.ltb_spec (data_length info) (offset + zlen buffer)); [rewrite wrap_small by lia|]; lia. }
  rewrite Hrem. cbv zeta. destruct (Z.eqb_spec n 0); [lia|]. unfold io_malloc, mbind at 1, st_bind. cbn [fst snd]. rewrite Hmal. cbn [negb]. rewrite block_size_ok by assumption.
  destruct (extent_loop_spec v info offset n Hv He Ho ltac:(lia) ltac:(lia) (S (Z.to_nat n)) w (S t) [] buffer) as (w' & E & Hsame); [change (zlen []) with 0; lia..|].
  exists w', (S t). change (zlen []) with 0 in E. cbn [app] in E. rewrite E. split; [|assumption]. now rewrite Z.add_0_r, Z.sub_0_r.
Qed.

End Contents.

(** ** Mounted volumes *)

Section Mounted.
Context `{A : Arch} {W : Type} `{!BlockDriver W} (d : BlockDevice) `{!DiskLaws d}.
Context (naddr : nat -> gmap Z (VFSNode * ISO9660NodeInfo) -> Z) (vaddr : nat -> gmap Z (ISO9660Volume * option (list Z)) -> Z).
Hypothesis Hreads : reads_succeed d (disk_size (d := d)).
Hypothesis Hops : exists o, d_ops d = Some o /\ has_read o = true.
Hypothesis Hfresh : forall k ns, ns !! naddr k ns = None /\ naddr k ns <> NULL.
Hypothesis Hvfresh : forall k vs, vs !! vaddr k vs = None /\ vaddr k vs <> NULL.

Local Abbreviation bs := (logical_block_size d).
Local Abbreviation same := (same_sectors d).
Local Abbreviation world := (FsWorld W ISO9660NodeInfo ISO9660Volume).

(** A directory of the disk in memory as the node [n] *)
Record open_dir (fw : world) (n : Z) (v : ISO9660Volume) (info : ISO9660NodeInfo) (blocks : list (list bytes)) : Prop := {
  od_node : exists node, fw_nodes fw !! n = Some (node, info) /\ n_type node = VFS_NODE_DIRECTORY;
  od_null : n <> NULL /\ ii_volume info <> NULL;
  od_volume : exists nl, fw_volumes fw !! ii_volume info = Some (v, nl);
  od_ok : volume_ok d v;
  od_dir : iso_dir d (fw_disk fw) info blocks
}.

(** Listing a directory of an ISO 9660 volume: entry number [index] is the one of the [index]-th record of the directory that is neither special nor without a name, with its name and type; after the last the result is "not found", whatever blocks the records lie in; no sector and no node changes. *)
Theorem iso9660_readdir_spec fw n v info blocks index : open_dir fw n v info blocks -> 0 <= index < 2 ^ size_bits ->
  exists fw', iso9660_node_readdir all_ok n index fw = Some (fw',
    match listing (concat blocks) !! Z.to_nat index with
    | Some r => (VFS_RES_OK, Some (mkDirEntry (take (Z.to_nat VFS_NAME_MAX) (r_name r)) (record_type (r_flags r))))
    | None => (VFS_RES_NOT_FOUND, None)
    end) /\ fw_nodes fw' = fw_nodes fw /\ fw_volumes fw' = fw_volumes fw /\ same (fw_disk fw) (fw_disk fw').
Proof.
  intros [(node & Hn & Ht) [Hn0 _] [nl Hv] Hok Hdir] Hi. unfold iso9660_node_readdir. destruct (Z.eqb_spec n NULL); [done|].
  rewrite (bind_run _ _ _ _ _ (node_run fw n _ Hn)). cbn [fst snd]. rewrite bool_decide_true by assumption. cbn [negb].
  rewrite (bind_run _ _ _ _ _ (volume_run fw _ _ Hv)). cbn [fst].
  destruct (iterate_spec d all_ok Hreads Hops (fun _ => eq_refl) (readdir_step index) (iso9660_readdir_cb index) v (fw_disk fw) (fw_clock fw) info blocks (0, None) Hok Hdir) as (w' & t' & E & Hw).
  { intros [cur found] r _. unfold iso9660_readdir_cb, readdir_step. cbn [fst snd]. now destruct (_ && _). }
  rewrite (bind_run _ _ _ _ _ (io_run _ fw _ _ _ E)). pose proof (readdir_visit index (listing (concat blocks)) 0) as Hr. rewrite Z.sub_0_r in Hr.
  destruct (visit _ _ _) as [[cur found] st]. cbn [fst snd] in *. rewrite <- Hr by lia. eexists. destruct found; (split; [reflexivity|]); cbn; auto.
Qed.

(** A new node: read-only, without an extent, in the list of its volume *)
Lemma iso_alloc_run (fw : world) a v l p pnode name type : a <> NULL -> p <> NULL -> fw_volumes fw !! a = Some (v, l) ->
  fw_nodes fw !! p = Some pnode -> (0 ∉ name) ->
  let n := naddr (fw_clock fw) (fw_nodes fw) in
  exists t, iso9660_alloc_node all_ok naddr a p name type fw =
    Some (mkFsWorld (fw_disk fw) t
            (<[n := (mkNode (if bool_decide (name = []) then None else Some name) type VFS_NODE_FLAG_READONLY (Some p) (n_mount pnode.1),
                     mkIsoInfo a 0 0 0 false)]> (fw_nodes fw))
            (<[a := (v, Some (default [] l ++ [n]))]> (fw_volumes fw)), Some n).
Proof.
  intros Ha Hp Hv Hn H0 n. unfold iso9660_alloc_node. destruct (Z.eqb_spec a NULL); [done|]. destruct (Z.eqb_spec p NULL); [done|].
  assert (exists s, strdup (Some (cstr name)) true = Some s) as [s Hs] by (unfold strdup; rewrite strlen_cstr by done; by eexists).
  unfold mbind, st_bind, iso_malloc, run_io, io_malloc, get_clock, get_nodes, all_ok, lift, get_volumes, mret, st_ret.
  destruct name as [|c name]; destruct l as [l|]; cbn [fw_disk fw_clock fw_nodes fw_volumes fst snd mbind option_bind negb bool_decide decide_rel list_eq_dec];
    rewrite ?Hs; cbn; (erewrite node_run by exact Hn); cbn; (erewrite volume_run by exact Hv); cbn; by eexists.
Qed.

(** The node [lookup] makes for a record *)
Definition node_of (n : Z) (info : ISO9660NodeInfo) (r : ISO9660ParsedDirRecord) (x : VFSNode * ISO9660NodeInfo) : Prop :=
  n_type x.1 = record_type (r_flags r) /\ n_parent x.1 = Some n /\ x.2 = mkIsoInfo (ii_volume info) (r_extent_lba r) (r_data_length r) (r_flags r) false.

Lemma iso_lookup_run fw n v info blocks name : open_dir fw n v info blocks -> plain_name name ->
  match List.find (same_name name) (listing (concat blocks)) with
  | None => exists fw', iso9660_node_lookup all_ok naddr n name fw = Some (fw', (VFS_RES_NOT_FOUND, None)) /\
              fw_nodes fw' = fw_nodes fw /\ fw_volumes fw' = fw_volumes fw /\ same (fw_disk fw) (fw_disk fw')
  | Some r => exists fw' c x nl, iso9660_node_lookup all_ok naddr n name fw = Some (fw', (VFS_RES_OK, Some c)) /\ c <> NULL /\
              fw_nodes fw !! c = None /\ fw_nodes fw' = <[c := x]> (fw_nodes fw) /\ node_of n info r x /\
              fw_volumes fw' !! ii_volume info = Some (v, nl) /\ same (fw_disk fw) (fw_disk fw')
  end.
Proof.
  intros [(node & Hn & Ht) [Hn0 Ha0] [nl Hv] Hok Hdir] Hname. destruct (plain_not_dots name Hname) as [D1 D2].
  pose proof (dir_records d _ _ _ Hdir) as Hrecs.
  destruct (iterate_spec d all_ok Hreads Hops (fun _ => eq_refl) (lookup_step name) (iso9660_lookup_cb name) v (fw_disk fw) (fw_clock fw) info blocks None Hok Hdir) as (w' & t' & E & Hw).
  { intros s r Hr. apply lookup_cb_step; [exact (listing_names _ _ Hrecs Hr)|apply Hname]. }
  rewrite lookup_visit in E. unfold iso9660_node_lookup. destruct (Z.eqb_spec n NULL); [done|].
  rewrite (bind_run _ _ _ _ _ (node_run fw n _ Hn)). rewrite bool_decide_true, D1, D2 by done. cbn [negb].
  rewrite (bind_run _ _ _ _ _ (volume_run fw _ _ Hv)). cbn [fst]. rewrite (bind_run _ _ _ _ _ (io_run _ fw _ _ _ E)).
  set (fw1 := mkFsWorld w' t' (fw_nodes fw) (fw_volumes fw)). destruct (List.find _ _) as [r|] eqn:Efind; [|by exists fw1].
  assert (0 ∉ r_name r) as H0.
  { apply List.find_some in Efind as [Hin%list_elem_of_In _]. pose proof (listing_names _ _ Hrecs Hin) as Hb. intros Hz. rewrite Forall_forall in Hb. specialize (Hb 0 Hz). lia. }
  destruct (iso_alloc_run fw1 (ii_volume info) v nl n (node, info) (r_name r) (record_type (r_flags r)) Ha0 Hn0 Hv Hn H0) as [t Halloc].
  rewrite (bind_run _ _ _ _ _ Halloc). set (c := naddr (fw_clock fw1) (fw_nodes fw1)). destruct (Hfresh (fw_clock fw1) (fw_nodes fw1)) as [Hfr Hfn]. fold c in Hfr, Hfn.
  erewrite bind_run by (apply node_run; cbn [fw_nodes]; apply lookup_insert_eq).
  unfold put_info, mbind, st_bind, get_nodes, put_nodes, mret, st_ret. cbn [fw_disk fw_clock fw_nodes fw_volumes fst snd].
  rewrite insert_insert_eq. eexists _, c, _, _. split_and!; [reflexivity|done|done|reflexivity|done| |done]. cbn. by rewrite lookup_insert_eq.
Qed.


(** *** Mounting *)

Definition standard (sec : bytes) : bool := bool_decide (take 5 (drop 1 sec) = ISO9660_STANDARD_ID).

(** The first primary descriptor before a terminator *)
Fixpoint first_primary (secs : list bytes) : option bytes :=
  match secs with
  | [] => None
  | sec :: secs =>
      if standard sec && (byte_of sec 0 =? ISO9660_VOLUME_DESCRIPTOR_PRIMARY) then Some sec
      else if byte_of sec 0 =? ISO9660_VOLUME_DESCRIPTOR_TERMINATOR then None else first_primary secs
  end.

Lemma first_primary_in l sec : first_primary l = Some sec -> sec ∈ l.
Proof.
  induction l as [|x l IH]; cbn; [discriminate|]. destruct (_ && _); [intros [= ->]; constructor|]. destruct (_ =? _); [discriminate|]. intros H%IH. now constructor.
Qed.

Lemma find_primary_spec n : 190 <= bs -> forall lba w t, 0 <= lba -> lba + Z.of_nat n <= disk_size (d := d) ->
  exists w', find_primary n (Some d) None bs lba (w, t) = Some (w', t, Some (take 190 <$> first_primary (sector (d := d) w <$> seqZ lba (Z.of_nat n)))) /\ same w w'.
Proof.
  intros Hbs. induction n as [|n IH]; intros lba w t Hl Hd; [exists w; split; [reflexivity|apply same_refl]|].
  cbn [find_primary]. destruct (io_read_run d Hreads Hops w t lba 1 bs) as (w1 & E & Hw1); [lia..|].
  change (iso9660_read_sector (Some d) None bs lba) with (io_read (Some d) lba 1 bs). rewrite (bind_run _ _ _ _ _ E). rewrite Z.mul_1_l, <- sector_bytes by lia.
  rewrite Nat2Z.inj_succ, seqZ_cons, fmap_cons by lia. cbn [first_primary]. rewrite Z.pred_succ. set (sec := sector w lba).
  assert (Hin : 0 <= lba < disk_size (d := d)) by lia. pose proof (sector_len (d := d) w lba Hin) as Hsl. fold sec in Hsl.
  unfold lift. rewrite (bind_run _ _ (w1, t) (w1, t) (byte_of sec 0)) by (rewrite byte_of_at by lia; reflexivity).
  rewrite (bind_run _ _ (w1, t) (w1, t) (take 5 (drop 1 sec))) by (rewrite sub_bytes_ok by lia; reflexivity). fold (standard sec).
  assert (Hrest : exists w', find_primary n (Some d) None bs (lba + 1) (w1, t) = Some (w', t, Some (take 190 <$> first_primary (sector (d := d) w <$> seqZ (Z.succ lba) (Z.of_nat n)))) /\ same w w').
  { destruct (IH (lba + 1) w1 t) as (w' & E' & Hw'); [lia..|]. exists w'. split; [|eapply same_trans; eassumption]. rewrite E'. do 4 f_equal.
    rewrite Z.add_1_r. f_equal. apply list_fmap_ext. intros ? x _. apply Hw1. }
  destruct (standard sec), (Z.eqb_spec (byte_of sec 0) ISO9660_VOLUME_DESCRIPTOR_PRIMARY) as [E1|E1]; cbn [negb andb].
  - rewrite (bind_run _ _ (w1, t) (w1, t) (take 190 sec)) by (rewrite sub_bytes_ok by (unfold sizeof_ISO9660PrimaryVolumeDescriptor; lia); reflexivity). exists w1. split; [reflexivity|assumption].
  - destruct (byte_of sec 0 =? ISO9660_VOLUME_DESCRIPTOR_TERMINATOR); [|exact Hrest]. exists w1. split; [reflexivity|assumption].
  - destruct (byte_of sec 0 =? ISO9660_VOLUME_DESCRIPTOR_TERMINATOR); [|exact Hrest]. exists w1. split; [reflexivity|assumption].
  - destruct (byte_of sec 0 =? ISO9660_VOLUME_DESCRIPTOR_TERMINATOR); [|exact Hrest]. exists w1. split; [reflexivity|assumption].
Qed.

Lemma take_word sec k : 0 <= k -> k + 4 <= 190 -> 190 <= zlen sec -> Forall is_byte sec -> iso9660_read_lsb32 (take 190 sec) k = Some (word_of sec k).
Proof.
  intros Hk Hk4 Hl Hb. pose proof (lsb32_in [] (take 190 sec) [] k) as H. cbn [app] in H. rewrite app_nil_r in H. change (zlen []) with 0 in H. rewrite Z.add_0_l in H.
  assert (Hlt : zlen (take 190 sec) = 190). { change 190%nat with (Z.to_nat 190). rewrite zlen_take by lia. lia. }
  rewrite H; [|now apply Forall_take|lia|lia]. f_equal. unfold word_of. f_equal. rewrite skipn_firstn_comm, take_take. f_equal. lia.
Qed.

Definition tick (fw : world) : world := mkFsWorld (fw_disk fw) (S (fw_clock fw)) (fw_nodes fw) (fw_volumes fw).

Lemma iso_malloc_run (fw : world) : iso_malloc all_ok fw = Some (tick fw, true).
Proof. reflexivity. Qed.

Lemma iso_alloc_root (fw : world) a v : a <> NULL -> fw_volumes fw !! a = Some (v, Some []) ->
  let n := naddr (fw_clock fw) (fw_nodes fw) in
  exists t, iso9660_alloc_node all_ok naddr a NULL [] VFS_NODE_DIRECTORY fw =
    Some (mkFsWorld (fw_disk fw) t (<[n := (mkNode None VFS_NODE_DIRECTORY VFS_NODE_FLAG_READONLY None None, mkIsoInfo a 0 0 0 false)]> (fw_nodes fw))
            (<[a := (v, Some [n])]> (fw_volumes fw)), Some n).
Proof.
  intros Ha Hv n. unfold iso9660_alloc_node. destruct (Z.eqb_spec a NULL); [done|]. unfold mbind, st_bind, iso_malloc, run_io, io_malloc, get_clock, get_nodes, all_ok, lift, get_volumes, mret, st_ret.
  cbn. erewrite volume_run by exact Hv. cbn. by eexists.
Qed.

Lemma iso_dir_same (w w' : W) (info : ISO9660NodeInfo) (blocks : list (list bytes)) : same w w' -> iso_dir d w info blocks -> iso_dir d w' info blocks.
Proof. intros Hw [D1 D2 D3 D4]. constructor; try assumption. intros i rs Hi. destruct (D4 i rs Hi) as (Hok & pad & Hs & Hp). split; [assumption|]. exists pad. now rewrite Hw. Qed.


End Mounted.

(** ** A disc of 84 blocks of 256 bytes

    Its descriptor is in block 16, the root directory in block 80 and the
    file [A.TXT] in the two blocks from 81 on. *)

Module Disc.

Definition device : BlockDevice := mkBlockDevice None BLKDEV_TYPE_CDROM 256 84 (Some (mkBlockOps true true true)) 0.

Definition record_bytes (extent len flags : Z) (id : bytes) : bytes :=
  [33 + zlen id; 0] ++ le_bytes 4 extent ++ zeros 4 ++ le_bytes 4 len ++ zeros 4 ++ zeros 7 ++ [flags] ++ zeros 6 ++ [zlen id] ++ id.

(** ["A.TXT;1"] and ["SUB"] *)
Definition file_record : bytes := record_bytes 81 300 0 [65; 46; 84; 88; 84; 59; 49].
Definition sub_record : bytes := record_bytes 83 256 2 [83; 85; 66].
Definition records : list bytes := [record_bytes 80 256 2 [0]; record_bytes 80 256 2 [1]; file_record; sub_record].

Definition descriptor : bytes := [1] ++ ISO9660_STANDARD_ID ++ zeros 150 ++ record_bytes 80 256 2 [0].

Definition disk : gmap Z bytes :=
  <[16 := descriptor]> (<[17 := [255] ++ ISO9660_STANDARD_ID]> (<[80 := concat records]> (<[81 := replicate 256 1]> (<[82 := replicate 256 2]> ∅)))).

#[export] Instance laws : DiskLaws (W := gmap Z bytes) device := MemDisk.mem_laws device ltac:(cbn; lia) ltac:(cbn; lia).

Definition volume : ISO9660Volume := mkIsoVolume (Some device) 256.
Definition root_node : VFSNode := mkNode None VFS_NODE_DIRECTORY VFS_NODE_FLAG_READONLY None None.
Definition root_info : ISO9660NodeInfo := mkIsoInfo 9 80 256 2 true.
Definition world : FsWorld (gmap Z bytes) ISO9660NodeInfo ISO9660Volume := mkFsWorld disk 0 {[1 := (root_node, root_info)]} {[9 := (volume, Some [1])]}.

Definition fresh_key {X} (k : nat) (m : gmap Z X) : Z := fresh ({[NULL]} ∪ dom m : gset Z).

Lemma fresh_key_fresh {X} k (m : gmap Z X) : m !! fresh_key k m = None /\ fresh_key k m <> NULL.
Proof.
  unfold fresh_key. pose proof (is_fresh ({[NULL]} ∪ dom m : gset Z)) as H. rewrite elem_of_union, elem_of_singleton, elem_of_dom in H.
  split; [|tauto]. apply eq_None_not_Some. intros Hs. apply H. by right.
Qed.

Lemma disc_reads : reads_succeed (W := gmap Z bytes) device (disk_size (d := device)).
Proof. apply MemDisk.mem_reads. Qed.

Lemma disc_ops : exists o, d_ops device = Some o /\ has_read o = true.
Proof. by eexists. Qed.

Lemma root_blocks info : extent_lba info = 80 -> data_length info = 256 -> iso_dir device disk info [records].
Proof.
  intros He Hl. constructor; rewrite ?He, ?Hl; [reflexivity|vm_compute; congruence|vm_compute; split; congruence|].
  intros [|[|i]] rs Hi; cbn in Hi; simplify_eq. split.
  - repeat constructor; try (apply (bool_decide_unpack _); vm_compute; done); vm_compute; congruence.
  - exists (zeros 112). split; [vm_compute; reflexivity|]. right. by eexists.
Qed.

Lemma disc_root : open_dir device world 1 volume root_info [records].
Proof. constructor; [by exists root_node|done|by exists (Some [1])|done|by apply root_blocks]. Qed.

Lemma disk_bytes_ok lba : Forall is_byte (sector (d := device) disk lba).
Proof.
  cbn [sector laws MemDisk.mem_laws]. unfold MemDisk.get. apply Forall_take, Forall_app. split; [|apply Forall_replicate; lia].
  assert (map_Forall (fun _ => Forall is_byte) disk) as H by (apply (bool_decide_unpack _); vm_compute; done).
  destruct (disk !! lba) as [b|] eqn:E; cbn; [apply (H lba b E)|constructor].
Qed.

End Disc.

#[local] Existing Instance Disc.laws.

(** The fourth record is the second entry. *)
Lemma iso9660_readdir_spec_witness : exists fw',
  iso9660_node_readdir (A := I386) all_ok 1 1 Disc.world = Some (fw', (VFS_RES_OK, Some (mkDirEntry [115; 117; 98] VFS_NODE_DIRECTORY))).
Proof.
  destruct (iso9660_readdir_spec (A := I386) Disc.device Disc.disc_reads Disc.disc_ops Disc.world 1 Disc.volume Disc.root_info [Disc.records] 1 Disc.disc_root) as (fw' & H & _); [cbn; lia|].
  exists fw'. etransitivity; [exact H|]. vm_compute. reflexivity.
Defined.



(** ** Behaviours of the driver that a disc can show *)

Module Observed.
#[local] Instance arch : Arch := I386.

(** The disc as the partition from block 100 on of a larger device *)
Definition big_device : BlockDevice := mkBlockDevice None BLKDEV_TYPE_DISK 256 200 (Some (mkBlockOps true true true)) 0.
Definition partition : Volume := mkVolume None VOLUME_TYPE_MBR_PARTITION (Some big_device) 100 84 256 0 0 [] [].
Definition shifted : gmap Z bytes := kmap (Z.add 100) Disc.disk.

(** Mounts and lists the entry [index] of the root. *)
Definition mount_and_list (d : option BlockDevice) (v : option Volume) (disk : gmap Z bytes) (index : Z) : option (VFSResult * option VFSDirEntry) :=
  '(fw, r) ← iso9660_mount all_ok Disc.fresh_key Disc.fresh_key d v (mkFsWorld disk 0 ∅ ∅);
  n ← r.2; snd <$> iso9660_node_readdir all_ok n index fw.

(** The descriptor is read through the partition, directories are not: the same disc lists its file as a device, and nothing as a partition. *)
Lemma partition_start_ignored :
  mount_and_list (Some Disc.device) None Disc.disk 0 = Some (VFS_RES_OK, Some (mkDirEntry [97; 46; 116; 120; 116] VFS_NODE_REGULAR)) /\
  mount_and_list None (Some partition) shifted 0 = Some (VFS_RES_NOT_FOUND, None).
Proof. split; vm_compute; reflexivity. Qed.

(** A record that starts in the last bytes of a block is read beyond the buffer of the block. *)
Lemma header_past_the_block :
  block_loop (iso9660_readdir_cb 0) 257 ([240] ++ zeros 31 ++ [1; 0] ++ zeros 206 ++ [16] ++ zeros 15) 256 512 0 0 (0, None) = None.
Proof. vm_compute. reflexivity. Qed.

(** The number of blocks is computed in 32 bits: a directory of almost 4 GiB has none. *)
Lemma huge_directory_is_empty : forall s : FsWorld (gmap Z bytes) ISO9660NodeInfo ISO9660Volume,
  snd <$> iso9660_iterate_directory all_ok (iso9660_readdir_cb 0) (mkIsoVolume (Some Disc.device) 2048) (mkIsoInfo 9 20 (2 ^ 32 - 1) 2 false) (0, None) (fw_disk s, fw_clock s)
  = Some (Some (0, None)).
Proof. intros s. reflexivity. Qed.

End Observed.
