(* ===== verification/Printf.v ===== *)
(** * Formatted output ([kernel/util/VPrintf.c], [kernel/util/formatf.c])

    [vprintf] gets a terminated format string and the arguments that are left
    in the [va_list]; its result is the sequence of characters given to
    [putChar], the count it returns and the stores made by [%n].  Reading
    past the end of a string, an argument of another type than the directive
    asks for and signed overflow are [None].  A [double] argument is
    represented by the text [dtoa] writes for it at each precision. *)

From S2P Require Import Prelude Bytes CString Convert.

(** Arguments of a call *)
Inductive va := VInt (x : Z) | VLong (x : Z) | VLongLong (x : Z) | VStr (p : cptr) | VPtr (p : Z) | VDouble (dtoa : Z -> bytes).

Record FormatFlags := mkFlags {
  leftAlign : bool;
  showSign : bool;
  spaceSign : bool;
  alternate : bool;
  zeroPad : bool;
  width : Z;
  precision : Z;
  hasPrecision : bool
}.

(** The result of an [int] computation *)
Definition int (x : Z) : option Z := if (- 2 ^ 31 <=? x) && (x <? 2 ^ 31) then Some x else None.

Fixpoint parseNumber (format : bytes) (num : Z) : option (bytes * Z) :=
  match format with
  | [] => None
  | c :: rest => if is_digit c then num ← int (num * 10 + (c - 48)); parseNumber rest num else Some (format, num)
  end.

(** The loop over ['-'], ['+'], [' '], ['#'] and ['0'] *)
Fixpoint flag_loop (format : bytes) (f : FormatFlags) : option (bytes * FormatFlags) :=
  match format with
  | [] => None
  | c :: rest =>
      let '(mkFlags l s sp a z w p h) := f in
      if c =? 45 then flag_loop rest (mkFlags true s sp a z w p h)
      else if c =? 43 then flag_loop rest (mkFlags l true sp a z w p h)
      else if c =? 32 then flag_loop rest (mkFlags l s true a z w p h)
      else if c =? 35 then flag_loop rest (mkFlags l s sp true z w p h)
      else if c =? 48 then flag_loop rest (mkFlags l s sp a (if negb l then true else z) w p h)
      else Some (format, f)
  end.

(** The number or ['*'] of a width: -1 when it is an argument *)
Definition parse_width (format : bytes) (f : FormatFlags) : option (bytes * FormatFlags) :=
  let '(mkFlags l s sp a z w p h) := f in
  c ← head format;
  if is_digit c
  then
    let '(format, z) := if (c =? 48) && negb z then (tail format, true) else (format, z) in
    '(format, w) ← parseNumber format 0;
    Some (format, mkFlags l s sp a z w p h)
  else if c =? 42 then Some (tail format, mkFlags l s sp a z (-1) p h)
  else Some (format, f).

Definition parse_precision (format : bytes) (f : FormatFlags) : option (bytes * FormatFlags) :=
  let '(mkFlags l s sp a z w p h) := f in
  c ← head format;
  if c =? 46
  then
    let format := tail format in
    c ← head format;
    if is_digit c then '(format, p) ← parseNumber format 0; Some (format, mkFlags l s sp a z w p true)
    else if c =? 42 then Some (tail format, mkFlags l s sp a z w (-1) true)
    else Some (format, mkFlags l s sp a z w 0 true)
  else Some (format, f).

Definition parseFlags (format : bytes) : option (bytes * FormatFlags) :=
  '(format, f) ← flag_loop format (mkFlags false false false false false 0 6 false);
  '(format, f) ← parse_width format f;
  parse_precision format f.

(** ** Output: the characters and the count *)

Definition printed : Type := bytes * Z.
Definition nothing : printed := ([], 0).
Definition put (c : Z) : printed := ([c], 1).
Definition then_print (a b : printed) : printed := (a.1 ++ b.1, a.2 + b.2).
Declare Scope print_scope.
Infix ">>" := then_print (at level 50, left associativity) : print_scope.
Local Open Scope print_scope.

Definition printPadding (count padChar : Z) : printed := (replicate (Z.to_nat count) padChar, Z.max 0 count).

Definition null_text : bytes := cstr [40; 110; 117; 108; 108; 41].

Definition printString (str : cptr) (f : FormatFlags) : option printed :=
  let str := default null_text str in
  len ← strlen_loop str 0;
  len ← int len;
  let len := if hasPrecision f && (precision f <? len) then precision f else len in
  let padding := width f - len in
  chars ← sub_bytes str 0 len;
  Some ((if negb (leftAlign f) && (0 <? padding) then printPadding padding 32 else nothing)
        >> (chars, len)
        >> (if leftAlign f && (0 <? padding) then printPadding padding 32 else nothing)).

(** ["0123456789abcdef"] *)
Definition hex_digits (uppercase : bool) : bytes := take 16 (if uppercase then digits_up else digits_low).

(** A local array of [cap] bytes is the list of the bytes stored so far. *)
Definition push (cap : Z) (ptr : bytes) (c : Z) : option bytes := if zlen ptr <? cap then Some (ptr ++ [c]) else None.

Definition terminate (cap : Z) (ptr : bytes) : option bytes := push cap ptr 0.

Definition reverse_all (ptr : bytes) : option bytes := reverse_loop (Z.to_nat (zlen ptr / 2)) ptr (zlen ptr) 0.

(** [while (temp > 0)] with division, and with the low four bits *)
Fixpoint base_loop (fuel : nat) (cap : Z) (digits : bytes) (temp base : Z) (ptr : bytes) : option bytes :=
  match fuel with
  | O => None
  | S fuel =>
      if 0 <? temp
      then c ← digits !! Z.to_nat (temp mod base); ptr ← push cap ptr c; base_loop fuel cap digits (temp / base) base ptr
      else Some ptr
  end.

Fixpoint nibble_loop (fuel : nat) (cap : Z) (digits : bytes) (temp : Z) (ptr : bytes) : option bytes :=
  match fuel with
  | O => None
  | S fuel =>
      if 0 <? temp
      then c ← digits !! Z.to_nat (Z.land temp 15); ptr ← push cap ptr c; nibble_loop fuel cap digits (Z.shiftr temp 4) ptr
      else Some ptr
  end.

(** Whether the alternate form adds ["0"] or ["0x"] *)
Definition alternate_text (f : FormatFlags) (base value first : Z) (uppercase : bool) : bytes :=
  if negb (alternate f) then []
  else if (base =? 8) && negb (first =? 48) then [48]
  else if (base =? 16) && negb (value =? 0) then [48; if uppercase then 88 else 120]
  else [].

Definition printNumber (value base : Z) (uppercase : bool) (f : FormatFlags) : option printed :=
  let isNegative := (value <? 0) && (base =? 10) in
  value ← (if isNegative then if value =? - 2 ^ 63 then None else Some (- value) else Some value);
  buffer ← (if value =? 0 then push 66 [] 48
            else
              ptr ← base_loop 65 66 (hex_digits uppercase) value base [];
              ptr ← (if isNegative then push 66 ptr 45 else Some ptr);
              reverse_all ptr);
  ptr ← terminate 66 buffer;
  first ← head ptr;
  let len := zlen buffer in
  let hasSign := isNegative || (first =? 45) in
  let alt := alternate_text f base value first uppercase in
  let prefixLen := (if hasSign then 1 else if showSign f then 1 else if spaceSign f then 1 else 0) + zlen alt in
  let totalLen := len + (if hasSign then 0 else prefixLen) in
  let padding := width f - totalLen in
  let numStart := if hasSign then drop 1 buffer else buffer in
  Some ((if negb (leftAlign f) && negb (zeroPad f) && (0 <? padding) then printPadding padding 32 else nothing)
        >> (if hasSign then put first else if showSign f then put 43 else if spaceSign f then put 32 else nothing)
        >> (alt, zlen alt)
        >> (if negb (leftAlign f) && zeroPad f && (0 <? padding) then printPadding padding 48 else nothing)
        >> (numStart, zlen numStart)
        >> (if leftAlign f && (0 <? padding) then printPadding padding 32 else nothing)).

(** *** Decimal digits of a wide number by subtracting powers of ten *)

Definition powers : list Z := (fun i => 10 ^ i) <$> seqZ 0 20.

(** The highest power not above the number, from [p] down; [None]: none *)
Fixpoint powerIndex (p : nat) (temp : Z) : option nat :=
  if temp <? nth p powers 0 then match p with O => None | S p => powerIndex p temp end else Some p.

(** [while (temp >= power)] *)
Fixpoint subtract_loop (fuel : nat) (temp power digit : Z) : option (Z * Z) :=
  match fuel with
  | O => None
  | S fuel => if power <=? temp then subtract_loop fuel (temp - power) power (digit + 1) else Some (temp, digit)
  end.

(** The loop over the powers from [n - 1] down *)
Fixpoint decimal_loop (n : nat) (cap : Z) (digits : bytes) (temp : Z) (ptr : bytes) : option bytes :=
  match n with
  | O => Some ptr
  | S p =>
      '(temp, digit) ← subtract_loop 11 temp (nth p powers 0) 0;
      ptr ← (if (0 <? digit) || (0 <? zlen ptr) then c ← digits !! Z.to_nat digit; push cap ptr c else Some ptr);
      decimal_loop p cap digits temp ptr
  end.

(** The digits of a number above zero, and the number afterwards *)
Definition unsigned_digits (value base : Z) (uppercase : bool) : option (bytes * Z) :=
  let digits := hex_digits uppercase in
  if value <=? 4294967295
  then ptr ← base_loop 33 65 digits value base []; ptr ← reverse_all ptr; Some (ptr, value)
  else if base =? 16
  then ptr ← nibble_loop 17 65 digits value []; ptr ← reverse_all ptr; Some (ptr, value)
  else if base =? 10
  then
    ptr ← decimal_loop (match powerIndex 19 value with Some p => S p | None => 0 end) 65 digits value [];
    ptr ← (if zlen ptr =? 0 then push 65 ptr 48 else Some ptr);
    Some (ptr, value)
  else ptr ← nibble_loop 17 65 digits value []; ptr ← reverse_all ptr; Some (ptr, 0).

Definition printUnsignedNumber (value base : Z) (uppercase : bool) (f : FormatFlags) : option printed :=
  '(buffer, value) ← (if value =? 0 then ptr ← push 65 [] 48; Some (ptr, value) else unsigned_digits value base uppercase);
  ptr ← terminate 65 buffer;
  first ← head ptr;
  let alt := alternate_text f base value first uppercase in
  let totalLen := zlen buffer + zlen alt in
  let padding := width f - totalLen in
  Some ((if negb (leftAlign f) && negb (zeroPad f) && (0 <? padding) then printPadding padding 32 else nothing)
        >> (alt, zlen alt)
        >> (if negb (leftAlign f) && zeroPad f && (0 <? padding) then printPadding padding 48 else nothing)
        >> (buffer, zlen buffer)
        >> (if leftAlign f && (0 <? padding) then printPadding padding 32 else nothing)).

Definition printFloat (dtoa : Z -> bytes) (f : FormatFlags) : option printed :=
  let text := dtoa (if hasPrecision f then precision f else 6) in
  if zlen text + 1 <=? 128 then printString (Some (cstr text)) f else None.

(** ** Directives *)

(** [isChar], [isShort] or the [length] *)
Inductive length_modifier := LChar | LShort | LInt | LLong | LLongLong.

Definition parse_length (format : bytes) : option (bytes * length_modifier) :=
  c ← head format;
  if c =? 104
  then let format := tail format in c ← head format; Some (if c =? 104 then (tail format, LChar) else (format, LShort))
  else if c =? 108
  then let format := tail format in c ← head format; Some (if c =? 108 then (tail format, LLongLong) else (format, LLong))
  else if (c =? 122) || (c =? 116) then Some (tail format, LLong)
  else Some (format, LInt).

Section Vprintf.
Context `{A : Arch}.

(** The value of an integer argument as the directive takes it *)
Definition signed_arg (len : length_modifier) (args : list va) : option (Z * list va) :=
  match len, args with
  | LChar, VInt x :: args => Some (sign_of 8 x, args)
  | LShort, VInt x :: args => Some (sign_of 16 x, args)
  | LInt, VInt x :: args => Some (sign_of 32 x, args)
  | LLong, VLong x :: args => Some (sign_of size_bits x, args)
  | LLongLong, VLongLong x :: args => Some (sign_of 64 x, args)
  | _, _ => None
  end.

Definition unsigned_arg (len : length_modifier) (args : list va) : option (Z * list va) :=
  match len, args with
  | LChar, VInt x :: args => Some (wrap 8 x, args)
  | LShort, VInt x :: args => Some (wrap 16 x, args)
  | LInt, VInt x :: args => Some (wrap 32 x, args)
  | LLong, VLong x :: args => Some (wrap size_bits x, args)
  | LLongLong, VLongLong x :: args => Some (wrap 64 x, args)
  | _, _ => None
  end.

Definition int_arg (args : list va) : option (Z * list va) := signed_arg LInt args.

(** A width of -1 is taken from the arguments. *)
Definition take_width (f : FormatFlags) (args : list va) : option (FormatFlags * list va) :=
  let '(mkFlags l s sp a z w p h) := f in
  if w =? -1
  then
    '(w, args) ← int_arg args;
    if w <? 0 then w ← int (- w); Some (mkFlags true s sp a z w p h, args) else Some (mkFlags l s sp a z w p h, args)
  else Some (f, args).

Definition take_precision (f : FormatFlags) (args : list va) : option (FormatFlags * list va) :=
  let '(mkFlags l s sp a z w p h) := f in
  if h && (p =? -1)
  then '(p, args) ← int_arg args; Some (mkFlags l s sp a z w p (if p <? 0 then false else h), args)
  else Some (f, args).

Definition printChar (c : Z) (f : FormatFlags) : printed :=
  (if negb (leftAlign f) && (1 <? width f) then printPadding (width f - 1) 32 else nothing)
  >> put (wrap 8 c)
  >> (if leftAlign f && (1 <? width f) then printPadding (width f - 1) 32 else nothing).

(** The array [buffer] of 20 bytes: the prefix, then the digits *)
Definition printPointer (value : Z) (f : FormatFlags) : option printed :=
  ptr_buf ← (if value =? 0 then push 18 [] 48 else ptr ← nibble_loop 17 18 (hex_digits false) value []; reverse_all ptr);
  ptr_buf ← terminate 18 ptr_buf;
  printString (Some ([48; 120] ++ ptr_buf)) f.

(** The characters of a directive, the arguments left and the store of [%n] *)
Definition convert (c : Z) (len : length_modifier) (f : FormatFlags) (args : list va) (count : Z) : option (printed * list va * list (Z * Z)) :=
  if (c =? 100) || (c =? 105) then
    '(v, args) ← signed_arg len args; p ← printNumber v 10 false f; Some (p, args, [])
  else if c =? 117 then
    '(v, args) ← unsigned_arg len args; p ← printUnsignedNumber v 10 false f; Some (p, args, [])
  else if c =? 111 then
    '(v, args) ← unsigned_arg len args; p ← printUnsignedNumber v 8 false f; Some (p, args, [])
  else if (c =? 120) || (c =? 88) then
    '(v, args) ← unsigned_arg len args; p ← printUnsignedNumber v 16 (c =? 88) f; Some (p, args, [])
  else if c =? 99 then
    '(v, args) ← int_arg args; Some (printChar v f, args, [])
  else if c =? 115 then
    match args with VStr s :: args => p ← printString s f; Some (p, args, []) | _ => None end
  else if c =? 112 then
    match args with VPtr v :: args => p ← printPointer v f; Some (p, args, []) | _ => None end
  else if bool_decide (c ∈ [102; 70; 101; 69; 103; 71]) then
    match args with VDouble d :: args => p ← printFloat d f; Some (p, args, []) | _ => None end
  else if c =? 110 then
    match args with VPtr v :: args => Some (nothing, args, if v =? NULL then [] else [(v, count)]) | _ => None end
  else Some (([37; c], 2), args, []).

(** [printed += ...] *)
Definition add_output (out p : printed) : option printed := _ ← int (out.2 + p.2); Some (out >> p).

(** What has been printed so far, and the stores *)
Fixpoint vprintf_loop (fuel : nat) (format : bytes) (args : list va) (out : printed) (stores : list (Z * Z)) : option (printed * list (Z * Z)) :=
  match fuel with
  | O => None
  | S fuel =>
      c ← head format;
      if c =? 0 then Some (out, stores)
      else
        let format := tail format in
        if negb (c =? 37) then out ← add_output out (put c); vprintf_loop fuel format args out stores
        else
          c ← head format;
          if c =? 37 then out ← add_output out (put 37); vprintf_loop fuel (tail format) args out stores
          else
            '(format, f) ← parseFlags format;
            '(f, args) ← take_width f args;
            '(f, args) ← take_precision f args;
            '(format, len) ← parse_length format;
            c ← head format;
            '(p, args, s) ← convert c len f args out.2;
            out ← add_output out p;
            vprintf_loop fuel (tail format) args out (stores ++ s)
  end.

Definition vprintf (format : bytes) (args : list va) : option (printed * list (Z * Z)) :=
  vprintf_loop (S (length format)) format args nothing [].

End Vprintf.

(** ** [formatf] *)

Record Formatf := mkFormatf { formatf_buffer : option bytes; buffer_count : Z; buffer_size : Z }.

Section Formatf.
(** Whether an allocation succeeds, and what new memory holds *)
Context `{A : Arch} (mal : nat -> bool) (junk : nat -> bytes).

(** [k] counts the allocations. *)
Definition formatf_putChar (c : Z) (x : Formatf * nat) : option (Formatf * nat) :=
  let '(mkFormatf buf count size, k) := x in
  match buf with
  | None => Some x
  | Some b =>
      if size =? 0 then Some x
      else if (size <=? count +[size_bits] 1) && negb (mal k) then Some (mkFormatf buf count size, S k)
      else
        let '(b, size, k) := if size <=? count +[size_bits] 1
                             then let new_size := size +[size_bits] 256 in (take (Z.to_nat new_size) (b ++ junk k), new_size, S k)
                             else (b, size, k) in
        b ← store b count c;
        b ← store b (count +[size_bits] 1) 0;
        Some (mkFormatf (Some b) (count +[size_bits] 1) size, k)
  end.

Fixpoint put_all (cs : bytes) (x : Formatf * nat) : option (Formatf * nat) :=
  match cs with [] => Some x | c :: cs => x ← formatf_putChar c x; put_all cs x end.

(** A call while [buffer_in_use] is clear *)
Definition formatf (format : bytes) (args : list va) : option (option bytes) :=
  if mal 0%nat
  then
    '(p, _) ← vprintf format args;
    '(x, _) ← put_all p.1 (mkFormatf (Some (zeros 256)) 0 256, 1%nat);
    Some (formatf_buffer x)
  else Some None.

End Formatf.
