(* ===== verification/PrintfSpec.v ===== *)
(** * The meaning of format strings

    A format string is the concrete syntax of a list of pieces: characters and
    directives.  [render] is their meaning, by fields of text with a sign, a
    prefix and a padding; [vprintf] on the concrete syntax prints it. *)

From S2P Require Import Prelude Bytes CString Convert Printf.
Local Open Scope print_scope.

(** ** Numerals *)

Definition digit (up : bool) (d : Z) : Z := if d <? 10 then 48 + d else (if up then 55 else 87) + d.

Definition numeral (up : bool) (base v : Z) : bytes := if v =? 0 then [48] else reverse (digit up <$> lsd 64 base v).

Lemma hex_digit up d : 0 <= d < 16 -> hex_digits up !! Z.to_nat d = Some (digit up d).
Proof.
  intros Hd. unfold hex_digits. rewrite lookup_take_lt by lia. unfold digits_up, digits_low, digit.
  destruct up; rewrite list_lookup_fmap, lookup_seqZ_lt by lia; cbn; rewrite Z2Nat.id by lia; done.
Qed.

Lemma push_ok cap ptr c : zlen ptr < cap -> push cap ptr c = Some (ptr ++ [c]).
Proof. intros H. unfold push. now rewrite (proj2 (Z.ltb_lt _ _) H). Qed.

Lemma reverse_all_spec ptr : reverse_all ptr = Some (reverse ptr).
Proof.
  unfold reverse_all. pose proof (reverse_loop_spec (Z.to_nat (zlen ptr / 2)) [] ptr [] []) as H. cbn [app] in H. rewrite !app_nil_r in H.
  apply H; [done|]. unfold zlen. change 2 with (Z.of_nat 2). rewrite <- Nat2Z.inj_div, Nat2Z.id. reflexivity.
Qed.

Lemma base_loop_spec up cap base n : 2 <= base <= 16 -> forall m v ptr, 0 <= v < 2 ^ Z.of_nat n -> (length (lsd n base v) <= m)%nat ->
  zlen ptr + Z.of_nat (length (lsd n base v)) <= cap ->
  base_loop (S m) cap (hex_digits up) v base ptr = Some (ptr ++ (digit up <$> lsd n base v)).
Proof.
  intros Hb. induction n as [|n IH]; intros m v ptr Hv Hm Hc.
  { change (2 ^ Z.of_nat 0) with 1 in Hv. cbn [base_loop]. destruct (Z.ltb_spec 0 v); [lia|]. cbn. now rewrite app_nil_r. }
  cbn [base_loop lsd] in Hm, Hc |- *. destruct (Z.ltb_spec 0 v); [|cbn; now rewrite app_nil_r]. cbn [length] in Hm, Hc.
  pose proof (Z.mod_pos_bound v base ltac:(lia)). rewrite hex_digit by lia. cbn [mbind option_bind]. rewrite push_ok by lia. cbn [mbind option_bind].
  destruct m as [|m]; [lia|]. rewrite Nat2Z.inj_succ, Z.pow_succ_r in Hv by lia.
  rewrite IH; [now rewrite <- app_assoc| |lia|rewrite zlen_app; change (zlen [_]) with 1; lia].
  split; [apply Z.div_pos; lia|]. apply Z.div_lt_upper_bound; [lia|]. nia.
Qed.

Lemma nibble_base fuel cap digits v ptr : nibble_loop fuel cap digits v ptr = base_loop fuel cap digits v 16 ptr.
Proof.
  revert v ptr. induction fuel as [|fuel IH]; intros v ptr; [done|]. cbn [nibble_loop base_loop].
  change 15 with (Z.ones 4). rewrite Z.land_ones, Z.shiftr_div_pow2 by lia. change (2 ^ 4) with 16. destruct (0 <? v); [|done].
  destruct (digits !! _); [|done]. cbn [mbind option_bind]. destruct (push _ _ _); [|done]. cbn [mbind option_bind]. apply IH.
Qed.

(** *** Powers of ten *)

Lemma power_nth p : (p < 20)%nat -> nth p powers 0 = 10 ^ Z.of_nat p.
Proof. intros Hp. do 20 (destruct p as [|p]; [reflexivity|]). lia. Qed.

Lemma powerIndex_spec p v : (p < 20)%nat -> 0 < v < 10 ^ Z.of_nat (S p) -> exists q, powerIndex p v = Some q /\ (q <= p)%nat /\ 10 ^ Z.of_nat q <= v < 10 ^ Z.of_nat (S q).
Proof.
  induction p as [|p IH]; intros Hp Hv; cbn [powerIndex]; rewrite power_nth by lia.
  - exists 0%nat. destruct (Z.ltb_spec v (10 ^ Z.of_nat 0)) as [H|H]; [change (10 ^ Z.of_nat 0) with 1 in H; lia|]. split_and!; [done|lia|lia|lia].
  - destruct (Z.ltb_spec v (10 ^ Z.of_nat (S p))) as [H|H]; [|exists (S p); split_and!; [done|lia|lia|lia]].
    destruct IH as (q & E & Hq & Hb); [lia|lia|]. exists q. split_and!; [done|lia|lia|lia].
Qed.

Lemma subtract_loop_spec pow : 0 < pow -> forall fuel v d, 0 <= v -> v / pow < Z.of_nat fuel -> subtract_loop fuel v pow d = Some (v mod pow, d + v / pow).
Proof.
  intros Hp. induction fuel as [|fuel IH]; intros v d Hv Hf; [pose proof (Z.div_pos v pow); lia|]. cbn [subtract_loop].
  destruct (Z.leb_spec pow v) as [H|H].
  - assert (v / pow = (v - pow) / pow + 1) as E. { replace v with ((v - pow) + 1 * pow) at 1 by lia. now rewrite Z.div_add by lia. }
    rewrite IH by lia. f_equal. f_equal; [|lia]. rewrite <- (Z.mod_add (v - pow) 1 pow) by lia. f_equal. lia.
  - now rewrite Z.mod_small, Z.div_small, Z.add_0_r by lia.
Qed.

(** The [n] decimal digits from the most significant one on *)
Fixpoint msd (n : nat) (v : Z) : list Z := match n with O => [] | S p => v / 10 ^ Z.of_nat p :: msd p (v mod 10 ^ Z.of_nat p) end.

Lemma msd_step n v : 0 <= v < 10 ^ Z.of_nat (S n) -> msd (S n) v = msd n (v / 10) ++ [v mod 10].
Proof.
  revert v. induction n as [|n IH]; intros v Hv; [change (10 ^ Z.of_nat 1) with 10 in Hv; cbn; now rewrite Z.div_1_r, Z.mod_small by lia|].
  change (msd (S (S n)) v) with (v / 10 ^ Z.of_nat (S n) :: msd (S n) (v mod 10 ^ Z.of_nat (S n))). rewrite IH by (apply Z.mod_pos_bound; lia).
  cbn [msd app]. rewrite Nat2Z.inj_succ, Z.pow_succ_r by lia. pose proof (Z.pow_pos_nonneg 10 (Z.of_nat n) ltac:(lia) ltac:(lia)). f_equal.
  - rewrite Z.div_div by lia. reflexivity.
  - f_equal.
    + f_equal. rewrite Z.rem_mul_r by lia. rewrite Z.mul_comm, Z.div_add by lia. rewrite (Z.div_small (v mod 10)) by (apply Z.mod_pos_bound; lia). lia.
    + f_equal. rewrite Z.rem_mul_r by lia. rewrite Z.mul_comm, Z.mod_add, Z.mod_mod by lia. reflexivity.
Qed.

Lemma lsd_msd n q v : 10 ^ Z.of_nat q <= v < 10 ^ Z.of_nat (S q) -> v < 2 ^ Z.of_nat n -> lsd n 10 v = reverse (msd (S q) v).
Proof.
  revert q v. induction n as [|n IH]; intros q v Hv Hn.
  { pose proof (Z.pow_pos_nonneg 10 (Z.of_nat q) ltac:(lia) ltac:(lia)). change (2 ^ Z.of_nat 0) with 1 in Hn. lia. }
  cbn [lsd]. pose proof (Z.pow_pos_nonneg 10 (Z.of_nat q) ltac:(lia) ltac:(lia)). destruct (Z.ltb_spec 0 v); [|lia].
  rewrite msd_step, reverse_app by lia. cbn [reverse app]. rewrite reverse_singleton. cbn [app]. f_equal.
  rewrite Nat2Z.inj_succ, Z.pow_succ_r in Hn by lia. destruct q as [|q].
  - change (10 ^ Z.of_nat 1) with 10 in Hv. rewrite Z.div_small by lia. now destruct n.
  - apply IH; [|apply Z.div_lt_upper_bound; lia]. rewrite (Nat2Z.inj_succ (S q)), (Nat2Z.inj_succ q), !Z.pow_succ_r in Hv by lia.
    rewrite Nat2Z.inj_succ, Z.pow_succ_r by lia. split; [apply Z.div_le_lower_bound; lia|apply Z.div_lt_upper_bound; lia].
Qed.

Lemma decimal_tail up cap n : forall v ptr, (n <= 20)%nat -> 0 <= v < 10 ^ Z.of_nat n -> 0 < zlen ptr -> zlen ptr + Z.of_nat n <= cap ->
  decimal_loop n cap (hex_digits up) v ptr = Some (ptr ++ (digit up <$> msd n v)).
Proof.
  induction n as [|n IH]; intros v ptr Hn Hv Hp Hc; cbn [decimal_loop msd]; [cbn; now rewrite app_nil_r|].
  rewrite Nat2Z.inj_succ, Z.pow_succ_r in Hv by lia. pose proof (Z.pow_pos_nonneg 10 (Z.of_nat n) ltac:(lia) ltac:(lia)).
  assert (0 <= v / 10 ^ Z.of_nat n < 10) as Hd by (split; [apply Z.div_pos; lia|apply Z.div_lt_upper_bound; lia]).
  rewrite power_nth, subtract_loop_spec by lia. cbn [mbind option_bind]. rewrite (proj2 (Z.ltb_lt 0 (zlen ptr)) Hp), orb_true_r, Z.add_0_l, hex_digit by lia.
  cbn [mbind option_bind]. rewrite push_ok by lia. cbn [mbind option_bind].
  rewrite IH; [now rewrite <- app_assoc|lia|apply Z.mod_pos_bound; lia|rewrite zlen_app; change (zlen [_]) with 1; lia..].
Qed.

Lemma decimal_loop_spec up cap q v : (q < 20)%nat -> 10 ^ Z.of_nat q <= v < 10 ^ Z.of_nat (S q) -> 20 <= cap ->
  decimal_loop (S q) cap (hex_digits up) v [] = Some (digit up <$> msd (S q) v).
Proof.
  intros Hq Hv Hc. cbn [decimal_loop msd]. rewrite Nat2Z.inj_succ, Z.pow_succ_r in Hv by lia. pose proof (Z.pow_pos_nonneg 10 (Z.of_nat q) ltac:(lia) ltac:(lia)).
  assert (1 <= v / 10 ^ Z.of_nat q < 10) as Hd by (split; [apply Z.div_le_lower_bound; lia|apply Z.div_lt_upper_bound; lia]).
  rewrite power_nth, subtract_loop_spec by lia. cbn [mbind option_bind]. rewrite Z.add_0_l, (proj2 (Z.ltb_lt 0 _)) by lia. cbn [orb]. rewrite hex_digit by lia. cbn [mbind option_bind].
  rewrite push_ok by (change (zlen []) with 0; lia). cbn [mbind option_bind]. rewrite decimal_tail; [done|lia|apply Z.mod_pos_bound; lia|change (0 < 1); lia|]. change (zlen ([] ++ [digit up (v / 10 ^ Z.of_nat q)])) with 1. lia.
Qed.

(** ** Fields *)

(** A prefix and a body in a field: padded on the right, with zeros after the prefix, or on the left *)
Definition field (left zero : bool) (width : Z) (pre body : bytes) : bytes :=
  let pad := Z.to_nat (width - zlen (pre ++ body)) in
  if left then pre ++ body ++ replicate pad 32
  else if zero then pre ++ replicate pad 48 ++ body
  else replicate pad 32 ++ pre ++ body.

Definition counted (text : bytes) : printed := (text, zlen text).

Lemma counted_app a b : counted a >> counted b = counted (a ++ b).
Proof. unfold counted, then_print. cbn [fst snd]. now rewrite zlen_app. Qed.

Lemma pad_counted (cond : bool) n c : (if cond && (0 <? n) then printPadding n c else nothing) = counted (if cond then replicate (Z.to_nat n) c else []).
Proof.
  unfold printPadding, counted, nothing. destruct cond; cbn [andb]; [|done].
  destruct (Z.ltb_spec 0 n); [|now replace (Z.to_nat n) with 0%nat by lia]. f_equal. unfold zlen. rewrite length_replicate. lia.
Qed.

(** The layout all the integer directives share *)
Lemma field_counted f pre body : let padding := width f - zlen (pre ++ body) in
  counted (if negb (leftAlign f) && negb (zeroPad f) then replicate (Z.to_nat padding) 32 else []) >> counted pre
  >> counted (if negb (leftAlign f) && zeroPad f then replicate (Z.to_nat padding) 48 else []) >> counted body
  >> counted (if leftAlign f then replicate (Z.to_nat padding) 32 else []) = counted (field (leftAlign f) (zeroPad f) (width f) pre body).
Proof.
  cbv zeta. rewrite !counted_app. f_equal. unfold field. destruct (leftAlign f), (zeroPad f); cbn [negb andb app]; rewrite ?app_nil_r, <- ?app_assoc; reflexivity.
Qed.

Lemma print_string_field f s rest : (0 ∉ s) -> zlen s < 2 ^ 31 -> (hasPrecision f = true -> 0 <= precision f) ->
  printString (Some (s ++ 0 :: rest)) f =
  Some (counted (field (leftAlign f) false (width f) [] (if hasPrecision f then take (Z.to_nat (precision f)) s else s))).
Proof.
  intros H0 Hlen Hp. unfold printString. cbn [from_option id]. pose proof (zlen_nonneg s) as Hs. rewrite strlen_loop_spec by done. rewrite Z.add_0_l. cbn [mbind option_bind].
  fold (zlen s). unfold int. rewrite (proj2 (Z.leb_le _ _)), (proj2 (Z.ltb_lt _ _)) by lia. cbn [andb mbind option_bind].
  set (body := if hasPrecision f then take _ s else s).
  assert ((if hasPrecision f && (precision f <? zlen s) then precision f else zlen s) = zlen body) as ->.
  { subst body. destruct (hasPrecision f); cbn [andb]; [|done]. rewrite zlen_take by auto. destruct (Z.ltb_spec (precision f) (zlen s)); specialize (Hp eq_refl); lia. }
  assert (exists tl, s ++ 0 :: rest = [] ++ body ++ tl) as [tl ->].
  { subst body. destruct (hasPrecision f); [|by eexists]. exists (drop (Z.to_nat (precision f)) s ++ 0 :: rest). cbn [app]. now rewrite app_assoc, take_drop. }
  change 0 with (zlen []) at 1. rewrite sub_bytes_app. cbn [mbind option_bind]. rewrite !pad_counted. change (body, zlen body) with (counted body).
  rewrite !counted_app. do 2 f_equal. unfold field. cbn [app]. destruct (leftAlign f); cbn [negb app]; rewrite ?app_nil_r; reflexivity.
Qed.

(** ** Integers *)

Lemma digit_range up d : 0 <= d < 16 -> 48 <= digit up d < 128 /\ (digit up d = 48 <-> d = 0).
Proof. intros Hd. unfold digit. destruct (Z.ltb_spec d 10), up; lia. Qed.

Lemma numeral_length up base v k : 2 <= base -> (1 <= k)%nat -> v < base ^ Z.of_nat k -> zlen (numeral up base v) <= Z.of_nat k.
Proof.
  intros Hb Hk Hv. unfold numeral, zlen. destruct (Z.eqb_spec v 0); [cbn; lia|]. rewrite length_reverse, length_fmap. pose proof (lsd_length_bound base 64 k v Hb Hv). lia.
Qed.

Lemma numeral_chars up base v : 2 <= base <= 16 -> Forall (fun c => 48 <= c < 128) (numeral up base v).
Proof.
  intros Hb. unfold numeral. destruct (Z.eqb_spec v 0); [repeat constructor; lia|]. apply Forall_reverse, Forall_fmap. eapply Forall_impl; [apply lsd_digits; lia|].
  intros d Hd. apply digit_range. cbn in Hd. lia.
Qed.

Lemma numeral_head up base v : 2 <= base <= 16 -> 0 <= v < 2 ^ 64 -> exists c tl, numeral up base v = c :: tl /\ 48 <= c /\ (c = 48 <-> v = 0).
Proof.
  intros Hb Hv. unfold numeral. destruct (Z.eqb_spec v 0) as [->|]; [exists 48, []; split_and!; [done|lia..]|].
  destruct (lsd_last base 64 v) as (ds & d & E & Hd); [lia|change (2 ^ Z.of_nat 64) with (2 ^ 64); lia|]. rewrite E, fmap_app, reverse_app.
  pose proof (lsd_digits base 64 v ltac:(lia)) as Hds. rewrite E, Forall_app, Forall_singleton in Hds. destruct Hds as [_ Hds]. cbn beta in Hds. pose proof (digit_range up d ltac:(lia)).
  exists (digit up d), (reverse (digit up <$> ds)). split; [reflexivity|]. lia.
Qed.

Definition sign_text (f : FormatFlags) (v : Z) : bytes := if v <? 0 then [45] else if showSign f then [43] else if spaceSign f then [32] else [].

Lemma number_field v f : - 2 ^ 63 < v < 2 ^ 63 ->
  printNumber v 10 false f = Some (counted (field (leftAlign f) (zeroPad f) (width f) (sign_text f v) (numeral false 10 (Z.abs v)))).
Proof.
  intros Hv. unfold printNumber, sign_text. set (neg := v <? 0). change (10 =? 10) with true. rewrite andb_true_r.
  assert ((if neg then if v =? - 2 ^ 63 then None else Some (- v) else Some v) = Some (Z.abs v)) as ->.
  { subst neg. destruct (Z.ltb_spec v 0); [|now rewrite Z.abs_eq by lia]. rewrite (proj2 (Z.eqb_neq _ _)) by lia. now rewrite Z.abs_neq by lia. }
  cbn [mbind option_bind]. set (body := numeral false 10 (Z.abs v)).
  assert (zlen body <= 20) as Hlen by (apply (numeral_length false 10 _ 20); [lia|lia|change (10 ^ Z.of_nat 20) with (10 ^ 20); lia]).
  assert ((if Z.abs v =? 0 then push 66 [] 48 else
             ptr ← base_loop 65 66 (hex_digits false) (Z.abs v) 10 []; ptr ← (if neg then push 66 ptr 45 else Some ptr); reverse_all ptr)
          = Some ((if neg then [45] else []) ++ body)) as ->.
  { subst body neg. unfold numeral in *. destruct (Z.eqb_spec (Z.abs v) 0) as [Hz|Hz].
    - rewrite push_ok by (change (zlen []) with 0; lia). destruct (Z.ltb_spec v 0); [lia|done].
    - unfold zlen in Hlen. rewrite length_reverse, length_fmap in Hlen.
      rewrite (base_loop_spec false 66 10 64); [|lia|change (2 ^ Z.of_nat 64) with (2 ^ 64); lia|lia|change (zlen []) with 0; lia]. cbn [mbind option_bind app].
      destruct (v <? 0); [rewrite push_ok by (unfold zlen; rewrite length_fmap; lia)|]; cbn [mbind option_bind]; rewrite reverse_all_spec, ?reverse_app; done. }
  cbn [mbind option_bind]. assert (zlen ((if neg then [45] else []) ++ body) <= 21) as Hl2 by (rewrite zlen_app; destruct neg; [change (zlen [45]) with 1|change (zlen []) with 0]; lia).
  unfold terminate. rewrite push_ok by lia. cbn [mbind option_bind].
  destruct (numeral_head false 10 (Z.abs v)) as (c & tl & E & Hc & _); [lia|lia|]. fold body in E.
  assert (forall f first, alternate_text f 10 (Z.abs v) first false = []) as Halt by (intros g x; unfold alternate_text; now destruct (alternate g)).
  assert (head (((if neg then [45] else []) ++ body) ++ [0]) = Some (if neg then 45 else c)) as -> by (rewrite E; now destruct neg). cbn [mbind option_bind].
  assert (neg || ((if neg then 45 else c) =? 45) = neg) as -> by (destruct neg; [done|]; cbn; apply Z.eqb_neq; lia).
  rewrite Halt. change (zlen []) with 0. rewrite Z.add_0_r. set (sgn := if neg then [45] else if showSign f then [43] else if spaceSign f then [32] else []).
  assert (zlen ((if neg then [45] else []) ++ body) + (if neg then 0 else if neg then 1 else if showSign f then 1 else if spaceSign f then 1 else 0) = zlen (sgn ++ body)) as ->.
  { subst sgn. rewrite !zlen_app. destruct neg, (showSign f), (spaceSign f); change (zlen [45]) with 1; change (zlen [43]) with 1; change (zlen [32]) with 1; change (zlen []) with 0; lia. }
  assert ((if neg then put (if neg then 45 else c) else if showSign f then put 43 else if spaceSign f then put 32 else nothing) = counted sgn) as ->
    by (subst sgn; destruct neg, (showSign f), (spaceSign f); done).
  assert ((if neg then drop 1 ((if neg then [45] else []) ++ body) else (if neg then [45] else []) ++ body) = body) as -> by (now destruct neg).
  f_equal. rewrite !pad_counted. change ([], 0) with (counted []). change (body, zlen body) with (counted body).
  rewrite <- (field_counted f sgn body). rewrite !counted_app. now rewrite app_nil_r.
Qed.

Definition radix_prefix (alt up : bool) (base v : Z) : bytes :=
  if alt && negb (v =? 0) then if base =? 8 then [48] else if base =? 16 then [48; if up then 88 else 120] else [] else [].

Lemma nibbles_spec up cap v : 0 < v < 2 ^ 64 -> 16 <= cap -> (ptr ← nibble_loop 17 cap (hex_digits up) v []; reverse_all ptr) = Some (numeral up 16 v).
Proof.
  intros Hv Hc. pose proof (lsd_length_bound 16 64 16 v ltac:(lia) ltac:(change (16 ^ Z.of_nat 16) with (2 ^ 64); lia)) as Hl. unfold numeral. rewrite (proj2 (Z.eqb_neq v 0)) by lia.
  rewrite nibble_base, (base_loop_spec up cap 16 64); [|lia|change (2 ^ Z.of_nat 64) with (2 ^ 64); lia|lia|change (zlen []) with 0; lia]. apply reverse_all_spec.
Qed.

(** On every path but that of wide octal numbers the digits are the numeral. *)
Lemma unsigned_digits_spec up v base : 0 < v < 2 ^ 64 -> base = 10 \/ base = 16 \/ base = 8 /\ v < 2 ^ 32 -> unsigned_digits v base up = Some (numeral up base v, v).
Proof.
  intros Hv Hb. assert (2 <= base <= 16) as Hr by lia. unfold unsigned_digits. destruct (Z.leb_spec v 4294967295) as [Hs|Hs].
  - pose proof (lsd_length_bound base 64 32 v ltac:(lia)) as Hl. assert (2 ^ 32 <= base ^ 32) by (apply Z.pow_le_mono_l; lia). change (Z.of_nat 32) with 32 in Hl. specialize (Hl ltac:(lia)).
    rewrite (base_loop_spec up 65 base 64); [|lia|change (2 ^ Z.of_nat 64) with (2 ^ 64); lia|lia|change (zlen []) with 0; lia]. cbn [mbind option_bind app].
    rewrite reverse_all_spec. cbn [mbind option_bind]. unfold numeral. now rewrite (proj2 (Z.eqb_neq v 0)) by lia.
  - destruct Hb as [-> | [-> | [_ Hb]]]; [| |lia]; cbn [Z.eqb Pos.eqb].
    + destruct (powerIndex_spec 19 v) as (q & -> & Hq & Hqv); [lia|change (10 ^ Z.of_nat 20) with (10 ^ 20); lia|]. rewrite decimal_loop_spec by lia. cbn [mbind option_bind].
      rewrite (proj2 (Z.eqb_neq _ 0)) by (unfold zlen; rewrite length_fmap; cbn [msd length]; lia). cbn [mbind option_bind].
      unfold numeral. rewrite (proj2 (Z.eqb_neq v 0)), (lsd_msd 64 q) by (change (2 ^ Z.of_nat 64) with (2 ^ 64); lia). now rewrite fmap_reverse, reverse_involutive.
    + pose proof (nibbles_spec up 65 v Hv ltac:(lia)) as H. destruct (nibble_loop _ _ _ _ _) as [ptr|]; [|done]. cbn [mbind option_bind] in *. now rewrite H.
Qed.

Lemma unsigned_field up v base f : 0 <= v < 2 ^ 64 -> base = 10 \/ base = 16 \/ base = 8 /\ v < 2 ^ 32 ->
  printUnsignedNumber v base up f = Some (counted (field (leftAlign f) (zeroPad f) (width f) (radix_prefix (alternate f) up base v) (numeral up base v))).
Proof.
  intros Hv Hb. assert (2 <= base <= 16) as Hr by lia. unfold printUnsignedNumber. set (body := numeral up base v).
  assert ((if v =? 0 then ptr ← push 65 [] 48; Some (ptr, v) else unsigned_digits v base up) = Some (body, v)) as ->.
  { subst body. destruct (Z.eqb_spec v 0) as [->|]; [rewrite push_ok by (change (zlen []) with 0; lia); done|]. apply unsigned_digits_spec; [lia|done]. }
  assert (zlen body <= 64) as Hlen. { apply (numeral_length up base v 64); [lia|lia|]. assert (2 ^ 64 <= base ^ 64) by (apply Z.pow_le_mono_l; lia). change (Z.of_nat 64) with 64. lia. }
  cbn [mbind option_bind]. unfold terminate. rewrite push_ok by lia. cbn [mbind option_bind].
  destruct (numeral_head up base v Hr Hv) as (c & tl & E & _ & Hc). fold body in E. assert (head (body ++ [0]) = Some c) as -> by now rewrite E. cbn [mbind option_bind].
  assert (alternate_text f base v c up = radix_prefix (alternate f) up base v) as ->.
  { unfold alternate_text, radix_prefix. destruct (alternate f); cbn [negb andb]; [|done].
    destruct (Z.eqb_spec v 0) as [Hz|Hz], (Z.eqb_spec c 48) as [H48|H48]; try tauto; cbn [negb]; rewrite ?andb_false_r, ?andb_true_r; done. }
  set (pre := radix_prefix (alternate f) up base v). f_equal. rewrite !pad_counted, <- (field_counted f pre body), zlen_app, (Z.add_comm (zlen body)). reflexivity.
Qed.

Lemma pointer_field v f : 0 <= v < 2 ^ 64 -> (hasPrecision f = true -> 0 <= precision f) ->
  printPointer v f = Some (counted (field (leftAlign f) false (width f) [] (let s := [48; 120] ++ numeral false 16 v in if hasPrecision f then take (Z.to_nat (precision f)) s else s))).
Proof.
  intros Hv Hp. unfold printPointer.
  assert ((if v =? 0 then push 18 [] 48 else ptr ← nibble_loop 17 18 (hex_digits false) v []; reverse_all ptr) = Some (numeral false 16 v)) as ->.
  { destruct (Z.eqb_spec v 0) as [->|]; [rewrite push_ok by (change (zlen []) with 0; lia); done|]. apply nibbles_spec; lia. }
  pose proof (numeral_length false 16 v 16 ltac:(lia) ltac:(lia) ltac:(change (16 ^ Z.of_nat 16) with (2 ^ 64); lia)) as Hl. cbn [mbind option_bind]. unfold terminate. rewrite push_ok by lia. cbn [mbind option_bind].
  rewrite app_assoc, print_string_field; [reflexivity| |rewrite zlen_app; change (zlen [48; 120]) with 2; lia|done].
  pose proof (numeral_chars false 16 v ltac:(lia)) as Hch. rewrite Forall_forall in Hch. intros [H|H]%elem_of_app; [set_solver|]. specialize (Hch 0 H). lia.
Qed.

(** A numeral denotes its value. *)
Lemma numeral_parse up base v : 2 <= base <= 16 -> 0 <= v < 2 ^ 64 -> parse base (numeral up base v) = v.
Proof.
  intros Hb Hv. unfold numeral. destruct (Z.eqb_spec v 0) as [->|]; [reflexivity|]. rewrite parse_reverse, <- list_fmap_compose.
  rewrite <- (lsd_value_spec base 64 v) at 2 by (change (2 ^ Z.of_nat 64) with (2 ^ 64); lia). f_equal. rewrite <- (list_fmap_id (lsd 64 base v)) at 2.
  apply Forall_fmap_ext. eapply Forall_impl; [apply lsd_digits; lia|]. cbn beta. intros d Hd. unfold compose, digit, digit_value.
  destruct (Z.ltb_spec d 10), up; repeat match goal with |- context [?a <? ?b] => destruct (Z.ltb_spec a b) end; unfold id; lia.
Qed.

(** ** The syntax of format strings *)

Inductive flag := FMinus | FPlus | FSpace | FHash | FZero.
#[global] Instance flag_eq_dec : EqDecision flag.
Proof. solve_decision. Defined.

Inductive width_spec := NoWidth | Width (n : Z) | WidthArg.
Inductive prec_spec := NoPrec | PrecDot | Prec (n : Z) | PrecArg.
Inductive len_spec := Nhh | Nh | Nnone | Nl | Nll | Nz | Nt.
Inductive conversion := Cd | Ci | Cu | Co | Cx | CX | Cc | Cs | Cp.

Inductive piece :=
  | Char (c : Z)
  | Percent
  | Directive (fl : list flag) (w : width_spec) (p : prec_spec) (n : len_spec) (c : conversion).

Definition flag_char (f : flag) : Z := match f with FMinus => 45 | FPlus => 43 | FSpace => 32 | FHash => 35 | FZero => 48 end.
Definition show_width (w : width_spec) : bytes := match w with NoWidth => [] | Width n => numeral false 10 n | WidthArg => [42] end.
Definition show_prec (p : prec_spec) : bytes := match p with NoPrec => [] | PrecDot => [46] | Prec n => 46 :: numeral false 10 n | PrecArg => [46; 42] end.
Definition show_len (n : len_spec) : bytes :=
  match n with Nhh => [104; 104] | Nh => [104] | Nnone => [] | Nl => [108] | Nll => [108; 108] | Nz => [122] | Nt => [116] end.
Definition conv_char (c : conversion) : Z :=
  match c with Cd => 100 | Ci => 105 | Cu => 117 | Co => 111 | Cx => 120 | CX => 88 | Cc => 99 | Cs => 115 | Cp => 112 end.

Definition show (p : piece) : bytes :=
  match p with
  | Char c => [c]
  | Percent => [37; 37]
  | Directive fl w p n c => 37 :: (flag_char <$> fl) ++ show_width w ++ show_prec p ++ show_len n ++ [conv_char c]
  end.

Definition piece_ok (p : piece) : Prop :=
  match p with
  | Char c => c <> 0 /\ c <> 37
  | Percent => True
  | Directive _ w p _ _ => match w with Width n => 0 < n < 2 ^ 31 | _ => True end /\ match p with Prec n => 0 <= n < 2 ^ 31 | _ => True end
  end.

Definition modifier (n : len_spec) : length_modifier :=
  match n with Nhh => LChar | Nh => LShort | Nnone => LInt | Nl | Nz | Nt => LLong | Nll => LLongLong end.

(** *** Parsing *)

Definition has (f : flag) (fl : list flag) : bool := existsb (fun g => bool_decide (g = f)) fl.

(** ['0'] only counts before the first ['-']. *)
Fixpoint zero_flag (l z : bool) (fl : list flag) : bool :=
  match fl with [] => z | FMinus :: fl => zero_flag true z fl | FZero :: fl => zero_flag l (if negb l then true else z) fl | _ :: fl => zero_flag l z fl end.

Lemma zero_flag_has l z fl : l || has FMinus fl = false -> zero_flag l z fl = z || has FZero fl.
Proof. revert l z. induction fl as [|[] fl IH]; intros l z H; destruct l; cbn in *; try done; rewrite ?IH by done; now rewrite ?orb_false_r, ?orb_true_r. Qed.

Lemma flag_loop_spec fl c s : c ∉ [45; 43; 32; 35; 48] -> forall l sg sp a z w p h, flag_loop ((flag_char <$> fl) ++ c :: s) (mkFlags l sg sp a z w p h) =
  Some (c :: s, mkFlags (l || has FMinus fl) (sg || has FPlus fl) (sp || has FSpace fl) (a || has FHash fl) (zero_flag l z fl) w p h).
Proof.
  intros Hc. assert (c <> 45 /\ c <> 43 /\ c <> 32 /\ c <> 35 /\ c <> 48) as (H1 & H2 & H3 & H4 & H5) by set_solver.
  induction fl as [|f fl IH]; intros; cbn [fmap list_fmap app flag_loop].
  - rewrite !(proj2 (Z.eqb_neq c _)) by assumption. cbn. now rewrite !orb_false_r.
  - destruct f; cbn [flag_char Z.eqb Pos.eqb has existsb bool_decide decide_rel flag_eq_dec zero_flag]; rewrite IH; cbn; now rewrite ?orb_true_r.
Qed.

Lemma is_digit_char c : is_digit c = true <-> 48 <= c <= 57.
Proof. unfold is_digit. rewrite andb_true_iff, !Z.leb_le. lia. Qed.

Lemma parse_digits cs c s : Forall (fun c => 48 <= c <= 57) cs -> is_digit c = false -> forall acc, 0 <= acc ->
  foldl (fun a x => a * 10 + digit_value x) acc cs < 2 ^ 31 -> parseNumber (cs ++ c :: s) acc = Some (c :: s, foldl (fun a x => a * 10 + digit_value x) acc cs).
Proof.
  intros Hcs Hc. induction Hcs as [|x cs Hx Hcs IH]; intros acc Ha Hf; cbn [parseNumber app foldl] in *; [now rewrite Hc|].
  rewrite (proj2 (is_digit_char x)) by lia. assert (digit_value x = x - 48) as E by (unfold digit_value; destruct (Z.ltb_spec x 58); lia). rewrite E in *.
  assert (forall cs b, Forall (fun c => 48 <= c <= 57) cs -> 0 <= b -> b <= foldl (fun a x => a * 10 + digit_value x) b cs) as Hmono.
  { clear. induction cs as [|y cs IH]; intros b Hcs Hb; cbn; [lia|]. inversion_clear Hcs. assert (digit_value y = y - 48) as -> by (unfold digit_value; destruct (Z.ltb_spec y 58); lia).
    etransitivity; [|apply IH; [assumption|lia]]. lia. }
  specialize (Hmono cs (acc * 10 + (x - 48)) Hcs ltac:(lia)). unfold int. rewrite (proj2 (Z.leb_le _ _)), (proj2 (Z.ltb_lt _ _)) by lia. cbn [andb mbind option_bind]. apply IH; [lia|assumption].
Qed.

Lemma decimal_chars n : Forall (fun c => 48 <= c <= 57) (numeral false 10 n).
Proof.
  unfold numeral. destruct (Z.eqb_spec n 0); [repeat constructor; lia|]. apply Forall_reverse, Forall_fmap. eapply Forall_impl; [apply lsd_digits; lia|].
  cbn beta. intros d Hd. unfold compose, digit. destruct (Z.ltb_spec d 10); lia.
Qed.

Lemma decimal_head n : 0 <= n < 2 ^ 64 -> exists d tl, numeral false 10 n = d :: tl /\ is_digit d = true /\ (d = 48 <-> n = 0).
Proof.
  intros Hn. destruct (numeral_head false 10 n) as (d & tl & E & _ & H); [lia|lia|]. pose proof (decimal_chars n) as Hd. rewrite E in Hd. inversion_clear Hd.
  exists d, tl. split_and!; [done|now apply is_digit_char|tauto..].
Qed.

Lemma parse_numeral n c s : 0 <= n < 2 ^ 31 -> is_digit c = false -> parseNumber (numeral false 10 n ++ c :: s) 0 = Some (c :: s, n).
Proof.
  intros Hn Hc. pose proof (numeral_parse false 10 n ltac:(lia) ltac:(lia)) as Hp. unfold parse in Hp.
  rewrite parse_digits; [now rewrite Hp|apply decimal_chars|done|lia|lia].
Qed.

Definition width_code (w : width_spec) : Z := match w with NoWidth => 0 | Width n => n | WidthArg => -1 end.
Definition prec_code (p : prec_spec) : Z * bool := match p with NoPrec => (6, false) | PrecDot => (0, true) | Prec n => (n, true) | PrecArg => (-1, true) end.

Lemma parse_width_spec w c s l sg sp a z p h : match w with Width n => 0 < n < 2 ^ 31 | _ => True end -> is_digit c = false -> c <> 42 ->
  parse_width (show_width w ++ c :: s) (mkFlags l sg sp a z 0 p h) = Some (c :: s, mkFlags l sg sp a z (width_code w) p h).
Proof.
  intros Hw Hc H42. unfold parse_width. destruct w as [|n|]; cbn [show_width app head mbind option_bind width_code].
  - now rewrite Hc, (proj2 (Z.eqb_neq c 42)) by done.
  - destruct (decimal_head n) as (d & tl & E & Hd & H2); [lia|]. pose proof (parse_numeral n c s ltac:(lia) Hc) as Hp. rewrite E in *. cbn [app head mbind option_bind] in *.
    rewrite Hd, (proj2 (Z.eqb_neq d 48)) by lia. cbn [andb]. now rewrite Hp.
  - reflexivity.
Qed.

Lemma parse_precision_spec p c s l sg sp a z w : match p with Prec n => 0 <= n < 2 ^ 31 | _ => True end -> 58 <= c ->
  parse_precision (show_prec p ++ c :: s) (mkFlags l sg sp a z w 6 false) = Some (c :: s, mkFlags l sg sp a z w (prec_code p).1 (prec_code p).2).
Proof.
  intros Hp Hc. assert (is_digit c = false) as Hd by (apply not_true_iff_false; rewrite is_digit_char; lia).
  unfold parse_precision. destruct p as [| |n|]; cbn [show_prec app head tail mbind option_bind prec_code fst snd Z.eqb Pos.eqb].
  - now rewrite (proj2 (Z.eqb_neq c 46)) by lia.
  - now rewrite Hd, (proj2 (Z.eqb_neq c 42)) by lia.
  - destruct (decimal_head n) as (d & tl & E & H1 & _); [lia|]. pose proof (parse_numeral n c s ltac:(lia) Hd) as Hn. rewrite E in *. cbn [app head mbind option_bind] in *.
    now rewrite H1, Hn.
  - reflexivity.
Qed.

Lemma parse_flags_spec fl w p c s : piece_ok (Directive fl w p Nnone Cd) -> 58 <= c ->
  parseFlags ((flag_char <$> fl) ++ show_width w ++ show_prec p ++ c :: s) =
  Some (c :: s, mkFlags (has FMinus fl) (has FPlus fl) (has FSpace fl) (has FHash fl) (zero_flag false false fl) (width_code w) (prec_code p).1 (prec_code p).2).
Proof.
  intros [Hw Hp] Hc. unfold parseFlags.
  assert (exists d tl, show_prec p ++ c :: s = d :: tl /\ (d ∉ [45; 43; 32; 35; 48]) /\ is_digit d = false /\ d <> 42) as (d & tl & E & H1 & H2 & H3).
  { destruct p; cbn [show_prec app]; eexists _, _; (split; [reflexivity|]); split_and!; try done; try set_solver; try (apply not_true_iff_false; rewrite is_digit_char; lia); try lia. }
  assert (exists x xs, show_width w ++ show_prec p ++ c :: s = x :: xs /\ x ∉ [45; 43; 32; 35; 48]) as (x & xs & Ex & Hx).
  { rewrite E. destruct w as [|n|]; cbn [show_width app]; [by eexists _, _| |eexists _, _; split; [reflexivity|set_solver]].
    destruct (numeral_head false 10 n) as (y & ys & -> & Hy1 & Hy2); [lia|lia|]. eexists _, _. split; [reflexivity|].
    intros Hin. assert (y = 45 \/ y = 43 \/ y = 32 \/ y = 35 \/ y = 48) by set_solver. lia. }
  rewrite Ex, flag_loop_spec by done. cbn [mbind option_bind orb]. rewrite <- Ex, E, parse_width_spec by done. cbn [mbind option_bind]. rewrite <- E. now apply parse_precision_spec.
Qed.

Lemma parse_length_spec n c s : parse_length (show_len n ++ conv_char c :: s) = Some (conv_char c :: s, modifier n).
Proof. destruct n, c; reflexivity. Qed.

(** ** The meaning *)

(** The characters before the terminator *)
Fixpoint text_of (p : bytes) : option bytes :=
  match p with [] => None | c :: p => if c =? 0 then Some [] else s ← text_of p; Some (c :: s) end.

Lemma text_of_spec p s : text_of p = Some s -> (exists rest, p = s ++ 0 :: rest) /\ (0 ∉ s).
Proof.
  revert s. induction p as [|c p IH]; intros s H; [done|]. cbn in H. destruct (Z.eqb_spec c 0) as [->|Hc]; [simplify_eq; split; [by eexists|set_solver]|].
  destruct (text_of p) as [s'|]; [|done]. cbn in H. simplify_eq. destruct (IH s' eq_refl) as [[rest ->] H0]. split; [by exists rest|set_solver].
Qed.

Definition cut (limit : option Z) (s : bytes) : bytes := match limit with Some n => take (Z.to_nat n) s | None => s end.

Section Meaning.
Context `{A : Arch}.

(** A negative width argument aligns to the left; a negative precision is none. *)
Definition style (left : bool) (w : width_spec) (args : list va) : option (bool * Z * list va) :=
  match w with
  | NoWidth => Some (left, 0, args)
  | Width n => Some (left, n, args)
  | WidthArg => '(n, args) ← int_arg args; if n <? 0 then if n =? - 2 ^ 31 then None else Some (true, - n, args) else Some (left, n, args)
  end.

Definition limit (p : prec_spec) (args : list va) : option (option Z * list va) :=
  match p with
  | NoPrec => Some (None, args)
  | PrecDot => Some (Some 0, args)
  | Prec n => Some (Some n, args)
  | PrecArg => '(n, args) ← int_arg args; Some (if n <? 0 then None else Some n, args)
  end.

Definition sign_of_number (fl : list flag) (v : Z) : bytes := if v <? 0 then [45] else if has FPlus fl then [43] else if has FSpace fl then [32] else [].

Definition number_text (base : Z) (up : bool) (fl : list flag) (left : bool) (w v : Z) : bytes :=
  field left (has FZero fl) w (radix_prefix (has FHash fl) up base v) (numeral up base v).

(** The text of a conversion.  The least 64-bit integer and octal numbers of more than 32 bits have none, nor have strings of 2 GiB. *)
Definition conversion_text (c : conversion) (n : len_spec) (fl : list flag) (left : bool) (w : Z) (lim : option Z) (args : list va) : option (bytes * list va) :=
  match c with
  | Cd | Ci =>
      '(v, args) ← signed_arg (modifier n) args;
      if v =? - 2 ^ 63 then None else Some (field left (has FZero fl) w (sign_of_number fl v) (numeral false 10 (Z.abs v)), args)
  | Cu => '(v, args) ← unsigned_arg (modifier n) args; Some (number_text 10 false fl left w v, args)
  | Co => '(v, args) ← unsigned_arg (modifier n) args; if v <? 2 ^ 32 then Some (number_text 8 false fl left w v, args) else None
  | Cx => '(v, args) ← unsigned_arg (modifier n) args; Some (number_text 16 false fl left w v, args)
  | CX => '(v, args) ← unsigned_arg (modifier n) args; Some (number_text 16 true fl left w v, args)
  | Cc => '(v, args) ← int_arg args; Some (field left false w [] [wrap 8 v], args)
  | Cs =>
      match args with
      | VStr s :: args => s ← text_of (default null_text s); if zlen s <? 2 ^ 31 then Some (field left false w [] (cut lim s), args) else None
      | _ => None
      end
  | Cp =>
      match args with
      | VPtr v :: args => if (0 <=? v) && (v <? 2 ^ size_bits) then Some (field left false w [] (cut lim ([48; 120] ++ numeral false 16 v)), args) else None
      | _ => None
      end
  end.

Definition render_piece (p : piece) (args : list va) : option (bytes * list va) :=
  match p with
  | Char c => Some ([c], args)
  | Percent => Some ([37], args)
  | Directive fl w p n c =>
      '(la, w, args) ← style (has FMinus fl) w args;
      '(lim, args) ← limit p args;
      conversion_text c n fl la w lim args
  end.

Fixpoint render (ps : list piece) (args : list va) : option bytes :=
  match ps with
  | [] => Some []
  | p :: ps => '(s, args) ← render_piece p args; out ← render ps args; Some (s ++ out)
  end.

(** *** [vprintf] prints it *)

Lemma take_width_spec l sg sp a z w p h args : match w with Width n => 0 < n < 2 ^ 31 | _ => True end ->
  take_width (mkFlags l sg sp a z (width_code w) p h) args = '(la, n, args) ← style l w args; Some (mkFlags la sg sp a z n p h, args).
Proof.
  intros Hw. unfold take_width, style. destruct w as [|n|]; cbn [width_code].
  - reflexivity.
  - now rewrite (proj2 (Z.eqb_neq n (-1))) by lia.
  - rewrite Z.eqb_refl. unfold int_arg. destruct args as [|[x| | | | |] args]; try reflexivity. cbn [signed_arg mbind option_bind].
    pose proof (sign_of_range 32 x ltac:(lia)) as Hv. change (32 - 1) with 31 in Hv. set (v := sign_of 32 x) in *.
    destruct (Z.ltb_spec v 0); [|reflexivity]. unfold int. destruct (Z.eqb_spec v (- 2 ^ 31)) as [E|E].
    + rewrite (proj2 (Z.ltb_ge _ _)) by lia. now rewrite andb_false_r.
    + now rewrite (proj2 (Z.leb_le _ _)), (proj2 (Z.ltb_lt _ _)) by lia.
Qed.

Lemma take_precision_spec l sg sp a z w p args lim args' : match p with Prec n => 0 <= n < 2 ^ 31 | _ => True end -> limit p args = Some (lim, args') ->
  exists pr h, take_precision (mkFlags l sg sp a z w (prec_code p).1 (prec_code p).2) args = Some (mkFlags l sg sp a z w pr h, args') /\
    (h = true -> 0 <= pr) /\ (forall s, (if h then take (Z.to_nat pr) s else s) = cut lim s).
Proof.
  intros Hp H. unfold take_precision. destruct p as [| |n|]; cbn [prec_code fst snd andb limit] in *.
  - simplify_eq. exists 6, false. done.
  - simplify_eq. exists 0, true. split_and!; [done|lia|done].
  - simplify_eq. rewrite (proj2 (Z.eqb_neq n (-1))) by lia. exists n, true. split_and!; [done|lia|done].
  - rewrite Z.eqb_refl. destruct (int_arg args) as [[v args1]|]; [|done]. cbn [mbind option_bind] in *. simplify_eq.
    destruct (Z.ltb_spec v 0); [exists v, false; done|]. exists v, true. split_and!; [done|lia|done].
Qed.

Lemma field_zero left z z' w pre body : (left = false -> z = z') -> field left z w pre body = field left z' w pre body.
Proof. intros H. unfold field. destruct left; [done|]. now rewrite H. Qed.

Lemma size_bits_cases : size_bits = 32 \/ size_bits = 64.
Proof. unfold size_bits. destruct the_arch; auto. Qed.

Lemma signed_arg_range n args v args' : signed_arg n args = Some (v, args') -> - 2 ^ 63 <= v < 2 ^ 63.
Proof.
  assert (forall w x, w = 8 \/ w = 16 \/ w = 32 \/ w = 64 -> - 2 ^ 63 <= sign_of w x < 2 ^ 63) as Hr
    by (intros w x Hw; pose proof (sign_of_range w x ltac:(lia)); destruct Hw as [-> | [-> | [-> | ->]]]; cbn [Z.sub Z.add Z.opp Z.pos_sub Pos.pred_double] in *; lia).
  pose proof size_bits_cases as Hsb. unfold signed_arg. intros H. destruct n, args as [|[x|x|x| | |] args]; simplify_eq; apply Hr; lia.
Qed.

Lemma unsigned_arg_range n args v args' : unsigned_arg n args = Some (v, args') -> 0 <= v < 2 ^ 64.
Proof.
  assert (forall w x, w = 8 \/ w = 16 \/ w = 32 \/ w = 64 -> 0 <= wrap w x < 2 ^ 64) as Hr
    by (intros w x Hw; pose proof (wrap_bound w x ltac:(lia)); destruct Hw as [-> | [-> | [-> | ->]]]; lia).
  pose proof size_bits_cases as Hsb. unfold unsigned_arg. intros H. destruct n, args as [|[x|x|x| | |] args]; simplify_eq; apply Hr; lia.
Qed.

Lemma char_field c f : printChar c f = counted (field (leftAlign f) false (width f) [] [wrap 8 c]).
Proof.
  unfold printChar. replace (1 <? width f) with (0 <? width f - 1) by (apply eq_true_iff_eq; rewrite !Z.ltb_lt; lia).
  rewrite !pad_counted. change (put (wrap 8 c)) with (counted [wrap 8 c]). rewrite !counted_app. f_equal. unfold field. cbn [app].
  change (zlen [wrap 8 c]) with 1. destruct (leftAlign f); cbn [negb app]; now rewrite ?app_nil_r.
Qed.

Lemma convert_spec c n fl la z w lim pr h args s args' count : (la = false -> z = has FZero fl) -> (h = true -> 0 <= pr) ->
  (forall s : bytes, (if h then take (Z.to_nat pr) s else s) = cut lim s) -> conversion_text c n fl la w lim args = Some (s, args') ->
  convert (conv_char c) (modifier n) (mkFlags la (has FPlus fl) (has FSpace fl) (has FHash fl) z w pr h) args count = Some (counted s, args', []).
Proof.
  intros Hz Hp Hcut H. set (f := mkFlags _ _ _ _ _ _ _ _). assert (forall pre body, field (leftAlign f) (zeroPad f) (width f) pre body = field la (has FZero fl) w pre body) as Hf by (intros; now apply field_zero).
  assert (forall b up v, 0 <= v < 2 ^ 64 -> b = 10 \/ b = 16 \/ b = 8 /\ v < 2 ^ 32 -> printUnsignedNumber v b up f = Some (counted (number_text b up fl la w v))) as Hu
    by (intros; rewrite unsigned_field by done; unfold number_text; now rewrite Hf).
  destruct c; cbn [conversion_text conv_char] in *; unfold convert; cbn [Z.eqb Pos.eqb orb bool_decide decide_rel].
  1,2: destruct (signed_arg _ _) as [[v args1]|] eqn:E; [|done]; cbn [mbind option_bind] in *; pose proof (signed_arg_range _ _ _ _ E);
       destruct (Z.eqb_spec v (- 2 ^ 63)); [done|]; simplify_eq; rewrite number_field by lia; cbn [mbind option_bind]; now rewrite Hf.
  1-4: destruct (unsigned_arg _ _) as [[v args1]|] eqn:E; [|done]; cbn [mbind option_bind] in *; pose proof (unsigned_arg_range _ _ _ _ E);
       try (destruct (Z.ltb_spec v (2 ^ 32)); [|done]); simplify_eq; rewrite Hu by lia; reflexivity.
  - destruct (int_arg args) as [[v args1]|]; [|done]. cbn [mbind option_bind] in *. simplify_eq. now rewrite char_field.
  - destruct args as [|[| | |p| |] args]; try done. destruct (text_of _) as [t|] eqn:E; [|done]. cbn [mbind option_bind] in H. apply text_of_spec in E as [[rest E] H0].
    destruct (Z.ltb_spec (zlen t) (2 ^ 31)); [|done]. simplify_eq. assert (printString p f = printString (Some (t ++ 0 :: rest)) f) as -> by (unfold printString; now rewrite E).
    rewrite print_string_field by done. cbn [mbind option_bind]. now rewrite Hcut.
  - destruct args as [|[| | | |v|] args]; try done. pose proof size_bits_cases. destruct (Z.leb_spec 0 v), (Z.ltb_spec v (2 ^ size_bits)); try done. cbn [andb] in H. simplify_eq.
    assert (2 ^ size_bits <= 2 ^ 64) by (apply Z.pow_le_mono_r; lia). rewrite pointer_field by (lia || done). cbn [mbind option_bind]. cbv zeta. now rewrite Hcut.
Qed.

Lemma add_counted pre s : zlen pre + zlen s < 2 ^ 31 -> add_output (counted pre) (counted s) = Some (counted (pre ++ s)).
Proof.
  intros H. pose proof (zlen_nonneg pre). pose proof (zlen_nonneg s). unfold add_output. cbn [counted snd]. unfold int.
  rewrite (proj2 (Z.leb_le _ _)), (proj2 (Z.ltb_lt _ _)) by lia. cbn [andb mbind option_bind]. now rewrite counted_app.
Qed.

Lemma directive_head fl w p n0 c0 c s : piece_ok (Directive fl w p n0 c0) -> 58 <= c -> exists y ys, (flag_char <$> fl) ++ show_width w ++ show_prec p ++ c :: s = y :: ys /\ y <> 37.
Proof.
  intros [Hw _] Hc. destruct fl as [|f fl]; [|destruct f; eexists _, _; (split; [reflexivity|done])]. destruct w as [|n|]; cbn [fmap list_fmap app show_width].
  - destruct p; eexists _, _; (split; [reflexivity|lia]).
  - destruct (decimal_head n) as (d & tl & -> & Hd%is_digit_char & _); [lia|]. eexists _, _. split; [reflexivity|lia].
  - eexists _, _. split; [reflexivity|done].
Qed.

Lemma style_left l w args la n args' : style l w args = Some (la, n, args') -> la = false -> l = false.
Proof.
  unfold style. intros H ->. destruct w; try congruence. destruct (int_arg args) as [[v args1]|]; [|done]. cbn [mbind option_bind] in H.
  destruct (v <? 0); [destruct (v =? _)|]; congruence.
Qed.

Lemma piece_step p fuel rest args s args' pre st : piece_ok p -> render_piece p args = Some (s, args') -> zlen pre + zlen s < 2 ^ 31 ->
  vprintf_loop (S fuel) (show p ++ rest) args (counted pre) st = vprintf_loop fuel rest args' (counted (pre ++ s)) st.
Proof.
  intros Hok Hr Hlen. pose proof (add_counted pre s Hlen) as Hadd. destruct p as [c| |fl w p n c]; cbn [render_piece show vprintf_loop app head tail mbind option_bind] in *.
  - destruct Hok as [H0 H37]. simplify_eq. rewrite (proj2 (Z.eqb_neq c 0)), (proj2 (Z.eqb_neq c 37)) by done. cbn [negb]. change (put c) with (counted [c]). now rewrite Hadd.
  - simplify_eq. cbn [Z.eqb Pos.eqb negb]. change (put 37) with (counted [37]). now rewrite Hadd.
  - cbn [Z.eqb Pos.eqb negb]. destruct (style _ _ _) as [[[la w'] args1]|] eqn:Es; [|done]. cbn [mbind option_bind] in Hr. destruct (limit _ _) as [[lim args2]|] eqn:El; [|done]. cbn [mbind option_bind] in Hr.
    set (tl := show_len n ++ conv_char c :: rest).
    assert (((flag_char <$> fl) ++ show_width w ++ show_prec p ++ show_len n ++ [conv_char c]) ++ rest = (flag_char <$> fl) ++ show_width w ++ show_prec p ++ tl) as ->
      by (subst tl; rewrite <- !app_assoc; reflexivity).
    assert (exists x xs, tl = x :: xs /\ 58 <= x) as (x & xs & Etl & Hx) by (subst tl; destruct n; eexists _, _; (split; [reflexivity|]); destruct c; cbn; lia).
    pose proof (parse_flags_spec fl w p x xs Hok Hx) as Hparse. destruct (directive_head fl w p n c x xs Hok Hx) as (y & ys & Ey & Hy). rewrite Etl, Ey in *.
    cbn [head mbind option_bind]. rewrite (proj2 (Z.eqb_neq y 37) Hy), Hparse. cbn [mbind option_bind]. destruct Hok as [Hw Hp].
    rewrite take_width_spec, Es by done. cbn [mbind option_bind].
    destruct (take_precision_spec la (has FPlus fl) (has FSpace fl) (has FHash fl) (zero_flag false false fl) w' p args1 lim args2 Hp El) as (pr & h & -> & Hpr & Hcut). cbn [mbind option_bind].
    rewrite <- Etl. subst tl. rewrite parse_length_spec. cbn [mbind option_bind head tail].
    rewrite (convert_spec c n fl la (zero_flag false false fl) w' lim pr h args2 s args' _ (fun Hla => zero_flag_has false false fl (style_left _ _ _ _ _ _ Es Hla)) Hpr Hcut Hr).
    cbn [mbind option_bind]. rewrite Hadd. cbn [mbind option_bind]. now rewrite app_nil_r.
Qed.

Lemma vprintf_renders ps args out : Forall piece_ok ps -> render ps args = Some out -> zlen out < 2 ^ 31 ->
  vprintf (cstr (concat (show <$> ps))) args = Some ((out, zlen out), []).
Proof.
  intros Hok Hr Hlen. unfold vprintf.
  assert (forall fuel pre args out, (length ps < fuel)%nat -> render ps args = Some out -> zlen pre + zlen out < 2 ^ 31 ->
    vprintf_loop fuel (concat (show <$> ps) ++ [0]) args (counted pre) [] = Some (counted (pre ++ out), [])) as H.
  { clear -Hok. induction Hok as [|p ps Hp Hps IH]; intros fuel pre args out Hfuel Hr Hlen; (destruct fuel as [|fuel]; [cbn in Hfuel; lia|]); cbn [render] in Hr.
    - simplify_eq. rewrite app_nil_r. reflexivity.
    - destruct (render_piece p args) as [[s args1]|] eqn:Es; [|done]. cbn [mbind option_bind] in Hr. destruct (render ps args1) as [out'|] eqn:Er; [|done]. cbn in Hr. simplify_eq.
      rewrite zlen_app in Hlen. pose proof (zlen_nonneg out'). cbn [fmap list_fmap concat]. rewrite <- app_assoc, (piece_step p fuel _ args s args1 pre []) by (done || lia).
      rewrite (IH fuel (pre ++ s) args1 out'); [now rewrite app_assoc|cbn in Hfuel; lia|done|rewrite zlen_app; lia]. }
  change nothing with (counted []). change (out, zlen out) with (counted ([] ++ out)). apply H; [|done|change (zlen []) with 0; lia].
  unfold cstr. rewrite length_app. cbn [length]. enough (length ps <= length (concat (show <$> ps)))%nat by lia.
  clear. induction ps as [|p ps IH]; cbn; [lia|]. rewrite length_app. destruct p; cbn; lia.
Qed.

End Meaning.

(** ** Into allocated memory *)

Section Allocated.
Context `{A : Arch} (mal : nat -> bool) (junk : nat -> bytes).
Hypothesis Hjunk : forall k, 256 <= zlen (junk k).

(** The text so far, terminated, in a buffer of its size *)
Definition holds_text (x : Formatf) (t : bytes) : Prop :=
  exists rest, formatf_buffer x = Some (t ++ 0 :: rest) /\ buffer_count x = zlen t /\ buffer_size x = zlen (t ++ 0 :: rest).

Lemma bind_store {X} (b : bytes) i c j (k : bytes -> X) b' : (b ← store b i c; store b j 0) = Some b' ->
  (b ← store b i c; b ← store b j 0; Some (k b)) = Some (k b').
Proof. destruct (store b i c) as [b1|]; [|done]. cbn. now intros ->. Qed.

Lemma store_char t y z rest c size : size = zlen (t ++ y :: z :: rest) ->
  exists b, (b ← store (t ++ y :: z :: rest) (zlen t) c; store b (zlen t + 1) 0) = Some b /\ holds_text (mkFormatf (Some b) (zlen t + 1) size) (t ++ [c]).
Proof.
  intros ->. rewrite store_at. cbn [mbind option_bind]. assert (forall u, t ++ c :: u :: rest = (t ++ [c]) ++ u :: rest) as E by (intros; now rewrite <- app_assoc). rewrite E.
  replace (zlen t + 1) with (zlen (t ++ [c])) by (rewrite zlen_app; reflexivity). rewrite store_at. eexists. split; [reflexivity|]. exists rest. split_and!; [done|done|].
  cbn [buffer_size]. unfold zlen. rewrite !length_app. cbn [length]. lia.
Qed.

Lemma putChar_step c x k t : holds_text x t -> buffer_size x + 256 < 2 ^ size_bits ->
  exists x' k' t', formatf_putChar mal junk c (x, k) = Some (x', k') /\ holds_text x' t' /\ (t' = t \/ t' = t ++ [c]) /\ (mal k = true -> t' = t ++ [c]) /\
    buffer_size x' <= Z.max (buffer_size x) (zlen t + 257).
Proof.
  intros (rest & Hb & Hc & Hs) Hbits. destruct x as [buf count size]. cbn [formatf_buffer buffer_count buffer_size] in *. subst buf count.
  pose proof (zlen_nonneg t) as H0. pose proof (zlen_nonneg rest) as H1. rewrite zlen_app, zlen_cons in Hs. unfold formatf_putChar. rewrite (proj2 (Z.eqb_neq size 0)) by lia. rewrite wrap_small by lia.
  destruct (Z.leb_spec size (zlen t + 1)) as [Hfull|Hfree]; cbn [andb].
  - assert (rest = []) as -> by (apply zlen_zero; lia). change (zlen []) with 0 in *. destruct (mal k) eqn:Em; cbn [negb].
    + rewrite wrap_small by lia. pose proof (Hjunk k) as Hj.
      assert (take (Z.to_nat (size + 256)) ((t ++ [0]) ++ junk k) = t ++ 0 :: take 256 (junk k)) as ->.
      { rewrite take_app, take_ge by (rewrite length_app; unfold zlen in *; cbn; lia). rewrite <- app_assoc. cbn [app].
        replace (Z.to_nat (size + 256) - length (t ++ [0%Z]))%nat with 256%nat by (rewrite length_app; unfold zlen in *; cbn [length]; lia). reflexivity. }
      destruct (take 256 (junk k)) as [|z r] eqn:Et; [apply (f_equal length) in Et; rewrite length_take in Et; unfold zlen in Hj; cbn [length] in Et; lia|].
      destruct (store_char t 0 z r c (size + 256)) as (b & Eb & Hh).
      { rewrite <- Et, zlen_app, zlen_cons. change 256%nat with (Z.to_nat 256). rewrite zlen_take by lia. lia. }
      rewrite (bind_store _ _ _ _ _ _ Eb). eexists _, _, _. split; [reflexivity|]. split; [exact Hh|]. split_and!; [by right|done|cbn; lia].
    + eexists _, _, t. split; [reflexivity|]. split; [exists []; split_and!; [done|done|cbn [buffer_size]; rewrite zlen_app, zlen_cons; exact Hs]|]. split_and!; [by left|done|cbn; lia].
  - destruct rest as [|z r]; [change (zlen []) with 0 in Hs; lia|]. destruct (store_char t 0 z r c size) as (b & Eb & Hh); [rewrite zlen_app, zlen_cons; lia|].
    rewrite (bind_store _ _ _ _ _ _ Eb). eexists _, _, _. split; [reflexivity|]. split; [exact Hh|]. split_and!; [by right|done|cbn; lia].
Qed.

Lemma put_all_spec cs : forall x k t, holds_text x t -> Z.max (buffer_size x) (zlen t + zlen cs + 257) + 256 < 2 ^ size_bits ->
  exists x' k' t', put_all mal junk cs (x, k) = Some (x', k') /\ holds_text x' (t ++ t') /\ sublist t' cs /\ ((forall k, mal k = true) -> t' = cs).
Proof.
  induction cs as [|c cs IH]; intros x k t Hx Hb; cbn [put_all].
  { exists x, k, []. rewrite app_nil_r. split_and!; [done|done|constructor|done]. }
  rewrite zlen_cons in Hb. pose proof (zlen_nonneg cs). destruct (putChar_step c x k t Hx) as (x1 & k1 & t1 & -> & Hx1 & Ht1 & Hm1 & Hs1); [lia|]. cbn [mbind option_bind].
  assert (zlen t1 <= zlen t + 1) by (destruct Ht1 as [-> | ->]; [lia|rewrite zlen_app; change (zlen [c]) with 1; lia]).
  destruct (IH x1 k1 t1 Hx1) as (x2 & k2 & t2 & -> & Hx2 & Hsub & Hm2); [lia|]. destruct Ht1 as [-> | ->].
  - exists x2, k2, t2. split_and!; [done|done|by constructor|]. intros Hm. specialize (Hm1 (Hm k)). apply (f_equal length) in Hm1. rewrite length_app in Hm1. cbn in Hm1. lia.
  - exists x2, k2, (c :: t2). rewrite <- app_assoc in Hx2. split_and!; [done|done|by constructor|]. intros Hm. now rewrite Hm2.
Qed.


End Allocated.


(** ** What other directives and inputs do *)

Definition no_flags : FormatFlags := mkFlags false false false false false 0 6 false.

(** ["%.2f"]: the text with two decimals is cut to two characters, ["3."]. *)
Lemma float_precision_cuts : printFloat (fun p => if p =? 2 then [51; 46; 49; 52] else []) (mkFlags false false false false false 0 2 true) = Some ([51; 46], 2).
Proof. reflexivity. Qed.

(** ["%llo"] of 2^32 prints the digits in base 16. *)
Lemma wide_octal_is_hex : printUnsignedNumber (2 ^ 32) 8 false no_flags = Some (counted (numeral false 16 (2 ^ 32))) /\ numeral false 8 (2 ^ 32) <> numeral false 16 (2 ^ 32).
Proof. vm_compute. split; [reflexivity|discriminate]. Qed.

(** Negating the least number overflows. *)
Lemma least_number_overflows : printNumber (- 2 ^ 63) 10 false no_flags = None.
Proof. reflexivity. Qed.

(** A format that ends in ["%"] is read beyond its terminator. *)
Lemma trailing_percent_reads_on : vprintf (A := I386) (cstr [37]) [] = None.
Proof. reflexivity. Qed.

(** A precision does not bound the reading of a string. *)
Lemma precision_reads_on : printString (Some [97; 98]) (mkFlags false false false false false 0 2 true) = None.
Proof. reflexivity. Qed.

(** When growing fails once, the character is dropped and the next ones are kept. *)
Lemma failed_growth_drops_one : exists rest, formatf (A := I386) (fun k => negb (Nat.eqb k 1)) (fun _ => zeros 256) (cstr (replicate 255 65 ++ [66; 67])) [] = Some (Some (replicate 255 65 ++ 67 :: 0 :: rest)).
Proof. exists (zeros 255). vm_compute. reflexivity. Qed.
