(* ===== verification/KeyLayouts.v ===== *)
(** * Keyboard layouts ([kernel_include/keyboard/Keyboard.h] and the tables of [kernel/driver/ps2kbd])

    The keys and, for each layout, what a scan code of set 2 stands for: a
    switch for the codes after [0xE0] and one for the others, by the rows of
    the keyboard in the order of the sources. *)

From S2P Require Import Prelude.

Inductive KeyboardLayouts := LAYOUT_US_QWERTY | LAYOUT_TR_QWERTY | LAYOUT_TR_F.

Inductive KeyboardKeys :=
  | KEY_UNKNOWN | KEY_A | KEY_B | KEY_C | KEY_D | KEY_E | KEY_F | KEY_G | KEY_H | KEY_I | KEY_J | KEY_K
  | KEY_L | KEY_M | KEY_N | KEY_O | KEY_P | KEY_Q | KEY_R | KEY_S | KEY_T | KEY_U | KEY_V | KEY_W | KEY_X
  | KEY_Y | KEY_Z | KEY_0 | KEY_1 | KEY_2 | KEY_3 | KEY_4 | KEY_5 | KEY_6 | KEY_7 | KEY_8 | KEY_9 | KEY_F1
  | KEY_F2 | KEY_F3 | KEY_F4 | KEY_F5 | KEY_F6 | KEY_F7 | KEY_F8 | KEY_F9 | KEY_F10 | KEY_F11 | KEY_F12
  | KEY_SHIFT | KEY_CTRL | KEY_ALT | KEY_CAPS | KEY_TAB | KEY_SPACE | KEY_ENTER | KEY_BACKSPACE | KEY_DELETE
  | KEY_INSERT | KEY_HOME | KEY_END | KEY_PAGE_UP | KEY_PAGE_DOWN | KEY_UP | KEY_DOWN | KEY_LEFT | KEY_RIGHT
  | KEY_ESC | KEY_SEMICOLON | KEY_APOSTROPHE | KEY_GRAVE | KEY_COMMA | KEY_PERIOD | KEY_SLASH | KEY_BACKSLASH
  | KEY_MINUS | KEY_EQUALS | KEY_LEFT_BRACKET | KEY_RIGHT_BRACKET | KEY_PRINT_SCREEN | KEY_SCROLL_LOCK
  | KEY_PAUSE | KEY_MENU | KEY_WINDOWS.

#[global] Instance KeyboardKeys_eq_dec : EqDecision KeyboardKeys.
Proof. solve_decision. Defined.

(** The value of the enumeration constant *)
Definition key_code (k : KeyboardKeys) : Z :=
  match k with
  | KEY_UNKNOWN => 0 | KEY_A => 1 | KEY_B => 2 | KEY_C => 3 | KEY_D => 4 | KEY_E => 5 | KEY_F => 6
  | KEY_G => 7 | KEY_H => 8 | KEY_I => 9 | KEY_J => 10 | KEY_K => 11 | KEY_L => 12 | KEY_M => 13
  | KEY_N => 14 | KEY_O => 15 | KEY_P => 16 | KEY_Q => 17 | KEY_R => 18 | KEY_S => 19 | KEY_T => 20
  | KEY_U => 21 | KEY_V => 22 | KEY_W => 23 | KEY_X => 24 | KEY_Y => 25 | KEY_Z => 26 | KEY_0 => 27
  | KEY_1 => 28 | KEY_2 => 29 | KEY_3 => 30 | KEY_4 => 31 | KEY_5 => 32 | KEY_6 => 33 | KEY_7 => 34
  | KEY_8 => 35 | KEY_9 => 36 | KEY_F1 => 37 | KEY_F2 => 38 | KEY_F3 => 39 | KEY_F4 => 40 | KEY_F5 => 41
  | KEY_F6 => 42 | KEY_F7 => 43 | KEY_F8 => 44 | KEY_F9 => 45 | KEY_F10 => 46 | KEY_F11 => 47 | KEY_F12 => 48
  | KEY_SHIFT => 49 | KEY_CTRL => 50 | KEY_ALT => 51 | KEY_CAPS => 52 | KEY_TAB => 53 | KEY_SPACE => 54
  | KEY_ENTER => 55 | KEY_BACKSPACE => 56 | KEY_DELETE => 57 | KEY_INSERT => 58 | KEY_HOME => 59
  | KEY_END => 60 | KEY_PAGE_UP => 61 | KEY_PAGE_DOWN => 62 | KEY_UP => 63 | KEY_DOWN => 64 | KEY_LEFT => 65
  | KEY_RIGHT => 66 | KEY_ESC => 67 | KEY_SEMICOLON => 68 | KEY_APOSTROPHE => 69 | KEY_GRAVE => 70
  | KEY_COMMA => 71 | KEY_PERIOD => 72 | KEY_SLASH => 73 | KEY_BACKSLASH => 74 | KEY_MINUS => 75
  | KEY_EQUALS => 76 | KEY_LEFT_BRACKET => 77 | KEY_RIGHT_BRACKET => 78 | KEY_PRINT_SCREEN => 79
  | KEY_SCROLL_LOCK => 80 | KEY_PAUSE => 81 | KEY_MENU => 82 | KEY_WINDOWS => 83
  end.

(** What a case of the switch assigns: [data.ascii], [data.key] and the
    member of the union, [left] or [upperCase], which share a byte *)
Record assignment := assign { a_ascii : Z; a_key : KeyboardKeys; a_flag : bool }.

Fixpoint first_some (tables : list (Z -> option assignment)) (scancode : Z) : option assignment :=
  match tables with
  | [] => None
  | t :: tables => match t scancode with Some a => Some a | None => first_some tables scancode end
  end.

(** ** [ps2kbd_us_qwerty.c] *)

Definition us_extended (scancode : Z) : option assignment :=
  match scancode with
  | 0x1F => Some (assign 0 KEY_WINDOWS true)
  | 0x27 => Some (assign 0 KEY_WINDOWS false)
  | 0x2F => Some (assign 0 KEY_MENU false)
  | 0x14 => Some (assign 0 KEY_CTRL false)
  | 0x11 => Some (assign 0 KEY_ALT false)
  | 0x70 => Some (assign 0 KEY_INSERT false)
  | 0x6C => Some (assign 0 KEY_HOME false)
  | 0x7D => Some (assign 0 KEY_PAGE_UP false)
  | 0x71 => Some (assign 127 KEY_DELETE false)
  | 0x69 => Some (assign 0 KEY_END false)
  | 0x7A => Some (assign 0 KEY_PAGE_DOWN false)
  | 0x75 => Some (assign 0 KEY_UP false)
  | 0x6B => Some (assign 0 KEY_LEFT false)
  | 0x72 => Some (assign 0 KEY_DOWN false)
  | 0x74 => Some (assign 0 KEY_RIGHT false)
  | 0x4A => Some (assign 47 KEY_SLASH false)
  | 0x5A => Some (assign 10 KEY_ENTER false)
  | _ => None
  end.

Definition us_function_keys (scancode : Z) : option assignment :=
  match scancode with
  | 0x76 => Some (assign 27 KEY_ESC false)
  | 0x05 => Some (assign 0 KEY_F1 false)
  | 0x06 => Some (assign 0 KEY_F2 false)
  | 0x04 => Some (assign 0 KEY_F3 false)
  | 0x0C => Some (assign 0 KEY_F4 false)
  | 0x03 => Some (assign 0 KEY_F5 false)
  | 0x0B => Some (assign 0 KEY_F6 false)
  | 0x83 => Some (assign 0 KEY_F7 false)
  | 0x0A => Some (assign 0 KEY_F8 false)
  | 0x01 => Some (assign 0 KEY_F9 false)
  | 0x09 => Some (assign 0 KEY_F10 false)
  | 0x78 => Some (assign 0 KEY_F11 false)
  | 0x07 => Some (assign 0 KEY_F12 false)
  | 0x7E => Some (assign 0 KEY_SCROLL_LOCK false)
  | _ => None
  end.

Definition us_numbers_row (scancode : Z) : option assignment :=
  match scancode with
  | 0x0E => Some (assign 96 KEY_GRAVE false)
  | 0x16 => Some (assign 49 KEY_1 false)
  | 0x1E => Some (assign 50 KEY_2 false)
  | 0x26 => Some (assign 51 KEY_3 false)
  | 0x25 => Some (assign 52 KEY_4 false)
  | 0x2E => Some (assign 53 KEY_5 false)
  | 0x36 => Some (assign 54 KEY_6 false)
  | 0x3D => Some (assign 55 KEY_7 false)
  | 0x3E => Some (assign 56 KEY_8 false)
  | 0x46 => Some (assign 57 KEY_9 false)
  | 0x45 => Some (assign 48 KEY_0 false)
  | 0x4E => Some (assign 45 KEY_MINUS false)
  | 0x55 => Some (assign 61 KEY_EQUALS false)
  | 0x66 => Some (assign 8 KEY_BACKSPACE false)
  | _ => None
  end.

Definition us_top_row (scancode : Z) : option assignment :=
  match scancode with
  | 0x0D => Some (assign 9 KEY_TAB false)
  | 0x15 => Some (assign 113 KEY_Q false)
  | 0x1D => Some (assign 119 KEY_W false)
  | 0x24 => Some (assign 101 KEY_E false)
  | 0x2D => Some (assign 114 KEY_R false)
  | 0x2C => Some (assign 116 KEY_T false)
  | 0x35 => Some (assign 121 KEY_Y false)
  | 0x3C => Some (assign 117 KEY_U false)
  | 0x43 => Some (assign 105 KEY_I false)
  | 0x44 => Some (assign 111 KEY_O false)
  | 0x4D => Some (assign 112 KEY_P false)
  | 0x54 => Some (assign 91 KEY_LEFT_BRACKET false)
  | 0x5B => Some (assign 93 KEY_RIGHT_BRACKET false)
  | 0x5D => Some (assign 92 KEY_BACKSLASH false)
  | _ => None
  end.

Definition us_middle_row (scancode : Z) : option assignment :=
  match scancode with
  | 0x58 => Some (assign 0 KEY_CAPS false)
  | 0x1C => Some (assign 97 KEY_A false)
  | 0x1B => Some (assign 115 KEY_S false)
  | 0x23 => Some (assign 100 KEY_D false)
  | 0x2B => Some (assign 102 KEY_F false)
  | 0x34 => Some (assign 103 KEY_G false)
  | 0x33 => Some (assign 104 KEY_H false)
  | 0x3B => Some (assign 106 KEY_J false)
  | 0x42 => Some (assign 107 KEY_K false)
  | 0x4B => Some (assign 108 KEY_L false)
  | 0x4C => Some (assign 59 KEY_SEMICOLON false)
  | 0x52 => Some (assign 39 KEY_APOSTROPHE false)
  | 0x5A => Some (assign 10 KEY_ENTER false)
  | _ => None
  end.

Definition us_bottom_letters (scancode : Z) : option assignment :=
  match scancode with
  | 0x12 => Some (assign 0 KEY_SHIFT true)
  | 0x1A => Some (assign 122 KEY_Z false)
  | 0x22 => Some (assign 120 KEY_X false)
  | 0x21 => Some (assign 99 KEY_C false)
  | 0x2A => Some (assign 118 KEY_V false)
  | 0x32 => Some (assign 98 KEY_B false)
  | 0x31 => Some (assign 110 KEY_N false)
  | 0x3A => Some (assign 109 KEY_M false)
  | 0x41 => Some (assign 44 KEY_COMMA false)
  | 0x49 => Some (assign 46 KEY_PERIOD false)
  | 0x4A => Some (assign 47 KEY_SLASH false)
  | 0x59 => Some (assign 0 KEY_SHIFT false)
  | _ => None
  end.

Definition us_bottom_row (scancode : Z) : option assignment :=
  match scancode with
  | 0x14 => Some (assign 0 KEY_CTRL true)
  | 0x11 => Some (assign 0 KEY_ALT true)
  | 0x29 => Some (assign 32 KEY_SPACE false)
  | _ => None
  end.

Definition us_keypad (scancode : Z) : option assignment :=
  match scancode with
  | 0x77 => Some (assign 0 KEY_UNKNOWN false)
  | 0x7C => Some (assign 42 KEY_UNKNOWN false)
  | 0x7B => Some (assign 45 KEY_UNKNOWN false)
  | 0x6C => Some (assign 55 KEY_7 false)
  | 0x75 => Some (assign 56 KEY_8 false)
  | 0x7D => Some (assign 57 KEY_9 false)
  | 0x79 => Some (assign 43 KEY_UNKNOWN false)
  | 0x6B => Some (assign 52 KEY_4 false)
  | 0x73 => Some (assign 53 KEY_5 false)
  | 0x74 => Some (assign 54 KEY_6 false)
  | 0x69 => Some (assign 49 KEY_1 false)
  | 0x72 => Some (assign 50 KEY_2 false)
  | 0x7A => Some (assign 51 KEY_3 false)
  | 0x70 => Some (assign 48 KEY_0 false)
  | 0x71 => Some (assign 46 KEY_PERIOD false)
  | _ => None
  end.

Definition us_keys (scancode : Z) : option assignment :=
  first_some [us_function_keys; us_numbers_row; us_top_row; us_middle_row; us_bottom_letters; us_bottom_row; us_keypad] scancode.

(** ** [ps2kbd_tr_qwerty.c] *)

Definition tr_extended (scancode : Z) : option assignment :=
  match scancode with
  | 0x1F => Some (assign 0 KEY_WINDOWS true)
  | 0x27 => Some (assign 0 KEY_WINDOWS false)
  | 0x2F => Some (assign 0 KEY_MENU false)
  | 0x14 => Some (assign 0 KEY_CTRL false)
  | 0x11 => Some (assign 0 KEY_ALT false)
  | 0x70 => Some (assign 0 KEY_INSERT false)
  | 0x6C => Some (assign 0 KEY_HOME false)
  | 0x7D => Some (assign 0 KEY_PAGE_UP false)
  | 0x71 => Some (assign 127 KEY_DELETE false)
  | 0x69 => Some (assign 0 KEY_END false)
  | 0x7A => Some (assign 0 KEY_PAGE_DOWN false)
  | 0x75 => Some (assign 0 KEY_UP false)
  | 0x6B => Some (assign 0 KEY_LEFT false)
  | 0x72 => Some (assign 0 KEY_DOWN false)
  | 0x74 => Some (assign 0 KEY_RIGHT false)
  | 0x4A => Some (assign 47 KEY_SLASH false)
  | 0x5A => Some (assign 10 KEY_ENTER false)
  | _ => None
  end.

Definition tr_function_keys (scancode : Z) : option assignment :=
  match scancode with
  | 0x76 => Some (assign 27 KEY_ESC false)
  | 0x05 => Some (assign 0 KEY_F1 false)
  | 0x06 => Some (assign 0 KEY_F2 false)
  | 0x04 => Some (assign 0 KEY_F3 false)
  | 0x0C => Some (assign 0 KEY_F4 false)
  | 0x03 => Some (assign 0 KEY_F5 false)
  | 0x0B => Some (assign 0 KEY_F6 false)
  | 0x83 => Some (assign 0 KEY_F7 false)
  | 0x0A => Some (assign 0 KEY_F8 false)
  | 0x01 => Some (assign 0 KEY_F9 false)
  | 0x09 => Some (assign 0 KEY_F10 false)
  | 0x78 => Some (assign 0 KEY_F11 false)
  | 0x07 => Some (assign 0 KEY_F12 false)
  | 0x7E => Some (assign 0 KEY_SCROLL_LOCK false)
  | _ => None
  end.

Definition tr_numbers_row (scancode : Z) : option assignment :=
  match scancode with
  | 0x0E => Some (assign 34 KEY_APOSTROPHE false)
  | 0x16 => Some (assign 49 KEY_1 false)
  | 0x1E => Some (assign 50 KEY_2 false)
  | 0x26 => Some (assign 51 KEY_3 false)
  | 0x25 => Some (assign 52 KEY_4 false)
  | 0x2E => Some (assign 53 KEY_5 false)
  | 0x36 => Some (assign 54 KEY_6 false)
  | 0x3D => Some (assign 55 KEY_7 false)
  | 0x3E => Some (assign 56 KEY_8 false)
  | 0x46 => Some (assign 57 KEY_9 false)
  | 0x45 => Some (assign 48 KEY_0 false)
  | 0x4E => Some (assign 42 KEY_UNKNOWN false)
  | 0x55 => Some (assign 45 KEY_MINUS false)
  | 0x66 => Some (assign 8 KEY_BACKSPACE false)
  | _ => None
  end.

Definition tr_top_row (scancode : Z) : option assignment :=
  match scancode with
  | 0x0D => Some (assign 9 KEY_TAB false)
  | 0x15 => Some (assign 113 KEY_Q false)
  | 0x1D => Some (assign 119 KEY_W false)
  | 0x24 => Some (assign 101 KEY_E false)
  | 0x2D => Some (assign 114 KEY_R false)
  | 0x2C => Some (assign 116 KEY_T false)
  | 0x35 => Some (assign 121 KEY_Y false)
  | 0x3C => Some (assign 117 KEY_U false)
  | 0x43 => Some (assign 105 KEY_I false)
  | 0x44 => Some (assign 111 KEY_O false)
  | 0x4D => Some (assign 112 KEY_P false)
  | 0x54 => Some (assign 103 KEY_G false)
  | 0x5B => Some (assign 117 KEY_U false)
  | 0x5D => Some (assign 44 KEY_COMMA false)
  | _ => None
  end.

Definition tr_middle_row (scancode : Z) : option assignment :=
  match scancode with
  | 0x58 => Some (assign 0 KEY_CAPS false)
  | 0x1C => Some (assign 97 KEY_A false)
  | 0x1B => Some (assign 115 KEY_S false)
  | 0x23 => Some (assign 100 KEY_D false)
  | 0x2B => Some (assign 102 KEY_F false)
  | 0x34 => Some (assign 103 KEY_G false)
  | 0x33 => Some (assign 104 KEY_H false)
  | 0x3B => Some (assign 106 KEY_J false)
  | 0x42 => Some (assign 107 KEY_K false)
  | 0x4B => Some (assign 108 KEY_L false)
  | 0x4C => Some (assign 115 KEY_S false)
  | 0x52 => Some (assign 105 KEY_I false)
  | 0x5A => Some (assign 10 KEY_ENTER false)
  | _ => None
  end.

Definition tr_bottom_letters (scancode : Z) : option assignment :=
  match scancode with
  | 0x12 => Some (assign 0 KEY_SHIFT true)
  | 0x61 => Some (assign 60 KEY_UNKNOWN false)
  | 0x1A => Some (assign 122 KEY_Z false)
  | 0x22 => Some (assign 120 KEY_X false)
  | 0x21 => Some (assign 99 KEY_C false)
  | 0x2A => Some (assign 118 KEY_V false)
  | 0x32 => Some (assign 98 KEY_B false)
  | 0x31 => Some (assign 110 KEY_N false)
  | 0x3A => Some (assign 109 KEY_M false)
  | 0x41 => Some (assign 111 KEY_O false)
  | 0x49 => Some (assign 99 KEY_C false)
  | 0x4A => Some (assign 46 KEY_PERIOD false)
  | 0x59 => Some (assign 0 KEY_SHIFT false)
  | _ => None
  end.

Definition tr_bottom_row (scancode : Z) : option assignment :=
  match scancode with
  | 0x14 => Some (assign 0 KEY_CTRL true)
  | 0x11 => Some (assign 0 KEY_ALT true)
  | 0x29 => Some (assign 32 KEY_SPACE false)
  | _ => None
  end.

Definition tr_keypad (scancode : Z) : option assignment :=
  match scancode with
  | 0x77 => Some (assign 0 KEY_UNKNOWN false)
  | 0x7C => Some (assign 42 KEY_UNKNOWN false)
  | 0x7B => Some (assign 45 KEY_UNKNOWN false)
  | 0x6C => Some (assign 55 KEY_7 false)
  | 0x75 => Some (assign 56 KEY_8 false)
  | 0x7D => Some (assign 57 KEY_9 false)
  | 0x79 => Some (assign 43 KEY_UNKNOWN false)
  | 0x6B => Some (assign 52 KEY_4 false)
  | 0x73 => Some (assign 53 KEY_5 false)
  | 0x74 => Some (assign 54 KEY_6 false)
  | 0x69 => Some (assign 49 KEY_1 false)
  | 0x72 => Some (assign 50 KEY_2 false)
  | 0x7A => Some (assign 51 KEY_3 false)
  | 0x70 => Some (assign 48 KEY_0 false)
  | 0x71 => Some (assign 46 KEY_PERIOD false)
  | _ => None
  end.

Definition tr_keys (scancode : Z) : option assignment :=
  first_some [tr_function_keys; tr_numbers_row; tr_top_row; tr_middle_row; tr_bottom_letters; tr_bottom_row; tr_keypad] scancode.

(** ** [ps2kbd_tr_f.c] *)

Definition trf_extended (scancode : Z) : option assignment :=
  match scancode with
  | 0x1F => Some (assign 0 KEY_WINDOWS true)
  | 0x27 => Some (assign 0 KEY_WINDOWS false)
  | 0x2F => Some (assign 0 KEY_MENU false)
  | 0x14 => Some (assign 0 KEY_CTRL false)
  | 0x11 => Some (assign 0 KEY_ALT false)
  | 0x70 => Some (assign 0 KEY_INSERT false)
  | 0x6C => Some (assign 0 KEY_HOME false)
  | 0x7D => Some (assign 0 KEY_PAGE_UP false)
  | 0x71 => Some (assign 127 KEY_DELETE false)
  | 0x69 => Some (assign 0 KEY_END false)
  | 0x7A => Some (assign 0 KEY_PAGE_DOWN false)
  | 0x75 => Some (assign 0 KEY_UP false)
  | 0x6B => Some (assign 0 KEY_LEFT false)
  | 0x72 => Some (assign 0 KEY_DOWN false)
  | 0x74 => Some (assign 0 KEY_RIGHT false)
  | 0x4A => Some (assign 47 KEY_SLASH false)
  | 0x5A => Some (assign 10 KEY_ENTER false)
  | _ => None
  end.

Definition trf_function_keys (scancode : Z) : option assignment :=
  match scancode with
  | 0x76 => Some (assign 27 KEY_ESC false)
  | 0x05 => Some (assign 0 KEY_F1 false)
  | 0x06 => Some (assign 0 KEY_F2 false)
  | 0x04 => Some (assign 0 KEY_F3 false)
  | 0x0C => Some (assign 0 KEY_F4 false)
  | 0x03 => Some (assign 0 KEY_F5 false)
  | 0x0B => Some (assign 0 KEY_F6 false)
  | 0x83 => Some (assign 0 KEY_F7 false)
  | 0x0A => Some (assign 0 KEY_F8 false)
  | 0x01 => Some (assign 0 KEY_F9 false)
  | 0x09 => Some (assign 0 KEY_F10 false)
  | 0x78 => Some (assign 0 KEY_F11 false)
  | 0x07 => Some (assign 0 KEY_F12 false)
  | 0x7E => Some (assign 0 KEY_SCROLL_LOCK false)
  | _ => None
  end.

Definition trf_numbers_row (scancode : Z) : option assignment :=
  match scancode with
  | 0x0E => Some (assign 43 KEY_UNKNOWN false)
  | 0x16 => Some (assign 49 KEY_1 false)
  | 0x1E => Some (assign 50 KEY_2 false)
  | 0x26 => Some (assign 51 KEY_3 false)
  | 0x25 => Some (assign 52 KEY_4 false)
  | 0x2E => Some (assign 53 KEY_5 false)
  | 0x36 => Some (assign 54 KEY_6 false)
  | 0x3D => Some (assign 55 KEY_7 false)
  | 0x3E => Some (assign 56 KEY_8 false)
  | 0x46 => Some (assign 57 KEY_9 false)
  | 0x45 => Some (assign 48 KEY_0 false)
  | 0x4E => Some (assign 47 KEY_SLASH false)
  | 0x55 => Some (assign 45 KEY_MINUS false)
  | 0x66 => Some (assign 8 KEY_BACKSPACE false)
  | _ => None
  end.

Definition trf_top_row (scancode : Z) : option assignment :=
  match scancode with
  | 0x0D => Some (assign 9 KEY_TAB false)
  | 0x15 => Some (assign 102 KEY_F false)
  | 0x1D => Some (assign 103 KEY_G false)
  | 0x24 => Some (assign 103 KEY_G false)
  | 0x2D => Some (assign 105 KEY_I false)
  | 0x2C => Some (assign 111 KEY_O false)
  | 0x35 => Some (assign 100 KEY_D false)
  | 0x3C => Some (assign 114 KEY_R false)
  | 0x43 => Some (assign 110 KEY_N false)
  | 0x44 => Some (assign 104 KEY_H false)
  | 0x4D => Some (assign 112 KEY_P false)
  | 0x54 => Some (assign 113 KEY_Q false)
  | 0x5B => Some (assign 119 KEY_W false)
  | 0x5D => Some (assign 120 KEY_X false)
  | _ => None
  end.

Definition trf_middle_row (scancode : Z) : option assignment :=
  match scancode with
  | 0x58 => Some (assign 0 KEY_CAPS false)
  | 0x1C => Some (assign 117 KEY_U false)
  | 0x1B => Some (assign 105 KEY_I false)
  | 0x23 => Some (assign 101 KEY_E false)
  | 0x2B => Some (assign 97 KEY_A false)
  | 0x34 => Some (assign 117 KEY_U false)
  | 0x33 => Some (assign 116 KEY_T false)
  | 0x3B => Some (assign 107 KEY_K false)
  | 0x42 => Some (assign 109 KEY_M false)
  | 0x4B => Some (assign 108 KEY_L false)
  | 0x4C => Some (assign 121 KEY_Y false)
  | 0x52 => Some (assign 115 KEY_S false)
  | 0x5A => Some (assign 10 KEY_ENTER false)
  | _ => None
  end.

Definition trf_bottom_letters (scancode : Z) : option assignment :=
  match scancode with
  | 0x12 => Some (assign 0 KEY_SHIFT true)
  | 0x61 => Some (assign 60 KEY_UNKNOWN false)
  | 0x1A => Some (assign 106 KEY_J false)
  | 0x22 => Some (assign 111 KEY_O false)
  | 0x21 => Some (assign 118 KEY_V false)
  | 0x2A => Some (assign 99 KEY_C false)
  | 0x32 => Some (assign 99 KEY_C false)
  | 0x31 => Some (assign 122 KEY_Z false)
  | 0x3A => Some (assign 115 KEY_S false)
  | 0x41 => Some (assign 98 KEY_B false)
  | 0x49 => Some (assign 46 KEY_PERIOD false)
  | 0x4A => Some (assign 44 KEY_COMMA false)
  | 0x59 => Some (assign 0 KEY_SHIFT false)
  | _ => None
  end.

Definition trf_bottom_row (scancode : Z) : option assignment :=
  match scancode with
  | 0x14 => Some (assign 0 KEY_CTRL true)
  | 0x11 => Some (assign 0 KEY_ALT true)
  | 0x29 => Some (assign 32 KEY_SPACE false)
  | _ => None
  end.

Definition trf_keypad (scancode : Z) : option assignment :=
  match scancode with
  | 0x77 => Some (assign 0 KEY_UNKNOWN false)
  | 0x7C => Some (assign 42 KEY_UNKNOWN false)
  | 0x7B => Some (assign 45 KEY_UNKNOWN false)
  | 0x6C => Some (assign 55 KEY_7 false)
  | 0x75 => Some (assign 56 KEY_8 false)
  | 0x7D => Some (assign 57 KEY_9 false)
  | 0x79 => Some (assign 43 KEY_UNKNOWN false)
  | 0x6B => Some (assign 52 KEY_4 false)
  | 0x73 => Some (assign 53 KEY_5 false)
  | 0x74 => Some (assign 54 KEY_6 false)
  | 0x69 => Some (assign 49 KEY_1 false)
  | 0x72 => Some (assign 50 KEY_2 false)
  | 0x7A => Some (assign 51 KEY_3 false)
  | 0x70 => Some (assign 48 KEY_0 false)
  | 0x71 => Some (assign 46 KEY_PERIOD false)
  | _ => None
  end.

Definition trf_keys (scancode : Z) : option assignment :=
  first_some [trf_function_keys; trf_numbers_row; trf_top_row; trf_middle_row; trf_bottom_letters; trf_bottom_row; trf_keypad] scancode.
