(* ===== verification/Ps2Controller.v ===== *)
(** * Start-up of the PS/2 keyboard ([kernel/driver/ps2kbd/ps2kbd.c])

    The conversation of the driver with the 8042 controller: bounded waits,
    commands with acknowledgement, and the initialisation.  The hardware is a
    state [W] with the port instructions; what it answers is not assumed.
    The second component of the state counts the milliseconds slept. *)

From S2P Require Import Prelude Bytes Buffer.

(** [inb], [outb], and what happens in the hardware while the driver sleeps *)
Class PortIO (W : Type) := {
  port_in : W -> Z -> W * Z;
  port_out : W -> Z -> Z -> W;
  elapse : W -> Z -> W
}.

Definition PS2_KBD_CMD_RESET : Z := 0xFF.
Definition PS2_KBD_CMD_ENABLE : Z := 0xF4.
Definition PS2_KBD_CMD_DISABLE : Z := 0xF5.
Definition PS2_KBD_CMD_SET_SCANCODE : Z := 0xF0.
Definition PS2_RESPONSE_ACK : Z := 0xFA.
Definition PS2_RESPONSE_RESEND : Z := 0xFE.
Definition PS2_RESPONSE_SELF_TEST_OK : Z := 0xAA.
Definition PS2_DATA_PORT : Z := 0x60.
Definition PS2_STATUS_PORT : Z := 0x64.
Definition PS2_CMD_PORT : Z := 0x64.
Definition PS2_STATUS_OBF : Z := 0x01.
Definition PS2_STATUS_IBF : Z := 0x02.
Definition PS2_STATUS_AUX : Z := 0x20.
Definition PS2_CMD_READ_CONFIG : Z := 0x20.
Definition PS2_CMD_WRITE_CONFIG : Z := 0x60.
Definition PS2_CMD_ENABLE_PORT1 : Z := 0xAE.
Definition PS2_CMD_DISABLE_PORT1 : Z := 0xAD.
Definition PS2_CMD_DISABLE_PORT2 : Z := 0xA7.
Definition PS2_CMD_TEST_CTRL : Z := 0xAA.
Definition PS2_CMD_TEST_PORT1 : Z := 0xAB.

(** [v & ~(1 << bit)] of a byte *)
Definition clear_bit8 (v bit : Z) : Z := Z.land v (255 - 2 ^ bit).

(** What [ps2kbd_init] leaves behind *)
Record Ps2kbd := mkPs2kbd {
  ps2kbd_initalized : bool;
  scancodeSetCorrect : bool;
  scancodeSetRetryCount : Z;
  ps2_event_buffer : option Buffer;
  kbd_abstraction_initialized : bool;
  handler_registered : bool;
  irq_enabled : bool
}.

Section Controller.
Context {W : Type} `{!PortIO W}.

Local Abbreviation hw := (st (W * Z)).

Definition inb (port : Z) : hw Z := fun s => let '(w, v) := port_in s.1 port in Some ((w, s.2), v).
Definition outb (port v : Z) : hw unit := fun s => Some ((port_out s.1 port v, s.2), tt).
Definition sleep_ms (n : Z) : hw unit := fun s => Some ((elapse s.1 n, s.2 + n), tt).

(** [while (timeout_ms--)]: [t] rounds are left. *)
Fixpoint ps2_wait_input_clear_ms (t : nat) : hw bool :=
  match t with
  | O => mret false
  | S t =>
      st ← inb PS2_STATUS_PORT;
      if Z.land st PS2_STATUS_IBF =? 0 then mret true else _ ← sleep_ms 1; ps2_wait_input_clear_ms t
  end.

Fixpoint ps2_wait_output_full_ms (t : nat) : hw bool :=
  match t with
  | O => mret false
  | S t =>
      st ← inb PS2_STATUS_PORT;
      if negb (Z.land st PS2_STATUS_OBF =? 0) then mret true else _ ← sleep_ms 1; ps2_wait_output_full_ms t
  end.

Fixpoint flush_loop (n : nat) : hw unit :=
  match n with
  | O => mret tt
  | S n =>
      st ← inb PS2_STATUS_PORT;
      if negb (Z.land st PS2_STATUS_OBF =? 0) then _ ← inb PS2_DATA_PORT; _ ← sleep_ms 1; flush_loop n else mret tt
  end.

Definition ps2_flush_output : hw unit := flush_loop 32.

Definition ps2_write_cmd (cmd : Z) : hw bool :=
  ok ← ps2_wait_input_clear_ms 100;
  if negb ok then mret false else _ ← outb PS2_CMD_PORT cmd; mret true.

Definition ps2_write_data (data : Z) : hw bool :=
  ok ← ps2_wait_input_clear_ms 100;
  if negb ok then mret false else _ ← outb PS2_DATA_PORT data; mret true.

(** The byte, if one came from the keyboard in time *)
Fixpoint ps2_read_kbd (t : nat) : hw (option Z) :=
  match t with
  | O => mret None
  | S t =>
      st ← inb PS2_STATUS_PORT;
      if negb (Z.land st PS2_STATUS_OBF =? 0) && (Z.land st PS2_STATUS_AUX =? 0) then b ← inb PS2_DATA_PORT; mret (Some b)
      else _ ← sleep_ms 1; ps2_read_kbd t
  end.

Definition ps2_expect_kbd (expected : Z) (limit : nat) : hw bool :=
  b ← ps2_read_kbd limit;
  mret (match b with Some b => b =? expected | None => false end).

(** Without the acknowledgement every answer leads to the next attempt. *)
Fixpoint ack_loop (attempts : nat) (data : Z) : hw bool :=
  match attempts with
  | O => mret false
  | S attempts =>
      ok ← ps2_write_data data;
      if negb ok then mret false
      else
        resp ← ps2_read_kbd 250;
        match resp with
        | Some resp => if resp =? PS2_RESPONSE_ACK then mret true else ack_loop attempts data
        | None => ack_loop attempts data
        end
  end.

Definition ps2_kbd_send_expect_ack (data : Z) : hw bool := ack_loop 5 data.

Definition ps2_kbd_getScanCodeSet : hw Z :=
  _ ← ps2_flush_output;
  ok ← ps2_kbd_send_expect_ack PS2_KBD_CMD_SET_SCANCODE;
  if negb ok then mret 0xFF
  else
    ok ← ps2_kbd_send_expect_ack 0;
    if negb ok then mret 0xFF
    else current ← ps2_read_kbd 250; mret (default 0xFF current).

Definition ps2_kbd_setScanCodeSet (set : Z) : hw bool :=
  _ ← ps2_flush_output;
  ok ← ps2_kbd_send_expect_ack PS2_KBD_CMD_SET_SCANCODE;
  if negb ok then mret false
  else ps2_kbd_send_expect_ack set.

(** The result of a test is read and only logged. *)
Definition drain_answer (t : nat) : hw unit :=
  full ← ps2_wait_output_full_ms t;
  if full : bool then _ ← inb PS2_DATA_PORT; mret tt else mret tt.

(** Steps 1 to 5: the controller is quiet and configured, port 1 is enabled;
    [false] when the configuration byte cannot be read or written. *)
Definition configure : hw bool :=
  _ ← ps2_write_cmd PS2_CMD_DISABLE_PORT1;
  _ ← ps2_write_cmd PS2_CMD_DISABLE_PORT2;
  _ ← ps2_flush_output;
  ok ← ps2_write_cmd PS2_CMD_READ_CONFIG;
  ok ← (if negb ok then mret false else ps2_wait_output_full_ms 100);
  if negb ok then mret false
  else
    ccb ← inb PS2_DATA_PORT;
    let ccb := clear_bit8 (clear_bit8 (clear_bit8 ccb 0) 1) 6 in
    ok ← ps2_write_cmd PS2_CMD_WRITE_CONFIG;
    ok ← (if negb ok then mret false else ps2_write_data ccb);
    if negb ok then mret false
    else
      ok ← ps2_write_cmd PS2_CMD_TEST_CTRL;
      _ ← (if ok : bool then drain_answer 250 else mret tt);
      ok ← ps2_write_cmd PS2_CMD_TEST_PORT1;
      _ ← (if ok : bool then drain_answer 100 else mret tt);
      _ ← ps2_write_cmd PS2_CMD_ENABLE_PORT1;
      _ ← sleep_ms 1;
      _ ← ps2_flush_output;
      mret true.

(** Step 6: whether the self test of the keyboard succeeded within the loop *)
Fixpoint bat_loop (n : nat) : hw bool :=
  match n with
  | O => mret false
  | S n =>
      b ← ps2_read_kbd 1;
      if bool_decide (b = Some PS2_RESPONSE_SELF_TEST_OK) then mret true else _ ← sleep_ms 1; bat_loop n
  end.

(** Step 8: [n] tries are left; the number of tries and whether set 2 is confirmed *)
Fixpoint scancode_loop (n : nat) (count : Z) : hw (Z * bool) :=
  match n with
  | O => mret (count, false)
  | S n =>
      ok ← ps2_kbd_setScanCodeSet 2;
      if negb ok then scancode_loop n (count + 1)
      else
        set ← ps2_kbd_getScanCodeSet;
        if set =? 2 then mret (count, true) else scancode_loop n (count + 1)
  end.

(** [opened] is the result of opening the keyboard layer and [buffer] that of
    [buffer_create], both used only when needed. *)
Definition ps2kbd_init (p : Ps2kbd) (opened : Z) (buffer : option Buffer) : hw (Ps2kbd * bool) :=
  let layer := kbd_abstraction_initialized p in
  let p := mkPs2kbd false false 0 (ps2_event_buffer p) layer (handler_registered p) (irq_enabled p) in
  if negb layer && negb (opened =? 0) then mret (p, false)
  else
    let buf := match ps2_event_buffer p with Some b => Some b | None => buffer end in
    let p := mkPs2kbd false false 0 buf true (handler_registered p) (irq_enabled p) in
    match buf with
    | None => mret (p, false)
    | Some _ =>
        ok ← configure;
        if negb ok then mret (p, false)
        else
          ok ← ps2_kbd_send_expect_ack PS2_KBD_CMD_RESET;
          if negb ok then mret (p, false)
          else
            got_bat ← bat_loop 1000;
            _ ← (if got_bat : bool then _ ← ps2_read_kbd 2; mret tt else mret tt);
            _ ← ps2_kbd_send_expect_ack PS2_KBD_CMD_DISABLE;
            _ ← ps2_flush_output;
            '(count, correct) ← scancode_loop 3 0;
            let p := mkPs2kbd false correct count buf true (handler_registered p) (irq_enabled p) in
            ok ← ps2_kbd_send_expect_ack PS2_KBD_CMD_ENABLE;
            if negb ok then mret (p, false)
            else mret (mkPs2kbd true correct count buf true true false, true)
    end.

(** [listed] tells whether the list of streams exists; the result whether the
    driver is enabled now and its stream was added to the list. *)
Definition ps2kbd_enable (p : Ps2kbd) (listed enabled : bool) : hw (Ps2kbd * bool) :=
  if negb (ps2kbd_initalized p) || bool_decide (ps2_event_buffer p = None) || negb listed || enabled then mret (p, false)
  else
    ok ← ps2_write_cmd PS2_CMD_READ_CONFIG;
    ok ← (if negb ok then mret false else ps2_wait_output_full_ms 100);
    _ ← (if ok : bool
         then
           cfg ← inb PS2_DATA_PORT;
           let cfg := clear_bit8 (clear_bit8 (Z.lor cfg 1) 6) 4 in
           _ ← ps2_write_cmd PS2_CMD_WRITE_CONFIG; _ ← ps2_write_data cfg; mret tt
         else mret tt);
    mret (mkPs2kbd true (scancodeSetCorrect p) (scancodeSetRetryCount p) (ps2_event_buffer p) (kbd_abstraction_initialized p) (handler_registered p) true, true).

End Controller.

(** ** Every wait ends *)

Section Bounds.
Context {W : Type} `{!PortIO W}.

Local Abbreviation hw := (st (W * Z)).

(** [m] returns, having slept at most [n] milliseconds. *)
Definition within {X} (m : hw X) (n : Z) : Prop := forall s, exists s' x, m s = Some (s', x) /\ s.2 <= s'.2 <= s.2 + n.

Lemma within_ret {X} (x : X) n : 0 <= n -> within (mret x) n.
Proof. intros Hn s. exists s, x. split; [done|lia]. Qed.

Lemma within_bind {X Y} (m : hw X) (k : X -> hw Y) a b n : within m a -> (forall x, within (k x) b) -> a + b <= n -> within (m ≫= k) n.
Proof.
  intros Hm Hk Hn s. destruct (Hm s) as (s1 & x & E & H1). destruct (Hk x s1) as (s2 & y & E2 & H2). exists s2, y. rewrite (bind_run _ _ _ _ _ E). split; [done|lia].
Qed.

Lemma within_if {X} (b : bool) (m m' : hw X) n : within m n -> within m' n -> within (if b then m else m') n.
Proof. now destruct b. Qed.

Lemma within_inb p n : 0 <= n -> within (inb p) n.
Proof. intros Hn s. unfold inb. destruct (port_in s.1 p) as [w v]. exists (w, s.2), v. split; [done|cbn; lia]. Qed.

Lemma within_outb p v n : 0 <= n -> within (outb p v) n.
Proof. intros Hn s. eexists _, _. split; [reflexivity|cbn; lia]. Qed.

Lemma within_sleep k n : 0 <= k <= n -> within (sleep_ms k) n.
Proof. intros Hn s. eexists _, _. split; [reflexivity|cbn; lia]. Qed.

Lemma within_mono {X} (m : hw X) a n : within m a -> a <= n -> within m n.
Proof. intros H Hn s. destruct (H s) as (s' & x & E & Hs). exists s', x. split; [done|lia]. Qed.

Lemma within_clear t n : Z.of_nat t <= n -> within (ps2_wait_input_clear_ms t) n.
Proof.
  revert n. induction t as [|t IH]; intros n Hn; [apply within_ret; lia|]. apply (within_bind _ _ 0 n); [now apply within_inb| |lia]. intros v.
  apply within_if; [apply within_ret; lia|]. apply (within_bind _ _ 1 (n - 1)); [apply within_sleep; lia|intros _; apply IH; lia|lia].
Qed.

Lemma within_full t n : Z.of_nat t <= n -> within (ps2_wait_output_full_ms t) n.
Proof.
  revert n. induction t as [|t IH]; intros n Hn; [apply within_ret; lia|]. apply (within_bind _ _ 0 n); [now apply within_inb| |lia]. intros v.
  apply within_if; [apply within_ret; lia|]. apply (within_bind _ _ 1 (n - 1)); [apply within_sleep; lia|intros _; apply IH; lia|lia].
Qed.

Lemma within_flush t n : Z.of_nat t <= n -> within (flush_loop t) n.
Proof.
  revert n. induction t as [|t IH]; intros n Hn; [apply within_ret; lia|]. apply (within_bind _ _ 0 n); [now apply within_inb| |lia]. intros v.
  apply within_if; [|apply within_ret; lia]. apply (within_bind _ _ 0 n); [now apply within_inb| |lia]. intros _.
  apply (within_bind _ _ 1 (n - 1)); [apply within_sleep; lia|intros _; apply IH; lia|lia].
Qed.

Lemma within_read t n : Z.of_nat t <= n -> within (ps2_read_kbd t) n.
Proof.
  revert n. induction t as [|t IH]; intros n Hn; [apply within_ret; lia|]. apply (within_bind _ _ 0 n); [now apply within_inb| |lia]. intros v. apply within_if.
  - apply (within_bind _ _ 0 n); [now apply within_inb|intros b; apply within_ret; lia|lia].
  - apply (within_bind _ _ 1 (n - 1)); [apply within_sleep; lia|intros _; apply IH; lia|lia].
Qed.

Lemma within_cmd c n : 100 <= n -> within (ps2_write_cmd c) n.
Proof.
  intros Hn. apply (within_bind _ _ 100 0); [apply within_clear; lia| |lia]. intros ok. apply within_if; [now apply within_ret|].
  apply (within_bind _ _ 0 0); [now apply within_outb|intros _; now apply within_ret|lia].
Qed.

Lemma within_data c n : 100 <= n -> within (ps2_write_data c) n.
Proof.
  intros Hn. apply (within_bind _ _ 100 0); [apply within_clear; lia| |lia]. intros ok. apply within_if; [now apply within_ret|].
  apply (within_bind _ _ 0 0); [now apply within_outb|intros _; now apply within_ret|lia].
Qed.

Lemma within_ack k d n : 350 * Z.of_nat k <= n -> within (ack_loop k d) n.
Proof.
  revert n. induction k as [|k IH]; intros n Hn; [apply within_ret; lia|]. rewrite Nat2Z.inj_succ in Hn. apply (within_bind _ _ 100 (n - 100)); [apply within_data; lia| |lia].
  intros ok. apply within_if; [apply within_ret; lia|]. apply (within_bind _ _ 250 (n - 350)); [apply within_read; lia| |lia].
  intros [resp|]; [apply within_if; [apply within_ret; lia|]|]; apply IH; lia.
Qed.

Lemma within_send d n : 1750 <= n -> within (ps2_kbd_send_expect_ack d) n.
Proof. intros Hn. apply within_ack. lia. Qed.

Lemma within_bat k n : 2 * Z.of_nat k <= n -> within (bat_loop k) n.
Proof.
  revert n. induction k as [|k IH]; intros n Hn; [apply within_ret; lia|]. rewrite Nat2Z.inj_succ in Hn. apply (within_bind _ _ 1 (n - 1)); [apply within_read; lia| |lia].
  intros b. apply within_if; [apply within_ret; lia|]. apply (within_bind _ _ 1 (n - 2)); [apply within_sleep; lia|intros _; apply IH; lia|lia].
Qed.

(** Goes through the steps of a program; the waits with a bound of their own
    are left to the lemmas above. *)
Ltac within_step :=
  lazymatch goal with
  | |- within (mret _) _ => apply within_ret; lia
  | |- within (if _ then _ else _) _ => apply within_if
  | |- within (inb _) _ => apply within_inb; lia
  | |- within (outb _ _) _ => apply within_outb; lia
  | |- within (sleep_ms _) _ => apply within_sleep; lia
  | |- within (ps2_write_cmd _) _ => apply within_cmd; lia
  | |- within (ps2_write_data _) _ => apply within_data; lia
  | |- within (ps2_wait_output_full_ms _) _ => apply within_full; lia
  | |- within ps2_flush_output _ => apply within_flush; lia
  | |- within (ps2_read_kbd _) _ => apply within_read; lia
  | |- within (ps2_kbd_send_expect_ack _) _ => apply within_send; lia
  | |- within (bat_loop _) _ => apply within_bat; lia
  end.

Lemma within_set set n : 3532 <= n -> within (ps2_kbd_setScanCodeSet set) n.
Proof.
  intros Hn. apply (within_bind _ _ 32 3500); [within_step| |lia]. intros _. apply (within_bind _ _ 1750 1750); [within_step| |lia]. intros ok. within_step; [within_step|].
  within_step.
Qed.

Lemma within_get n : 3782 <= n -> within ps2_kbd_getScanCodeSet n.
Proof.
  intros Hn. apply (within_bind _ _ 32 3750); [within_step| |lia]. intros _. apply (within_bind _ _ 1750 2000); [within_step| |lia]. intros ok. within_step; [within_step|].
  apply (within_bind _ _ 1750 250); [within_step| |lia]. intros ok'. within_step; [within_step|]. apply (within_bind _ _ 250 0); [within_step|intros ?; within_step|lia].
Qed.

Lemma within_scancode k c n : 7314 * Z.of_nat k <= n -> within (scancode_loop k c) n.
Proof.
  revert c n. induction k as [|k IH]; intros c n Hn; [apply within_ret; lia|]. rewrite Nat2Z.inj_succ in Hn. apply (within_bind _ _ 3532 (n - 3532)); [apply within_set; lia| |lia].
  intros ok. within_step; [apply IH; lia|]. apply (within_bind _ _ 3782 (n - 7314)); [apply within_get; lia| |lia]. intros set. within_step; [within_step|apply IH; lia].
Qed.

Lemma within_drain t n : Z.of_nat t <= n -> within (drain_answer t) n.
Proof.
  intros Hn. apply (within_bind _ _ n 0); [within_step| |lia]. intros b. within_step; [|within_step]. apply (within_bind _ _ 0 0); [within_step|intros _; within_step|lia].
Qed.

Lemma within_configure : within configure 1315.
Proof.
  unfold configure. apply (within_bind _ _ 100 1215); [within_step| |lia]. intros _. apply (within_bind _ _ 100 1115); [within_step| |lia]. intros _.
  apply (within_bind _ _ 32 1083); [within_step| |lia]. intros _. apply (within_bind _ _ 100 983); [within_step| |lia]. intros ok1.
  apply (within_bind _ _ 100 883); [within_step; within_step| |lia]. intros ok2. within_step; [within_step|]. apply (within_bind _ _ 0 883); [within_step| |lia]. intros ccb. cbv zeta.
  apply (within_bind _ _ 100 783); [within_step| |lia]. intros ok3. apply (within_bind _ _ 100 683); [within_step; within_step| |lia]. intros ok4. within_step; [within_step|].
  apply (within_bind _ _ 100 583); [within_step| |lia]. intros ok5. apply (within_bind _ _ 250 333); [within_step; [apply within_drain; lia|within_step]| |lia]. intros _.
  apply (within_bind _ _ 100 233); [within_step| |lia]. intros ok6. apply (within_bind _ _ 100 133); [within_step; [apply within_drain; lia|within_step]| |lia]. intros _.
  apply (within_bind _ _ 100 33); [within_step| |lia]. intros _. apply (within_bind _ _ 1 32); [within_step| |lia]. intros _. apply (within_bind _ _ 32 0); [within_step|intros _; within_step|lia].
Qed.

(** The same with a postcondition on the result *)
Definition runs {X} (m : hw X) (n : Z) (Q : X -> Prop) : Prop := forall s, exists s' x, m s = Some (s', x) /\ s.2 <= s'.2 <= s.2 + n /\ Q x.

Lemma runs_ret {X} (x : X) n (Q : X -> Prop) : 0 <= n -> Q x -> runs (mret x) n Q.
Proof. intros Hn HQ s. exists s, x. split_and!; [done|lia|lia|done]. Qed.

Lemma runs_bind {X Y} (m : hw X) (k : X -> hw Y) a b n Q : within m a -> (forall x, runs (k x) b Q) -> a + b <= n -> runs (m ≫= k) n Q.
Proof.
  intros Hm Hk Hn s. destruct (Hm s) as (s1 & x & E & H1). destruct (Hk x s1) as (s2 & y & E2 & H2 & HQ). exists s2, y. rewrite (bind_run _ _ _ _ _ E). split_and!; [done|lia|lia|done].
Qed.

Lemma runs_if {X} (b : bool) (m m' : hw X) n Q : runs m n Q -> runs m' n Q -> runs (if b then m else m') n Q.
Proof. now destruct b. Qed.

(** What initialisation promises: on success the driver is marked initialised
    with its handler registered and the interrupt still off; otherwise it is
    not marked and the interrupt set-up is what it was. *)
Definition init_result (p : Ps2kbd) (r : Ps2kbd * bool) : Prop :=
  ps2kbd_initalized r.1 = r.2 /\
  if r.2 then handler_registered r.1 = true /\ irq_enabled r.1 = false /\ ps2_event_buffer r.1 <> None
  else handler_registered r.1 = handler_registered p /\ irq_enabled r.1 = irq_enabled p.

(** Starting the keyboard always returns, whatever the controller and the keyboard answer, or if they never answer: every wait is bounded and all together sleep at most 30541 milliseconds.  On success the driver is initialised, with an event queue, its handler registered and the interrupt line still off; on failure it is not, and handler and interrupt are as before. *)
Theorem ps2kbd_init_returns (p : Ps2kbd) (opened : Z) (buffer : option Buffer) (s : W * Z) :
  exists s' r, ps2kbd_init p opened buffer s = Some (s', r) /\ s.2 <= s'.2 <= s.2 + 30541 /\ init_result p r.
Proof.
  revert s. change (runs (ps2kbd_init p opened buffer) 30541 (init_result p)). unfold ps2kbd_init. apply runs_if; [apply runs_ret; [lia|done]|]. cbn [ps2_event_buffer].
  destruct (match ps2_event_buffer p with Some b => Some b | None => buffer end) as [b|]; [|apply runs_ret; [lia|done]].
  apply (runs_bind _ _ 1315 29226); [apply within_configure| |lia]. intros ok1. apply runs_if; [apply runs_ret; [lia|done]|].
  apply (runs_bind _ _ 1750 27476); [within_step| |lia]. intros ok2. apply runs_if; [apply runs_ret; [lia|done]|].
  apply (runs_bind _ _ 2000 25476); [within_step| |lia]. intros bat.
  apply (runs_bind _ _ 2 25474); [within_step; [apply (within_bind _ _ 2 0); [within_step|intros _; within_step|lia]|within_step]| |lia]. intros _.
  apply (runs_bind _ _ 1750 23724); [within_step| |lia]. intros _. apply (runs_bind _ _ 32 23692); [within_step| |lia]. intros _.
  apply (runs_bind _ _ 21942 1750); [apply within_scancode; lia| |lia]. intros [count correct].
  apply (runs_bind _ _ 1750 0); [within_step| |lia]. intros ok3. apply runs_if; (apply runs_ret; [lia|]); split_and!; done.
Qed.

End Bounds.

(** ** A keyboard that answers

    The controller is always ready; every byte sent to the keyboard is
    acknowledged after [resends] requests to send it again.  A reset is
    followed by the self-test code, a query of the scan code set by the set. *)

Module Keyboard8042.

Record State := mkState { resends : nat; left : nat; answers : bytes; ccb : Z; config_next : bool; set_next : bool; kbd_set : Z; scanning : bool }.

Definition input (w : State) (port : Z) : State * Z :=
  let '(mkState r l a c cn sn s sc) := w in
  if port =? PS2_STATUS_PORT then (w, if bool_decide (a = []) then 0 else 1)
  else match a with b :: a => (mkState r l a c cn sn s sc, b) | [] => (w, 0) end.

Definition output (w : State) (port v : Z) : State :=
  let '(mkState r l a c cn sn s sc) := w in
  if port =? PS2_CMD_PORT
  then mkState r l (if v =? PS2_CMD_READ_CONFIG then a ++ [c] else if v =? PS2_CMD_TEST_CTRL then a ++ [0x55] else if v =? PS2_CMD_TEST_PORT1 then a ++ [0] else a) c (v =? PS2_CMD_WRITE_CONFIG) sn s sc
  else if cn then mkState r l a v false sn s sc
  else match l with
       | S l => mkState r l (a ++ [PS2_RESPONSE_RESEND]) c cn sn s sc
       | O =>
           if sn then mkState r r (a ++ PS2_RESPONSE_ACK :: (if v =? 0 then [s] else [])) c cn false (if v =? 0 then s else v) sc
           else if v =? PS2_KBD_CMD_SET_SCANCODE then mkState r r (a ++ [PS2_RESPONSE_ACK]) c cn true s sc
           else if v =? PS2_KBD_CMD_RESET then mkState r r (a ++ [PS2_RESPONSE_ACK; PS2_RESPONSE_SELF_TEST_OK]) c cn sn 3 sc
           else mkState r r (a ++ [PS2_RESPONSE_ACK]) c cn sn s (if v =? PS2_KBD_CMD_ENABLE then true else if v =? PS2_KBD_CMD_DISABLE then false else sc)
       end.

#[export] Instance ports : PortIO State := {| port_in := input; port_out := output; elapse := fun w _ => w |}.

Definition start (resends : nat) : State := mkState resends resends [] 0x47 false false 3 false.
Definition fresh_driver : Ps2kbd := mkPs2kbd false false 0 None true false false.

(** With up to four requests to send a byte again, initialisation succeeds: the keyboard scans in set 2, interrupts and translation are off. *)
Lemma keyboard_starts : Forall (fun resends => exists s r, ps2kbd_init fresh_driver 0 (Some (mkBuffer NULL NULL 0 0 12)) (start resends, 0) = Some (s, r) /\
  r.2 = true /\ scancodeSetCorrect r.1 = true /\ kbd_set s.1 = 2 /\ scanning s.1 = true /\ ccb s.1 = 0x04) [0%nat; 1%nat; 2%nat; 3%nat; 4%nat].
Proof. repeat constructor; eexists _, _; (split; [vm_compute; reflexivity|]); vm_compute; done. Qed.

End Keyboard8042.
