(* ===== verification/Ps2Keyboard.v ===== *)
(** * Scan codes to characters ([kernel/driver/ps2kbd], [kernel/keyboard/Keyboard.c])

    The interrupt handler turns scan codes into key events and queues them;
    the stream of the driver takes characters from the queue, and the keyboard
    stream of the kernel asks the streams of all drivers.  The queue is the one
    of [Buffer]: its nodes are in a store, an invalid access is [None].  Each
    layout has an event, and two flags, of its own. *)

From S2P Require Import Prelude Bytes CString Buffer KeyLayouts Ps2Controller.

Record KeyboardKeyEventData := mkEvent { ascii : Z; key : KeyboardKeys; isPressed : bool; flag : bool }.

(** The object in memory: a [char], the enumeration at offset 4, two [bool]s *)
Definition sizeof_KeyboardKeyEventData : Z := 12.
Definition event_bytes (e : KeyboardKeyEventData) : bytes :=
  [ascii e; 0; 0; 0] ++ le_bytes 4 (key_code (key e)) ++ [Z.b2z (isPressed e); Z.b2z (flag e); 0; 0].

Definition event_ascii (r : bytes) : option Z := le_at 1 r 0.
Definition event_key (r : bytes) : option Z := le_at 4 r 4.
Definition event_pressed (r : bytes) : option bool := v ← le_at 1 r 8; Some (negb (v =? 0)).

(** The variables of a layout: [data], [isExtended] and [isPressed] *)
Record Layout := mkLayout { data : KeyboardKeyEventData; is_extended : bool; is_pressed : bool }.

(** All of them start as zeros. *)
Definition layout_start : Layout := mkLayout (mkEvent 0 KEY_UNKNOWN false false) false false.

Definition set_keys (e : KeyboardKeyEventData) (a : assignment) : KeyboardKeyEventData := mkEvent (a_ascii a) (a_key a) (isPressed e) (a_flag a).

(** The two switches: an unknown extended code leaves [data] as it is. *)
Definition decode (extended keys : Z -> option assignment) (l : Layout) (scancode : Z) : KeyboardKeyEventData :=
  let d := mkEvent (ascii (data l)) (key (data l)) (is_pressed l) (flag (data l)) in
  if is_extended l
  then match extended scancode with Some a => set_keys d a | None => d end
  else set_keys d (default (assign 0 KEY_UNKNOWN false) (keys scancode)).

Section Driver.
Context `{A : Arch}.
Implicit Types (m : gmap Z BufferNode) (self : option Buffer).

(** [mal] is the allocation of a queue node. *)
Definition push_event m self (e : KeyboardKeyEventData) (mal : option Z) : option (gmap Z BufferNode * option Buffer) :=
  match self with
  | None => Some (m, self)
  | Some _ => r ← buffer_push m self (Some (event_bytes e)) mal; Some r.1
  end.

Definition __ps2kbd_us_qwerty_handle (l : Layout) m self (mal : option Z) (scancode : Z) : option (Layout * gmap Z BufferNode * option Buffer) :=
  if scancode =? 0xE0 then Some (mkLayout (data l) true (is_pressed l), m, self)
  else if scancode =? 0xF0 then Some (mkLayout (data l) (is_extended l) false, m, self)
  else
    let d := decode us_extended us_keys l scancode in
    '(m, self) ← push_event m self d mal;
    Some (mkLayout d false true, m, self).

(** Nothing is queued; [isPressed] is set again only after a plain code. *)
Definition __ps2kbd_tr_qwerty_handle (l : Layout) m self (mal : option Z) (scancode : Z) : option (Layout * gmap Z BufferNode * option Buffer) :=
  if scancode =? 0xE0 then Some (mkLayout (data l) true (is_pressed l), m, self)
  else if scancode =? 0xF0 then Some (mkLayout (data l) (is_extended l) false, m, self)
  else
    let d := decode tr_extended tr_keys l scancode in
    Some (mkLayout d false (if is_extended l then is_pressed l else true), m, self).

Definition __ps2kbd_tr_f_handle (l : Layout) m self (mal : option Z) (scancode : Z) : option (Layout * gmap Z BufferNode * option Buffer) :=
  if scancode =? 0xE0 then Some (mkLayout (data l) true (is_pressed l), m, self)
  else if scancode =? 0xF0 then Some (mkLayout (data l) (is_extended l) false, m, self)
  else
    let d := decode trf_extended trf_keys l scancode in
    '(m, self) ← push_event m self d mal;
    Some (mkLayout d false true, m, self).

Record Keyboard := mkKeyboard { us : Layout; tr : Layout; trf : Layout; nodes : gmap Z BufferNode; queue : option Buffer }.

(** [scancode] is what the data port gives; the interrupt is acknowledged in
    every case. *)
Definition ps2kbd_handler (currentLayout : KeyboardLayouts) (k : Keyboard) (mal : option Z) (scancode : Z) : option Keyboard :=
  let '(mkKeyboard u t f m self) := k in
  match self with
  | None => Some k
  | Some _ =>
      match currentLayout with
      | LAYOUT_US_QWERTY => '(u, m, self) ← __ps2kbd_us_qwerty_handle u m self mal scancode; Some (mkKeyboard u t f m self)
      | LAYOUT_TR_QWERTY => '(t, m, self) ← __ps2kbd_tr_qwerty_handle t m self mal scancode; Some (mkKeyboard u t f m self)
      | LAYOUT_TR_F => '(f, m, self) ← __ps2kbd_tr_f_handle f m self mal scancode; Some (mkKeyboard u t f m self)
      end
  end.

(** ** The stream of the driver *)

(** The [do] loop; the event that is taken is freed, those passed over are not.
    The result and, if it is 1, the character. *)
Fixpoint pop_loop (fuel : nat) m self : option (gmap Z BufferNode * option Buffer * (Z * Z)) :=
  match fuel with
  | O => None
  | S fuel =>
      '(self, event) ← buffer_pop m self;
      if event =? NULL then Some (m, self, (-1, 0))
      else
        r ← load m event;
        pressed ← event_pressed r;
        k ← event_key r;
        if negb pressed || (k =? key_code KEY_UNKNOWN) then pop_loop fuel m self
        else c ← event_ascii r; Some (delete (event - sizeof_BufferNode) m, self, (1, c))
  end.

Definition ps2kbd_stream_readChar m self : option (gmap Z BufferNode * option Buffer * (Z * Z)) :=
  match self with
  | None => Some (m, self, (-1, 0))
  | Some _ => if buffer_count self =? 0 then Some (m, self, (-1, 0)) else pop_loop (S (Z.to_nat (buffer_count self))) m self
  end.

(** [n] more characters fit; [length] are stored in [str].  The loop goes on
    when [readChar] returns 0. *)
Fixpoint string_loop (n : nat) m self (str : bytes) (length : Z) : option (gmap Z BufferNode * option Buffer * bytes * Z) :=
  match n with
  | O => Some (m, self, str, length)
  | S n =>
      '(m, self, (r, c)) ← ps2kbd_stream_readChar m self;
      if negb (r =? 0) then Some (m, self, str, length)
      else str ← put_bytes str length [c]; string_loop n m self str (length + 1)
  end.

(** [str] is the caller's memory, at least [maxLength] bytes. *)
Definition ps2kbd_stream_readString m self (str : bytes) (maxLength : Z) : option (gmap Z BufferNode * option Buffer * bytes * Z) :=
  if (maxLength =? 0) || bool_decide (self = None) then Some (m, self, str, -1)
  else
    '(m, self, str, length) ← string_loop (Z.to_nat (maxLength - 1)) m self str 0;
    str ← put_bytes str length [0];
    Some (m, self, str, length).

Definition ps2kbd_stream_readBuffer m self (buffer : bytes) (size : Z) : option (gmap Z BufferNode * option Buffer * bytes * Z) :=
  if (size =? 0) || bool_decide (self = None) then Some (m, self, buffer, -1)
  else string_loop (Z.to_nat size) m self buffer 0.

Definition ps2kbd_stream_available self : Z := match self with None => 0 | Some _ => sign_of 32 (buffer_count self) end.

Definition ps2kbd_stream_peek m self : option Z :=
  if bool_decide (self = None) || buffer_is_empty self then Some 0
  else
    event ← buffer_peek m self;
    if event =? NULL then Some 0
    else r ← load m event; pressed ← event_pressed r; if pressed : bool then event_ascii r else Some 0.

Definition ps2kbd_stream_flush m self : option (gmap Z BufferNode * option Buffer) :=
  match self with None => Some (m, self) | Some _ => buffer_clear m self end.

(** [listed] is the list of streams, if there is one; the stream of this driver
    is removed from it. *)
Definition ps2kbd_disable (stream : Z) (listed : option (list Z)) m self : option (option (list Z) * gmap Z BufferNode * option Buffer) :=
  let listed := l ← listed; Some (match list_find (eq stream) l with Some (i, _) => delete i l | None => l end) in
  '(m, self) ← buffer_clear m self;
  Some (listed, m, self).

End Driver.

(** ** The keyboard stream of the kernel *)

(** What it uses of the stream of a driver, named by its address: the number of
    events and the reading of one character (result and character) *)
Class InputStreams (W : Type) := {
  stream_available : W -> Z -> option (W * Z);
  stream_readChar : W -> Z -> option (W * (Z * Z));
  stream_peek : W -> Z -> option (W * Z);
  stream_free : W -> Z -> option W
}.

(** [isOpen], [__kbd_abstraction_initialized] and [keyboardInputStreamList] *)
Record KeyboardLayer := mkLayer { isOpen : bool; abstraction_initialized : bool; streams : option (list Z) }.

Section Layer.
Context {W : Type} `{!InputStreams W}.

Definition __open (l : KeyboardLayer) (mal : bool) : KeyboardLayer * Z :=
  if isOpen l then (l, -1)
  else if negb mal then (mkLayer (isOpen l) (abstraction_initialized l) None, -1)
  else (mkLayer true true (Some []), 0).

Fixpoint free_streams (w : W) (ss : list Z) : option W := match ss with [] => Some w | s :: ss => w ← stream_free w s; free_streams w ss end.

(** [isOpen] stays set. *)
Definition __close (w : W) (l : KeyboardLayer) : option (W * KeyboardLayer) :=
  if negb (isOpen l) then Some (w, l)
  else w ← free_streams w (default [] (streams l)); Some (w, mkLayer (isOpen l) false None).

(** The loop over the streams: the first that has events and a character *)
Fixpoint char_loop (w : W) (ss : list Z) : option (W * (Z * Z)) :=
  match ss with
  | [] => Some (w, (-3, 0))
  | s :: ss =>
      '(w, n) ← stream_available w s;
      if 0 <? n
      then '(w, (r, c)) ← stream_readChar w s; if r =? 1 then Some (w, (1, c)) else char_loop w ss
      else char_loop w ss
  end.

(** The result and the character stored through the pointer *)
Definition __readChar (w : W) (l : KeyboardLayer) : option (W * (Z * Z)) :=
  if negb (isOpen l) then Some (w, (-1, 0))
  else
    let ss := default [] (streams l) in
    if bool_decide (ss = []) then Some (w, (-2, 0)) else char_loop w ss.

(** [n] more positions from [length] on *)
Fixpoint line_loop (n : nat) (w : W) (l : KeyboardLayer) (str : bytes) (length : Z) : option (W * bytes) :=
  match n with
  | O => Some (w, str)
  | S n =>
      '(w, (r, c)) ← __readChar w l;
      str ← put_bytes str length [c];
      if negb (r =? 1) then Some (w, str) else line_loop n w l str (length + 1)
  end.

Definition __readString (w : W) (l : KeyboardLayer) (str : bytes) (maxLength : Z) : option (W * bytes * Z) :=
  if negb (isOpen l) || (maxLength =? 0) then str ← put_bytes str 0 [0]; Some (w, str, -1)
  else if bool_decide (default [] (streams l) = []) then str ← put_bytes str 0 [0]; Some (w, str, -2)
  else
    '(w, str) ← line_loop (Z.to_nat maxLength) w l str 0;
    str ← put_bytes str (maxLength - 1) [0];
    n ← strlen (Some str);
    Some (w, str, n).

Definition __readBuffer (w : W) (l : KeyboardLayer) (buffer : bytes) (size : Z) : option (W * bytes * Z) := __readString w l buffer size.

Fixpoint available_loop (w : W) (ss : list Z) (count : Z) : option (W * Z) :=
  match ss with [] => Some (w, count) | s :: ss => '(w, n) ← stream_available w s; available_loop w ss (count + n) end.

Definition __available (w : W) (l : KeyboardLayer) : option (W * Z) := available_loop w (default [] (streams l)) 0.

Fixpoint peek_loop (w : W) (ss : list Z) : option (W * Z) :=
  match ss with
  | [] => Some (w, 0)
  | s :: ss => '(w, n) ← stream_available w s; if 0 <? n then stream_peek w s else peek_loop w ss
  end.

Definition __peek (w : W) (l : KeyboardLayer) : option (W * Z) := if negb (isOpen l) then Some (w, 0) else peek_loop w (default [] (streams l)).

Definition __flush (w : W) (l : KeyboardLayer) : W := w.

End Layer.

(** The stream of the driver as one of them *)
Definition PS2_STREAM : Z := 1.

#[export] Instance ps2_streams `{A : Arch} : InputStreams Keyboard := {|
  stream_available k _ := Some (k, ps2kbd_stream_available (queue k));
  stream_readChar k _ := '(m, self, r) ← ps2kbd_stream_readChar (nodes k) (queue k); Some (mkKeyboard (us k) (tr k) (trf k) m self, r);
  stream_peek k _ := c ← ps2kbd_stream_peek (nodes k) (queue k); Some (k, c);
  stream_free k _ := Some k
|}.
