(* ===== verification/KeyboardSpec.v ===== *)
(** * What is typed is what is read

    Key strokes as the codes a keyboard sends, the events the handler queues
    for them, and the line a reader of the keyboard stream gets. *)

From S2P Require Import Prelude Bytes CString Lists Buffer KeyLayouts Ps2Controller Ps2Keyboard.

(** ** Events in the queue *)

Definition known (e : KeyboardKeyEventData) : bool := isPressed e && negb (bool_decide (key e = KEY_UNKNOWN)).

(** The characters of the keys pressed *)
Definition typed (es : list KeyboardKeyEventData) : bytes := ascii <$> List.filter known es.

Lemma event_size e : zlen (event_bytes e) = sizeof_KeyboardKeyEventData.
Proof. reflexivity. Qed.

Lemma key_code_range k : 0 <= key_code k < 84.
Proof. destruct k; cbn; lia. Qed.

Lemma key_code_unknown k : (key_code k =? key_code KEY_UNKNOWN) = bool_decide (k = KEY_UNKNOWN).
Proof. destruct k; reflexivity. Qed.

Lemma event_fields e : event_ascii (event_bytes e) = Some (ascii e) /\ event_key (event_bytes e) = Some (key_code (key e)) /\ event_pressed (event_bytes e) = Some (isPressed e).
Proof.
  pose proof (key_code_range (key e)) as Hk. split_and!.
  - unfold event_ascii, le_at. pose proof (sub_bytes_app [] [ascii e] (drop 1 (event_bytes e))) as E. change (zlen []) with 0 in E. change (zlen [ascii e]) with 1 in E.
    change ([] ++ [ascii e] ++ drop 1 (event_bytes e)) with (event_bytes e) in E. rewrite E. cbn [mbind option_bind le]. f_equal. lia.
  - unfold event_key, le_at. pose proof (sub_bytes_app [ascii e; 0; 0; 0] (le_bytes 4 (key_code (key e))) [Z.b2z (isPressed e); Z.b2z (flag e); 0; 0]) as E.
    rewrite zlen_le_bytes in E. change (sub_bytes _ _ _) with (sub_bytes (event_bytes e) 4 4) in E. rewrite E. cbn [mbind option_bind]. rewrite le_le_bytes. f_equal. apply Z.mod_small. change (256 ^ Z.of_nat 4) with 4294967296. lia.
  - destruct e as [a k [] f]; reflexivity.
Qed.

Section Queue.
Context `{A : Arch}.
Implicit Types (m : gmap Z BufferNode) (b : Buffer).

(** The queue holds the events [es]. *)
Definition queued m b (es : list KeyboardKeyEventData) : Prop :=
  default_data_size b = sizeof_KeyboardKeyEventData /\ exists ns, buffer_rep m b ns /\ ns.*2 = event_bytes <$> es.

Lemma queued_count m b es : queued m b es -> buffer_count (Some b) = Z.of_nat (length es).
Proof. intros (_ & ns & Hrep & Hns). destruct Hrep as (_ & _ & _ & _ & Hc & _). cbn. rewrite Hc, <- (length_fmap snd), Hns, length_fmap. reflexivity. Qed.

Lemma push_event_spec m b es e mal : queued m b es -> fresh_node m mal -> exists m' b', push_event m (Some b) e mal = Some (m', Some b') /\
  queued m' b' (if got_memory mal then es ++ [e] else es).
Proof.
  intros (Hd & ns & Hrep & Hns) Hm. cbn [push_event]. assert (record_fits b (event_bytes e)) as Hfit.
  { unfold record_fits. rewrite Hd, event_size. split; [unfold sizeof_KeyboardKeyEventData; lia|]. unfold sizeof_BufferNode, sizeof_size_t, size_bits, sizeof_KeyboardKeyEventData. destruct the_arch; lia. }
  pose proof (buffer_push_rep m b ns (event_bytes e) mal Hrep Hm Hfit) as H. destruct mal as [a|].
  - destruct H as (m' & b' & -> & Hd' & Hrep' & _). exists m', b'. split; [done|]. split; [congruence|]. eexists. split; [exact Hrep'|].
    cbn [got_memory]. rewrite fmap_app, Hns, Hd, fmap_app. reflexivity.
  - rewrite H. exists m, b. split; [done|]. split; [done|]. by exists ns.
Qed.

(** Reading a character passes over what is not a known key pressed. *)
Fixpoint next_key (es : list KeyboardKeyEventData) : option (Z * list KeyboardKeyEventData) :=
  match es with [] => None | e :: es => if known e then Some (ascii e, es) else next_key es end.

Lemma next_key_typed es : match next_key es with None => typed es = [] | Some (c, es') => typed es = c :: typed es' /\ (length es' < length es)%nat end.
Proof.
  induction es as [|e es IH]; [done|]. cbn [next_key]. unfold typed in *. cbn [List.filter]. destruct (known e); [cbn; split; [done|lia]|].
  destruct (next_key es) as [[c es']|]; [|done]. destruct IH as [-> IH]. split; [done|cbn; lia].
Qed.

Lemma pop_loop_spec es : forall fuel m b, queued m b es -> (length es < fuel)%nat ->
  exists m' b' r, pop_loop fuel m (Some b) = Some (m', Some b', r) /\
    match next_key es with None => r = (-1, 0) /\ queued m' b' [] | Some (c, es') => r = (1, c) /\ queued m' b' es' end.
Proof.
  induction es as [|e es IH]; intros fuel m b (Hd & ns & Hrep & Hns) Hf; (destruct fuel as [|fuel]; [cbn in Hf; lia|]); cbn [pop_loop next_key];
    pose proof (buffer_pop_rep m b ns Hrep) as Hpop; destruct ns as [|[a d] ns]; try done; pose proof Hrep as (_ & _ & Hok & _).
  { rewrite Hpop. exists m, b, (-1, 0). split; [done|]. split; [done|]. split; [done|]. by exists []. }
  rewrite !fmap_cons in Hns. cbn [snd] in Hns. injection Hns as -> Hns. destruct Hpop as (b' & nx & -> & Hd' & Ha & Hrep1 & Hrep2). cbn [mbind option_bind]. apply Forall_cons in Hok as [Hoka _].
  rewrite record_not_null, (load_node _ _ _ _ _ Ha) by done. cbn [mbind option_bind]. destruct (event_fields e) as (Ea & Ek & Ep). rewrite Ep. cbn [mbind option_bind]. rewrite Ek. cbn [mbind option_bind]. rewrite key_code_unknown.
  unfold known. destruct (isPressed e); cbn [negb orb andb].
  2: { apply IH; [|cbn in Hf; lia]. split; [congruence|]. by exists ns. }
  destruct (bool_decide (key e = KEY_UNKNOWN)); cbn [negb].
  { apply IH; [|cbn in Hf; lia]. split; [congruence|]. by exists ns. }
  rewrite Ea. cbn [mbind option_bind].   replace (a + sizeof_BufferNode - sizeof_BufferNode) with a by lia. eexists _, _, _. split; [reflexivity|]. split; [done|]. split; [congruence|]. by exists ns.
Qed.

Lemma readChar_spec m b es : queued m b es ->
  exists m' b' r, ps2kbd_stream_readChar m (Some b) = Some (m', Some b', r) /\
    match next_key es with None => r = (-1, 0) /\ queued m' b' [] | Some (c, es') => r = (1, c) /\ queued m' b' es' end.
Proof.
  intros H. pose proof (queued_count _ _ _ H) as Hc. unfold ps2kbd_stream_readChar. rewrite Hc. destruct (Z.eqb_spec (Z.of_nat (length es)) 0) as [E|E].
  - destruct es; [|cbn in E; lia]. by exists m, b, (-1, 0).
  - apply pop_loop_spec; [done|lia].
Qed.

(** ** The keyboard stream *)

Definition holds (k : Keyboard) (es : list KeyboardKeyEventData) : Prop := exists b, queue k = Some b /\ queued (nodes k) b es.

Definition ps2_layer : KeyboardLayer := mkLayer true true (Some [PS2_STREAM]).

Lemma layer_readChar k es : holds k es -> Z.of_nat (length es) < 2 ^ 31 ->
  exists k' r, __readChar k ps2_layer = Some (k', r) /\ us k' = us k /\ tr k' = tr k /\ trf k' = trf k /\
    match next_key es with None => r = (-3, 0) /\ holds k' [] | Some (c, es') => r = (1, c) /\ holds k' es' end.
Proof.
  intros (b & Hb & Hq) Hl. destruct k as [u t f m self]. cbn [queue nodes us tr trf] in *. subst self. pose proof (queued_count _ _ _ Hq) as Hc.
  cbn [__readChar ps2_layer isOpen negb streams default]. rewrite bool_decide_false by done. cbn [char_loop stream_available ps2_streams queue mbind option_bind from_option id]. unfold ps2kbd_stream_available. rewrite Hc.
  assert (sign_of 32 (Z.of_nat (length es)) = Z.of_nat (length es)) as -> by (unfold sign_of; rewrite wrap_small by lia; change (32 - 1) with 31; destruct (Z.ltb_spec (Z.of_nat (length es)) (2 ^ 31)); lia).
  destruct (Z.ltb_spec 0 (Z.of_nat (length es))) as [Hpos|H0].
  - cbn [stream_readChar ps2_streams nodes queue]. destruct (readChar_spec m b es Hq) as (m' & b' & r & -> & Hr). cbn [mbind option_bind us tr trf].
    destruct (next_key es) as [[c es']|]; destruct Hr as [-> Hq']; cbn; eexists _, _; (split; [reflexivity|]); split_and!; try done; by exists b'.
  - destruct es; [|cbn in H0; lia]. cbn [next_key]. eexists _, _. split; [reflexivity|]. split_and!; [done..|]. by exists b.
Qed.

Lemma put_next (pre : bytes) x tl c p : p = zlen pre -> put_bytes (pre ++ x :: tl) p [c] = Some (pre ++ c :: tl).
Proof.
  intros ->. pose proof (zlen_nonneg pre). unfold put_bytes. change (zlen [c]) with 1. rewrite zlen_app, zlen_cons. pose proof (zlen_nonneg tl).
  rewrite (proj2 (Z.leb_le 0 (zlen pre))) by lia. rewrite (proj2 (Z.leb_le _ _)) by lia. cbn [andb]. f_equal. rewrite take_zlen. cbn [app]. f_equal. f_equal.
  unfold zlen. rewrite drop_app_ge by lia. replace (Z.to_nat (Z.of_nat (length pre) + 1) - length pre)%nat with 1%nat by lia. reflexivity.
Qed.
(** Reading a line: all that was typed, if it fits *)
Lemma line_loop_spec n : forall k es pre rest, holds k es -> Z.of_nat (length es) < 2 ^ 31 -> (length (typed es) < n)%nat -> zlen (typed es) < zlen rest ->
  exists k' tl, line_loop n k ps2_layer (pre ++ rest) (zlen pre) = Some (k', pre ++ typed es ++ 0 :: tl) /\ holds k' [] /\ zlen (typed es ++ 0 :: tl) = zlen rest.
Proof.
  induction n as [|n IH]; intros k es pre rest Hk Hl Hn Hr; [lia|]. cbn [line_loop].
  destruct (layer_readChar k es Hk Hl) as (k1 & r & -> & _ & _ & _ & Hnext). pose proof (next_key_typed es) as Ht. cbn [mbind option_bind].
  destruct rest as [|x rest]; [pose proof (zlen_nonneg (typed es)); change (zlen []) with 0 in Hr; lia|].
  destruct (next_key es) as [[c es1]|]; destruct Hnext as [-> Hk1].
  - destruct Ht as [Ht Hlen]. rewrite Ht in *. rewrite put_next by done. cbn [mbind option_bind negb Z.eqb Pos.eqb]. rewrite !zlen_cons in Hr. cbn [length] in Hn.
    destruct (IH k1 es1 (pre ++ [c]) rest Hk1) as (k' & tl & E & Hk' & Hz); [lia|lia|lia|]. rewrite zlen_app, <- app_assoc in E. change (zlen [c]) with 1 in E. cbn [app] in E. rewrite E.
    exists k', tl. rewrite <- app_assoc. cbn [app]. split_and!; [done|done|]. rewrite !zlen_cons, Hz. lia.
  - rewrite Ht in *. rewrite put_next by done. cbn. exists k1, rest. done.
Qed.

Lemma readString_spec k es str : holds k es -> Z.of_nat (length es) < 2 ^ 31 -> zlen (typed es) < zlen str -> (0 ∉ typed es) ->
  exists k' tl, __readString k ps2_layer str (zlen str) = Some (k', typed es ++ 0 :: tl, zlen (typed es)) /\ holds k' [].
Proof.
  intros Hk Hl Hs H0. pose proof (zlen_nonneg (typed es)) as Hnn. unfold __readString. cbn [ps2_layer isOpen negb orb streams default from_option id]. rewrite (proj2 (Z.eqb_neq (zlen str) 0)) by lia.
  rewrite bool_decide_false by done. destruct (line_loop_spec (Z.to_nat (zlen str)) k es [] str Hk Hl) as (k' & tl & E & Hk' & Hz); [unfold zlen in *; lia|done|].
  cbn [app] in E. change (zlen []) with 0 in E. rewrite E. cbn [mbind option_bind].
  assert (exists tl', put_bytes (typed es ++ 0 :: tl) (zlen str - 1) [0] = Some (typed es ++ 0 :: tl')) as [tl' Ep].
  { rewrite <- Hz. destruct tl as [|y tl _] using rev_ind.
    - exists []. rewrite put_next; [done|]. rewrite zlen_app. change (zlen [0]) with 1. lia.
    - exists (tl ++ [0]). rewrite app_comm_cons, app_assoc, put_next by (rewrite !zlen_app; change (zlen [y]) with 1; lia). now rewrite <- app_assoc. }
  rewrite Ep. cbn [mbind option_bind]. exists k', tl'. split; [|done]. unfold strlen. rewrite strlen_loop_spec by done. cbn [mbind option_bind]. reflexivity.
Qed.

(** ** Key strokes *)

(** A key goes down or up; [ext] for the keys with the prefix [0xE0]. *)
Record stroke := mkStroke { down : bool; ext : bool; code : Z }.

Definition stroke_codes (s : stroke) : bytes := (if ext s then [0xE0] else []) ++ (if down s then [] else [0xF0]) ++ [code s].

Definition tables (l : KeyboardLayouts) : (Z -> option assignment) * (Z -> option assignment) :=
  match l with LAYOUT_US_QWERTY => (us_extended, us_keys) | LAYOUT_TR_QWERTY => (tr_extended, tr_keys) | LAYOUT_TR_F => (trf_extended, trf_keys) end.

Definition stroke_event (l : KeyboardLayouts) (s : stroke) : KeyboardKeyEventData :=
  let a := default (assign 0 KEY_UNKNOWN false) (if ext s then (tables l).1 (code s) else (tables l).2 (code s)) in
  mkEvent (a_ascii a) (a_key a) (down s) (a_flag a).

(** The code is no prefix and, after [0xE0], one the layout knows. *)
Definition stroke_ok (l : KeyboardLayouts) (s : stroke) : Prop := code s <> 0xE0 /\ code s <> 0xF0 /\ (ext s = true -> (tables l).1 (code s) <> None).

Definition layout_of (l : KeyboardLayouts) (k : Keyboard) : Layout := match l with LAYOUT_US_QWERTY => us k | LAYOUT_TR_QWERTY => tr k | LAYOUT_TR_F => trf k end.

(** Between two strokes *)
Definition at_rest (l : KeyboardLayouts) (k : Keyboard) : Prop := is_extended (layout_of l k) = false /\ is_pressed (layout_of l k) = true.

(** The interrupts for a sequence of codes; [alloc] gives the memory for the queue. *)
Fixpoint interrupts (l : KeyboardLayouts) (alloc : nat -> gmap Z BufferNode -> option Z) (i : nat) (codes : bytes) (k : Keyboard) : option Keyboard :=
  match codes with
  | [] => Some k
  | c :: codes => k ← ps2kbd_handler l k (alloc i (nodes k)) c; interrupts l alloc (S i) codes k
  end.

Definition with_layout (l : KeyboardLayouts) (k : Keyboard) (x : Layout) (m : gmap Z BufferNode) (self : option Buffer) : Keyboard :=
  match l with
  | LAYOUT_US_QWERTY => mkKeyboard x (tr k) (trf k) m self
  | LAYOUT_TR_QWERTY => mkKeyboard (us k) x (trf k) m self
  | LAYOUT_TR_F => mkKeyboard (us k) (tr k) x m self
  end.

Lemma layout_with l k x m self : layout_of l (with_layout l k x m self) = x /\ nodes (with_layout l k x m self) = m /\ queue (with_layout l k x m self) = self.
Proof. by destruct l. Qed.

(** The two layouts that queue events work alike. *)
Lemma handler_step l k b mal c : l <> LAYOUT_TR_QWERTY -> queue k = Some b -> let x := layout_of l k in
  ps2kbd_handler l k mal c =
  if c =? 0xE0 then Some (with_layout l k (mkLayout (data x) true (is_pressed x)) (nodes k) (Some b))
  else if c =? 0xF0 then Some (with_layout l k (mkLayout (data x) (is_extended x) false) (nodes k) (Some b))
  else let d := decode (tables l).1 (tables l).2 x c in '(m, self) ← push_event (nodes k) (Some b) d mal; Some (with_layout l k (mkLayout d false true) m self).
Proof.
  intros Hl Hq. destruct k as [u t f m self]. cbn in Hq. subst self. destruct l; [|done|]; cbn [ps2kbd_handler layout_of us trf tables nodes with_layout fst snd];
    unfold __ps2kbd_us_qwerty_handle, __ps2kbd_tr_f_handle; (destruct (c =? 0xE0); [done|]); (destruct (c =? 0xF0); [done|]); destruct (push_event _ _ _ _) as [[m' self']|]; reflexivity.
Qed.

Lemma interrupts_app l alloc a c i k : interrupts l alloc i (a ++ c) k = k' ← interrupts l alloc i a k; interrupts l alloc (i + length a) c k'.
Proof.
  revert i k. induction a as [|x a IH]; intros i k; cbn [app interrupts length]; [now rewrite Nat.add_0_r|]. destruct (ps2kbd_handler _ _ _ _) as [k1|]; [|done]. cbn [mbind option_bind].
  rewrite IH. now rewrite <- plus_n_Sm.
Qed.

(** The prefixes only set the flags. *)
Lemma prefix_codes l alloc i (e d : bool) k : l <> LAYOUT_TR_QWERTY -> queue k <> None -> at_rest l k -> exists k', interrupts l alloc i ((if e then [0xE0] else []) ++ (if d then [] else [0xF0])) k = Some k' /\
  nodes k' = nodes k /\ queue k' = queue k /\ data (layout_of l k') = data (layout_of l k) /\ is_extended (layout_of l k') = e /\ is_pressed (layout_of l k') = d.
Proof.
  intros Hl Hq [He Hp]. destruct (queue k) as [b|] eqn:Eq; [|done].
  destruct e, d; cbn [app interrupts]; try (exists k; done); rewrite (handler_step l k b) by done; cbn [Z.eqb Pos.eqb mbind option_bind].
  - eexists. split; [reflexivity|]. destruct (layout_with l k (mkLayout (data (layout_of l k)) true (is_pressed (layout_of l k))) (nodes k) (Some b)) as (-> & -> & ->). by rewrite Hp.
  - set (k1 := with_layout _ _ _ _ _). destruct (layout_with l k (mkLayout (data (layout_of l k)) true (is_pressed (layout_of l k))) (nodes k) (Some b)) as (E1 & E2 & E3). fold k1 in E1, E2, E3.
    rewrite (handler_step l k1 b) by done. cbn [Z.eqb Pos.eqb mbind option_bind]. eexists. split; [reflexivity|].
    rewrite E1, E2. cbn [data is_extended is_pressed]. by destruct (layout_with l k1 (mkLayout (data (layout_of l k)) true false) (nodes k) (Some b)) as (-> & -> & ->).
  - eexists. split; [reflexivity|]. destruct (layout_with l k (mkLayout (data (layout_of l k)) (is_extended (layout_of l k)) false) (nodes k) (Some b)) as (-> & -> & ->). by rewrite He.
Qed.

Lemma stroke_step l alloc i s k es : l <> LAYOUT_TR_QWERTY -> (forall j m, fresh_node m (alloc j m)) -> stroke_ok l s -> at_rest l k -> holds k es ->
  exists k' got, interrupts l alloc i (stroke_codes s) k = Some k' /\ at_rest l k' /\ holds k' (es ++ if got : bool then [stroke_event l s] else []) /\ ((forall j m, alloc j m <> None) -> got = true).
Proof.
  intros Hl Hal (Hc1 & Hc2 & Hext) Hrest (b & Hb & Hq). unfold stroke_codes. rewrite app_assoc, interrupts_app.
  destruct (prefix_codes l alloc i (ext s) (down s) k Hl ltac:(congruence) Hrest) as (k1 & -> & Hn1 & Hq1 & Hd1 & He1 & Hp1). cbn [mbind option_bind interrupts].
  rewrite (handler_step l k1 b) by congruence. rewrite (proj2 (Z.eqb_neq _ _) Hc1), (proj2 (Z.eqb_neq _ _) Hc2).
  assert (decode (tables l).1 (tables l).2 (layout_of l k1) (code s) = stroke_event l s) as ->.
  { unfold decode, stroke_event. rewrite He1, Hp1. destruct (ext s) eqn:Ee; [|reflexivity]. destruct ((tables l).1 (code s)) eqn:Et; [reflexivity|]. now destruct (Hext eq_refl). }
  cbv zeta. rewrite Hn1. set (mal := alloc _ (nodes k)). destruct (push_event_spec (nodes k) b es (stroke_event l s) mal Hq (Hal _ _)) as (m' & b' & -> & Hq'). cbn [mbind option_bind].
  eexists _, (got_memory mal). split; [reflexivity|]. destruct (layout_with l k1 (mkLayout (stroke_event l s) false true) m' (Some b')) as (E1 & E2 & E3).
  split; [unfold at_rest; by rewrite E1|]. split.
  - exists b'. rewrite E2. split; [done|]. destruct (got_memory mal); [done|]. now rewrite app_nil_r.
  - intros H. destruct mal eqn:Em; [done|]. exfalso. exact (H _ _ Em).
Qed.

Lemma strokes_run l alloc ss : l <> LAYOUT_TR_QWERTY -> (forall j m, fresh_node m (alloc j m)) -> Forall (stroke_ok l) ss -> forall i k es, at_rest l k -> holds k es ->
  exists k' es', interrupts l alloc i (concat (stroke_codes <$> ss)) k = Some k' /\ at_rest l k' /\ holds k' (es ++ es') /\ sublist es' (stroke_event l <$> ss) /\
    ((forall j m, alloc j m <> None) -> es' = stroke_event l <$> ss).
Proof.
  intros Hl Hal Hss. induction Hss as [|s ss Hs Hss IH]; intros i k es Hr Hk.
  { exists k, []. rewrite app_nil_r. split_and!; [done|done|done|constructor|done]. }
  cbn [fmap list_fmap concat]. rewrite interrupts_app. destruct (stroke_step l alloc i s k es Hl Hal Hs Hr Hk) as (k1 & got & -> & Hr1 & Hk1 & Hgot). cbn [mbind option_bind].
  destruct (IH (i + length (stroke_codes s))%nat k1 _ Hr1 Hk1) as (k2 & es2 & E & Hr2 & Hk2 & Hsub & Hall). exists k2, ((if got then [stroke_event l s] else []) ++ es2). rewrite <- app_assoc in Hk2.
  split_and!; [done|done|done| |].
  - destruct got; cbn [app]; by constructor.
  - intros H. rewrite Hgot, Hall by done. reflexivity.
Qed.


End Queue.

(** ** Sessions *)

Module Session.
#[local] Instance arch : Arch := I386.

(** An allocator with sixteen addresses *)
Definition alloc (j : nat) (m : gmap Z BufferNode) : option Z := snd <$> list_find (fun a => m !! a = None) (seqZ 64 16).

Lemma alloc_fresh j m : fresh_node m (alloc j m).
Proof.
  unfold alloc. destruct (list_find _ _) as [[i a]|] eqn:E; [|done]. apply list_find_Some in E as (Hi & Ha & _). split; [|done].
  apply lookup_seqZ in Hi as [-> Hi]. unfold addr_ok. cbn. lia.
Qed.

Definition resting : Layout := mkLayout (mkEvent 0 KEY_UNKNOWN false false) false true.
Definition empty_queue : option Buffer := Some (mkBuffer NULL NULL 0 0 12).
Definition start (l : Layout) : Keyboard := mkKeyboard l l l ∅ empty_queue.

Lemma start_holds l : holds (start l) [].
Proof. exists (mkBuffer NULL NULL 0 0 12). split; [done|]. split; [done|]. exists []. split; [apply buffer_create_rep|done]. Qed.

(** The line after some codes *)
Definition session (l : Layout) (layout : KeyboardLayouts) (codes : bytes) (size : Z) : option (bytes * Z) :=
  k ← interrupts layout alloc 0 codes (start l); '(_, str, n) ← __readString k ps2_layer (zeros size) size; Some (str, n).

(** ["hi"] and the enter key of the number pad *)
Definition hi : list stroke := [mkStroke true false 0x33; mkStroke false false 0x33; mkStroke true false 0x43; mkStroke false false 0x43; mkStroke true true 0x5A].


Lemma hi_is_read : session resting LAYOUT_US_QWERTY (concat (stroke_codes <$> hi)) 8 = Some ([104; 105; 10; 0; 0; 0; 0; 0], 3).
Proof. vm_compute. reflexivity. Qed.

(** The Turkish QWERTY layout never queues an event. *)
Lemma tr_qwerty_is_silent k mal c k' : ps2kbd_handler LAYOUT_TR_QWERTY k mal c = Some k' -> queue k' = queue k /\ nodes k' = nodes k.
Proof.
  destruct k as [u t f m [b|]]; cbn [ps2kbd_handler]; [|intros; by simplify_eq]. unfold __ps2kbd_tr_qwerty_handle. destruct (c =? 0xE0), (c =? 0xF0); cbn; intros; by simplify_eq.
Qed.

(** After start-up the first key that goes down counts as going up: ["h"] is lost. *)
Lemma first_key_is_lost : session layout_start LAYOUT_US_QWERTY (concat (stroke_codes <$> hi)) 8 = Some ([105; 10; 0; 0; 0; 0; 0; 0], 2).
Proof. vm_compute. reflexivity. Qed.

(** An extended code the layout does not know repeats the last key: the codes of print screen after ["a"] *)
Lemma print_screen_repeats : session resting LAYOUT_US_QWERTY [0x1C; 0xF0; 0x1C; 0xE0; 0x12; 0xE0; 0x7C] 8 = Some ([97; 97; 97; 0; 0; 0; 0; 0], 3).
Proof. vm_compute. reflexivity. Qed.

(** A key without a character, here F1, ends the line; the character behind it is gone. *)
Lemma function_key_ends_line : session resting LAYOUT_US_QWERTY [0x1C; 0x05; 0x32] 8 = Some ([97; 0; 98; 0; 0; 0; 0; 0], 1).
Proof. vm_compute. reflexivity. Qed.

(** A full buffer loses the character in its last place. *)
Lemma full_line_loses_one : (k ← interrupts LAYOUT_US_QWERTY alloc 0 [0x1C; 0x32; 0x21] (start resting);
  '(k, str, n) ← __readString k ps2_layer (zeros 2) 2; '(_, rest, n') ← __readString k ps2_layer (zeros 2) 2; Some (str, n, rest, n')) = Some ([97; 0], 1, [99; 0], 1).
Proof. vm_compute. reflexivity. Qed.

(** [readString] of the driver returns an empty line and loses a character. *)
Lemma driver_line_is_empty : (k ← interrupts LAYOUT_US_QWERTY alloc 0 [0x1C; 0x32] (start resting);
  '(m, self, str, n) ← ps2kbd_stream_readString (nodes k) (queue k) (zeros 4) 4; Some (str, n, buffer_count self)) = Some ([0; 0; 0; 0], 0, 1).
Proof. vm_compute. reflexivity. Qed.

(** A closed keyboard stream cannot be opened again. *)
Lemma close_is_final : snd <$> __close (start resting) ps2_layer = Some (mkLayer true false None) /\ snd (__open (mkLayer true false None) true) = -1.
Proof. done. Qed.

End Session.
