(* ===== verification/Gfx.v ===== *)
(** * Drawing and the screen ([kernel/graphics/gfx.c], [kernel/mouse/mouse.c])

    A pixel buffer holds its pixels in rows, three or four bytes each.  Buffer
    pointers are [option gfx_buffer] in the drawing functions ([None] is a null
    pointer, which they ignore); a store or a load outside of the pixels and
    a signed overflow are undefined behaviour, the outer [None].  Arithmetic on
    the [uint32_t] sizes wraps at 32 bits, on [size_t] at the size of the
    architecture.  The registered buffers, of which the first is shown, are the
    pointer list of [list.c]. *)

From S2P Require Import Prelude Bytes Lists.

Record gfx_buffer := mkBuf {
  gb_width : Z;
  gb_height : Z;
  gb_buffer : bytes;
  gb_bpp : Z;
  drawBeginLineIndex : Z;
  isDirty : bool;
  suppress_draw : bool;
  gb_position : Z * Z
}.

Inductive gfx_font_type := GFX_FONT_BITMAP | GFX_FONT_VECTOR | GFX_FONT_PSF | GFX_FONT_TTF | GFX_FONT_OTF.

Record gfx_font := mkFont { gf_width : Z; gf_height : Z; gf_glyphs : bytes; gf_type : gfx_font_type }.

(** A colour is its [argb] word. *)
Definition alpha (c : Z) : Z := Z.land (Z.shiftr c 24) 255.

(** The result of an [int] expression; an overflow is undefined. *)
Definition ckint (z : Z) : option Z := if (- 2 ^ 31 <=? z) && (z <? 2 ^ 31) then Some z else None.

Definition abs (x : Z) : option Z := if x <? 0 then ckint (- x) else Some x.

(** [for] over the values of the loop variable. *)
Fixpoint for_each {X S : Type} (xs : list X) (body : X -> S -> option S) (s : S) : option S :=
  match xs with
  | [] => Some s
  | x :: xs => s ← body x s; for_each xs body s
  end.

Definition set_pixels (b : gfx_buffer) (mem : bytes) (dirty : bool) : gfx_buffer :=
  mkBuf (gb_width b) (gb_height b) mem (gb_bpp b) (drawBeginLineIndex b) dirty (suppress_draw b) (gb_position b).

Section Draw.
Implicit Types (buffer : option gfx_buffer) (x y color : Z).

Definition gfx_draw_pixel buffer x y color : option (option gfx_buffer) :=
  if alpha color =? 0 then Some buffer else
  match buffer with
  | None => Some None
  | Some b =>
    if (sign_of 32 (gb_width b) <=? x) || (sign_of 32 (gb_height b) <=? y) then Some buffer else
    if (x <? 0) || (y <? 0) then Some buffer else
    let pixel := ((y *[32] gb_width b) +[32] x) *[32] (gb_bpp b / 8) in
    mem ← (if gb_bpp b =? 32 then put_bytes (gb_buffer b) pixel (le_bytes 4 color)
           else if gb_bpp b =? 24 then put_bytes (gb_buffer b) pixel (le_bytes 3 color)
           else Some (gb_buffer b));
    Some (Some (set_pixels b mem true))
  end.

(** A call whose coordinates are [int] expressions. *)
Definition pixel_at x y color buffer : option (option gfx_buffer) :=
  x ← ckint x; y ← ckint y; gfx_draw_pixel buffer x y color.

Definition draw_points (pts : list (Z * Z)) color buffer : option (option gfx_buffer) :=
  for_each pts (fun p => pixel_at p.1 p.2 color) buffer.

Fixpoint bresenham_loop (fuel : nat) (x2 y2 dx dy sx sy color : Z) (err x1 y1 : Z) buffer : option (option gfx_buffer) :=
  match fuel with
  | O => None
  | S fuel =>
    buffer ← gfx_draw_pixel buffer x1 y1 color;
    if (x1 =? x2) && (y1 =? y2) then Some buffer else
    err2 ← ckint (err * 2);
    '(err, x1) ← (if - dy <? err2 then e ← ckint (err - dy); x ← ckint (x1 + sx); Some (e, x) else Some (err, x1));
    '(err, y1) ← (if err2 <? dx then e ← ckint (err + dx); y ← ckint (y1 + sy); Some (e, y) else Some (err, y1));
    bresenham_loop fuel x2 y2 dx dy sx sy color err x1 y1 buffer
  end.

(** Every round but the last moves towards the end in [x] or in [y]. *)
Definition gfx_draw_line buffer (x1 y1 x2 y2 color : Z) : option (option gfx_buffer) :=
  match buffer with
  | None => Some None
  | Some _ =>
    dx ← (d ← ckint (x2 - x1); abs d);
    dy ← (d ← ckint (y2 - y1); abs d);
    let sx := if x1 <? x2 then 1 else -1 in
    let sy := if y1 <? y2 then 1 else -1 in
    err ← ckint (dx - dy);
    bresenham_loop (Z.to_nat (dx + dy + 1)) x2 y2 dx dy sx sy color err x1 y1 buffer
  end.

Definition gfx_draw_rectangle buffer (x y width height color : Z) : option (option gfx_buffer) :=
  match buffer with
  | None => Some None
  | Some _ =>
    r ← (w ← ckint (x + width); ckint (w - 1));
    buffer ← gfx_draw_line buffer x y r y color;
    b ← (h ← ckint (y + height); ckint (h - 1));
    buffer ← gfx_draw_line buffer r y r b color;
    buffer ← gfx_draw_line buffer r b x b color;
    gfx_draw_line buffer x b x y color
  end.

Definition gfx_fill_rectangle buffer (x y width height color : Z) : option (option gfx_buffer) :=
  match buffer with
  | None => Some None
  | Some _ =>
    for_each (seqZ 0 height) (fun i => for_each (seqZ 0 width) (fun j => pixel_at (x + j) (y + i) color)) buffer
  end.

(** The midpoint step shared by the two circle loops: [f], [ddF_x], [ddF_y],
    [x1], [y1] after a round. *)
Definition circle_step (s : Z * Z * Z * Z * Z) : option (Z * Z * Z * Z * Z) :=
  let '(f, ddF_x, ddF_y, x1, y1) := s in
  '(f, ddF_y, y1) ← (if 0 <=? f then y1 ← ckint (y1 - 1); d ← ckint (ddF_y + 2); f ← ckint (f + d); Some (f, d, y1)
                     else Some (f, ddF_y, y1));
  x1 ← ckint (x1 + 1); d ← ckint (ddF_x + 2); f ← ckint (f + d);
  Some (f, d, ddF_y, x1, y1).

(** [while (x1 < y1)] with the drawing of the round as an argument; [x1]
    grows by one and [y1] does not grow. *)
Fixpoint circle_loop (fuel : nat) (draw : Z -> Z -> option gfx_buffer -> option (option gfx_buffer))
    (s : Z * Z * Z * Z * Z) buffer : option (option gfx_buffer) :=
  match fuel with
  | O => None
  | S fuel =>
    let '(_, _, _, x1, y1) := s in
    if x1 <? y1
    then s ← circle_step s; let '(_, _, _, x1, y1) := s in buffer ← draw x1 y1 buffer; circle_loop fuel draw s buffer
    else Some buffer
  end.

Definition octants (x y x1 y1 : Z) : list (Z * Z) :=
  [(x + x1, y + y1); (x - x1, y + y1); (x + x1, y - y1); (x - x1, y - y1);
   (x + y1, y + x1); (x - y1, y + x1); (x + y1, y - x1); (x - y1, y - x1)].

Definition gfx_draw_circle buffer (x y radius color : Z) : option (option gfx_buffer) :=
  match buffer with
  | None => Some None
  | Some _ =>
    if radius <=? 0 then Some buffer else
    f ← ckint (1 - radius); d ← ckint (-2 * radius);
    buffer ← draw_points [(x, y + radius); (x, y - radius); (x + radius, y); (x - radius, y)] color buffer;
    circle_loop (S (Z.to_nat radius)) (fun x1 y1 => draw_points (octants x y x1 y1) color) (f, 1, d, 0, radius) buffer
  end.

(** [for (i = -n; i <= n; i++)] *)
Definition span (n : Z) : list Z := seqZ (- n) (2 * n + 1).

Definition gfx_fill_circle buffer (x y radius color : Z) : option (option gfx_buffer) :=
  match buffer with
  | None => Some None
  | Some _ =>
    if radius <=? 0 then Some buffer else
    f ← ckint (1 - radius); d ← ckint (-2 * radius);
    buffer ← for_each (span radius) (fun i => draw_points [(x + i, y + radius); (x + i, y - radius)] color) buffer;
    circle_loop (S (Z.to_nat radius)) (fun x1 y1 buffer =>
        buffer ← for_each (span x1) (fun i => draw_points [(x + i, y + y1); (x + i, y - y1)] color) buffer;
        for_each (span y1) (fun i => draw_points [(x + x1, y + i); (x - x1, y + i)] color) buffer)
      (f, 1, d, 0, radius) buffer
  end.

Definition gfx_draw_triangle buffer (x1 y1 x2 y2 x3 y3 color : Z) : option (option gfx_buffer) :=
  match buffer with
  | None => Some None
  | Some _ =>
    buffer ← gfx_draw_line buffer x1 y1 x2 y2 color;
    buffer ← gfx_draw_line buffer x2 y2 x3 y3 color;
    gfx_draw_line buffer x3 y3 x1 y1 color
  end.

(** [1 << n] for an unsigned [n]; shifting into or past the sign bit is undefined. *)
Definition int_bit (n : Z) : option Z := if n <? 31 then Some (Z.shiftl 1 n) else None.

Definition gfx_draw_char buffer (x y c color : Z) (font : option gfx_font) : option (option gfx_buffer) :=
  match buffer, font with
  | Some b, Some fnt =>
    if (x <? 0) || (y <? 0) then Some buffer else
    if (gb_width b <? x +[32] gf_width fnt) || (gb_height b <? y +[32] gf_height fnt) then Some buffer else
    let char_index := wrap 8 c in
    if 127 <? char_index then Some buffer else
    match gf_type fnt with
    | GFX_FONT_BITMAP =>
      for_each (seqZ 0 (sign_of 32 (gf_height fnt))) (fun row buffer =>
        bitmap_row ← gf_glyphs fnt !! Z.to_nat (char_index * gf_height fnt + row);
        for_each (seqZ 0 (sign_of 32 (gf_width fnt))) (fun col buffer =>
          bit ← int_bit (wrap 32 (gf_width fnt - 1 - col));
          if Z.land bitmap_row bit =? 0 then Some buffer else pixel_at (x + col) (y + row) color buffer) buffer) buffer
    | _ => Some buffer
    end
  | _, _ => Some buffer
  end.

(** The string is given by its characters up to the terminator. *)
Fixpoint text_loop (text : bytes) (i : Z) (x y color : Z) (fnt : gfx_font) buffer : option (option gfx_buffer) :=
  match text with
  | [] => Some buffer
  | c :: text =>
    buffer ← gfx_draw_char buffer (sign_of 32 (x +[32] (i *[32] gf_width fnt))) y c color (Some fnt);
    i ← ckint (i + 1);
    text_loop text i x y color fnt buffer
  end.

Definition gfx_draw_text buffer (x y : Z) (text : option bytes) (color : Z) (font : option gfx_font)
    : option (option gfx_buffer) :=
  match buffer, text, font with
  | Some _, Some text, Some fnt =>
    if (x <? 0) || (y <? 0) then Some buffer else text_loop text 0 x y color fnt buffer
  | _, _, _ => Some buffer
  end.

Definition gfx_clear_buffer buffer (color : Z) : option (option gfx_buffer) :=
  match buffer with
  | None => Some None
  | Some b =>
    for_each (seqZ 0 (gb_height b)) (fun y => for_each (seqZ 0 (gb_width b)) (fun x buffer =>
      gfx_draw_pixel buffer (sign_of 32 x) (sign_of 32 y) color)) buffer
  end.

End Draw.

(** ** The screen *)

Record Gfx := mkGfx {
  list_nodes : nodes;               (* the nodes of [gfx_buffers] *)
  gfx_buffers : option List;
  gfx_buffers_busy : bool;
  buffer_objects : gmap Z gfx_buffer;
  hardware_buffer : Z;
  screen_buffer : Z
}.

(** [mouse.c]'s variables. *)
Record Mouse := mkMouse { mouse_enabled : bool; cursor_X : Z; cursor_Y : Z }.

(** [main_screen.mode], as far as [gfx.c] reads it; the frame buffer itself is
    the memory the mode names. *)
Record ScreenMode := mkMode { sm_width : Z; sm_height : Z; sm_bpp : Z; sm_framebuffer : bytes }.

Section Screen.
Context `{A : Arch}.
Implicit Types g : Gfx.

Definition gfx_draw_bitmap (buffer : option gfx_buffer) (x y : Z) (bitmap : option bytes) (width height : Z)
    : option (option gfx_buffer) :=
  match buffer, bitmap with
  | Some b, Some src =>
    if (x <? 0) || (y <? 0) || (gb_width b <? x +[size_bits] width) || (gb_height b <? y +[size_bits] height)
    then Some buffer else
    for_each (seqZ 0 height) (fun j => for_each (seqZ 0 width) (fun i buffer =>
      pixel_color ← le_at 4 src ((wrap size_bits (j * width + i)) *[size_bits] 4);
      gfx_draw_pixel buffer (sign_of 32 (x + i)) (sign_of 32 (y + j)) pixel_color)) buffer
  | _, _ => Some buffer
  end.

Definition with_list g (m : nodes) (l : option List) (busy : bool) : Gfx :=
  mkGfx m l busy (buffer_objects g) (hardware_buffer g) (screen_buffer g).

Definition with_object g (p : Z) (b : gfx_buffer) : Gfx :=
  mkGfx (list_nodes g) (gfx_buffers g) (gfx_buffers_busy g) (<[p := b]> (buffer_objects g)) (hardware_buffer g) (screen_buffer g).

Definition gfx_screen_has_buffer g (buffer : Z) : option bool :=
  match gfx_buffers g with
  | None => Some false
  | Some _ => i ← List_IndexOf (list_nodes g) (gfx_buffers g) buffer; Some (negb (i =? -1))
  end.

Definition gfx_screen_register_buffer g (buffer : Z) (mal : option Z) : option Gfx :=
  has ← gfx_screen_has_buffer g buffer;
  if has : bool then Some (with_list g (list_nodes g) (gfx_buffers g) false) else
  '(m, l, _) ← List_InsertAt (list_nodes g) (gfx_buffers g) 0 buffer mal;
  Some (with_list g m l false).

Definition gfx_screen_unregister_buffer g (buffer : Z) : option Gfx :=
  has ← gfx_screen_has_buffer g buffer;
  if has : bool
  then '(m, l, _) ← List_Remove (list_nodes g) (gfx_buffers g) buffer; Some (with_list g m l false)
  else Some (with_list g (list_nodes g) (gfx_buffers g) false).

(** [objects] is the address and the previous contents of [isDirty], which is
    not assigned, of the object [malloc] returned, [mem] the memory for the
    pixels; when one is missing the processor is halted. *)
Definition gfx_create_buffer g (width height : Z) (object : option (Z * bool)) (mem : Z -> option bytes) : option (Gfx * Z) :=
  match gfx_buffers g with
  | None => None
  | Some _ =>
    '(p, dirty) ← object;
    mem ← mem (width * height *[size_bits] 4);
    Some (with_object g p (mkBuf (wrap 32 width) (wrap 32 height) mem 32 0 dirty false (0, 0)), p)
  end.

(** The pixels and the object are freed; [List_Remove] removes the first occurrence. *)
Definition gfx_destroy_buffer g (buffer : Z) : option Gfx :=
  if buffer =? NULL then Some g else
  _ ← buffer_objects g !! buffer;
  '(m, l, _) ← List_Remove (list_nodes g) (gfx_buffers g) buffer;
  Some (mkGfx m l (gfx_buffers_busy g) (delete buffer (buffer_objects g)) (hardware_buffer g) (screen_buffer g)).

(** [memcpy] between the pixels of two buffers. *)
Definition copy_pixels (dst : bytes) (d : Z) (src : bytes) (s n : Z) : option bytes :=
  bs ← sub_bytes src s n; put_bytes dst d bs.

Definition gfx_draw_bpp32 g : option Gfx :=
  p ← List_GetAt (list_nodes g) (gfx_buffers g) 0;
  if p =? NULL then Some g else
  buffer ← buffer_objects g !! p;
  if (gb_width buffer =? 0) || (gb_height buffer =? 0) then Some g else
  hw ← buffer_objects g !! hardware_buffer g;
  let copy_width := if gb_width buffer <? gb_width hw then gb_width buffer else gb_width hw in
  let copy_height := if gb_height buffer <? gb_height hw then gb_height buffer else gb_height hw in
  mem ←
    (if (gb_bpp buffer =? gb_bpp hw) && (gb_width buffer =? gb_width hw) && (gb_height buffer =? gb_height hw)
         && (drawBeginLineIndex buffer =? 0)
     then copy_pixels (gb_buffer hw) 0 (gb_buffer buffer) 0 ((gb_width buffer *[32] gb_height buffer) *[size_bits] 4)
     else
       let dst_pitch := gb_width hw *[size_bits] 4 in
       let src_pitch := gb_width buffer *[size_bits] 4 in
       for_each (seqZ 0 copy_height) (fun y mem =>
         let src_y := drawBeginLineIndex buffer +[size_bits] y in
         let src_y := if gb_height buffer <=? src_y then src_y mod gb_height buffer else src_y in
         copy_pixels mem (y *[size_bits] dst_pitch) (gb_buffer buffer) (src_y *[size_bits] src_pitch) (copy_width *[size_bits] 4))
         (gb_buffer hw));
  Some (with_object g (hardware_buffer g) (set_pixels hw mem (isDirty hw))).

Definition gfx_draw_bpp24 g : option Gfx :=
  p ← List_GetAt (list_nodes g) (gfx_buffers g) 0;
  if p =? NULL then Some g else
  buffer ← buffer_objects g !! p;
  if (gb_width buffer =? 0) || (gb_height buffer =? 0) then Some g else
  hw ← buffer_objects g !! hardware_buffer g;
  let copy_width := if gb_width buffer <? gb_width hw then gb_width buffer else gb_width hw in
  let copy_height := if gb_height buffer <? gb_height hw then gb_height buffer else gb_height hw in
  mem ← for_each (seqZ 0 copy_height) (fun y mem =>
      let src_y := drawBeginLineIndex buffer +[size_bits] y in
      let src_y := if gb_height buffer <=? src_y then src_y mod gb_height buffer else src_y in
      for_each (seqZ 0 copy_width) (fun x mem =>
        pixel ← le_at 4 (gb_buffer buffer) (wrap size_bits (src_y * gb_width buffer + x) *[size_bits] 4);
        let fb_index := (wrap size_bits (y * gb_width hw + x)) *[size_bits] 3 in
        put_bytes mem fb_index (le_bytes 3 pixel)) mem) (gb_buffer hw);
  Some (with_object g (hardware_buffer g) (set_pixels hw mem (isDirty hw))).

Definition T : Z := 0.
Definition B : Z := 0xFF000000.
Definition W : Z := 0xFFFFFFFF.

Definition full_cursor_bitmap : list Z :=
  [B; B; T; T; T; T; T; T; T; T; T; T; T;
   B; W; B; T; T; T; T; T; T; T; T; T; T;
   B; W; W; B; T; T; T; T; T; T; T; T; T;
   B; W; W; W; B; T; T; T; T; T; T; T; T;
   B; W; W; W; W; B; T; T; T; T; T; T; T;
   B; W; W; W; W; W; B; T; T; T; T; T; T;
   B; W; W; W; W; W; W; B; T; T; T; T; T;
   B; W; W; W; W; W; W; W; B; T; T; T; T;
   B; W; W; W; W; W; W; W; W; B; T; T; T;
   B; W; W; W; W; W; W; W; W; W; B; T; T;
   B; W; W; W; W; W; W; W; W; W; W; B; T;
   B; W; W; W; W; W; W; B; B; B; B; B; T;
   B; W; W; W; B; W; W; B; T; T; T; T; T;
   B; W; W; B; T; B; W; W; B; T; T; T; T;
   B; W; B; T; T; B; W; W; B; T; T; T; T;
   B; B; T; T; T; T; B; W; W; B; T; T; T;
   T; T; T; T; T; T; B; W; W; B; T; T; T;
   T; T; T; T; T; T; T; B; B; T; T; T; T].

Definition __mouse_draw (mouse : Mouse) g : option Gfx :=
  if negb (mouse_enabled mouse) || (hardware_buffer g =? NULL) then Some g else
  hw ← buffer_objects g !! hardware_buffer g;
  hw ← gfx_draw_bitmap (Some hw) (cursor_X mouse) (cursor_Y mouse) (Some (mjoin (le_bytes 4 <$> full_cursor_bitmap))) 13 18;
  hw ← hw;
  Some (with_object g (hardware_buffer g) hw).

Definition gfx_draw_task (mode : ScreenMode) (mouse : Mouse) g : option Gfx :=
  if gfx_buffers_busy g then Some g else
  match gfx_buffers g with
  | None => Some g
  | Some _ =>
    if List_IsEmpty (gfx_buffers g) then __mouse_draw mouse g else
    p ← List_GetAt (list_nodes g) (gfx_buffers g) 0;
    suppressed ← (if p =? NULL then Some false else b ← buffer_objects g !! p; Some (suppress_draw b));
    if suppressed : bool then Some g else
    g ← (if sm_bpp mode =? 32 then gfx_draw_bpp32 g else if sm_bpp mode =? 24 then gfx_draw_bpp24 g else Some g);
    __mouse_draw mouse g
  end.

(** [mem n] is the block of [n] bytes [malloc] returned, with whatever it holds. *)
Definition gfx_resize_buffer (buffer : option gfx_buffer) (newWidth newHeight : Z) (mem : Z -> option bytes)
    : option (option gfx_buffer * bool) :=
  match buffer with
  | None => Some (buffer, false)
  | Some b =>
    if (newWidth =? 0) || (newHeight =? 0) then Some (buffer, false) else
    let px := gb_bpp b / 8 in
    match mem (newWidth * newHeight *[size_bits] px) with
    | None => Some (buffer, false)
    | Some newBuffer =>
      let copyWidth := if newWidth <? gb_width b then newWidth else gb_width b in
      let copyHeight := if newHeight <? gb_height b then newHeight else gb_height b in
      mem ← for_each (seqZ 0 copyHeight) (fun y mem =>
        copy_pixels mem (y * newWidth *[size_bits] px) (gb_buffer b) (y * gb_width b *[size_bits] px) (copyWidth *[size_bits] px))
        newBuffer;
      Some (Some (mkBuf (wrap 32 newWidth) (wrap 32 newHeight) mem (gb_bpp b) (drawBeginLineIndex b) true
                    (suppress_draw b) (gb_position b)), true)
    end
  end.

(** [object], [list] and [fresh] are what [malloc] and [List_Create] return. *)
Definition gfx_init (mode : ScreenMode) (g : Gfx) (object : option Z) (list : option List) (buf : option (Z * bool))
    (mem : Z -> option bytes) (node : option Z) : option Gfx :=
  hw ← object;
  let b := mkBuf (wrap 32 (sm_width mode)) (wrap 32 (sm_height mode)) (sm_framebuffer mode) (wrap 32 (sm_bpp mode)) 0 true false (0, 0) in
  let g := mkGfx (list_nodes g) (List_Create list) (gfx_buffers_busy g) (<[hw := b]> (buffer_objects g)) hw (screen_buffer g) in
  '(g, sb) ← gfx_create_buffer g (sm_width mode) (sm_height mode) buf mem;
  b ← buffer_objects g !! sb;
  b ← gfx_clear_buffer (Some b) 0xFF000000;
  b ← b;
  let g := with_object g sb b in
  let g := mkGfx (list_nodes g) (gfx_buffers g) (gfx_buffers_busy g) (buffer_objects g) (hardware_buffer g) sb in
  gfx_screen_register_buffer g sb node.

End Screen.
