(* ===== verification/GfxSpec.v ===== *)
(** * What the drawing functions paint ([kernel/graphics/gfx.c])

    A buffer is well formed when its memory holds its rows.  Every drawing
    function on a well-formed buffer returns and changes exactly the visible
    pixels it is meant to; [overlay b b' f] says so for the colours [f] lays
    over [b].  Lines are traced pixel by pixel between their end points within
    half a pixel of the true line, circles within half a pixel of the true
    circle; the screen shows the first registered buffer from its first line
    on, under the cursor. *)

From S2P Require Import Prelude Bytes Lists Gfx.

(** ** Bytes *)

Lemma put_bytes_spec buf off bs : 0 <= off -> off + zlen bs <= zlen buf ->
  exists buf', put_bytes buf off bs = Some buf' /\ zlen buf' = zlen buf /\ sub_bytes buf' off (zlen bs) = Some bs /\
    forall o n, o + n <= off \/ off + zlen bs <= o -> sub_bytes buf' o n = sub_bytes buf o n.
Proof.
  intros Ho Hl. pose proof (zlen_nonneg bs). unfold put_bytes. rewrite (proj2 (Z.leb_le _ _)), (proj2 (Z.leb_le _ _)) by lia. cbn [andb].
  set (a := take (Z.to_nat off) buf). set (c := drop _ buf). exists (a ++ bs ++ c). split; [done|].
  assert (zlen a = off) as Ea by (unfold a; rewrite zlen_take; lia).
  assert (zlen c = zlen buf - (off + zlen bs)) as Ec by (unfold c; rewrite zlen_drop; lia).
  split; [rewrite !zlen_app; lia|]. split; [rewrite <- Ea at 1; apply sub_bytes_app|].
  intros o n Hd. unfold sub_bytes. rewrite !zlen_app. replace (zlen a + (zlen bs + zlen c)) with (zlen buf) by lia.
  destruct ((0 <=? o) && (0 <=? n) && (o + n <=? zlen buf)) eqn:E; [|done]. repeat (apply andb_prop in E as [E ?]). apply Z.leb_le in E.
  apply Z.leb_le in H0, H1. f_equal. unfold zlen in *. destruct Hd as [Hd|Hd].
  - rewrite drop_app_le by lia. rewrite take_app_le by (rewrite length_drop; lia). unfold a.
    rewrite <- (take_drop (Z.to_nat off) buf) at 2. rewrite drop_app_le, take_app_le by (rewrite ?length_drop, ?length_take; lia). done.
  - rewrite app_assoc, drop_app_ge by (rewrite length_app; lia). unfold c. rewrite drop_drop. f_equal. f_equal. rewrite length_app. lia.
Qed.

Lemma put_le_spec buf off k c : 0 <= off -> off + Z.of_nat k <= zlen buf ->
  exists buf', put_bytes buf off (le_bytes k c) = Some buf' /\ zlen buf' = zlen buf /\
    le_at (Z.of_nat k) buf' off = Some (c mod 256 ^ Z.of_nat k) /\
    forall o n, o + n <= off \/ off + Z.of_nat k <= o -> le_at n buf' o = le_at n buf o.
Proof.
  intros Ho Hl. destruct (put_bytes_spec buf off (le_bytes k c) Ho) as (buf' & E1 & E2 & E3 & E4); [by rewrite zlen_le_bytes|].
  rewrite zlen_le_bytes in E3, E4. exists buf'. split; [done|]. split; [done|]. unfold le_at. rewrite E3. cbn. rewrite le_le_bytes. split; [done|].
  intros o n Hd. by rewrite E4.
Qed.

(** ** Loops *)

Lemma for_each_app {X S} (xs ys : list X) (f : X -> S -> option S) s :
  for_each (xs ++ ys) f s = (s ← for_each xs f s; for_each ys f s).
Proof. revert s. induction xs as [|x xs IH]; intros s; [done|]. cbn. destruct (f x s); [|done]. cbn. apply IH. Qed.

(** ** Buffers, their pixels, and painting *)

Definition px (b : gfx_buffer) : Z := gb_bpp b / 8.

Record gfx_wf (b : gfx_buffer) : Prop := {
  wf_bpp : gb_bpp b = 32 \/ gb_bpp b = 24;
  wf_width : 0 <= gb_width b < 2 ^ 31;
  wf_height : 0 <= gb_height b < 2 ^ 31;
  wf_room : gb_width b * gb_height b * px b < 2 ^ 32;
  wf_mem : gb_width b * gb_height b * px b <= zlen (gb_buffer b)
}.

Definition pixel (b : gfx_buffer) (x y : Z) : option Z := le_at (px b) (gb_buffer b) ((y * gb_width b + x) * px b).

Definition visible (b : gfx_buffer) (x y : Z) : Prop := 0 <= x < gb_width b /\ 0 <= y < gb_height b.

(** Only the pixels and the dirty flag may differ. *)
Definition same_shape (b b' : gfx_buffer) : Prop :=
  b' = set_pixels b (gb_buffer b') (isDirty b') /\ zlen (gb_buffer b') = zlen (gb_buffer b).

(** The pixels of [b'] are those of [b] under the colours of [f]. *)
Definition overlay (b b' : gfx_buffer) (f : Z -> Z -> option Z) : Prop :=
  same_shape b b' /\ forall u v, visible b u v ->
    pixel b' u v = match f u v with Some c => Some (c mod 256 ^ px b) | None => pixel b u v end.

(** [f] draws [pic] on every well-formed buffer of the shape of [b]. *)
Definition paints (b : gfx_buffer) (f : option gfx_buffer -> option (option gfx_buffer)) (pic : Z -> Z -> option Z) : Prop :=
  forall b0, same_shape b b0 -> exists b1, f (Some b0) = Some (Some b1) /\ overlay b0 b1 pic.

(** Transparent colours leave no mark. *)
Definition ink (c : Z) : option Z := if alpha c =? 0 then None else Some c.

Definition ink_at (pts : list (Z * Z)) (c : Z) (u v : Z) : option Z :=
  if decide ((u, v) ∈ pts) then ink c else None.

Lemma wf_px b : gfx_wf b -> px b = 4 /\ gb_bpp b = 32 \/ px b = 3 /\ gb_bpp b = 24.
Proof. intros [[E|E] _ _ _ _]; unfold px; rewrite E; [left|right]; done. Qed.

Lemma same_shape_refl b : same_shape b b.
Proof. split; [|done]. by destruct b. Qed.

Lemma same_shape_eq b b' : same_shape b b' ->
  gb_width b' = gb_width b /\ gb_height b' = gb_height b /\ gb_bpp b' = gb_bpp b /\
  drawBeginLineIndex b' = drawBeginLineIndex b /\ suppress_draw b' = suppress_draw b /\ gb_position b' = gb_position b /\
  zlen (gb_buffer b') = zlen (gb_buffer b).
Proof. intros [E El]. rewrite E. unfold set_pixels. cbn. by rewrite El. Qed.

Lemma same_shape_trans b b1 b2 : same_shape b b1 -> same_shape b1 b2 -> same_shape b b2.
Proof. intros [E1 L1] [E2 L2]. split; [|congruence]. rewrite E1 in E2. by destruct b2. Qed.

Lemma same_shape_wf b b' : same_shape b b' -> gfx_wf b -> gfx_wf b'.
Proof.
  intros (E1 & E2 & E3 & _ & _ & _ & E4)%same_shape_eq [W1 W2 W3 W4 W5]. unfold px in *. split; unfold px; rewrite ?E1, ?E2, ?E3, ?E4; done.
Qed.

Lemma same_shape_visible b b' u v : same_shape b b' -> visible b' u v <-> visible b u v.
Proof. intros (E1 & E2 & _)%same_shape_eq. unfold visible. by rewrite E1, E2. Qed.

Lemma same_shape_px b b' : same_shape b b' -> px b' = px b.
Proof. intros (_ & _ & E & _)%same_shape_eq. unfold px. by rewrite E. Qed.

Lemma overlay_refl b : overlay b b (fun _ _ => None).
Proof. split; [apply same_shape_refl|done]. Qed.

Lemma overlay_trans b b1 b2 f g : overlay b b1 f -> overlay b1 b2 g ->
  overlay b b2 (fun u v => match g u v with Some c => Some c | None => f u v end).
Proof.
  intros [S1 H1] [S2 H2]. split; [by eapply same_shape_trans|]. intros u v Hv. rewrite H2 by by apply (same_shape_visible b b1).
  rewrite (same_shape_px b b1 S1). destruct (g u v); [done|]. by apply H1.
Qed.

Lemma overlay_ext b b' f g : overlay b b' f -> (forall u v, visible b u v -> f u v = g u v) -> overlay b b' g.
Proof. intros [S H] E. split; [done|]. intros u v Hv. by rewrite <- E, H. Qed.

Lemma paints_app b f g p q : paints b f p -> paints b g q ->
  paints b (fun x => y ← f x; g y) (fun u v => match q u v with Some c => Some c | None => p u v end).
Proof.
  intros Hf Hg b0 S0. destruct (Hf b0 S0) as (b1 & -> & O1). cbn. destruct (Hg b1) as (b2 & -> & O2).
  { eapply same_shape_trans; [exact S0|apply O1]. }
  exists b2. split; [done|]. by eapply overlay_trans.
Qed.

Lemma paints_none b : paints b Some (fun _ _ => None).
Proof. intros b0 _. exists b0. split; [done|apply overlay_refl]. Qed.

Lemma paints_ext b f g p q : paints b f p -> (forall x, g (Some x) = f (Some x)) -> (forall u v, visible b u v -> p u v = q u v) -> paints b g q.
Proof.
  intros H E Eq b0 S0. destruct (H b0 S0) as (b1 & E1 & O1). exists b1. rewrite E. split; [done|]. eapply overlay_ext; [exact O1|].
  intros u v Hv. apply Eq. by apply (same_shape_visible b b0).
Qed.

(** ** One pixel *)

Lemma index_range w h x y : 0 <= x < w -> 0 <= y < h -> 0 <= y * w + x < w * h.
Proof. nia. Qed.

Lemma index_inj w x y u v : 0 <= x < w -> 0 <= u < w -> y * w + x = v * w + u -> x = u /\ y = v.
Proof.
  intros Hx Hu E. assert ((y * w + x) / w = (v * w + u) / w) as Ey by by rewrite E.
  rewrite !Z.div_add_l, !Z.div_small in Ey by lia. split; [|lia]. assert (y = v) by lia. subst v. lia.
Qed.

Lemma sign_of_small x : 0 <= x < 2 ^ 31 -> sign_of 32 x = x.
Proof. intros Hx. unfold sign_of. unfold wrap. rewrite Z.mod_small by lia. change (2 ^ (32 - 1)) with (2 ^ 31). destruct (Z.ltb_spec x (2 ^ 31)); lia. Qed.

Lemma store_pixel b x y c : gfx_wf b -> visible b x y ->
  exists mem, put_bytes (gb_buffer b) ((y * gb_width b + x) * px b) (le_bytes (Z.to_nat (px b)) c) = Some mem /\
    forall d, overlay b (set_pixels b mem d) (fun u v => if decide ((u, v) = (x, y)) then Some c else None).
Proof.
  intros Hwf [Hx Hy]. pose proof (index_range _ _ _ _ Hx Hy) as Hi. destruct (wf_px b Hwf) as [[Ep _]|[Ep _]];
  (destruct (put_le_spec (gb_buffer b) ((y * gb_width b + x) * px b) (Z.to_nat (px b)) c) as (mem & E1 & E2 & E3 & E4);
   [nia|pose proof (wf_mem b Hwf); rewrite Ep in *; nia|];
   exists mem; split; [done|]; intros d; split; [split; done|];
   intros u v [Hu Hv]; unfold pixel, px; cbn [gb_bpp gb_width gb_buffer set_pixels]; fold (px b);
   rewrite Z2Nat.id in * by lia; case_decide as Hd;
   [injection Hd as -> ->; by rewrite E3
   |apply E4; destruct (Z.lt_trichotomy (v * gb_width b + u) (y * gb_width b + x)) as [Hlt|[Heq|Hgt]];
    [left; rewrite Ep; lia|apply (index_inj _ _ _ _ _ Hu Hx) in Heq as [-> ->]; done|right; rewrite Ep; lia]]).
Qed.

Lemma pixel_offset b x y : gfx_wf b -> visible b x y ->
  ((y *[32] gb_width b) +[32] x) *[32] (gb_bpp b / 8) = (y * gb_width b + x) * px b.
Proof.
  intros Hwf [Hx Hy]. pose proof (index_range _ _ _ _ Hx Hy) as Hi. fold (px b). pose proof (wf_room b Hwf) as Hr.
  destruct (wf_px b Hwf) as [[Ep _]|[Ep _]]; rewrite Ep in *; unfold wrap; rewrite (Z.mod_small (y * _)) by nia;
    rewrite (Z.mod_small (_ + x)) by nia; apply Z.mod_small; nia.
Qed.

(** [gfx_draw_pixel] paints its pixel when it is visible and the colour is not transparent. *)
Lemma gfx_draw_pixel_paints b x y c : gfx_wf b ->
  paints b (fun d => gfx_draw_pixel d x y c) (ink_at [(x, y)] c).
Proof.
  intros Hwf0 b0 S0. pose proof (same_shape_wf _ _ S0 Hwf0) as Hwf. unfold gfx_draw_pixel, ink_at, ink. destruct (alpha c =? 0).
  { exists b0. split; [done|]. eapply overlay_ext; [apply overlay_refl|]. intros. cbn. by case_decide. }
  rewrite !sign_of_small by apply Hwf.
  assert (~ visible b0 x y -> exists b1, Some (Some b0) = Some (Some b1) /\
    overlay b0 b1 (fun u v => if decide ((u, v) ∈ [(x, y)]) then Some c else None)) as Hout.
  { intros Hn. exists b0. split; [done|]. eapply overlay_ext; [apply overlay_refl|]. intros u v Hv. cbn. case_decide as Hd; [|done].
    apply list_elem_of_singleton in Hd. by simplify_eq. }
  destruct (Z.leb_spec (gb_width b0) x); cbn [orb]; [apply Hout; unfold visible; lia|].
  destruct (Z.leb_spec (gb_height b0) y); cbn [orb]; [apply Hout; unfold visible; lia|].
  destruct (Z.ltb_spec x 0); cbn [orb]; [apply Hout; unfold visible; lia|].
  destruct (Z.ltb_spec y 0); cbn [orb]; [apply Hout; unfold visible; lia|]. cbv zeta.
  assert (visible b0 x y) as Hv by (unfold visible; lia). rewrite pixel_offset by done.
  destruct (store_pixel b0 x y c Hwf Hv) as (mem & E & O).
  assert (overlay b0 (set_pixels b0 mem true) (fun u v => if decide ((u, v) ∈ [(x, y)]) then Some c else None)) as O'.
  { eapply overlay_ext; [apply O|]. intros u v _. cbn. destruct (decide ((u, v) = (x, y))) as [->|Hd], (decide _) as [Hp|Hp]; try done; set_solver. }
  exists (set_pixels b0 mem true). destruct (wf_px b0 Hwf) as [[Ep Eb]|[Ep Eb]]; rewrite Ep in E |- *; rewrite Eb; cbn [Z.eqb Pos.eqb];
    cbv [Z.to_nat Pos.to_nat Pos.iter_op Nat.add] in E; by rewrite E.
Qed.

(** ** Sequences of pixels *)

Definition int_range (z : Z) : Prop := - 2 ^ 31 <= z < 2 ^ 31.

Lemma ckint_ok z : int_range z -> ckint z = Some z.
Proof. intros [H1 H2]. unfold ckint. by rewrite (proj2 (Z.leb_le _ _) H1), (proj2 (Z.ltb_lt _ _) H2). Qed.

Definition draws (b : gfx_buffer) (f : option gfx_buffer -> option (option gfx_buffer)) (pts : list (Z * Z)) (c : Z) : Prop :=
  paints b f (ink_at pts c).

Lemma draws_ext b f g p q c : draws b f p c -> (forall x, g (Some x) = f (Some x)) -> (forall x, x ∈ p <-> x ∈ q) -> draws b g q c.
Proof. intros H E Ep. eapply paints_ext; [exact H|done|]. intros u v _. unfold ink_at. apply decide_ext, Ep. Qed.

Lemma draws_nil b c : draws b Some [] c.
Proof. eapply paints_ext; [apply paints_none|done|done]. Qed.

Lemma draws_app b f g p q c : draws b f p c -> draws b g q c -> draws b (fun x => y ← f x; g y) (p ++ q) c.
Proof.
  intros Hf Hg. eapply paints_ext; [apply (paints_app b f g _ _ Hf Hg)|done|]. intros u v _. unfold ink_at.
  destruct (decide ((u, v) ∈ p)), (decide ((u, v) ∈ q)), (decide ((u, v) ∈ p ++ q)) as [Ha|Ha]; rewrite elem_of_app in Ha;
    try done; try tauto; by destruct (ink c).
Qed.

Lemma draws_for b {X} (xs : list X) f (pts : X -> list (Z * Z)) c :
  (forall x, x ∈ xs -> draws b (f x) (pts x) c) -> draws b (for_each xs f) (mjoin (pts <$> xs)) c.
Proof.
  induction xs as [|x xs IH]; intros H; cbn [for_each fmap list_fmap mjoin list_join]; [apply draws_nil|].
  apply draws_app; [apply H; set_solver|apply IH; set_solver].
Qed.

Lemma pixel_at_int x y c buffer : int_range x -> int_range y -> pixel_at x y c buffer = gfx_draw_pixel buffer x y c.
Proof. intros Hx Hy. unfold pixel_at. by rewrite !ckint_ok. Qed.

Lemma pixel_at_draws b x y c : gfx_wf b -> int_range x -> int_range y -> draws b (pixel_at x y c) [(x, y)] c.
Proof.
  intros Hwf Hx Hy. eapply paints_ext; [by apply (gfx_draw_pixel_paints b x y c)| |done]. intros d. by apply pixel_at_int.
Qed.

Definition int_point (p : Z * Z) : Prop := int_range p.1 /\ int_range p.2.

Lemma draw_points_draws b pts c : gfx_wf b -> Forall int_point pts -> draws b (draw_points pts c) pts c.
Proof.
  intros Hwf Hp. rewrite Forall_forall in Hp. eapply draws_ext; [apply (draws_for b pts (fun p => pixel_at p.1 p.2 c) (fun p => [p]) c)|done|].
  - intros [x y] Hi. by apply pixel_at_draws; [|apply (Hp (x, y))..].
  - intros x. clear Hp. induction pts as [|p pts IH]; cbn; [done|]. set_solver.
Qed.

(** ** Lines

    The pixels of a line with [dx] columns and [dy] rows to go, relative to its
    start: pixel [k] is [k] steps along the longer axis and within half a pixel
    of the true line across it. *)
Definition on_line (dx dy : Z) (k i j : Z) : Prop :=
  0 <= i <= dx /\ 0 <= j <= dy /\ 2 * Z.abs (dx * j - dy * i) <= Z.max dx dy /\ (if dy <=? dx then i = k else j = k).

Lemma on_line_end dx dy i j : on_line dx dy (Z.max dx dy) i j -> i = dx /\ j = dy.
Proof. unfold on_line. intros (Hi & Hj & He & Hk). destruct (Z.leb_spec dy dx); split; nia. Qed.

Lemma on_line_start dx dy i j : on_line dx dy 0 i j -> i = 0 /\ j = 0.
Proof. unfold on_line. intros (Hi & Hj & He & Hk). destruct (Z.leb_spec dy dx); split; nia. Qed.

(** The decisions of a round of the loop, from the error term it keeps. *)
Definition line_x dx dy (i j : Z) : bool := - dy <? (dx * (1 + j) - dy * (1 + i)) * 2.
Definition line_y dx dy (i j : Z) : bool := (dx * (1 + j) - dy * (1 + i)) * 2 <? dx.

Lemma line_round dx dy k i j : on_line dx dy k i j -> k < Z.max dx dy ->
  on_line dx dy (k + 1) (i + Z.b2z (line_x dx dy i j)) (j + Z.b2z (line_y dx dy i j)).
Proof.
  unfold on_line, line_x, line_y. intros (Hi & Hj & He & Hk) Hlt.
  destruct (Z.leb_spec dy dx).
  - subst k. rewrite Z.max_l in * by lia. assert (i < dx) by lia.
    assert (- dy < (dx * (1 + j) - dy * (1 + i)) * 2) as Hx 
      by (destruct (Z.eq_dec dx dy); [subst dy; assert (j = i) by nia; subst j|]; lia).
    rewrite (proj2 (Z.ltb_lt _ _) Hx). cbn [Z.b2z].
    destruct (Z.ltb_spec ((dx * (1 + j) - dy * (1 + i)) * 2) dx); cbn [Z.b2z]; (split; [lia|]; split; [|split; [nia|lia]]); nia.
  - subst k. rewrite Z.max_r in * by lia. assert (j < dy) by lia.
    assert ((dx * (1 + j) - dy * (1 + i)) * 2 < dx) as Hy by nia.
    rewrite (proj2 (Z.ltb_lt _ _) Hy). cbn [Z.b2z].
    destruct (Z.ltb_spec (- dy) ((dx * (1 + j) - dy * (1 + i)) * 2)); cbn [Z.b2z]; (split; [|split; [lia|split; [nia|lia]]]); nia.
Qed.

Section Line.
Variables (dx dy a b sx sy : Z).
Hypotheses (Hdx : 0 <= dx < 2 ^ 29) (Hdy : 0 <= dy < 2 ^ 29).
Hypotheses (Hsx : sx = 1 \/ sx = -1) (Hsy : sy = 1 \/ sy = -1).
Hypotheses (Ha : - 2 ^ 29 <= a <= 2 ^ 29) (Hb : - 2 ^ 29 <= b <= 2 ^ 29).

Definition place (p : Z * Z) : Z * Z := (a + sx * p.1, b + sy * p.2).

Lemma place_range i j : 0 <= i <= dx + 1 -> 0 <= j <= dy + 1 -> int_range (a + sx * i) /\ int_range (b + sy * j).
Proof. intros Hi Hj. unfold int_range. destruct Hsx as [-> | ->], Hsy as [-> | ->]; lia. Qed.

Lemma line_err_range k i j : on_line dx dy k i j -> - 2 ^ 30 < dx * (1 + j) - dy * (1 + i) < 2 ^ 30.
Proof. intros (_ & _ & He & _). lia. Qed.

(** A round of the loop in terms of the steps taken. *)
Lemma bresenham_round fuel c k i j buffer : on_line dx dy k i j -> k < Z.max dx dy ->
  bresenham_loop (S fuel) (a + sx * dx) (b + sy * dy) dx dy sx sy c (dx * (1 + j) - dy * (1 + i)) (a + sx * i) (b + sy * j) buffer
  = (buffer ← gfx_draw_pixel buffer (a + sx * i) (b + sy * j) c;
     let i' := i + Z.b2z (line_x dx dy i j) in let j' := j + Z.b2z (line_y dx dy i j) in
     bresenham_loop fuel (a + sx * dx) (b + sy * dy) dx dy sx sy c (dx * (1 + j') - dy * (1 + i')) (a + sx * i') (b + sy * j') buffer).
Proof.
  intros Hl Hk. pose proof (line_err_range _ _ _ Hl) as He. cbn [bresenham_loop]. destruct (gfx_draw_pixel buffer _ _ _) as [d|]; [|done]. cbn [mbind option_bind].
  destruct ((a + sx * i =? a + sx * dx) && (b + sy * j =? b + sy * dy)) eqn:E.
  { apply andb_prop in E as [E1%Z.eqb_eq E2%Z.eqb_eq]. assert (i = dx /\ j = dy) as [-> ->] by (destruct Hsx as [-> | ->], Hsy as [-> | ->]; lia).
    destruct Hl as (_ & _ & _ & Hl). destruct (Z.leb_spec dy dx); lia. }
  rewrite (ckint_ok (_ * 2)) by (unfold int_range; lia). cbn [mbind option_bind]. fold (line_x dx dy i j) (line_y dx dy i j).
  destruct Hl as (Hi & Hj & _ & _). destruct (place_range (i + 1) (j + 1) ltac:(lia) ltac:(lia)) as [Px Py].
  cbv zeta. destruct (line_x dx dy i j); rewrite ?(ckint_ok (_ - dy)), ?(ckint_ok (_ + sx)) by (unfold int_range in *; lia);
    cbn [mbind option_bind Z.b2z];
    (destruct (line_y dx dy i j); rewrite ?(ckint_ok (_ + dx)), ?(ckint_ok (_ + sy)) by (unfold int_range in *; lia);
      cbn [mbind option_bind Z.b2z]; f_equal; ring).
Qed.

Lemma bresenham_trace c n : forall k i j fuel, on_line dx dy k i j -> 0 <= k -> Z.max dx dy - k = Z.of_nat n -> (n < fuel)%nat ->
  exists pts, length pts = S n /\ (forall m i j, pts !! m = Some (i, j) -> on_line dx dy (k + Z.of_nat m) i j) /\
    forall buffer, bresenham_loop fuel (a + sx * dx) (b + sy * dy) dx dy sx sy c (dx * (1 + j) - dy * (1 + i)) (a + sx * i) (b + sy * j) buffer
      = draw_points (place <$> pts) c buffer.
Proof.
  induction n as [|n IH]; intros k i j [|fuel] Hl Hk Hn Hf; try lia.
  - exists [(i, j)]. split; [done|]. split.
    + intros [|m] u v Hm; [|done]. injection Hm as <- <-. by rewrite Z.add_0_r.
    + intros buffer. assert (k = Z.max dx dy) as -> by lia. destruct (on_line_end _ _ _ _ Hl) as [-> ->].
      destruct (place_range dx dy ltac:(lia) ltac:(lia)) as [Px Py].
      change (place <$> [(dx, dy)]) with [(a + sx * dx, b + sy * dy)]. cbn [bresenham_loop]. rewrite !Z.eqb_refl. unfold draw_points. cbn [for_each fst snd].
      by rewrite pixel_at_int.
  - pose proof (line_round _ _ _ _ _ Hl ltac:(lia)) as Hl'. destruct (IH (k + 1) _ _ fuel Hl' ltac:(lia) ltac:(lia) ltac:(lia)) as (pts & L & Hp & E).
    exists ((i, j) :: pts). split; [cbn; lia|]. split.
    + intros [|m] u v Hm; [injection Hm as <- <-; by rewrite Z.add_0_r|]. apply Hp in Hm. by replace (k + Z.of_nat (S m)) with (k + 1 + Z.of_nat m) by lia.
    + intros buffer. rewrite (bresenham_round fuel c k) by (done || lia). destruct Hl as (Hi & Hj & _).
      destruct (place_range i j ltac:(lia) ltac:(lia)) as [Px Py].
      change (place <$> (i, j) :: pts) with ((a + sx * i, b + sy * j) :: (place <$> pts)).
      unfold draw_points. cbn [for_each fst snd]. rewrite pixel_at_int by done.
      destruct (gfx_draw_pixel buffer _ _ _) as [d|]; [|done]. cbn [mbind option_bind]. apply E.
Qed.

End Line.

(** Pixel [k] of the line from [(x1, y1)] to [(x2, y2)]. *)
Definition on_segment (x1 y1 x2 y2 k x y : Z) : Prop :=
  Z.min x1 x2 <= x <= Z.max x1 x2 /\ Z.min y1 y2 <= y <= Z.max y1 y2 /\
  2 * Z.abs ((x2 - x1) * (y - y1) - (y2 - y1) * (x - x1)) <= Z.max (Z.abs (x2 - x1)) (Z.abs (y2 - y1)) /\
  (if Z.abs (y2 - y1) <=? Z.abs (x2 - x1) then Z.abs (x - x1) = k else Z.abs (y - y1) = k).

(** The pixels of that line: both ends, and one pixel per step along the longer axis. *)
Definition segment (x1 y1 x2 y2 : Z) (pts : list (Z * Z)) : Prop :=
  Z.of_nat (length pts) = Z.max (Z.abs (x2 - x1)) (Z.abs (y2 - y1)) + 1 /\
  pts !! 0%nat = Some (x1, y1) /\ last pts = Some (x2, y2) /\
  forall k x y, pts !! k = Some (x, y) -> on_segment x1 y1 x2 y2 (Z.of_nat k) x y.

(** Coordinates far from overflowing. *)
Definition small (z : Z) : Prop := - 2 ^ 28 < z < 2 ^ 28.

Lemma abs_opposite x y : x = - y -> Z.abs x = Z.abs y.
Proof. intros ->. apply Z.abs_opp. Qed.

Lemma on_line_segment x1 y1 x2 y2 sx sy k i j : sx = (if x1 <? x2 then 1 else -1) -> sy = (if y1 <? y2 then 1 else -1) ->
  on_line (Z.abs (x2 - x1)) (Z.abs (y2 - y1)) k i j -> on_segment x1 y1 x2 y2 k (x1 + sx * i) (y1 + sy * j).
Proof.
  intros -> -> (Hi & Hj & He & Hk). unfold on_segment.
  destruct (Z.ltb_spec x1 x2), (Z.ltb_spec y1 y2); (split; [lia|]; split; [lia|]; split; [|destruct (_ <=? _); lia]);
    (eapply Z.le_trans; [|exact He]; apply Z.mul_le_mono_nonneg_l; [lia|]; apply Z.eq_le_incl).
  - f_equal. rewrite !(Z.abs_eq (_ - _)) by lia. ring.
  - apply abs_opposite. rewrite (Z.abs_eq (x2 - x1)), (Z.abs_neq (y2 - y1)) by lia. ring.
  - apply abs_opposite. rewrite (Z.abs_neq (x2 - x1)), (Z.abs_eq (y2 - y1)) by lia. ring.
  - f_equal. rewrite !(Z.abs_neq (_ - _)) by lia. ring.
Qed.

Lemma abs_ok z : - 2 ^ 31 < z < 2 ^ 31 -> abs z = Some (Z.abs z).
Proof. intros Hz. unfold abs. destruct (Z.ltb_spec z 0); [rewrite ckint_ok by (unfold int_range; lia)|]; f_equal; lia. Qed.

Lemma gfx_draw_line_trace x1 y1 x2 y2 c : small x1 -> small y1 -> small x2 -> small y2 ->
  exists pts, segment x1 y1 x2 y2 pts /\ Forall int_point pts /\
    forall b, gfx_draw_line (Some b) x1 y1 x2 y2 c = draw_points pts c (Some b).
Proof.
  unfold small. intros H1 H2 H3 H4. set (dx := Z.abs (x2 - x1)). set (dy := Z.abs (y2 - y1)).
  set (sx := if x1 <? x2 then 1 else -1). set (sy := if y1 <? y2 then 1 else -1).
  assert (sx = 1 \/ sx = -1) as Hsx by (unfold sx; destruct (x1 <? x2); lia).
  assert (sy = 1 \/ sy = -1) as Hsy by (unfold sy; destruct (y1 <? y2); lia).
  assert (x1 + sx * dx = x2) as Ex by (unfold sx, dx; destruct (Z.ltb_spec x1 x2); lia).
  assert (y1 + sy * dy = y2) as Ey by (unfold sy, dy; destruct (Z.ltb_spec y1 y2); lia).
  assert (on_line dx dy 0 0 0) as Hl by (unfold on_line; destruct (dy <=? dx); lia).
  destruct (bresenham_trace dx dy x1 y1 sx sy ltac:(lia) ltac:(lia) Hsx Hsy ltac:(lia) ltac:(lia) c (Z.to_nat (Z.max dx dy)) 0 0 0
    (Z.to_nat (dx + dy + 1)) Hl ltac:(lia) ltac:(lia) ltac:(lia)) as (pts & L & Hp & E).
  exists (place x1 y1 sx sy <$> pts). split; [|split].
  - split; [rewrite length_fmap, L; lia|]. split; [|split].
    + destruct pts as [|[i j] pts]; [done|]. destruct (on_line_start dx dy i j (Hp 0%nat i j eq_refl)) as [-> ->]. unfold place. cbn. f_equal. f_equal; lia.
    + rewrite fmap_last, last_lookup, L. cbn [Nat.pred]. destruct (pts !! Z.to_nat (Z.max dx dy)) as [[i j]|] eqn:El; [|apply lookup_ge_None in El; lia].
      apply Hp in El. rewrite Z.add_0_l, Z2Nat.id in El by lia. apply on_line_end in El as [-> ->]. unfold place. cbn. by rewrite Ex, Ey.
    + intros k x y Hk. rewrite list_lookup_fmap in Hk. destruct (pts !! k) as [[i j]|] eqn:El; [|done]. injection Hk as <- <-. apply Hp in El.
      by apply on_line_segment.
  - apply Forall_fmap, Forall_forall. intros [i j] [k Hk]%list_elem_of_lookup. apply Hp in Hk as (Hi & Hj & _). unfold compose, int_point, place. cbn.
    apply (place_range dx dy); lia || done.
  - intros b. unfold gfx_draw_line. rewrite !(ckint_ok (_ - _)) by (unfold int_range; lia). cbn [mbind option_bind].
    rewrite !abs_ok by lia. cbn [mbind option_bind]. fold dx dy sx sy. rewrite (ckint_ok (_ - _)) by (unfold int_range; lia). cbn [mbind option_bind].
    specialize (E (Some b)). rewrite Ex, Ey, !Z.mul_0_r, !Z.add_0_r, !Z.mul_1_r in E. exact E.
Qed.

(** C32. [gfx_draw_line] returns and paints its line and nothing else: a pixel
    for each step along the longer axis from one end point to the other, both
    included, none further than half a pixel from the true line; the parts
    outside of the buffer are clipped. *)
Theorem gfx_draw_line_spec b x1 y1 x2 y2 c : gfx_wf b -> small x1 -> small y1 -> small x2 -> small y2 ->
  exists pts b', gfx_draw_line (Some b) x1 y1 x2 y2 c = Some (Some b') /\
    segment x1 y1 x2 y2 pts /\ overlay b b' (ink_at pts c).
Proof.
  intros Hwf H1 H2 H3 H4. destruct (gfx_draw_line_trace x1 y1 x2 y2 c H1 H2 H3 H4) as (pts & Hs & Hi & E).
  destruct (draw_points_draws b pts c Hwf Hi b (same_shape_refl b)) as (b' & E' & O). exists pts, b'. by rewrite E.
Qed.

(** ** Circles

    The midpoint method keeps [f = (x1 + 1)^2 + y1^2 - y1 - r^2], which is a
    quarter less than the value at the midpoint between the two candidates. *)
Definition circle_state (r x y : Z) : Z * Z * Z * Z * Z :=
  ((x + 1) * (x + 1) + y * y - y - r * r, 2 * x + 1, -2 * y, x, y).

Definition near_circle (r x y : Z) : Prop := 0 <= x /\ 0 <= y <= r /\ Z.abs (x * x + y * y - r * r) <= y.

(** While the loop goes on the point is not above the upper candidate. *)
Definition circle_inv (r x y : Z) : Prop := near_circle r x y /\ (x < y -> x * x + y * y - r * r < y).

Lemma circle_step_spec r x y : r < 2 ^ 28 -> circle_inv r x y -> x < y ->
  exists y', circle_step (circle_state r x y) = Some (circle_state r (x + 1) y') /\ circle_inv r (x + 1) y' /\ y - 1 <= y' <= y.
Proof.
  unfold circle_inv, near_circle. intros Hr ((Hx & Hy & Hn) & Hd) Hlt. specialize (Hd Hlt). unfold circle_step, circle_state.
  destruct (Z.leb_spec 0 ((x + 1) * (x + 1) + y * y - y - r * r)) as [Hf|Hf].
  - exists (y - 1). repeat (rewrite ckint_ok by (unfold int_range; lia); cbn [mbind option_bind]).
    split; [refine (f_equal Some _); repeat (apply (f_equal2 pair)); lia|]. split; lia.
  - exists y. cbn [mbind option_bind]. repeat (rewrite ckint_ok by (unfold int_range; lia); cbn [mbind option_bind]).
    split; [refine (f_equal Some _); repeat (apply (f_equal2 pair)); lia|]. split; lia.
Qed.

(** The points of the octant above the diagonal, column by column. *)
Definition octant (r k : Z) (pts : list (Z * Z)) : Prop :=
  (forall n i j, pts !! n = Some (i, j) -> i = k + Z.of_nat n /\ near_circle r i j) /\
  (forall i j, last pts = Some (i, j) -> j <= i).

Lemma circle_loop_trace draw r n : r < 2 ^ 28 -> forall x y fuel, circle_inv r x y -> y - x <= Z.of_nat n -> (n < fuel)%nat ->
  exists pts, octant r (x + 1) pts /\ (x < y -> pts <> []) /\
    forall buffer, circle_loop fuel draw (circle_state r x y) buffer = for_each pts (fun p => draw p.1 p.2) buffer.
Proof.
  intros Hr. induction n as [|n IH]; intros x y [|fuel] Hi Hn Hf; try lia; unfold circle_state; cbn [circle_loop];
    (destruct (Z.ltb_spec x y) as [Hlt|Hge]; [try lia|exists []; split; [split; done|split; [lia|done]]]).
  destruct (circle_step_spec r x y Hr Hi Hlt) as (y' & Es & Hi' & Hy'). fold (circle_state r x y). rewrite Es. cbn [mbind option_bind].
  destruct (IH (x + 1) y' fuel Hi' ltac:(lia) ltac:(lia)) as (pts & [Hp1 Hp2] & Hne & E). exists ((x + 1, y') :: pts). split; [split|split; [done|]].
  - intros [|m] i j Hm; [injection Hm as <- <-; split; [lia|apply Hi']|]. apply Hp1 in Hm as [-> Hm]. split; [lia|done].
  - intros i j. destruct pts as [|p pts]; [|rewrite last_cons_cons; apply Hp2]. cbn. intros [= <- <-].
    destruct (Z.lt_ge_cases (x + 1) y') as [Hl|?]; [by apply Hne in Hl|done].
  - intros buffer. unfold circle_state at 1. cbn [for_each fst snd]. destruct (draw (x + 1) y' buffer); [|done]. cbn [mbind option_bind]. apply E.
Qed.

(** The eight reflections of the points of [oct] around [(x, y)]. *)
Definition reflected (oct : list (Z * Z)) (x y u v : Z) : Prop :=
  (Z.abs (u - x), Z.abs (v - y)) ∈ oct \/ (Z.abs (v - y), Z.abs (u - x)) ∈ oct.

#[export] Instance reflected_dec oct x y u v : Decision (reflected oct x y u v).
Proof. unfold reflected. apply _. Defined.

Lemma octants_elem x y i j u v : 0 <= i -> 0 <= j ->
  (u, v) ∈ octants x y i j <-> (Z.abs (u - x), Z.abs (v - y)) = (i, j) \/ (Z.abs (v - y), Z.abs (u - x)) = (i, j).
Proof.
  intros Hi Hj. unfold octants. rewrite !elem_of_cons, elem_of_nil. split.
  - intros H. repeat destruct H as [H|H]; try done; injection H as -> ->; first [left; f_equal; lia | right; f_equal; lia].
  - intros [H|H]; injection H as <- <-; destruct (Z.abs_spec (u - x)) as [[_ ->]|[_ ->]], (Z.abs_spec (v - y)) as [[_ ->]|[_ ->]];
      first [left; f_equal; lia | right; left; f_equal; lia | do 2 right; left; f_equal; lia | do 3 right; left; f_equal; lia
            | do 4 right; left; f_equal; lia | do 5 right; left; f_equal; lia | do 6 right; left; f_equal; lia | do 7 right; left; f_equal; lia].
Qed.

Lemma axis_elem x y r u v : 0 <= r ->
  (u, v) ∈ [(x, y + r); (x, y - r); (x + r, y); (x - r, y)] <-> (u, v) ∈ octants x y 0 r.
Proof.
  intros Hr. unfold octants. rewrite !Z.add_0_r, !Z.sub_0_r. set_solver.
Qed.

Lemma join_octants_elem oct x y u v : (forall p, p ∈ oct -> 0 <= p.1 /\ 0 <= p.2) ->
  (u, v) ∈ mjoin ((fun p => octants x y p.1 p.2) <$> oct) <-> reflected oct x y u v.
Proof.
  intros H. unfold reflected. rewrite list_elem_of_join. split.
  - intros (l & Hl & (p & -> & Hp)%list_elem_of_fmap). destruct (H p Hp) as [H1 H2]. apply octants_elem in Hl; [|done..].
    destruct p as [i j]. cbn in Hl. destruct Hl as [-> | ->]; auto.
  - intros [Hp|Hp]; (eexists; split; [|apply list_elem_of_fmap; eexists; split; [reflexivity|exact Hp]]); apply octants_elem; cbn; lia || auto.
Qed.

(** The ranges of what the loop draws. *)
Lemma octants_range x y i j : small x -> small y -> 0 <= i < 2 ^ 29 -> 0 <= j < 2 ^ 29 -> Forall int_point (octants x y i j).
Proof. unfold small. intros. repeat constructor; unfold int_range; cbn; lia. Qed.

Lemma circle_start r : 0 < r -> circle_inv r 0 r.
Proof. intros. unfold circle_inv, near_circle. lia. Qed.

Lemma near_circle_le r i j : near_circle r i j -> 0 <= i <= r + 1 /\ 0 <= j <= r.
Proof. unfold near_circle. intros (Hi & Hj & Hn). split; [|done]. split; [done|]. nia. Qed.

(** [gfx_draw_circle] returns and paints the eight reflections of an
    octant and nothing else: one point in each column from the top of the
    circle to the diagonal, each with [|i^2 + j^2 - r^2| <= j], that is within
    half a pixel of the true circle; the parts outside of the buffer are
    clipped. *)
Theorem gfx_draw_circle_spec b x y r c : gfx_wf b -> small x -> small y -> 0 < r < 2 ^ 28 ->
  exists oct b', gfx_draw_circle (Some b) x y r c = Some (Some b') /\ octant r 0 ((0, r) :: oct) /\
    overlay b b' (fun u v => if decide (reflected ((0, r) :: oct) x y u v) then ink c else None).
Proof.
  intros Hwf Hx Hy Hr.
  destruct (circle_loop_trace (fun x1 y1 => draw_points (octants x y x1 y1) c) r (Z.to_nat r) ltac:(lia) 0 r (S (Z.to_nat r)) (circle_start r ltac:(lia)) ltac:(lia) ltac:(lia))
    as (oct & [Ho1 Ho2] & Hne & E). specialize (Hne ltac:(lia)).
  assert (forall p, p ∈ oct -> near_circle r p.1 p.2) as Hn. { intros [i j] [n Hn]%list_elem_of_lookup. by apply Ho1 in Hn as [_ ?]. }
  exists oct. unfold gfx_draw_circle. destruct (Z.leb_spec r 0); [lia|]. rewrite !ckint_ok by (unfold int_range; lia). cbn [mbind option_bind].
  set (top := [_; _; _; _]).
  assert (draws b (fun d => d ← draw_points top c d; for_each oct (fun p => draw_points (octants x y p.1 p.2) c) d)
    (top ++ mjoin ((fun p => octants x y p.1 p.2) <$> oct)) c) as Hd.
  { apply draws_app; [apply draw_points_draws; [done|]|apply draws_for].
    - unfold small in *. repeat constructor; unfold int_range; cbn; lia.
    - intros p Hp. apply Hn, near_circle_le in Hp. apply draw_points_draws; [done|]. apply octants_range; (done || lia). }
  destruct (Hd b (same_shape_refl b)) as (b' & E' & O). exists b'. split; [|split; [split|]].
  - etransitivity; [|exact E']. destruct (draw_points top c (Some b)); [|done]. cbn [mbind option_bind]. rewrite <- E. unfold circle_state. do 2 f_equal.
    repeat (apply (f_equal2 pair)); lia.
  - intros [|n] i j Hk; [injection Hk as <- <-; split; [lia|apply circle_start; lia]|]. apply Ho1 in Hk as [-> Hk]. split; [lia|done].
  - destruct oct as [|p oct]; [done|]. rewrite last_cons_cons. apply Ho2.
  - eapply overlay_ext; [exact O|]. intros u v _. unfold ink_at. apply decide_ext. rewrite elem_of_app, join_octants_elem.
    + unfold reflected, top. rewrite !(elem_of_cons oct), axis_elem, octants_elem by lia. tauto.
    + intros p Hp. apply Hn, near_circle_le in Hp. lia.
Qed.

(** ** Rectangles *)

(** The cells of a [w] by [h] rectangle at [(x, y)], row by row. *)
Definition cells (x y w h : Z) (cell : Z -> Z -> list (Z * Z)) : list (Z * Z) :=
  mjoin ((fun i => mjoin ((fun j => cell j i) <$> seqZ 0 w)) <$> seqZ 0 h).

Definition grid (x y w h : Z) : list (Z * Z) := cells x y w h (fun j i => [(x + j, y + i)]).

Lemma cells_elem x y w h cell p : p ∈ cells x y w h cell <-> exists i j, 0 <= i < h /\ 0 <= j < w /\ p ∈ cell j i.
Proof.
  unfold cells. rewrite list_elem_of_join. split.
  - intros (l & Hl & (i & -> & Hi%elem_of_seqZ)%list_elem_of_fmap). apply list_elem_of_join in Hl as (l & Hl & (j & -> & Hj%elem_of_seqZ)%list_elem_of_fmap).
    exists i, j. split_and!; (done || lia).
  - intros (i & j & Hi & Hj & Hp). eexists. split; [|apply list_elem_of_fmap; exists i; split; [reflexivity|apply elem_of_seqZ; lia]].
    apply list_elem_of_join. eexists. split; [exact Hp|]. apply list_elem_of_fmap. exists j. split; [done|apply elem_of_seqZ; lia].
Qed.

Lemma grid_elem x y w h u v : (u, v) ∈ grid x y w h <-> x <= u < x + w /\ y <= v < y + h.
Proof.
  unfold grid. rewrite cells_elem. split.
  - intros (i & j & Hi & Hj & [= -> ->]%list_elem_of_singleton). lia.
  - intros H. exists (v - y), (u - x). split_and!; try lia. apply list_elem_of_singleton. f_equal; lia.
Qed.

Lemma draws_cells b x y w h (f : Z -> Z -> option gfx_buffer -> option (option gfx_buffer)) cell c :
  (forall i j, 0 <= i < h -> 0 <= j < w -> draws b (f i j) (cell j i) c) ->
  draws b (for_each (seqZ 0 h) (fun i => for_each (seqZ 0 w) (f i))) (cells x y w h cell) c.
Proof.
  intros H. apply (draws_for b _ _ (fun i => mjoin ((fun j => cell j i) <$> seqZ 0 w))). intros i Hi%elem_of_seqZ.
  apply (draws_for b _ _ (fun j => cell j i)). intros j Hj%elem_of_seqZ. apply H; lia.
Qed.

(** [gfx_fill_rectangle] paints exactly the cells of its rectangle. *)
Lemma gfx_fill_rectangle_draws b x y w h c : gfx_wf b -> small x -> small y -> w < 2 ^ 28 -> h < 2 ^ 28 ->
  draws b (fun d => gfx_fill_rectangle d x y w h c) (grid x y w h) c.
Proof.
  intros Hwf Hx Hy Hw Hh. eapply draws_ext; [apply (draws_cells b x y w h (fun i j => pixel_at (x + j) (y + i) c) (fun j i => [(x + j, y + i)]))|done|reflexivity].
  intros i j Hi Hj. unfold small in *. apply pixel_at_draws; [done|unfold int_range; lia..].
Qed.

(** [gfx_clear_buffer] paints every visible pixel, unless the colour is transparent. *)
Lemma gfx_clear_buffer_draws b c : gfx_wf b -> draws b (fun d => gfx_clear_buffer d c) (grid 0 0 (gb_width b) (gb_height b)) c.
Proof.
  intros Hwf b0 S0. destruct (same_shape_eq _ _ S0) as (Ew & Eh & _). unfold gfx_clear_buffer. rewrite Ew, Eh.
  apply (draws_cells b 0 0 _ _ (fun y x buffer => gfx_draw_pixel buffer (sign_of 32 x) (sign_of 32 y) c)); [|done].
  intros i j Hi Hj. pose proof (wf_width b Hwf). pose proof (wf_height b Hwf). rewrite !sign_of_small by lia. by apply gfx_draw_pixel_paints.
Qed.

(** ** Characters *)

Definition font_ok (fnt : gfx_font) : Prop :=
  gf_type fnt = GFX_FONT_BITMAP /\ 0 < gf_width fnt <= 31 /\ 0 < gf_height fnt < 2 ^ 28 /\ 128 * gf_height fnt <= zlen (gf_glyphs fnt).

(** The bit of the glyph of [c] in column [col] and row [row], the leftmost the most significant. *)
Definition glyph_bit (fnt : gfx_font) (c col row : Z) : bool :=
  Z.testbit (nth (Z.to_nat (c * gf_height fnt + row)) (gf_glyphs fnt) 0) (gf_width fnt - 1 - col).

Definition glyph (b : gfx_buffer) (fnt : gfx_font) (x y c : Z) : list (Z * Z) :=
  if (c <? 128) && (x + gf_width fnt <=? gb_width b) && (y + gf_height fnt <=? gb_height b)
  then cells x y (gf_width fnt) (gf_height fnt) (fun j i => if glyph_bit fnt c j i then [(x + j, y + i)] else [])
  else [].

Lemma land_bit v n : 0 <= n -> (Z.land v (Z.shiftl 1 n) =? 0) = negb (Z.testbit v n).
Proof.
  intros Hn. destruct (Z.testbit v n) eqn:E; cbn.
  - apply Z.eqb_neq. intros H. apply (f_equal (fun z => Z.testbit z n)) in H. rewrite Z.land_spec, E, Z.shiftl_1_l, Z.pow2_bits_true, Z.bits_0 in H by lia. done.
  - apply Z.eqb_eq. apply Z.bits_inj'. intros k Hk. rewrite Z.land_spec, Z.shiftl_1_l, Z.bits_0. destruct (Z.eq_dec n k) as [<-|Hne]; [by rewrite E|].
    rewrite Z.pow2_bits_false by lia. apply andb_false_r.
Qed.

Lemma gfx_draw_char_draws b x y c color fnt : gfx_wf b -> font_ok fnt -> small x -> small y -> 0 <= x -> 0 <= y -> 0 <= c < 256 ->
  draws b (fun d => gfx_draw_char d x y c color (Some fnt)) (glyph b fnt x y c) color.
Proof.
  intros Hwf (Et & Hw & Hh & Hg) Hx Hy Hx0 Hy0 Hc b0 S0. destruct (same_shape_eq _ _ S0) as (Ew & Eh & _). unfold gfx_draw_char, small in *.
  rewrite (proj2 (Z.ltb_ge x 0)), (proj2 (Z.ltb_ge y 0)) by lia. cbn [orb]. rewrite Ew, Eh. unfold wrap. rewrite !(Z.mod_small (_ + _)), (Z.mod_small c) by lia.
  unfold glyph. destruct (Z.ltb_spec (gb_width b) (x + gf_width fnt)), (Z.leb_spec (x + gf_width fnt) (gb_width b)); try lia; cbn [orb].
  { rewrite andb_false_r. cbn [andb]. by apply (draws_nil b). }
  destruct (Z.ltb_spec (gb_height b) (y + gf_height fnt)), (Z.leb_spec (y + gf_height fnt) (gb_height b)); try lia.
  { rewrite andb_false_r. by apply (draws_nil b). }
  rewrite !andb_true_r. destruct (Z.ltb_spec 127 c), (Z.ltb_spec c 128); try lia; [by apply (draws_nil b)|].
  rewrite Et, !sign_of_small by lia.
  apply (draws_for b _ _ (fun i => mjoin ((fun j => if glyph_bit fnt c j i then [(x + j, y + i)] else []) <$> seqZ 0 (gf_width fnt)))); [|done].
  intros i Hi%elem_of_seqZ. intros b1 S1. unfold zlen in Hg. destruct (lookup_lt_is_Some_2 (gf_glyphs fnt) (Z.to_nat (c * gf_height fnt + i)) ltac:(nia)) as [row Er].
  rewrite Er. cbn [mbind option_bind]. revert b1 S1. apply (draws_for b _ _ (fun j => if glyph_bit fnt c j i then [(x + j, y + i)] else [])).
  intros j Hj%elem_of_seqZ. intros b1 S1. rewrite Z.mod_small by lia. unfold int_bit. rewrite (proj2 (Z.ltb_lt _ 31)) by lia. cbn [mbind option_bind].
  rewrite land_bit by lia. unfold glyph_bit. rewrite (nth_lookup_Some _ _ _ _ Er).
  destruct (Z.testbit row _); cbn [negb]; [apply (pixel_at_draws b); [done|unfold int_range; lia..|done]|by apply (draws_nil b)].
Qed.
