(* ===== verification/GfxScreen.v ===== *)
(** * Bitmaps, the screen and buffers of another size ([kernel/graphics/gfx.c], [kernel/mouse/mouse.c])

    A bitmap is painted cell by cell; a refresh of the screen shows the first
    registered buffer from its first line on, wrapping at its height, with the
    cursor over it; resizing keeps the part the two sizes share.  Any sequence
    of drawing operations keeps a buffer well formed.  The last module records
    where the code departs from what it means to draw. *)

From S2P Require Import Prelude Bytes Lists Gfx GfxSpec.

(** ** Loops that paint cell by cell *)

Lemma for_each_sim {X S T} (h : S -> T) (f : X -> T -> option T) (g : X -> S -> option S) xs s :
  (forall x s, x ∈ xs -> f x (h s) = h <$> g x s) -> for_each xs f (h s) = h <$> for_each xs g s.
Proof.
  revert s. induction xs as [|x xs IH]; intros s H; [done|]. cbn. rewrite H by set_solver. destruct (g x s) as [s'|]; [|done]. cbn. apply IH. set_solver.
Qed.

Lemma for_each_ext {X S} (f g : X -> S -> option S) xs s : (forall x s, x ∈ xs -> f x s = g x s) -> for_each xs f s = for_each xs g s.
Proof. revert s. induction xs as [|x xs IH]; intros s H; [done|]. cbn. rewrite H by set_solver. destruct (g x s); [|done]. apply IH. set_solver. Qed.

Lemma seqZ_snoc n : 0 <= n -> seqZ 0 (n + 1) = seqZ 0 n ++ [n].
Proof. intros Hn. rewrite seqZ_app by lia. by rewrite Z.add_0_l. Qed.

(** [P k] is the picture of the first [k] rounds. *)
Lemma paints_seq b f (q P : Z -> Z -> Z -> option Z) n : 0 <= n ->
  (forall k, 0 <= k < n -> paints b (f k) (q k)) -> (forall u v, P 0 u v = None) ->
  (forall k u v, 0 <= k < n -> P (k + 1) u v = match q k u v with Some c => Some c | None => P k u v end) ->
  paints b (for_each (seqZ 0 n) f) (P n).
Proof.
  intros Hn. revert Hn. apply (natlike_ind (fun n => (forall k, 0 <= k < n -> paints b (f k) (q k)) -> (forall u v, P 0 u v = None) ->
    (forall k u v, 0 <= k < n -> P (k + 1) u v = match q k u v with Some c => Some c | None => P k u v end) -> paints b (for_each (seqZ 0 n) f) (P n))).
  - intros _ H0 _. eapply paints_ext; [apply paints_none|done|]. intros u v _. by rewrite H0.
  - intros m Hm IH Hf H0 HP. rewrite <- Z.add_1_r in *. rewrite seqZ_snoc by done.
    eapply paints_ext; [apply (paints_app b (for_each (seqZ 0 m) f) (f m) (P m) (q m)); [apply IH; [intros; apply Hf; lia|done|intros; apply HP; lia]|apply Hf; lia]| |].
    + intros x. rewrite for_each_app. destruct (for_each _ _ _) as [s|]; [|done]. cbn. by destruct (f m s).
    + intros u v _. cbn. by rewrite HP by lia.
Qed.

(** A rectangle of cells, each of which paints its own pixel of [pic]. *)
Section Cells.
Variables (b : gfx_buffer) (x y w h : Z) (cell : Z -> Z -> option gfx_buffer -> option (option gfx_buffer)) (pic : Z -> Z -> option Z).
Hypotheses (Hw : 0 <= w) (Hh : 0 <= h).
Hypothesis (Hcell : forall i j, 0 <= i < w -> 0 <= j < h ->
  paints b (cell j i) (fun u v => if (u =? x + i) && (v =? y + j) then pic u v else None)).
Hypothesis (Hout : forall u v, ~ (x <= u < x + w /\ y <= v < y + h) -> pic u v = None).

Lemma cells_row_paints j : 0 <= j < h ->
  paints b (for_each (seqZ 0 w) (cell j)) (fun u v => if (v =? y + j) then pic u v else None).
Proof.
  intros Hj. eapply paints_ext; [apply (paints_seq b (cell j) (fun i u v => if (u =? x + i) && (v =? y + j) then pic u v else None)
      (fun k u v => if (u <? x + k) && (v =? y + j) then pic u v else None) w Hw)|done|].
  - intros i Hi. by apply Hcell.
  - intros u v. rewrite Z.add_0_r. destruct (Z.ltb_spec u x); cbn [andb]; [|done]. destruct (_ =? _); [|done]. apply Hout. lia.
  - intros k u v Hk. destruct (v =? y + j); rewrite ?andb_false_r, ?andb_true_r; [|done].
    destruct (Z.ltb_spec u (x + (k + 1))), (Z.eqb_spec u (x + k)), (Z.ltb_spec u (x + k)); try lia; try done. by destruct (pic u v).
  - intros u v _. cbn. destruct (Z.ltb_spec u (x + w)); cbn [andb]; [done|]. rewrite Hout by lia. by destruct (_ =? _).
Qed.

Lemma cells_paint : paints b (for_each (seqZ 0 h) (fun j => for_each (seqZ 0 w) (cell j))) pic.
Proof.
  eapply paints_ext; [apply (paints_seq b (fun j => for_each (seqZ 0 w) (cell j)) (fun j u v => if (v =? y + j) then pic u v else None)
    (fun k u v => if (v <? y + k) then pic u v else None) h Hh)|done|].
  - intros j Hj. by apply cells_row_paints.
  - intros u v. rewrite Z.add_0_r. destruct (Z.ltb_spec v y); [|done]. apply Hout. lia.
  - intros k u v Hk. destruct (Z.ltb_spec v (y + (k + 1))), (Z.eqb_spec v (y + k)), (Z.ltb_spec v (y + k)); try lia; try done. by destruct (pic u v).
  - intros u v _. cbn. destruct (Z.ltb_spec v (y + h)); [done|]. by rewrite Hout by lia.
Qed.

End Cells.

(** ** Bitmaps *)

Definition bitmap_pixel (src : bytes) (w i j : Z) : option Z := le_at 4 src ((j * w + i) * 4).

Definition bitmap_pic (src : bytes) (x y w h u v : Z) : option Z :=
  if (x <=? u) && (u <? x + w) && (y <=? v) && (v <? y + h) then c ← bitmap_pixel src w (u - x) (v - y); ink c else None.

Lemma bitmap_pic_out src x y w h u v : ~ (x <= u < x + w /\ y <= v < y + h) -> bitmap_pic src x y w h u v = None.
Proof.
  intros H. unfold bitmap_pic. destruct (Z.leb_spec x u), (Z.ltb_spec u (x + w)), (Z.leb_spec y v), (Z.ltb_spec v (y + h)); cbn [andb]; done || lia.
Qed.

Lemma le_at_some n buf off : 0 <= off -> 0 <= n -> off + n <= zlen buf -> exists v, le_at n buf off = Some v.
Proof. intros. unfold le_at. rewrite sub_bytes_ok by done. by eexists. Qed.

Definition bitmap_cell (src : bytes) (x y w j i : Z) (d : option gfx_buffer) : option (option gfx_buffer) :=
  c ← bitmap_pixel src w i j; gfx_draw_pixel d (x + i) (y + j) c.

Lemma bitmap_cell_paints b src x y w h i j c : gfx_wf b -> 0 <= i < w -> 0 <= j < h -> bitmap_pixel src w i j = Some c ->
  paints b (bitmap_cell src x y w j i) (fun u v => if (u =? x + i) && (v =? y + j) then bitmap_pic src x y w h u v else None).
Proof.
  intros Hwf Hi Hj Ec. unfold bitmap_cell. rewrite Ec. cbn [mbind option_bind].
  eapply paints_ext; [by apply gfx_draw_pixel_paints|done|]. intros u v _. unfold ink_at. cbn.
  destruct (Z.eqb_spec u (x + i)) as [->|Hu], (Z.eqb_spec v (y + j)) as [->|Hv]; cbn [andb]; case_decide as Hd;
    try (apply list_elem_of_singleton in Hd; injection Hd; lia); try done.
  - unfold bitmap_pic. rewrite (proj2 (Z.leb_le _ _)), (proj2 (Z.ltb_lt _ _)), (proj2 (Z.leb_le _ _)), (proj2 (Z.ltb_lt _ _)) by lia. cbn [andb].
    replace (x + i - x) with i by lia. replace (y + j - y) with j by lia. by rewrite Ec.
  - exfalso. apply Hd. set_solver.
Qed.

Section Screen.
Context `{A : Arch}.

Definition bitmap_fits (b : gfx_buffer) (x y w h : Z) : bool :=
  (0 <=? x) && (0 <=? y) && (x + w <=? gb_width b) && (y + h <=? gb_height b).

(** A bitmap is painted when it lies in the buffer, transparent pixels left out, and not at all otherwise. *)
Lemma gfx_draw_bitmap_paints b src x y w h : gfx_wf b -> int_range x -> int_range y -> 0 <= w < 2 ^ 30 -> 0 <= h < 2 ^ 30 ->
  w * h * 4 < 2 ^ 32 -> w * h * 4 <= zlen src ->
  paints b (fun d => gfx_draw_bitmap d x y (Some src) w h)
    (fun u v => if bitmap_fits b x y w h then bitmap_pic src x y w h u v else None).
Proof.
  intros Hwf Hx Hy Hw Hh Hr Hs b0 S0. destruct (same_shape_eq _ _ S0) as (Ew & Eh & _). unfold gfx_draw_bitmap, bitmap_fits, int_range in *. rewrite Ew, Eh.
  pose proof (wf_width b Hwf). pose proof (wf_height b Hwf).
  destruct (Z.ltb_spec x 0), (Z.leb_spec 0 x); try lia; cbn [orb andb]; [by apply (paints_none b)|].
  destruct (Z.ltb_spec y 0), (Z.leb_spec 0 y); try lia; cbn [orb andb]; [by apply (paints_none b)|].
  rewrite !wrap_size by lia.
  destruct (Z.ltb_spec (gb_width b) (x + w)), (Z.leb_spec (x + w) (gb_width b)); try lia; cbn [orb andb]; [by apply (paints_none b)|].
  destruct (Z.ltb_spec (gb_height b) (y + h)), (Z.leb_spec (y + h) (gb_height b)); try lia; cbn [orb andb]; [by apply (paints_none b)|].
  destruct (cells_paint b x y w h (bitmap_cell src x y w) (bitmap_pic src x y w h) ltac:(lia) ltac:(lia)) with (b0 := b0) as (b1 & E & O);
    [|apply bitmap_pic_out|done|].
  { intros i j Hi Hj. pose proof (index_range w h i j Hi Hj). destruct (le_at_some 4 src ((j * w + i) * 4)) as [c Ec]; [lia..|]. by eapply bitmap_cell_paints. }
  exists b1. split; [|done]. rewrite <- E. apply for_each_ext. intros j d Hj%elem_of_seqZ. apply for_each_ext. intros i d' Hi%elem_of_seqZ.
  pose proof (index_range w h i j ltac:(lia) ltac:(lia)). unfold bitmap_cell, bitmap_pixel. rewrite (wrap_size (j * w + i)), wrap_size, !sign_of_small by lia. done.
Qed.

(** ** Copying rows *)

Lemma sub_bytes_sub buf off n bs o k : sub_bytes buf off n = Some bs -> 0 <= o -> 0 <= k -> o + k <= n ->
  sub_bytes buf (off + o) k = sub_bytes bs o k.
Proof.
  intros (H1 & H2 & H3 & H4 & ->)%sub_bytes_spec Ho Hk Hn. rewrite !sub_bytes_ok by lia. f_equal.
  rewrite skipn_firstn_comm, drop_drop, take_take. f_equal; [lia|f_equal; lia].
Qed.

Lemma copy_pixels_spec dst d src s n : 0 <= d -> 0 <= s -> 0 <= n -> d + n <= zlen dst -> s + n <= zlen src ->
  exists m, copy_pixels dst d src s n = Some m /\ zlen m = zlen dst /\
    (forall o k, 0 <= o -> 0 <= k -> o + k <= n -> sub_bytes m (d + o) k = sub_bytes src (s + o) k) /\
    (forall o k, o + k <= d \/ d + n <= o -> sub_bytes m o k = sub_bytes dst o k).
Proof.
  intros Hd Hs Hn Hdn Hsn. pose proof (sub_bytes_ok src s n Hs Hn Hsn) as Es. set (bs := take _ _) in Es.
  assert (zlen bs = n) as El by by apply sub_bytes_spec in Es as (_ & _ & _ & ? & _).
  destruct (put_bytes_spec dst d bs Hd ltac:(lia)) as (m & E1 & E2 & E3 & E4). rewrite El in *. exists m.
  unfold copy_pixels. rewrite Es. split; [done|]. split; [done|]. split; [|done].
  intros o k Ho Hk Hok. rewrite (sub_bytes_sub _ _ _ _ _ _ E3), (sub_bytes_sub _ _ _ _ _ _ Es); done.
Qed.

Lemma copy_rows_spec dst src dp len (off : Z -> Z) n : 0 <= n -> 0 <= len <= dp ->
  (forall y, 0 <= y < n -> 0 <= off y /\ off y + len <= zlen src /\ y * dp + len <= zlen dst) ->
  exists m, for_each (seqZ 0 n) (fun y m => copy_pixels m (y * dp) src (off y) len) dst = Some m /\ zlen m = zlen dst /\
    (forall y o k, 0 <= y < n -> 0 <= o -> 0 <= k -> o + k <= len -> sub_bytes m (y * dp + o) k = sub_bytes src (off y + o) k) /\
    (forall o k, 0 <= k -> (forall y, 0 <= y < n -> o + k <= y * dp \/ y * dp + len <= o) -> sub_bytes m o k = sub_bytes dst o k).
Proof.
  intros Hn Hlen. revert Hn. apply (natlike_ind (fun n => (forall y, 0 <= y < n -> 0 <= off y /\ off y + len <= zlen src /\ y * dp + len <= zlen dst) ->
    exists m, for_each (seqZ 0 n) (fun y m => copy_pixels m (y * dp) src (off y) len) dst = Some m /\ zlen m = zlen dst /\
    (forall y o k, 0 <= y < n -> 0 <= o -> 0 <= k -> o + k <= len -> sub_bytes m (y * dp + o) k = sub_bytes src (off y + o) k) /\
    (forall o k, 0 <= k -> (forall y, 0 <= y < n -> o + k <= y * dp \/ y * dp + len <= o) -> sub_bytes m o k = sub_bytes dst o k))).
  - intros _. exists dst. split_and!; [done|done|intros; lia|done].
  - intros x Hx IH H. rewrite <- Z.add_1_r in *. destruct IH as (m & E & L & Hin & Hout); [intros; apply H; lia|].
    destruct (H x ltac:(lia)) as (H1 & H2 & H3). destruct (copy_pixels_spec m (x * dp) src (off x) len ltac:(nia) H1 ltac:(lia) ltac:(lia) H2) as (m' & E' & L' & Hi' & Ho').
    exists m'. rewrite seqZ_snoc, for_each_app, E by done. cbn. rewrite E'. split_and!; [done|lia| |].
    + intros y o k Hy Ho Hk Hok. destruct (Z.eq_dec y x) as [->|Hne]; [by apply Hi'|]. rewrite Ho' by (left; nia). apply Hin; lia.
    + intros o k Hk Hy. rewrite Ho' by (apply Hy; lia). apply Hout; [done|]. intros y Hy'. apply Hy. lia.
Qed.

Lemma row_before w p v y u : 0 <= u < w -> 0 <= p -> v < y -> (v * w + u) * p + p <= y * (w * p).
Proof.
  intros Hu Hp Hv. assert ((v + 1) * w <= y * w) by (apply Z.mul_le_mono_nonneg_r; lia).
  assert ((v * w + u + 1) * p <= y * w * p) by (apply Z.mul_le_mono_nonneg_r; lia). lia.
Qed.

Lemma row_after w p v y u cw : 0 <= u -> 0 <= cw <= w -> 0 <= p -> y < v -> y * (w * p) + cw * p <= (v * w + u) * p.
Proof.
  intros Hu Hw Hp Hv. assert ((y + 1) * w <= v * w) by (apply Z.mul_le_mono_nonneg_r; lia).
  assert ((y * w + cw) * p <= (v * w + u) * p) by (apply Z.mul_le_mono_nonneg_r; lia). lia.
Qed.

Lemma row_end w h p y cw : 0 <= y < h -> 0 <= cw <= w -> 0 <= p -> 0 <= y * w * p /\ y * w * p + cw * p <= w * h * p.
Proof.
  intros Hy Hw Hp. assert ((y + 1) * w <= h * w) by (apply Z.mul_le_mono_nonneg_r; lia).
  assert ((y * w + cw) * p <= w * h * p) by (apply Z.mul_le_mono_nonneg_r; lia). split; [|lia]. apply Z.mul_nonneg_nonneg; nia.
Qed.

Lemma copy_rows_pixels dst src w cw p (off : Z -> Z) n : 0 <= n -> 0 <= cw <= w -> 0 <= p ->
  (forall y, 0 <= y < n -> 0 <= off y /\ off y + cw * p <= zlen src /\ y * (w * p) + cw * p <= zlen dst) ->
  exists m, for_each (seqZ 0 n) (fun y m => copy_pixels m (y * (w * p)) src (off y) (cw * p)) dst = Some m /\ zlen m = zlen dst /\
    forall u v, 0 <= u < w -> 0 <= v ->
      le_at p m ((v * w + u) * p) = if (v <? n) && (u <? cw) then le_at p src (off v + u * p) else le_at p dst ((v * w + u) * p).
Proof.
  intros Hn Hcw Hp H. destruct (copy_rows_spec dst src (w * p) (cw * p) off n Hn ltac:(nia) H) as (m & E & L & Hin & Hout).
  exists m. split; [done|]. split; [done|]. intros u v Hu Hv. unfold le_at.
  destruct (Z.ltb_spec v n) as [Hv'|Hv']; [destruct (Z.ltb_spec u cw) as [Hu'|Hu']|]; cbn [andb].
  - replace ((v * w + u) * p) with (v * (w * p) + u * p) by ring. rewrite Hin by nia. done.
  - rewrite Hout; [done|done|]. intros y Hy. destruct (Z.lt_trichotomy v y) as [Hl|[->|Hg]]; [left; by apply row_before|right; nia|right; apply row_after; lia].
  - rewrite Hout; [done|done|]. intros y Hy. right. apply row_after; lia.
Qed.

(** ** A refresh of the screen *)

(** The line of [top] shown on line [v] of the screen. *)
Definition shown_line (top : gfx_buffer) (v : Z) : Z := (drawBeginLineIndex top + v) mod gb_height top.

Definition shown (top : gfx_buffer) (u v : Z) : option Z :=
  if (u <? gb_width top) && (v <? gb_height top) then pixel top u (shown_line top v) else None.

Record top_ok (top : gfx_buffer) : Prop := {
  top_wf : gfx_wf top;
  top_bpp : gb_bpp top = 32;
  top_width : 0 < gb_width top;
  top_height : 0 < gb_height top;
  top_begin : 0 <= drawBeginLineIndex top < 2 ^ 31;
  top_bytes : Forall is_byte (gb_buffer top)
}.

Lemma src_line top y : top_ok top -> 0 <= y < 2 ^ 31 ->
  (if gb_height top <=? drawBeginLineIndex top +[size_bits] y then (drawBeginLineIndex top +[size_bits] y) mod gb_height top
   else drawBeginLineIndex top +[size_bits] y) = shown_line top y /\
  0 <= shown_line top y < gb_height top.
Proof.
  intros [Hwf _ _ Hh Hb _] Hy. rewrite wrap_size by lia. unfold shown_line. split; [|apply Z.mod_pos_bound; lia].
  destruct (Z.leb_spec (gb_height top) (drawBeginLineIndex top + y)); [done|]. rewrite Z.mod_small; lia.
Qed.

Lemma pixel_mod top u v c : top_ok top -> pixel top u v = Some c -> c mod 256 ^ 4 = c.
Proof.
  intros [_ Eb _ _ _ Hb] Hp. unfold pixel, le_at in Hp. destruct (sub_bytes _ _ _) as [bs|] eqn:E; [|done]. injection Hp as <-.
  apply sub_bytes_spec in E as (_ & _ & _ & El & ->). apply Z.mod_small.
  assert (zlen (take (Z.to_nat (px top)) (drop (Z.to_nat ((v * gb_width top + u) * px top)) (gb_buffer top))) = 4) as E4 by (rewrite El; unfold px; by rewrite Eb).
  rewrite <- E4. apply le_range. by apply Forall_take, Forall_drop.
Qed.

(** The row of [top] from which line [y] of the screen is copied. *)
Lemma top_row top y cw : top_ok top -> 0 <= y < 2 ^ 31 -> 0 <= cw <= gb_width top ->
  0 <= shown_line top y * (gb_width top * 4) < 2 ^ 32 /\ shown_line top y * (gb_width top * 4) + cw * 4 <= zlen (gb_buffer top).
Proof.
  intros Ht Hy Hcw. destruct (src_line top y Ht Hy) as [_ Hl]. destruct Ht as [[_ _ _ Hr Hm] Eb Hw _ _ _]. unfold px in *. rewrite Eb in *. change (32 / 8) with 4 in *. nia.
Qed.

Lemma px4 b : gb_bpp b = 32 -> px b = 4.
Proof. unfold px. by intros ->. Qed.

Lemma shown_pixel top hw u v c : top_ok top -> visible hw u v -> (v <? gb_height top) && (u <? gb_width top) = true ->
  le_at 4 (gb_buffer top) (shown_line top v * (gb_width top * 4) + u * 4) = Some c -> shown top u v = Some c /\ c mod 256 ^ 4 = c.
Proof.
  intros Ht Hv Hin E. unfold shown. rewrite andb_comm in Hin. rewrite Hin.
  assert (pixel top u (shown_line top v) = Some c) as Ep. { unfold pixel. rewrite (px4 _ (top_bpp _ Ht)), <- E. f_equal. ring. }
  split; [done|]. by eapply pixel_mod.
Qed.

(** A state in which the first registered buffer is [top] and the hardware buffer is [hw]. *)
Record screen_ok (g : Gfx) (p : Z) (top hw : gfx_buffer) : Prop := {
  sc_list : exists ps, list_view (list_nodes g) (gfx_buffers g) (p :: ps) /\ Z.of_nat (length (p :: ps)) <= 2 ^ 63;
  sc_p : p <> NULL;
  sc_top : buffer_objects g !! p = Some top;
  sc_hw : buffer_objects g !! hardware_buffer g = Some hw;
  sc_hw_p : hardware_buffer g <> NULL /\ hardware_buffer g <> p;
  sc_top_ok : top_ok top;
  sc_hw_wf : gfx_wf hw
}.

Lemma screen_list g p top hw : screen_ok g p top hw ->
  List_GetAt (list_nodes g) (gfx_buffers g) 0 = Some p /\ List_IsEmpty (gfx_buffers g) = false /\ exists l, gfx_buffers g = Some l.
Proof.
  intros [(ps & (l & ns & El & Hrep & Ens) & Hn) _ _ _ _ _ _]. rewrite El. assert (length ns = length (p :: ps)) as Eln by by rewrite <- Ens, length_fmap.
  destruct (list_queries_spec _ l ns Hrep ltac:(lia)) as (_ & He & Hg & _). rewrite Hg, Ens by lia. split_and!; [done| |by exists l].
  destruct (List_IsEmpty (Some l)) ; [|done]. rewrite Ens in He. by pose proof (proj1 He eq_refl).
Qed.

(** The copying of [gfx_draw_bpp32], on the memory of the frame buffer. *)
Lemma bpp32_copy top hw : top_ok top -> gfx_wf hw -> gb_bpp hw = 32 ->
  let copy_width := if gb_width top <? gb_width hw then gb_width top else gb_width hw in
  let copy_height := if gb_height top <? gb_height hw then gb_height top else gb_height hw in
  exists mem, for_each (seqZ 0 copy_height) (fun y mem =>
      let src_y := drawBeginLineIndex top +[size_bits] y in
      let src_y := if gb_height top <=? src_y then src_y mod gb_height top else src_y in
      copy_pixels mem (y *[size_bits] (gb_width hw *[size_bits] 4)) (gb_buffer top) (src_y *[size_bits] (gb_width top *[size_bits] 4)) (copy_width *[size_bits] 4))
      (gb_buffer hw) = Some mem /\ overlay hw (set_pixels hw mem (isDirty hw)) (shown top).
Proof.
  intros Ht Hwf Eb cw ch. pose proof (wf_width _ Hwf). pose proof (wf_height _ Hwf). pose proof (wf_room _ Hwf) as Hr. pose proof (wf_mem _ Hwf) as Hm.
  rewrite (px4 _ Eb) in *. pose proof (wf_width _ (top_wf _ Ht)). pose proof (top_width _ Ht). pose proof (top_height _ Ht).
  assert (cw = Z.min (gb_width top) (gb_width hw)) as Ecw by (unfold cw; destruct (Z.ltb_spec (gb_width top) (gb_width hw)); lia).
  assert (ch = Z.min (gb_height top) (gb_height hw)) as Ech by (unfold ch; destruct (Z.ltb_spec (gb_height top) (gb_height hw)); lia).
  destruct (copy_rows_pixels (gb_buffer hw) (gb_buffer top) (gb_width hw) cw 4 (fun y => shown_line top y * (gb_width top * 4)) ch) as (mem & E & L & Hp); [lia..| |].
  { intros y Hy. destruct (top_row top y cw Ht ltac:(lia) ltac:(lia)) as [H3' H4']. split_and!; [lia|done|]. nia. }
  exists mem. split.
  - rewrite <- E. apply for_each_ext. intros y m Hy%elem_of_seqZ. cbv zeta. destruct (src_line top y Ht ltac:(lia)) as [-> Hl].
    pose proof (top_row top y cw Ht ltac:(lia) ltac:(lia)). pose proof (wf_room _ (top_wf _ Ht)) as Hr'. rewrite (px4 _ (top_bpp _ Ht)) in Hr'.
    rewrite !(wrap_size (_ * 4)) by nia. rewrite !wrap_size by nia. done.
  - split; [split; done|]. intros u v Hv. unfold pixel. rewrite (px4 (set_pixels _ _ _)), (px4 hw) by done. cbn [gb_width gb_buffer set_pixels].
    rewrite Hp by (unfold visible in Hv; lia). unfold shown. destruct Hv as [Hu Hv]. rewrite (andb_comm (u <? _)).
    destruct (Z.ltb_spec v ch), (Z.ltb_spec v (gb_height top)); try lia; cbn [andb]; [|done].
    destruct (Z.ltb_spec u cw), (Z.ltb_spec u (gb_width top)); try lia; [|done].
    destruct (top_row top v (u + 1) Ht ltac:(lia) ltac:(lia)) as [H7' H8']. destruct (le_at_some 4 (gb_buffer top) (shown_line top v * (gb_width top * 4) + u * 4)) as [c Ec]; [lia..|].
    rewrite Ec. destruct (shown_pixel top hw u v c Ht (conj Hu Hv)) as [Es Emod]; [|done|].
    { rewrite !(proj2 (Z.ltb_lt _ _)) by lia. done. }
    unfold shown in Es. rewrite !(proj2 (Z.ltb_lt _ _)) in Es by lia. cbn [andb] in Es. rewrite Es. by rewrite Emod.
Qed.

Lemma gfx_draw_bpp32_shows g p top hw : screen_ok g p top hw -> gb_bpp hw = 32 ->
  exists hw', gfx_draw_bpp32 g = Some (with_object g (hardware_buffer g) hw') /\ overlay hw hw' (shown top).
Proof.
  intros Hs Eb. destruct (screen_list _ _ _ _ Hs) as (Hg & _ & _). destruct Hs as [_ Hp Htop Hhw _ Ht Hwf].
  unfold gfx_draw_bpp32. rewrite Hg. cbn [mbind option_bind]. rewrite (proj2 (Z.eqb_neq _ _) Hp), Htop. cbn [mbind option_bind].
  pose proof (top_width _ Ht). pose proof (top_height _ Ht). rewrite (proj2 (Z.eqb_neq (gb_width top) 0)), (proj2 (Z.eqb_neq (gb_height top) 0)) by lia.
  cbn [orb]. rewrite Hhw. cbn [mbind option_bind]. cbv zeta.
  destruct (bpp32_copy top hw Ht Hwf Eb) as (mem & E & O). cbv zeta in E.
  destruct ((gb_bpp top =? gb_bpp hw) && _ && _ && _) eqn:Efast.
  - repeat (apply andb_prop in Efast as [Efast ?]). rewrite !Z.eqb_eq in *. clear E O mem.
    pose proof (wf_room _ Hwf) as Hr. pose proof (wf_mem _ Hwf) as Hm. pose proof (wf_mem _ (top_wf _ Ht)) as Hm'. rewrite (px4 _ Eb) in *. rewrite (px4 _ (top_bpp _ Ht)) in *.
    pose proof (wf_width _ Hwf). pose proof (wf_height _ Hwf).
    unfold wrap at 2. rewrite Z.mod_small, wrap_size by nia.
    destruct (copy_pixels_spec (gb_buffer hw) 0 (gb_buffer top) 0 (gb_width top * gb_height top * 4)) as (mem & E & L & Hin & _); [nia..|].
    rewrite E. exists (set_pixels hw mem (isDirty hw)). split; [done|]. split; [split; done|]. intros u v [Hu Hv].
    unfold pixel. rewrite (px4 (set_pixels _ _ _)), (px4 hw) by done. cbn [gb_width gb_buffer set_pixels].
    pose proof (index_range _ _ _ _ Hu Hv) as Hi. destruct (le_at_some 4 (gb_buffer top) ((v * gb_width top + u) * 4)) as [c Ec]; [nia..|].
    destruct (shown_pixel top hw u v c Ht (conj Hu Hv)) as [Es Emod].
    { rewrite !(proj2 (Z.ltb_lt _ _)) by lia. done. }
    { rewrite <- Ec. f_equal. unfold shown_line. rewrite Z.mod_small by lia. lia. }
    rewrite Es, Emod, <- Ec. unfold le_at. f_equal. rewrite <- (Z.add_0_l ((v * gb_width hw + u) * 4)), Hin by nia. f_equal. lia.
  - rewrite E. exists (set_pixels hw mem (isDirty hw)). done.
Qed.

Lemma set_pixels_id b : set_pixels b (gb_buffer b) (isDirty b) = b.
Proof. by destruct b. Qed.

(** The store of a pixel of [gfx_draw_bpp24], on a buffer. *)
Definition store24 (top hw : gfx_buffer) (y x : Z) (mem : bytes) : option bytes :=
  pixel ← pixel top x (shown_line top y); put_bytes mem ((y * gb_width hw + x) * 3) (le_bytes 3 pixel).

Definition cell24 (top hw : gfx_buffer) (y x : Z) (d : option gfx_buffer) : option (option gfx_buffer) :=
  b ← d; mem ← store24 top hw y x (gb_buffer b); Some (Some (set_pixels b mem (isDirty b))).

Lemma cell24_paints top hw x y : top_ok top -> gfx_wf hw -> gb_bpp hw = 24 -> 0 <= x < Z.min (gb_width top) (gb_width hw) ->
  0 <= y < Z.min (gb_height top) (gb_height hw) ->
  paints hw (cell24 top hw y x) (fun u v => if (u =? 0 + x) && (v =? 0 + y) then shown top u v else None).
Proof.
  intros Ht Hwf0 Eb Hx Hy b0 S0. pose proof (same_shape_wf _ _ S0 Hwf0) as Hwf. destruct (same_shape_eq _ _ S0) as (Ew & Eh & Ebpp & _).
  pose proof (wf_height _ Hwf0). destruct (top_row top y (x + 1) Ht ltac:(lia) ltac:(lia)) as [H1 H2].
  destruct (le_at_some 4 (gb_buffer top) ((shown_line top y * gb_width top + x) * 4)) as [c Ec]; [lia..|].
  assert (pixel top x (shown_line top y) = Some c) as Ep by (unfold pixel; by rewrite (px4 _ (top_bpp _ Ht))).
  unfold cell24, store24. rewrite Ep. cbn [mbind option_bind]. assert (px b0 = 3) as E3 by (unfold px; by rewrite Ebpp, Eb).
  destruct (store_pixel b0 x y c Hwf) as (mem & E & O); [unfold visible; lia|]. rewrite E3 in E. change (Z.to_nat 3) with 3%nat in E. rewrite Ew in E. rewrite E. cbn [mbind option_bind].
  eexists. split; [done|]. eapply overlay_ext; [apply O|]. intros u v _. cbn. rewrite !Z.add_0_l.
  destruct (Z.eqb_spec u x) as [->|Hu], (Z.eqb_spec v y) as [->|Hv]; case_decide; simplify_eq; try done. cbn [andb]. unfold shown.
  by rewrite !(proj2 (Z.ltb_lt _ _)) by lia.
Qed.

Lemma gfx_draw_bpp24_shows g p top hw : screen_ok g p top hw -> gb_bpp hw = 24 ->
  exists hw', gfx_draw_bpp24 g = Some (with_object g (hardware_buffer g) hw') /\ overlay hw hw' (shown top).
Proof.
  intros Hs Eb. destruct (screen_list _ _ _ _ Hs) as (Hg & _ & _). destruct Hs as [_ Hp Htop Hhw _ Ht Hwf].
  unfold gfx_draw_bpp24. rewrite Hg. cbn [mbind option_bind]. rewrite (proj2 (Z.eqb_neq _ _) Hp), Htop. cbn [mbind option_bind].
  pose proof (top_width _ Ht). pose proof (top_height _ Ht). rewrite (proj2 (Z.eqb_neq (gb_width top) 0)), (proj2 (Z.eqb_neq (gb_height top) 0)) by lia.
  cbn [orb]. rewrite Hhw. cbn [mbind option_bind]. cbv zeta. set (cw := if _ <? _ then gb_width top else _). set (ch := if _ <? _ then gb_height top else _).
  assert (cw = Z.min (gb_width top) (gb_width hw)) as Ecw by (unfold cw; destruct (Z.ltb_spec (gb_width top) (gb_width hw)); lia).
  assert (ch = Z.min (gb_height top) (gb_height hw)) as Ech by (unfold ch; destruct (Z.ltb_spec (gb_height top) (gb_height hw)); lia).
  clearbody cw ch. subst cw ch. pose proof (wf_width _ Hwf). pose proof (wf_height _ Hwf). pose proof (wf_room _ Hwf) as Hr.
  pose proof (wf_room _ (top_wf _ Ht)) as Hr'. rewrite (px4 _ (top_bpp _ Ht)) in Hr'. assert (px hw = 3) as E3 by (unfold px; by rewrite Eb). rewrite E3 in Hr.
  destruct (cells_paint hw 0 0 (Z.min (gb_width top) (gb_width hw)) (Z.min (gb_height top) (gb_height hw)) (cell24 top hw)
    (fun u v => if (0 <=? u) && (0 <=? v) && (u <? gb_width hw) && (v <? gb_height hw) then shown top u v else None)) with (b0 := hw) as (hw' & E & O).
  - lia.
  - lia.
  - intros i j Hi Hj. eapply paints_ext; [apply cell24_paints; lia || done|done|]. intros u v _. rewrite !Z.add_0_l.
    destruct (Z.eqb_spec u i) as [->|], (Z.eqb_spec v j) as [->|]; cbn [andb]; try done.
    rewrite !(proj2 (Z.leb_le _ _)), !(proj2 (Z.ltb_lt _ _)) by lia. done.
  - intros u v Hn. unfold shown. destruct (Z.leb_spec 0 u), (Z.leb_spec 0 v), (Z.ltb_spec u (gb_width hw)), (Z.ltb_spec v (gb_height hw)); cbn [andb]; try done.
    destruct (Z.ltb_spec u (gb_width top)), (Z.ltb_spec v (gb_height top)); cbn [andb]; done || lia.
  - apply same_shape_refl.
  - assert (overlay hw hw' (shown top)) as O'.
    { eapply overlay_ext; [exact O|]. intros u v [Hu Hv]. cbn. by rewrite !(proj2 (Z.leb_le _ _)), !(proj2 (Z.ltb_lt _ _)) by lia. }
    exists hw'. split; [|done].
    assert (forall y x b, cell24 top hw y x (Some b) = (fun m => Some (set_pixels b m (isDirty b))) <$> store24 top hw y x (gb_buffer b)) as Esim
      by (intros; unfold cell24; cbn; by destruct (store24 _ _ _ _ _)).
    rewrite <- (set_pixels_id hw) in E at 2.
    rewrite (for_each_sim (fun m => Some (set_pixels hw m (isDirty hw))) _ (fun y => for_each (seqZ 0 (Z.min (gb_width top) (gb_width hw))) (store24 top hw y))) in E.
    2: { intros y m _. apply (for_each_sim (fun m => Some (set_pixels hw m (isDirty hw)))). intros x m' _. by rewrite Esim. }
    rewrite (for_each_ext _ (fun y => for_each (seqZ 0 (Z.min (gb_width top) (gb_width hw))) (store24 top hw y))).
    + destruct (for_each _ _ _) as [mem|]; [|done]. injection E as <-. done.
    + intros y m Hy%elem_of_seqZ. apply for_each_ext. intros x m' Hx%elem_of_seqZ. destruct (src_line top y Ht ltac:(lia)) as [-> Hl].
      unfold store24, pixel. rewrite (px4 _ (top_bpp _ Ht)). rewrite (wrap_size (shown_line top y * _ + x)), (wrap_size (_ * 4)) by nia.
      destruct (le_at _ _ _) as [c|]; [|done]. cbn [mbind option_bind].
      rewrite (wrap_size (y * _ + x)), wrap_size by nia. done.
Qed.

(** ** The cursor *)

Definition cursor_bytes : bytes := mjoin (le_bytes 4 <$> full_cursor_bitmap).

Definition cursor_pic (mouse : Mouse) (hw : gfx_buffer) (u v : Z) : option Z :=
  if mouse_enabled mouse && bitmap_fits hw (cursor_X mouse) (cursor_Y mouse) 13 18
  then bitmap_pic cursor_bytes (cursor_X mouse) (cursor_Y mouse) 13 18 u v else None.

Lemma mouse_draw_paints mouse g hw : buffer_objects g !! hardware_buffer g = Some hw -> gfx_wf hw -> hardware_buffer g <> NULL ->
  int_range (cursor_X mouse) -> int_range (cursor_Y mouse) ->
  exists hw', __mouse_draw mouse g = Some (with_object g (hardware_buffer g) hw') /\ overlay hw hw' (cursor_pic mouse hw).
Proof.
  intros Hhw Hwf Hp Hx Hy. unfold __mouse_draw, cursor_pic. rewrite (proj2 (Z.eqb_neq _ _) Hp), orb_false_r. destruct (mouse_enabled mouse); cbn [negb andb].
  - rewrite Hhw. cbn [mbind option_bind].
    destruct (gfx_draw_bitmap_paints hw cursor_bytes (cursor_X mouse) (cursor_Y mouse) 13 18 Hwf Hx Hy ltac:(lia) ltac:(lia) ltac:(lia) ltac:(done) hw (same_shape_refl hw)) as (hw' & E & O).
    unfold cursor_bytes in E. rewrite E. by exists hw'.
  - exists hw. split; [|apply overlay_refl]. f_equal. destruct g. unfold with_object. cbn in *. by rewrite insert_id.
Qed.

Lemma bitmap_fits_shape b b' x y w h : same_shape b b' -> bitmap_fits b' x y w h = bitmap_fits b x y w h.
Proof. intros (E1 & E2 & _)%same_shape_eq. unfold bitmap_fits. by rewrite E1, E2. Qed.


(** ** Buffers of another size *)

(** [gfx_resize_buffer] with memory of the new size returns a well-formed
    buffer of the new size whose pixels are the old ones wherever the two sizes
    overlap, and the contents of the new memory elsewhere; without memory, or
    for an empty size, the buffer is unchanged. *)
Theorem gfx_resize_buffer_spec b nw nh mem : gfx_wf b -> 0 <= nw < 2 ^ 31 -> 0 <= nh < 2 ^ 31 -> nw * nh * px b < 2 ^ 32 ->
  (forall nb, mem (nw * nh * px b) = Some nb -> zlen nb = nw * nh * px b) ->
  match mem (nw * nh * px b) with
  | Some nb =>
    nw <> 0 -> nh <> 0 ->
    exists b', gfx_resize_buffer (Some b) nw nh mem = Some (Some b', true) /\ gfx_wf b' /\
      gb_width b' = nw /\ gb_height b' = nh /\ isDirty b' = true /\ drawBeginLineIndex b' = drawBeginLineIndex b /\
      forall u v, visible b' u v ->
        pixel b' u v = if (v <? gb_height b) && (u <? gb_width b) then pixel b u v else le_at (px b) nb ((v * nw + u) * px b)
  | None => gfx_resize_buffer (Some b) nw nh mem = Some (Some b, false)
  end /\ (nw = 0 \/ nh = 0 -> gfx_resize_buffer (Some b) nw nh mem = Some (Some b, false)).
Proof.
  intros Hwf Hw Hh Hr Hmem. assert (0 <= px b <= 4) as Hpx by (destruct (wf_px b Hwf) as [[-> _]|[-> _]]; lia). unfold gfx_resize_buffer. fold (px b).
  rewrite (wrap_size (nw * nh * px b)) by nia. split.
  2: { intros Hz. destruct (Z.eqb_spec nw 0), (Z.eqb_spec nh 0); cbn [orb]; done || lia. }
  destruct (mem (nw * nh * px b)) as [nb|]; [|by destruct (_ || _)]. specialize (Hmem nb eq_refl). intros Hw0 Hh0.
  rewrite (proj2 (Z.eqb_neq _ _) Hw0), (proj2 (Z.eqb_neq _ _) Hh0). cbn [orb]. cbv zeta. set (cw := if _ <? _ then nw else _). set (ch := if _ <? _ then nh else _).
  pose proof (wf_width _ Hwf). pose proof (wf_height _ Hwf). pose proof (wf_room _ Hwf) as Hr'. pose proof (wf_mem _ Hwf) as Hm.
  assert (cw = Z.min nw (gb_width b)) as Ecw by (unfold cw; destruct (Z.ltb_spec nw (gb_width b)); lia).
  assert (ch = Z.min nh (gb_height b)) as Ech by (unfold ch; destruct (Z.ltb_spec nh (gb_height b)); lia).
  destruct (copy_rows_pixels nb (gb_buffer b) nw cw (px b) (fun y => y * gb_width b * px b) ch) as (m & E & L & Hp); [lia..| |].
  { intros y Hy. pose proof (row_end (gb_width b) (gb_height b) (px b) y cw ltac:(lia) ltac:(lia) ltac:(lia)).
    pose proof (row_end nw nh (px b) y cw ltac:(lia) ltac:(lia) ltac:(lia)). split_and!; lia. }
  rewrite (for_each_ext _ (fun y m => copy_pixels m (y * (nw * px b)) (gb_buffer b) (y * gb_width b * px b) (cw * px b))).
  2: { intros y m' Hy%elem_of_seqZ. pose proof (row_end (gb_width b) (gb_height b) (px b) y cw ltac:(lia) ltac:(lia) ltac:(lia)).
    pose proof (row_end nw nh (px b) y cw ltac:(lia) ltac:(lia) ltac:(lia)). assert (0 <= cw * px b) by nia. rewrite !wrap_size by lia. f_equal. ring. }
  rewrite E. cbn [mbind option_bind]. unfold wrap. rewrite !Z.mod_small by lia. eexists. split; [done|]. split; [|cbn; split_and!; try done].
  - split; unfold px; cbn; try done; try apply Hwf; fold (px b); lia.
  - intros u v [Hu Hv]. cbn in Hu, Hv. unfold pixel, px at 1 3. cbn. fold (px b). rewrite Hp by lia.
    destruct (Z.ltb_spec v ch), (Z.ltb_spec v (gb_height b)); try lia; cbn [andb]; [|done].
    destruct (Z.ltb_spec u cw), (Z.ltb_spec u (gb_width b)); try lia; [|done]. f_equal. ring.
Qed.
End Screen.

(** ** Sequences of drawing operations *)

Inductive draw_op :=
| DrawPixel (x y : Z)
| DrawLine (x1 y1 x2 y2 : Z)
| DrawRectangle (x y w h : Z)
| FillRectangle (x y w h : Z)
| DrawCircle (x y r : Z)
| FillCircle (x y r : Z)
| DrawTriangle (x1 y1 x2 y2 x3 y3 : Z)
| DrawChar (x y c : Z) (fnt : gfx_font)
| DrawText (x y : Z) (text : bytes) (fnt : gfx_font)
| DrawBitmap (x y : Z) (src : bytes) (w h : Z)
| ClearBuffer.

Definition run_op `{Arch} (o : draw_op * Z) (d : option gfx_buffer) : option (option gfx_buffer) :=
  let '(op, c) := o in
  match op with
  | DrawPixel x y => gfx_draw_pixel d x y c
  | DrawLine x1 y1 x2 y2 => gfx_draw_line d x1 y1 x2 y2 c
  | DrawRectangle x y w h => gfx_draw_rectangle d x y w h c
  | FillRectangle x y w h => gfx_fill_rectangle d x y w h c
  | DrawCircle x y r => gfx_draw_circle d x y r c
  | FillCircle x y r => gfx_fill_circle d x y r c
  | DrawTriangle x1 y1 x2 y2 x3 y3 => gfx_draw_triangle d x1 y1 x2 y2 x3 y3 c
  | DrawChar x y ch fnt => gfx_draw_char d x y ch c (Some fnt)
  | DrawText x y text fnt => gfx_draw_text d x y (Some text) c (Some fnt)
  | DrawBitmap x y src w h => gfx_draw_bitmap d x y (Some src) w h
  | ClearBuffer => gfx_clear_buffer d c
  end.

(** Coordinates that do not overflow, complete fonts and complete bitmaps. *)
Definition op_ok (op : draw_op) : Prop :=
  match op with
  | DrawPixel x y => int_range x /\ int_range y
  | DrawLine x1 y1 x2 y2 => small x1 /\ small y1 /\ small x2 /\ small y2
  | DrawRectangle x y w h => small x /\ small y /\ small (x + w - 1) /\ small (y + h - 1)
  | FillRectangle x y w h => small x /\ small y /\ w < 2 ^ 28 /\ h < 2 ^ 28
  | DrawCircle x y r | FillCircle x y r => small x /\ small y /\ small r
  | DrawTriangle x1 y1 x2 y2 x3 y3 => small x1 /\ small y1 /\ small x2 /\ small y2 /\ small x3 /\ small y3
  | DrawChar x y c fnt => small x /\ small y /\ 0 <= c < 256 /\ font_ok fnt
  | DrawText x y text fnt => small x /\ small y /\ small (x + zlen text * gf_width fnt) /\ Forall is_byte text /\ font_ok fnt
  | DrawBitmap x y src w h => int_range x /\ int_range y /\ 0 <= w < 2 ^ 30 /\ 0 <= h < 2 ^ 30 /\ w * h * 4 < 2 ^ 32 /\ w * h * 4 <= zlen src
  | ClearBuffer => True
  end.

Section Ops.
Context `{A : Arch}.
Variable b : gfx_buffer.
Hypothesis Hwf : gfx_wf b.

(** [f] returns, and changes at most the pixels. *)
Definition keeps (f : option gfx_buffer -> option (option gfx_buffer)) : Prop :=
  forall b0, same_shape b b0 -> exists b1, f (Some b0) = Some (Some b1) /\ same_shape b b1.

Lemma paints_keeps f p : paints b f p -> keeps f.
Proof. intros H b0 S0. destruct (H b0 S0) as (b1 & E & [S1 _]). exists b1. split; [done|]. by eapply same_shape_trans. Qed.

Lemma keeps_bind f g : keeps f -> keeps g -> keeps (fun d => d ← f d; g d).
Proof. intros Hf Hg b0 S0. destruct (Hf b0 S0) as (b1 & -> & S1). cbn. by apply Hg. Qed.

Lemma keeps_for {X} (xs : list X) f : (forall x, x ∈ xs -> keeps (f x)) -> keeps (for_each xs f).
Proof.
  induction xs as [|x xs IH]; intros H; [intros b0 S0; by exists b0|]. apply keeps_bind; [apply H; set_solver|apply IH; set_solver].
Qed.

Lemma keeps_ext f g : keeps f -> (forall b0, g (Some b0) = f (Some b0)) -> keeps g.
Proof. intros H E b0 S0. rewrite E. by apply H. Qed.

Lemma draw_points_keeps pts c : Forall int_point pts -> keeps (draw_points pts c).
Proof. intros H. by eapply paints_keeps, draw_points_draws. Qed.

Lemma gfx_draw_line_keeps x1 y1 x2 y2 c : small x1 -> small y1 -> small x2 -> small y2 -> keeps (fun d => gfx_draw_line d x1 y1 x2 y2 c).
Proof.
  intros H1 H2 H3 H4. destruct (gfx_draw_line_trace x1 y1 x2 y2 c H1 H2 H3 H4) as (pts & _ & Hi & E). by eapply keeps_ext; [apply (draw_points_keeps pts c)|].
Qed.

Lemma gfx_draw_rectangle_keeps x y w h c : op_ok (DrawRectangle x y w h) -> keeps (fun d => gfx_draw_rectangle d x y w h c).
Proof.
  intros (Hx & Hy & Hr & Hb). set (line := fun x1 y1 x2 y2 d => gfx_draw_line d x1 y1 x2 y2 c).
  apply (keeps_ext (fun d => d ← line x y (x + w - 1) y d; d ← line (x + w - 1) y (x + w - 1) (y + h - 1) d;
    d ← line (x + w - 1) (y + h - 1) x (y + h - 1) d; line x (y + h - 1) x y d)).
  - do 3 (apply keeps_bind; [by apply gfx_draw_line_keeps|]). by apply gfx_draw_line_keeps.
  - intros b0. unfold gfx_draw_rectangle, small in *. rewrite (ckint_ok (x + w)), (ckint_ok (y + h)) by (unfold int_range; lia). cbn [mbind option_bind].
    by rewrite (ckint_ok (x + w - 1)), (ckint_ok (y + h - 1)) by (unfold int_range; lia).
Qed.

Lemma gfx_draw_triangle_keeps x1 y1 x2 y2 x3 y3 c : op_ok (DrawTriangle x1 y1 x2 y2 x3 y3) -> keeps (fun d => gfx_draw_triangle d x1 y1 x2 y2 x3 y3 c).
Proof.
  intros (H1 & H2 & H3 & H4 & H5 & H6). set (line := fun x1 y1 x2 y2 d => gfx_draw_line d x1 y1 x2 y2 c).
  apply (keeps_ext (fun d => d ← line x1 y1 x2 y2 d; d ← line x2 y2 x3 y3 d; line x3 y3 x1 y1 d)); [|done].
  do 2 (apply keeps_bind; [by apply gfx_draw_line_keeps|]). by apply gfx_draw_line_keeps.
Qed.

(** The loop shared by the circles, whatever a round draws. *)
Lemma circle_loop_keeps draw r f d : 0 < r < 2 ^ 28 -> f = 1 - r -> d = -2 * r ->
  (forall i j, 0 <= i <= r + 1 -> 0 <= j <= r -> keeps (draw i j)) -> keeps (circle_loop (S (Z.to_nat r)) draw (f, 1, d, 0, r)).
Proof.
  intros Hr -> -> Hd. destruct (circle_loop_trace draw r (Z.to_nat r) ltac:(lia) 0 r (S (Z.to_nat r)) (circle_start r ltac:(lia)) ltac:(lia) ltac:(lia)) as (oct & [Ho _] & _ & E).
  eapply keeps_ext; [apply (keeps_for oct (fun p => draw p.1 p.2))|].
  - intros [i j] [n Hn]%list_elem_of_lookup. apply Ho in Hn as [_ [Hi Hj]%near_circle_le]. by apply Hd.
  - intros b0. rewrite <- E. unfold circle_state. do 2 f_equal. repeat (apply (f_equal2 pair)); lia.
Qed.

Lemma gfx_draw_circle_keeps x y r c : op_ok (DrawCircle x y r) -> keeps (fun d => gfx_draw_circle d x y r c).
Proof.
  intros (Hx & Hy & Hr). unfold small in *. intros b0 S0. unfold gfx_draw_circle. destruct (Z.leb_spec r 0); [by exists b0|].
  rewrite !ckint_ok by (unfold int_range; lia). cbn [mbind option_bind]. revert b0 S0.
  apply (keeps_bind (draw_points [(x, y + r); (x, y - r); (x + r, y); (x - r, y)] c)).
  - apply draw_points_keeps. repeat constructor; unfold int_range; cbn; lia.
  - apply circle_loop_keeps; [lia|done|done|]. intros i j Hi Hj. apply draw_points_keeps, octants_range; unfold small; lia.
Qed.

Lemma gfx_fill_circle_keeps x y r c : op_ok (FillCircle x y r) -> keeps (fun d => gfx_fill_circle d x y r c).
Proof.
  intros (Hx & Hy & Hr). unfold small in *. intros b0 S0. unfold gfx_fill_circle. destruct (Z.leb_spec r 0); [by exists b0|].
  rewrite !ckint_ok by (unfold int_range; lia). cbn [mbind option_bind]. revert b0 S0.
  apply (keeps_bind (for_each (span r) (fun i => draw_points [(x + i, y + r); (x + i, y - r)] c))).
  - apply keeps_for. intros i Hi%elem_of_seqZ. apply draw_points_keeps. repeat constructor; unfold int_range; cbn; lia.
  - apply circle_loop_keeps; [lia|done|done|]. intros i j Hi Hj. apply (keeps_bind (for_each (span i) _)); apply keeps_for; intros k Hk%elem_of_seqZ;
      apply draw_points_keeps; repeat constructor; unfold int_range; cbn; lia.
Qed.

Lemma gfx_draw_char_keeps x y ch c fnt : op_ok (DrawChar x y ch fnt) -> keeps (fun d => gfx_draw_char d x y ch c (Some fnt)).
Proof.
  intros (Hx & Hy & Hc & Hf). destruct (Z.lt_ge_cases x 0) as [Hx0|Hx0]; [|destruct (Z.lt_ge_cases y 0) as [Hy0|Hy0]].
  - intros b0 S0. exists b0. unfold gfx_draw_char. by rewrite (proj2 (Z.ltb_lt _ _) Hx0).
  - intros b0 S0. exists b0. unfold gfx_draw_char. by rewrite (proj2 (Z.ltb_lt _ _) Hy0), orb_true_r.
  - by eapply paints_keeps, gfx_draw_char_draws.
Qed.

Lemma text_loop_keeps fnt x y c : small x -> small y -> 0 <= x -> font_ok fnt ->
  forall text i, 0 <= i < 2 ^ 28 -> small (x + (i + zlen text) * gf_width fnt) -> Forall is_byte text -> keeps (text_loop text i x y c fnt).
Proof.
  intros Hx Hy Hx0 Hf. pose proof Hf as (_ & Hw & _). induction text as [|ch text IH]; intros i Hi Hs Hb; [intros b0 S0; by exists b0|].
  rewrite zlen_cons in Hs. pose proof (zlen_nonneg text). inversion_clear Hb. unfold small in *.
  assert (i + 1 < 2 ^ 28) by nia. intros b0 S0. cbn [text_loop].
  assert (0 <= i * gf_width fnt <= (i + (1 + zlen text)) * gf_width fnt) as Hiw
    by (split; [apply Z.mul_nonneg_nonneg; lia|apply Z.mul_le_mono_nonneg_r; lia]).
  assert (sign_of 32 (x +[32] (i *[32] gf_width fnt)) = x + i * gf_width fnt) as ->.
  { unfold wrap. rewrite (Z.mod_small (i * _)), Z.mod_small by lia. apply sign_of_small. lia. }
  destruct (gfx_draw_char_keeps (x + i * gf_width fnt) y ch c fnt) with (b0 := b0) as (b1 & -> & S1); [|done|].
  { cbn. unfold small. split_and!; try done; lia. }
  cbn [mbind option_bind]. rewrite ckint_ok by (unfold int_range; lia). cbn [mbind option_bind].
  apply IH; [lia| |done|done]. replace (i + 1 + zlen text) with (i + (1 + zlen text)) by lia. lia.
Qed.

Lemma gfx_draw_text_keeps x y text c fnt : op_ok (DrawText x y text fnt) -> keeps (fun d => gfx_draw_text d x y (Some text) c (Some fnt)).
Proof.
  intros (Hx & Hy & Hs & Hb & Hf). intros b0 S0. unfold gfx_draw_text. destruct (Z.ltb_spec x 0); [by exists b0|].
  destruct (Z.ltb_spec y 0); [by exists b0|]. cbn [orb]. by apply text_loop_keeps.
Qed.

Lemma run_op_keeps o : op_ok o.1 -> keeps (run_op o).
Proof.
  destruct o as [op c]. cbn [fst]. intros Hok. unfold run_op. destruct op.
  - by eapply paints_keeps, gfx_draw_pixel_paints.
  - destruct Hok as (? & ? & ? & ?). by apply gfx_draw_line_keeps.
  - by apply gfx_draw_rectangle_keeps.
  - destruct Hok as (? & ? & ? & ?). by eapply paints_keeps, gfx_fill_rectangle_draws.
  - by apply gfx_draw_circle_keeps.
  - by apply gfx_fill_circle_keeps.
  - by apply gfx_draw_triangle_keeps.
  - by apply gfx_draw_char_keeps.
  - by apply gfx_draw_text_keeps.
  - destruct Hok as (? & ? & ? & ? & ? & ?). by eapply paints_keeps, gfx_draw_bitmap_paints.
  - by eapply paints_keeps, gfx_clear_buffer_draws.
Qed.


End Ops.

(** ** From initialisation to the first refresh *)

Section Init.
Context `{A : Arch}.

(** The memory [gfx_init] finds: a video mode with its frame buffer, and
    distinct fresh objects for the two buffers and the list node. *)
Record boot_ok (mode : ScreenMode) (g : Gfx) (hw sb node : Z) (mem : Z -> option bytes) (pixels : bytes) : Prop := {
  bt_mode : gfx_wf (mkBuf (sm_width mode) (sm_height mode) (sm_framebuffer mode) (sm_bpp mode) 0 true false (0, 0));
  bt_size : 0 < sm_width mode /\ 0 < sm_height mode /\ sm_width mode * sm_height mode * 4 < 2 ^ 32;
  bt_mem : mem (sm_width mode * sm_height mode * 4) = Some pixels;
  bt_len : zlen pixels = sm_width mode * sm_height mode * 4;
  bt_addr : hw <> NULL /\ sb <> NULL /\ addr_ok node /\ hw <> sb
}.

Lemma gfx_clear_buffer_black b : gfx_wf b -> gb_bpp b = 32 ->
  exists b', gfx_clear_buffer (Some b) 0xFF000000 = Some (Some b') /\ same_shape b b' /\
    forall u v, visible b u v -> pixel b' u v = Some 0xFF000000.
Proof.
  intros Hwf Eb. destruct (gfx_clear_buffer_draws b 0xFF000000 Hwf b (same_shape_refl b)) as (b' & E & S & Hp). exists b'. split; [done|]. split; [done|].
  intros u v Hv. rewrite Hp by done. unfold ink_at. rewrite decide_True by (apply grid_elem; unfold visible in Hv; lia). cbn. rewrite (px4 _ Eb). done.
Qed.

(** After [gfx_init] the screen buffer is the only registered buffer, it is
    black, and the frame buffer is still what it was. *)
Lemma gfx_init_black mode g raw hw sb node mem pixels d : boot_ok mode g hw sb node mem pixels -> sm_bpp mode < 2 ^ 32 ->
  exists g' top, gfx_init mode g (Some hw) (Some raw) (Some (sb, d)) mem (Some node) = Some g' /\
    list_view (list_nodes g') (gfx_buffers g') [sb] /\ gfx_buffers_busy g' = false /\ hardware_buffer g' = hw /\ screen_buffer g' = sb /\
    buffer_objects g' !! sb = Some top /\
    buffer_objects g' !! hw = Some (mkBuf (sm_width mode) (sm_height mode) (sm_framebuffer mode) (sm_bpp mode) 0 true false (0, 0)) /\
    gfx_wf top /\ gb_bpp top = 32 /\ gb_width top = sm_width mode /\ gb_height top = sm_height mode /\ drawBeginLineIndex top = 0 /\
    suppress_draw top = false /\ forall u v, visible top u v -> pixel top u v = Some 0xFF000000.
Proof.
  intros [Hm (Hw & Hh & Hr) Hmem Hlen (Hhw & Hsb & Hnode & Hne)] Hb. pose proof (wf_width _ Hm) as Hw'. pose proof (wf_height _ Hm) as Hh'. cbn in Hw', Hh'.
  assert (0 <= sm_bpp mode) as Hb' by (destruct (wf_bpp _ Hm) as [E|E]; cbn in E; lia).
  set (b0 := mkBuf (sm_width mode) (sm_height mode) pixels 32 0 d false (0, 0)).
  assert (gfx_wf b0) as Hwf by (split; unfold px, b0; cbn [gb_bpp gb_width gb_height gb_buffer]; change (32 / 8) with 4; lia).
  destruct (gfx_clear_buffer_black b0 Hwf eq_refl) as (top & Ec & S & Hp).
  unfold gfx_init, gfx_create_buffer. cbn [mbind option_bind List_Create List_Init gfx_buffers]. rewrite (wrap_size (_ * 4)), Hmem by nia. cbn [mbind option_bind].
  assert (forall z, 0 <= z < 2 ^ 32 -> wrap 32 z = z) as Hwr by (intros; by apply Z.mod_small). rewrite !Hwr by lia.
  unfold with_object. cbn [buffer_objects]. rewrite lookup_insert_eq. cbn [mbind option_bind]. fold b0. rewrite Ec. cbn [mbind option_bind].
  unfold gfx_screen_register_buffer, gfx_screen_has_buffer. cbn [gfx_buffers list_nodes List_IndexOf head index_loop].
  change (NULL =? NULL) with true. cbn [mbind option_bind Z.eqb negb]. cbn [List_InsertAt count Z.ltb Z.eqb Z.compare List_Add head].
  change (NULL =? NULL) with true. cbn [mbind option_bind fst snd].
  eexists _, top. split; [reflexivity|]. unfold with_list. cbn [list_nodes gfx_buffers gfx_buffers_busy hardware_buffer screen_buffer buffer_objects].
  destruct (same_shape_eq _ _ S) as (E1 & E2 & E3 & E4 & E5 & _). split_and!; try done.
  - eexists _, [(node, sb)]. split; [done|]. split; [|done]. unfold List_rep. cbn [lseg head tail count]. split_and!; try done.
    + exists NULL. by rewrite lookup_insert_eq.
    + apply NoDup_singleton.
    + by apply (Forall_singleton addr_ok node).
    + by rewrite wrap_size by (cbn; lia).
  - apply lookup_insert_eq.
  - rewrite lookup_insert_ne, lookup_insert_ne, lookup_insert_eq by done. done.
  - by eapply same_shape_wf.
  - intros u v Hv. apply Hp. by apply (same_shape_visible b0 top).
Qed.
End Init.

(** ** A small screen, and what it shows *)

Module Observed.
#[local] Instance arch : Arch := I386.

Definition small_buffer (bpp : Z) : gfx_buffer := mkBuf 9 9 (zeros (81 * (bpp / 8))) bpp 0 false false (0, 0).

Lemma small_wf bpp : bpp = 32 \/ bpp = 24 -> gfx_wf (small_buffer bpp).
Proof. intros [-> | ->]; split; unfold px; cbn [gb_bpp gb_width gb_height gb_buffer small_buffer]; vm_compute; intuition discriminate || auto. Qed.

Lemma gfx_draw_line_spec_witness : exists pts b', gfx_draw_line (Some (small_buffer 32)) 1 2 12 5 0xFFFFFFFF = Some (Some b') /\
  segment 1 2 12 5 pts /\ overlay (small_buffer 32) b' (ink_at pts 0xFFFFFFFF).
Proof. apply gfx_draw_line_spec; [apply small_wf; auto|unfold small; lia..]. Defined.

Lemma gfx_draw_circle_spec_witness : exists oct b', gfx_draw_circle (Some (small_buffer 24)) 4 4 6 0xFFFFFFFF = Some (Some b') /\ octant 6 0 ((0, 6) :: oct) /\
  overlay (small_buffer 24) b' (fun u v => if decide (reflected ((0, 6) :: oct) 4 4 u v) then ink 0xFFFFFFFF else None).
Proof. apply gfx_draw_circle_spec; [apply small_wf; auto|unfold small; lia..]. Defined.

(** The state after [gfx_init] for a mode of nine by nine pixels. *)
Definition mode9 (bpp : Z) : ScreenMode := mkMode 9 9 bpp (zeros (81 * (bpp / 8))).

Definition booted (bpp : Z) : option Gfx :=
  gfx_init (mode9 bpp) (mkGfx ∅ None false ∅ NULL NULL) (Some 16) (Some (mkList 1 2 3)) (Some (32, true)) (fun n => Some (zeros n)) (Some 64).

Definition shown_state : Gfx := mkGfx {[64 := mkListNode NULL 32]} (Some (mkList 64 64 1)) false
  (<[32 := mkBuf 9 9 (mjoin (replicate 81 [0; 0; 0; 255])) 32 0 true false (0, 0)]> {[16 := mkBuf 9 9 (zeros 243) 24 0 true false (0, 0)]}) 16 32.

Example booted_state : booted 24 = Some shown_state.
Proof. vm_compute. reflexivity. Qed.

Lemma shown_ok : screen_ok shown_state 32 (mkBuf 9 9 (mjoin (replicate 81 [0; 0; 0; 255])) 32 0 true false (0, 0)) (mkBuf 9 9 (zeros 243) 24 0 true false (0, 0)).
Proof.
  split; [|done|done|done|done| |].
  - exists []. split; [|done]. exists (mkList 64 64 1), [(64, 32)]. split; [done|]. split; [|done]. split_and!; try done.
    + cbn. split; [done|]. by exists NULL.
    + apply NoDup_singleton.
    + by apply (Forall_singleton addr_ok 64).
  - split; [split; vm_compute; intuition discriminate || auto|done..| |].
    + vm_compute; intuition discriminate.
    + apply Forall_forall. intros x Hx. apply list_elem_of_join in Hx as (l & Hx & Hl). apply elem_of_replicate in Hl as [-> _].
      repeat (apply elem_of_cons in Hx as [-> | Hx]; [lia|]). by apply elem_of_nil in Hx.
  - split; vm_compute; intuition discriminate || auto.
Qed.


Lemma gfx_resize_buffer_spec_witness : exists b', gfx_resize_buffer (Some (small_buffer 32)) 4 12 (fun n => Some (zeros n)) = Some (Some b', true) /\ gfx_wf b' /\
  gb_width b' = 4 /\ gb_height b' = 12 /\ isDirty b' = true /\ drawBeginLineIndex b' = 0 /\
  forall u v, visible b' u v -> pixel b' u v = if (v <? 9) && (u <? 9) then pixel (small_buffer 32) u v else le_at 4 (zeros 192) ((v * 4 + u) * 4).
Proof.
  refine (proj1 (gfx_resize_buffer_spec (small_buffer 32) 4 12 (fun n => Some (zeros n)) (small_wf 32 (or_introl eq_refl)) _ _ _ _) _ _);
    [lia|lia|reflexivity| |discriminate..]. intros nb E. injection E as <-. reflexivity.
Defined.


(** [gfx_fill_circle] leaves the centre of the disc unpainted, since the
    vertical spans start at the first column beside it, and draws the lines
    that touch the disc at the top and at the bottom over the whole width. *)
Definition disc : option gfx_buffer := d ← gfx_fill_circle (Some (small_buffer 32)) 4 4 3 0xFFFF0000; d.

Example fill_circle_hole : (b ← disc; pixel b 4 4) = Some 0.
Proof. vm_compute. reflexivity. Qed.

Example fill_circle_corners : (b ← disc; pixel b 1 1) = Some 0xFFFF0000 /\ (b ← disc; pixel b 7 7) = Some 0xFFFF0000.
Proof. vm_compute. done. Qed.

(** A rectangle of width zero is not empty: its outline is drawn from [x] to [x - 1]. *)
Example empty_rectangle_drawn : (b ← (d ← gfx_draw_rectangle (Some (small_buffer 32)) 4 4 0 1 0xFFFF0000; d); pixel b 3 4) = Some 0xFFFF0000.
Proof. vm_compute. reflexivity. Qed.

(** Near the right or the bottom edge the cursor is not drawn at all. *)
Lemma cursor_vanishes mouse hw : gb_width hw < cursor_X mouse + 13 \/ gb_height hw < cursor_Y mouse + 18 -> forall u v, cursor_pic mouse hw u v = None.
Proof.
  intros H u v. unfold cursor_pic, bitmap_fits. destruct (Z.leb_spec (cursor_X mouse + 13) (gb_width hw)), (Z.leb_spec (cursor_Y mouse + 18) (gb_height hw));
    rewrite ?andb_false_r; cbn [andb]; rewrite ?andb_false_r; try done. lia.
Qed.

(** Clearing with a colour whose alpha is zero leaves everything as it was. *)
Lemma clear_transparent b c : gfx_wf b -> alpha c = 0 -> exists b', gfx_clear_buffer (Some b) c = Some (Some b') /\ overlay b b' (fun _ _ => None).
Proof.
  intros Hwf Ha. destruct (gfx_clear_buffer_draws b c Hwf b (same_shape_refl b)) as (b' & E & O). exists b'. split; [done|]. eapply overlay_ext; [exact O|].
  intros u v _. unfold ink_at, ink. rewrite Ha. cbn. by case_decide.
Qed.

End Observed.
