(* ===== verification/Ps2Mouse.v ===== *)
(** * The PS/2 mouse ([kernel/driver/ps2mouse/ps2mouse.c])

    Start-up and switching of the mouse behind the second port of the 8042, and
    its interrupt handler, which collects packets of three bytes and moves the
    cursor of [mouse.c].  As for the keyboard the hardware is a state with
    the port instructions and its answers are not assumed; the second component
    of the state counts the calls of [io_wait].  A wait of [n] rounds is a
    recursion on [n]. *)

From S2P Require Import Prelude Bytes Gfx GfxSpec Ps2Controller.

Definition PS2_MOUSE_ALWAYS_1 : Z := 0x08.
Definition PS2_MOUSE_X_SIGN : Z := 0x10.
Definition PS2_MOUSE_Y_SIGN : Z := 0x20.
Definition PS2_MOUSE_OVERFLOW : Z := 0xC0. (* X_OVERFLOW | Y_OVERFLOW *)

(** The static variables of the driver and its line of the interrupt controller *)
Record Ps2mouse := mkPs2mouse {
  pm_enabled : bool;
  packet_buffer : bytes;
  packet_index : Z;
  ps2mouse_initialized : bool;
  pm_handler : bool;
  pm_irq : bool
}.

Section Driver.
Context {W : Type} `{!PortIO W}.

Local Abbreviation hw := (st (W * Z)).

Definition io_wait : hw unit := fun s => Some ((port_out s.1 0x80 0, s.2 + 1), tt).

Fixpoint wait_input_clear (limit : nat) : hw bool :=
  match limit with
  | O => mret false
  | S limit =>
      st ← inb 0x64;
      if Z.land st PS2_STATUS_IBF =? 0 then mret true else _ ← io_wait; wait_input_clear limit
  end.

Fixpoint wait_output_full (limit : nat) : hw bool :=
  match limit with
  | O => mret false
  | S limit =>
      st ← inb 0x64;
      if negb (Z.land st PS2_STATUS_OBF =? 0) then mret true else _ ← io_wait; wait_output_full limit
  end.

Fixpoint mouse_flush (n : nat) : hw unit :=
  match n with
  | O => mret tt
  | S n =>
      st ← inb 0x64;
      if negb (Z.land st PS2_STATUS_OBF =? 0) then _ ← inb 0x60; _ ← io_wait; mouse_flush n else mret tt
  end.

Definition mouse_write_cmd (cmd : Z) : hw bool :=
  ok ← wait_input_clear (Z.to_nat 100000);
  if negb ok then mret false else _ ← outb 0x64 cmd; mret true.

Definition mouse_write_data (data : Z) : hw bool :=
  ok ← wait_input_clear (Z.to_nat 100000);
  if negb ok then mret false else _ ← outb 0x60 data; mret true.

Definition ps2_write_aux (data : Z) : hw bool :=
  ok ← mouse_write_cmd 0xD4;
  if negb ok then mret false else mouse_write_data data.

Definition aux_ready (st : Z) : bool := Z.land st (Z.lor PS2_STATUS_OBF PS2_STATUS_AUX) =? Z.lor PS2_STATUS_OBF PS2_STATUS_AUX.

Fixpoint ps2_read_aux (limit : nat) : hw (option Z) :=
  match limit with
  | O => mret None
  | S limit =>
      st ← inb 0x64;
      if aux_ready st then b ← inb 0x60; mret (Some b) else _ ← io_wait; ps2_read_aux limit
  end.

Definition ps2_expect_aux (expected : Z) (limit : nat) : hw bool :=
  b ← ps2_read_aux limit;
  mret (match b with Some b => b =? expected | None => false end).

(** Up to the configuration byte: the second port works, is enabled and interrupts *)
Definition mouse_port : hw bool :=
  _ ← mouse_flush 32;
  ok ← mouse_write_cmd 0xA9;
  ok ← (if negb ok then mret false else wait_output_full (Z.to_nat 500000));
  if negb ok then mret false
  else
    response ← inb 0x60;
    if negb (response =? 0) then mret false
    else
      ok ← mouse_write_cmd 0xA8;
      ok ← (if negb ok then mret false else mouse_write_cmd 0x20);
      ok ← (if negb ok then mret false else wait_output_full (Z.to_nat 100000));
      if negb ok then mret false
      else
        config ← inb 0x60;
        let config := clear_bit8 (Z.lor config 2) 5 in
        ok ← mouse_write_cmd 0x60;
        if negb ok then mret false else mouse_write_data config.

(** Reset of the mouse, its self test in either order, and the defaults *)
Definition mouse_reset : hw bool :=
  ok ← ps2_write_aux 0xFF;
  ok ← (if negb ok then mret false else ps2_expect_aux 0xFA (Z.to_nat 200000));
  if negb ok then mret false
  else
    b1 ← ps2_read_aux (Z.to_nat 200000);
    match b1 with
    | None => mret false
    | Some b1 =>
        ok ← (if b1 =? 0xAA
              then
                full ← wait_output_full 1000;
                (if full : bool
                 then st ← inb 0x64; if aux_ready st then _ ← inb 0x60; mret true else mret true
                 else mret true)
              else if b1 =? 0 then ps2_expect_aux 0xAA (Z.to_nat 200000)
              else mret false);
        if negb ok then mret false
        else
          ok ← ps2_write_aux 0xF6;
          if negb ok then mret false else ps2_expect_aux 0xFA (Z.to_nat 200000)
    end.

Definition ps2mouse_init (p : Ps2mouse) : hw (Ps2mouse * bool) :=
  if ps2mouse_initialized p then mret (p, true)
  else
    ok ← mouse_port;
    ok ← (if negb ok then mret false else mouse_reset);
    if negb ok then mret (p, false)
    else mret (mkPs2mouse (pm_enabled p) (packet_buffer p) (packet_index p) true true false, true).

(** The three tries to switch data reporting *)
Fixpoint report_loop (tries : nat) (cmd : Z) : hw bool :=
  match tries with
  | O => mret false
  | S tries =>
      ok ← ps2_write_aux cmd;
      if negb ok then report_loop tries cmd
      else ok ← ps2_expect_aux 0xFA (Z.to_nat 200000); if ok : bool then mret true else report_loop tries cmd
  end.

Definition ps2mouse_enable (p : Ps2mouse) : hw Ps2mouse :=
  if negb (ps2mouse_initialized p) || pm_enabled p then mret p
  else
    ok ← report_loop 3 0xF4;
    mret (if ok : bool then mkPs2mouse true (packet_buffer p) 0 true (pm_handler p) true else p).

Definition ps2mouse_disable (p : Ps2mouse) : hw Ps2mouse :=
  if negb (ps2mouse_initialized p) || negb (pm_enabled p) then mret p
  else
    _ ← report_loop 3 0xF5;
    mret (mkPs2mouse false (packet_buffer p) (packet_index p) true (pm_handler p) false).

(** A byte of the mouse: stored, and the packet it completes evaluated; a
    store outside of [packet_buffer] and an overflow of the cursor are undefined. *)
Definition mouse_byte (data : Z) (s : Ps2mouse * Mouse) : option (Ps2mouse * Mouse) :=
  let '(p, m) := s in
  if packet_index p <? 3 then
    let buf := <[Z.to_nat (packet_index p) := data]> (packet_buffer p) in
    let index := packet_index p + 1 in
    if 3 <=? index
    then
      flags ← buf !! 0%nat; delta_x ← buf !! 1%nat; delta_y ← buf !! 2%nat;
      m ← (if (Z.land flags PS2_MOUSE_ALWAYS_1 =? 0) || negb (Z.land flags PS2_MOUSE_OVERFLOW =? 0) then Some m
           else
             let delta_x := if Z.land flags PS2_MOUSE_X_SIGN =? 0 then delta_x else Z.lor delta_x (Z.lnot 255) in
             let delta_y := if Z.land flags PS2_MOUSE_Y_SIGN =? 0 then delta_y else Z.lor delta_y (Z.lnot 255) in
             x ← ckint (cursor_X m + delta_x); y ← ckint (cursor_Y m - delta_y);
             Some (mkMouse (mouse_enabled m) x y));
      Some (mkPs2mouse (pm_enabled p) buf 0 (ps2mouse_initialized p) (pm_handler p) (pm_irq p), m)
    else Some (mkPs2mouse (pm_enabled p) buf index (ps2mouse_initialized p) (pm_handler p) (pm_irq p), m)
  else None.

(** The acknowledgement to the interrupt controller that ends the handler is left out. *)
Definition ps2mouse_isr_handler (p : Ps2mouse) (m : Mouse) : hw (Ps2mouse * Mouse) :=
  status ← inb PS2_STATUS_PORT;
  if (Z.land status PS2_STATUS_OBF =? 0) || (Z.land status PS2_STATUS_AUX =? 0) then mret (p, m)
  else data ← inb PS2_DATA_PORT; lift (mouse_byte data (p, m)).

End Driver.

(** ** Start-up ends *)

Section Bounds.
Context {W : Type} `{!PortIO W}.

Local Abbreviation hw := (st (W * Z)).

Lemma within_io_wait n : 1 <= n -> within (W := W) io_wait n.
Proof. intros Hn s. eexists _, _. split; [reflexivity|cbn; lia]. Qed.

(** A poll of the status port that may wait and go on *)
Lemma within_poll {X} (test : Z -> bool) (done_ next : hw X) n : 0 <= n - 1 -> within done_ n -> within next (n - 1) ->
  within (st ← inb 0x64; if test st then done_ else _ ← io_wait; next) n.
Proof.
  intros Hn Hd Hx. apply (within_bind _ _ 0 n); [apply within_inb; lia| |lia]. intros v. apply within_if; [done|].
  apply (within_bind _ _ 1 (n - 1)); [by apply within_io_wait|intros _; exact Hx|lia].
Qed.

Lemma within_input_clear t n : Z.of_nat t <= n -> within (wait_input_clear (W := W) t) n.
Proof.
  revert n. induction t as [|t IH]; intros n Hn; [apply within_ret; lia|].
  apply (within_poll (fun st => Z.land st PS2_STATUS_IBF =? 0)); [lia|apply within_ret; lia|apply IH; lia].
Qed.

Lemma within_output_full t n : Z.of_nat t <= n -> within (wait_output_full (W := W) t) n.
Proof.
  revert n. induction t as [|t IH]; intros n Hn; [apply within_ret; lia|].
  apply (within_poll (fun st => negb (Z.land st PS2_STATUS_OBF =? 0))); [lia|apply within_ret; lia|apply IH; lia].
Qed.

Lemma within_read_aux t n : Z.of_nat t <= n -> within (ps2_read_aux (W := W) t) n.
Proof.
  revert n. induction t as [|t IH]; intros n Hn; [apply within_ret; lia|].
  apply (within_poll aux_ready); [lia| |apply IH; lia]. apply (within_bind _ _ 0 n); [apply within_inb; lia|intros b; apply within_ret; lia|lia].
Qed.

Lemma within_mouse_flush t n : Z.of_nat t <= n -> within (mouse_flush (W := W) t) n.
Proof.
  revert n. induction t as [|t IH]; intros n Hn; [apply within_ret; lia|]. apply (within_bind _ _ 0 n); [apply within_inb; lia| |lia]. intros v.
  apply within_if; [|apply within_ret; lia]. apply (within_bind _ _ 0 n); [apply within_inb; lia| |lia]. intros _.
  apply (within_bind _ _ 1 (n - 1)); [apply within_io_wait; lia|intros _; apply IH; lia|lia].
Qed.

Lemma within_mouse_cmd c n : 100000 <= n -> within (mouse_write_cmd (W := W) c) n.
Proof.
  intros Hn. apply (within_bind _ _ 100000 0); [apply within_input_clear; lia| |lia]. intros ok. apply within_if; [by apply within_ret|].
  apply (within_bind _ _ 0 0); [by apply within_outb|intros _; by apply within_ret|lia].
Qed.

Lemma within_mouse_data c n : 100000 <= n -> within (mouse_write_data (W := W) c) n.
Proof.
  intros Hn. apply (within_bind _ _ 100000 0); [apply within_input_clear; lia| |lia]. intros ok. apply within_if; [by apply within_ret|].
  apply (within_bind _ _ 0 0); [by apply within_outb|intros _; by apply within_ret|lia].
Qed.

Lemma within_aux c n : 200000 <= n -> within (ps2_write_aux (W := W) c) n.
Proof.
  intros Hn. apply (within_bind _ _ 100000 100000); [by apply within_mouse_cmd| |lia]. intros ok. apply within_if; [by apply within_ret|by apply within_mouse_data].
Qed.

Lemma within_expect e t n : Z.of_nat t <= n -> within (ps2_expect_aux (W := W) e t) n.
Proof. intros Hn. apply (within_bind _ _ n 0); [by apply within_read_aux|intros b; by apply within_ret|lia]. Qed.

(** Goes through a program whose waits have the bounds above. *)
Ltac mouse_step :=
  lazymatch goal with
  | |- within (mret _) _ => apply within_ret; lia
  | |- within (if _ then _ else _) _ => apply within_if; mouse_step
  | |- within (inb _) _ => apply within_inb; lia
  | |- within (mouse_write_cmd _) _ => apply within_mouse_cmd; lia
  | |- within (mouse_write_data _) _ => apply within_mouse_data; lia
  | |- within (wait_output_full _) _ => apply within_output_full; lia
  | |- within (ps2_write_aux _) _ => apply within_aux; lia
  | |- within (ps2_expect_aux _ _) _ => apply within_expect; lia
  | |- within (ps2_read_aux _) _ => apply within_read_aux; lia
  | |- _ => idtac
  end.

Lemma within_mouse_port : within (W := W) mouse_port 1100032.
Proof.
  unfold mouse_port. apply (within_bind _ _ 32 1100000); [apply within_mouse_flush; lia| |lia]. intros _.
  apply (within_bind _ _ 100000 1000000); [mouse_step| |lia]. intros ok1. apply (within_bind _ _ 500000 500000); [mouse_step| |lia]. intros ok2.
  apply within_if; [mouse_step|]. apply (within_bind _ _ 0 500000); [mouse_step| |lia]. intros r. apply within_if; [mouse_step|].
  apply (within_bind _ _ 100000 400000); [mouse_step| |lia]. intros ok3. apply (within_bind _ _ 100000 300000); [mouse_step| |lia]. intros ok4.
  apply (within_bind _ _ 100000 200000); [mouse_step| |lia]. intros ok5. apply within_if; [mouse_step|]. apply (within_bind _ _ 0 200000); [mouse_step| |lia]. intros c. cbv zeta.
  apply (within_bind _ _ 100000 100000); [mouse_step| |lia]. intros ok6. mouse_step.
Qed.

Lemma within_mouse_reset : within (W := W) mouse_reset 1200000.
Proof.
  unfold mouse_reset. apply (within_bind _ _ 200000 1000000); [mouse_step| |lia]. intros ok1. apply (within_bind _ _ 200000 800000); [mouse_step| |lia]. intros ok2.
  apply within_if; [mouse_step|]. apply (within_bind _ _ 200000 600000); [mouse_step| |lia]. intros [b1|]; [|mouse_step].
  apply (within_bind _ _ 200000 400000); [| |lia].
  - apply within_if; [|mouse_step]. apply (within_bind _ _ 1000 0); [mouse_step| |lia]. intros full. apply within_if; [|mouse_step].
    apply (within_bind _ _ 0 0); [mouse_step| |lia]. intros st. apply within_if; [|mouse_step]. apply (within_bind _ _ 0 0); [mouse_step|intros _; mouse_step|lia].
  - intros ok3. apply within_if; [mouse_step|]. apply (within_bind _ _ 200000 200000); [mouse_step| |lia]. intros ok4. mouse_step.
Qed.

(** Initialisation returns whatever controller and mouse answer, after at most
    2300032 waits; on success the handler is registered and the line is off. *)
Lemma ps2mouse_init_returns (p : Ps2mouse) : ps2mouse_initialized p = false ->
  runs (W := W) (ps2mouse_init p) 2300032 (fun r => ps2mouse_initialized r.1 = r.2 /\
    if r.2 then pm_handler r.1 = true /\ pm_irq r.1 = false else r.1 = p).
Proof.
  intros Hi. unfold ps2mouse_init. rewrite Hi. apply (runs_bind _ _ 1100032 1200000); [apply within_mouse_port| |lia]. intros ok1.
  apply (runs_bind _ _ 1200000 0); [apply within_if; [mouse_step|apply within_mouse_reset]| |lia]. intros ok2.
  apply runs_if; (apply runs_ret; [lia|]); by split_and!.
Qed.

End Bounds.

(** ** Movements *)

(** The packet of a movement: to the right and upwards are positive. *)
Record Move := mkMove { mv_x : Z; mv_y : Z; mv_buttons : Z }.

Definition move_ok (v : Move) : Prop := - 256 <= mv_x v < 256 /\ - 256 <= mv_y v < 256 /\ 0 <= mv_buttons v < 8.

Definition mouse_packet (v : Move) : bytes :=
  [8 + mv_buttons v + (if mv_x v <? 0 then 16 else 0) + (if mv_y v <? 0 then 32 else 0); mv_x v mod 256; mv_y v mod 256].

Definition total (f : Move -> Z) (vs : list Move) : Z := foldr (fun v s => f v + s) 0 vs.

Lemma sign_extend x : 0 <= x < 256 -> Z.lor x (Z.lnot 255) = x - 256.
Proof.
  intros Hx. assert (forallb (fun x => Z.lor x (Z.lnot 255) =? x - 256) (seqZ 0 256) = true) as H by (vm_compute; reflexivity).
  rewrite forallb_forall in H. apply Z.eqb_eq, H, list_elem_of_In, elem_of_seqZ. lia.
Qed.

Lemma packet_flags b s t : 0 <= b < 8 -> (s = 0 \/ s = 16) -> (t = 0 \/ t = 32) ->
  Z.land (8 + b + s + t) PS2_MOUSE_ALWAYS_1 = 8 /\ Z.land (8 + b + s + t) PS2_MOUSE_OVERFLOW = 0 /\
  Z.land (8 + b + s + t) PS2_MOUSE_X_SIGN = s /\ Z.land (8 + b + s + t) PS2_MOUSE_Y_SIGN = t.
Proof.
  intros Hb Hs Ht. assert (b = 0 \/ b = 1 \/ b = 2 \/ b = 3 \/ b = 4 \/ b = 5 \/ b = 6 \/ b = 7) as H by lia.
  destruct Hs as [-> | ->], Ht as [-> | ->]; repeat destruct H as [-> | H]; try done; by subst b.
Qed.

(** A signed difference in nine bits: the sign in the flags, the rest in its byte. *)
Lemma delta_value d s : - 256 <= d < 256 -> s = (if d <? 0 then 16 else 0) \/ s = (if d <? 0 then 32 else 0) ->
  (if s =? 0 then d mod 256 else Z.lor (d mod 256) (Z.lnot 255)) = d.
Proof.
  intros Hd Hs. destruct (Z.ltb_spec d 0) as [Hn|Hn].
  - assert (s <> 0) as Hs0 by lia. rewrite (proj2 (Z.eqb_neq _ _) Hs0), sign_extend by (apply Z.mod_pos_bound; lia).
    rewrite <- (Z.mod_unique d 256 (-1) (d + 256)); lia.
  - assert (s = 0) as -> by lia. rewrite Z.eqb_refl. apply Z.mod_small. lia.
Qed.

(** A driver between two packets *)
Definition at_packet (p : Ps2mouse) : Prop := packet_index p = 0 /\ length (packet_buffer p) = 3%nat.

Lemma packet_moves p m v : at_packet p -> move_ok v -> int_range (cursor_X m + mv_x v) -> int_range (cursor_Y m - mv_y v) ->
  exists p', for_each (mouse_packet v) mouse_byte (p, m) = Some (p', mkMouse (mouse_enabled m) (cursor_X m + mv_x v) (cursor_Y m - mv_y v)) /\ at_packet p'.
Proof.
  intros [Hi Hl] (Hx & Hy & Hb) Rx Ry. destruct p as [en buf idx ini h irq]. cbn in Hi, Hl. subst idx. destruct buf as [|a [|b [|c [|? ?]]]]; try done.
  unfold mouse_packet. set (s := if mv_x v <? 0 then 16 else 0). set (t := if mv_y v <? 0 then 32 else 0).
  destruct (packet_flags (mv_buttons v) s t Hb) as (F1 & F2 & F3 & F4); [unfold s; destruct (mv_x v <? 0); auto|unfold t; destruct (mv_y v <? 0); auto|].
  set (f := 8 + mv_buttons v + s + t) in *. exists (mkPs2mouse en [f; mv_x v mod 256; mv_y v mod 256] 0 ini h irq). split; [|done].
  change (for_each [f; mv_x v mod 256; mv_y v mod 256] mouse_byte (mkPs2mouse en [a; b; c] 0 ini h irq, m)) with
    (r ← mouse_byte (mv_y v mod 256) (mkPs2mouse en [f; mv_x v mod 256; c] 2 ini h irq, m); Some r).
  cbv [mouse_byte packet_index packet_buffer]. change (2 <? 3) with true. change (3 <=? 2 + 1) with true. cbv iota zeta.
  change (<[Z.to_nat 2 := mv_y v mod 256]> [f; mv_x v mod 256; c]) with [f; mv_x v mod 256; mv_y v mod 256].
  cbn [lookup list_lookup mbind option_bind]. rewrite F1, F2, F3, F4. change ((8 =? 0) || negb (0 =? 0)) with false. cbv iota.
  rewrite (delta_value (mv_x v) s Hx), (delta_value (mv_y v) t Hy) by (unfold s, t; auto). by rewrite !ckint_ok.
Qed.

(** The bytes of any number of packets *)
Lemma packets_move vs : forall p m, at_packet p -> Forall move_ok vs ->
  (forall n, int_range (cursor_X m + total mv_x (take n vs)) /\ int_range (cursor_Y m - total mv_y (take n vs))) ->
  exists p', for_each (mjoin (mouse_packet <$> vs)) mouse_byte (p, m)
    = Some (p', mkMouse (mouse_enabled m) (cursor_X m + total mv_x vs) (cursor_Y m - total mv_y vs)) /\ at_packet p'.
Proof.
  induction vs as [|v vs IH]; intros p m Hp Hv Hr.
  - exists p. split; [|done]. cbn. rewrite Z.add_0_r, Z.sub_0_r. by destruct m.
  - apply Forall_cons in Hv as [Hv Hvs]. destruct (Hr 1%nat) as [R1 R2]. cbn [take total foldr] in R1, R2. rewrite Z.add_0_r in R1, R2.
    destruct (packet_moves p m v Hp Hv R1 R2) as (p1 & E & Hp1).
    destruct (IH p1 (mkMouse (mouse_enabled m) (cursor_X m + mv_x v) (cursor_Y m - mv_y v)) Hp1 Hvs) as (p2 & E2 & Hp2).
    { intros n. destruct (Hr (S n)) as [R3 R4]. cbn [take total foldr cursor_X cursor_Y] in *. unfold total in *. split; [rewrite <- Z.add_assoc|rewrite <- Z.sub_add_distr]; done. }
    exists p2. split; [|done]. change (mjoin (mouse_packet <$> v :: vs)) with (mouse_packet v ++ mjoin (mouse_packet <$> vs)). rewrite for_each_app, E. cbn [mbind option_bind].
    rewrite E2. cbn [cursor_X cursor_Y mouse_enabled total foldr]. do 2 f_equal. f_equal; unfold total; lia.
Qed.

(** ** Interrupts

    A controller that presents the bytes of the mouse one after the other. *)
Module AuxQueue.

Definition input (w : bytes) (port : Z) : bytes * Z :=
  if port =? PS2_STATUS_PORT then (w, if bool_decide (w = []) then 0 else 0x21)
  else match w with b :: w => (w, b) | [] => (w, 0) end.

#[export] Instance ports : PortIO bytes := {| port_in := input; port_out := fun w _ _ => w; elapse := fun w _ => w |}.

End AuxQueue.

#[local] Existing Instance AuxQueue.ports.

(** The handler runs once for each of [n] interrupts. *)
Fixpoint interrupts (n : nat) (p : Ps2mouse) (m : Mouse) : st (bytes * Z) (Ps2mouse * Mouse) :=
  match n with
  | O => mret (p, m)
  | S n => '(p, m) ← ps2mouse_isr_handler p m; interrupts n p m
  end.

Lemma isr_byte p m b w k p' m' : mouse_byte b (p, m) = Some (p', m') -> ps2mouse_isr_handler p m (b :: w, k) = Some ((w, k), (p', m')).
Proof.
  intros E. unfold ps2mouse_isr_handler. assert (inb PS2_STATUS_PORT (b :: w, k) = Some ((b :: w, k), 0x21)) as E1 by done.
  assert (inb PS2_DATA_PORT (b :: w, k) = Some ((w, k), b)) as E2 by done. rewrite (bind_run _ _ _ _ _ E1).
  change ((Z.land 33 PS2_STATUS_OBF =? 0) || (Z.land 33 PS2_STATUS_AUX =? 0)) with false. cbv iota. rewrite (bind_run _ _ _ _ _ E2). unfold lift. by rewrite E.
Qed.

Lemma interrupts_bytes bs : forall p m w k p' m', for_each bs mouse_byte (p, m) = Some (p', m') ->
  interrupts (length bs) p m (bs ++ w, k) = Some ((w, k), (p', m')).
Proof.
  induction bs as [|b bs IH]; intros p m w k p' m' E; cbn [for_each] in E; [by simplify_eq|].
  destruct (mouse_byte b (p, m)) as [[p1 m1]|] eqn:E1; [|done]. cbn in E. cbn [length interrupts app].
  rewrite (bind_run _ _ _ _ _ (isr_byte _ _ _ (bs ++ w) k _ _ E1)). by apply IH.
Qed.

Lemma packets_length vs : length (mjoin (mouse_packet <$> vs)) = (3 * length vs)%nat.
Proof.
  induction vs as [|v vs IH]; [done|]. change (mjoin (mouse_packet <$> v :: vs)) with (mouse_packet v ++ mjoin (mouse_packet <$> vs)).
  rewrite length_app, IH. cbn [length mouse_packet]. lia.
Qed.

(** C35. The cursor follows the mouse: when the packets of any movements
    arrive byte by byte, one interrupt each, the handler leaves the cursor at
    its old position plus the sum of the movements, the screen's rows counting
    downwards, and is ready for the next packet. *)
Theorem mouse_tracks (vs : list Move) (p : Ps2mouse) (m : Mouse) (rest : bytes) (k : Z) :
  at_packet p -> Forall move_ok vs ->
  (forall n, int_range (cursor_X m + total mv_x (take n vs)) /\ int_range (cursor_Y m - total mv_y (take n vs))) ->
  exists p', interrupts (3 * length vs) p m (mjoin (mouse_packet <$> vs) ++ rest, k)
      = Some ((rest, k), (p', mkMouse (mouse_enabled m) (cursor_X m + total mv_x vs) (cursor_Y m - total mv_y vs))) /\ at_packet p'.
Proof.
  intros Hp Hv Hr. destruct (packets_move vs p m Hp Hv Hr) as (p' & E & Hp'). exists p'. split; [|done].
  rewrite <- packets_length. by apply interrupts_bytes.
Qed.

Module Observed.

Definition idle : Ps2mouse := mkPs2mouse true [0; 0; 0] 0 true true true.

Definition start : Mouse := mkMouse true 300 250.

Lemma mouse_tracks_witness : exists p', interrupts 6 idle start ([0x18; 0xF0; 7; 0x29; 5; 0xFF] ++ [1], 0) = Some (([1], 0), (p', mkMouse true 289 244)) /\ at_packet p'.
Proof.
  apply (mouse_tracks [mkMove (-16) 7 0; mkMove 5 (-1) 1] idle start [1] 0).
  - split; reflexivity.
  - repeat constructor; cbn; lia.
  - intros [|[|[|n]]]; cbn; unfold int_range; cbn; lia.
Defined.

(** After the loss of one byte the driver stays out of step: with the flags of
    the first of these packets missing, a mouse that moves to the right by eight
    again and again moves the cursor upwards, for as long as it moves. *)
Lemma out_of_step n : (n <= 20)%nat -> exists p', interrupts (3 * n) idle start (mjoin (replicate n [8; 0; 8]) ++ [8; 0], 0)
  = Some (([8; 0], 0), (p', mkMouse true 300 (250 - 8 * Z.of_nat n))).
Proof.
  intros Hn. do 21 (destruct n as [|n]; [eexists; vm_compute; reflexivity|]). lia.
Qed.

Example lost_byte : [0x08] ++ mjoin (replicate 2 [8; 0; 8]) ++ [8; 0] = mjoin (mouse_packet <$> replicate 3 (mkMove 8 0 0)).
Proof. reflexivity. Qed.

(** The cursor is not kept on the screen. *)
Example cursor_leaves : exists p', interrupts 9 idle start (mjoin (mouse_packet <$> replicate 3 (mkMove (-200) 0 0)), 0)
  = Some (([], 0), (p', mkMouse true (-300) 250)).
Proof. eexists. vm_compute. reflexivity. Qed.

End Observed.
