(* ===== verification/Bmp.v ===== *)
(** * Loading of bitmap files ([kernel/graphics/bmp.c])

    The file is the bytes in memory, [size] the length the caller gives; a read
    outside of the file and a write outside of the new pixels are undefined
    behaviour, the outer [None].  [uint32_t] arithmetic wraps at 32 bits.  The
    pixels of the result are [argb] words.  A file of a supported format is
    loaded pixel by pixel; the last module shows what a file with sizes that
    wrap around does. *)

From S2P Require Import Prelude Bytes Lists Gfx GfxSpec GfxScreen.

Inductive bmp_result :=
| BMP_SUCCESS
| BMP_ERROR_NULL_POINTER
| BMP_ERROR_INVALID_FILE
| BMP_ERROR_INVALID_SIGNATURE
| BMP_ERROR_UNSUPPORTED_FORMAT
| BMP_ERROR_MEMORY_ALLOCATION
| BMP_ERROR_CORRUPTED_DATA
| BMP_ERROR_FILE_TOO_SMALL.

#[export] Instance bmp_result_dec : EqDecision bmp_result.
Proof. solve_decision. Defined.

Definition BMP_SIGNATURE : Z := 0x4D42.
Definition BMP_COMPRESSION_RGB : Z := 0.
Definition BMP_COMPRESSION_BITFIELDS : Z := 3.

Record gfx_bitmap := mkBitmap { bm_width : Z; bm_height : Z; bm_pixels : bytes }.

(** The fields of the two packed headers that are read *)
Record bmp_header := mkHeader {
  signature : Z; file_size : Z; data_offset : Z;
  header_size : Z; bh_width : Z; bh_height : Z; planes : Z; bits_per_pixel : Z; compression : Z; colors_used : Z
}.

Definition sizeof_file_header : Z := 14.
Definition sizeof_info_header : Z := 40.

Definition read_header (f : bytes) : option bmp_header :=
  signature ← le_at 2 f 0; file_size ← le_at 4 f 2; data_offset ← le_at 4 f 10;
  header_size ← le_at 4 f 14; width ← le_at 4 f 18; height ← le_at 4 f 22; planes ← le_at 2 f 26;
  bits ← le_at 2 f 28; compression ← le_at 4 f 30; colors ← le_at 4 f 46;
  Some (mkHeader signature file_size data_offset header_size (sign_of 32 width) (sign_of 32 height) planes bits compression colors).

Definition manual_ctz_loop : nat -> Z -> Z -> Z := fix loop fuel value count :=
  match fuel with
  | O => count
  | S fuel => if Z.land value 1 =? 0 then loop fuel (Z.shiftr value 1) (count + 1) else count
  end.

(** A value of 32 bits that is not zero has a set bit, so 32 rounds are enough. *)
Definition manual_ctz (value : Z) : Z := if value =? 0 then 32 else manual_ctz_loop 32 value 0.

Definition bmp_calculate_row_size (width bits_per_pixel : Z) : Z :=
  let bytes_per_row := ((width *[32] bits_per_pixel) +[32] 7) / 8 in
  Z.land (bytes_per_row +[32] 3) (wrap 32 (Z.lnot 3)).

(** The checks of [bmp_validate] after the size of the file *)
Definition check_header (h : bmp_header) (size : Z) : bmp_result :=
  if negb (signature h =? BMP_SIGNATURE) then BMP_ERROR_INVALID_SIGNATURE
  else if size <? file_size h then BMP_ERROR_INVALID_FILE
  else if negb (header_size h =? 40) && negb (header_size h =? 108) && negb (header_size h =? 124) then BMP_ERROR_UNSUPPORTED_FORMAT
  else if (bh_width h <=? 0) || (bh_height h =? 0) then BMP_ERROR_INVALID_FILE
  else if negb (bits_per_pixel h =? 8) && negb (bits_per_pixel h =? 24) && negb (bits_per_pixel h =? 32) then BMP_ERROR_UNSUPPORTED_FORMAT
  else if negb (compression h =? BMP_COMPRESSION_RGB) && negb (compression h =? BMP_COMPRESSION_BITFIELDS) then BMP_ERROR_UNSUPPORTED_FORMAT
  else if negb (planes h =? 1) then BMP_ERROR_INVALID_FILE
  else BMP_SUCCESS.

(** An error is also stored in [last_error]; success leaves it alone. *)
Definition bmp_validate (fileData : option bytes) (size : Z) (last_error : bmp_result) : option (bmp_result * bmp_result) :=
  match fileData with
  | None => Some (BMP_ERROR_NULL_POINTER, BMP_ERROR_NULL_POINTER)
  | Some f =>
    if size <? sizeof_file_header + sizeof_info_header then Some (BMP_ERROR_FILE_TOO_SMALL, BMP_ERROR_FILE_TOO_SMALL)
    else
      h ← read_header f;
      let r := check_header h size in
      Some (if bool_decide (r = BMP_SUCCESS) then last_error else r, r)
  end.

(** The values stored through the pointers of the caller *)
Definition bmp_get_info (fileData : option bytes) (size : Z) (last_error : bmp_result)
    : option (bmp_result * bmp_result * option (Z * Z * Z)) :=
  '(last_error, r) ← bmp_validate fileData size last_error;
  if negb (bool_decide (r = BMP_SUCCESS)) then Some (last_error, r, None)
  else
    f ← fileData; h ← read_header f;
    w ← abs (bh_width h); ht ← abs (bh_height h);
    Some (last_error, BMP_SUCCESS, Some (w, ht, bits_per_pixel h)).

(** A colour from its components *)
Definition argb (a r g b : Z) : Z := le [b; g; r; a].

Definition bmp_bgr24_to_argb32 (f : bytes) (p : Z) : option Z :=
  b ← le_at 1 f p; g ← le_at 1 f (p + 1); r ← le_at 1 f (p + 2); Some (argb 0xFF r g b).

Definition masked (pixel_value mask : Z) : Z := Z.land (Z.shiftr (Z.land pixel_value mask) (manual_ctz mask)) 0xFF.

Definition bmp_bgra32_to_argb32_with_masks (f : bytes) (p red green blue alpha : Z) : option Z :=
  v ← le_at 4 f p;
  if (red =? 0) && (green =? 0) && (blue =? 0) && (alpha =? 0) then Some v
  else Some (argb (if alpha =? 0 then 0xFF else masked v alpha) (if red =? 0 then 0 else masked v red)
                  (if green =? 0 then 0 else masked v green) (if blue =? 0 then 0 else masked v blue)).

(** [palette] is the offset of the palette in the file, [None] for a null pointer. *)
Definition bmp_palette_to_argb32 (f : bytes) (index : Z) (palette : option Z) (palette_size : Z) : option Z :=
  match palette with
  | Some p =>
    if index <? palette_size
    then b ← le_at 1 f (p + 4 * index); g ← le_at 1 f (p + 4 * index + 1); r ← le_at 1 f (p + 4 * index + 2); Some (argb 0xFF r g b)
    else Some 0
  | None => Some 0
  end.

(** The colour masks, read only for 32-bit bit fields *)
Definition read_masks (f : bytes) (h : bmp_header) : option (Z * Z * Z * Z) :=
  if (compression h =? BMP_COMPRESSION_BITFIELDS) && (bits_per_pixel h =? 32)
  then
    r ← le_at 4 f 54; g ← le_at 4 f 58; b ← le_at 4 f 62;
    a ← (if 108 <=? header_size h then le_at 4 f 66 else Some 0);
    Some (r, g, b, a)
  else Some (0, 0, 0, 0).

(** The pixel in column [x] of the source row at offset [row] *)
Definition bmp_pixel (f : bytes) (h : bmp_header) (masks : Z * Z * Z * Z) (palette : option Z) (palette_size row x : Z) : option Z :=
  if bits_per_pixel h =? 8 then index ← le_at 1 f (row + x); bmp_palette_to_argb32 f index palette palette_size
  else if bits_per_pixel h =? 24 then bmp_bgr24_to_argb32 f (row + (x *[32] 3))
  else if bits_per_pixel h =? 32
  then let '(r, g, b, a) := masks in
       if compression h =? BMP_COMPRESSION_BITFIELDS then bmp_bgra32_to_argb32_with_masks f (row + (x *[32] 4)) r g b a
       else le_at 4 f (row + (x *[32] 4))
  else Some 0.

Section Load.
Context `{A : Arch}.

(** The conversion of all pixels into the memory [dst] *)
Definition convert_pixels (f : bytes) (h : bmp_header) masks (palette : option Z) (palette_size width height src_row_size : Z) (top_down : bool) (dst : bytes)
    : option bytes :=
  for_each (seqZ 0 height) (fun y =>
    let src_y := if top_down then y else height - 1 - y in
    let src_row := data_offset h + (src_y *[32] src_row_size) in
    for_each (seqZ 0 width) (fun x dst =>
      c ← bmp_pixel f h masks palette palette_size src_row x;
      put_bytes dst (((y *[32] width) + x) * 4) (le_bytes 4 c))) dst.

(** [object] tells whether the [gfx_bitmap] could be allocated, [mem] is the
    memory for the pixels; the result is [last_error] and the bitmap. *)
Definition bmp_load_from_memory (fileData : option bytes) (size : Z) (object : bool) (mem : Z -> option bytes)
    : option (bmp_result * option gfx_bitmap) :=
  match fileData with
  | None => Some (BMP_ERROR_NULL_POINTER, None)
  | Some f =>
    '(_, r) ← bmp_validate fileData size BMP_SUCCESS;
    if negb (bool_decide (r = BMP_SUCCESS)) then Some (r, None) else
    h ← read_header f;
    width ← abs (bh_width h);
    height ← abs (bh_height h);
    masks ← read_masks f h;
    if negb object then Some (BMP_ERROR_MEMORY_ALLOCATION, None) else
    match mem ((width *[32] height) *[size_bits] 4) with
    | None => Some (BMP_ERROR_MEMORY_ALLOCATION, None)
    | Some dst =>
      let src_row_size := bmp_calculate_row_size width (bits_per_pixel h) in
      if size <? data_offset h +[32] (src_row_size *[32] height) then Some (BMP_ERROR_CORRUPTED_DATA, None) else
      let palette_size := if colors_used h =? 0 then 256 else colors_used h in
      let palette := sizeof_file_header + header_size h in
      if (bits_per_pixel h =? 8) && (size <? wrap size_bits (palette + palette_size * 4)) then Some (BMP_ERROR_CORRUPTED_DATA, None) else
      pixels ← convert_pixels f h masks (if bits_per_pixel h =? 8 then Some palette else None) (if bits_per_pixel h =? 8 then palette_size else 0)
                 width height src_row_size (bh_height h <? 0) dst;
      Some (BMP_SUCCESS, Some (mkBitmap width height pixels))
    end
  end.

End Load.

(** ** The size of a row *)

Lemma land_multiple_of_4 x : 0 <= x < 2 ^ 32 -> Z.land x (wrap 32 (Z.lnot 3)) = 4 * (x / 4).
Proof.
  intros Hx. change (wrap 32 (Z.lnot 3)) with (Z.ldiff (Z.ones 32) (Z.ones 2)). apply Z.bits_inj'. intros n Hn.
  replace (4 * (x / 4)) with (Z.ldiff x (Z.ones 2)).
  - rewrite Z.land_spec, !Z.ldiff_spec. destruct (Z.lt_ge_cases n 32) as [Hl|Hg].
    + rewrite (Z.ones_spec_low 32 n) by lia. done.
    + rewrite (Z.ones_spec_high 32 n), (Z.bits_above_log2 x n); [done|lia| |lia]. destruct (Z.eq_dec x 0) as [->|Hx0]; [cbn; lia|].
      apply Z.log2_lt_pow2; [lia|]. eapply Z.lt_le_trans; [apply Hx|]. apply Z.pow_le_mono_r; lia.
  - rewrite Z.ldiff_ones_r, Z.shiftr_div_pow2, Z.shiftl_mul_pow2 by lia. change (2 ^ 2) with 4. lia.
Qed.

(** Rows are padded to a multiple of four bytes. *)
Lemma row_size_padded w bits : 0 <= w -> 0 <= bits -> w * bits + 31 < 2 ^ 32 -> bmp_calculate_row_size w bits = 4 * ((w * bits + 31) / 32).
Proof.
  intros Hw Hb Hr. unfold bmp_calculate_row_size. cbv zeta. unfold wrap at 2 3. assert (0 <= w * bits) by nia. rewrite (Z.mod_small (w * bits)), (Z.mod_small (w * bits + 7)) by lia.
  pose proof (Z.div_le_upper_bound (w * bits + 7) 8 (2 ^ 32 - 4) ltac:(lia) ltac:(lia)). pose proof (Z.div_pos (w * bits + 7) 8 ltac:(lia) ltac:(lia)).
  unfold wrap at 1. rewrite Z.mod_small by lia. rewrite land_multiple_of_4 by lia. f_equal.
  replace ((w * bits + 7) / 8 + 3) with ((w * bits + 31) / 8) by (replace (w * bits + 31) with (w * bits + 7 + 3 * 8) by lia; rewrite Z.div_add; lia).
  by rewrite Z.div_div by lia.
Qed.

(** ** Filling a picture row by row *)

Definition put_cell (w : Z) (color : Z -> Z -> option Z) (y x : Z) (mem : bytes) : option bytes :=
  c ← color x y; put_bytes mem ((y * w + x) * 4) (le_bytes 4 c).

Lemma put_cells_spec w h color dst : 0 <= w < 2 ^ 31 -> 0 <= h < 2 ^ 31 -> w * h * 4 < 2 ^ 32 -> w * h * 4 <= zlen dst ->
  (forall x y, 0 <= x < w -> 0 <= y < h -> exists c, color x y = Some c) ->
  exists m, for_each (seqZ 0 h) (fun y => for_each (seqZ 0 w) (put_cell w color y)) dst = Some m /\ zlen m = zlen dst /\
    forall x y, 0 <= x < w -> 0 <= y < h -> le_at 4 m ((y * w + x) * 4) = (c ← color x y; Some (c mod 2 ^ 32)).
Proof.
  intros Hw Hh Hr Hm Hc. set (b := mkBuf w h dst 32 0 false false (0, 0)).
  assert (gfx_wf b) as Hwf by (split; unfold px, b; cbn [gb_bpp gb_width gb_height gb_buffer]; change (32 / 8) with 4; lia).
  set (cell := fun y x (d : option gfx_buffer) => b0 ← d; mem ← put_cell w color y x (gb_buffer b0); Some (Some (set_pixels b0 mem (isDirty b0)))).
  set (pic := fun u v => if (0 <=? u) && (u <? w) && (0 <=? v) && (v <? h) then color u v else None).
  destruct (cells_paint b 0 0 w h cell pic) with (b0 := b) as (b' & E & O); [lia..| | |apply same_shape_refl|].
  - intros i j Hi Hj b0 S0. pose proof (same_shape_wf _ _ S0 Hwf) as Hwf0. destruct (same_shape_eq _ _ S0) as (Ew & Eh & Eb & _). destruct (Hc i j Hi Hj) as [c Ec].
    destruct (store_pixel b0 i j c Hwf0) as (mem & Em & Om); [unfold visible; rewrite Ew, Eh; cbn; lia|]. rewrite (px4 b0 Eb), Ew in Em.
    exists (set_pixels b0 mem (isDirty b0)). unfold cell, put_cell. rewrite Ec. cbn [mbind option_bind]. change (Z.to_nat 4) with 4%nat in Em. cbn [gb_width b] in Em.
    rewrite Em. split; [done|]. eapply overlay_ext; [apply Om|]. intros u v _. cbn. rewrite !Z.add_0_l. unfold pic.
    destruct (Z.eqb_spec u i) as [->|Hu], (Z.eqb_spec v j) as [->|Hv]; case_decide; simplify_eq; try done. cbn [andb].
    by rewrite !(proj2 (Z.leb_le _ _)), !(proj2 (Z.ltb_lt _ _)) by lia.
  - intros u v Hn. unfold pic. destruct (Z.leb_spec 0 u), (Z.ltb_spec u w), (Z.leb_spec 0 v), (Z.ltb_spec v h); cbn [andb]; done || lia.
  - rewrite <- (set_pixels_id b) in E at 1. rewrite (for_each_sim (fun m => Some (set_pixels b m false)) _ (fun y => for_each (seqZ 0 w) (put_cell w color y))) in E.
    2: { intros y m _. apply (for_each_sim (fun m => Some (set_pixels b m false))). intros x m' _. unfold cell. cbn. by destruct (put_cell w color y x m'). }
    cbn [gb_buffer b] in E. destruct (for_each _ _ dst) as [m|]; [|done]. injection E as <-. destruct O as [[_ L] Hp]. exists m. split; [done|]. split; [exact L|].
    intros x y Hx Hy. specialize (Hp x y). unfold pixel in Hp. rewrite (px4 (set_pixels _ _ _)), (px4 b) in Hp by done. cbn [gb_width gb_buffer set_pixels b] in Hp. rewrite Hp by done.
    unfold pic. rewrite !(proj2 (Z.leb_le _ _)), !(proj2 (Z.ltb_lt _ _)) by lia. cbn [andb]. destruct (Hc x y Hx Hy) as [c ->]. done.
Qed.

(** ** What a bitmap file shows *)

Definition palette_colors (h : bmp_header) : Z := if colors_used h =? 0 then 256 else colors_used h.

Definition row_bytes (h : bmp_header) : Z := 4 * ((bh_width h * bits_per_pixel h + 31) / 32).

Definition opaque (f : bytes) (p : Z) : option Z := v ← le_at 3 f p; Some (0xFF000000 + v).

(** The colour of the pixel in column [x] of row [y], the rows counted from
    the top: rows are stored from the bottom up unless the height is negative. *)
Definition bmp_color (f : bytes) (h : bmp_header) (x y : Z) : option Z :=
  let row := data_offset h + (if bh_height h <? 0 then y else Z.abs (bh_height h) - 1 - y) * row_bytes h in
  if bits_per_pixel h =? 8
  then i ← le_at 1 f (row + x);
       if i <? palette_colors h then opaque f (14 + header_size h + 4 * i) else Some 0
  else if bits_per_pixel h =? 24 then opaque f (row + 3 * x)
  else if compression h =? BMP_COMPRESSION_BITFIELDS
  then '(r, g, b, a) ← read_masks f h; bmp_bgra32_to_argb32_with_masks f (row + 4 * x) r g b a
  else le_at 4 f (row + 4 * x).

(** A supported file that holds all it announces *)
Record bmp_ok (f : bytes) (h : bmp_header) : Prop := {
  bo_header : read_header f = Some h;
  bo_valid : check_header h (zlen f) = BMP_SUCCESS;
  bo_len : 54 <= zlen f < 2 ^ 32;
  bo_bytes : Forall is_byte f;
  bo_height : bh_height h <> - 2 ^ 31;
  bo_row : bh_width h * bits_per_pixel h + 31 < 2 ^ 32;
  bo_data : data_offset h + row_bytes h * Z.abs (bh_height h) <= zlen f;
  bo_pixels : bh_width h * Z.abs (bh_height h) * 4 < 2 ^ 32;
  bo_palette : bits_per_pixel h = 8 -> 14 + header_size h + palette_colors h * 4 <= zlen f;
  bo_masks : bits_per_pixel h = 32 -> compression h = BMP_COMPRESSION_BITFIELDS -> 70 <= zlen f
}.

Lemma le_at_range f n p v : Forall is_byte f -> le_at (Z.of_nat n) f p = Some v -> 0 <= v < 256 ^ Z.of_nat n.
Proof.
  intros Hf H. unfold le_at in H. destruct (sub_bytes f p (Z.of_nat n)) as [bs|] eqn:E; [|done]. injection H as <-.
  apply sub_bytes_spec in E as (_ & _ & _ & El & Eb). unfold zlen in El. rewrite <- El. apply le_range. rewrite Eb. by apply Forall_take, Forall_drop.
Qed.

Lemma read_header_range f h : Forall is_byte f -> read_header f = Some h ->
  0 <= data_offset h /\ 0 <= header_size h /\ 0 <= colors_used h < 2 ^ 32 /\ - 2 ^ 31 <= bh_height h < 2 ^ 31 /\ bh_width h < 2 ^ 31.
Proof.
  intros Hf H. unfold read_header in H. repeat match type of H with context [le_at ?n f ?p] => let E := fresh "E" in destruct (le_at n f p) eqn:E; [cbn [mbind option_bind] in H|done] end.
  injection H as <-. cbn. repeat match goal with E : le_at ?n f _ = Some ?v |- _ => first [apply (le_at_range f 2) in E; [|done] | apply (le_at_range f 4) in E; [|done]] end.
  pose proof (sign_of_range 32 z3 ltac:(lia)). pose proof (sign_of_range 32 z4 ltac:(lia)). cbn in *. lia.
Qed.

Lemma check_header_valid h size : check_header h size = BMP_SUCCESS ->
  0 < bh_width h /\ bh_height h <> 0 /\ (bits_per_pixel h = 8 \/ bits_per_pixel h = 24 \/ bits_per_pixel h = 32).
Proof.
  unfold check_header. intros H. repeat match type of H with (if ?c then _ else _) = _ => let E := fresh "E" in destruct c eqn:E; [done|] end.
  apply orb_false_elim in E2 as [E2a%Z.leb_gt E2b%Z.eqb_neq]. split; [done|]. split; [done|].
  destruct (Z.eqb_spec (bits_per_pixel h) 8), (Z.eqb_spec (bits_per_pixel h) 24), (Z.eqb_spec (bits_per_pixel h) 32); tauto || done.
Qed.

(** Three bytes of a colour, under an alpha of 255 *)
Lemma opaque_bytes f p : 0 <= p -> p + 3 <= zlen f ->
  (b ← le_at 1 f p; g ← le_at 1 f (p + 1); r ← le_at 1 f (p + 2); Some (argb 0xFF r g b)) = opaque f p.
Proof.
  intros Hp Hl. unfold opaque, le_at. pose proof (sub_bytes_ok f p 3 Hp ltac:(lia) Hl) as E. set (bs := take _ _) in E. rewrite E.
  assert (zlen bs = 3) as El by by apply sub_bytes_spec in E as (_ & _ & _ & ? & _). unfold zlen in El. destruct bs as [|a [|b [|c [|? ?]]]]; try (cbn in El; lia).
  rewrite <- (Z.add_0_r p) at 1. rewrite !(sub_bytes_sub _ _ _ _ _ _ E) by lia. change (sub_bytes [a; b; c] 0 1) with (Some [a]).
  change (sub_bytes [a; b; c] 1 1) with (Some [b]). change (sub_bytes [a; b; c] 2 1) with (Some [c]). cbn [mbind option_bind]. unfold argb, le. f_equal. lia.
Qed.

(** Every pixel lies in the file. *)
Lemma row_inside f h y sy : bmp_ok f h -> 0 <= y < Z.abs (bh_height h) -> sy = (if bh_height h <? 0 then y else Z.abs (bh_height h) - 1 - y) ->
  0 <= row_bytes h /\ bh_width h * bits_per_pixel h <= 8 * row_bytes h /\ 0 <= sy * row_bytes h < 2 ^ 32 /\
  0 <= data_offset h /\ data_offset h + sy * row_bytes h + row_bytes h <= zlen f.
Proof.
  intros Ho Hy Es. destruct (read_header_range f h (bo_bytes _ _ Ho) (bo_header _ _ Ho)) as (Hd & _). destruct (check_header_valid _ _ (bo_valid _ _ Ho)) as (Hw & _ & Hb).
  pose proof (bo_data _ _ Ho) as Hdata. pose proof (bo_len _ _ Ho). assert (0 <= sy < Z.abs (bh_height h)) as Hsy by (subst sy; destruct (_ <? 0); lia).
  assert (0 <= bh_width h * bits_per_pixel h) by nia. unfold row_bytes in *. set (wb := bh_width h * bits_per_pixel h) in *.
  pose proof (Z.div_mod (wb + 31) 32 ltac:(lia)). pose proof (Z.mod_pos_bound (wb + 31) 32 ltac:(lia)). set (q := (wb + 31) / 32) in *.
  assert (0 <= sy * (4 * q)) by nia. assert ((sy + 1) * (4 * q) <= Z.abs (bh_height h) * (4 * q)) by (apply Z.mul_le_mono_nonneg_r; lia). lia.
Qed.

Lemma argb_range a r g b : is_byte a -> is_byte r -> is_byte g -> is_byte b -> 0 <= argb a r g b < 2 ^ 32.
Proof. unfold argb, le. lia. Qed.

Lemma masked_byte v m : is_byte (masked v m).
Proof. unfold masked. change 255 with (Z.ones 8). rewrite Z.land_ones by lia. apply Z.mod_pos_bound. lia. Qed.

Lemma component_byte (c : bool) d v m : is_byte d -> is_byte (if c then d else masked v m).
Proof. intros Hd. destruct c; [done|apply masked_byte]. Qed.

Lemma opaque_some f p : Forall is_byte f -> 0 <= p -> p + 3 <= zlen f -> exists c, opaque f p = Some c /\ 0 <= c < 2 ^ 32.
Proof.
  intros Hf Hp Hl. unfold opaque. destruct (le_at_some 3 f p Hp ltac:(lia) Hl) as [v E]. rewrite E. apply (le_at_range f 3) in E; [|done]. cbn in *. eexists. split; [done|lia].
Qed.

Lemma word_some f p : Forall is_byte f -> 0 <= p -> p + 4 <= zlen f -> exists c, le_at 4 f p = Some c /\ 0 <= c < 2 ^ 32.
Proof. intros Hf Hp Hl. destruct (le_at_some 4 f p Hp ltac:(lia) Hl) as [v E]. exists v. split; [done|]. by apply (le_at_range f 4) in E. Qed.

Lemma read_masks_some f h : bmp_ok f h -> exists masks, read_masks f h = Some masks.
Proof.
  intros Ho. unfold read_masks. destruct (Z.eqb_spec (compression h) BMP_COMPRESSION_BITFIELDS) as [Ec|]; cbn [andb]; [|by eexists].
  destruct (Z.eqb_spec (bits_per_pixel h) 32) as [Eb|]; [|by eexists]. pose proof (bo_masks _ _ Ho Eb Ec).
  destruct (le_at_some 4 f 54) as [r ->]; [lia..|]. destruct (le_at_some 4 f 58) as [g ->]; [lia..|].
  destruct (le_at_some 4 f 62) as [b ->]; [lia..|]. cbn [mbind option_bind]. destruct (108 <=? header_size h); [destruct (le_at_some 4 f 66) as [a ->]; [lia..|]|]; by eexists.
Qed.

Lemma with_masks_some f p r g b a : Forall is_byte f -> 0 <= p -> p + 4 <= zlen f ->
  exists c, bmp_bgra32_to_argb32_with_masks f p r g b a = Some c /\ 0 <= c < 2 ^ 32.
Proof.
  intros Hf Hp Hl. unfold bmp_bgra32_to_argb32_with_masks. destruct (word_some f p Hf Hp Hl) as (v & -> & Hv). cbn [mbind option_bind].
  destruct (_ && _); [by exists v|]. eexists. split; [done|].
  apply argb_range; apply component_byte; lia.
Qed.

Definition used_palette (h : bmp_header) : option Z := if bits_per_pixel h =? 8 then Some (14 + header_size h) else None.

Lemma bmp_pixel_color f h masks sy x y : bmp_ok f h -> read_masks f h = Some masks -> 0 <= x < bh_width h -> 0 <= y < Z.abs (bh_height h) ->
  sy = (if bh_height h <? 0 then y else Z.abs (bh_height h) - 1 - y) ->
  bmp_pixel f h masks (used_palette h) (if bits_per_pixel h =? 8 then palette_colors h else 0) (data_offset h + (sy *[32] row_bytes h)) x = bmp_color f h x y /\
  exists c, bmp_color f h x y = Some c /\ 0 <= c < 2 ^ 32.
Proof.
  intros Ho Hm Hx Hy Es. destruct (row_inside f h y sy Ho Hy Es) as (Hr & Hrw & Hsr & Hd & Hin). pose proof (bo_bytes _ _ Ho) as Hf. pose proof (bo_len _ _ Ho).
  unfold wrap. rewrite (Z.mod_small (sy * _)) by lia. unfold bmp_pixel, bmp_color, used_palette. cbv zeta. rewrite <- Es. set (row := data_offset h + sy * row_bytes h) in *.
  destruct (check_header_valid _ _ (bo_valid _ _ Ho)) as (_ & _ & [E|[E|E]]); rewrite E in *; cbn [Z.eqb Pos.eqb].
  - destruct (le_at_some 1 f (row + x)) as [i Ei]; [lia..|]. rewrite Ei. apply (le_at_range f 1) in Ei as Ri; [|done]. cbn in Ri. cbn [mbind option_bind].
    unfold bmp_palette_to_argb32. destruct (Z.ltb_spec i (palette_colors h)); [|split; [done|by exists 0]]. pose proof (bo_palette _ _ Ho E). change (256 ^ Z.of_nat 1) with 256 in Ri.
    destruct (read_header_range f h Hf (bo_header _ _ Ho)) as (_ & Hh & _). split; [apply opaque_bytes; lia|]. apply opaque_some; done || lia.
  - unfold bmp_bgr24_to_argb32. unfold wrap. rewrite (Z.mod_small (x * 3)) by lia. rewrite (Z.mul_comm 3 x). split; [apply opaque_bytes; lia|apply opaque_some; done || lia].
  - destruct masks as [[[r g] b] a]. unfold wrap. rewrite (Z.mod_small (x * 4)) by lia. rewrite (Z.mul_comm 4 x), Hm. cbn [mbind option_bind].
    destruct (compression h =? _); (split; [done|]); [apply with_masks_some; done || lia|apply word_some; done || lia].
Qed.

Section LoadSpec.
Context `{A : Arch}.

(** The conversion fills the new memory with the colours of the file. *)
Lemma convert_pixels_spec f h masks dst : bmp_ok f h -> read_masks f h = Some masks -> zlen dst = bh_width h * Z.abs (bh_height h) * 4 ->
  exists pixels, convert_pixels f h masks (used_palette h) (if bits_per_pixel h =? 8 then palette_colors h else 0)
      (bh_width h) (Z.abs (bh_height h)) (row_bytes h) (bh_height h <? 0) dst = Some pixels /\ zlen pixels = zlen dst /\
    forall x y, 0 <= x < bh_width h -> 0 <= y < Z.abs (bh_height h) -> le_at 4 pixels ((y * bh_width h + x) * 4) = bmp_color f h x y.
Proof.
  intros Ho Em Hdst. destruct (read_header_range f h (bo_bytes _ _ Ho) (bo_header _ _ Ho)) as (_ & _ & _ & Hht & Hw2).
  destruct (check_header_valid _ _ (bo_valid _ _ Ho)) as (Hw & _ & _). pose proof (bo_pixels _ _ Ho) as Hp. pose proof (bo_height _ _ Ho).
  assert (Hpix : forall x y, 0 <= x < bh_width h -> 0 <= y < Z.abs (bh_height h) -> exists c, bmp_color f h x y = Some c /\ 0 <= c < 2 ^ 32).
  { intros x y Hx Hy. by destruct (bmp_pixel_color f h masks _ x y Ho Em Hx Hy eq_refl) as [_ ?]. }
  destruct (put_cells_spec (bh_width h) (Z.abs (bh_height h)) (bmp_color f h) dst ltac:(lia) ltac:(lia) Hp ltac:(lia)) as (pixels & E & L & Hc).
  { intros x y Hx Hy. destruct (Hpix x y Hx Hy) as (c & Ec & _). by exists c. }
  exists pixels. split; [|split; [done|]].
  - rewrite <- E. unfold convert_pixels. apply for_each_ext. intros y m Hy%elem_of_seqZ. cbv zeta. apply for_each_ext. intros x m' Hx%elem_of_seqZ. unfold put_cell.
    destruct (bmp_pixel_color f h masks _ x y Ho Em ltac:(lia) ltac:(lia) eq_refl) as [-> _]. unfold wrap. rewrite Z.mod_small by nia. done.
  - intros x y Hx Hy. rewrite Hc by done. destruct (Hpix x y Hx Hy) as (c & -> & Hcr). cbn. by rewrite Z.mod_small.
Qed.

End LoadSpec.

(** ** A small file, and a file whose sizes wrap around *)

Module Observed.
#[local] Instance arch : Arch := I386.

Definition header_bytes (size offset width height bits compr colors : Z) : bytes :=
  le_bytes 2 BMP_SIGNATURE ++ le_bytes 4 size ++ le_bytes 4 0 ++ le_bytes 4 offset ++
  le_bytes 4 40 ++ le_bytes 4 width ++ le_bytes 4 height ++ le_bytes 2 1 ++ le_bytes 2 bits ++ le_bytes 4 compr ++
  le_bytes 4 0 ++ le_bytes 4 0 ++ le_bytes 4 0 ++ le_bytes 4 colors ++ le_bytes 4 0.

(** Two rows of one pixel each, stored from the bottom up *)
Definition tiny : bytes := header_bytes 62 54 1 2 24 0 0 ++ [1; 2; 3; 0; 4; 5; 6; 0].

Definition tiny_header : bmp_header := mkHeader BMP_SIGNATURE 62 54 40 1 2 1 24 0 0.

Lemma tiny_ok : bmp_ok tiny tiny_header.
Proof.
  split; try (vm_compute; (reflexivity || discriminate || intuition discriminate)).
  apply (bool_decide_unpack (Forall (fun b => 0 <= b < 256) tiny)). vm_compute. exact I.
Qed.


Example tiny_loaded : bmp_load_from_memory (Some tiny) (zlen tiny) true (fun n => Some (zeros n)) = Some (BMP_SUCCESS, Some (mkBitmap 1 2 [4; 5; 6; 255; 1; 2; 3; 255])).
Proof. vm_compute. reflexivity. Qed.

(** A row of 2^30 + 1 pixels of eight bits: its size is computed as four
    bytes, and the memory for four such rows as sixteen. *)
Definition huge_width : Z := 2 ^ 30 + 1.

Definition evil : bytes := header_bytes 74 58 huge_width 4 8 0 1 ++ [0; 0; 0; 0] ++ zeros 16.

Definition evil_header : bmp_header := mkHeader BMP_SIGNATURE 74 58 40 huge_width 4 1 8 0 1.

Lemma for_each_stuck {X S} (f : X -> S -> option S) xs x ys s s' : for_each xs f s = Some s' -> f x s' = None -> for_each (xs ++ x :: ys) f s = None.
Proof. intros E1 E2. rewrite for_each_app, E1. cbn. by rewrite E2. Qed.

Lemma seqZ_split k n : 0 <= k < n -> seqZ 0 n = seqZ 0 k ++ k :: seqZ (k + 1) (n - k - 1).
Proof.
  intros H. replace n with (k + (n - k)) at 1 by lia. rewrite seqZ_app, Z.add_0_l by lia. rewrite (seqZ_cons k) by lia.
  by rewrite <- Z.add_1_r, <- Z.sub_1_r.
Qed.

(** Such a file passes every check, and its fifth pixel is read and written outside of file and bitmap. *)
Lemma size_overflow : bmp_load_from_memory (Some evil) (zlen evil) true (fun n => Some (zeros n)) = None.
Proof.
  assert (read_header evil = Some evil_header) as Eh by (vm_compute; reflexivity). unfold bmp_load_from_memory, bmp_validate.
  change (zlen evil <? sizeof_file_header + sizeof_info_header) with false. cbv iota. rewrite Eh. cbn [mbind option_bind].
  assert (check_header evil_header (zlen evil) = BMP_SUCCESS) as -> by (vm_compute; reflexivity). rewrite bool_decide_eq_true_2 by done. cbn [negb].
  assert (abs (bh_width evil_header) = Some huge_width) as -> by (vm_compute; reflexivity). assert (abs (bh_height evil_header) = Some 4) as -> by (vm_compute; reflexivity).
  cbn [mbind option_bind]. assert (read_masks evil evil_header = Some (0, 0, 0, 0)) as -> by (vm_compute; reflexivity). cbn [mbind option_bind].
  assert ((huge_width *[32] 4) *[size_bits] 4 = 16) as -> by (vm_compute; reflexivity). cbv zeta.
  assert (bmp_calculate_row_size huge_width (bits_per_pixel evil_header) = 4) as -> by (vm_compute; reflexivity).
  assert ((zlen evil <? data_offset evil_header +[32] 4 *[32] 4) = false) as -> by (vm_compute; reflexivity). cbv iota.
  match goal with |- (if ?c then _ else _) = _ => assert (c = false) as -> by (vm_compute; reflexivity) end.
  match goal with |- (convert_pixels _ _ _ ?p ?n _ _ _ _ _ ≫= _) = _ => assert (convert_pixels evil evil_header (0, 0, 0, 0) p n huge_width 4 4 (bh_height evil_header <? 0) (zeros 16) = None) as ->; [|done] end.
  unfold convert_pixels. change (seqZ 0 4) with ([] ++ 0 :: [1; 2; 3]). eapply for_each_stuck; [reflexivity|]. cbv zeta.
  rewrite (seqZ_split 4 huge_width) by (unfold huge_width; lia). eapply for_each_stuck; vm_compute; reflexivity.
Qed.

(** The masks of a bit field file are read before its length is checked. *)
Example masks_outside : bmp_load_from_memory (Some (header_bytes 54 54 1 1 32 3 0)) 54 true (fun n => Some (zeros n)) = None.
Proof. vm_compute. reflexivity. Qed.

(** On i386 the check of the palette wraps around: 2^30 colours take no room,
    and a colour past the end of the file is read. *)
Example palette_outside : bmp_load_from_memory (Some (header_bytes 58 54 1 1 8 0 (2 ^ 30) ++ [200; 0; 0; 0])) 58 true (fun n => Some (zeros n)) = None.
Proof. vm_compute. reflexivity. Qed.

End Observed.
