(* ===== verification/Callbacks.v ===== *)
(** * Drivers, events and periodic tasks ([kernel/driver/DriverBase.c], [kernel/event/event.c], [kernel/task/PeriodicTask.c])

    Three registries over the pointer list of [list.c] whose elements are called
    back.  The kernel's objects live in one state; what a function behind a
    pointer does is a parameter, [call], and it may change any of these
    objects, the lists that are being traversed included.  An access to an
    object that is not there is undefined behaviour, [None].  A traversal takes
    fuel; as many rounds as the list has nodes are enough when the functions
    leave the lists alone.  Results of [malloc] are arguments. *)

From S2P Require Import Prelude Lists.

Record DriverBase := mkDriver { d_name : Z; d_init : Z; d_enable : Z; d_disable : Z }.

Record Event := mkEvent { invoke_count : Z; ev_enabled : bool; last_invoke_time : Z; callbacks : option List }.

Record PeriodicTask := mkTask { taskFunction : Z; t_arg : Z; intervalMs : Z; lastRunMs : Z; running : bool }.

Record Kernel (W : Type) := mkKernel {
  k_nodes : nodes;
  system_driver_list : option List;
  drivers : gmap Z DriverBase;
  events : gmap Z Event;
  periodicTasks : option List;
  tasks : gmap Z PeriodicTask;
  world : W
}.
Arguments mkKernel {W}.
Arguments k_nodes {W}.
Arguments system_driver_list {W}.
Arguments drivers {W}.
Arguments events {W}.
Arguments periodicTasks {W}.
Arguments tasks {W}.
Arguments world {W}.

(** The call of a function pointer with its arguments *)
Class Functions (W : Type) := call : Z -> list Z -> st (Kernel W) Z.

Section Registries.
Context `{A : Arch} {W : Type} `{!Functions W}.

Local Abbreviation K := (st (Kernel W)).

Definition state : K (Kernel W) := fun k => Some (k, k).

Definition set_nodes (m : nodes) (dl tl : option List) : K unit := fun k =>
  Some (mkKernel m dl (drivers k) (events k) tl (tasks k) (world k), tt).

Definition set_event (p : Z) (e : Event) (m : nodes) : K unit := fun k =>
  Some (mkKernel m (system_driver_list k) (drivers k) (<[p := e]> (events k)) (periodicTasks k) (tasks k) (world k), tt).

Definition set_task (p : Z) (t : PeriodicTask) : K unit := fun k =>
  Some (mkKernel (k_nodes k) (system_driver_list k) (drivers k) (events k) (periodicTasks k) (<[p := t]> (tasks k)) (world k), tt).

Definition free_event (p : Z) (m : nodes) : K unit := fun k =>
  Some (mkKernel m (system_driver_list k) (drivers k) (delete p (events k)) (periodicTasks k) (tasks k) (world k), tt).

Definition free_task (p : Z) (m : nodes) (l : option List) : K unit := fun k =>
  Some (mkKernel m (system_driver_list k) (drivers k) (events k) l (delete p (tasks k)) (world k), tt).

(** ** Drivers *)

Fixpoint find_driver (m : nodes) (driver : Z) (fuel : nat) (current : Z) : option bool :=
  match fuel with
  | O => None
  | S fuel =>
    if current =? NULL then Some false
    else n ← m !! current; if ln_data n =? driver then Some true else find_driver m driver fuel (ln_next n)
  end.

Definition system_driver_is_available (driver : Z) : K bool :=
  k ← state;
  match system_driver_list k with
  | None => mret false
  | Some l => if driver =? NULL then mret false else lift (find_driver (k_nodes k) driver (S (size (k_nodes k))) (head l))
  end.

(** [init] is not null when it is called, since the guard has returned. *)
Definition system_driver_register (driver : Z) (list : option List) (node : option Z) : K unit :=
  k ← state;
  _ ← (match system_driver_list k with None => set_nodes (k_nodes k) (List_Create list) (periodicTasks k) | Some _ => mret tt end);
  if driver =? NULL then mret tt
  else
    d ← lift (drivers k !! driver);
    if (d_name d =? NULL) || (d_init d =? NULL) || (d_enable d =? NULL) || (d_disable d =? NULL) then mret tt
    else
      k ← state;
      '(m, l) ← lift (List_Add (k_nodes k) (system_driver_list k) driver node);
      _ ← set_nodes m l (periodicTasks k);
      _ ← call (d_init d) [];
      mret tt.

Definition system_driver_unregister (driver : Z) : K unit :=
  k ← state;
  match system_driver_list k with
  | None => mret tt
  | Some _ =>
    if driver =? NULL then mret tt
    else
      d ← lift (drivers k !! driver);
      _ ← (if d_disable d =? NULL then mret 0 else call (d_disable d) []);
      k ← state;
      '(m, l, _) ← lift (List_Remove (k_nodes k) (system_driver_list k) driver);
      set_nodes m l (periodicTasks k)
  end.

Definition system_driver_enable (driver : Z) : K unit :=
  k ← state;
  d ← lift (drivers k !! driver);
  if d_name d =? NULL then mret tt
  else if d_enable d =? NULL then mret tt else _ ← call (d_enable d) []; mret tt.

Definition system_driver_disable (driver : Z) : K unit :=
  k ← state;
  d ← lift (drivers k !! driver);
  if d_name d =? NULL then mret tt
  else if d_disable d =? NULL then mret tt else _ ← call (d_disable d) []; mret tt.

(** ** Events *)

Definition event_create (object : option Z) (list : option List) : K Z :=
  match object with
  | None => mret NULL
  | Some p => k ← state; _ ← set_event p (mkEvent 0 true 0 (List_Create list)) (k_nodes k); mret p
  end.

(** The pointers passed to [free] for the elements of the list are the result. *)
Definition event_destroy (event : Z) : K (list Z) :=
  if event =? NULL then mret []
  else
    k ← state;
    e ← lift (events k !! event);
    '(m, freed) ← lift (List_Destroy (k_nodes k) (callbacks e) true);
    _ ← free_event event m;
    mret freed.

Definition event_register_callback (event callback : Z) (node : option Z) : K unit :=
  if (event =? NULL) || (callback =? NULL) then mret tt
  else
    k ← state;
    e ← lift (events k !! event);
    '(m, l) ← lift (List_Add (k_nodes k) (callbacks e) callback node);
    set_event event (mkEvent (invoke_count e) (ev_enabled e) (last_invoke_time e) l) m.

Definition event_unregister_callback (event callback : Z) : K unit :=
  if (event =? NULL) || (callback =? NULL) then mret tt
  else
    k ← state;
    e ← lift (events k !! event);
    '(m, l, _) ← lift (List_Remove (k_nodes k) (callbacks e) callback);
    set_event event (mkEvent (invoke_count e) (ev_enabled e) (last_invoke_time e) l) m.

(** [while (current)] of [event_invoke]; the next node is read after the call. *)
Fixpoint invoke_loop (fuel : nat) (context current : Z) : K unit :=
  match fuel with
  | O => lift None
  | S fuel =>
    if current =? NULL then mret tt
    else
      k ← state;
      n ← lift (k_nodes k !! current);
      _ ← (if ln_data n =? NULL then mret 0 else call (ln_data n) [context]);
      k ← state;
      n ← lift (k_nodes k !! current);
      invoke_loop fuel context (ln_next n)
  end.

Definition event_invoke (fuel : nat) (event context : Z) : K unit :=
  if event =? NULL then mret tt
  else
    k ← state;
    e ← lift (events k !! event);
    if negb (ev_enabled e) then mret tt
    else
      _ ← set_event event (mkEvent (invoke_count e +[size_bits] 1) true 0 (callbacks e)) (k_nodes k);
      l ← lift (callbacks e);
      invoke_loop fuel context (head l).

(** ** Periodic tasks *)

(** [object] and [list] are what [malloc] and [List_Create] return; the copy of
    the name is left out.  A failed [malloc] is written through. *)
Definition periodic_task_create (function arg interval : Z) (list : option List) (object node : option Z) : K Z :=
  k ← state;
  _ ← (match periodicTasks k with None => set_nodes (k_nodes k) (system_driver_list k) (List_Create list) | Some _ => mret tt end);
  p ← lift object;
  _ ← set_task p (mkTask function arg interval 0 false);
  k ← state;
  '(m, l) ← lift (List_Add (k_nodes k) (periodicTasks k) p node);
  _ ← set_nodes m (system_driver_list k) l;
  mret p.

Definition periodic_task_start (task : Z) : K unit :=
  if task =? NULL then mret tt
  else k ← state; t ← lift (tasks k !! task); set_task task (mkTask (taskFunction t) (t_arg t) (intervalMs t) 0 true).

Definition periodic_task_stop (task : Z) : K unit :=
  if task =? NULL then mret tt
  else k ← state; t ← lift (tasks k !! task); set_task task (mkTask (taskFunction t) (t_arg t) (intervalMs t) (lastRunMs t) false).

Definition periodic_task_destroy (task : Z) : K unit :=
  if task =? NULL then mret tt
  else
    k ← state;
    '(m, l, _) ← lift (List_Remove (k_nodes k) (periodicTasks k) task);
    _ ← lift (tasks k !! task);
    free_task task m l.

(** Whether the task runs at time [now] *)
Definition task_due (now : Z) (t : PeriodicTask) : bool := running t && (intervalMs t <=? wrap 64 (now - lastRunMs t)).

Fixpoint run_loop (fuel : nat) (now node : Z) : K unit :=
  match fuel with
  | O => lift None
  | S fuel =>
    if node =? NULL then mret tt
    else
      k ← state;
      n ← lift (k_nodes k !! node);
      t ← lift (tasks k !! ln_data n);
      _ ← (if task_due now t
           then
             _ ← (if taskFunction t =? NULL then mret 0 else call (taskFunction t) [ln_data n; t_arg t]);
             k ← state;
             t ← lift (tasks k !! ln_data n);
             set_task (ln_data n) (mkTask (taskFunction t) (t_arg t) (intervalMs t) now (running t))
           else mret tt);
      k ← state;
      n ← lift (k_nodes k !! node);
      run_loop fuel now (ln_next n)
  end.

Definition periodic_task_run_all (fuel : nat) (uptimeMs : Z) : K unit :=
  k ← state;
  match periodicTasks k with
  | None => mret tt
  | Some l => run_loop fuel uptimeMs (head l)
  end.

End Registries.

(** ** When tasks run

    The functions of the tasks do their work in the world and leave the
    kernel's lists and objects alone. *)

Definition set_world {W} (k : Kernel W) (w : W) : Kernel W :=
  mkKernel (k_nodes k) (system_driver_list k) (drivers k) (events k) (periodicTasks k) (tasks k) w.

(** The points of [times] at which a task with interval [i] that ran at [last] runs *)
Fixpoint due_times (i last : Z) (times : list Z) : list Z :=
  match times with
  | [] => []
  | t :: times => if i <=? t - last then t :: due_times i t times else due_times i last times
  end.

Section Quiet.
Context `{A : Arch} {W : Type} `{!Functions W}.
Variable effect : Z -> list Z -> W -> W.
Hypothesis quiet : forall fn args k, exists r, call fn args k = Some (set_world k (effect fn args (world k)), r).

Definition ran (now : Z) (t : PeriodicTask) : PeriodicTask := mkTask (taskFunction t) (t_arg t) (intervalMs t) now (running t).

Definition call_task (w : W) (p : Z) (t : PeriodicTask) : W := if taskFunction t =? NULL then w else effect (taskFunction t) [p; t_arg t] w.

Definition run_task (now : Z) (s : gmap Z PeriodicTask * W) (p : Z) : gmap Z PeriodicTask * W :=
  match s.1 !! p with
  | Some t => if task_due now t then (<[p := ran now t]> s.1, call_task s.2 p t) else s
  | None => s
  end.

Definition with_tasks (k : Kernel W) (s : gmap Z PeriodicTask * W) : Kernel W :=
  mkKernel (k_nodes k) (system_driver_list k) (drivers k) (events k) (periodicTasks k) s.1 s.2.

Lemma run_task_dom now s p q : is_Some ((run_task now s p).1 !! q) <-> is_Some (s.1 !! q).
Proof.
  unfold run_task. destruct (s.1 !! p) as [t|] eqn:E; [|done]. destruct (task_due now t); [|done]. cbn.
  destruct (decide (p = q)) as [->|Hne]; [rewrite lookup_insert_eq, E; naive_solver|by rewrite lookup_insert_ne].
Qed.

(** One round of the loop *)
Lemma run_loop_step fuel now k a nx p : a <> NULL -> k_nodes k !! a = Some (mkListNode nx p) -> is_Some (tasks k !! p) ->
  run_loop (S fuel) now a k = run_loop fuel now nx (with_tasks k (run_task now (tasks k, world k) p)).
Proof.
  intros Ha Hn [t Ht]. cbn [run_loop]. rewrite (proj2 (Z.eqb_neq _ _) Ha). unfold run_task. cbn [fst snd]. rewrite Ht.
  rewrite (bind_run state _ k k k eq_refl), Hn. rewrite (bind_run (lift (Some (mkListNode nx p))) _ k k (mkListNode nx p) eq_refl). cbn [ln_data]. rewrite Ht, (bind_run (lift (Some t)) _ k k t eq_refl).
  destruct (task_due now t).
  - unfold call_task. destruct (taskFunction t =? NULL).
    + unfold mbind, st_bind, lift, mret, st_ret, state, set_task. cbn. rewrite Ht. cbn. rewrite Hn. done.
    + destruct (quiet (taskFunction t) [p; t_arg t] k) as [r E]. unfold mbind, st_bind, lift, mret, st_ret, state, set_task. rewrite E. cbn. rewrite Ht. cbn. rewrite Hn. done.
  - unfold mbind, st_bind, lift, mret, st_ret, state. cbn. rewrite Hn. cbn. by destruct k.
Qed.

Lemma run_loop_fold now ns : forall fuel k node, lseg (k_nodes k) node ns NULL -> Forall addr_ok ns.*1 -> (forall p, p ∈ ns.*2 -> is_Some (tasks k !! p)) ->
  (length ns < fuel)%nat -> run_loop fuel now node k = Some (with_tasks k (foldl (run_task now) (tasks k, world k) ns.*2), tt).
Proof.
  induction ns as [|[a p] ns IH]; intros [|fuel] k node Hl Ha Hp Hf; cbn [length] in Hf; try lia; cbn [lseg] in Hl.
  - subst node. cbn. by destruct k.
  - destruct Hl as (-> & nx & Hn & Hl). inversion_clear Ha as [|? ? Ha1 Ha2]. unfold addr_ok in Ha1.
    rewrite (run_loop_step fuel now k a nx p) by (unfold NULL; try lia; try done; apply Hp; set_solver).
    rewrite IH; [|done|done| |lia].
    + destruct (run_task now (tasks k, world k) p) eqn:E. cbn. rewrite E. done.
    + intros q Hq. apply run_task_dom. apply Hp. set_solver.
Qed.

(** ** The ticks of the timer *)

Fixpoint run_ticks (fuel : nat) (times : list Z) : st (Kernel W) unit :=
  match times with
  | [] => mret tt
  | t :: times => _ ← periodic_task_run_all fuel t; run_ticks fuel times
  end.

Lemma run_all_fold fuel now k xs : list_view (k_nodes k) (periodicTasks k) xs -> (forall p, p ∈ xs -> is_Some (tasks k !! p)) -> (length xs < fuel)%nat ->
  periodic_task_run_all fuel now k = Some (with_tasks k (foldl (run_task now) (tasks k, world k) xs), tt).
Proof.
  intros (l & ns & El & (Hl & _ & Ha & _) & <-) Hp Hf. rewrite length_fmap in Hf. unfold periodic_task_run_all. rewrite (bind_run state _ k k k eq_refl), El. by apply run_loop_fold.
Qed.

Definition tick (xs : list Z) (s : gmap Z PeriodicTask * W) (now : Z) : gmap Z PeriodicTask * W := foldl (run_task now) s xs.

Lemma tick_dom xs now s q : is_Some ((tick xs s now).1 !! q) <-> is_Some (s.1 !! q).
Proof. unfold tick. revert s. induction xs as [|x xs IH]; intros s; [done|]. cbn. rewrite IH. apply run_task_dom. Qed.

Lemma run_ticks_fold fuel xs times : (length xs < fuel)%nat -> forall k, list_view (k_nodes k) (periodicTasks k) xs -> (forall p, p ∈ xs -> is_Some (tasks k !! p)) ->
  run_ticks fuel times k = Some (with_tasks k (foldl (tick xs) (tasks k, world k) times), tt).
Proof.
  intros Hf. induction times as [|t times IH]; intros k Hl Hp; [cbn; by destruct k|]. cbn [run_ticks].
  rewrite (bind_run _ _ _ _ _ (run_all_fold fuel t k xs Hl Hp Hf)). rewrite IH; [|done|].
  - cbn. unfold tick. by destruct (foldl _ _ xs).
  - intros p Hq. apply (tick_dom xs t (tasks k, world k)). by apply Hp.
Qed.

(** ** The schedule *)

(** Ticks in order, at or after [lo], that fit the 64-bit clock *)
Fixpoint increasing (lo : Z) (times : list Z) : Prop :=
  match times with [] => True | t :: times => lo <= t < 2 ^ 64 /\ increasing (t + 1) times end.

Definition in_time (ts : gmap Z PeriodicTask) (xs : list Z) (lo : Z) : Prop :=
  forall p t, p ∈ xs -> ts !! p = Some t -> 0 <= lastRunMs t <= lo.

Definition runs_of (ts : gmap Z PeriodicTask) (times : list Z) (p : Z) : list Z :=
  match ts !! p with Some t => if running t then due_times (intervalMs t) (lastRunMs t) times else [] | None => [] end.

(** The runs in the order in which they happen: by time, then by place in the list *)
Definition at_time (ts : gmap Z PeriodicTask) (xs times : list Z) (now : Z) : list Z := filter (fun p => now ∈ runs_of ts times p) xs.

Definition schedule (ts : gmap Z PeriodicTask) (xs times : list Z) : list Z := mjoin (at_time ts xs times <$> times).

Definition call_at (ts : gmap Z PeriodicTask) (w : W) (p : Z) : W := match ts !! p with Some t => call_task w p t | None => w end.

Lemma due_times_in i last times x : x ∈ due_times i last times -> x ∈ times.
Proof. revert last. induction times as [|t times IH]; intros last; [done|]. cbn. destruct (i <=? t - last); set_solver. Qed.

Lemma increasing_gt lo times x : increasing lo times -> x ∈ times -> lo <= x < 2 ^ 64.
Proof.
  revert lo. induction times as [|t times IH]; intros lo H Hx; [by apply elem_of_nil in Hx|]. destruct H as [H1 H2].
  apply elem_of_cons in Hx as [-> | Hx]; [done|]. specialize (IH _ H2 Hx). lia.
Qed.

(** The intervals are kept, and a tick without a run comes within an interval of one. *)
Lemma due_times_spaced i last times lo : increasing lo times -> 0 <= last <= lo ->
  (forall n a b, (last :: due_times i last times) !! n = Some a -> (last :: due_times i last times) !! S n = Some b -> i <= b - a) /\
  (forall x, x ∈ times -> x ∉ due_times i last times -> exists r, r ∈ last :: due_times i last times /\ r <= x < r + i).
Proof.
  revert last lo. induction times as [|t times IH]; intros last lo H Hl; [split; [intros [|?]; done|set_solver]|].
  destruct H as [Ht H]. cbn [due_times]. destruct (Z.leb_spec i (t - last)) as [Hi|Hi].
  - destruct (IH t (t + 1) H ltac:(lia)) as [I1 I2]. split.
    + intros [|n] a b Ha Hb; cbn in Ha, Hb; [simplify_eq; lia|]. by apply (I1 n).
    + intros x Hx Hn. apply elem_of_cons in Hx as [-> | Hx]; [set_solver|]. destruct (I2 x Hx ltac:(set_solver)) as (r & Hr & Hx'). exists r. set_solver.
  - destruct (IH last (t + 1) H ltac:(lia)) as [I1 I2]. split; [done|]. intros x Hx Hn. apply elem_of_cons in Hx as [-> | Hx]; [|by apply I2].
    exists last. split; [set_solver|lia].
Qed.

Definition next_task (now : Z) (t : PeriodicTask) : PeriodicTask := if task_due now t then ran now t else t.

Lemma tick_tasks xs now s p : NoDup xs -> (tick xs s now).1 !! p = if decide (p ∈ xs) then next_task now <$> s.1 !! p else s.1 !! p.
Proof.
  intros Hnd. unfold tick. revert s. induction Hnd as [|x xs Hx Hnd IH]; intros s; [by rewrite decide_False by set_solver|]. cbn [foldl]. rewrite IH.
  assert ((run_task now s x).1 !! p = if decide (p = x) then next_task now <$> s.1 !! p else s.1 !! p) as E.
  { unfold run_task, next_task. destruct (decide (p = x)) as [->|Hpx].
    - destruct (s.1 !! x) as [t|] eqn:E; [|by rewrite E]. destruct (task_due now t) eqn:Et; cbn; rewrite ?lookup_insert_eq, ?E; cbn; by rewrite ?Et.
    - destruct (s.1 !! x) as [t|]; [|done]. destruct (task_due now t); [|done]. cbn. by rewrite lookup_insert_ne by done. }
  rewrite E. destruct (decide (p ∈ x :: xs)) as [Hp|Hp], (decide (p ∈ xs)) as [Hq|Hq], (decide (p = x)) as [->|Hn]; set_solver.
Qed.

Definition due_at (ts : gmap Z PeriodicTask) (now p : Z) : bool := default false (task_due now <$> ts !! p).

Lemma tick_world ts xs now s : NoDup xs -> (forall p, p ∈ xs -> s.1 !! p = ts !! p) ->
  (tick xs s now).2 = foldl (call_at ts) s.2 (filter (fun p => due_at ts now p = true) xs).
Proof.
  intros Hnd. unfold tick. revert s. induction Hnd as [|x xs Hx Hnd IH]; intros s Hs; [done|]. cbn [foldl]. rewrite IH.
  - rewrite filter_cons. unfold run_task. rewrite (Hs x) by set_solver.
    assert (due_at ts now x = match ts !! x with Some t => task_due now t | None => false end) as -> by (unfold due_at; by destruct (ts !! x)).
    destruct (ts !! x) as [t|] eqn:E; [|by rewrite decide_False]. destruct (task_due now t); [rewrite decide_True by done|by rewrite decide_False].
    cbn [foldl snd]. unfold call_at at 3. by rewrite E.
  - intros p Hp. rewrite <- Hs by set_solver. unfold run_task. destruct (s.1 !! x) as [t|]; [|done]. destruct (task_due now t); [|done]. cbn. apply lookup_insert_ne. set_solver.
Qed.

Lemma filter_ext_in (P Q : Z -> Prop) `{!forall p, Decision (P p)} `{!forall p, Decision (Q p)} (xs : list Z) : (forall p, p ∈ xs -> P p <-> Q p) -> filter P xs = filter Q xs.
Proof.
  induction xs as [|x xs IH]; intros HPQ; [done|]. rewrite !filter_cons, IH by set_solver. specialize (HPQ x ltac:(set_solver)).
  destruct (decide (P x)), (decide (Q x)); tauto || done.
Qed.

Lemma foldl_ext_in {B} (f g : B -> Z -> B) (xs : list Z) : forall b, (forall b x, x ∈ xs -> f b x = g b x) -> foldl f b xs = foldl g b xs.
Proof. induction xs as [|x xs IH]; intros b H; [done|]. cbn. rewrite H by set_solver. apply IH. set_solver. Qed.

Lemma task_due_now now t lo : 0 <= lastRunMs t <= lo -> lo <= now < 2 ^ 64 -> task_due now t = running t && (intervalMs t <=? now - lastRunMs t).
Proof. intros H1 H2. unfold task_due, wrap. by rewrite Z.mod_small by lia. Qed.

(** The first tick and the rest *)
Lemma runs_of_cons ts ts' now times p lo : (forall t, ts !! p = Some t -> 0 <= lastRunMs t <= lo) -> lo <= now < 2 ^ 64 -> ts' !! p = next_task now <$> ts !! p ->
  runs_of ts (now :: times) p = (if due_at ts now p then [now] else []) ++ runs_of ts' times p.
Proof.
  intros Hl Hn E. unfold runs_of, due_at. rewrite E. destruct (ts !! p) as [t|]; [|done]. cbn. unfold id, next_task. rewrite (task_due_now now t lo) by auto.
  destruct (running t) eqn:Er; cbn [andb]; [|by rewrite Er]. destruct (intervalMs t <=? now - lastRunMs t); cbn; by rewrite Er.
Qed.

Lemma runs_of_in ts times p x : x ∈ runs_of ts times p -> x ∈ times.
Proof. unfold runs_of. destruct (ts !! p) as [t|]; [|by intros ?%elem_of_nil]. destruct (running t); [apply due_times_in|by intros ?%elem_of_nil]. Qed.

Lemma schedule_cons ts ts' xs now times lo : in_time ts xs lo -> lo <= now < 2 ^ 64 -> increasing (now + 1) times ->
  (forall p, p ∈ xs -> ts' !! p = next_task now <$> ts !! p) ->
  schedule ts xs (now :: times) = filter (fun p => due_at ts now p = true) xs ++ schedule ts' xs times.
Proof.
  intros Hl Hn Hi E. assert (forall p, p ∈ xs -> runs_of ts (now :: times) p = (if due_at ts now p then [now] else []) ++ runs_of ts' times p) as Er.
  { intros p Hp. apply (runs_of_cons _ _ _ _ _ lo); [|done|by apply E]. intros t Ht. by apply (Hl p). }
  unfold schedule. rewrite fmap_cons. change (mjoin (?a :: ?b)) with (a ++ mjoin b). f_equal.
  - apply filter_ext_in. intros p Hp. rewrite Er, elem_of_app by done. split.
    + intros [H|H%runs_of_in]; [by destruct (due_at ts now p); [|apply elem_of_nil in H]|]. apply (increasing_gt _ _ _ Hi) in H. lia.
    + intros ->. left. set_solver.
  - f_equal. apply list_fmap_ext. intros n x Hx%list_elem_of_lookup_2. apply filter_ext_in. intros p Hp. rewrite Er, elem_of_app by done. split; [|by right].
    intros [H|H]; [|done]. destruct (due_at ts now p); [|by apply elem_of_nil in H]. apply list_elem_of_singleton in H as ->. apply (increasing_gt _ _ _ Hi) in Hx. lia.
Qed.

Lemma schedule_in ts xs times p : p ∈ schedule ts xs times -> p ∈ xs.
Proof. unfold schedule. intros (l & Hp & (t & -> & _)%list_elem_of_fmap)%list_elem_of_join. by apply list_elem_of_filter in Hp as [_ ?]. Qed.

Lemma call_at_next ts ts' now w p : ts' !! p = next_task now <$> ts !! p -> call_at ts' w p = call_at ts w p.
Proof. intros E. unfold call_at. rewrite E. destruct (ts !! p) as [t|]; [|done]. cbn. unfold next_task. by destruct (task_due now t). Qed.

Lemma next_in_time ts ts' xs now lo : in_time ts xs lo -> lo <= now -> (forall p, p ∈ xs -> ts' !! p = next_task now <$> ts !! p) -> in_time ts' xs (now + 1).
Proof.
  intros Hl Hn E p t Hp Ht. rewrite E in Ht by done. destruct (ts !! p) as [t0|] eqn:E0; [|done]. injection Ht as <-. specialize (Hl p t0 Hp E0).
  unfold next_task. destruct (task_due now t0); cbn; lia.
Qed.

Lemma ticks_world xs times : NoDup xs -> forall s lo, in_time s.1 xs lo -> increasing lo times ->
  (foldl (tick xs) s times).2 = foldl (call_at s.1) s.2 (schedule s.1 xs times).
Proof.
  intros Hnd. induction times as [|now times IH]; intros s lo Hl Hi; [done|]. destruct Hi as [Hn Hi]. cbn [foldl].
  assert (forall p, p ∈ xs -> (tick xs s now).1 !! p = next_task now <$> s.1 !! p) as E by (intros p Hp; rewrite tick_tasks by done; by rewrite decide_True).
  rewrite (IH _ (now + 1)) by first [done | apply (next_in_time s.1 _ _ _ lo); (done || lia)]. rewrite (schedule_cons _ _ _ _ _ lo Hl Hn Hi E), foldl_app, (tick_world s.1) by done.
  apply foldl_ext_in. intros w p Hp%schedule_in. by apply (call_at_next _ _ now), E.
Qed.

Lemma ticks_tasks xs times : NoDup xs -> forall s lo p t, in_time s.1 xs lo -> increasing lo times -> p ∈ xs -> s.1 !! p = Some t ->
  (foldl (tick xs) s times).1 !! p = Some (if running t then ran (default (lastRunMs t) (last (due_times (intervalMs t) (lastRunMs t) times))) t else t).
Proof.
  intros Hnd. induction times as [|now times IH]; intros s lo p t Hl Hi Hp Ht.
  { cbn. rewrite Ht. f_equal. destruct t as [f a i l r]. by destruct r. }
  destruct Hi as [Hn Hi]. cbn [foldl].
  assert (forall p, p ∈ xs -> (tick xs s now).1 !! p = next_task now <$> s.1 !! p) as E by (intros q Hq; rewrite tick_tasks by done; by rewrite decide_True).
  rewrite (IH _ (now + 1) p (next_task now t)); [|apply (next_in_time s.1 _ _ _ lo); (done || lia)|done|done|by rewrite E, Ht]. f_equal. unfold next_task.
  rewrite (task_due_now now t lo) by (by apply (Hl p) || done). destruct (running t) eqn:Er; cbn [andb due_times]; [|by rewrite Er].
  destruct (intervalMs t <=? now - lastRunMs t); cbn [running ran intervalMs lastRunMs]; rewrite ?Er; [|done]. unfold ran. cbn. rewrite last_cons. by destruct (last _).
Qed.


(** ** Events *)

Definition call_back (context : Z) (w : W) (f : Z) : W := if f =? NULL then w else effect f [context] w.

Lemma invoke_loop_fold context ns : forall fuel k node, lseg (k_nodes k) node ns NULL -> Forall addr_ok ns.*1 -> (length ns < fuel)%nat ->
  invoke_loop fuel context node k = Some (set_world k (foldl (call_back context) (world k) ns.*2), tt).
Proof.
  induction ns as [|[a f] ns IH]; intros [|fuel] k node Hl Ha Hf; cbn [length] in Hf; try lia; cbn [lseg] in Hl.
  - subst node. cbn. by destruct k.
  - destruct Hl as (-> & nx & Hn & Hl). inversion_clear Ha as [|? ? Ha1 Ha2]. unfold addr_ok in Ha1.
    cbn [invoke_loop]. rewrite (proj2 (Z.eqb_neq a NULL)) by (unfold NULL; lia).
    rewrite (bind_run state _ k k k eq_refl), Hn, (bind_run (lift (Some (mkListNode nx f))) _ k k (mkListNode nx f) eq_refl). cbn [ln_data fmap list_fmap foldl snd].
    unfold call_back at 2. destruct (f =? NULL).
    + rewrite (bind_run (mret 0) _ k k 0 eq_refl), (bind_run state _ k k k eq_refl), Hn, (bind_run (lift (Some (mkListNode nx f))) _ k k (mkListNode nx f) eq_refl).
      apply IH; done || lia.
    + destruct (quiet f [context] k) as [r E]. set (k' := set_world k _) in E. rewrite (bind_run _ _ _ _ _ E), (bind_run state _ k' k' k' eq_refl).
      change (k_nodes k') with (k_nodes k). rewrite Hn, (bind_run (lift (Some (mkListNode nx f))) _ k' k' (mkListNode nx f) eq_refl). rewrite IH by (done || lia). done.
Qed.

(** [event_invoke] of an enabled event calls every callback once, in the order
    of registration, and counts the invocation. *)
Lemma event_invoke_calls fuel event context k e xs : event <> NULL -> events k !! event = Some e -> ev_enabled e = true ->
  list_view (k_nodes k) (callbacks e) xs -> (length xs < fuel)%nat ->
  exists k', event_invoke fuel event context k = Some (k', tt) /\ world k' = foldl (call_back context) (world k) xs /\
    events k' !! event = Some (mkEvent (invoke_count e +[size_bits] 1) true 0 (callbacks e)) /\ k_nodes k' = k_nodes k.
Proof.
  intros Hev Ee Hen (l & ns & El & (Hl & _ & Ha & _) & <-) Hf. rewrite length_fmap in Hf. unfold event_invoke.
  rewrite (proj2 (Z.eqb_neq _ _) Hev), (bind_run state _ k k k eq_refl), Ee, (bind_run (lift (Some e)) _ k k e eq_refl), Hen. cbn [negb]. rewrite El.
  set (k1 := mkKernel (k_nodes k) (system_driver_list k) (drivers k) (<[event := mkEvent (invoke_count e +[size_bits] 1) true 0 (Some l)]> (events k)) (periodicTasks k) (tasks k) (world k)).
  rewrite (bind_run (set_event event (mkEvent (invoke_count e +[size_bits] 1) true 0 (Some l)) (k_nodes k)) _ k k1 tt eq_refl), (bind_run (lift (Some l)) _ k1 k1 l eq_refl). rewrite (invoke_loop_fold context ns fuel k1 (head l) Hl Ha Hf).
  eexists. split; [done|]. split; [done|]. split; [|done]. cbn. apply lookup_insert_eq.
Qed.
End Quiet.

(** ** Two tasks, and functions that do not keep quiet *)

Module Observed.
#[local] Instance arch : Arch := I386.

(** The world is the record of the calls: the function and its first argument. *)
Definition recorded (fn : Z) (args : list Z) (w : list (Z * list Z)) : list (Z * list Z) := w ++ [(fn, args)].

Definition recorder : Functions (list (Z * list Z)) := fun fn args k => Some (set_world k (recorded fn args (world k)), 0).

Definition two_tasks {W} (w : W) : Kernel W :=
  mkKernel (<[16 := mkListNode 32 100]> {[32 := mkListNode NULL 200]}) None ∅ ∅ (Some (mkList 16 32 2))
    (<[100 := mkTask 1000 7 5 0 true]> {[200 := mkTask 2000 8 3 0 true]}) w.

Lemma two_tasks_view {W} (w : W) : list_view (k_nodes (two_tasks w)) (periodicTasks (two_tasks w)) [100; 200].
Proof.
  exists (mkList 16 32 2), [(16, 100); (32, 200)]. split; [done|]. split; [|done]. split_and!; try done.
  - cbn. split; [done|]. exists 32. split; [done|]. split; [done|]. by exists NULL.
  - by apply (bool_decide_unpack (NoDup [16; 32])).
  - apply (Forall_cons addr_ok). split; [done|]. by apply (Forall_singleton addr_ok).
Qed.


(** A task that destroys itself when it runs: its node and its object are used after they were freed. *)
Definition destroyer : Functions unit := fun fn args => match args with p :: _ => _ ← periodic_task_destroy (W := unit) p; mret 0 | [] => mret 0 end.

Example self_destruction : periodic_task_run_all (Functions0 := destroyer) 5 10 (two_tasks tt) = None.
Proof. vm_compute. reflexivity. Qed.

(** A task that was just started runs at once only when the kernel has been up for a whole interval. *)
Lemma start_waits {W} `{!Functions W} (k k' : Kernel W) p t now : p <> NULL -> tasks k !! p = Some t -> periodic_task_start p k = Some (k', tt) -> 0 <= now < intervalMs t -> now < 2 ^ 64 ->
  exists t', tasks k' !! p = Some t' /\ running t' = true /\ task_due now t' = false.
Proof.
  intros Hp Ht E Hn H64. unfold periodic_task_start in E. rewrite (proj2 (Z.eqb_neq _ _) Hp), (bind_run state _ k k k eq_refl), Ht, (bind_run (lift (Some t)) _ k k t eq_refl) in E.
  injection E as <-. eexists. split; [apply lookup_insert_eq|]. split; [done|]. unfold task_due, wrap. cbn. rewrite Z.sub_0_r, Z.mod_small by lia. apply Z.leb_gt. lia.
Qed.

(** Without memory for a task its fields are written through a null pointer. *)
Lemma create_without_memory {W} `{!Functions W} f a i l n (k : Kernel W) : periodic_task_create f a i l None n k = None.
Proof. unfold periodic_task_create. rewrite (bind_run state _ k k k eq_refl). by destruct (periodicTasks k). Qed.

(** The callbacks, which are the addresses of functions, are passed to [free]. *)
Definition one_event : Kernel unit :=
  mkKernel (<[16 := mkListNode 32 4096]> {[32 := mkListNode NULL 8192]}) None ∅ {[64 := mkEvent 0 true 0 (Some (mkList 16 32 2))]} None ∅ tt.

Example destroy_frees_code : snd <$> event_destroy 64 one_event = Some [4096; 8192].
Proof. vm_compute. reflexivity. Qed.

(** A driver whose initialisation fails stays registered. *)
Definition failing : Functions unit := fun _ _ => mret 0.

Example failed_driver_available :
  (r ← system_driver_register (Functions0 := failing) 64 (Some (mkList 0 0 0)) (Some 16) (mkKernel ∅ None {[64 := mkDriver 1 2 3 4]} ∅ None ∅ tt);
   snd <$> system_driver_is_available 64 r.1) = Some true.
Proof. vm_compute. reflexivity. Qed.

End Observed.
