(* ===== verification/X86.v ===== *)
(** * Instructions of the 32-bit processor

    The part of the instruction set that [kernel/i386/gcc_u64.asm] uses, as
    state transformers.  Memory is a map from addresses to 32-bit words: the
    code accesses words at distances of four bytes only.  A jump chooses
    between its target and the instructions that follow; [call] runs the callee
    and continues if it returned to its caller.  [None] is a divide error, a
    return to another address, or a halted processor. *)

From S2P Require Import Prelude.

Inductive reg := EAX | EBX | ECX | EDX | ESI | EDI | EBP | ESP.

Record machine := mkMachine {
  eax : Z; ebx : Z; ecx : Z; edx : Z; esi : Z; edi : Z; ebp : Z; esp : Z; eip : Z;
  cf : bool; zf : bool; sf : bool; ofl : bool;
  mem : Z -> Z
}.

Abbreviation asm := (st machine unit).

Definition get (m : machine) (r : reg) : Z :=
  match r with EAX => eax m | EBX => ebx m | ECX => ecx m | EDX => edx m | ESI => esi m | EDI => edi m | EBP => ebp m | ESP => esp m end.

Definition set (m : machine) (r : reg) (v : Z) : machine :=
  let 'mkMachine a b c d si di bp sp ip f1 f2 f3 f4 h := m in
  match r with
  | EAX => mkMachine v b c d si di bp sp ip f1 f2 f3 f4 h
  | EBX => mkMachine a v c d si di bp sp ip f1 f2 f3 f4 h
  | ECX => mkMachine a b v d si di bp sp ip f1 f2 f3 f4 h
  | EDX => mkMachine a b c v si di bp sp ip f1 f2 f3 f4 h
  | ESI => mkMachine a b c d v di bp sp ip f1 f2 f3 f4 h
  | EDI => mkMachine a b c d si v bp sp ip f1 f2 f3 f4 h
  | EBP => mkMachine a b c d si di v sp ip f1 f2 f3 f4 h
  | ESP => mkMachine a b c d si di bp v ip f1 f2 f3 f4 h
  end.

Definition upd (h : Z -> Z) (a v : Z) : Z -> Z := fun x => if x =? a then v else h x.

Definition set_mem (m : machine) (a v : Z) : machine :=
  let 'mkMachine r1 r2 r3 r4 r5 r6 r7 r8 ip f1 f2 f3 f4 h := m in
  mkMachine r1 r2 r3 r4 r5 r6 r7 r8 ip f1 f2 f3 f4 (upd h a v).

(** The flags after a result; [ofl] only where it is used. *)
Definition flags (m : machine) (v : Z) (c o : bool) : machine :=
  let 'mkMachine r1 r2 r3 r4 r5 r6 r7 r8 ip _ _ _ _ h := m in
  mkMachine r1 r2 r3 r4 r5 r6 r7 r8 ip c (v =? 0) (2 ^ 31 <=? v) o h.

(** A register, a constant, or the word at [r + off]. *)
Inductive operand := R (r : reg) | I (v : Z) | M (r : reg) (off : Z).

Definition val (m : machine) (o : operand) : Z :=
  match o with R r => get m r | I v => wrap 32 v | M r off => mem m (wrap 32 (get m r + off)) end.

Definition store (m : machine) (o : operand) (v : Z) : machine :=
  match o with R r => set m r v | I _ => m | M r off => set_mem m (wrap 32 (get m r + off)) v end.

(** ** Moves, stack, calls *)

Definition mov (d s : operand) : asm := fun m => Some (store m d (val m s), tt).

Definition push (s : operand) : asm := fun m =>
  let v := val m s in let sp := esp m -[32] 4 in Some (set_mem (set m ESP sp) sp v, tt).

Definition pop (r : reg) : asm := fun m =>
  let v := mem m (esp m) in Some (set (set m ESP (esp m +[32] 4)) r v, tt).

Definition ret : asm := fun m =>
  let 'mkMachine r1 r2 r3 r4 r5 r6 r7 r8 _ f1 f2 f3 f4 h := m in
  Some (mkMachine r1 r2 r3 r4 r5 r6 r7 (r8 +[32] 4) (h r8) f1 f2 f3 f4 h, tt).

(** [ra] is the address of the instruction after the call. *)
Definition returned (ra : Z) : asm := fun m => if eip m =? wrap 32 ra then Some (m, tt) else None.
Definition call (f : asm) (ra : Z) : asm := push (I ra);; f;; returned ra.

Definition halt : asm := fun _ => None.

(** ** Arithmetic *)

Definition overflow (x : Z) : bool := negb ((- 2 ^ 31 <=? x) && (x <? 2 ^ 31)).

Definition add (d s : operand) : asm := fun m =>
  let a := val m d in let b := val m s in let v := a +[32] b in
  Some (flags (store m d v) v (2 ^ 32 <=? a + b) (overflow (sign_of 32 a + sign_of 32 b)), tt).

Definition adc (d s : operand) : asm := fun m =>
  let a := val m d in let b := val m s + Z.b2z (cf m) in let v := a +[32] b in
  Some (flags (store m d v) v (2 ^ 32 <=? a + b) (overflow (sign_of 32 a + sign_of 32 (val m s) + Z.b2z (cf m))), tt).

Definition sub (d s : operand) : asm := fun m =>
  let a := val m d in let b := val m s in let v := a -[32] b in
  Some (flags (store m d v) v (a <? b) (overflow (sign_of 32 a - sign_of 32 b)), tt).

Definition sbb (d s : operand) : asm := fun m =>
  let a := val m d in let b := val m s + Z.b2z (cf m) in let v := a -[32] b in
  Some (flags (store m d v) v (a <? b) (overflow (sign_of 32 a - sign_of 32 (val m s) - Z.b2z (cf m))), tt).

Definition cmp (d s : operand) : asm := fun m =>
  let a := val m d in let b := val m s in
  Some (flags m (a -[32] b) (a <? b) (overflow (sign_of 32 a - sign_of 32 b)), tt).

Definition test (d s : operand) : asm := fun m => Some (flags m (Z.land (val m d) (val m s)) false false, tt).

Definition xor (d s : operand) : asm := fun m =>
  let v := Z.lxor (val m d) (val m s) in Some (flags (store m d v) v false false, tt).

Definition or (d s : operand) : asm := fun m =>
  let v := Z.lor (val m d) (val m s) in Some (flags (store m d v) v false false, tt).

Definition neg (d : operand) : asm := fun m =>
  let a := val m d in let v := wrap 32 (- a) in Some (flags (store m d v) v (negb (a =? 0)) (a =? 2 ^ 31), tt).

(** [inc] and [dec] keep the carry. *)
Definition inc (d : operand) : asm := fun m =>
  let v := val m d +[32] 1 in Some (flags (store m d v) v (cf m) (v =? 2 ^ 31), tt).

Definition dec (d : operand) : asm := fun m =>
  let v := val m d -[32] 1 in Some (flags (store m d v) v (cf m) (v =? 2 ^ 31 - 1), tt).

Definition mul (s : operand) : asm := fun m =>
  let p := eax m * val m s in
  Some (flags (set (set m EAX (wrap 32 p)) EDX (p / 2 ^ 32)) (wrap 32 p) (negb (p / 2 ^ 32 =? 0)) (negb (p / 2 ^ 32 =? 0)), tt).

Definition div (s : operand) : asm := fun m =>
  let d := val m s in let n := edx m * 2 ^ 32 + eax m in
  if (d =? 0) || (2 ^ 32 <=? n / d) then None else Some (set (set m EAX (n / d)) EDX (n mod d), tt).

(** ** Shifts: the count is taken modulo 32, and zero changes nothing *)

Definition count (m : machine) (c : operand) : Z := Z.land (val m c) 31.

Definition shl (d c : operand) : asm := fun m =>
  let n := count m c in let a := val m d in let v := wrap 32 (Z.shiftl a n) in
  Some (if n =? 0 then m else flags (store m d v) v (Z.testbit a (32 - n)) (ofl m), tt).

Definition shr (d c : operand) : asm := fun m =>
  let n := count m c in let a := val m d in let v := Z.shiftr a n in
  Some (if n =? 0 then m else flags (store m d v) v (Z.testbit a (n - 1)) (ofl m), tt).

Definition sar (d c : operand) : asm := fun m =>
  let n := count m c in let a := sign_of 32 (val m d) in let v := wrap 32 (Z.shiftr a n) in
  Some (if n =? 0 then m else flags (store m d v) v (Z.testbit a (n - 1)) (ofl m), tt).

Definition shld (d s c : operand) : asm := fun m =>
  let n := count m c in let a := val m d in
  let v := wrap 32 (Z.lor (Z.shiftl a n) (Z.shiftr (val m s) (32 - n))) in
  Some (if n =? 0 then m else flags (store m d v) v (Z.testbit a (32 - n)) (ofl m), tt).

Definition shrd (d s c : operand) : asm := fun m =>
  let n := count m c in let a := val m d in
  let v := wrap 32 (Z.lor (Z.shiftr a n) (Z.shiftl (val m s) (32 - n))) in
  Some (if n =? 0 then m else flags (store m d v) v (Z.testbit a (n - 1)) (ofl m), tt).

(** [rcl d, 1] *)
Definition rcl1 (d : operand) : asm := fun m =>
  let a := val m d in let v := wrap 32 (2 * a + Z.b2z (cf m)) in Some (flags (store m d v) v (Z.testbit a 31) (ofl m), tt).

(** ** Jumps *)

Definition jump (c : machine -> bool) (target next : asm) : asm := fun m => if c m then target m else next m.

Definition jb : asm -> asm -> asm := jump cf.
Definition jae : asm -> asm -> asm := jump (fun m => negb (cf m)).
Definition ja : asm -> asm -> asm := jump (fun m => negb (cf m) && negb (zf m)).
Definition jz : asm -> asm -> asm := jump zf.
Definition jnz : asm -> asm -> asm := jump (fun m => negb (zf m)).
Definition jns : asm -> asm -> asm := jump (fun m => negb (sf m)).
Definition jl : asm -> asm -> asm := jump (fun m => xorb (sf m) (ofl m)).
Definition jg : asm -> asm -> asm := jump (fun m => negb (zf m) && negb (xorb (sf m) (ofl m))).
