(* ===== verification/U64.v ===== *)
(** * 64-bit arithmetic on i386 ([kernel/i386/gcc_u64.asm])

    The routines the compiler calls for 64-bit operations, instruction by
    instruction.  Arguments are on the stack above the return address, low word
    first; results are in [edx:eax]. *)

From S2P Require Import Prelude X86.

Definition __adddi3 : asm :=
  mov (R EAX) (M ESP 4);;
  mov (R EDX) (M ESP 8);;
  add (R EAX) (M ESP 12);;
  adc (R EDX) (M ESP 16);;
  ret.

Definition __subdi3 : asm :=
  mov (R EAX) (M ESP 4);;
  mov (R EDX) (M ESP 8);;
  sub (R EAX) (M ESP 12);;
  sbb (R EDX) (M ESP 16);;
  ret.

(** The labels of the two comparisons. *)
Definition greater : asm := mov (R EAX) (I 1);; ret.
Definition less : asm := mov (R EAX) (I (-1));; ret.

(** The comparison of the low words, which ends both. *)
Definition compare_low : asm :=
  mov (R EAX) (M ESP 4);;
  mov (R EDX) (M ESP 12);;
  cmp (R EAX) (R EDX);;
  jb less (ja greater (
  xor (R EAX) (R EAX);;
  ret)).

Definition __cmpdi2 : asm :=
  mov (R EAX) (M ESP 8);;
  mov (R EDX) (M ESP 16);;
  cmp (R EAX) (R EDX);;
  jl less (jg greater compare_low).

Definition __ucmpdi2 : asm :=
  mov (R EAX) (M ESP 8);;
  mov (R EDX) (M ESP 16);;
  cmp (R EAX) (R EDX);;
  jb less (ja greater compare_low).

Definition shift_zero : asm :=
  xor (R EAX) (R EAX);;
  xor (R EDX) (R EDX);;
  pop EBX;;
  ret.

Definition __ashldi3 : asm :=
  mov (R EAX) (M ESP 4);;
  mov (R EDX) (M ESP 8);;
  mov (R ECX) (M ESP 12);;
  push (R EBX);;
  cmp (R ECX) (I 64);;
  jae shift_zero (
  cmp (R ECX) (I 32);;
  jae (
    sub (R ECX) (I 32);;
    mov (R EDX) (R EAX);;
    xor (R EAX) (R EAX);;
    shl (R EDX) (R ECX);;
    pop EBX;;
    ret) (
  shld (R EDX) (R EAX) (R ECX);;
  shl (R EAX) (R ECX);;
  pop EBX;;
  ret)).

Definition __lshrdi3 : asm :=
  mov (R EAX) (M ESP 4);;
  mov (R EDX) (M ESP 8);;
  mov (R ECX) (M ESP 12);;
  push (R EBX);;
  cmp (R ECX) (I 64);;
  jae shift_zero (
  cmp (R ECX) (I 32);;
  jae (
    sub (R ECX) (I 32);;
    mov (R EAX) (R EDX);;
    xor (R EDX) (R EDX);;
    shr (R EAX) (R ECX);;
    pop EBX;;
    ret) (
  shrd (R EAX) (R EDX) (R ECX);;
  shr (R EDX) (R ECX);;
  pop EBX;;
  ret)).

Definition __ashrdi3 : asm :=
  mov (R EAX) (M ESP 4);;
  mov (R EDX) (M ESP 8);;
  mov (R ECX) (M ESP 12);;
  push (R EBX);;
  cmp (R ECX) (I 64);;
  jae (
    mov (R EDX) (M ESP 8);;
    sar (R EDX) (I 31);;
    mov (R EAX) (R EDX);;
    pop EBX;;
    ret) (
  cmp (R ECX) (I 32);;
  jae (
    sub (R ECX) (I 32);;
    mov (R EAX) (R EDX);;
    sar (R EAX) (R ECX);;
    sar (R EDX) (I 31);;
    pop EBX;;
    ret) (
  shrd (R EAX) (R EDX) (R ECX);;
  sar (R EDX) (R ECX);;
  pop EBX;;
  ret)).

(** ** Unsigned division *)

(** The frame of the bitwise loops: four saved registers, four words of local
    variables (divisor low and high, dividend low and high). *)
Definition enter_64_64 : asm :=
  push (R EBP);;
  push (R EBX);;
  push (R ESI);;
  push (R EDI);;
  sub (R ESP) (I 16);;
  mov (R EBX) (M ESP (16 + 4));;
  mov (M ESP 0) (R EBX);;
  mov (R EBX) (M ESP (20 + 4));;
  mov (M ESP 4) (R EBX);;
  mov (R EBX) (M ESP (8 + 4));;
  mov (M ESP 8) (R EBX);;
  mov (R EBX) (M ESP (12 + 4));;
  mov (M ESP 12) (R EBX);;
  xor (R EAX) (R EAX);;
  xor (R EDX) (R EDX);;
  xor (R EDI) (R EDI).

Definition leave_64_64 : asm :=
  add (R ESP) (I 16);;
  pop EDI;;
  pop ESI;;
  pop EBX;;
  pop EBP;;
  ret.

(** Shift the next bit of the dividend into the remainder. *)
Definition shift_in : asm :=
  shl (R EAX) (I 1);;
  rcl1 (R EDX);;
  mov (R EBX) (M ESP 8);;
  shl (R EBX) (I 1);;
  mov (M ESP 8) (R EBX);;
  mov (R EBX) (M ESP 12);;
  rcl1 (R EBX);;
  mov (M ESP 12) (R EBX);;
  adc (R EAX) (I 0).

(** [yes] when the remainder is at least the divisor. *)
Definition if_fits (yes no : asm) : asm :=
  mov (R EBX) (R EDX);;
  cmp (R EBX) (M ESP 4);;
  jb no (ja yes (
  mov (R EBX) (R EAX);;
  cmp (R EBX) (M ESP 0);;
  jb no yes)).

Fixpoint u64_loop (rounds : nat) : asm :=
  match rounds with
  | O => halt
  | S rounds =>
      shld (R ESI) (R EDI) (I 1);;
      shl (R EDI) (I 1);;
      shift_in;;
      let no_sub := dec (R ECX);; jnz (u64_loop rounds) (mret tt) in
      if_fits (sub (R EAX) (M ESP 0);; sbb (R EDX) (M ESP 4);; or (R EDI) (I 1);; no_sub) no_sub
  end.

Definition udiv_64_64 : asm :=
  enter_64_64;;
  xor (R ESI) (R ESI);;
  mov (R ECX) (I 64);;
  u64_loop 64;;
  mov (R EAX) (R EDI);;
  mov (R EDX) (R ESI);;
  leave_64_64.

Definition __udivdi3 : asm :=
  mov (R EAX) (M ESP 16);;
  test (R EAX) (R EAX);;
  jnz udiv_64_64 (
  mov (R ECX) (M ESP 12);;
  test (R ECX) (R ECX);;
  jz halt (
  mov (R EDX) (M ESP 8);;
  mov (R EAX) (M ESP 4);;
  cmp (R EDX) (R ECX);;
  jb (
    div (R ECX);;
    xor (R EDX) (R EDX);;
    ret) (
  push (R EBX);;
  mov (R EBX) (R ECX);;
  mov (R EAX) (R EDX);;
  xor (R EDX) (R EDX);;
  div (R EBX);;
  push (R EAX);;
  mov (R EAX) (M ESP 8);;
  div (R EBX);;
  pop EDX;;
  pop EBX;;
  ret))).

Fixpoint u64m_loop (rounds : nat) : asm :=
  match rounds with
  | O => halt
  | S rounds =>
      shl (R EDI) (I 1);;
      shift_in;;
      let no_sub := dec (R ECX);; jnz (u64m_loop rounds) (mret tt) in
      if_fits (sub (R EAX) (M ESP 0);; sbb (R EDX) (M ESP 4);; inc (R EDI);; no_sub) no_sub
  end.

Definition umod_64_64 : asm :=
  enter_64_64;;
  mov (R ECX) (I 64);;
  u64m_loop 64;;
  leave_64_64.

Definition __umoddi3 : asm :=
  mov (R EAX) (M ESP 16);;
  test (R EAX) (R EAX);;
  jnz umod_64_64 (
  mov (R ECX) (M ESP 12);;
  test (R ECX) (R ECX);;
  jz halt (
  mov (R EDX) (M ESP 8);;
  mov (R EAX) (M ESP 4);;
  cmp (R EDX) (R ECX);;
  jb (
    div (R ECX);;
    mov (R EAX) (R EDX);;
    xor (R EDX) (R EDX);;
    ret) (
  push (R EBX);;
  mov (R EBX) (R ECX);;
  mov (R EAX) (R EDX);;
  xor (R EDX) (R EDX);;
  div (R EBX);;
  mov (R EAX) (M ESP (4 + 4));;
  div (R EBX);;
  mov (R EAX) (R EDX);;
  xor (R EDX) (R EDX);;
  pop EBX;;
  ret))).

(** ** Signed division *)

(** Negate [hi:lo]. *)
Definition neg64 (hi lo : reg) : asm :=
  neg (R lo);;
  adc (R hi) (I 0);;
  neg (R hi).

Definition load_operands : asm :=
  push (R EBX);;
  push (R ESI);;
  push (R EDI);;
  push (R EBP);;
  mov (R EBX) (M ESP (4 + 16));;
  mov (R EDI) (M ESP (8 + 16));;
  mov (R ESI) (M ESP (12 + 16));;
  mov (R EBP) (M ESP (16 + 16)).

(** Take the absolute values, call [f], and negate the result if the word on
    the stack is not zero; [ra] is the return address of the call. *)
Definition on_absolute (f : asm) (ra : Z) : asm :=
  test (R EDI) (R EDI);;
  jns (mret tt) (neg64 EDI EBX);;
  test (R EBP) (R EBP);;
  jns (mret tt) (neg64 EBP ESI);;
  push (R EBP);;
  push (R ESI);;
  push (R EDI);;
  push (R EBX);;
  call f ra;;
  add (R ESP) (I 16);;
  pop ECX;;
  test (R ECX) (R ECX);;
  jz (mret tt) (neg64 EDX EAX);;
  pop EBP;;
  pop EDI;;
  pop ESI;;
  pop EBX;;
  ret.

Definition __divdi3 (ra : Z) : asm :=
  load_operands;;
  mov (R EAX) (R EDI);;
  sar (R EAX) (I 31);;
  mov (R EDX) (R EBP);;
  sar (R EDX) (I 31);;
  xor (R ECX) (R ECX);;
  mov (R ECX) (R EAX);;
  xor (R EAX) (R EDX);;
  push (R EAX);;
  on_absolute __udivdi3 ra.

Definition __moddi3 (ra : Z) : asm :=
  load_operands;;
  mov (R EAX) (R EDI);;
  sar (R EAX) (I 31);;
  push (R EAX);;
  on_absolute __umoddi3 ra.

Definition __muldi3 : asm :=
  mov (R EAX) (M ESP 4);;
  mov (R ECX) (M ESP 12);;
  mul (R ECX);;
  mov (R ESI) (R EAX);;
  mov (R EDI) (R EDX);;
  mov (R EAX) (M ESP 4);;
  mov (R ECX) (M ESP 16);;
  mul (R ECX);;
  mov (R EBX) (R EAX);;
  mov (R EBP) (R EDX);;
  mov (R EAX) (M ESP 8);;
  mov (R ECX) (M ESP 12);;
  mul (R ECX);;
  add (R EBX) (R EAX);;
  adc (R EBP) (R EDX);;
  add (R EDI) (R EBX);;
  mov (R EAX) (R ESI);;
  mov (R EDX) (R EDI);;
  ret.

Definition __negdi2 : asm :=
  mov (R EAX) (M ESP 4);;
  mov (R EDX) (M ESP 8);;
  neg64 EDX EAX;;
  ret.

(** ** Quotient and remainder *)

(** [ra1] and [ra2] are the return addresses of the two calls. *)
Definition divmod (q r : asm) (ra1 ra2 : Z) : asm :=
  push (R EBX);;
  push (R ESI);;
  push (R EDI);;
  push (R EBP);;
  mov (R EBX) (M ESP 20);;
  mov (R ECX) (M ESP 24);;
  mov (R ESI) (M ESP 28);;
  mov (R EBP) (M ESP 32);;
  mov (R EDI) (M ESP 36);;
  push (R EBP);;
  push (R ESI);;
  push (R ECX);;
  push (R EBX);;
  call q ra1;;
  add (R ESP) (I 16);;
  push (R EDX);;
  push (R EAX);;
  push (R EBP);;
  push (R ESI);;
  push (R ECX);;
  push (R EBX);;
  call r ra2;;
  add (R ESP) (I 16);;
  test (R EDI) (R EDI);;
  jz (mret tt) (mov (M EDI 0) (R EAX);; mov (M EDI 4) (R EDX));;
  pop EAX;;
  pop EDX;;
  pop EBP;;
  pop EDI;;
  pop ESI;;
  pop EBX;;
  ret.

Definition __divmoddi4 (ra ra1 ra2 : Z) : asm := divmod (__divdi3 ra) (__moddi3 ra) ra1 ra2.
Definition __udivmoddi4 (ra1 ra2 : Z) : asm := divmod __udivdi3 __umoddi3 ra1 ra2.

(** ** Calling convention *)

(** A call with arguments in the words from [esp + 4] on. *)
Definition word (m : machine) (off : Z) : Z := mem m (esp m + off).
Definition dword (m : machine) (off : Z) : Z := word m off + 2 ^ 32 * word m (off + 4).
Definition result (m : machine) : Z := eax m + 2 ^ 32 * edx m.

Definition w32 (x : Z) : Prop := 0 <= x < 2 ^ 32.

(** Words and registers have 32 bits, and there are [room] bytes below the
    stack pointer. *)
Record called (room : Z) (m : machine) : Prop := {
  c_words : forall a, w32 (mem m a);
  c_regs : forall r, w32 (get m r);
  c_stack : room <= esp m /\ esp m + 64 < 2 ^ 32
}.

(** The routine returned to its caller, whose part of the stack is as before. *)
Record back (m m' : machine) : Prop := {
  r_eip : eip m' = mem m (esp m);
  r_esp : esp m' = esp m + 4;
  r_mem : forall a, esp m <= a -> mem m' a = mem m a
}.

(** The registers a routine has to preserve. *)
Definition saved (m m' : machine) : Prop := ebx m' = ebx m /\ esi m' = esi m /\ edi m' = edi m /\ ebp m' = ebp m.

Definition computes (f : asm) (m : machine) (v : Z) : Prop :=
  exists m', f m = Some (m', tt) /\ back m m' /\ saved m m' /\ result m' = v /\ w32 (eax m') /\ w32 (edx m').

(** A routine with a 32-bit signed result. *)
Definition computes_int (f : asm) (m : machine) (v : Z) : Prop :=
  exists m', f m = Some (m', tt) /\ back m m' /\ saved m m' /\ sign_of 32 (eax m') = v.

(** ** Symbolic execution *)

Lemma upd_eq h a v : upd h a v a = v.
Proof. unfold upd. by rewrite Z.eqb_refl. Qed.

Lemma upd_ne h a v x : x <> a -> upd h a v x = h x.
Proof. intros H. unfold upd. by destruct (Z.eqb_spec x a). Qed.

(** Linear arithmetic with remainders by the two word sizes. *)
Ltac word_arith :=
  unfold wrap, w32 in *; change (2 ^ 64) with 18446744073709551616 in *; change (2 ^ 32) with 4294967296 in *; change (2 ^ 31) with 2147483648 in *;
  Z.div_mod_to_equations; lia.

Lemma wrap_w32 x : w32 (wrap 32 x).
Proof. apply (wrap_bound 32). lia. Qed.

Lemma add_words a0 a1 b0 b1 : w32 a0 -> w32 a1 -> w32 b0 -> w32 b1 ->
  (a0 +[32] b0) + 2 ^ 32 * (a1 +[32] (b1 + Z.b2z (2 ^ 32 <=? a0 + b0))) = (a0 + 2 ^ 32 * a1) +[64] (b0 + 2 ^ 32 * b1).
Proof. intros. destruct (Z.leb_spec (2 ^ 32) (a0 + b0)); cbn [Z.b2z]; word_arith. Qed.

Lemma sub_words a0 a1 b0 b1 : w32 a0 -> w32 a1 -> w32 b0 -> w32 b1 ->
  (a0 -[32] b0) + 2 ^ 32 * (a1 -[32] (b1 + Z.b2z (a0 <? b0))) = (a0 + 2 ^ 32 * a1) -[64] (b0 + 2 ^ 32 * b1).
Proof. intros. destruct (Z.ltb_spec a0 b0); cbn [Z.b2z]; word_arith. Qed.

Lemma neg_words a0 a1 : w32 a0 -> w32 a1 ->
  wrap 32 (- a0) + 2 ^ 32 * wrap 32 (- (a1 +[32] (wrap 32 0 + Z.b2z (negb (a0 =? 0))))) = wrap 64 (- (a0 + 2 ^ 32 * a1)).
Proof. intros. destruct (Z.eqb_spec a0 0); cbn [negb Z.b2z]; change (wrap 32 0) with 0; word_arith. Qed.

Lemma mul_words a0 a1 b0 b1 : w32 a0 -> w32 a1 -> w32 b0 -> w32 b1 ->
  wrap 32 (a0 * b0) + 2 ^ 32 * (a0 * b0 / 2 ^ 32 +[32] (wrap 32 (a0 * b1) +[32] wrap 32 (a1 * b0))) =
  (a0 + 2 ^ 32 * a1) *[64] (b0 + 2 ^ 32 * b1).
Proof.
  intros. replace ((a0 + 2 ^ 32 * a1) * (b0 + 2 ^ 32 * b1)) with (a0 * b0 + 2 ^ 32 * (a0 * b1 + a1 * b0) + 2 ^ 64 * (a1 * b1)) by ring.
  assert (0 <= a0 * b0) by (unfold w32 in *; nia). generalize (a0 * b0), (a0 * b1), (a1 * b0), (a1 * b1). intros. word_arith.
Qed.

#[local] Arguments wrap : simpl never.

(** Addresses on the stack without their wrap-around, and reads below them. *)
Ltac stack_step sp h :=
  match goal with
  | |- context [wrap 32 ?e] => lazymatch e with context [h] => fail | context [sp] => rewrite (wrap_small 32 e) by lia end
  | |- context [upd ?g ?a ?v ?x] =>
      first [rewrite (upd_ne g a v x) by lia | replace (upd g a v x) with v by (symmetry; replace x with a by lia; apply upd_eq)]
  end.

(** One instruction of a sequence, on a machine whose fields are known. *)
Ltac step :=
  match goal with
  | |- context [@mbind (st machine) st_bind _ _ ?k ?i ?m] =>
      let r := eval hnf in (i m) in let r := eval cbn in r in
      lazymatch r with Some (?m', ?x) => rewrite (bind_run i k m m' x) by reflexivity; cbv beta end
  end.

(** The fields of a machine, and the words and registers of a call. *)
Ltac open_call f m Hm sp h :=
  destruct m as [r1 r2 r3 r4 r5 r6 r7 sp r8 b1 b2 b3 b4 h]; destruct Hm as [Hw Hr Hs];
  unfold computes, computes_int, dword, word; change (4 + 4) with 8; change (12 + 4) with 16; cbn [esp mem] in *; unfold f.

(** The routine came back: the final machine is known. *)
Ltac came_back sp h :=
  eexists; split; [reflexivity|]; split; [constructor; cbn; repeat stack_step sp h; [done || (f_equal; lia)|lia|intros; by repeat stack_step sp h]|];
  unfold saved, result; cbn; repeat stack_step sp h.

Ltac run_code f m Hm := let sp := fresh "sp" in let h := fresh "h" in open_call f m Hm sp h; repeat step; came_back sp h.

Lemma adddi3_run m : called 64 m -> computes __adddi3 m (dword m 4 +[64] dword m 12).
Proof. intros Hm. run_code __adddi3 m Hm. split; [done|]. split; [apply add_words; apply Hw|split; apply wrap_w32]. Qed.

Lemma subdi3_run m : called 64 m -> computes __subdi3 m (dword m 4 -[64] dword m 12).
Proof. intros Hm. run_code __subdi3 m Hm. split; [done|]. split; [apply sub_words; apply Hw|split; apply wrap_w32]. Qed.

Lemma negdi2_run m : called 64 m -> computes __negdi2 m (wrap 64 (- dword m 4)).
Proof. intros Hm. run_code __negdi2 m Hm. split; [done|]. split; [apply neg_words; apply Hw|split; apply wrap_w32]. Qed.

(** The product is right, but the registers it uses are not restored. *)
Lemma muldi3_run m : called 64 m -> exists m', __muldi3 m = Some (m', tt) /\ back m m' /\ result m' = dword m 4 *[64] dword m 12.
Proof. intros Hm. run_code __muldi3 m Hm. apply mul_words; apply Hw. Qed.

(** A conditional jump: the condition on the known flags. *)
Ltac branch :=
  unfold jb, jae, ja, jz, jnz, jns, jl, jg;
  lazymatch goal with
  | |- context [jump ?c ?a ?b ?m] => let t := eval cbn in (c m) in change (jump c a b m) with (if t then a m else b m)
  end.

Definition sign (c : comparison) : Z := match c with Lt => -1 | Eq => 0 | Gt => 1 end.

Lemma compare_words a0 a1 b0 b1 : w32 a0 -> w32 b0 ->
  (a0 + 2 ^ 32 * a1 ?= b0 + 2 ^ 32 * b1) = match a1 ?= b1 with Eq => a0 ?= b0 | c => c end.
Proof.
  intros H0 H1. unfold w32 in *. destruct (Z.compare_spec a1 b1) as [->| |].
  - destruct (Z.compare_spec a0 b0); [apply Z.compare_eq_iff|apply Z.compare_lt_iff|apply Z.compare_gt_iff]; lia.
  - apply Z.compare_lt_iff. lia.
  - apply Z.compare_gt_iff. lia.
Qed.

Lemma sub_zero a b : w32 a -> w32 b -> (a -[32] b =? 0) = (a =? b).
Proof. intros. destruct (Z.eqb_spec (a -[32] b) 0), (Z.eqb_spec a b); try done; word_arith. Qed.

(** The flags after [cmp], as the jumps read them. *)
Lemma unsigned_greater a b : w32 a -> w32 b -> b <= a -> negb (a -[32] b =? 0) = (b <? a).
Proof. intros. rewrite sub_zero by done. destruct (Z.eqb_spec a b), (Z.ltb_spec b a); (done || lia). Qed.

Lemma signed_word a : w32 a -> - 2 ^ 31 <= sign_of 32 a < 2 ^ 31 /\ (a = sign_of 32 a \/ a = sign_of 32 a + 2 ^ 32).
Proof.
  intros Ha. unfold sign_of. rewrite wrap_small by done. change (32 - 1) with 31. unfold w32 in *. destruct (Z.ltb_spec a (2 ^ 31)); lia.
Qed.

Lemma sign_flags x : - 2 ^ 32 < x < 2 ^ 32 -> xorb (2 ^ 31 <=? wrap 32 x) (overflow x) = (x <? 0).
Proof.
  intros Hx. unfold overflow.
  destruct (Z.leb_spec (2 ^ 31) (wrap 32 x)), (Z.leb_spec (- 2 ^ 31) x), (Z.ltb_spec x (2 ^ 31)), (Z.ltb_spec x 0); try done; exfalso; word_arith.
Qed.

Lemma signed_less a b : w32 a -> w32 b ->
  xorb (2 ^ 31 <=? a -[32] b) (overflow (sign_of 32 a - sign_of 32 b)) = (sign_of 32 a <? sign_of 32 b).
Proof.
  intros Ha Hb. pose proof (signed_word a Ha) as [Ra Ea]. pose proof (signed_word b Hb) as [Rb Eb].
  replace (a -[32] b) with (sign_of 32 a -[32] sign_of 32 b).
  - rewrite sign_flags by lia. destruct (Z.ltb_spec (sign_of 32 a - sign_of 32 b) 0), (Z.ltb_spec (sign_of 32 a) (sign_of 32 b)); (done || lia).
  - revert Ra Ea Rb Eb. generalize (sign_of 32 a), (sign_of 32 b). intros. word_arith.
Qed.

Lemma signed_greater a b : w32 a -> w32 b ->
  negb (a -[32] b =? 0) && negb (xorb (2 ^ 31 <=? a -[32] b) (overflow (sign_of 32 a - sign_of 32 b))) = (sign_of 32 b <? sign_of 32 a).
Proof.
  intros Ha Hb. rewrite signed_less, sub_zero by done. unfold sign_of. rewrite (wrap_small 32 a), (wrap_small 32 b) by done. change (32 - 1) with 31.
  destruct (Z.eqb_spec a b) as [->|]; cbn [negb andb]; [by rewrite Z.ltb_irrefl|]. unfold w32 in *.
  destruct (Z.ltb_spec a (2 ^ 31)), (Z.ltb_spec b (2 ^ 31));
  match goal with |- negb (?x <? ?y) = _ => destruct (Z.ltb_spec x y), (Z.ltb_spec y x) end; try done; lia.
Qed.

Lemma sign_words a0 a1 : w32 a0 -> w32 a1 -> sign_of 64 (a0 + 2 ^ 32 * a1) = a0 + 2 ^ 32 * sign_of 32 a1.
Proof.
  intros H0 H1. unfold sign_of. change (64 - 1) with 63. change (32 - 1) with 31. rewrite (wrap_small 32 a1), wrap_small by (unfold w32 in *; lia).
  unfold w32 in *. destruct (Z.ltb_spec (a0 + 2 ^ 32 * a1) (2 ^ 63)), (Z.ltb_spec a1 (2 ^ 31)); lia.
Qed.

(** A three-way jump after [cmp]: the flags read as [x <? y] and [y <? x]. *)
Ltac three_ways H gt :=
  lazymatch goal with
  | |- context [if ?x <? ?y then _ else _] => destruct (Z.compare_spec x y) as [E|E|E];
      [rewrite (proj2 (Z.ltb_ge x y)) by lia; branch; rewrite gt by (lia || (apply H; lia)); rewrite (proj2 (Z.ltb_ge y x)) by lia
      |rewrite (proj2 (Z.ltb_lt x y)) by lia; unfold less; step
      |rewrite (proj2 (Z.ltb_ge x y)) by lia; branch; rewrite gt by (lia || (apply H; lia)); rewrite (proj2 (Z.ltb_lt y x)) by lia; unfold greater; step]
  end.

Lemma compare_low_run m a c e f1 f2 f3 f4 : called 64 m ->
  computes_int (fun _ => compare_low (mkMachine a (ebx m) c e (esi m) (edi m) (ebp m) (esp m) (eip m) f1 f2 f3 f4 (mem m))) m (sign (word m 4 ?= word m 12)).
Proof.
  intros Hm. open_call compare_low m Hm sp h. assert (forall k, 0 <= k -> w32 (h (sp + k))) as Hk by (intros; apply Hw).
  cbn [ebx esi edi ebp eip]. do 3 step. branch. repeat stack_step sp h. three_ways Hk unsigned_greater; [step|..]; came_back sp h; [|done..].
  by rewrite Z.lxor_nilpotent.
Qed.

Lemma ucmpdi2_run m : called 64 m -> computes_int __ucmpdi2 m (sign (dword m 4 ?= dword m 12)).
Proof.
  intros Hm. pose proof (compare_low_run m) as Hlow. pose proof Hm as Hm'. open_call __ucmpdi2 m Hm sp h.
  assert (forall k, 0 <= k -> w32 (h (sp + k))) as Hk by (intros; apply Hw). rewrite compare_words by (apply Hk; lia).
  do 3 step. branch. repeat stack_step sp h. three_ways Hk unsigned_greater; [|came_back sp h; done..]. by apply Hlow.
Qed.

Lemma cmpdi2_run m : called 64 m -> computes_int __cmpdi2 m (sign (sign_of 64 (dword m 4) ?= sign_of 64 (dword m 12))).
Proof.
  intros Hm. pose proof (compare_low_run m) as Hlow. pose proof Hm as Hm'. open_call __cmpdi2 m Hm sp h.
  assert (forall k, 0 <= k -> w32 (h (sp + k))) as Hk by (intros; apply Hw). rewrite !sign_words, compare_words by (apply Hk; lia).
  do 3 step. branch. repeat stack_step sp h. rewrite signed_less by (apply Hk; lia).
  three_ways Hk signed_greater; [|came_back sp h; done..]. by apply Hlow.
Qed.

(** ** Shifts *)

Lemma testbit_words x y i : w32 x -> Z.testbit (x + 2 ^ 32 * y) i = if i <? 32 then Z.testbit x i else Z.testbit y (i - 32).
Proof.
  intros Hx. destruct (Z.lt_ge_cases i 0); [destruct (Z.ltb_spec i 32); [|lia]; by rewrite !Z.testbit_neg_r by lia|]. destruct (Z.ltb_spec i 32).
  - rewrite <- (Z.mod_pow2_bits_low _ 32 i) by lia. f_equal. rewrite Z.mul_comm, Z.mod_add by lia. by apply Z.mod_small.
  - replace y with ((x + 2 ^ 32 * y) / 2 ^ 32) at 2.
    + rewrite Z.div_pow2_bits by lia. f_equal. lia.
    + rewrite Z.mul_comm, Z.div_add by lia. by rewrite Z.div_small.
Qed.

Lemma testbit_high x i : w32 x -> 32 <= i -> Z.testbit x i = false.
Proof. intros Hx Hi. rewrite <- (wrap_small 32 x) by done. rewrite testbit_wrap by lia. destruct (Z.ltb_spec i 32); [lia|done]. Qed.

(** Equality of words bit by bit. *)
Ltac bitwise :=
  apply Z.bits_inj'; intros i Hi;
  repeat match goal with
    | |- context [if ?a <? ?b then _ else _] => destruct (Z.ltb_spec a b)
    | |- context [Z.testbit (wrap ?w ?x) ?j] => rewrite (testbit_wrap w x j) by lia
    | |- context [?a <? ?b] => destruct (Z.ltb_spec a b)
    | |- context [Z.testbit (Z.lor ?x ?y) ?j] => rewrite (Z.lor_spec x y j)
    | |- context [Z.testbit (Z.shiftl ?x ?n) ?j] => rewrite (Z.shiftl_spec x n j) by lia
    | |- context [Z.testbit (Z.shiftr ?x ?n) ?j] => rewrite (Z.shiftr_spec x n j) by lia
    | |- context [Z.testbit (?x + 2 ^ 32 * ?y) ?j] => rewrite (testbit_words x y j) by (done || apply wrap_w32)
    | |- context [Z.testbit ?x ?j] => first [rewrite (Z.testbit_neg_r x j) by lia | rewrite (testbit_high x j) by (done || lia)]
    end; cbn [andb orb]; rewrite ?orb_false_r, ?Z.testbit_0_l; try (lia || done); try (f_equal; lia).

Lemma shl_words a0 a1 n : w32 a0 -> w32 a1 -> 0 <= n < 32 ->
  wrap 32 (Z.shiftl a0 n) + 2 ^ 32 * wrap 32 (Z.lor (Z.shiftl a1 n) (Z.shiftr a0 (32 - n))) = wrap 64 (Z.shiftl (a0 + 2 ^ 32 * a1) n).
Proof. intros H0 H1 Hn. bitwise. Qed.

Lemma shl_high a0 a1 n : w32 a0 -> w32 a1 -> 32 <= n < 64 ->
  0 + 2 ^ 32 * wrap 32 (Z.shiftl a0 (n - 32)) = wrap 64 (Z.shiftl (a0 + 2 ^ 32 * a1) n).
Proof. intros H0 H1 Hn. bitwise. Qed.

(** [s] is the high word, or its value as a signed number. *)
Lemma shr_words a0 s n : w32 a0 -> 0 <= n < 32 ->
  wrap 32 (Z.lor (Z.shiftr a0 n) (Z.shiftl s (32 - n))) + 2 ^ 32 * wrap 32 (Z.shiftr s n) = wrap 64 (Z.shiftr (a0 + 2 ^ 32 * s) n).
Proof. intros H0 Hn. bitwise. Qed.

Lemma count_cl m n : get m ECX = n -> 0 <= n < 32 -> count m (R ECX) = n.
Proof. intros E Hn. unfold count. cbn [val]. rewrite E. change 31 with (Z.ones 5). rewrite Z.land_ones by lia. apply Z.mod_small. lia. Qed.

(** A shift by [cl], whose value is [n]; [Hn] decides [n =? 0]. *)
Ltac shift_by n Hn :=
  match goal with
  | |- context [@mbind (st machine) st_bind _ _ ?k ?i ?m] =>
      erewrite (bind_run i k m) by (unfold shl, shr, sar, shld, shrd; rewrite (count_cl m n) by (reflexivity || lia); rewrite Hn; cbn; reflexivity); cbv beta
  end.

Lemma dword_range a0 a1 : w32 a0 -> w32 a1 -> 0 <= a0 + 2 ^ 32 * a1 < 2 ^ 64.
Proof. unfold w32. lia. Qed.

Lemma shiftr_range w x n : 0 <= x < 2 ^ w -> 0 <= n -> 0 <= Z.shiftr x n < 2 ^ w.
Proof.
  intros Hx Hn. rewrite Z.shiftr_div_pow2 by lia. pose proof (Z.pow_pos_nonneg 2 n ltac:(lia) Hn). split; [apply Z.div_pos; lia|].
  eapply Z.le_lt_trans; [|apply Hx]. apply Z.div_le_upper_bound; [lia|]. nia.
Qed.

Lemma shiftr_w32 x n : w32 x -> 0 <= n -> w32 (Z.shiftr x n).
Proof. apply shiftr_range. Qed.

Lemma ashldi3_run m : called 64 m -> computes __ashldi3 m (wrap 64 (Z.shiftl (dword m 4) (word m 12))).
Proof.
  intros Hm. open_call __ashldi3 m Hm sp h. assert (forall k, 0 <= k -> w32 (h (sp + k))) as Hk by (intros; apply Hw).
  pose proof (Hk 4 ltac:(lia)) as H4. pose proof (Hk 8 ltac:(lia)) as H8. pose proof (Hk 12 ltac:(lia)) as H12.
  do 5 step. branch. repeat stack_step sp h. change (wrap 32 64) with 64. set (n := h (sp + 12)) in *.
  assert (0 <= n) by apply H12. destruct (Z.ltb_spec n 64); cbn [negb].
  - step. branch. change (wrap 32 32) with 32. destruct (Z.ltb_spec n 32); cbn [negb].
    + destruct (n =? 0) eqn:Hn; do 2 shift_by n Hn; repeat step; came_back sp h; (split; [done|]).

      * apply Z.eqb_eq in Hn. rewrite Hn, Z.shiftl_0_r, wrap_small by (by apply dword_range). done.
      * split; [|split; apply wrap_w32]. apply shl_words; (done || (unfold w32 in *; lia)).
    + do 3 step. change (wrap 32 32) with 32. rewrite (wrap_small 32 (n - 32)) by (unfold w32 in *; lia). rewrite Z.lxor_nilpotent.
      destruct (n - 32 =? 0) eqn:Hn; shift_by (n - 32) Hn; repeat step; came_back sp h; (split; [done|]).
      * apply Z.eqb_eq in Hn. split; [|done]. rewrite <- (shl_high (h (sp + 4)) (h (sp + 8))) by (done || lia).
        replace (n - 32) with 0. rewrite Z.shiftl_0_r, wrap_small by done. done.
      * split; [|split; [done|apply wrap_w32]]. apply shl_high; (done || lia).
  - unfold shift_zero. repeat step. came_back sp h. rewrite !Z.lxor_nilpotent. split; [done|]. split; [|done].
    symmetry. apply Z.mod_divide; [lia|]. rewrite Z.shiftl_mul_pow2 by lia. exists ((h (sp + 4) + 2 ^ 32 * h (sp + 8)) * 2 ^ (n - 64)).
    rewrite <- Z.mul_assoc, <- Z.pow_add_r by lia. do 2 f_equal. lia.
Qed.

Lemma lshrdi3_run m : called 64 m -> computes __lshrdi3 m (Z.shiftr (dword m 4) (word m 12)).
Proof.
  intros Hm. open_call __lshrdi3 m Hm sp h. assert (forall k, 0 <= k -> w32 (h (sp + k))) as Hk by (intros; apply Hw).
  pose proof (Hk 4 ltac:(lia)) as H4. pose proof (Hk 8 ltac:(lia)) as H8. pose proof (Hk 12 ltac:(lia)) as H12.
  do 5 step. branch. repeat stack_step sp h. change (wrap 32 64) with 64. set (n := h (sp + 12)) in *.
  assert (0 <= n) by apply H12. destruct (Z.ltb_spec n 64); cbn [negb].
  - step. branch. change (wrap 32 32) with 32. destruct (Z.ltb_spec n 32); cbn [negb].
    + destruct (n =? 0) eqn:Hn; do 2 shift_by n Hn; repeat step; came_back sp h; (split; [done|]).
      * apply Z.eqb_eq in Hn. by rewrite Hn, Z.shiftr_0_r.
      * assert (w32 (Z.shiftr (h (sp + 8)) n)) as Hs8 by (apply shiftr_w32; (done || lia)). split; [|split; [apply wrap_w32|done]].
        pose proof (shr_words (h (sp + 4)) (h (sp + 8)) n H4 ltac:(lia)) as E. rewrite (wrap_small 32 (Z.shiftr _ _)) in E by done.
        rewrite E. apply wrap_small, shiftr_range; [by apply dword_range|lia].
    + do 3 step. change (wrap 32 32) with 32. rewrite (wrap_small 32 (n - 32)) by (unfold w32 in *; lia). rewrite Z.lxor_nilpotent.
      assert (Z.shiftr (h (sp + 8)) (n - 32) = Z.shiftr (h (sp + 4) + 2 ^ 32 * h (sp + 8)) n) as E.
      { rewrite !Z.shiftr_div_pow2 by lia. replace n with (32 + (n - 32)) at 2 by lia. rewrite Z.pow_add_r, <- Z.div_div by lia.
        rewrite (Z.mul_comm (2 ^ 32)), Z.div_add, (Z.div_small (h (sp + 4))) by (done || lia). done. }
      destruct (n - 32 =? 0) eqn:Hn; shift_by (n - 32) Hn; repeat step; came_back sp h; (split; [done|]).
      * apply Z.eqb_eq in Hn. rewrite <- E. replace (n - 32) with 0. rewrite Z.shiftr_0_r. split; [lia|done].
      * rewrite E, Z.mul_0_r, Z.add_0_r. rewrite <- E. split; [done|]. split; [|done]. apply shiftr_w32; (done || lia).
  - unfold shift_zero. repeat step. came_back sp h. rewrite !Z.lxor_nilpotent. split; [done|]. split; [|done].
    symmetry. apply Z.shiftr_eq_0; [pose proof (dword_range _ _ H4 H8); lia|]. destruct (Z.eq_dec (h (sp + 4) + 2 ^ 32 * h (sp + 8)) 0) as [->|]; [cbn; lia|].
    pose proof (dword_range _ _ H4 H8). assert (Z.log2 (h (sp + 4) + 2 ^ 32 * h (sp + 8)) < 64) by (apply Z.log2_lt_pow2; lia). lia.
Qed.

Lemma wrap_sign a : wrap 32 (sign_of 32 a) = wrap 32 a.
Proof. unfold sign_of. change (32 - 1) with 31. destruct (Z.ltb_spec (wrap 32 a) (2 ^ 31)); word_arith. Qed.

Lemma testbit_sign a j : j < 32 -> Z.testbit (sign_of 32 a) j = Z.testbit a j.
Proof.
  intros Hj. destruct (Z.lt_ge_cases j 0); [by rewrite !Z.testbit_neg_r by lia|].
  pose proof (testbit_wrap 32 (sign_of 32 a) j ltac:(lia) ltac:(lia)) as H1. pose proof (testbit_wrap 32 a j ltac:(lia) ltac:(lia)) as H2.
  rewrite wrap_sign, H2 in H1. by destruct (Z.ltb_spec j 32); [|lia].
Qed.

Lemma shld_sign x a k : 0 <= k -> wrap 32 (Z.lor x (Z.shiftl (sign_of 32 a) k)) = wrap 32 (Z.lor x (Z.shiftl a k)).
Proof.
  intros Hk. apply Z.bits_inj'. intros i Hi. rewrite !testbit_wrap by lia. destruct (Z.ltb_spec i 32); [|done]. cbn [andb].
  rewrite !Z.lor_spec, !Z.shiftl_spec by lia. by rewrite testbit_sign by lia.
Qed.

(** The sign of a word in all its bits. *)
Lemma sign_fill s : - 2 ^ 31 <= s < 2 ^ 31 -> Z.shiftr s 31 = if s <? 0 then -1 else 0.
Proof. intros Hs. rewrite Z.shiftr_div_pow2 by lia. destruct (Z.ltb_spec s 0); word_arith. Qed.

Lemma sar_high s t : - 2 ^ 31 <= s < 2 ^ 31 -> - 2 ^ 31 <= t < 2 ^ 31 -> (t < 0 <-> s < 0) -> wrap 32 t + 2 ^ 32 * wrap 32 (Z.shiftr s 31) = wrap 64 t.
Proof. intros Hs Ht Hi. rewrite sign_fill by done. destruct (Z.ltb_spec s 0); word_arith. Qed.

Lemma shiftr_signed s n : - 2 ^ 31 <= s < 2 ^ 31 -> 0 <= n -> - 2 ^ 31 <= Z.shiftr s n < 2 ^ 31 /\ (Z.shiftr s n < 0 <-> s < 0).
Proof.
  intros Hs Hn. split; [|apply Z.shiftr_neg]. destruct (Z.lt_ge_cases s 0) as [Hlt|Hge].
  - pose proof (proj2 (Z.shiftr_neg s n) Hlt). split; [|lia]. rewrite Z.shiftr_div_pow2 in * by lia.
    pose proof (Z.pow_pos_nonneg 2 n ltac:(lia) Hn). apply Z.div_le_lower_bound; [lia|]. nia.
  - pose proof (shiftr_range 31 s n ltac:(lia) Hn). lia.
Qed.

(** A shift by a constant. *)
Ltac shift_const c :=
  match goal with
  | |- context [@mbind (st machine) st_bind _ _ ?k ?i ?m] =>
      erewrite (bind_run i k m) by (unfold shl, shr, sar, shld, shrd; change (count m (I c)) with c; cbn; reflexivity); cbv beta
  end.

Lemma ashrdi3_run m : called 64 m -> word m 12 < 64 -> computes __ashrdi3 m (wrap 64 (Z.shiftr (sign_of 64 (dword m 4)) (word m 12))).
Proof.
  intros Hm H64. open_call __ashrdi3 m Hm sp h. unfold word in H64. cbn [esp mem] in H64.
  assert (forall k, 0 <= k -> w32 (h (sp + k))) as Hk by (intros; apply Hw).
  pose proof (Hk 4 ltac:(lia)) as H4. pose proof (Hk 8 ltac:(lia)) as H8. pose proof (Hk 12 ltac:(lia)) as H12.
  rewrite sign_words by done. pose proof (proj1 (signed_word _ H8)) as Hsg.
  do 5 step. branch. repeat stack_step sp h. change (wrap 32 64) with 64. set (n := h (sp + 12)) in *.
  assert (0 <= n) by apply H12. destruct (Z.ltb_spec n 64); [cbn [negb]|lia].
  step. branch. change (wrap 32 32) with 32. destruct (Z.ltb_spec n 32); cbn [negb].
  - destruct (n =? 0) eqn:Hn; do 2 shift_by n Hn; repeat step; came_back sp h; (split; [done|]).
    + apply Z.eqb_eq in Hn. rewrite Hn, Z.shiftr_0_r. split; [|done]. revert Hsg. pose proof (signed_word _ H8) as [_ E]. revert E.
      generalize (sign_of 32 (h (sp + 8))). intros. word_arith.
    + split; [|split; apply wrap_w32]. rewrite <- (shld_sign _ (h (sp + 8))) by lia. apply shr_words; (done || lia).
  - do 2 step. change (wrap 32 32) with 32. rewrite (wrap_small 32 (n - 32)) by (unfold w32 in *; lia).
    assert (Z.shiftr (h (sp + 4) + 2 ^ 32 * sign_of 32 (h (sp + 8))) n = Z.shiftr (sign_of 32 (h (sp + 8))) (n - 32)) as E.
    { rewrite !Z.shiftr_div_pow2 by lia. replace n with (32 + (n - 32)) at 1 by lia. rewrite Z.pow_add_r, <- Z.div_div by lia.
      rewrite (Z.mul_comm (2 ^ 32)), Z.div_add, (Z.div_small (h (sp + 4))) by (done || lia). done. }
    destruct (shiftr_signed (sign_of 32 (h (sp + 8))) (n - 32) Hsg ltac:(lia)) as [Ht Hi]. rewrite E.
    destruct (n - 32 =? 0) eqn:Hn; shift_by (n - 32) Hn; shift_const 31; repeat step; came_back sp h; (split; [done|]).
    + apply Z.eqb_eq in Hn. split; [|split; [done|apply wrap_w32]]. rewrite Hn, Z.shiftr_0_r in *. rewrite <- (sar_high (sign_of 32 (h (sp + 8)))) by done.
      rewrite wrap_sign, (wrap_small 32 (h (sp + 8))) by done. done.
    + split; [|split; apply wrap_w32]. by apply sar_high.
Qed.

(** ** Division by one word *)

Lemma div_run m s d : val m s = d -> 0 < d -> 0 <= edx m < d -> w32 (eax m) ->
  div s m = Some (set (set m EAX ((edx m * 2 ^ 32 + eax m) / d)) EDX ((edx m * 2 ^ 32 + eax m) mod d), tt).
Proof.
  intros Hv Hd Hx Ha. unfold div. rewrite Hv. destruct (Z.eqb_spec d 0); [lia|].
  assert ((edx m * 2 ^ 32 + eax m) / d < 2 ^ 32) by (apply Z.div_lt_upper_bound; [lia|unfold w32 in *; nia]).
  by destruct (Z.leb_spec (2 ^ 32) ((edx m * 2 ^ 32 + eax m) / d)); [lia|].
Qed.

Ltac div_step d :=
  match goal with
  | |- context [@mbind (st machine) st_bind _ _ ?k ?i ?m] =>
      erewrite (bind_run i k m) by (rewrite (div_run m _ d) by (done || (match goal with H : forall a, w32 _ |- w32 _ => apply H end) || (cbn; unfold w32 in *; lia)); cbn; reflexivity); cbv beta
  end.

(** Schoolbook division: high word first. *)
Lemma two_steps n0 n1 d : 0 < d -> 0 <= n0 -> 0 <= n1 -> ((n1 mod d) * 2 ^ 32 + n0) mod d = (n0 + 2 ^ 32 * n1) mod d.
Proof.
  intros Hd H0 H1. replace (n0 + 2 ^ 32 * n1) with ((n1 mod d) * 2 ^ 32 + n0 + (n1 / d * 2 ^ 32) * d).
  - by rewrite Z.mod_add by lia.
  - pose proof (Z.div_mod n1 d ltac:(lia)). lia.
Qed.

Lemma umoddi3_run m : called 64 m -> word m 16 = 0 -> word m 12 <> 0 -> computes __umoddi3 m (dword m 4 mod word m 12).
Proof.
  intros Hm Hdh Hd. open_call __umoddi3 m Hm sp h. unfold word in *. cbn [esp mem] in *.
  pose proof (Hw (sp + 4)) as H4. pose proof (Hw (sp + 8)) as H8. pose proof (Hw (sp + 12)) as H12. unfold w32 in H4, H8, H12.
  do 2 step. branch. repeat stack_step sp h. rewrite Hdh. change (negb (Z.land 0 0 =? 0)) with false. cbv iota. do 2 step. branch. repeat stack_step sp h.
  rewrite !Z.land_diag. destruct (Z.eqb_spec (h (sp + 12)) 0); [done|]. do 3 step. branch. repeat stack_step sp h.
  set (d := h (sp + 12)) in *. destruct (Z.ltb_spec (h (sp + 8)) d).
  - div_step d. repeat step. came_back sp h. rewrite Z.lxor_nilpotent. split; [done|].
    assert (w32 ((h (sp + 8) * 2 ^ 32 + h (sp + 4)) mod d)) by (pose proof (Z.mod_pos_bound (h (sp + 8) * 2 ^ 32 + h (sp + 4)) d ltac:(lia)); unfold w32; lia).
    split; [|done]. rewrite Z.mul_0_r, Z.add_0_r. f_equal. lia.
  - do 4 step. rewrite Z.lxor_nilpotent. repeat stack_step sp h. div_step d. step. repeat stack_step sp h.
    rewrite Z.mul_0_l, Z.add_0_l. pose proof (Z.mod_pos_bound (h (sp + 8)) d ltac:(lia)). div_step d. repeat step. came_back sp h. rewrite Z.lxor_nilpotent.
    replace (sp - 4 + (4 + 4)) with (sp + 4) by lia. rewrite two_steps by lia.
    assert (w32 ((h (sp + 4) + 2 ^ 32 * h (sp + 8)) mod d)) by (pose proof (Z.mod_pos_bound (h (sp + 4) + 2 ^ 32 * h (sp + 8)) d ltac:(lia)); unfold w32; lia).
    split; [done|]. split; [lia|done].
Qed.

Lemma udivdi3_run m : called 64 m -> word m 16 = 0 -> word m 8 < word m 12 -> computes __udivdi3 m (dword m 4 / word m 12).
Proof.
  intros Hm Hdh Hd. open_call __udivdi3 m Hm sp h. unfold word in *. cbn [esp mem] in *.
  pose proof (Hw (sp + 4)) as H4. pose proof (Hw (sp + 8)) as H8. pose proof (Hw (sp + 12)) as H12. unfold w32 in H4, H8, H12.
  do 2 step. branch. repeat stack_step sp h. rewrite Hdh. change (negb (Z.land 0 0 =? 0)) with false. cbv iota. do 2 step. branch. repeat stack_step sp h.
  rewrite !Z.land_diag. destruct (Z.eqb_spec (h (sp + 12)) 0); [lia|]. do 3 step. branch. repeat stack_step sp h.
  set (d := h (sp + 12)) in *. destruct (Z.ltb_spec (h (sp + 8)) d); [|lia]. div_step d. repeat step. came_back sp h. rewrite Z.lxor_nilpotent.
  assert (w32 ((h (sp + 8) * 2 ^ 32 + h (sp + 4)) / d)) as Hq by (split; [apply Z.div_pos; lia|apply Z.div_lt_upper_bound; nia]).
  split; [done|]. split; [|done]. rewrite Z.mul_0_r, Z.add_0_r. f_equal. lia.
Qed.

(** ** Signed division *)

Lemma bind_assoc {S X Y Z : Type} (i : st S X) (k : X -> st S Y) (k' : Y -> st S Z) m : ((i ≫= k) ≫= k') m = (i ≫= fun x => k x ≫= k') m.
Proof. unfold mbind, st_bind. by destruct (i m) as [[]|]. Qed.

Lemma ret_bind {X : Type} (k : unit -> st machine X) m : (mret tt ≫= k) m = k tt m.
Proof. done. Qed.

Lemma jump_bind (c : machine -> bool) a b (k : unit -> asm) m : (jump c a b ≫= k) m = if c m then (a ≫= k) m else (b ≫= k) m.
Proof. unfold mbind, st_bind, jump. by destruct (c m). Qed.

(** The magnitude of a signed number in two words. *)
Lemma abs_words lo hi : w32 lo -> w32 hi ->
  let n := sign_of 64 (lo + 2 ^ 32 * hi) in
  (if negb (2 ^ 31 <=? hi) then lo + 2 ^ 32 * hi
   else wrap 32 (- lo) + 2 ^ 32 * wrap 32 (- (hi +[32] (wrap 32 0 + Z.b2z (negb (lo =? 0)))))) = Z.abs n /\ (2 ^ 31 <= hi <-> n < 0).
Proof.
  intros H0 H1. cbv zeta. rewrite neg_words, sign_words by done. unfold sign_of. rewrite (wrap_small 32 hi) by done. change (32 - 1) with 31.
  destruct (Z.leb_spec (2 ^ 31) hi), (Z.ltb_spec hi (2 ^ 31)); try lia; cbn [negb]; unfold w32 in *; (split; [|lia]).
  - rewrite Z.abs_neq by lia. replace (- (lo + 2 ^ 32 * hi)) with (- (lo + 2 ^ 32 * (hi - 2 ^ 32)) + (-1) * 2 ^ 64) by lia.
    unfold wrap. rewrite Z.mod_add, Z.mod_small by lia. done.
  - rewrite Z.abs_eq by lia. done.
Qed.

Section Absolute.
Context (a nlo c e dlo nhi dhi sp ip : Z) (f1 f2 f3 f4 : bool) (h : Z -> Z) (k : asm).

(** The two tests of the operands' signs. *)
Lemma abs_n_run : w32 nlo -> w32 nhi -> exists lo hi g1 g2 g3 g4,
  (test (R EDI) (R EDI);; jns (mret tt) (neg64 EDI EBX);; k) (mkMachine a nlo c e dlo nhi dhi sp ip f1 f2 f3 f4 h) =
    k (mkMachine a lo c e dlo hi dhi sp ip g1 g2 g3 g4 h) /\ w32 lo /\ w32 hi /\ lo + 2 ^ 32 * hi = Z.abs (sign_of 64 (nlo + 2 ^ 32 * nhi)).
Proof.
  intros H0 H1. destruct (abs_words nlo nhi H0 H1) as [E _]. step. unfold jns. rewrite jump_bind. cbn [sf]. rewrite Z.land_diag.
  destruct (2 ^ 31 <=? nhi); cbn [negb] in *.
  - unfold neg64. rewrite bind_assoc. step. rewrite bind_assoc. do 2 step. eexists _, _, _, _, _, _. split; [reflexivity|]. split_and!; [apply wrap_w32..|done].
  - rewrite ret_bind. eexists _, _, _, _, _, _. split; [reflexivity|]. done.
Qed.

Lemma abs_d_run : w32 dlo -> w32 dhi -> exists lo hi g1 g2 g3 g4,
  (test (R EBP) (R EBP);; jns (mret tt) (neg64 EBP ESI);; k) (mkMachine a nlo c e dlo nhi dhi sp ip f1 f2 f3 f4 h) =
    k (mkMachine a nlo c e lo nhi hi sp ip g1 g2 g3 g4 h) /\ w32 lo /\ w32 hi /\ lo + 2 ^ 32 * hi = Z.abs (sign_of 64 (dlo + 2 ^ 32 * dhi)).
Proof.
  intros H0 H1. destruct (abs_words dlo dhi H0 H1) as [E _]. step. unfold jns. rewrite jump_bind. cbn [sf]. rewrite Z.land_diag.
  destruct (2 ^ 31 <=? dhi); cbn [negb] in *.
  - unfold neg64. rewrite bind_assoc. step. rewrite bind_assoc. do 2 step. eexists _, _, _, _, _, _. split; [reflexivity|]. split_and!; [apply wrap_w32..|done].
  - rewrite ret_bind. eexists _, _, _, _, _, _. split; [reflexivity|]. done.
Qed.

(** The sign of the result: [c] is the word saved before. *)
Lemma sign_run : w32 a -> w32 e -> exists lo hi g1 g2 g3 g4,
  (test (R ECX) (R ECX);; jz (mret tt) (neg64 EDX EAX);; k) (mkMachine a nlo c e dlo nhi dhi sp ip f1 f2 f3 f4 h) =
    k (mkMachine lo nlo c hi dlo nhi dhi sp ip g1 g2 g3 g4 h) /\ w32 lo /\ w32 hi /\
    lo + 2 ^ 32 * hi = if c =? 0 then a + 2 ^ 32 * e else wrap 64 (- (a + 2 ^ 32 * e)).
Proof.
  intros H0 H1. step. unfold jz. rewrite jump_bind. cbn [zf]. rewrite Z.land_diag. destruct (c =? 0).
  - rewrite ret_bind. eexists _, _, _, _, _, _. split; [reflexivity|]. done.
  - unfold neg64. rewrite bind_assoc. step. rewrite bind_assoc. do 2 step. eexists _, _, _, _, _, _. split; [reflexivity|].
    split_and!; [apply wrap_w32..|]. by apply neg_words.
Qed.
End Absolute.

Lemma upd_w32 h a v : (forall x, w32 (h x)) -> w32 v -> forall x, w32 (upd h a v x).
Proof. intros Hh Hv x. unfold upd. by destruct (x =? a). Qed.

(** A call with the magnitudes [n] and [d], the sign of the result in the word
    at [sp], and the registers saved above it. *)
Lemma on_absolute_run f ra (V a nlo c e dlo nhi dhi sp ip : Z) f1 f2 f3 f4 h :
  (forall x, w32 (h x)) -> w32 nlo -> w32 nhi -> w32 dlo -> w32 dhi -> w32 a -> w32 c -> w32 e -> 84 <= sp -> sp + 64 < 2 ^ 32 ->
  (forall m, called 64 m -> dword m 4 = Z.abs (sign_of 64 (nlo + 2 ^ 32 * nhi)) -> dword m 12 = Z.abs (sign_of 64 (dlo + 2 ^ 32 * dhi)) -> computes f m V) ->
  exists m', on_absolute f ra (mkMachine a nlo c e dlo nhi dhi sp ip f1 f2 f3 f4 h) = Some (m', tt) /\
    eip m' = h (sp + 20) /\ esp m' = sp + 24 /\ (forall x, sp <= x -> mem m' x = h x) /\
    ebx m' = h (sp + 16) /\ esi m' = h (sp + 12) /\ edi m' = h (sp + 8) /\ ebp m' = h (sp + 4) /\
    result m' = (if h sp =? 0 then V else wrap 64 (- V)) /\ w32 (eax m') /\ w32 (edx m').
Proof.
  intros Hw Hn0 Hn1 Hd0 Hd1 Ha Hc He Hs1 Hs2 Hf. unfold on_absolute.
  edestruct abs_n_run as (n0 & n1 & g1 & g2 & g3 & g4 & E & N0 & N1 & N); [exact Hn0|exact Hn1|]. rewrite E. clear E.
  edestruct abs_d_run as (d0 & d1 & i1 & i2 & i3 & i4 & E & D0 & D1 & D); [exact Hd0|exact Hd1|]. rewrite E. clear E.
  do 4 step. repeat stack_step sp h. unfold call. rewrite bind_assoc. step. repeat stack_step sp h. rewrite bind_assoc.
  match goal with |- context [@mbind (st machine) st_bind _ _ ?k f ?m] => set (mi := m) end.
  assert (called 64 mi) as Hmi.
  { constructor; [cbn; repeat apply upd_w32; (done || apply wrap_w32)|intros []; (done || (unfold mi, w32; cbn; lia))|cbn; lia]. }
  destruct (Hf mi Hmi) as (m1 & Hrun & [B1 B2 B3] & (S1 & S2 & S3 & S4) & R & W1 & W2).
  { rewrite <- N. unfold dword, word. cbn. by repeat stack_step sp h. }
  { rewrite <- D. unfold dword, word. cbn. by repeat stack_step sp h. }
  rewrite (bind_run _ _ _ _ _ Hrun). destruct m1 as [a1 b1 c1 e1 si1 di1 bp1 sp1 ip1 j1 j2 j3 j4 h1]. cbn in B1, B2, B3, S1, S2, S3, S4, W1, W2.
  assert (forall x, sp <= x -> h1 x = h x) as Hh by (intros x Hx; rewrite B3 by lia; by repeat stack_step sp h).
  rewrite (bind_run (returned ra) _ _ (mkMachine a1 b1 c1 e1 si1 di1 bp1 sp1 ip1 j1 j2 j3 j4 h1) tt).
  2: { unfold returned. cbn. rewrite B1, upd_eq, Z.eqb_refl. done. }
  rewrite B2. do 2 step. change (wrap 32 16) with 16. repeat stack_step sp h1. replace (sp - 4 - 4 - 4 - 4 - 4 + 4 + 16) with sp by lia. rewrite Hh by lia.
  edestruct sign_run as (lo & hi & l1 & l2 & l3 & l4 & E & L0 & L1 & L); [exact W1|exact W2|]. rewrite E. clear E.
  do 4 step. repeat stack_step sp h1. eexists. split; [reflexivity|]. unfold result. cbn. repeat stack_step sp h1. rewrite !Hh by lia.
  split_and!; try done; try (f_equal; lia); [lia|]. rewrite L. unfold result in R. cbn in R. by rewrite R.
Qed.

(** One word of divisor. *)
Lemma small_divisor m D : called 64 m -> dword m 12 = D -> 0 <= D < 2 ^ 32 -> word m 16 = 0 /\ word m 12 = D.
Proof.
  intros [Hw _ _] E HD. unfold dword in E. change (12 + 4) with 16 in E. pose proof (Hw (esp m + 12)). pose proof (Hw (esp m + 16)).
  unfold word, w32 in *. lia.
Qed.

(** [sar 31]: the sign in every bit. *)
Lemma sign_word a : w32 a -> wrap 32 (Z.shiftr (sign_of 32 a) 31) = if 2 ^ 31 <=? a then 2 ^ 32 - 1 else 0.
Proof.
  intros Ha. rewrite sign_fill by (by apply signed_word). unfold sign_of. rewrite (wrap_small 32 a) by done. change (32 - 1) with 31. unfold w32 in *.
  destruct (Z.ltb_spec a (2 ^ 31)), (Z.leb_spec (2 ^ 31) a); try lia; match goal with |- context [?y <? 0] => destruct (Z.ltb_spec y 0) end; (done || lia).
Qed.

Lemma rem_abs n d : d <> 0 -> Z.rem n d = if n <? 0 then - (Z.abs n mod Z.abs d) else Z.abs n mod Z.abs d.
Proof.
  intros Hd. destruct (Z.ltb_spec n 0).
  - rewrite <- (Z.rem_mod_nonneg (Z.abs n)), Z.rem_abs_r by lia. rewrite Z.abs_neq, Z.rem_opp_l by lia. lia.
  - rewrite <- (Z.rem_mod_nonneg (Z.abs n)), Z.rem_abs_r by lia. by rewrite Z.abs_eq by lia.
Qed.

(** The operands in the registers, after the four pushes. *)
Ltac load_args sp h :=
  unfold load_operands; repeat (rewrite bind_assoc; step); step; repeat stack_step sp h;
  replace (sp - 4 - 4 - 4 - 4 + (4 + 16)) with (sp + 4) by lia; replace (sp - 4 - 4 - 4 - 4 + (8 + 16)) with (sp + 8) by lia;
  replace (sp - 4 - 4 - 4 - 4 + (12 + 16)) with (sp + 12) by lia; replace (sp - 4 - 4 - 4 - 4 + (16 + 16)) with (sp + 16) by lia.

(** Back from [on_absolute]: the frame is gone. *)
Ltac leave_absolute m' sp h E B1 B2 B3 S1 S2 S3 S4 R :=
  rewrite E; exists m'; split; [reflexivity|];
  revert B1 B2 B3 S1 S2 S3 S4 R; repeat stack_step sp h; intros B1 B2 B3 S1 S2 S3 S4 R;
  split; [constructor; cbn; [rewrite B1; f_equal; lia|lia|intros x Hx; rewrite B3 by lia; by repeat stack_step sp h]|];
  split; [done|]; split; [rewrite R|done].

Lemma moddi3_run ra m : called 128 m -> let n := sign_of 64 (dword m 4) in let d := sign_of 64 (dword m 12) in
  0 < Z.abs d < 2 ^ 32 -> computes (__moddi3 ra) m (wrap 64 (Z.rem n d)).
Proof.
  intros Hm n d Hd. subst n d. open_call __moddi3 m Hm sp h. revert Hd. unfold dword, word. change (4 + 4) with 8. change (12 + 4) with 16. cbn [esp mem]. intros Hd.
  pose proof (Hr EBX) as G2. pose proof (Hr ECX) as G3. pose proof (Hr EDX) as G4. pose proof (Hr ESI) as G5. pose proof (Hr EDI) as G6. pose proof (Hr EBP) as G7. cbn in G2, G3, G4, G5, G6, G7.
  load_args sp h. step. shift_const 31. step. repeat stack_step sp h.
  pose proof (abs_words _ _ (Hw (sp + 4)) (Hw (sp + 8))) as [_ Hneg]. set (N := sign_of 64 (h (sp + 4) + 2 ^ 32 * h (sp + 8))) in *.
  set (D := sign_of 64 (h (sp + 12) + 2 ^ 32 * h (sp + 16))) in *.
  edestruct (on_absolute_run __umoddi3 ra (Z.abs N mod Z.abs D)) as (m' & E & B1 & B2 & B3 & S1 & S2 & S3 & S4 & R & W1 & W2);
    [..|leave_absolute m' sp h E B1 B2 B3 S1 S2 S3 S4 R]; try (done || lia || apply Hw || apply wrap_w32 || (repeat apply upd_w32; done || apply wrap_w32)).
  - intros mi Hmi En Ed. fold N in En. fold D in Ed. destruct (small_divisor mi _ Hmi Ed) as [Z0 Z1]; [lia|]. rewrite <- En, <- Z1. apply umoddi3_run; (done || lia).
  - pose proof (Z.mod_pos_bound (Z.abs N) (Z.abs D) ltac:(lia)) as Hb. rewrite sign_word, rem_abs by (apply Hw || lia).
    destruct (Z.leb_spec (2 ^ 31) (h (sp + 8))), (Z.ltb_spec N 0); try lia; cbn [Z.eqb]; [done|]. rewrite wrap_small by lia. done.
Qed.

Lemma quot_abs n d : d <> 0 -> Z.quot n d = if xorb (n <? 0) (d <? 0) then - (Z.abs n / Z.abs d) else Z.abs n / Z.abs d.
Proof.
  intros Hd. rewrite <- (Z.quot_div_nonneg (Z.abs n)) by lia.
  destruct (Z.ltb_spec n 0), (Z.ltb_spec d 0); cbn [xorb];
    rewrite ?(Z.abs_neq n), ?(Z.abs_neq d), ?(Z.abs_eq n), ?(Z.abs_eq d) by lia; rewrite ?Z.quot_opp_l, ?Z.quot_opp_r by lia; lia.
Qed.

Lemma divdi3_run ra m : called 128 m -> let n := sign_of 64 (dword m 4) in let d := sign_of 64 (dword m 12) in
  Z.abs n / 2 ^ 32 < Z.abs d < 2 ^ 32 -> computes (__divdi3 ra) m (wrap 64 (Z.quot n d)).
Proof.
  intros Hm n d Hd. subst n d. open_call __divdi3 m Hm sp h. revert Hd. unfold dword, word. change (4 + 4) with 8. change (12 + 4) with 16. cbn [esp mem]. intros Hd.
  pose proof (Hr EBX) as G2. pose proof (Hr ESI) as G5. pose proof (Hr EDI) as G6. pose proof (Hr EBP) as G7. cbn in G2, G5, G6, G7.
  load_args sp h. step. shift_const 31. step. shift_const 31. do 4 step. repeat stack_step sp h.
  pose proof (abs_words _ _ (Hw (sp + 4)) (Hw (sp + 8))) as [_ Hneg]. pose proof (abs_words _ _ (Hw (sp + 12)) (Hw (sp + 16))) as [_ Hdeg].
  set (N := sign_of 64 (h (sp + 4) + 2 ^ 32 * h (sp + 8))) in *. set (D := sign_of 64 (h (sp + 12) + 2 ^ 32 * h (sp + 16))) in *.
  assert (0 <= Z.abs N / 2 ^ 32) by (apply Z.div_pos; lia). assert (Z.abs N < 2 ^ 64) as HN.
  { subst N. rewrite sign_words by apply Hw. pose proof (signed_word _ (Hw (sp + 8))) as [Hs8 _]. pose proof (Hw (sp + 4)). unfold w32 in *. lia. }
  rewrite !sign_word by apply Hw. set (sg := Z.lxor _ _).
  assert (sg = if xorb (N <? 0) (D <? 0) then 2 ^ 32 - 1 else 0) as Hsg.
  { subst sg. destruct (Z.leb_spec (2 ^ 31) (h (sp + 8))), (Z.leb_spec (2 ^ 31) (h (sp + 16))), (Z.ltb_spec N 0), (Z.ltb_spec D 0); (done || lia). }
  assert (w32 sg) as Hw32 by (rewrite Hsg; by destruct (xorb _ _)). clearbody sg.
  edestruct (on_absolute_run __udivdi3 ra (Z.abs N / Z.abs D)) as (m' & E & B1 & B2 & B3 & S1 & S2 & S3 & S4 & R & W1 & W2);
    [..|leave_absolute m' sp h E B1 B2 B3 S1 S2 S3 S4 R];
    try (done || lia || apply Hw || apply wrap_w32 || (repeat apply upd_w32; done || apply wrap_w32) || (by destruct (2 ^ 31 <=? _))).
  - intros mi Hmi En Ed. fold N in En. fold D in Ed. destruct (small_divisor mi _ Hmi Ed) as [Z0 Z1]; [lia|]. rewrite <- En, <- Z1. apply udivdi3_run; [done..|].
    rewrite Z1. assert (word mi 8 = Z.abs N / 2 ^ 32); [|lia]. rewrite <- En. unfold dword. change (4 + 4) with 8.
    pose proof (c_words _ _ Hmi (esp mi + 4)) as H4. rewrite Z.mul_comm, Z.div_add, Z.div_small by (done || lia). done.
  - assert (0 <= Z.abs N / Z.abs D < 2 ^ 64) by (split; [apply Z.div_pos; lia|apply Z.div_lt_upper_bound; nia]). rewrite quot_abs, Hsg by lia.
    destruct (xorb _ _); cbn [Z.eqb]; [done|]. rewrite wrap_small by lia. done.
Qed.

Lemma called_less r r' m : r <= r' -> called r' m -> called r m.
Proof. intros Hr [H1 H2 H3]. constructor; [done..|lia]. Qed.

(** A zero divisor stops the processor. *)
Lemma divide_by_zero m : called 64 m -> dword m 12 = 0 -> __udivdi3 m = None /\ __umoddi3 m = None.
Proof.
  intros Hm Hd. destruct (small_divisor m 0 Hm Hd) as [H16 H12]; [lia|]. destruct m as [r1 r2 r3 r4 r5 r6 r7 sp r8 b1 b2 b3 b4 h].
  unfold word in *. cbn [esp mem] in *. destruct Hm as [_ _ Hs]. cbn [esp] in Hs.
  split; [unfold __udivdi3|unfold __umoddi3]; do 2 step; branch; repeat stack_step sp h; rewrite H16; change (negb (Z.land 0 0 =? 0)) with false; cbv iota;
    do 2 step; branch; repeat stack_step sp h; rewrite H12; done.
Qed.

(** ** What the routines compute *)

(** C22. On i386 the compiler's calls for 64-bit addition, subtraction,
    negation and multiplication compute modulo [2 ^ 64], and those for the two
    comparisons the order of unsigned and of signed numbers; each returns to
    its caller with the stack as before, and all but the multiplication keep
    the caller's registers. *)
Theorem u64_arithmetic m : called 64 m ->
  computes __adddi3 m (dword m 4 +[64] dword m 12) /\
  computes __subdi3 m (dword m 4 -[64] dword m 12) /\
  computes __negdi2 m (wrap 64 (- dword m 4)) /\
  (exists m', __muldi3 m = Some (m', tt) /\ back m m' /\ result m' = dword m 4 *[64] dword m 12) /\
  computes_int __ucmpdi2 m (sign (dword m 4 ?= dword m 12)) /\
  computes_int __cmpdi2 m (sign (sign_of 64 (dword m 4) ?= sign_of 64 (dword m 12))).
Proof.
  intros Hm. split_and!; [by apply adddi3_run|by apply subdi3_run|by apply negdi2_run|by apply muldi3_run|by apply ucmpdi2_run|by apply cmpdi2_run].
Qed.

(** The 64-bit shifts of i386: left and logical right for every count, the
    arithmetic right shift for counts below 64. *)
Theorem u64_shifts m : called 64 m ->
  computes __ashldi3 m (wrap 64 (Z.shiftl (dword m 4) (word m 12))) /\
  computes __lshrdi3 m (Z.shiftr (dword m 4) (word m 12)) /\
  (word m 12 < 64 -> computes __ashrdi3 m (wrap 64 (Z.shiftr (sign_of 64 (dword m 4)) (word m 12)))).
Proof. intros Hm. split_and!; [by apply ashldi3_run|by apply lshrdi3_run|by apply ashrdi3_run]. Qed.

(** C23. The 64-bit divisions of i386 by a divisor of one word: unsigned and
    signed remainder for every dividend, unsigned and signed quotient when the
    high word of the dividend's magnitude is less than the divisor's magnitude;
    signed results are rounded towards zero; a zero divisor stops the
    processor. *)
Theorem u64_division ra m : called 128 m ->
  let n := sign_of 64 (dword m 4) in let d := sign_of 64 (dword m 12) in
  (0 < dword m 12 < 2 ^ 32 -> computes __umoddi3 m (dword m 4 mod dword m 12)) /\
  (word m 8 < dword m 12 < 2 ^ 32 -> computes __udivdi3 m (dword m 4 / dword m 12)) /\
  (0 < Z.abs d < 2 ^ 32 -> computes (__moddi3 ra) m (wrap 64 (Z.rem n d))) /\
  (Z.abs n / 2 ^ 32 < Z.abs d < 2 ^ 32 -> computes (__divdi3 ra) m (wrap 64 (Z.quot n d))) /\
  (dword m 12 = 0 -> __udivdi3 m = None /\ __umoddi3 m = None).
Proof.
  intros Hm n d. assert (called 64 m) as Hm' by (apply (called_less 64 128); [lia|done]). split_and!.
  - intros Hd. destruct (small_divisor m _ Hm' eq_refl) as [H1 H2]; [lia|]. rewrite <- H2. apply umoddi3_run; (done || lia).
  - intros Hd. pose proof (c_words _ _ Hm' (esp m + 8)) as H8. unfold w32 in H8. fold (word m 8) in H8.
    destruct (small_divisor m _ Hm' eq_refl) as [H1 H2]; [lia|]. rewrite <- H2. apply udivdi3_run; (done || lia).
  - by apply moddi3_run.
  - by apply divdi3_run.
  - by apply divide_by_zero.
Qed.

(** ** Examples *)

(** A call from address [ra] with the words [args], at stack address 1000. *)
Definition frame (ra : Z) (args : list Z) (regs : Z) : machine :=
  mkMachine regs regs regs regs regs regs regs 1000 0 false false false false
    (fun a => if (a - 1000) mod 4 =? 0 then nth (Z.to_nat ((a - 1000) / 4)) (ra :: args) 0 else 0).

Lemma frame_called ra args regs : w32 ra -> Forall w32 args -> w32 regs -> called 128 (frame ra args regs).
Proof.
  intros Hra Ha Hr. constructor.
  - intros a. unfold frame. cbn [mem]. destruct (_ =? 0); [|done]. assert (Forall w32 (ra :: args)) as Hl by (constructor; done).
    destruct (nth_in_or_default (Z.to_nat ((a - 1000) / 4)) (ra :: args) 0) as [Hin| ->]; [|done]. rewrite Forall_forall in Hl. apply Hl. by apply list_elem_of_In.
  - intros []; done.
  - cbn. lia.
Qed.

Lemma u64_arithmetic_witness : exists m', __muldi3 (frame 4096 [5; 1; 7; 2] 9) = Some (m', tt) /\ result m' = (5 + 2 ^ 32) * (7 + 2 ^ 32 * 2) mod 2 ^ 64.
Proof.
  destruct (u64_arithmetic (frame 4096 [5; 1; 7; 2] 9)) as (_ & _ & _ & (m' & Hr & _ & Hv) & _).
  - apply (called_less 64 128); [lia|]. apply frame_called; try done. repeat constructor; done.
  - exists m'. split; [exact Hr|]. rewrite Hv. reflexivity.
Defined.

Lemma u64_shifts_witness : computes __ashrdi3 (frame 4096 [0; 2 ^ 31; 63] 9) (2 ^ 64 - 1).
Proof.
  refine (proj2 (proj2 (u64_shifts (frame 4096 [0; 2 ^ 31; 63] 9) _)) _).
  - apply (called_less 64 128); [lia|]. apply frame_called; try done. repeat constructor; done.
  - reflexivity.
Defined.

(** [-10 % 3] and [-10 / 3]. *)
Lemma u64_division_witness :
  computes (__moddi3 0) (frame 4096 [2 ^ 32 - 10; 2 ^ 32 - 1; 3; 0] 9) (2 ^ 64 - 1) /\
  computes (__divdi3 0) (frame 4096 [2 ^ 32 - 10; 2 ^ 32 - 1; 3; 0] 9) (2 ^ 64 - 3).
Proof.
  destruct (u64_division 0 (frame 4096 [2 ^ 32 - 10; 2 ^ 32 - 1; 3; 0] 9)) as (_ & _ & H1 & H2 & _).
  - apply frame_called; try done. repeat constructor; done.
  - split; [apply H1; split; reflexivity|apply H2; split; reflexivity].
Defined.

(** ** Defects *)

Definition value (r : option (machine * unit)) : option Z := x ← r; Some (result x.1).

(** The quotient in two steps takes the return address for the low word of the
    dividend: [(7 + 3 * 2 ^ 32) / 2] depends on where the call is. *)
Lemma udivdi3_divides_return_address :
  value (__udivdi3 (frame 4096 [7; 3; 2; 0] 9)) = Some 6442452992 /\
  value (__udivdi3 (frame 8192 [7; 3; 2; 0] 9)) = Some 6442455040 /\ (7 + 3 * 2 ^ 32) / 2 = 6442450947.
Proof. split_and!; reflexivity. Qed.

(** With a divisor of two words the routines read the registers they saved and
    an unset local variable instead of their arguments. *)
Lemma wide_division_reads_registers :
  value (__udivdi3 (frame 4096 [7; 3; 0; 1] 9)) = Some 1 /\ (7 + 3 * 2 ^ 32) / 2 ^ 32 = 3 /\
  value (__umoddi3 (frame 4096 [7; 3; 0; 1] 9)) = Some 4087 /\ value (__umoddi3 (frame 4096 [7; 3; 0; 1] 1)) = Some 4095 /\
  (7 + 3 * 2 ^ 32) mod 2 ^ 32 = 7.
Proof. split_and!; vm_compute; reflexivity. Qed.

(** A shift of [- 2 ^ 63] by 64 places gives 0 instead of the sign. *)
Lemma ashrdi3_shifts_low_word : value (__ashrdi3 (frame 4096 [0; 2 ^ 31; 64] 9)) = Some 0.
Proof. vm_compute. reflexivity. Qed.

(** The multiplication loses the registers of its caller. *)
Lemma muldi3_clobbers : exists m', __muldi3 (frame 4096 [5; 1; 7; 2] 9) = Some (m', tt) /\ ~ saved (frame 4096 [5; 1; 7; 2] 9) m'.
Proof. eexists. split; [vm_compute; reflexivity|]. intros [H _]. by vm_compute in H. Qed.

(** The combined routines keep the high word of the dividend in [ecx], which
    the first division overwrites: the remainders of [10 / -3] (1) and of
    [(2 ^ 32 + 5) / 10] (1) are wrong. *)
Lemma divmod_loses_dividend :
  (exists m', __divmoddi4 0 0 0 (frame 4096 [10; 0; 2 ^ 32 - 3; 2 ^ 32 - 1; 2000] 9) = Some (m', tt) /\
     result m' = 2 ^ 64 - 3 /\ mem m' 2000 = 0) /\
  (exists m', __udivmoddi4 0 0 (frame 4096 [5; 1; 10; 0; 2000] 9) = Some (m', tt) /\ mem m' 2000 = 5) /\ (2 ^ 32 + 5) mod 10 = 1.
Proof. split_and!; [eexists; split; [vm_compute; reflexivity|]..|]; try split; vm_compute; reflexivity. Qed.
