(* ===== verification/Bits.v ===== *)
(** * Bits of machine words

    The bits of masks, of cleared and of set words, and the rounding of an
    address range to pages, shared by the page table and the memory type
    register code. *)

From S2P Require Import Prelude.

Lemma land_below n a b : 0 <= n -> 0 <= a < 2 ^ n -> 0 <= Z.land a b < 2 ^ n.
Proof.
  intros Hn Ha. assert (Z.land a b = Z.land a b mod 2 ^ n) as ->.
  { rewrite <- Z.land_ones, <- Z.land_assoc, (Z.land_comm b), Z.land_assoc, Z.land_ones, (Z.mod_small a) by lia. reflexivity. }
  apply Z.mod_pos_bound. lia.
Qed.

Lemma bits_below n a i : 0 <= a < 2 ^ n -> n <= i -> Z.testbit a i = false.
Proof.
  intros Ha Hi. destruct (decide (a = 0)) as [->|]; [apply Z.bits_0|]. apply Z.bits_above_log2; [lia|].
  assert (0 <= n) by (destruct (Z.lt_ge_cases n 0); [rewrite Z.pow_neg_r in Ha by lia; lia|assumption]).
  apply Z.log2_lt_pow2; [lia|]. eapply Z.lt_le_trans; [apply Ha|]. apply Z.pow_le_mono_r; lia.
Qed.

Lemma bit_free m i : 0 <= i -> (Z.land m (2 ^ i) =? 0) = negb (Z.testbit m i).
Proof.
  intros Hi. destruct (Z.testbit m i) eqn:E; cbn; apply Z.eqb_eq || apply Z.eqb_neq.
  - intros H. apply (f_equal (fun z => Z.testbit z i)) in H. rewrite Z.land_spec, Z.pow2_bits_true, E, Z.bits_0 in H by lia. discriminate.
  - apply Z.bits_inj'. intros j Hj. rewrite Z.land_spec, Z.bits_0, Z.pow2_bits_eqb by lia.
    destruct (Z.eqb_spec i j) as [->|]; [now rewrite E|apply andb_false_r].
Qed.

Lemma testbit_lor_pow2 m i j : 0 <= i -> Z.testbit (Z.lor m (2 ^ i)) j = Z.testbit m j || (i =? j).
Proof. intros Hi. now rewrite Z.lor_spec, Z.pow2_bits_eqb. Qed.

Lemma land_pred b k : 0 <= k -> Z.land b (2 ^ k - 1) = b mod 2 ^ k.
Proof. intros Hk. rewrite <- Z.land_ones by lia. f_equal. rewrite Z.ones_equiv. lia. Qed.

Lemma testbit_pred k i : 0 <= k -> 0 <= i -> Z.testbit (2 ^ k - 1) i = (i <? k).
Proof.
  intros Hk Hi. replace (2 ^ k - 1) with (Z.ones k) by (rewrite Z.ones_equiv; lia).
  destruct (Z.ltb_spec i k); [apply Z.ones_spec_low; lia|apply Z.ones_spec_high; lia].
Qed.

Lemma testbit_not_pred w k i : 0 <= k -> 0 <= w -> 0 <= i -> Z.testbit (wrap w (Z.lnot (2 ^ k - 1))) i = (i <? w) && (k <=? i).
Proof.
  intros Hk Hw Hi. rewrite testbit_wrap, Z.lnot_spec, testbit_pred by lia. f_equal. now rewrite Z.ltb_antisym, negb_involutive.
Qed.

Lemma page_down `{A : Arch} x : 0 <= x < 2 ^ size_bits -> Z.land x (wrap size_bits (Z.lnot 4095)) = x - x mod 4096.
Proof. intros Hx. change 4095 with (2 ^ 12 - 1). apply land_align_down; [assumption|arch_cases; lia]. Qed.

(** The length between the rounded addresses, also where the end is the top of the address space *)
Lemma page_end `{A : Arch} phys_start len (lo := phys_start - phys_start mod 4096) (hi := phys_start + len + 4095 - (phys_start + len + 4095) mod 4096) :
  0 <= phys_start < 2 ^ size_bits -> 0 < len -> hi <= 2 ^ size_bits -> hi - lo < 2 ^ size_bits ->
  Z.land (phys_start + len +[size_bits] 4095) (wrap size_bits (Z.lnot 4095)) -[size_bits] Z.land phys_start (wrap size_bits (Z.lnot 4095)) = hi - lo.
Proof.
  intros Hp Hl Hh Hd. pose proof (Z.mod_pos_bound phys_start 4096 ltac:(lia)). pose proof (Z.mod_pos_bound (phys_start + len + 4095) 4096 ltac:(lia)).
  pose proof size_bits_nonneg. rewrite !page_down by (lia || now apply wrap_bound). fold lo. unfold wrap.
  assert (H4 : (4096 | 2 ^ size_bits)) by (exists (2 ^ size_bits / 4096); arch_cases; reflexivity).
  rewrite Z.mod_mod_divide by assumption.
  rewrite <- Z.sub_add_distr, Zminus_mod_idemp_l. fold (wrap size_bits (phys_start + len + 4095 - ((phys_start + len + 4095) mod 4096 + lo))).
  rewrite Z.sub_add_distr. fold hi. apply wrap_small. unfold hi, lo in *. lia.
Qed.
