(* ===== verification/Mtrr.v ===== *)
(** * Memory type ranges ([kernel/amd64/paging.c], the MTRR part; the text of
    [kernel/i386/paging.c] is the same)

    A range of physical memory gets a cache type by splitting it into aligned
    blocks of a power of two and programming one register pair for each.
    State: the static variables of the file, the model-specific registers and
    [cr0].  [cpuid] gives [eax] and [edx] of a leaf.  [None] is undefined
    behaviour: a shift by 64 or more, or the leading zeros of 0. *)

From S2P Require Import Prelude.

Inductive arch_paging_memtype_t :=
| ARCH_PAGING_MT_WB | ARCH_PAGING_MT_WT | ARCH_PAGING_MT_UC | ARCH_PAGING_MT_UC_MINUS | ARCH_PAGING_MT_WC | ARCH_PAGING_MT_WP.

#[global] Instance memtype_eq_dec : EqDecision arch_paging_memtype_t.
Proof. solve_decision. Defined.

Definition IA32_MTRR_CAP_MSR : Z := 254.
Definition IA32_MTRR_DEF_TYPE_MSR : Z := 767.
Definition IA32_MTRR_PHYSBASE (n : Z) : Z := 512 + n * 2.
Definition IA32_MTRR_PHYSMASK (n : Z) : Z := 512 + n * 2 + 1.
Definition IA32_MTRR_DEF_ENABLE : Z := 2 ^ 11.
Definition IA32_MTRR_DEF_FIXED : Z := 2 ^ 10.

Record Mtrr := mkMtrr {
  g_mtrr_initialized : bool;
  g_mtrr_available : bool;
  g_mtrr_var_count : Z;
  g_mtrr_phys_bits : Z;
  g_mtrr_usage_mask : Z;
  msr : Z -> Z;
  cr0 : Z
}.

Definition wrmsr (s : Mtrr) (r v : Z) : Mtrr :=
  mkMtrr (g_mtrr_initialized s) (g_mtrr_available s) (g_mtrr_var_count s) (g_mtrr_phys_bits s) (g_mtrr_usage_mask s)
    (fun x => if x =? r then v else msr s x) (cr0 s).
Definition set_cr0 (s : Mtrr) (v : Z) : Mtrr :=
  mkMtrr (g_mtrr_initialized s) (g_mtrr_available s) (g_mtrr_var_count s) (g_mtrr_phys_bits s) (g_mtrr_usage_mask s) (msr s) v.
Definition set_usage (s : Mtrr) (v : Z) : Mtrr :=
  mkMtrr (g_mtrr_initialized s) (g_mtrr_available s) (g_mtrr_var_count s) (g_mtrr_phys_bits s) v (msr s) (cr0 s).

(** [value & ~mask], for 64-bit operands *)
Definition clear_bits (value mask : Z) : Z := Z.land value (wrap 64 (Z.lnot mask)).

Fixpoint bitcount_loop (fuel : nat) (value count : Z) : option Z :=
  match fuel with
  | O => None
  | S fuel => if value =? 0 then Some count else bitcount_loop fuel (Z.land value (value -[64] 1)) (count +[8] 1)
  end.
Definition bitcount64 (value : Z) : option Z := bitcount_loop 65 value 0.

Definition mtrr_phys_mask_bits (phys_bits : Z) : Z :=
  if 52 <=? phys_bits then 18446744073709547520
  else clear_bits (2 ^ phys_bits -[64] 1) 4095.

(** The slot and the new mask; no slot is [-1]. *)
Fixpoint acquire_loop (fuel : nat) (idx var_count mask : Z) : option (Z * Z) :=
  match fuel with
  | O => None
  | S fuel =>
      if idx <? var_count
      then
        if 64 <=? idx then None
        else
          let bit := 2 ^ idx in
          if Z.land mask bit =? 0 then Some (idx, Z.lor mask bit) else acquire_loop fuel (idx +[8] 1) var_count mask
      else Some (-1, mask)
  end.
Definition mtrr_acquire_slot (var_count mask : Z) : option (Z * Z) := acquire_loop 256 0 var_count mask.

Definition mtrr_release_slot (mask slot : Z) : Z := if slot <? 0 then mask else clear_bits mask (2 ^ slot).

Definition arch_mtrr_type_from_memtype (type : arch_paging_memtype_t) : Z :=
  match type with ARCH_PAGING_MT_WC => 1 | ARCH_PAGING_MT_UC => 0 | _ => 255 end.

Section Mtrr.
Context `{A : Arch} (cpuid : Z -> Z * Z).

Definition arch_mtrr_init (s : Mtrr) : Mtrr * bool :=
  if g_mtrr_initialized s then (s, g_mtrr_available s)
  else
    let has_mtrr := negb (Z.land (cpuid 1).2 (2 ^ 12) =? 0) in
    if negb has_mtrr
    then (mkMtrr true false (g_mtrr_var_count s) (g_mtrr_phys_bits s) (g_mtrr_usage_mask s) (msr s) (cr0 s), false)
    else
      let count := Z.land (msr s IA32_MTRR_CAP_MSR) 255 in
      let bits := if 2147483656 <=? (cpuid 2147483648).1
                  then let b := Z.land (cpuid 2147483656).1 255 in if b <? 36 then 36 else b
                  else 36 in
      (mkMtrr true (negb (count =? 0)) count bits 0 (msr s) (cr0 s), negb (count =? 0)).

Definition mtrr_program_slot (s : Mtrr) (slot base size type : Z) : Mtrr :=
  let phys_mask_bits := mtrr_phys_mask_bits (g_mtrr_phys_bits s) in
  let base_val := Z.lor (Z.land base phys_mask_bits) type in
  let mask_val := Z.lor (Z.land (wrap 64 (Z.lnot (size -[64] 1))) phys_mask_bits) 2048 in
  wrmsr (wrmsr s (IA32_MTRR_PHYSBASE slot) base_val) (IA32_MTRR_PHYSMASK slot) mask_val.

Fixpoint align_loop (fuel : nat) (base candidate : Z) : option Z :=
  match fuel with
  | O => None
  | S fuel => if (0 <? candidate) && negb (Z.land base (candidate - 1) =? 0) then align_loop fuel base (Z.shiftr candidate 1) else Some candidate
  end.

(** [63 - __builtin_clzll(length)] is the position of the highest bit. *)
Definition largest_power_of_two_aligned (base length : Z) : option Z :=
  if length =? 0 then None else align_loop 65 base (2 ^ Z.log2 length).

(** The array [chunks] in order; [Some None] when 64 are not enough. *)
Fixpoint chunk_loop (fuel : nat) (cursor remaining : Z) (chunks : list (Z * Z)) : option (option (list (Z * Z))) :=
  match fuel with
  | O => None
  | S fuel =>
      if remaining =? 0 then Some (Some chunks)
      else
        chunk ← largest_power_of_two_aligned cursor remaining;
        let chunk := if chunk <? 4096 then 4096 else chunk in
        let chunk := if remaining <? chunk then remaining else chunk in
        if 64 <=? Z.of_nat (length chunks) then Some None
        else chunk_loop fuel (cursor +[size_bits] chunk) (remaining - chunk) (chunks ++ [(cursor, chunk)])
  end.

(** Slots for [n] more chunks after [slots]; on a failure all are released. *)
Fixpoint acquire_slots (n : nat) (var_count mask : Z) (slots : list Z) : option (Z * option (list Z)) :=
  match n with
  | O => Some (mask, Some slots)
  | S n =>
      x ← mtrr_acquire_slot var_count mask;
      let '(slot, mask) := x in
      if slot <? 0 then Some (foldl mtrr_release_slot mask slots, None)
      else acquire_slots n var_count mask (slots ++ [slot])
  end.

Definition program_all (s : Mtrr) (slots : list Z) (chunks : list (Z * Z)) (type : Z) : Mtrr :=
  foldl (fun s x => mtrr_program_slot s x.1 x.2.1 x.2.2 type) s (zip slots chunks).

Definition arch_mtrr_set_range (s : Mtrr) (phys_start length : Z) (type : arch_paging_memtype_t) : option (Mtrr * bool) :=
  if length =? 0 then Some (s, true)
  else
    let '(s, ok) := arch_mtrr_init s in
    if negb ok then Some (s, false)
    else if negb (g_mtrr_available s) then Some (s, false)
    else
      let mtrr_type := arch_mtrr_type_from_memtype type in
      if mtrr_type =? 255 then Some (s, false)
      else
        let page v := Z.land v (wrap size_bits (Z.lnot 4095)) in
        let start := page phys_start in
        let end_ := page (wrap size_bits (phys_start + length + 4095)) in
        let remaining := end_ -[size_bits] start in
        if remaining =? 0 then Some (s, true)
        else
          let max_address := Z.lor (mtrr_phys_mask_bits (g_mtrr_phys_bits s)) 4095 in
          if max_address <? start then Some (s, false)
          else if max_address - start <? remaining - 1 then Some (s, false)
          else
            chunks ← chunk_loop 66 start remaining [];
            match chunks with
            | None => Some (s, false)
            | Some chunks =>
                used_slots ← bitcount64 (g_mtrr_usage_mask s);
                let available_slots := if used_slots <? g_mtrr_var_count s then g_mtrr_var_count s - used_slots else 0 in
                if available_slots <? Z.of_nat (List.length chunks) then Some (s, false)
                else
                  x ← acquire_slots (List.length chunks) (g_mtrr_var_count s) (g_mtrr_usage_mask s) [];
                  let s := set_usage s x.1 in
                  match x.2 with
                  | None => Some (s, false)
                  | Some slots =>
                      let saved := cr0 s in
                      let s := set_cr0 s (Z.lor (Z.lor saved (2 ^ 30)) (2 ^ 29)) in
                      let def_type := msr s IA32_MTRR_DEF_TYPE_MSR in
                      let was_enabled := negb (Z.land def_type IA32_MTRR_DEF_ENABLE =? 0) in
                      let disabled_type := clear_bits def_type (Z.lor IA32_MTRR_DEF_ENABLE IA32_MTRR_DEF_FIXED) in
                      let s := wrmsr s IA32_MTRR_DEF_TYPE_MSR disabled_type in
                      let s := program_all s slots chunks mtrr_type in
                      let s := wrmsr s IA32_MTRR_DEF_TYPE_MSR (if was_enabled then def_type else disabled_type) in
                      Some (set_cr0 s saved, true)
                  end
            end.

End Mtrr.
