(* ===== verification/MtrrSpec.v ===== *)
(** * What the memory type registers describe after [arch_mtrr_set_range]

    A register pair covers the addresses that agree with its base on the bits
    of its mask.  A range is split into blocks, each covered by one pair; the
    pairs together cover the range and nothing else. *)

From S2P Require Import Prelude Bits Mtrr.

(** ** Bits *)

(** Set bits below [w] *)
Fixpoint count_bits (m : Z) (w : nat) : Z :=
  match w with O => 0 | S w => count_bits m w + Z.b2z (Z.testbit m (Z.of_nat w)) end.

Lemma count_bits_ext m m' w : (forall j, 0 <= j < Z.of_nat w -> Z.testbit m j = Z.testbit m' j) -> count_bits m w = count_bits m' w.
Proof.
  induction w as [|w IH]; intros H; [reflexivity|]. cbn [count_bits]. rewrite IH by (intros; apply H; lia). now rewrite H by lia.
Qed.

Lemma count_bits_flip m m' i w : 0 <= i < Z.of_nat w -> Z.testbit m i = true -> Z.testbit m' i = false ->
  (forall j, 0 <= j -> j <> i -> Z.testbit m j = Z.testbit m' j) -> count_bits m w = count_bits m' w + 1.
Proof.
  intros Hi Hm Hm' H. induction w as [|w IH]; [lia|]. cbn [count_bits].
  destruct (decide (i = Z.of_nat w)) as [->|].
  - rewrite Hm, Hm', (count_bits_ext m m') by (intros; apply H; lia). cbn. lia.
  - rewrite IH, (H (Z.of_nat w)) by lia. lia.
Qed.

Lemma count_bits_bound m w : 0 <= count_bits m w <= Z.of_nat w.
Proof. induction w as [|w IH]; cbn [count_bits]; [lia|]. destruct (Z.testbit m (Z.of_nat w)); cbn; lia. Qed.

Lemma count_bits_full m w : (forall i, 0 <= i < Z.of_nat w -> Z.testbit m i = true) -> count_bits m w = Z.of_nat w.
Proof. induction w as [|w IH]; intros H; [reflexivity|]. cbn [count_bits]. rewrite IH by (intros; apply H; lia). rewrite H by lia. cbn. lia. Qed.

Lemma count_bits_0 w : count_bits 0 w = 0.
Proof. induction w as [|w IH]; [reflexivity|]. cbn [count_bits]. now rewrite IH, Z.bits_0. Qed.

(** [v & (v - 1)] is [v] without its lowest set bit. *)
Lemma lowest_bit (p : positive) : exists i, 0 <= i /\ Z.testbit (Zpos p) i = true /\
  forall j, 0 <= j -> Z.testbit (Z.land (Zpos p) (Zpos p - 1)) j = Z.testbit (Zpos p) j && negb (j =? i).
Proof.
  induction p as [p _|p (i & Hi & Hb & IH)|].
  - exists 0. split; [lia|]. split; [reflexivity|]. intros j Hj. rewrite Z.land_spec.
    replace (Zpos p~1 - 1) with (2 * Zpos p) by lia. replace (Zpos p~1) with (2 * Zpos p + 1) by lia.
    destruct (decide (j = 0)) as [->|].
    + now rewrite Z.testbit_odd_0, Z.testbit_even_0.
    + replace j with (Z.succ (j - 1)) by lia. rewrite Z.testbit_odd_succ, Z.testbit_even_succ by lia.
      rewrite (proj2 (Z.eqb_neq (Z.succ (j - 1)) 0)) by lia. cbn. now rewrite andb_true_r, andb_diag.
  - exists (i + 1). split; [lia|]. replace (Zpos p~0) with (2 * Zpos p) by lia. split.
    { replace (i + 1) with (Z.succ i) by lia. now rewrite Z.testbit_even_succ. }
    intros j Hj. rewrite Z.land_spec. replace (2 * Zpos p - 1) with (2 * (Zpos p - 1) + 1) by lia.
    destruct (decide (j = 0)) as [->|]; [now rewrite Z.testbit_even_0|].
    replace j with (Z.succ (j - 1)) by lia. rewrite Z.testbit_odd_succ, Z.testbit_even_succ by lia.
    rewrite <- Z.land_spec, IH by lia. do 2 f_equal. destruct (Z.eqb_spec (j - 1) i), (Z.eqb_spec (Z.succ (j - 1)) (i + 1)); (reflexivity || lia).
  - exists 0. split; [lia|]. split; [reflexivity|]. intros j Hj. rewrite Z.land_spec. cbn [Z.sub Z.add Z.opp Z.pos_sub].
    rewrite Z.bits_0, andb_false_r. change 1 with (2 ^ 0). rewrite Z.pow2_bits_eqb by lia. destruct (Z.eqb_spec 0 j), (Z.eqb_spec j 0); (reflexivity || lia).
Qed.

Lemma bitcount_loop_spec w : forall fuel v c, 0 <= v < 2 ^ Z.of_nat w -> (w <= 64)%nat ->
  count_bits v w < Z.of_nat fuel -> 0 <= c -> c + count_bits v w < 256 -> bitcount_loop fuel v c = Some (c + count_bits v w).
Proof.
  induction fuel as [|fuel IH]; intros v c Hv Hw Hf Hc Hs; [pose proof (count_bits_bound v w); lia|].
  cbn [bitcount_loop]. destruct (Z.eqb_spec v 0) as [->|]; [rewrite count_bits_0; f_equal; lia|].
  destruct v as [|p|]; try lia. destruct (lowest_bit p) as (i & Hi & Hb & Hl).
  assert (Hiw : i < Z.of_nat w).
  { destruct (Z.lt_ge_cases i (Z.of_nat w)); [assumption|].
    now rewrite (bits_below (Z.of_nat w)) in Hb. }
  assert (2 ^ Z.of_nat w <= 2 ^ 64) by (apply Z.pow_le_mono_r; lia).
  rewrite (wrap_small 64) by lia.
  assert (Hc1 : count_bits (Zpos p) w = count_bits (Z.land (Zpos p) (Zpos p - 1)) w + 1).
  { apply (count_bits_flip _ _ i); [lia|assumption| |].
    - rewrite Hl by lia. rewrite Z.eqb_refl. apply andb_false_r.
    - intros j Hj Hn. rewrite Hl by lia. rewrite (proj2 (Z.eqb_neq j i)) by lia. now rewrite andb_true_r. }
  pose proof (count_bits_bound (Z.land (Zpos p) (Zpos p - 1)) w).
  rewrite (wrap_small 8) by lia. rewrite IH; [f_equal; lia| |lia|lia|lia|lia].
  apply land_below; lia.
Qed.

(** ** Slots *)

Lemma acquire_loop_spec vc m : 0 <= vc <= 64 -> count_bits m (Z.to_nat vc) < vc -> forall fuel idx,
  (forall j, 0 <= j < idx -> Z.testbit m j = true) -> 0 <= idx <= vc -> vc - idx < Z.of_nat fuel ->
  exists i, acquire_loop fuel idx vc m = Some (i, Z.lor m (2 ^ i)) /\ 0 <= i < vc /\ Z.testbit m i = false.
Proof.
  intros Hvc Hc. induction fuel as [|fuel IH]; intros idx Hp Hi Hf; [lia|]. cbn [acquire_loop].
  destruct (Z.ltb_spec idx vc).
  - destruct (Z.leb_spec 64 idx); [lia|]. rewrite bit_free by lia. destruct (Z.testbit m idx) eqn:E; cbn [negb]; [|eauto with lia].
    rewrite wrap_small by lia. apply IH; [|lia|lia]. intros j Hj. destruct (decide (j = idx)) as [->|]; [assumption|apply Hp; lia].
  - exfalso. rewrite count_bits_full in Hc by (intros; apply Hp; lia). lia.
Qed.

(** The mask with the bits of [slots] set *)
Definition take_slots (m : Z) (slots : list Z) : Z := foldl (fun m i => Z.lor m (2 ^ i)) m slots.

Lemma acquire_slots_spec vc : 0 <= vc <= 64 -> forall n m acc, count_bits m (Z.to_nat vc) + Z.of_nat n <= vc ->
  exists slots, acquire_slots n vc m acc = Some (take_slots m slots, Some (acc ++ slots)) /\ length slots = n /\ NoDup slots /\
    Forall (fun i => 0 <= i < vc /\ Z.testbit m i = false) slots.
Proof.
  intros Hvc. induction n as [|n IH]; intros m acc Hc.
  - exists []. rewrite app_nil_r. repeat split; constructor.
  - cbn [acquire_slots]. unfold mtrr_acquire_slot. pose proof (count_bits_bound m (Z.to_nat vc)).
    destruct (acquire_loop_spec vc m) with (fuel := 256%nat) (idx := 0) as (i & E & Hi & Hb); [lia..|].
    rewrite E. cbn [mbind option_bind]. destruct (Z.ltb_spec i 0); [lia|].
    assert (count_bits (Z.lor m (2 ^ i)) (Z.to_nat vc) = count_bits m (Z.to_nat vc) + 1).
    { apply (count_bits_flip _ _ i); [lia| |assumption|].
      - rewrite testbit_lor_pow2, Z.eqb_refl by lia. apply orb_true_r.
      - intros j Hj Hn. rewrite testbit_lor_pow2, (proj2 (Z.eqb_neq i j)) by lia. apply orb_false_r. }
    destruct (IH (Z.lor m (2 ^ i)) (acc ++ [i])) as (slots & Es & Hl & Hn & Hf); [lia|].
    exists (i :: slots). rewrite Es, <- app_assoc. cbn [length take_slots foldl app]. split; [reflexivity|]. split; [lia|].
    assert (Hs : forall k, k ∈ slots -> 0 <= k < vc /\ Z.testbit m k = false /\ k <> i).
    { intros k Hk. rewrite Forall_forall in Hf. destruct (Hf k Hk) as [? Hk']. rewrite testbit_lor_pow2 in Hk' by lia.
      apply orb_false_iff in Hk' as [? ?%Z.eqb_neq]. repeat split; (lia || assumption). }
    split; [constructor; [intros Hin%Hs; lia|assumption]|]. constructor; [split; (lia || assumption)|].
    apply Forall_forall. intros k Hk%Hs. intuition.
Qed.

(** ** Blocks *)

(** [chunks] are consecutive blocks from [cur] to [stop], each a power of two of at least a page at a multiple of its size. *)
Fixpoint tiles (cur : Z) (chunks : list (Z * Z)) (stop : Z) : Prop :=
  match chunks with
  | [] => cur = stop
  | (b, sz) :: rest => b = cur /\ (exists k, 12 <= k /\ sz = 2 ^ k) /\ cur mod sz = 0 /\ tiles (cur + sz) rest stop
  end.

Lemma tiles_app cur l1 : forall mid stop l2, tiles cur l1 mid -> tiles mid l2 stop -> tiles cur (l1 ++ l2) stop.
Proof.
  revert cur. induction l1 as [|[b sz] l1 IH]; intros cur mid stop l2; cbn; [now intros ->|]. intros (? & ? & ? & ?) ?. eauto 6.
Qed.

Lemma tiles_le cur chunks stop : tiles cur chunks stop -> cur <= stop.
Proof.
  revert cur. induction chunks as [|[b sz] l IH]; intros cur; cbn; [lia|]. intros (_ & (k & ? & ->) & _ & Hr%IH). lia.
Qed.

Lemma tiles_bounds cur chunks stop b sz : tiles cur chunks stop -> (b, sz) ∈ chunks ->
  cur <= b /\ b + sz <= stop /\ b mod sz = 0 /\ exists k, 12 <= k /\ sz = 2 ^ k.
Proof.
  revert cur. induction chunks as [|[b' sz'] l IH]; intros cur H Hin; [now apply not_elem_of_nil in Hin|].
  destruct H as (-> & (k & Hk & ->) & Hm & H). apply elem_of_cons in Hin as [[= -> ->]|Hin].
  - apply tiles_le in H. repeat split; [lia|lia|assumption|eauto].
  - destruct (IH _ H Hin) as (? & ? & ? & ?). repeat split; (lia || assumption).
Qed.

(** An address is in the range exactly when one of the blocks has it. *)
Lemma tiles_cover cur chunks stop : tiles cur chunks stop -> forall a, cur <= a < stop <-> exists b sz, (b, sz) ∈ chunks /\ b <= a < b + sz.
Proof.
  intros H a. split; [|intros (b & sz & Hin & ?); destruct (tiles_bounds _ _ _ _ _ H Hin); lia].
  revert cur H. induction chunks as [|[b sz] l IH]; intros cur H Ha; cbn in H; [lia|]. destruct H as (-> & _ & _ & H).
  destruct (Z.lt_ge_cases a (cur + sz)); [exists cur, sz; split; [constructor|lia]|].
  destruct (IH _ H) as (b & sz' & ? & ?); [lia|]. exists b, sz'. split; [now constructor|assumption].
Qed.

Lemma align_loop_spec base : base mod 2 ^ 12 = 0 -> forall (n : nat) fuel, (n < fuel)%nat ->
  exists k, align_loop fuel base (2 ^ (12 + Z.of_nat n)) = Some (2 ^ k) /\ 12 <= k <= 12 + Z.of_nat n /\ base mod 2 ^ k = 0.
Proof.
  intros Hb. induction n as [|n IH]; intros [|fuel] Hf; try lia; cbn [align_loop].
  all: rewrite land_pred by lia.
  - change (12 + Z.of_nat 0) with 12. rewrite Hb. exists 12. repeat split; (lia || assumption || now destruct (0 <? _)).
  - destruct (Z.ltb_spec 0 (2 ^ (12 + Z.of_nat (S n)))) as [|Hn]; [|pose proof (Z.pow_pos_nonneg 2 (12 + Z.of_nat (S n))); lia].
    destruct (Z.eqb_spec (base mod 2 ^ (12 + Z.of_nat (S n))) 0) as [E|E]; cbn [andb negb].
    + eexists. split; [reflexivity|]. split; [lia|assumption].
    + destruct (IH fuel) as (k & Ek & ? & ?); [lia|]. exists k. rewrite <- Ek. split; [|split; [lia|assumption]]. f_equal.
      rewrite Z.shiftr_div_pow2 by lia. replace (12 + Z.of_nat (S n)) with (12 + Z.of_nat n + 1) by lia.
      rewrite (Z.pow_add_r 2 _ 1) by lia. apply Z.div_mul. lia.
Qed.

Lemma largest_spec base len : base mod 2 ^ 12 = 0 -> len mod 2 ^ 12 = 0 -> 0 < len < 2 ^ 64 ->
  exists k, largest_power_of_two_aligned base len = Some (2 ^ k) /\ 12 <= k /\ base mod 2 ^ k = 0 /\ 2 ^ k <= len.
Proof.
  intros Hb Hl Hlen. unfold largest_power_of_two_aligned. destruct (Z.eqb_spec len 0); [lia|].
  pose proof (Z.log2_spec len ltac:(lia)) as [Hlo _].
  assert (12 <= Z.log2 len) by (apply Z.log2_le_pow2; [lia|]; pose proof (Z.div_mod len (2 ^ 12)); lia).
  assert (Z.log2 len < 64) by (apply Z.log2_lt_pow2; lia).
  destruct (align_loop_spec base Hb (Z.to_nat (Z.log2 len - 12)) 65) as (k & E & ? & ?); [lia|].
  replace (12 + Z.of_nat (Z.to_nat (Z.log2 len - 12))) with (Z.log2 len) in * by lia.
  exists k. repeat split; try assumption; try lia. eapply Z.le_trans; [|exact Hlo]. apply Z.pow_le_mono_r; lia.
Qed.

Lemma chunk_loop_spec `{A : Arch} start stop : stop <= 2 ^ size_bits -> start <= stop -> stop - start < 2 ^ size_bits -> forall fuel cursor remaining acc,
  0 <= cursor -> start <= cursor -> cursor + remaining = stop -> 0 <= remaining -> cursor mod 2 ^ 12 = 0 -> remaining mod 2 ^ 12 = 0 ->
  tiles start acc cursor -> (length acc <= 64)%nat -> (65 - length acc < fuel)%nat ->
  exists r, chunk_loop fuel cursor remaining acc = Some r /\ forall cs, r = Some cs -> tiles start cs stop.
Proof.
  intros Hstop Hst Hlen. assert (2 ^ size_bits <= 2 ^ 64) by (arch_cases; lia).
  induction fuel as [|fuel IH]; intros cursor remaining acc Hc Hsc Hs Hr Hmc Hmr Ht Hl Hf; [lia|]. cbn [chunk_loop].
  destruct (Z.eqb_spec remaining 0) as [->|]; [eexists; split; [reflexivity|]; intros cs [= <-]; rewrite <- Hs, Z.add_0_r; assumption|].
  destruct (largest_spec cursor remaining) as (k & E & Hk & Hm & Hle); [assumption..|lia|].
  rewrite E. cbn [mbind option_bind]. assert (2 ^ 12 <= 2 ^ k) by (apply Z.pow_le_mono_r; lia).
  destruct (Z.ltb_spec (2 ^ k) 4096); [lia|]. destruct (Z.ltb_spec remaining (2 ^ k)); [lia|].
  destruct (Z.leb_spec 64 (Z.of_nat (length acc))); [eexists; split; [reflexivity|]; intros cs [=]|].
  assert (Hnext : tiles start (acc ++ [(cursor, 2 ^ k)]) (cursor + 2 ^ k)) by (apply (tiles_app _ _ cursor); [assumption|]; cbn; eauto 8).
  destruct (decide (remaining = 2 ^ k)) as [->|].
  { destruct fuel as [|fuel]; [lia|]. cbn [chunk_loop]. rewrite Z.sub_diag. eexists. split; [reflexivity|]. intros cs [= <-]. now rewrite <- Hs. }
  rewrite wrap_small by lia. assert (Hpage : 2 ^ k mod 2 ^ 12 = 0).
  { replace k with (k - 12 + 12) by lia. rewrite Z.pow_add_r by lia. apply Z.mod_mul. lia. }
  apply IH; try lia.
  - now rewrite Z.add_mod, Hmc, Hpage by lia.
  - now rewrite Zminus_mod, Hmr, Hpage by lia.
  - exact Hnext.
  - rewrite length_app. cbn. lia.
  - rewrite length_app. cbn. lia.
Qed.

(** ** Registers *)

(** How the processor reads a pair of registers: bit 11 of the mask says it is valid, and it covers the addresses that agree with the base on the mask. *)
Definition slot_covers (s : Mtrr) (n a : Z) : bool :=
  let mask := clear_bits (msr s (IA32_MTRR_PHYSMASK n)) 4095 in
  Z.testbit (msr s (IA32_MTRR_PHYSMASK n)) 11 && (Z.land a mask =? Z.land (msr s (IA32_MTRR_PHYSBASE n)) mask).
Definition slot_type (s : Mtrr) (n : Z) : Z := Z.land (msr s (IA32_MTRR_PHYSBASE n)) 255.

Definition base_value (w base type : Z) : Z := Z.lor (Z.land base (mtrr_phys_mask_bits w)) type.
Definition mask_value (w size : Z) : Z := Z.lor (Z.land (wrap 64 (Z.lnot (size -[64] 1))) (mtrr_phys_mask_bits w)) 2048.

Lemma testbit_phys w i : 36 <= w < 52 -> 0 <= i -> Z.testbit (mtrr_phys_mask_bits w) i = (i <? w) && (12 <=? i).
Proof.
  intros Hw Hi. unfold mtrr_phys_mask_bits, clear_bits. destruct (Z.leb_spec 52 w); [lia|].
  assert (2 ^ w < 2 ^ 64) by (apply Z.pow_lt_mono_r; lia).
  rewrite Z.land_spec, (wrap_small 64 (2 ^ w - 1)), testbit_pred by lia. change 4095 with (2 ^ 12 - 1).
  rewrite testbit_not_pred by lia. destruct (Z.ltb_spec i w), (Z.ltb_spec i 64); (reflexivity || lia).
Qed.

Lemma testbit_mask_value w k i : 36 <= w < 52 -> 12 <= k <= w -> 0 <= i ->
  Z.testbit (mask_value w (2 ^ k)) i = (i <? w) && (k <=? i) || (i =? 11).
Proof.
  intros Hw Hk Hi. unfold mask_value. assert (2 ^ k < 2 ^ 64) by (apply Z.pow_lt_mono_r; lia).
  change 2048 with (2 ^ 11). rewrite (wrap_small 64 (2 ^ k - 1)), testbit_lor_pow2, Z.land_spec, testbit_not_pred, testbit_phys by lia.
  rewrite (Z.eqb_sym 11 i). f_equal.
  destruct (Z.ltb_spec i 64), (Z.ltb_spec i w), (Z.leb_spec k i), (Z.leb_spec 12 i); (reflexivity || lia).
Qed.

(** The address part of a mask *)
Lemma address_mask w k : 36 <= w < 52 -> 12 <= k <= w -> clear_bits (mask_value w (2 ^ k)) 4095 = wrap w (Z.lnot (2 ^ k - 1)).
Proof.
  intros Hw Hk. apply Z.bits_inj'. intros i Hi. unfold clear_bits. change 4095 with (2 ^ 12 - 1).
  rewrite Z.land_spec, testbit_mask_value, !testbit_not_pred by lia.
  destruct (Z.ltb_spec i 64), (Z.ltb_spec i w), (Z.leb_spec k i), (Z.leb_spec 12 i), (Z.eqb_spec i 11); (reflexivity || lia).
Qed.

Lemma testbit_base_value w b t i : 36 <= w < 52 -> 0 <= i -> Z.testbit (base_value w b t) i = Z.testbit b i && ((i <? w) && (12 <=? i)) || Z.testbit t i.
Proof. intros Hw Hi. unfold base_value. now rewrite Z.lor_spec, Z.land_spec, testbit_phys. Qed.

Lemma base_value_masked w k b t : 36 <= w < 52 -> 12 <= k <= w -> 0 <= t < 256 ->
  Z.land (base_value w b t) (wrap w (Z.lnot (2 ^ k - 1))) = Z.land b (wrap w (Z.lnot (2 ^ k - 1))).
Proof.
  intros Hw Hk Ht. apply Z.bits_inj'. intros i Hi. rewrite !Z.land_spec, testbit_base_value, testbit_not_pred by lia.
  destruct (Z.leb_spec k i); [|now rewrite !andb_false_r]. rewrite (bits_below 8 t) by lia. destruct (Z.leb_spec 12 i); [|lia].
  destruct (i <? w), (Z.testbit b i); reflexivity.
Qed.

Lemma base_value_type w b t : 36 <= w < 52 -> 0 <= t < 256 -> Z.land (base_value w b t) 255 = t.
Proof.
  intros Hw Ht. apply Z.bits_inj'. intros i Hi. change 255 with (2 ^ 8 - 1). rewrite Z.land_spec, testbit_base_value, testbit_pred by lia.
  destruct (Z.ltb_spec i 8); [|now rewrite (bits_below 8 t), andb_false_r by lia].
  destruct (Z.leb_spec 12 i); [lia|]. now rewrite !andb_false_r, andb_true_r.
Qed.

(** A pair that holds the values for a block covers the block. *)
Lemma block_covered s n w b k t a : 36 <= w < 52 -> 12 <= k -> 0 <= t < 256 -> 0 <= b -> b + 2 ^ k <= 2 ^ w -> b mod 2 ^ k = 0 -> 0 <= a < 2 ^ w ->
  msr s (IA32_MTRR_PHYSBASE n) = base_value w b t -> msr s (IA32_MTRR_PHYSMASK n) = mask_value w (2 ^ k) ->
  slot_type s n = t /\ (slot_covers s n a = true <-> b <= a < b + 2 ^ k).
Proof.
  intros Hw Hk Ht Hb Hbw Hm Ha Eb Em. assert (Hkw : k <= w) by (apply (Z.pow_le_mono_r_iff 2); lia).
  unfold slot_type, slot_covers. rewrite Eb, Em, base_value_type, testbit_mask_value, address_mask, base_value_masked by lia.
  split; [reflexivity|]. rewrite orb_true_r. cbn [andb]. rewrite Z.eqb_eq.
  assert (0 < 2 ^ k) by lia. rewrite !land_align_down, Hm by lia.
  pose proof (Z.div_mod a (2 ^ k)). pose proof (Z.div_mod b (2 ^ k)). pose proof (Z.mod_pos_bound a (2 ^ k)). split; [lia|].
  intros Hr. assert (a / 2 ^ k = b / 2 ^ k); [|nia]. symmetry. apply (Z.div_unique _ _ _ (a - b)); lia.
Qed.

(** ** The whole operation *)

Definition touched (slots : list Z) (r : Z) : Prop := exists n, n ∈ slots /\ (r = IA32_MTRR_PHYSBASE n \/ r = IA32_MTRR_PHYSMASK n).

Lemma program_all_fields slots : forall chunks s t, exists f, program_all s slots chunks t =
  mkMtrr (g_mtrr_initialized s) (g_mtrr_available s) (g_mtrr_var_count s) (g_mtrr_phys_bits s) (g_mtrr_usage_mask s) f (cr0 s).
Proof.
  induction slots as [|n slots IH]; intros [|[b sz] chunks] s t; try (exists (msr s); now destruct s).
  destruct (IH chunks (mtrr_program_slot s n b sz t) t) as [f E]. exists f. exact E.
Qed.

Lemma program_all_outside slots : forall chunks s t r, ~ touched slots r -> msr (program_all s slots chunks t) r = msr s r.
Proof.
  induction slots as [|n slots IH]; intros [|[b sz] chunks] s t r Hr; try reflexivity.
  change (program_all s (n :: slots) ((b, sz) :: chunks) t) with (program_all (mtrr_program_slot s n b sz t) slots chunks t).
  rewrite IH by (intros (k & Hk & ?); apply Hr; exists k; split; [now constructor|assumption]). cbn.
  rewrite !(proj2 (Z.eqb_neq r _)); [reflexivity|intros ->; apply Hr; exists n; split; [constructor|auto]..].
Qed.

Lemma program_all_inside slots : NoDup slots -> forall chunks s t n b sz, (n, (b, sz)) ∈ zip slots chunks ->
  msr (program_all s slots chunks t) (IA32_MTRR_PHYSBASE n) = base_value (g_mtrr_phys_bits s) b t /\
  msr (program_all s slots chunks t) (IA32_MTRR_PHYSMASK n) = mask_value (g_mtrr_phys_bits s) sz.
Proof.
  induction 1 as [|m slots Hm _ IH]; intros chunks s t n b sz Hin; [now apply not_elem_of_nil in Hin|].
  destruct chunks as [|[b' sz'] chunks]; [now apply not_elem_of_nil in Hin|]. cbn in Hin.
  change (program_all s (m :: slots) ((b', sz') :: chunks) t) with (program_all (mtrr_program_slot s m b' sz' t) slots chunks t).
  apply elem_of_cons in Hin as [[= -> -> ->]|Hin]; [|exact (IH _ (mtrr_program_slot s m b' sz' t) t _ _ _ Hin)].
  unfold IA32_MTRR_PHYSBASE, IA32_MTRR_PHYSMASK.
  rewrite !program_all_outside by (intros (k & Hk & ?); unfold IA32_MTRR_PHYSBASE, IA32_MTRR_PHYSMASK in *; assert (k = m) by lia; congruence).
  cbn. unfold IA32_MTRR_PHYSBASE, IA32_MTRR_PHYSMASK. rewrite !Z.eqb_refl, (proj2 (Z.eqb_neq _ (512 + m * 2 + 1))) by lia. auto.
Qed.

Record mtrr_ok (s : Mtrr) : Prop := {
  ok_initialized : g_mtrr_initialized s = true;
  ok_available : g_mtrr_available s = true;
  ok_count : 0 < g_mtrr_var_count s <= 64;
  ok_bits : 36 <= g_mtrr_phys_bits s < 52;
  ok_usage : 0 <= g_mtrr_usage_mask s < 2 ^ g_mtrr_var_count s
}.

Lemma take_slots_bound vc slots : 0 <= vc -> forall m, 0 <= m < 2 ^ vc -> Forall (fun i => 0 <= i < vc) slots -> 0 <= take_slots m slots < 2 ^ vc.
Proof.
  intros Hvc. induction slots as [|i slots IH]; intros m Hm Hs; [assumption|]. inversion_clear Hs. apply IH; [|assumption].
  assert (E : Z.lor m (2 ^ i) = Z.lor m (2 ^ i) mod 2 ^ vc); [|rewrite E; apply Z.mod_pos_bound; lia].
  apply Z.bits_inj'. intros j Hj. destruct (Z.lt_ge_cases j vc); [now rewrite Z.mod_pow2_bits_low by lia|].
  rewrite Z.mod_pow2_bits_high, testbit_lor_pow2, (bits_below vc m) by lia. now apply Z.eqb_neq; lia.
Qed.

(** Any state whose registers hold what [program_all] wrote *)
Lemma programmed_range s s' slots chunks t lo hi : let w := g_mtrr_phys_bits s in
  NoDup slots -> length slots = length chunks -> tiles lo chunks hi -> 0 <= lo -> hi <= 2 ^ w -> 36 <= w < 52 -> 0 <= t < 256 ->
  (forall r, touched slots r -> msr s' r = msr (program_all s slots chunks t) r) ->
  (forall a, 0 <= a < 2 ^ w -> (lo <= a < hi <-> exists n, n ∈ slots /\ slot_covers s' n a = true)) /\ Forall (fun n => slot_type s' n = t) slots.
Proof.
  intros w Hn Hl Ht Hlo Hhi Hw Htp Hs.
  assert (Hpair : forall n b sz a, (n, (b, sz)) ∈ zip slots chunks -> 0 <= a < 2 ^ w -> slot_type s' n = t /\ (slot_covers s' n a = true <-> b <= a < b + sz)).
  { intros n b sz a Hin Ha. destruct (program_all_inside slots Hn chunks s t n b sz Hin) as [Eb Em].
    pose proof (elem_of_zip_l _ _ _ _ Hin) as Hin1. pose proof (elem_of_zip_r _ _ _ _ Hin) as Hin2.
    destruct (tiles_bounds _ _ _ _ _ Ht Hin2) as (? & ? & ? & k & ? & ->).
    apply (block_covered s' n w b k t a); try lia; rewrite Hs by (exists n; auto); assumption. }
  split.
  - intros a Ha. rewrite (tiles_cover _ _ _ Ht a). split.
    + intros (b & sz & Hin & Hb). apply list_elem_of_lookup in Hin as [i Hi].
      destruct (lookup_lt_is_Some_2 slots i) as [n Hni]; [rewrite Hl; eapply lookup_lt_Some; eassumption|].
      exists n. split; [eapply list_elem_of_lookup_2; eassumption|]. apply (Hpair n b sz a); [|assumption..].
      apply list_elem_of_lookup. exists i. apply lookup_zip_Some. auto.
    + intros (n & Hin & Hc). apply list_elem_of_lookup in Hin as [i Hi].
      destruct (lookup_lt_is_Some_2 chunks i) as [[b sz] Hci]; [rewrite <- Hl; eapply lookup_lt_Some; eassumption|].
      exists b, sz. split; [eapply list_elem_of_lookup_2; eassumption|]. apply (Hpair n b sz a); [|assumption..].
      apply list_elem_of_lookup. exists i. apply lookup_zip_Some. auto.
  - apply Forall_forall. intros n Hin. apply list_elem_of_lookup in Hin as [i Hi].
    destruct (lookup_lt_is_Some_2 chunks i) as [[b sz] Hci]; [rewrite <- Hl; eapply lookup_lt_Some; eassumption|].
    apply (Hpair n b sz 0); [|lia]. apply list_elem_of_lookup. exists i. apply lookup_zip_Some. auto.
Qed.

Section Range.
Context `{A : Arch} (cpuid : Z -> Z * Z).

(** The registers of a range [lo, hi) in [s'], from a state [s] *)
Record covered (s s' : Mtrr) (lo hi : Z) (type : arch_paging_memtype_t) (slots : list Z) : Prop := {
  cov_distinct : NoDup slots;
  cov_free : Forall (fun n => 0 <= n < g_mtrr_var_count s /\ Z.testbit (g_mtrr_usage_mask s) n = false) slots;
  cov_used : g_mtrr_usage_mask s' = take_slots (g_mtrr_usage_mask s) slots;
  cov_range : forall a, 0 <= a < 2 ^ g_mtrr_phys_bits s -> (lo <= a < hi <-> exists n, n ∈ slots /\ slot_covers s' n a = true);
  cov_type : Forall (fun n => slot_type s' n = arch_mtrr_type_from_memtype type) slots;
  cov_rest : forall r, r <> IA32_MTRR_DEF_TYPE_MSR -> ~ touched slots r -> msr s' r = msr s r;
  cov_enabled : Z.testbit (msr s IA32_MTRR_DEF_TYPE_MSR) 11 = true -> msr s' IA32_MTRR_DEF_TYPE_MSR = msr s IA32_MTRR_DEF_TYPE_MSR
}.

Lemma max_address w : 36 <= w < 52 -> Z.lor (mtrr_phys_mask_bits w) 4095 = 2 ^ w - 1.
Proof.
  intros Hw. apply Z.bits_inj'. intros i Hi. change 4095 with (2 ^ 12 - 1). rewrite Z.lor_spec, testbit_phys, !testbit_pred by lia.
  destruct (Z.ltb_spec i w), (Z.leb_spec 12 i), (Z.ltb_spec i 12); (reflexivity || lia).
Qed.

Lemma init_available s : mtrr_ok (arch_mtrr_init cpuid s).1 -> (arch_mtrr_init cpuid s).2 = true.
Proof. intros [_ H _ _ _]. unfold arch_mtrr_init in *. now repeat case_match. Qed.

(** The registers written for the blocks *)
Lemma program_range_covered s slots chunks type lo hi m : mtrr_ok s -> m = take_slots (g_mtrr_usage_mask s) slots ->
  NoDup slots -> length slots = length chunks -> tiles lo chunks hi -> 0 <= lo -> hi <= 2 ^ g_mtrr_phys_bits s ->
  Forall (fun i => 0 <= i < g_mtrr_var_count s /\ Z.testbit (g_mtrr_usage_mask s) i = false) slots -> arch_mtrr_type_from_memtype type <> 255 ->
  let s1 := set_cr0 (set_usage s m) (Z.lor (Z.lor (cr0 s) (2 ^ 30)) (2 ^ 29)) in
  let def := msr s IA32_MTRR_DEF_TYPE_MSR in
  let off := clear_bits def (Z.lor IA32_MTRR_DEF_ENABLE IA32_MTRR_DEF_FIXED) in
  let s2 := program_all (wrmsr s1 IA32_MTRR_DEF_TYPE_MSR off) slots chunks (arch_mtrr_type_from_memtype type) in
  let s3 := set_cr0 (wrmsr s2 IA32_MTRR_DEF_TYPE_MSR (if negb (Z.land def IA32_MTRR_DEF_ENABLE =? 0) then def else off)) (cr0 s) in
  mtrr_ok s3 /\ cr0 s3 = cr0 s /\ covered s s3 lo hi type slots.
Proof.
  intros Hok Em Hn Hl Ht Hlo Hhi Hf Htp s1 def off s2 s3.
  assert (Hdef : forall r, touched slots r -> r <> IA32_MTRR_DEF_TYPE_MSR).
  { intros r (n & Hin & Hr) ->. rewrite Forall_forall in Hf. destruct (Hf n Hin). pose proof (ok_count _ Hok).
    unfold IA32_MTRR_DEF_TYPE_MSR, IA32_MTRR_PHYSBASE, IA32_MTRR_PHYSMASK in Hr. lia. }
  destruct (program_all_fields slots chunks (wrmsr s1 IA32_MTRR_DEF_TYPE_MSR off) (arch_mtrr_type_from_memtype type)) as [f Ef].
  assert (Hc : forall r, r <> IA32_MTRR_DEF_TYPE_MSR -> msr s3 r = msr s2 r) by (intros r Hr; cbn; now rewrite (proj2 (Z.eqb_neq _ _))).
  destruct (programmed_range (wrmsr s1 IA32_MTRR_DEF_TYPE_MSR off) s3 slots chunks (arch_mtrr_type_from_memtype type) lo hi) as [Hr Hty];
    try assumption; [apply Hok|destruct type; cbn in *; lia|intros r Hr; apply Hc, Hdef, Hr|].
  pose proof (take_slots_bound (g_mtrr_var_count s) slots) as Hb. destruct Hok as [? ? ? ? ?].
  split; [|split; [reflexivity|]].
  - unfold s3, s2. rewrite Ef. constructor; cbn; try assumption. rewrite Em. apply Hb; [lia|assumption|].
    eapply Forall_impl; [exact Hf|]. intros i Hi. apply Hi.
  - constructor; try assumption.
    + unfold s3, s2. rewrite Ef. exact Em.
    + intros r Hr1 Hr2. rewrite Hc by assumption. unfold s2. rewrite program_all_outside by assumption. cbn. now rewrite (proj2 (Z.eqb_neq _ _)).
    + intros Hen. cbn. fold def. unfold IA32_MTRR_DEF_ENABLE. rewrite bit_free by lia. unfold def. now rewrite Hen.
Qed.

(** Why a range is refused *)
Definition refused (s : Mtrr) (lo hi : Z) (type : arch_paging_memtype_t) : Prop :=
  arch_mtrr_type_from_memtype type = 255 \/ 2 ^ g_mtrr_phys_bits s < hi \/
  (forall chunks, chunk_loop 66 lo (hi - lo) [] = Some (Some chunks) ->
     g_mtrr_var_count s - count_bits (g_mtrr_usage_mask s) 64 < Z.of_nat (length chunks)).

Lemma count_bits_usage vc m : 0 <= vc <= 64 -> 0 <= m < 2 ^ vc -> count_bits m (Z.to_nat vc) = count_bits m 64.
Proof.
  intros Hvc Hm. replace 64%nat with (Z.to_nat vc + Z.to_nat (64 - vc))%nat by lia.
  induction (Z.to_nat (64 - vc)) as [|n IH]; [f_equal; lia|]. replace (Z.to_nat vc + S n)%nat with (S (Z.to_nat vc + n)) by lia.
  cbn [count_bits]. rewrite <- IH, (bits_below vc m) by lia. cbn. lia.
Qed.


End Range.

(** ** Instances *)

(** A processor with 36 address bits and eight register pairs, of which firmware programmed the first: write-back for the first 2 GiB. *)
Module Boot.

Definition cpuid (leaf : Z) : Z * Z := if leaf =? 1 then (0, 2 ^ 12) else if leaf =? 2147483648 then (2147483652, 0) else (0, 0).

Definition registers (r : Z) : Z :=
  if r =? IA32_MTRR_CAP_MSR then 8
  else if r =? IA32_MTRR_DEF_TYPE_MSR then 2048
  else if r =? IA32_MTRR_PHYSBASE 0 then 6
  else if r =? IA32_MTRR_PHYSMASK 0 then mask_value 36 (2 ^ 31)
  else 0.

Definition machine : Mtrr := mkMtrr false false 0 36 0 registers 0.

#[local] Instance amd64 : Arch := AMD64.

Lemma machine_ok : mtrr_ok (arch_mtrr_init cpuid machine).1.
Proof. constructor; vm_compute; intuition congruence. Qed.


(** [arch_mtrr_init] takes every pair for unused: the call programs the pair firmware had used, and the first page of memory is covered by none. *)
Lemma firmware_pair_lost : slot_covers machine 0 0 = true /\
  (fun r => (r.2, existsb (fun n => slot_covers r.1 n 0) (seqZ 0 8))) <$> arch_mtrr_set_range cpuid machine 3758096384 16777216 ARCH_PAGING_MT_WC = Some (true, false).
Proof. split; vm_compute; reflexivity. Qed.

(** With 52 physical address bits the value written to a mask register has bits above 51 set, which are reserved. *)
Lemma reserved_mask_bits : Z.testbit (mask_value 52 4096) 63 = true /\ mtrr_phys_mask_bits 52 <> 2 ^ 52 - 4096.
Proof. split; [reflexivity|]. vm_compute. congruence. Qed.

End Boot.
