(* ===== verification/Paging.v ===== *)
(** * Page tables ([kernel/amd64/paging.c], [kernel/i386/paging.c])

    Both kernels map the low 4 GiB to themselves with 4 KiB pages and give
    single pages a memory type through the bits PWT, PCD and PAT of their
    entries, which select one of the eight fields of the PAT register.  The
    tables are static arrays; their addresses are parameters.  Flushing the
    translation buffer has no effect on the tables and is left out. *)

From S2P Require Import Prelude Mtrr.

(** ** The page attribute table *)

Definition IA32_PAT_MSR : Z := 631.

Definition pat_set_entry (pat index value : Z) : Z :=
  let mask := Z.shiftl 255 (index * 8) in
  Z.lor (Z.land pat (wrap 64 (Z.lnot mask))) (Z.shiftl value (index * 8)).

Record Pat := mkPat { g_pat_initialized : bool; pat_msr : Z }.

Definition arch_paging_pat_init (cpuid : Z -> Z * Z) (p : Pat) : Pat * bool :=
  if g_pat_initialized p then (p, true)
  else
    let has_pat := negb (Z.land (cpuid 1).2 (2 ^ 16) =? 0) in
    if negb has_pat then (p, false)
    else
      let pat := pat_msr p in
      let pat := pat_set_entry pat 0 6 in
      let pat := pat_set_entry pat 1 4 in
      let pat := pat_set_entry pat 2 7 in
      let pat := pat_set_entry pat 3 0 in
      let pat := pat_set_entry pat 4 1 in
      let pat := pat_set_entry pat 5 5 in
      let pat := pat_set_entry pat 6 7 in
      let pat := pat_set_entry pat 7 0 in
      (mkPat true pat, true).

(** The chain of tests on PAT, PCD and PWT that ends [arch_paging_get_memtype] *)
Definition memtype_of_bits (pat pcd pwt : bool) : arch_paging_memtype_t :=
  if negb pat && negb pcd && negb pwt then ARCH_PAGING_MT_WB
  else if negb pat && negb pcd && pwt then ARCH_PAGING_MT_WT
  else if negb pat && pcd && negb pwt then ARCH_PAGING_MT_UC_MINUS
  else if negb pat && pcd && pwt then ARCH_PAGING_MT_UC
  else if pat && negb pcd && negb pwt then ARCH_PAGING_MT_WC
  else if pat && negb pcd && pwt then ARCH_PAGING_MT_WP
  else ARCH_PAGING_MT_UC.

(** ** Loops *)

(** [for (i = 0; i < n; ++i)] *)
Definition for_ {S : Type} (n : Z) (body : Z -> S -> S) (s : S) : S := foldl (fun s i => body i s) s (seqZ 0 n).

Section Pages.
Context {K E : Type} `{EqDecision K}.

Definition store (t : K -> E) (k : K) (e : E) : K -> E := fun x => if decide (x = k) then e else t x.

(** The loop of [arch_paging_set_memtype] over [n] pages from the [i]th *)
Fixpoint set_memtype_loop (w : Z) (get : Z -> K) (present : E -> bool) (apply : E -> E) (start : Z) (n : nat) (i changed : Z) (t : K -> E) : (K -> E) * Z :=
  match n with
  | O => (t, changed)
  | S n =>
      let cur := start +[w] (i *[w] 4096) in
      let pte := get cur in
      if negb (present (t pte)) then set_memtype_loop w get present apply start n (i + 1) changed t
      else set_memtype_loop w get present apply start n (i + 1) (changed + 1) (store t pte (apply (t pte)))
  end.

End Pages.

(** The rounding of a range: first page and number of pages, for [w]-bit addresses *)
Definition page_range (w phys_start length : Z) : Z * Z :=
  let start := Z.land phys_start (wrap w (Z.lnot 4095)) in
  let end_ := Z.land (wrap w (phys_start + length + 4096 - 1)) (wrap w (Z.lnot 4095)) in
  (start, (end_ -[w] start) / 4096).

(** ** amd64 *)

Module Amd64.

Definition PTE_P : Z := 2 ^ 0.
Definition PTE_RW : Z := 2 ^ 1.
Definition PTE_US : Z := 2 ^ 2.
Definition PTE_PWT : Z := 2 ^ 3.
Definition PTE_PCD : Z := 2 ^ 4.
Definition PTE_PAT : Z := 2 ^ 7.
Definition PTE_G : Z := 2 ^ 8.

(** The static tables: [pml4], [pdpt], [pd0]..[pd3] and row [i] of [pt_g0]..[pt_g3] *)
Inductive table := PML4 | PDPT | PD (gb : Z) | PT (gb pt_index : Z).

#[global] Instance table_eq_dec : EqDecision table.
Proof. solve_decision. Defined.

Record layout := { addr_pml4 : Z; addr_pdpt : Z; addr_pd : Z -> Z; addr_pt_g : Z -> Z }.

Definition address (L : layout) (t : table) : Z :=
  match t with
  | PML4 => addr_pml4 L
  | PDPT => addr_pdpt L
  | PD gb => addr_pd L gb
  | PT gb i => addr_pt_g L gb + i * 4096
  end.

Definition entries := (table * Z)%type -> Z.

Record Paging := mkPaging { entry : entries; cr3 : Z; done_ : bool }.

Definition __get_pte (va : Z) : table * Z :=
  let gb := Z.land (Z.shiftr va 30) 3 in
  let pt_index := Z.land (Z.shiftr va 21) 511 in
  let entry_index := Z.land (Z.shiftr va 12) 511 in
  (PT gb pt_index, entry_index).

Definition __apply_type_to_pte (type : arch_paging_memtype_t) (pte : Z) : Z :=
  let pte := clear_bits pte (Z.lor (Z.lor PTE_PWT PTE_PCD) PTE_PAT) in
  match type with
  | ARCH_PAGING_MT_WB => pte
  | ARCH_PAGING_MT_WT => Z.lor pte PTE_PWT
  | ARCH_PAGING_MT_UC => Z.lor pte (Z.lor PTE_PWT PTE_PCD)
  | ARCH_PAGING_MT_UC_MINUS => Z.lor pte PTE_PCD
  | ARCH_PAGING_MT_WC => Z.lor pte PTE_PAT
  | ARCH_PAGING_MT_WP => Z.lor pte (Z.lor PTE_PAT PTE_PWT)
  end.

Definition flag (pte bit : Z) : bool := negb (Z.land pte bit =? 0).

Definition arch_paging_get_memtype (t : entries) (virt_addr : Z) : arch_paging_memtype_t :=
  let pte := t (__get_pte virt_addr) in
  if negb (flag pte PTE_P) then ARCH_PAGING_MT_UC
  else memtype_of_bits (flag pte PTE_PAT) (flag pte PTE_PCD) (flag pte PTE_PWT).

Definition arch_paging_set_memtype (t : entries) (phys_start length : Z) (type : arch_paging_memtype_t) : entries * bool :=
  if length =? 0 then (t, true)
  else
    let '(start, count) := page_range 64 phys_start length in
    let '(t, changed) := set_memtype_loop 64 __get_pte (fun pte => flag pte PTE_P) (__apply_type_to_pte type) start (Z.to_nat count) 0 0 t in
    (t, changed =? count).

Fixpoint map_loop (phys virt base_flags : Z) (type : arch_paging_memtype_t) (n : nat) (i : Z) (t : entries) : entries :=
  match n with
  | O => t
  | S n =>
      let p := phys +[64] (i *[64] 4096) in
      let v := virt +[64] (i *[64] 4096) in
      let pte := __get_pte v in
      let t := if negb (flag (t pte) PTE_P)
               then store t pte (Z.lor (Z.lor (Z.lor (Z.land p 4503599627366400) PTE_P) PTE_RW) (Z.land base_flags (Z.lor PTE_US PTE_G)))
               else t in
      let t := store t pte (__apply_type_to_pte type (t pte)) in
      map_loop phys virt base_flags type n (i + 1) t
  end.

Definition arch_paging_map_with_type (t : entries) (phys_start virt_start length base_flags : Z) (type : arch_paging_memtype_t) : entries * bool :=
  if length =? 0 then (t, true)
  else
    let '(phys, count) := page_range 64 phys_start length in
    let virt := Z.land virt_start (wrap 64 (Z.lnot 4095)) in
    (map_loop phys virt base_flags type (Z.to_nat count) 0 t, true).

Definition zero_tables (t : entries) : entries :=
  for_ 512 (fun i t =>
    let t := store t (PML4, i) 0 in
    let t := store t (PDPT, i) 0 in
    let t := store t (PD 0, i) 0 in
    let t := store t (PD 1, i) 0 in
    let t := store t (PD 2, i) 0 in
    store t (PD 3, i) 0) t.

Definition link (L : layout) (x : table) : Z := Z.lor (Z.lor (address L x) PTE_P) PTE_RW.

Definition fill_tables (L : layout) (t : entries) : entries :=
  for_ 4 (fun gb t => for_ 512 (fun pt_index t =>
    let t := store t (PD gb, pt_index) (link L (PT gb pt_index)) in
    let base_phys := (gb *[64] 1073741824) +[64] (pt_index *[64] 2097152) in
    for_ 512 (fun e t =>
      let phys := base_phys +[64] (e *[64] 4096) in
      store t (PT gb pt_index, e) (Z.lor (Z.lor phys PTE_P) PTE_RW)) t) t) t.

Definition amd64_map_identity_low_4g (L : layout) (s : Paging) : Paging :=
  if done_ s then s
  else
    let t := zero_tables (entry s) in
    let t := store t (PML4, 0) (link L PDPT) in
    let t := store t (PDPT, 0) (link L (PD 0)) in
    let t := store t (PDPT, 1) (link L (PD 1)) in
    let t := store t (PDPT, 2) (link L (PD 2)) in
    let t := store t (PDPT, 3) (link L (PD 3)) in
    let t := fill_tables L t in
    let t := (arch_paging_set_memtype t 4273995776 4096 ARCH_PAGING_MT_UC).1 in
    let t := (arch_paging_set_memtype t 4276092928 4096 ARCH_PAGING_MT_UC).1 in
    mkPaging t (address L PML4) true.

End Amd64.

(** ** i386 *)

Module I386.

(** A page table entry: one field per bit field of the structure *)
Record PTE := mkPTE {
  present : Z; rw : Z; user : Z; write_through : Z; cache_disabled : Z; accessed : Z; dirty : Z; pat : Z; global : Z; available : Z; frame : Z
}.
Record PDE := mkPDE {
  pd_present : Z; pd_rw : Z; pd_user : Z; pd_write_through : Z; pd_cache_disabled : Z; pd_accessed : Z; pd_zero_or_dirty : Z;
  pd_page_size : Z; pd_ignored_or_global : Z; pd_available : Z; pd_frame : Z
}.

(** [page_tables[dir][tbl]] and [page_directory[dir]] *)
Definition page_tables := (Z * Z)%type -> PTE.
Definition page_directory := Z -> PDE.

(** A value stored in a bit field of [n] bits keeps its low bits. *)
Definition paging_init (addr_page_tables : Z) (s : page_directory * page_tables) : page_directory * page_tables :=
  for_ 1024 (fun dir_id '(d, t) =>
    let d := store d dir_id (mkPDE 1 1 0 0 0 0 0 0 0 0 (wrap 20 (Z.shiftr (wrap 32 (addr_page_tables + dir_id * 4096)) 12))) in
    let t := for_ 1024 (fun table_id t =>
      store t (dir_id, table_id) (mkPTE 1 1 0 0 0 0 0 0 0 0 (wrap 20 ((dir_id *[32] 1024) +[32] table_id)))) t in
    (d, t)) s.

Definition __pte_from_virt (vaddr : Z) : Z * Z :=
  (Z.land (Z.shiftr vaddr 22) 1023, Z.land (Z.shiftr vaddr 12) 1023).

Definition arch_paging_get_memtype (t : page_tables) (virt_addr : Z) : arch_paging_memtype_t :=
  let pte := t (__pte_from_virt virt_addr) in
  if present pte =? 0 then ARCH_PAGING_MT_UC
  else memtype_of_bits (negb (pat pte =? 0)) (negb (cache_disabled pte =? 0)) (negb (write_through pte =? 0)).

Definition set_cache (e : PTE) (pwt pcd pt : Z) : PTE :=
  mkPTE (present e) (rw e) (user e) pwt pcd (accessed e) (dirty e) pt (global e) (available e) (frame e).

Definition __apply_type_to_pte (type : arch_paging_memtype_t) (pte : PTE) : PTE :=
  match type with
  | ARCH_PAGING_MT_WB => set_cache pte 0 0 0
  | ARCH_PAGING_MT_WT => set_cache pte 1 0 0
  | ARCH_PAGING_MT_UC => set_cache pte 1 1 0
  | ARCH_PAGING_MT_UC_MINUS => set_cache pte 0 1 0
  | ARCH_PAGING_MT_WC => set_cache pte 0 0 1
  | ARCH_PAGING_MT_WP => set_cache pte 1 0 1
  end.

Definition arch_paging_set_memtype (t : page_tables) (phys_start length : Z) (type : arch_paging_memtype_t) : page_tables * bool :=
  if length =? 0 then (t, true)
  else
    let '(start, count) := page_range 32 phys_start length in
    let '(t, changed) := set_memtype_loop 32 __pte_from_virt (fun pte => negb (present pte =? 0)) (__apply_type_to_pte type) start (Z.to_nat count) 0 0 t in
    (t, changed =? count).

Fixpoint map_loop (phys virt : Z) (type : arch_paging_memtype_t) (n : nat) (i : Z) (t : page_tables) : page_tables * bool :=
  match n with
  | O => (t, true)
  | S n =>
      let p := phys +[32] (i *[32] 4096) in
      let v := virt +[32] (i *[32] 4096) in
      let pte := __pte_from_virt v in
      if (present (t pte) =? 0) || negb (frame (t pte) =? Z.shiftr p 12) then (t, false)
      else map_loop phys virt type n (i + 1) (store t pte (__apply_type_to_pte type (t pte)))
  end.

Definition arch_paging_map_with_type (t : page_tables) (phys_start virt_start length base_flags : Z) (type : arch_paging_memtype_t) : page_tables * bool :=
  if length =? 0 then (t, true)
  else
    let '(phys, count) := page_range 32 phys_start length in
    let virt := Z.land virt_start (wrap 32 (Z.lnot 4095)) in
    map_loop phys virt type (Z.to_nat count) 0 t.

End I386.
