(* ===== verification/PagingSpec.v ===== *)
(** * Translations and memory types of the page tables

    A page walk of the processor over the static tables, the identity map
    after start-up, and the effect of a change of memory types: the pages of
    the range select the PAT field of the requested type, every other entry
    and every translation stays. *)

From S2P Require Import Prelude Bits Mtrr Paging.

(** ** Ranges of pages *)

Definition first_page (phys_start : Z) : Z := phys_start / 4096.
Definition end_page (phys_start length : Z) : Z := (phys_start + length + 4095) / 4096.

Lemma page_range_spec `{A : Arch} phys_start length : 0 <= phys_start < 2 ^ size_bits -> 0 < length ->
  4096 * end_page phys_start length <= 2 ^ size_bits -> 4096 * (end_page phys_start length - first_page phys_start) < 2 ^ size_bits ->
  page_range size_bits phys_start length = (4096 * first_page phys_start, end_page phys_start length - first_page phys_start).
Proof.
  intros Hp Hl He Hd. unfold page_range, first_page, end_page in *.
  pose proof (Z.div_mod phys_start 4096). pose proof (Z.div_mod (phys_start + length + 4095) 4096).
  replace (phys_start + length + 4096 - 1) with (phys_start + length + 4095) by lia.
  f_equal; [rewrite page_down; lia|]. rewrite page_end by lia.
  replace (_ - _ - _) with ((((phys_start + length + 4095) / 4096) - phys_start / 4096) * 4096) by lia. apply Z.div_mul. lia.
Qed.

Section Loop.
Context {K E : Type} `{EqDecision K} (w N : Z) (get : Z -> K) (present : E -> bool) (apply : E -> E).
Hypothesis get_inj : forall p q, 0 <= p < N -> 0 <= q < N -> get (4096 * p) = get (4096 * q) -> p = q.
Hypothesis pages_fit : 4096 * N <= 2 ^ w.

Lemma store_same (t : K -> E) k e : store t k e k = e.
Proof. unfold store. now rewrite decide_True. Qed.

Lemma store_other (t : K -> E) k e x : x <> k -> store t k e x = t x.
Proof. intros. unfold store. now rewrite decide_False. Qed.

(** The entry of page [p] after a loop over [n] pages from [first] *)
Definition retyped (first n p : Z) (e : E) : E := if bool_decide (first <= p < first + n) && present e then apply e else e.

Lemma retyped_later first n p e : p <> first -> 0 <= n -> retyped (first + 1) n p e = retyped first (n + 1) p e.
Proof. intros. unfold retyped. repeat case_bool_decide; try reflexivity; lia. Qed.

Lemma set_memtype_loop_spec first : 0 <= first -> forall n i c t, 0 <= i -> first + i + Z.of_nat n <= N -> 4096 * (i + Z.of_nat n) < 2 ^ w ->
  let r := set_memtype_loop w get present apply (4096 * first) n i c t in
  (forall p, 0 <= p < N -> r.1 (get (4096 * p)) = retyped (first + i) (Z.of_nat n) p (t (get (4096 * p)))) /\
  (forall k, (forall p, 0 <= p < N -> k <> get (4096 * p)) -> r.1 k = t k) /\
  r.2 <= c + Z.of_nat n /\
  (r.2 = c + Z.of_nat n <-> forall p, first + i <= p < first + i + Z.of_nat n -> present (t (get (4096 * p))) = true).
Proof.
  intros Hf.
  induction n as [|n IH]; intros i c t Hi Hn Hn'; cbn [set_memtype_loop].
  { cbn. unfold retyped. repeat split; try lia. intros p Hp. now rewrite bool_decide_eq_false_2 by lia. }
  rewrite (wrap_small w (i * 4096)), (wrap_small w) by lia. replace (4096 * first + i * 4096) with (4096 * (first + i)) by lia.
  set (k := get (4096 * (first + i))). replace (Z.of_nat (S n)) with (Z.of_nat n + 1) by lia.
  assert (Hne : forall p, 0 <= p < N -> p <> first + i -> get (4096 * p) <> k) by (intros p Hp Hq E'; apply Hq, get_inj; [lia|lia|exact E']).
  destruct (present (t k)) eqn:Ep; cbn [negb].
  - destruct (IH (i + 1) (c + 1) (store t k (apply (t k)))) as (H1 & H2 & H3 & H4); [lia..|].
    replace (first + (i + 1)) with (first + i + 1) in * by lia. split; [|split; [|split; [lia|]]].
    + intros p Hp. rewrite H1 by assumption. destruct (decide (p = first + i)) as [->|Hq].
      * fold k. rewrite store_same. unfold retyped. rewrite bool_decide_eq_false_2, bool_decide_eq_true_2, Ep by lia. reflexivity.
      * rewrite store_other by now apply Hne. apply retyped_later; lia.
    + intros x Hx. rewrite H2 by assumption. apply store_other, Hx. lia.
    + rewrite Z.add_assoc, <- (Z.add_assoc c), (Z.add_comm (Z.of_nat n)), Z.add_assoc, H4. split; intros H p Hp.
      * destruct (decide (p = first + i)) as [->|Hq]; [exact Ep|]. rewrite <- (H p) by lia. now rewrite store_other by (apply Hne; lia).
      * rewrite store_other by (apply Hne; lia). apply H. lia.
  - destruct (IH (i + 1) c t) as (H1 & H2 & H3 & H4); [lia..|]. replace (first + (i + 1)) with (first + i + 1) in * by lia. split; [|split; [|split; [lia|]]].
    + intros p Hp. rewrite H1 by assumption. destruct (decide (p = first + i)) as [->|Hq]; [|apply retyped_later; lia].
      fold k. unfold retyped. now rewrite Ep, !andb_false_r.
    + exact H2.
    + split; [lia|]. intros H. specialize (H (first + i) ltac:(lia)). fold k in H. congruence.
Qed.

End Loop.

(** ** Counting loops

    What a loop leaves at one place [obs] of its state. *)

Lemma for_keeps {S X} (obs : S -> X) n body s : (forall i s, 0 <= i < n -> obs (body i s) = obs s) -> obs (for_ n body s) = obs s.
Proof.
  unfold for_. destruct (Z.le_gt_cases 0 n) as [Hn|Hn]; [|rewrite seqZ_nil by lia; reflexivity].
  replace n with (Z.of_nat (Z.to_nat n)) by lia. induction (Z.to_nat n) as [|m IH]; intros H; [reflexivity|].
  rewrite seqZ_S, foldl_app. cbn. rewrite H by lia. apply IH. intros. apply H. lia.
Qed.

Lemma for_sets {S X} (obs : S -> X) n body s j v : 0 <= j < n -> (forall s, obs (body j s) = v) ->
  (forall i s, 0 <= i < n -> i <> j -> obs (body i s) = obs s) -> obs (for_ n body s) = v.
Proof.
  intros Hj Hv. unfold for_. replace n with (Z.of_nat (Z.to_nat n)) in * by lia. induction (Z.to_nat n) as [|m IH]; intros H; [lia|].
  rewrite seqZ_S, foldl_app. cbn. destruct (decide (j = Z.of_nat m)) as [->|]; [apply Hv|].
  rewrite H by lia. apply IH; [lia|]. intros. apply H; lia.
Qed.

(** ** Memory types *)

(** PAT, PCD and PWT of a type, and its encoding in a field of the PAT register *)
Definition type_bits (type : arch_paging_memtype_t) : bool * bool * bool :=
  match type with
  | ARCH_PAGING_MT_WB => (false, false, false)
  | ARCH_PAGING_MT_WT => (false, false, true)
  | ARCH_PAGING_MT_UC => (false, true, true)
  | ARCH_PAGING_MT_UC_MINUS => (false, true, false)
  | ARCH_PAGING_MT_WC => (true, false, false)
  | ARCH_PAGING_MT_WP => (true, false, true)
  end.
Definition type_code (type : arch_paging_memtype_t) : Z :=
  match type with
  | ARCH_PAGING_MT_WB => 6 | ARCH_PAGING_MT_WT => 4 | ARCH_PAGING_MT_UC => 0
  | ARCH_PAGING_MT_UC_MINUS => 7 | ARCH_PAGING_MT_WC => 1 | ARCH_PAGING_MT_WP => 5
  end.

Lemma memtype_of_type_bits type : let '(pat, pcd, pwt) := type_bits type in memtype_of_bits pat pcd pwt = type.
Proof. now destruct type. Qed.

(** Field [i] of the PAT register, and the type code the processor takes for an entry *)
Definition pat_field (p i : Z) : Z := Z.land (Z.shiftr p (8 * i)) 255.
Definition pat_select (p : Z) (pat pcd pwt : bool) : Z := pat_field p (4 * Z.b2z pat + 2 * Z.b2z pcd + Z.b2z pwt).

Lemma pat_field_set p i j v : 0 <= i < 8 -> 0 <= j < 8 -> 0 <= v < 256 -> pat_field (pat_set_entry p i v) j = if j =? i then v else pat_field p j.
Proof.
  intros Hi Hj Hv. apply Z.bits_inj'. intros n Hn. unfold pat_field, pat_set_entry. change 255 with (2 ^ 8 - 1).
  rewrite Z.land_spec, Z.shiftr_spec, Z.lor_spec, Z.land_spec, testbit_wrap, Z.lnot_spec, !Z.shiftl_spec, (testbit_pred 8 n) by lia.
  destruct (Z.ltb_spec n 8) as [Hn8|Hn8].
  - destruct (Z.ltb_spec (n + 8 * j) 64) as [_|]; [|lia]. destruct (Z.eqb_spec j i) as [->|Hji].
    + replace (n + 8 * i - i * 8) with n by lia. rewrite testbit_pred, (proj2 (Z.ltb_lt n 8)) by lia. cbn. now rewrite andb_false_r, andb_true_r.
    + rewrite Z.land_spec, Z.shiftr_spec, (testbit_pred 8 n), (proj2 (Z.ltb_lt n 8)) by lia.
      assert (H0 : forall x, 0 <= x < 2 ^ 8 -> Z.testbit x (n + 8 * j - i * 8) = false).
      { intros x Hx. destruct (Z.lt_ge_cases (n + 8 * j - i * 8) 0); [now apply Z.testbit_neg_r|apply (bits_below 8); lia]. }
      rewrite !H0 by lia. cbn. now rewrite andb_true_r, orb_false_r.
  - rewrite andb_false_r. destruct (Z.eqb_spec j i); [now rewrite (bits_below 8)|]. rewrite Z.land_spec, testbit_pred, (proj2 (Z.ltb_ge n 8)) by lia. now rewrite andb_false_r.
Qed.

(** Once the PAT register is set up, the bits of a type select the code of the type. *)
Lemma pat_init_selects cpuid p p' type : g_pat_initialized p = false -> arch_paging_pat_init cpuid p = (p', true) ->
  let '(pat, pcd, pwt) := type_bits type in pat_select (pat_msr p') pat pcd pwt = type_code type.
Proof.
  unfold arch_paging_pat_init. intros -> H. destruct (negb (negb _)); [discriminate|]. injection H as <-. cbn [pat_msr].
  destruct type; cbn [type_bits type_code]; unfold pat_select; cbn [Z.b2z Z.mul Z.add]; rewrite !pat_field_set by lia; reflexivity.
Qed.

(** ** amd64 *)

Module Amd64Spec.
Import Amd64.

Lemma pte_of_page p : 0 <= p < 2 ^ 20 -> __get_pte (4096 * p) = (PT (p / 2 ^ 18) (p / 2 ^ 9 mod 2 ^ 9), p mod 2 ^ 9).
Proof.
  intros Hp. unfold __get_pte. rewrite !Z.shiftr_div_pow2 by lia. change 3 with (2 ^ 2 - 1). change 511 with (2 ^ 9 - 1). rewrite !land_pred by lia.
  change (2 ^ 30) with (4096 * 2 ^ 18). change (2 ^ 21) with (4096 * 2 ^ 9). change (2 ^ 12) with 4096.
  rewrite !Z.div_mul_cancel_l by lia. rewrite (Z.mul_comm 4096 p), Z.div_mul by lia. rewrite (Z.mod_small (p / 2 ^ 18)); [reflexivity|].
  split; [apply Z.div_pos; lia|apply Z.div_lt_upper_bound; lia].
Qed.

Lemma pte_of_address va : __get_pte va = __get_pte (4096 * (va / 4096)).
Proof.
  unfold __get_pte. rewrite !Z.shiftr_div_pow2 by lia. change (2 ^ 30) with (4096 * 2 ^ 18). change (2 ^ 21) with (4096 * 2 ^ 9). change (2 ^ 12) with 4096.
  rewrite !Z.div_mul_cancel_l by lia. rewrite !Z.div_div by lia. now rewrite (Z.mul_comm 4096 (va / 4096)), Z.div_mul by lia.
Qed.

Lemma pte_inj p q : 0 <= p < 2 ^ 20 -> 0 <= q < 2 ^ 20 -> __get_pte (4096 * p) = __get_pte (4096 * q) -> p = q.
Proof.
  intros Hp Hq. rewrite !pte_of_page by assumption. intros [= E1 E2 E3].
  pose proof (Z.div_mod p (2 ^ 9)). pose proof (Z.div_mod q (2 ^ 9)). pose proof (Z.div_mod (p / 2 ^ 9) (2 ^ 9)). pose proof (Z.div_mod (q / 2 ^ 9) (2 ^ 9)).
  rewrite !Z.div_div in * by lia. change (2 ^ 9 * 2 ^ 9) with (2 ^ 18) in *. lia.
Qed.

(** *** The page walk *)

Definition all_tables : list table :=
  PML4 :: PDPT :: map PD (seqZ 0 4) ++ flat_map (fun gb => map (PT gb) (seqZ 0 512)) (seqZ 0 4).

Definition table_at (L : layout) (a : Z) : option table := List.find (fun x => address L x =? a) all_tables.

(** The address bits 12 to 51 of an entry *)
Definition target (e : Z) : Z := Z.land e (2 ^ 52 - 2 ^ 12).

Definition descend (L : layout) (t : entries) (x : table) (i : Z) : option Z :=
  let e := t (x, i) in if Z.testbit e 0 then Some e else None.

(** Four levels of 512 entries; an entry with bit 7 set at the second or third level maps a large page. *)
Definition walk (L : layout) (s : Paging) (va : Z) : option Z :=
  t4 ← table_at L (cr3 s);
  e4 ← descend L (entry s) t4 (va / 2 ^ 39 mod 512);
  t3 ← table_at L (target e4);
  e3 ← descend L (entry s) t3 (va / 2 ^ 30 mod 512);
  if Z.testbit e3 7 then Some (Z.land e3 (2 ^ 52 - 2 ^ 30) + va mod 2 ^ 30)
  else
    t2 ← table_at L (target e3);
    e2 ← descend L (entry s) t2 (va / 2 ^ 21 mod 512);
    if Z.testbit e2 7 then Some (Z.land e2 (2 ^ 52 - 2 ^ 21) + va mod 2 ^ 21)
    else
      t1 ← table_at L (target e2);
      e1 ← descend L (entry s) t1 (va / 2 ^ 12 mod 512);
      Some (target e1 + va mod 2 ^ 12).

(** The static arrays are page aligned, apart from each other and below 2^52. *)
Record layout_ok (L : layout) : Prop := {
  lay_aligned : forall x, x ∈ all_tables -> address L x mod 4096 = 0;
  lay_bound : forall x, x ∈ all_tables -> 0 <= address L x < 2 ^ 52;
  lay_apart : forall x y, x ∈ all_tables -> y ∈ all_tables -> address L x = address L y -> x = y
}.

Lemma table_at_address L x : layout_ok L -> x ∈ all_tables -> table_at L (address L x) = Some x.
Proof.
  intros HL Hx. unfold table_at. pose proof (fun y Hy => lay_apart L HL y x Hy Hx) as Hu. clear HL.
  induction all_tables as [|y l IH]; [now apply not_elem_of_nil in Hx|]. cbn. destruct (Z.eqb_spec (address L y) (address L x)) as [E|E].
  - f_equal. apply Hu; [constructor|exact E].
  - apply IH; [|intros z Hz; apply Hu; now constructor]. apply elem_of_cons in Hx as [->|]; [now destruct E|assumption].
Qed.

Lemma elem_PD gb : 0 <= gb < 4 -> PD gb ∈ all_tables.
Proof. intros H. right. right. apply elem_of_app. left. apply list_elem_of_In, in_map, list_elem_of_In, elem_of_seqZ. lia. Qed.

Lemma elem_PT gb i : 0 <= gb < 4 -> 0 <= i < 512 -> PT gb i ∈ all_tables.
Proof.
  intros H Hi. right. right. apply elem_of_app. right. apply list_elem_of_In, in_flat_map. exists gb.
  split; [apply list_elem_of_In, elem_of_seqZ; lia|]. apply in_map, list_elem_of_In, elem_of_seqZ. lia.
Qed.

(** An entry that holds an aligned address, present and writable *)
Lemma testbit_pow2_diff a b i : 0 <= a <= b -> 0 <= i -> Z.testbit (2 ^ b - 2 ^ a) i = (a <=? i) && (i <? b).
Proof.
  intros Hab Hi. replace (2 ^ b - 2 ^ a) with (Z.shiftl (2 ^ (b - a) - 1) a).
  - rewrite Z.shiftl_spec by lia. destruct (Z.leb_spec a i); [|now rewrite Z.testbit_neg_r by lia].
    rewrite testbit_pred by lia. cbn. destruct (Z.ltb_spec (i - a) (b - a)), (Z.ltb_spec i b); (reflexivity || lia).
  - rewrite Z.shiftl_mul_pow2, Z.mul_sub_distr_r, <- Z.pow_add_r by lia. f_equal; [f_equal; lia|lia].
Qed.

Lemma low_bits_clear a i : a mod 2 ^ 12 = 0 -> 0 <= i < 12 -> Z.testbit a i = false.
Proof. intros Ha Hi. rewrite <- (Z.mod_pow2_bits_low a 12 i) by lia. rewrite Ha. apply Z.bits_0. Qed.

Lemma mapped_entry a : a mod 2 ^ 12 = 0 -> 0 <= a < 2 ^ 52 -> let e := Z.lor (Z.lor a PTE_P) PTE_RW in
  target e = a /\ forall i, 0 <= i < 12 -> Z.testbit e i = (i <? 2).
Proof.
  intros Ha Hb e. assert (He : forall i, 0 <= i -> Z.testbit e i = Z.testbit a i || (i <? 2)).
  { intros i Hi. unfold e, PTE_P, PTE_RW. rewrite !testbit_lor_pow2 by lia. destruct (Z.eqb_spec 0 i), (Z.eqb_spec 1 i), (Z.ltb_spec i 2); cbn; try lia; now rewrite ?orb_true_r, ?orb_false_r. }
  split.
  - unfold target. apply Z.bits_inj'. intros i Hi. rewrite Z.land_spec, He, testbit_pow2_diff by lia.
    destruct (Z.leb_spec 12 i).
    + rewrite (proj2 (Z.ltb_ge i 2)), orb_false_r by lia. destruct (Z.ltb_spec i 52); cbn; [apply andb_true_r|]. now rewrite (bits_below 52), andb_false_r.
    + now rewrite low_bits_clear, andb_false_r by lia.
  - intros i Hi. rewrite He, low_bits_clear by lia. reflexivity.
Qed.

(** *** Types of entries *)

Lemma flag_bit e k : 0 <= k -> flag e (2 ^ k) = Z.testbit e k.
Proof. intros. unfold flag. now rewrite bit_free, negb_involutive. Qed.

Lemma apply_bits type e i : 0 <= i -> Z.testbit (__apply_type_to_pte type e) i =
  let '(pat, pcd, pwt) := type_bits type in
  if i =? 3 then pwt else if i =? 4 then pcd else if i =? 7 then pat else Z.testbit e i && (i <? 64).
Proof.
  intros Hi. assert (Hc : Z.testbit (clear_bits e (Z.lor (Z.lor PTE_PWT PTE_PCD) PTE_PAT)) i = Z.testbit e i && (i <? 64) && negb ((i =? 3) || (i =? 4) || (i =? 7))).
  { unfold clear_bits, PTE_PWT, PTE_PCD, PTE_PAT. rewrite Z.land_spec, testbit_wrap, Z.lnot_spec, !testbit_lor_pow2, Z.pow2_bits_eqb by lia.
    now rewrite !(Z.eqb_sym _ i), andb_assoc. }
  destruct type; cbn [type_bits __apply_type_to_pte]; unfold PTE_PWT, PTE_PCD, PTE_PAT in *; rewrite ?Z.lor_assoc, ?testbit_lor_pow2, Hc by lia; rewrite ?(Z.eqb_sym _ i).
  all: destruct (Z.eqb_spec i 3), (Z.eqb_spec i 4), (Z.eqb_spec i 7); try lia; cbn; now rewrite ?andb_true_r, ?andb_false_r, ?orb_false_r, ?orb_true_r.
Qed.

Lemma apply_target type e : target (__apply_type_to_pte type e) = target e.
Proof.
  unfold target. apply Z.bits_inj'. intros i Hi. rewrite !Z.land_spec, apply_bits, testbit_pow2_diff by lia.
  destruct (type_bits type) as [[? ?] ?]. destruct (Z.leb_spec 12 i); [|now rewrite !andb_false_r].
  rewrite !(proj2 (Z.eqb_neq i _)) by lia. destruct (Z.ltb_spec i 52); [|now rewrite !andb_false_r]. rewrite (proj2 (Z.ltb_lt i 64)) by lia. now rewrite andb_true_r.
Qed.

Lemma apply_present type e : Z.testbit (__apply_type_to_pte type e) 0 = Z.testbit e 0.
Proof. rewrite apply_bits by lia. destruct (type_bits type) as [[? ?] ?]. cbn. apply andb_true_r. Qed.

(** The type code of a page: the PAT field its entry selects *)
Definition page_code (p : Z) (e : Z) : Z := pat_select p (Z.testbit e 7) (Z.testbit e 4) (Z.testbit e 3).

Lemma get_memtype_bits t va : Z.testbit (t (__get_pte va)) 0 = true ->
  arch_paging_get_memtype t va = let e := t (__get_pte va) in memtype_of_bits (Z.testbit e 7) (Z.testbit e 4) (Z.testbit e 3).
Proof. intros H. unfold arch_paging_get_memtype, PTE_P, PTE_PAT, PTE_PCD, PTE_PWT. now rewrite !flag_bit, H by lia. Qed.

Lemma set_memtype_entries t phys_start len type : 0 <= phys_start -> 0 < len -> end_page phys_start len <= 2 ^ 20 ->
  let r := arch_paging_set_memtype t phys_start len type in let present e := flag e PTE_P in
  (forall p, 0 <= p < 2 ^ 20 -> r.1 (__get_pte (4096 * p)) =
     retyped present (__apply_type_to_pte type) (first_page phys_start) (end_page phys_start len - first_page phys_start) p (t (__get_pte (4096 * p)))) /\
  (forall k, (forall p, 0 <= p < 2 ^ 20 -> k <> __get_pte (4096 * p)) -> r.1 k = t k) /\
  (r.2 = true <-> forall p, first_page phys_start <= p < end_page phys_start len -> present (t (__get_pte (4096 * p))) = true).
Proof.
  intros Hp Hl He. unfold arch_paging_set_memtype. rewrite (proj2 (Z.eqb_neq len 0)) by lia.
  assert (Hlt : phys_start < 2 ^ 32) by (unfold end_page in He; pose proof (Z.div_mod (phys_start + len + 4095) 4096); pose proof (Z.mod_pos_bound (phys_start + len + 4095) 4096); lia).
  assert (0 <= first_page phys_start < end_page phys_start len).
  { unfold first_page, end_page. split; [apply Z.div_pos; lia|]. pose proof (Z.div_mod phys_start 4096). pose proof (Z.div_mod (phys_start + len + 4095) 4096).
    pose proof (Z.mod_pos_bound phys_start 4096). pose proof (Z.mod_pos_bound (phys_start + len + 4095) 4096). lia. }
  pose proof (@page_range_spec AMD64 phys_start len) as Hr. cbn [size_bits] in Hr. change (@size_bits AMD64) with 64 in Hr. rewrite Hr by lia.
  set (n := end_page phys_start len - first_page phys_start) in *.
  destruct (set_memtype_loop_spec 64 (2 ^ 20) __get_pte (fun e => flag e PTE_P) (__apply_type_to_pte type) pte_inj ltac:(lia) (first_page phys_start) ltac:(lia) (Z.to_nat n) 0 0 t) as (H1 & H2 & H3 & H4); [lia..|].
  rewrite Z2Nat.id, Z.add_0_r in * by lia. destruct (set_memtype_loop _ _ _ _ _ _ _ _ _) as [t' c]. cbn [fst snd] in *.
  split; [exact H1|]. split; [exact H2|]. rewrite Z.eqb_eq. rewrite Z.add_0_l in H4. rewrite H4. unfold n. now replace (first_page phys_start + (end_page phys_start len - first_page phys_start)) with (end_page phys_start len) by lia.
Qed.

(** *** The identity map *)

(** The upper tables link the lower ones, and the entry of page [p] is present and holds the address of page [p]. *)
Record identity (L : layout) (s : Paging) : Prop := {
  id_cr3 : cr3 s = address L PML4;
  id_pml4 : entry s (PML4, 0) = link L PDPT;
  id_pml4_rest : forall i, 0 < i < 512 -> entry s (PML4, i) = 0;
  id_pdpt : forall gb, 0 <= gb < 4 -> entry s (PDPT, gb) = link L (PD gb);
  id_pdpt_rest : forall i, 4 <= i < 512 -> entry s (PDPT, i) = 0;
  id_pd : forall gb i, 0 <= gb < 4 -> 0 <= i < 512 -> entry s (PD gb, i) = link L (PT gb i);
  id_page : forall p, 0 <= p < 2 ^ 20 -> Z.testbit (entry s (__get_pte (4096 * p))) 0 = true /\ target (entry s (__get_pte (4096 * p))) = 4096 * p
}.

Lemma follow_link L x : layout_ok L -> x ∈ all_tables ->
  Z.testbit (link L x) 0 = true /\ Z.testbit (link L x) 7 = false /\ table_at L (target (link L x)) = Some x.
Proof.
  intros HL Hx. destruct (mapped_entry (address L x)) as [Ht Hb]; [apply (lay_aligned L HL x Hx)|apply (lay_bound L HL x Hx)|].
  unfold link. rewrite Ht, !Hb by lia. split; [reflexivity|]. split; [reflexivity|]. now apply table_at_address.
Qed.

Lemma walk_identity L s va : layout_ok L -> identity L s -> 0 <= va < 2 ^ 48 -> walk L s va = if va <? 2 ^ 32 then Some va else None.
Proof.
  intros HL HI Hva. unfold walk. rewrite (id_cr3 _ _ HI), table_at_address by (assumption || constructor). cbn [mbind option_bind]. unfold descend.
  assert (H39 : 0 <= va / 2 ^ 39 < 512) by (split; [apply Z.div_pos; lia|apply Z.div_lt_upper_bound; lia]). rewrite (Z.mod_small (va / 2 ^ 39)) by assumption.
  destruct (decide (va / 2 ^ 39 = 0)) as [E0|E0].
  2: { rewrite (id_pml4_rest _ _ HI) by lia. rewrite Z.bits_0. cbn. destruct (Z.ltb_spec va (2 ^ 32)); [|reflexivity]. destruct E0. apply Z.div_small. lia. }
  rewrite E0, (id_pml4 _ _ HI). destruct (follow_link L PDPT HL) as (-> & _ & Hpdpt); [right; constructor|]. cbn [mbind option_bind]. rewrite Hpdpt. cbn [mbind option_bind].
  assert (va < 2 ^ 39) by (apply Z.div_small_iff in E0; lia).
  assert (H30 : 0 <= va / 2 ^ 30 < 512) by (split; [apply Z.div_pos; lia|apply Z.div_lt_upper_bound; lia]). rewrite (Z.mod_small (va / 2 ^ 30)) by assumption.
  destruct (Z.ltb_spec va (2 ^ 32)) as [Hlow|Hhigh].
  2: { rewrite (id_pdpt_rest _ _ HI) by (split; [apply Z.div_le_lower_bound; lia|apply Z.div_lt_upper_bound; lia]). now rewrite Z.bits_0. }
  assert (Hgb : 0 <= va / 2 ^ 30 < 4) by (split; [apply Z.div_pos; lia|apply Z.div_lt_upper_bound; lia]).
  rewrite (id_pdpt _ _ HI) by assumption. destruct (follow_link L (PD (va / 2 ^ 30)) HL) as (Hpr & Hps & Hpd); [now apply elem_PD|].
  rewrite Hpr. cbn [mbind option_bind]. rewrite Hps, Hpd. clear Hpr Hps. cbn [mbind option_bind]. pose proof (Z.mod_pos_bound (va / 2 ^ 21) 512 ltac:(lia)) as Hi.
  rewrite (id_pd _ _ HI) by assumption. destruct (follow_link L (PT (va / 2 ^ 30) (va / 2 ^ 21 mod 512)) HL) as (Hpr & Hps & Hpt); [now apply elem_PT|].
  rewrite Hpr. cbn [mbind option_bind]. rewrite Hps, Hpt. clear Hpr Hps. cbn [mbind option_bind].
  assert (Hp : 0 <= va / 4096 < 2 ^ 20) by (split; [apply Z.div_pos; lia|apply Z.div_lt_upper_bound; lia]).
  destruct (id_page _ _ HI (va / 4096) Hp) as [Hpr Ht]. rewrite pte_of_page in Hpr, Ht by assumption. rewrite !Z.div_div in Hpr, Ht by lia.
  change (4096 * 2 ^ 18) with (2 ^ 30) in *. change (4096 * 2 ^ 9) with (2 ^ 21) in *. change (2 ^ 12) with 4096. change (2 ^ 9) with 512 in *.
  rewrite Hpr. cbn [mbind option_bind]. rewrite Ht. f_equal. pose proof (Z.div_mod va 4096). lia.
Qed.

Lemma not_page_upper x i p : 0 <= p < 2 ^ 20 -> match x with PT _ _ => False | _ => True end -> (x, i) <> __get_pte (4096 * p).
Proof. intros Hp Hx. rewrite pte_of_page by assumption. intros [= -> _]. exact Hx. Qed.

(** A change of memory types keeps the map. *)
Lemma set_memtype_identity L t cr dn phys_start len type : 0 <= phys_start -> 0 < len -> end_page phys_start len <= 2 ^ 20 ->
  identity L (mkPaging t cr dn) -> identity L (mkPaging (arch_paging_set_memtype t phys_start len type).1 cr dn).
Proof.
  intros Hp Hl He [? ? ? ? ? ? Hid]. cbn [entry cr3] in *. destruct (set_memtype_entries t phys_start len type Hp Hl He) as (H1 & H2 & _).
  constructor; cbn [entry cr3]; try (intros; rewrite H2 by (intros; now apply not_page_upper); auto); [assumption|].
  intros p Hpp. rewrite H1 by assumption. unfold retyped. destruct (_ && _); [rewrite apply_present, apply_target|]; now apply Hid.
Qed.

(** *** Start-up *)

Lemma fill_upper L t x i : match x with PML4 | PDPT => True | _ => False end -> fill_tables L t (x, i) = t (x, i).
Proof.
  intros Hx. unfold fill_tables. apply (for_keeps (fun t : entries => t (x, i))). intros gb s _.
  apply (for_keeps (fun t : entries => t (x, i))). intros j s' _.
  etransitivity; [apply (for_keeps (fun t : entries => t (x, i))); intros e s'' _; apply store_other; now destruct x|].
  apply store_other. now destruct x.
Qed.

Lemma fill_pd L t gb i : 0 <= gb < 4 -> 0 <= i < 512 -> fill_tables L t (PD gb, i) = link L (PT gb i).
Proof.
  intros Hg Hi. set (obs := fun t : entries => t (PD gb, i)). unfold fill_tables. match goal with |- ?x _ = ?v => change (obs x = v) end.
  assert (Hin : forall g j f s, obs (for_ 512 (fun e t => store t (PT g j, e) (f e)) s) = obs s).
  { intros. apply for_keeps. intros. unfold obs. now apply store_other. }
  apply (for_sets obs 4 _ _ gb); [assumption| |].
  - intros s. apply (for_sets obs 512 _ _ i); [assumption| |]; intros; cbv zeta; rewrite Hin; unfold obs; [apply store_same|apply store_other; congruence].
  - intros g s _ Hne. apply for_keeps. intros. cbv zeta. rewrite Hin. unfold obs. apply store_other. congruence.
Qed.

Lemma fill_pt L t gb i e : 0 <= gb < 4 -> 0 <= i < 512 -> 0 <= e < 512 ->
  fill_tables L t (PT gb i, e) = Z.lor (Z.lor (gb * 2 ^ 30 + i * 2 ^ 21 + e * 2 ^ 12) PTE_P) PTE_RW.
Proof.
  intros Hg Hi He. set (obs := fun t : entries => t (PT gb i, e)). unfold fill_tables. match goal with |- ?x _ = ?v => change (obs x = v) end.
  assert (Hother : forall g j f s, (g, j) <> (gb, i) -> obs (for_ 512 (fun e t => store t (PT g j, e) (f e)) s) = obs s).
  { intros. apply for_keeps. intros. unfold obs. apply store_other. congruence. }
  apply (for_sets obs 4 _ _ gb); [assumption| |].
  - intros s. apply (for_sets obs 512 _ _ i); [assumption| |].
    + intros s'. cbv zeta. apply (for_sets obs 512 _ _ e); [assumption| |].
      * intros s''. unfold obs. rewrite store_same. rewrite (wrap_small 64 (gb * _)), (wrap_small 64 (i * _)), (wrap_small 64 (e * _)) by lia. rewrite (wrap_small 64 (gb * _ + _)), wrap_small by lia. reflexivity.
      * intros. unfold obs. apply store_other. congruence.
    + intros. cbv zeta. rewrite Hother by congruence. unfold obs. apply store_other. congruence.
  - intros g s _ Hne. apply for_keeps. intros. cbv zeta. rewrite Hother by congruence. unfold obs. apply store_other. congruence.
Qed.

Lemma zero_upper t x i : (x = PML4 \/ x = PDPT) -> 0 <= i < 512 -> zero_tables t (x, i) = 0.
Proof.
  intros Hx Hi. unfold zero_tables. apply (for_sets (fun t : entries => t (x, i)) 512 _ _ i); [assumption| |]; intros; cbv zeta;
    (destruct Hx as [-> | ->]; rewrite ?store_other by congruence; rewrite ?store_same; try reflexivity).
  all: rewrite ?store_other by congruence; rewrite ?store_same; reflexivity.
Qed.

(** The tables before the two device pages change their type *)
Definition startup_tables (L : layout) (t : entries) : entries :=
  let t := zero_tables t in
  let t := store t (PML4, 0) (link L PDPT) in
  let t := store t (PDPT, 0) (link L (PD 0)) in
  let t := store t (PDPT, 1) (link L (PD 1)) in
  let t := store t (PDPT, 2) (link L (PD 2)) in
  let t := store t (PDPT, 3) (link L (PD 3)) in
  fill_tables L t.

Lemma startup_page L t p : 0 <= p < 2 ^ 20 -> startup_tables L t (__get_pte (4096 * p)) = Z.lor (Z.lor (4096 * p) PTE_P) PTE_RW.
Proof.
  intros Hp. rewrite pte_of_page by assumption. unfold startup_tables.
  rewrite fill_pt; [|split; [apply Z.div_pos; lia|apply Z.div_lt_upper_bound; lia]|apply Z.mod_pos_bound; lia..].
  do 2 f_equal. pose proof (Z.div_mod p (2 ^ 9)). pose proof (Z.div_mod (p / 2 ^ 9) (2 ^ 9)). rewrite Z.div_div in * by lia. change (2 ^ 9 * 2 ^ 9) with (2 ^ 18) in *. lia.
Qed.

Lemma startup_identity L t : layout_ok L -> identity L (mkPaging (startup_tables L t) (address L PML4) true).
Proof.
  intros HL. constructor; cbn [entry cr3]; [reflexivity|..]; unfold startup_tables.
  - rewrite fill_upper by exact I. now rewrite !store_other, store_same by congruence.
  - intros i Hi. rewrite fill_upper by exact I. rewrite !store_other by (intros [=]; lia). apply zero_upper; [auto|lia].
  - intros gb Hg. rewrite fill_upper by exact I. assert (gb = 0 \/ gb = 1 \/ gb = 2 \/ gb = 3) as [-> | [-> | [-> | ->]]] by lia;
      rewrite ?store_other by congruence; apply store_same.
  - intros i Hi. rewrite fill_upper by exact I. rewrite !store_other by (intros [=]; lia). apply zero_upper; [auto|lia].
  - intros. now apply fill_pd.
  - intros p Hp. fold (startup_tables L t). rewrite startup_page by assumption.
    destruct (mapped_entry (4096 * p)) as [Ht Hb]; [rewrite Z.mul_comm; apply Z.mod_mul; lia|lia|]. split; [now apply Hb|exact Ht].
Qed.

(** C25. After start-up the processor's page walk over the tables takes every address below 4 GiB to itself and faults above, whatever the tables held before; all pages are write-back but the two of the interrupt controllers, which are uncacheable. *)
Theorem amd64_identity_map L s va : layout_ok L -> done_ s = false -> 0 <= va < 2 ^ 48 ->
  let s' := amd64_map_identity_low_4g L s in
  walk L s' va = (if va <? 2 ^ 32 then Some va else None) /\
  (va < 2 ^ 32 -> arch_paging_get_memtype (entry s') va =
     if (va / 4096 =? 1043456) || (va / 4096 =? 1043968) then ARCH_PAGING_MT_UC else ARCH_PAGING_MT_WB).
Proof.
  intros HL Hd Hva. unfold amd64_map_identity_low_4g. rewrite Hd. cbv zeta. fold (startup_tables L (entry s)). set (t := startup_tables L (entry s)). cbn [entry].
  assert (Hid : identity L (mkPaging (arch_paging_set_memtype (arch_paging_set_memtype t 4273995776 4096 ARCH_PAGING_MT_UC).1 4276092928 4096 ARCH_PAGING_MT_UC).1 (address L PML4) true)).
  { apply set_memtype_identity; [lia|lia|vm_compute; congruence|]. apply set_memtype_identity; [lia|lia|vm_compute; congruence|]. now apply startup_identity. }
  split; [now apply walk_identity|]. intros Hlow. assert (Hp : 0 <= va / 4096 < 2 ^ 20) by (split; [apply Z.div_pos; lia|apply Z.div_lt_upper_bound; lia]).
  destruct (id_page _ _ Hid _ Hp) as [Hpr _]. cbn [entry] in Hpr. rewrite <- pte_of_address in Hpr. rewrite get_memtype_bits by exact Hpr. rewrite pte_of_address.
  destruct (set_memtype_entries t 4273995776 4096 ARCH_PAGING_MT_UC) as (H1 & _); [lia|lia|vm_compute; congruence|].
  destruct (set_memtype_entries (arch_paging_set_memtype t 4273995776 4096 ARCH_PAGING_MT_UC).1 4276092928 4096 ARCH_PAGING_MT_UC) as (H2 & _); [lia|lia|vm_compute; congruence|].
  rewrite H2, H1 by assumption. unfold t. rewrite startup_page by assumption. clear H1 H2.
  destruct (mapped_entry (4096 * (va / 4096))) as [_ Hb]; [rewrite Z.mul_comm; apply Z.mod_mul; lia|lia|]. cbv zeta.
  set (e := Z.lor _ PTE_RW) in *. unfold retyped.
  change (first_page 4273995776) with 1043456. change (end_page 4273995776 4096 - 1043456) with 1. change (first_page 4276092928) with 1043968. change (end_page 4276092928 4096 - 1043968) with 1.
  assert (He : flag e PTE_P = true) by (unfold PTE_P; rewrite flag_bit, Hb by lia; reflexivity).
  destruct (Z.eqb_spec (va / 4096) 1043456), (Z.eqb_spec (va / 4096) 1043968); try lia; cbn [orb].
  all: rewrite ?(bool_decide_eq_true_2 (1043456 <= va / 4096 < _)), ?(bool_decide_eq_false_2 (1043456 <= va / 4096 < _)), ?(bool_decide_eq_true_2 (1043968 <= va / 4096 < _)), ?(bool_decide_eq_false_2 (1043968 <= va / 4096 < _)) by lia.
  all: cbn [andb]; rewrite ?He; cbn [andb]; rewrite ?He; rewrite ?apply_bits, ?Hb by lia; reflexivity.
Qed.

(** C26. On tables that map the low 4 GiB to themselves, with the PAT register set up, giving a range below 4 GiB a type succeeds: the entries of its pages select the PAT field with the code of that type, and reading the type back gives it; the entries of the other pages are unchanged, and every translation stays. *)
Theorem amd64_set_memtype L s cpuid pat pat' phys_start len type : layout_ok L -> identity L s ->
  g_pat_initialized pat = false -> arch_paging_pat_init cpuid pat = (pat', true) ->
  0 <= phys_start -> 0 < len -> phys_start + len <= 2 ^ 32 ->
  exists t, arch_paging_set_memtype (entry s) phys_start len type = (t, true) /\
    (forall va, 0 <= va < 2 ^ 32 ->
       if bool_decide (first_page phys_start <= va / 4096 < end_page phys_start len)
       then arch_paging_get_memtype t va = type /\ page_code (pat_msr pat') (t (__get_pte va)) = type_code type
       else t (__get_pte va) = entry s (__get_pte va)) /\
    (forall va, 0 <= va < 2 ^ 48 -> walk L (mkPaging t (cr3 s) (done_ s)) va = walk L s va).
Proof.
  intros HL HI Hpi Hpat Hp Hl Hend. assert (He : end_page phys_start len <= 2 ^ 20) by (apply Z.lt_succ_r, Z.div_lt_upper_bound; lia).
  destruct (set_memtype_entries (entry s) phys_start len type Hp Hl He) as (H1 & H2 & H3).
  pose proof (set_memtype_identity L (entry s) (cr3 s) (done_ s) phys_start len type Hp Hl He) as Hid'.
  destruct (arch_paging_set_memtype (entry s) phys_start len type) as [t ok]. cbn [fst snd] in *.
  assert (HI' : identity L (mkPaging t (cr3 s) (done_ s))) by (apply Hid'; now destruct s).
  assert (Hfp : 0 <= first_page phys_start) by (apply Z.div_pos; lia).
  assert (Hok : ok = true). { apply H3. intros p Hpp. unfold PTE_P. rewrite flag_bit by lia. apply (id_page _ _ HI). lia. }
  exists t. rewrite Hok. split; [reflexivity|]. split; [|intros va Hva; now rewrite !walk_identity].
  intros va Hva. assert (Hpg : 0 <= va / 4096 < 2 ^ 20) by (split; [apply Z.div_pos; lia|apply Z.div_lt_upper_bound; lia]).
  destruct (id_page _ _ HI _ Hpg) as [Hpr _]. destruct (id_page _ _ HI' _ Hpg) as [Hpr' _]. cbn [entry] in Hpr'.
  specialize (H1 _ Hpg). rewrite <- !pte_of_address in *. unfold retyped in H1.
  replace (first_page phys_start + (end_page phys_start len - first_page phys_start)) with (end_page phys_start len) in H1 by lia.
  destruct (bool_decide _); cbn [andb] in H1; [|exact H1]. unfold PTE_P in H1. rewrite flag_bit, Hpr in H1 by lia.
  rewrite get_memtype_bits by exact Hpr'. cbv zeta. unfold page_code. rewrite H1, !apply_bits by lia.
  pose proof (memtype_of_type_bits type). pose proof (pat_init_selects cpuid pat pat' type Hpi Hpat). destruct (type_bits type) as [[? ?] ?]. now split.
Qed.

End Amd64Spec.

(** ** i386 *)

Module I386Spec.
Import I386.

Lemma frame_of_page p : 0 <= p < 2 ^ 20 -> __pte_from_virt (4096 * p) = (p / 1024, p mod 1024).
Proof.
  intros Hp. unfold __pte_from_virt. rewrite !Z.shiftr_div_pow2 by lia. change 1023 with (2 ^ 10 - 1). rewrite !land_pred by lia.
  change (2 ^ 22) with (4096 * 1024). change (2 ^ 12) with 4096. change (2 ^ 10) with 1024. rewrite Z.div_mul_cancel_l, (Z.mul_comm 4096 p), Z.div_mul by lia.
  rewrite (Z.mod_small (p / 1024)); [reflexivity|]. split; [apply Z.div_pos; lia|apply Z.div_lt_upper_bound; lia].
Qed.

Lemma frame_of_address va : __pte_from_virt va = __pte_from_virt (4096 * (va / 4096)).
Proof.
  unfold __pte_from_virt. rewrite !Z.shiftr_div_pow2 by lia. change (2 ^ 22) with (4096 * 1024). change (2 ^ 12) with 4096.
  rewrite !Z.div_mul_cancel_l, !Z.div_div by lia. now rewrite (Z.mul_comm 4096 (va / 4096)), Z.div_mul by lia.
Qed.

Lemma frame_inj p q : 0 <= p < 2 ^ 20 -> 0 <= q < 2 ^ 20 -> __pte_from_virt (4096 * p) = __pte_from_virt (4096 * q) -> p = q.
Proof.
  intros Hp Hq. rewrite !frame_of_page by assumption. intros [= E1 E2]. pose proof (Z.div_mod p 1024). pose proof (Z.div_mod q 1024). lia.
Qed.

(** The page walk: a directory entry names one of the 1024 tables by its frame. *)
Definition walk (addr_page_tables : Z) (d : page_directory) (t : page_tables) (va : Z) : option Z :=
  let e := d (va / 2 ^ 22) in
  if (pd_present e =? 0) || negb (pd_page_size e =? 0) then None
  else
    let i := (4096 * pd_frame e - addr_page_tables) / 4096 in
    if negb ((0 <=? i) && (i <? 1024)) then None
    else
      let pte := t (i, va / 4096 mod 1024) in
      if present pte =? 0 then None else Some (4096 * frame pte + va mod 4096).

Lemma init_directory a s i : 0 <= i < 1024 -> 0 <= a -> a mod 4096 = 0 -> a + 4194304 <= 2 ^ 32 ->
  (paging_init a s).1 i = mkPDE 1 1 0 0 0 0 0 0 0 0 (a / 4096 + i).
Proof.
  intros Hi Ha Hm Hb. unfold paging_init.
  assert (Hv : wrap 20 (Z.shiftr (wrap 32 (a + i * 4096)) 12) = a / 4096 + i).
  { rewrite (wrap_small 32) by lia. rewrite Z.shiftr_div_pow2 by lia. change (2 ^ 12) with 4096. rewrite Z.div_add by lia.
    pose proof (Z.div_mod a 4096). rewrite wrap_small by lia. reflexivity. }
  apply (for_sets (fun s : page_directory * page_tables => s.1 i) 1024 _ _ i); [assumption| |].
  - intros [d t]. cbn. rewrite store_same. now rewrite Hv.
  - intros j [d t] _ Hne. cbn. apply store_other. congruence.
Qed.

Lemma init_page a s p : 0 <= p < 2 ^ 20 -> (paging_init a s).2 (__pte_from_virt (4096 * p)) = mkPTE 1 1 0 0 0 0 0 0 0 0 p.
Proof.
  intros Hp. rewrite frame_of_page by assumption. unfold paging_init.
  pose proof (Z.div_mod p 1024 ltac:(lia)). pose proof (Z.mod_pos_bound p 1024 ltac:(lia)). set (i := p / 1024) in *. set (j := p mod 1024) in *.
  apply (for_sets (fun s : page_directory * page_tables => s.2 (i, j)) 1024 _ _ i); [lia| |].
  - intros [d t]. cbn. apply (for_sets (fun t : page_tables => t (i, j)) 1024 _ _ j); [lia| |].
    + intros t'. rewrite store_same. rewrite (wrap_small 32 (i * 1024)), (wrap_small 32), wrap_small by lia. f_equal. lia.
    + intros. apply store_other. congruence.
  - intros k [d t] _ Hne. cbn. apply (for_keeps (fun t : page_tables => t (i, j))). intros. apply store_other. congruence.
Qed.

Lemma set_memtype_frames t phys_start len type : 0 <= phys_start < 2 ^ 32 -> 0 < len -> phys_start + len <= 2 ^ 32 ->
  end_page phys_start len - first_page phys_start < 2 ^ 20 ->
  let r := arch_paging_set_memtype t phys_start len type in let present e := negb (present e =? 0) in
  (forall p, 0 <= p < 2 ^ 20 -> r.1 (__pte_from_virt (4096 * p)) =
     retyped present (__apply_type_to_pte type) (first_page phys_start) (end_page phys_start len - first_page phys_start) p (t (__pte_from_virt (4096 * p)))) /\
  (r.2 = true <-> forall p, first_page phys_start <= p < end_page phys_start len -> present (t (__pte_from_virt (4096 * p))) = true).
Proof.
  intros Hp Hl He Hw. unfold arch_paging_set_memtype. rewrite (proj2 (Z.eqb_neq len 0)) by lia.
  assert (Hend : end_page phys_start len <= 2 ^ 20) by (apply Z.lt_succ_r, Z.div_lt_upper_bound; lia).
  assert (0 <= first_page phys_start < end_page phys_start len).
  { unfold first_page, end_page. pose proof (Z.div_mod phys_start 4096). pose proof (Z.div_mod (phys_start + len + 4095) 4096).
    pose proof (Z.mod_pos_bound phys_start 4096). pose proof (Z.mod_pos_bound (phys_start + len + 4095) 4096). lia. }
  pose proof (@page_range_spec I386 phys_start len) as Hr. change (@size_bits I386) with 32 in Hr. rewrite Hr by lia.
  set (n := end_page phys_start len - first_page phys_start) in *.
  destruct (set_memtype_loop_spec 32 (2 ^ 20) __pte_from_virt (fun e => negb (present e =? 0)) (__apply_type_to_pte type) frame_inj ltac:(lia) (first_page phys_start) ltac:(lia) (Z.to_nat n) 0 0 t) as (H1 & H2 & H3 & H4); [lia..|].
  rewrite Z2Nat.id, Z.add_0_r in * by lia. destruct (set_memtype_loop _ _ _ _ _ _ _ _ _) as [t' c]. cbn [fst snd] in *.
  split; [exact H1|]. rewrite Z.eqb_eq. rewrite Z.add_0_l in H4. rewrite H4. unfold n. now replace (first_page phys_start + (end_page phys_start len - first_page phys_start)) with (end_page phys_start len) by lia.
Qed.

(** After [paging_init] every address of the 4 GiB translates to itself and is write-back; giving a range a type then succeeds, the pages of the range read back that type, all others stay write-back, and every translation stays. *)
Theorem i386_memtypes a s phys_start len type : 0 <= a -> a mod 4096 = 0 -> a + 4194304 <= 2 ^ 32 ->
  0 <= phys_start < 2 ^ 32 -> 0 < len -> phys_start + len <= 2 ^ 32 -> end_page phys_start len - first_page phys_start < 2 ^ 20 ->
  let '(d, t) := paging_init a s in
  (forall va, 0 <= va < 2 ^ 32 -> walk a d t va = Some va /\ arch_paging_get_memtype t va = ARCH_PAGING_MT_WB) /\
  exists t', arch_paging_set_memtype t phys_start len type = (t', true) /\ forall va, 0 <= va < 2 ^ 32 ->
    walk a d t' va = Some va /\
    arch_paging_get_memtype t' va = if bool_decide (first_page phys_start <= va / 4096 < end_page phys_start len) then type else ARCH_PAGING_MT_WB.
Proof.
  intros Ha Hm Hb Hp Hl He Hn. pose proof (fun i Hi => init_directory a s i Hi Ha Hm Hb) as Hd. pose proof (init_page a s) as Ht.
  destruct (paging_init a s) as [d t]. cbn [fst snd] in *.
  assert (Hend : end_page phys_start len <= 2 ^ 20) by (apply Z.lt_succ_r, Z.div_lt_upper_bound; lia).
  assert (0 <= first_page phys_start) by (apply Z.div_pos; lia).
  assert (Hwalk : forall t' va, 0 <= va < 2 ^ 32 -> present (t' (__pte_from_virt va)) = 1 -> frame (t' (__pte_from_virt va)) = va / 4096 -> walk a d t' va = Some va).
  { intros t' va Hva Hpr Hfr. unfold walk. change (2 ^ 22) with (4096 * 1024). rewrite <- Z.div_div by lia.
    assert (0 <= va / 4096 < 2 ^ 20) by (split; [apply Z.div_pos; lia|apply Z.div_lt_upper_bound; lia]).
    assert (Hdir : 0 <= va / 4096 / 1024 < 1024) by (split; [apply Z.div_pos; lia|apply Z.div_lt_upper_bound; lia]).
    rewrite Hd by assumption. cbn [pd_present pd_page_size pd_frame Z.eqb orb negb]. pose proof (Z.div_mod a 4096).
    replace (4096 * (a / 4096 + va / 4096 / 1024) - a) with (va / 4096 / 1024 * 4096) by lia. rewrite Z.div_mul by lia.
    rewrite (proj2 (Z.leb_le 0 _)), (proj2 (Z.ltb_lt _ 1024)) by lia. cbn [andb negb].
    rewrite frame_of_address, frame_of_page in Hpr, Hfr by assumption. rewrite Hpr, Hfr. cbn [Z.eqb]. f_equal. pose proof (Z.div_mod va 4096). lia. }
  assert (Hpg : forall va, 0 <= va < 2 ^ 32 -> 0 <= va / 4096 < 2 ^ 20) by (intros; split; [apply Z.div_pos; lia|apply Z.div_lt_upper_bound; lia]).
  split.
  { intros va Hva. specialize (Ht _ (Hpg va Hva)). rewrite <- frame_of_address in Ht. split; [apply Hwalk; rewrite ?Ht; (assumption || reflexivity)|]. unfold arch_paging_get_memtype. now rewrite Ht. }
  destruct (set_memtype_frames t phys_start len type Hp Hl He Hn) as (H1 & H2). destruct (arch_paging_set_memtype t phys_start len type) as [t' ok]. cbn [fst snd] in *.
  exists t'. split; [f_equal; apply H2; intros p Hpp; now rewrite Ht by lia|]. intros va Hva. specialize (H1 _ (Hpg va Hva)). rewrite Ht in H1 by now apply Hpg.
  rewrite <- frame_of_address in H1. unfold retyped in H1. cbn [present Z.eqb negb] in H1. rewrite andb_true_r in H1.
  replace (first_page phys_start + (end_page phys_start len - first_page phys_start)) with (end_page phys_start len) in H1 by lia.
  unfold arch_paging_get_memtype. split; [apply Hwalk; [assumption|..]|]; rewrite H1; destruct (bool_decide _); try reflexivity; now destruct type.
Qed.

(** A range of the whole address space rounds to no pages: the call reports success and changes nothing. *)
Lemma whole_range_ignored t type : arch_paging_set_memtype t 0 4294967295 type = (t, true).
Proof. reflexivity. Qed.

End I386Spec.

(** ** Instances *)

Module PagingExample.
Import Amd64 Amd64Spec.

Definition L : layout := {| addr_pml4 := 4096; addr_pdpt := 8192; addr_pd := fun gb => 12288 + 4096 * gb; addr_pt_g := fun gb => 2097152 * (gb + 1) |}.

Lemma elem_all x : x ∈ all_tables -> match x with PML4 | PDPT => True | PD gb => 0 <= gb < 4 | PT gb i => 0 <= gb < 4 /\ 0 <= i < 512 end.
Proof.
  unfold all_tables. intros [->|[->|[H|H]%elem_of_app]%elem_of_cons]%elem_of_cons; [exact I|exact I|..].
  - apply list_elem_of_In, in_map_iff in H as (gb & <- & Hg%list_elem_of_In%elem_of_seqZ). lia.
  - apply list_elem_of_In, in_flat_map in H as (gb & Hg%list_elem_of_In%elem_of_seqZ & H). apply in_map_iff in H as (i & <- & Hi%list_elem_of_In%elem_of_seqZ). lia.
Qed.

Lemma L_ok : layout_ok L.
Proof.
  constructor.
  - intros x _. destruct x; cbn; [reflexivity|reflexivity|..].
    + replace (12288 + 4096 * gb) with ((3 + gb) * 4096) by lia. apply Z.mod_mul. lia.
    + replace (2097152 * (gb + 1) + pt_index * 4096) with ((512 * (gb + 1) + pt_index) * 4096) by lia. apply Z.mod_mul. lia.
  - intros x Hx%elem_all. destruct x; cbn; lia.
  - intros x y Hx%elem_all Hy%elem_all. destruct x, y; cbn; intros; try reflexivity; try lia; f_equal; lia.
Qed.

Definition zeroed : Paging := mkPaging (fun _ => 0) 0 false.

Lemma amd64_identity_map_witness : layout_ok L /\ walk L (amd64_map_identity_low_4g L zeroed) 1048576 = Some 1048576.
Proof.
  split; [exact L_ok|]. destruct (amd64_identity_map L zeroed 1048576 L_ok eq_refl) as [H _]; [lia|]. rewrite H. reflexivity.
Defined.

Definition mapped : Paging := mkPaging (startup_tables L (fun _ => 0)) (address L PML4) true.
Definition cpuid (leaf : Z) : Z * Z := (0, 2 ^ 16).
Definition pat0 : Pat := mkPat false 1974748653749254.

Lemma amd64_set_memtype_witness : identity L mapped /\
  exists t, arch_paging_set_memtype (entry mapped) 3758096384 8388608 ARCH_PAGING_MT_WC = (t, true) /\ arch_paging_get_memtype t 3758100480 = ARCH_PAGING_MT_WC.
Proof.
  split; [apply startup_identity, L_ok|].
  destruct (amd64_set_memtype L mapped cpuid pat0 (arch_paging_pat_init cpuid pat0).1 3758096384 8388608 ARCH_PAGING_MT_WC L_ok (startup_identity L _ L_ok)
    eq_refl eq_refl) as (t & E & H & _); [lia..|].
  exists t. split; [exact E|]. apply (H 3758100480). lia.
Defined.

Lemma i386_memtypes_witness : exists t',
  I386.arch_paging_set_memtype (I386.paging_init 4194304 (fun _ => I386.mkPDE 0 0 0 0 0 0 0 0 0 0 0, fun _ => I386.mkPTE 0 0 0 0 0 0 0 0 0 0 0)).2 4273995776 4096 ARCH_PAGING_MT_UC = (t', true).
Proof.
  pose proof (I386Spec.i386_memtypes 4194304 (fun _ => I386.mkPDE 0 0 0 0 0 0 0 0 0 0 0, fun _ => I386.mkPTE 0 0 0 0 0 0 0 0 0 0 0) 4273995776 4096 ARCH_PAGING_MT_UC) as H.
  destruct (I386.paging_init _ _) as [d t]. destruct H as (_ & t' & E & _); [lia|reflexivity|lia|lia|lia|lia|vm_compute; reflexivity|]. exists t'. exact E.
Defined.

(** Above 4 GiB the tables have no entries of their own: [__get_pte] takes two bits of the gigabyte, so an address finds the entry of the page 4 GiB below. *)
Lemma high_addresses_alias va : 0 <= va -> __get_pte (va + 2 ^ 32) = __get_pte va.
Proof.
  intros Hva. unfold __get_pte. rewrite !Z.shiftr_div_pow2 by lia. change 3 with (2 ^ 2 - 1). change 511 with (2 ^ 9 - 1). rewrite !land_pred by lia.
  change (2 ^ 32) with (4 * 2 ^ 30) at 1. rewrite Z.div_add by lia. change (2 ^ 32) with (2048 * 2 ^ 21) at 1. rewrite Z.div_add by lia. change (2 ^ 32) with (1048576 * 2 ^ 12). rewrite Z.div_add by lia.
  f_equal; [f_equal|]; [apply (Z.mod_add _ 1 4)|apply (Z.mod_add _ 4 512)|apply (Z.mod_add _ 2048 512)]; lia.
Qed.

(** [arch_paging_map_with_type] leaves the frame of a present page alone and returns true: after start-up, mapping another frame at an address has no effect on where it leads. *)
Lemma map_present_ignored t : flag (t (__get_pte 1048576)) PTE_P = true ->
  let r := arch_paging_map_with_type t 3758096384 1048576 4096 0 ARCH_PAGING_MT_WC in
  r.2 = true /\ target (r.1 (__get_pte 1048576)) = target (t (__get_pte 1048576)).
Proof.
  intros H. split; [reflexivity|]. unfold arch_paging_map_with_type. change (page_range 64 3758096384 4096) with (3758096384, 1).
  change (4096 =? 0) with false. cbv iota zeta. change (Z.to_nat 1) with 1%nat. cbn [fst map_loop]. match goal with |- context [__get_pte (wrap 64 ?x)] => change (__get_pte (wrap 64 x)) with (__get_pte 1048576) end. rewrite H. cbn [negb].
  rewrite store_same. apply apply_target.
Qed.

End PagingExample.
