(* ===== verification/Ntfs.v ===== *)
(** * NTFS volumes ([kernel/filesystem/ntfs/ntfs.c])

    The boot sector, the lists of data runs, records of the master file table
    with their fixups, attributes, the contents of files and the entries of
    directories.  Offsets of fields are those of the packed structures.  A
    record in memory is its bytes; reading outside of it is [None].  The loops
    over a record take as many steps as it has bytes, as each step moves
    forward and a step outside of the record is [None]. *)

From S2P Require Import Prelude Bytes CString BlockDevice DiskStream DiskRead Volume VfsPath Vfs FsWorld.

(** ["FILE"] and ["NTFS    "] *)
Definition NTFS_SIGNATURE : bytes := [70; 73; 76; 69].
Definition NTFS_OEM_STRING : bytes := [78; 84; 70; 83; 32; 32; 32; 32].

Definition NTFS_ATTR_FILE_NAME : Z := 0x30.
Definition NTFS_ATTR_DATA : Z := 0x80.
Definition NTFS_ATTR_INDEX_ROOT : Z := 0x90.
Definition NTFS_FILE_FLAG_IN_USE : Z := 1.
Definition NTFS_FILE_FLAG_DIRECTORY : Z := 2.
Definition NTFS_FILE_ATTR_DIRECTORY : Z := 0x10.
Definition NTFS_INDEX_ENTRY_FLAG_LAST : Z := 2.
Definition ATTR_END : Z := 0xFFFFFFFF.

(** Offsets in [NTFSBootSector] *)
Definition sizeof_NTFSBootSector : Z := 512.
Definition boot_oem : Z := 3.
Definition boot_bytes_per_sector : Z := 11.
Definition boot_sectors_per_cluster : Z := 13.
Definition boot_mft_lcn : Z := 48.
Definition boot_mftmirr_lcn : Z := 56.
Definition boot_clusters_per_file_record : Z := 64.
Definition boot_clusters_per_index_buffer : Z := 68.

(** Offsets in [NTFSFileRecordHeader] *)
Definition hdr_fixup_offset : Z := 4.
Definition hdr_fixup_entries : Z := 6.
Definition hdr_first_attribute_offset : Z := 20.
Definition hdr_flags : Z := 22.
Definition hdr_bytes_in_use : Z := 24.

(** Offsets in [NTFSAttributeHeader] *)
Definition attr_length : Z := 4.
Definition attr_non_resident : Z := 8.
Definition attr_name_length : Z := 9.
Definition attr_value_length : Z := 16.
Definition attr_value_offset : Z := 20.
Definition attr_data_run_offset : Z := 32.
Definition attr_data_size : Z := 48.

(** Offsets in [NTFSFileNameAttribute], [NTFSIndexHeader] and [NTFSIndexEntryHeader] *)
Definition sizeof_NTFSFileNameAttribute : Z := 66.
Definition fname_parent_directory : Z := 0.
Definition fname_real_size : Z := 48.
Definition fname_flags : Z := 56.
Definition fname_name_length : Z := 64.
Definition sizeof_NTFSIndexRootHeader : Z := 16.
Definition index_entries_offset : Z := 0.
Definition index_entries_size : Z := 4.
Definition sizeof_NTFSIndexEntryHeader : Z := 16.
Definition entry_file_reference : Z := 0.
Definition entry_entry_size : Z := 8.
Definition entry_stream_size : Z := 10.
Definition entry_flags : Z := 12.

Record NTFSDataRun := mkRun { vcn : Z; run_length : Z; lcn : Z }.

(** [count] is the length of [runs]; the array is allocated when the capacity
    is not zero. *)
Record NTFSRunlist := mkRunlist { runs : list NTFSDataRun; capacity : Z }.

Definition sizeof_NTFSDataRun : Z := 24.

(** The list of nodes is kept with the volume in the state. *)
Record NTFSVolume := mkNtfsVolume {
  nv_backing : option Volume;
  nv_device : option BlockDevice;
  nv_lba_offset : Z;
  nv_logical_block_size : Z;
  nv_bytes_per_sector : Z;
  nv_sectors_per_cluster : Z;
  nv_bytes_per_cluster : Z;
  nv_clusters_per_mft_record : Z;
  nv_mft_record_size : Z;
  nv_clusters_per_index_record : Z;
  nv_index_record_size : Z;
  nv_mft_lcn : Z;
  nv_mftmirr_lcn : Z;
  nv_mft_runlist : NTFSRunlist
}.

Definition ntfs_file_reference_number (reference : Z) : Z := Z.land reference 0x0000FFFFFFFFFFFF.

Definition ntfs_compute_record_size (clusters bytes_per_cluster : Z) : Z :=
  if 0 <? clusters then clusters *[32] bytes_per_cluster
  else if clusters <? 0 then (if 31 <=? - clusters then 0 else Z.shiftl 1 (- clusters))
  else 0.

(** ** Lists of data runs *)

Definition ntfs_runlist_init : NTFSRunlist := mkRunlist [] 0.
Definition ntfs_runlist_reset (l : NTFSRunlist) : NTFSRunlist := mkRunlist [] (capacity l).

(** Doubling until [required] fits, or [required] itself near the top *)
Fixpoint grow_capacity `{Arch} (fuel : nat) (new_capacity required : Z) : option Z :=
  match fuel with
  | O => None
  | S fuel =>
      if negb (new_capacity <? required) then Some new_capacity
      else if SIZE_MAX / 2 <? new_capacity then Some required
      else grow_capacity fuel (new_capacity *[size_bits] 2) required
  end.

Definition grow_fuel `{Arch} : nat := S (S (Z.to_nat size_bits)).

Section Runs.
Context `{A : Arch} {W : Type} (mal : nat -> bool).

(** A request for the array whose size in bytes wraps around is [None]. *)
Definition ntfs_runlist_reserve (l : NTFSRunlist) (required : Z) : io W (option NTFSRunlist) :=
  if required <=? capacity l then mret (Some l)
  else
    new_capacity ← lift (grow_capacity grow_fuel (if capacity l =? 0 then 4 else capacity l) required);
    if SIZE_MAX <? new_capacity * sizeof_NTFSDataRun then lift None
    else
      ok ← io_malloc mal;
      mret (if ok : bool then Some (mkRunlist (runs l) new_capacity) else None).

Definition ntfs_runlist_append (l : NTFSRunlist) (v len c : Z) : io W (option NTFSRunlist) :=
  r ← ntfs_runlist_reserve l (Z.of_nat (length (runs l)) +[size_bits] 1);
  mret (l ← r; Some (mkRunlist (runs l ++ [mkRun v len c]) (capacity l))).

(** Shifts by the width or more are undefined, as are signed ones whose result
    does not fit. *)
Definition shl_u64 (x n : Z) : option Z := if n <? 64 then Some (Z.shiftl x n) else None.
Definition shl_s64 (x n : Z) : option Z := if (n <? 64) && (Z.shiftl x n <? 2 ^ 63) then Some (Z.shiftl x n) else None.
Definition add_s64 (x y : Z) : option Z := if (- 2 ^ 63 <=? x + y) && (x + y <? 2 ^ 63) then Some (x + y) else None.

(** The bytes of a field from number [i] on, or-ed into [acc] *)
Fixpoint or_bytes (shl : Z -> Z -> option Z) (bs : bytes) (i acc : Z) : option Z :=
  match bs with
  | [] => Some acc
  | b :: bs => x ← shl b (i * 8); or_bytes shl bs (i + 1) (Z.lor acc x)
  end.

Definition extend_sign (off_size run_offset : Z) : option Z :=
  sign_bit ← shl_s64 1 (off_size * 8 - 1);
  if Z.land run_offset sign_bit =? 0 then Some run_offset
  else m ← shl_s64 1 (off_size * 8); Some (Z.lor run_offset (- m)).

(** The loop over the runs at [data] in the record, [offset] bytes into them *)
Fixpoint data_runs_loop (fuel : nat) (record : bytes) (data len offset current_vcn current_lcn : Z) (l : NTFSRunlist) : io W (NTFSRunlist * bool) :=
  match fuel with
  | O => lift None
  | S fuel =>
      if negb (offset <? len) then mret (l, negb (bool_decide (runs l = [])))
      else
        header ← lift (le_at 1 record (data + offset));
        let offset := offset + 1 in
        if header =? 0 then mret (l, negb (bool_decide (runs l = [])))
        else
          let len_size := Z.land header 15 in
          let off_size := Z.land (Z.shiftr header 4) 15 in
          if (len_size =? 0) || (len <? offset +[size_bits] len_size +[size_bits] off_size) then mret (l, false)
          else
            bs ← lift (sub_bytes record (data + offset) len_size);
            run_len ← lift (or_bytes shl_u64 bs 0 0);
            let offset := offset + len_size in
            current_lcn ← (if 0 <? off_size
                           then lift (bs ← sub_bytes record (data + offset) off_size;
                                      o ← or_bytes shl_s64 bs 0 0;
                                      o ← extend_sign off_size o;
                                      add_s64 current_lcn o)
                           else mret current_lcn);
            r ← ntfs_runlist_append l current_vcn run_len current_lcn;
            match r with
            | None => mret (l, false)
            | Some l => data_runs_loop fuel record data len (offset + off_size) (current_vcn +[64] run_len) current_lcn l
            end
  end.

Definition ntfs_parse_data_runs (record : bytes) (data len : Z) (l : NTFSRunlist) : io W (NTFSRunlist * bool) :=
  data_runs_loop (S (length record)) record data len 0 0 0 l.

End Runs.

(** ** Reading the volume *)

(** The two bytes at the ends of the sectors from number [i] on, [n] of them,
    are compared with [expected] and replaced from the array at [usa].  [None]
    is an access outside of the buffer, [Some None] the result false. *)
Fixpoint fixup_loop `{Arch} (n : nat) (buffer : bytes) (bytes_per_sector usa expected i : Z) : option (option bytes) :=
  match n with
  | O => Some (Some buffer)
  | S n =>
      let sector_offset := ((i + 1) *[size_bits] bytes_per_sector) -[size_bits] 2 in
      if zlen buffer <? sector_offset +[size_bits] 2 then Some None
      else
        tail ← le_at 2 buffer sector_offset;
        if negb (tail =? expected) then Some None
        else
          fix_bytes ← sub_bytes buffer (usa + 2 * (i + 1)) 2;
          buffer ← put_bytes buffer sector_offset fix_bytes;
          fixup_loop n buffer bytes_per_sector usa expected (i + 1)
  end.

Definition ntfs_apply_fixup `{Arch} (buffer : bytes) (bytes_per_sector : Z) : option (option bytes) :=
  if zlen buffer <? bytes_per_sector then Some None
  else
    fixup_entries ← le_at 2 buffer hdr_fixup_entries;
    if fixup_entries =? 0 then Some (Some buffer)
    else
      usa ← le_at 2 buffer hdr_fixup_offset;
      if zlen buffer <? usa +[size_bits] (fixup_entries * 2) then Some None
      else
        expected ← le_at 2 buffer usa;
        fixup_loop (Z.to_nat (fixup_entries - 1)) buffer bytes_per_sector usa expected 0.

(** The offset of the first attribute in the record, or null *)
Definition ntfs_first_attribute (record : bytes) : option (option Z) :=
  first ← le_at 2 record hdr_first_attribute_offset;
  bytes_in_use ← le_at 4 record hdr_bytes_in_use;
  Some (if bytes_in_use <=? first then None else Some first).

Definition ntfs_next_attribute (record : bytes) (attr : Z) : option (option Z) :=
  length ← le_at 4 record (attr + attr_length);
  Some (if length =? 0 then None else Some (attr + length)).

(** The characters before the terminator the loop stores: [n] units are left,
    the next at [off]; [pos] characters are in the buffer of [out_len]. *)
Fixpoint decode_loop (n : nat) (record : bytes) (off pos out_len : Z) : option bytes :=
  match n with
  | O => Some []
  | S n =>
      if negb (pos + 1 <? out_len) then Some []
      else
        ch ← le_at 2 record off;
        rest ← decode_loop n record (off + 2) (pos + 1) out_len;
        Some ((if ch <? 0x80 then ch else 63) :: rest)
  end.

(** The string is what comes before the first zero. *)
Fixpoint until_nul (s : bytes) : bytes := match s with c :: s => if c =? 0 then [] else c :: until_nul s | [] => [] end.

Definition ntfs_decode_utf16le (record : bytes) (off in_len out_len : Z) : option bytes :=
  if out_len =? 0 then Some [] else s ← decode_loop (Z.to_nat in_len) record off 0 out_len; Some (until_nul s).

Section Disk.
Context `{A : Arch} {W : Type} `{!BlockDriver W} (mal : nat -> bool).

Definition ntfs_device_block_size (v : NTFSVolume) : Z :=
  let bs := Volume_BlockSize (nv_backing v) in
  let ds := match nv_device v with Some d => logical_block_size d | None => 0 end in
  if negb (nv_logical_block_size v =? 0) then nv_logical_block_size v
  else if negb (bs =? 0) then bs
  else if negb (ds =? 0) then ds
  else if negb (nv_bytes_per_sector v =? 0) then nv_bytes_per_sector v
  else 512.

(** Into a buffer of [cap] bytes *)
Definition ntfs_read_blocks (v : NTFSVolume) (lba count cap : Z) : io W (option bytes) := fun s =>
  if count =? 0 then Some (s, None)
  else
    let '(w, r) := match nv_backing v, nv_device v with
                   | Some vol, _ => Volume_ReadSectors s.1 (Some vol) lba count true
                   | None, None => (s.1, None)
                   | None, Some d => BlockDevice_Read s.1 (Some d) (nv_lba_offset v +[64] lba) count
                   end in
    r ← into_buffer cap r; Some ((w, s.2), r).

(** The boot sector is read from the start of the volume, or of the device. *)
Definition ntfs_read_boot_sector (v : NTFSVolume) : io W (option bytes) :=
  let logical_block := if nv_logical_block_size v =? 0 then 512 else nv_logical_block_size v in
  let sector_count := wrap 32 (wrap size_bits (sizeof_NTFSBootSector + logical_block - 1) / logical_block) in
  let sector_count := if sector_count =? 0 then 1 else sector_count in
  let buf_size := logical_block *[size_bits] sector_count in
  ok ← io_malloc mal;
  if negb ok then mret None
  else
    r ← (fun s : W * nat =>
      let '(w, r) := match nv_backing v, nv_device v with
                     | Some vol, _ => Volume_ReadSectors s.1 (Some vol) 0 sector_count true
                     | None, None => (s.1, None)
                     | None, Some d => BlockDevice_Read s.1 (Some d) (nv_lba_offset v) sector_count
                     end in
      r ← into_buffer buf_size r; Some ((w, s.2), r));
    match r with
    | None => mret None
    | Some temp => boot ← lift (sub_bytes temp 0 sizeof_NTFSBootSector); mret (Some boot)
    end.

(** The [size] bytes stored, or false *)
Definition ntfs_read_bytes (v : NTFSVolume) (offset size : Z) : io W (option bytes) :=
  if size =? 0 then mret None
  else
    let block_size := ntfs_device_block_size v in
    let start_block := offset / block_size in
    let end_offset := offset +[64] size in
    let end_block := (wrap 64 (end_offset + block_size - 1)) / block_size in
    let block_count := end_block -[64] start_block in
    let block_count := if block_count =? 0 then 1 else block_count in
    let temp_size := wrap size_bits (block_count *[64] block_size) in
    ok ← io_malloc mal;
    if negb ok then mret None
    else
      r ← ntfs_read_blocks v start_block (wrap 32 block_count) temp_size;
      match r with
      | None => mret None
      | Some temp =>
          let block_offset := wrap size_bits (offset - start_block * block_size) in
          part ← lift (sub_bytes temp block_offset size);
          mret (Some part)
      end.

(** The loop over the runs [l] for [remaining] bytes, [relative] bytes after the
    start of the first run: the bytes stored before it ended, how many were
    left, and whether every read succeeded *)
Fixpoint runs_loop (v : NTFSVolume) (l : list NTFSDataRun) (relative remaining : Z) : io W (bytes * Z * bool) :=
  match l with
  | [] => mret ([], remaining, true)
  | run :: l =>
      if negb (0 <? remaining) then mret ([], remaining, true)
      else
        let run_bytes := run_length run *[64] nv_bytes_per_cluster v in
        if run_bytes <=? relative then runs_loop v l (relative - run_bytes) remaining
        else
          let chunk := Z.min (run_bytes - relative) remaining in
          let lcn_byte_offset := (wrap 64 (lcn run) *[64] nv_bytes_per_cluster v) +[64] relative in
          r ← ntfs_read_bytes v lcn_byte_offset (wrap size_bits chunk);
          match r with
          | None => mret ([], remaining, false)
          | Some b => x ← runs_loop v l 0 (remaining - chunk); mret (b ++ x.1.1, x.1.2, x.2)
          end
  end.

(** The bytes of the record, or false *)
Definition ntfs_read_mft_record (v : NTFSVolume) (record_index : Z) : io W (option bytes) :=
  raw ← (if bool_decide (runs (nv_mft_runlist v) = [])
         then ntfs_read_bytes v ((nv_mft_lcn v *[64] nv_bytes_per_cluster v) +[64] (record_index *[64] nv_mft_record_size v)) (nv_mft_record_size v)
         else
           x ← runs_loop v (runs (nv_mft_runlist v)) (record_index *[64] nv_mft_record_size v) (nv_mft_record_size v);
           mret (if x.2 && negb (0 <? x.1.2) then Some x.1.1 else None));
  match raw with
  | None => mret None
  | Some raw =>
      r ← lift (ntfs_apply_fixup raw (nv_bytes_per_sector v));
      match r with
      | None => mret None
      | Some record =>
          signature ← lift (sub_bytes record 0 4);
          flags ← lift (le_at 2 record hdr_flags);
          mret (if negb (bool_decide (signature = NTFS_SIGNATURE)) then None
                else if Z.land flags NTFS_FILE_FLAG_IN_USE =? 0 then None
                else Some record)
      end
  end.

(** ** Attributes *)

(** The loop over the attributes from [attr] on; [body] gives the new state and
    whether the loop goes on. *)
Fixpoint attributes_loop {S} (body : Z -> Z -> S -> io W (S * bool)) (fuel : nat) (record : bytes) (attr : option Z) (s : S) : io W S :=
  match fuel, attr with
  | _, None => mret s
  | O, _ => lift None
  | Datatypes.S fuel, Some a =>
      type ← lift (le_at 4 record a);
      if type =? ATTR_END then mret s
      else
        r ← body type a s;
        if negb r.2 then mret r.1
        else next ← lift (ntfs_next_attribute record a); attributes_loop body fuel record next r.1
  end.

Definition for_attributes {S} (body : Z -> Z -> S -> io W (S * bool)) (record : bytes) (s : S) : io W S :=
  first ← lift (ntfs_first_attribute record);
  attributes_loop body (Datatypes.S (length record)) record first s.

(** The fields of a node that [ntfs_populate_node_info] sets, the parent only
    if the record has a name *)
Record NodeFields := mkFields { pf_parent : option Z; pf_size : Z; pf_name : bytes }.

Definition populate_body (record : bytes) (out_name_len : Z) (type attr : Z) (s : NodeFields) : io W (NodeFields * bool) :=
  if type =? NTFS_ATTR_FILE_NAME then
    lift (value_offset ← le_at 2 record (attr + attr_value_offset);
          let fname := attr + value_offset in
          name_chars ← le_at 1 record (fname + fname_name_length);
          parent ← le_at 8 record (fname + fname_parent_directory);
          size ← le_at 8 record (fname + fname_real_size);
          name ← ntfs_decode_utf16le record (fname + sizeof_NTFSFileNameAttribute) name_chars out_name_len;
          Some (mkFields (Some (ntfs_file_reference_number parent)) size name, true))
  else if type =? NTFS_ATTR_DATA then
    lift (non_resident ← le_at 1 record (attr + attr_non_resident);
          size ← (if negb (non_resident =? 0) then le_at 8 record (attr + attr_data_size) else le_at 4 record (attr + attr_value_length));
          Some (mkFields (pf_parent s) size (pf_name s), true))
  else mret (s, true).

(** Whether the record is a directory, and the fields; or false *)
Definition ntfs_populate_node_info (v : NTFSVolume) (file_ref : Z) : io W (option (bool * NodeFields)) :=
  ok ← io_malloc mal;
  if negb ok then mret None
  else
    r ← ntfs_read_mft_record v (ntfs_file_reference_number file_ref);
    match r with
    | None => mret None
    | Some record =>
        flags ← lift (le_at 2 record hdr_flags);
        s ← for_attributes (populate_body record (VFS_NAME_MAX + 1)) record (mkFields None 0 []);
        mret (Some (negb (Z.land flags NTFS_FILE_FLAG_DIRECTORY =? 0), s))
    end.

(** ** Contents of a file *)

(** The run list at an attribute that is not resident *)
Definition attribute_runs (record : bytes) (attr : Z) (l : NTFSRunlist) : io W (NTFSRunlist * bool) :=
  length ← lift (le_at 4 record (attr + attr_length));
  run_offset ← lift (le_at 2 record (attr + attr_data_run_offset));
  ntfs_parse_data_runs mal record (attr + run_offset) (wrap 32 (length - run_offset)) (ntfs_runlist_reset l).

(** What was found: the size, and the copy of a resident value *)
Definition Fetched : Type := Z * option bytes.

(** The state is the caller's run list and the result so far. *)
Definition fetch_body (record : bytes) (type attr : Z) (s : NTFSRunlist * option Fetched) : io W (NTFSRunlist * option Fetched * bool) :=
  if negb (type =? NTFS_ATTR_DATA) then mret (s, true)
  else
    name_length ← lift (le_at 1 record (attr + attr_name_length));
    if negb (name_length =? 0) then mret (s, true)
    else
      non_resident ← lift (le_at 1 record (attr + attr_non_resident));
      if negb (non_resident =? 0) then
        r ← attribute_runs record attr s.1;
        if negb r.2 then mret ((r.1, None), false)
        else size ← lift (le_at 8 record (attr + attr_data_size)); mret ((r.1, Some (size, None)), false)
      else
        value_offset ← lift (le_at 2 record (attr + attr_value_offset));
        value_len ← lift (le_at 4 record (attr + attr_value_length));
        if value_len =? 0 then mret ((s.1, Some (0, Some [])), false)
        else
          ok ← io_malloc mal;
          if negb ok then mret ((s.1, None), false)
          else copy ← lift (sub_bytes record (attr + value_offset) value_len); mret ((s.1, Some (value_len, Some copy)), false).

Definition ntfs_fetch_default_data_runlist (v : NTFSVolume) (file_reference : Z) (l : NTFSRunlist) : io W (NTFSRunlist * option Fetched) :=
  ok ← io_malloc mal;
  if negb ok then mret (l, None)
  else
    r ← ntfs_read_mft_record v (ntfs_file_reference_number file_reference);
    match r with
    | None => mret (l, None)
    | Some record => for_attributes (fetch_body record) record (l, None)
    end.

(** The result and the caller's buffer, which has [size] bytes or more *)
Definition ntfs_read_from_runlist (v : NTFSVolume) (l : NTFSRunlist) (offset size : Z) (buffer : bytes) : io W (Z * bytes) :=
  if bool_decide (runs l = []) then mret (-1, buffer)
  else
    x ← runs_loop v (runs l) offset size;
    buffer ← lift (put_bytes buffer 0 x.1.1);
    mret (if negb x.2 then -1 else sign_of 64 (size - x.1.2), buffer).

(** ** Entries of a directory *)

(** What is looked for: the entry with a name, or the one with an index *)
Inductive Wanted := ByName (find_name : bytes) | ByIndex (target_index : Z).

Definition skip_entry (wanted : Wanted) (name : bytes) : bool :=
  bool_decide (name = []) || streq name [46] || match wanted with ByName _ => false | ByIndex _ => streq name [46; 46] end.

(** The entry that was found with its reference, or the index of the next *)
Definition visit_entry (wanted : Wanted) (index file_ref : Z) (name : bytes) (type : VFSNodeType) : (VFSDirEntry * Z) + Z :=
  if skip_entry wanted name then inr index
  else match wanted with
       | ByName find_name => if streq name find_name then inl (mkDirEntry name type, file_ref) else inr index
       | ByIndex target => if index =? target then inl (mkDirEntry (take (Z.to_nat VFS_NAME_MAX) name) type, file_ref) else inr (index +[size_bits] 1)
       end.

Fixpoint entries_loop (wanted : Wanted) (fuel : nat) (record : bytes) (entries entries_size offset index : Z) : option (option (VFSDirEntry * Z)) :=
  match fuel with
  | O => None
  | S fuel =>
      if negb (offset <? entries_size) then Some None
      else
        let entry := entries + offset in
        entry_size ← le_at 2 record (entry + entry_entry_size);
        if entry_size <? sizeof_NTFSIndexEntryHeader then Some None
        else
          reference ← le_at 8 record (entry + entry_file_reference);
          stream_size ← le_at 2 record (entry + entry_stream_size);
          next ← (if stream_size <? sizeof_NTFSFileNameAttribute then Some (inr index)
                  else
                    let fname := entry + sizeof_NTFSIndexEntryHeader in
                    name_chars ← le_at 1 record (fname + fname_name_length);
                    name ← ntfs_decode_utf16le record (fname + sizeof_NTFSFileNameAttribute) name_chars (VFS_NAME_MAX + 1);
                    flags ← le_at 4 record (fname + fname_flags);
                    Some (visit_entry wanted index (ntfs_file_reference_number reference) name
                            (if Z.land flags NTFS_FILE_ATTR_DIRECTORY =? 0 then VFS_NODE_REGULAR else VFS_NODE_DIRECTORY)));
          match next with
          | inl found => Some (Some found)
          | inr index =>
              flags ← le_at 4 record (entry + entry_flags);
              if negb (Z.land flags NTFS_INDEX_ENTRY_FLAG_LAST =? 0) then Some None
              else entries_loop wanted fuel record entries entries_size (offset + entry_size) index
          end
  end.

Definition enumerate_body (wanted : Wanted) (record : bytes) (type attr : Z) (s : option (VFSDirEntry * Z)) : io W (option (VFSDirEntry * Z) * bool) :=
  if negb (type =? NTFS_ATTR_INDEX_ROOT) then mret (s, true)
  else
    non_resident ← lift (le_at 1 record (attr + attr_non_resident));
    if negb (non_resident =? 0) then mret (s, false)
    else
      value_offset ← lift (le_at 2 record (attr + attr_value_offset));
      let value := attr + value_offset in
      let hdr := value + sizeof_NTFSIndexRootHeader in
      entries_offset ← lift (le_at 4 record (hdr + index_entries_offset));
      entries_size ← lift (le_at 4 record (hdr + index_entries_size));
      found ← lift (entries_loop wanted (S (length record)) record (value + entries_offset) entries_size 0 0);
      mret (found, bool_decide (found = None)).

Definition ntfs_enumerate_directory (v : NTFSVolume) (file_reference : Z) (wanted : Wanted) : io W (option (VFSDirEntry * Z)) :=
  ok ← io_malloc mal;
  if negb ok then mret None
  else
    r ← ntfs_read_mft_record v (ntfs_file_reference_number file_reference);
    match r with
    | None => mret None
    | Some record => for_attributes (enumerate_body wanted record) record None
    end.

(** The entries of the directory on the disk; as the index found is below the
    number of bytes of a record, so is the number of steps. *)
Fixpoint count_entries (fuel : nat) (v : NTFSVolume) (file_reference count : Z) : io W Z :=
  match fuel with
  | O => lift None
  | S fuel =>
      r ← ntfs_enumerate_directory v file_reference (ByIndex count);
      match r with None => mret count | Some _ => count_entries fuel v file_reference (count +[size_bits] 1) end
  end.

Definition ntfs_directory_disk_entry_count (v : NTFSVolume) (file_reference : Z) : io W Z :=
  count_entries (S (Z.to_nat (nv_mft_record_size v))) v file_reference 0.

End Disk.
