(* ===== verification/NtfsNode.v ===== *)
(** * Nodes of an NTFS volume ([kernel/filesystem/ntfs/ntfs.c])

    Files and directories on the disk are read-only; what is created at run
    time is an overlay that lives in memory.  The nodes and volumes on the heap
    are those of [FsWorld]: the use of freed memory, and freeing twice, is
    [None].  A handle is its run list, passed in and out; [None] is the null
    handle. *)

From S2P Require Import Prelude Bytes CString BlockDevice DiskStream DiskRead Volume VfsPath Vfs FsWorld Ntfs.

(** [overlay_children] is the list of the nodes, [None] for null. *)
Record NTFSNodeInfo := mkNtfsInfo {
  ni_volume : Z;
  file_reference : Z;
  parent_reference : Z;
  file_size : Z;
  is_directory : bool;
  is_root : bool;
  overlay : bool;
  overlay_data : option bytes;
  overlay_size : Z;
  overlay_capacity : Z;
  overlay_children : option (list Z)
}.

Definition set_overlay (i : NTFSNodeInfo) (data : option bytes) (size cap : Z) : NTFSNodeInfo :=
  mkNtfsInfo (ni_volume i) (file_reference i) (parent_reference i) (file_size i) (is_directory i) (is_root i) (overlay i) data size cap (overlay_children i).

Definition set_sizes (i : NTFSNodeInfo) (size : Z) : NTFSNodeInfo :=
  mkNtfsInfo (ni_volume i) (file_reference i) (parent_reference i) size (is_directory i) (is_root i) (overlay i) (overlay_data i) size (overlay_capacity i) (overlay_children i).

Definition set_children (i : NTFSNodeInfo) (l : option (list Z)) : NTFSNodeInfo :=
  mkNtfsInfo (ni_volume i) (file_reference i) (parent_reference i) (file_size i) (is_directory i) (is_root i) (overlay i) (overlay_data i) (overlay_size i) (overlay_capacity i) l.

(** [ntfs_populate_node_info] on the information of a node *)
Definition populated (i : NTFSNodeInfo) (r : bool * NodeFields) : NTFSNodeInfo :=
  mkNtfsInfo (ni_volume i) (file_reference i) (default (parent_reference i) (pf_parent r.2)) (pf_size r.2) r.1 (is_root i) (overlay i)
    (overlay_data i) (overlay_size i) (overlay_capacity i) (overlay_children i).

Section Nodes.
Context `{A : Arch} {W : Type} `{!BlockDriver W} (mal : nat -> bool).
Context (naddr : nat -> gmap Z (VFSNode * NTFSNodeInfo) -> Z) (vaddr : nat -> gmap Z (NTFSVolume * option (list Z)) -> Z).

Local Abbreviation ntfs := (st (FsWorld W NTFSNodeInfo NTFSVolume)).

Definition ntfs_malloc : ntfs bool := run_io (io_malloc mal).

(** ** Overlays in memory *)

(** New bytes are zero. *)
Definition ntfs_overlay_reserve (info : NTFSNodeInfo) (required : Z) : ntfs (option NTFSNodeInfo) :=
  if required <=? overlay_capacity info then mret (Some info)
  else
    new_capacity ← lift (grow_capacity grow_fuel (if overlay_capacity info =? 0 then 64 else overlay_capacity info) required);
    ok ← ntfs_malloc;
    mret (if ok : bool
          then Some (set_overlay info (Some (default [] (overlay_data info) ++ zeros (new_capacity - overlay_capacity info))) (overlay_size info) new_capacity)
          else None).

(** The first child with the name *)
Fixpoint find_named (l : list Z) (name : bytes) : ntfs (option Z) :=
  match l with
  | [] => mret None
  | c :: l =>
      if c =? NULL then find_named l name
      else
        x ← the_node c;
        match n_name x.1 with
        | None => find_named l name
        | Some n => if streq n name then mret (Some c) else find_named l name
        end
  end.

Definition ntfs_overlay_find_child (dir : NTFSNodeInfo) (name : bytes) : ntfs (option Z) :=
  match overlay_children dir with None => mret None | Some l => find_named l name end.

Definition ntfs_overlay_child_count (dir : NTFSNodeInfo) : Z :=
  match overlay_children dir with Some l => Z.of_nat (length l) | None => 0 end.

(** Allocations: the list, if there is none, and its new cell; [List_Add] drops
    the child if the last fails. *)
Definition ntfs_overlay_add_child (dir child : Z) : ntfs bool :=
  x ← the_node dir;
  l ← (match overlay_children x.2 with
       | Some l => mret (Some l)
       | None => ok ← ntfs_malloc; mret (if ok : bool then Some [] else None)
       end);
  match l with
  | None => mret false
  | Some l =>
      ok ← ntfs_malloc;
      put_info dir x.1 (set_children x.2 (Some (if ok : bool then l ++ [child] else l))) ≫= fun _ => mret true
  end.

(** ** Nodes and volumes *)

Definition ntfs_free_node (n : Z) : ntfs unit :=
  if n =? NULL then mret tt
  else ns ← get_nodes; lift (ns !! n) ≫= fun _ => put_nodes (delete n ns).

Fixpoint free_listed (l : list Z) : ntfs unit :=
  match l with [] => mret tt | n :: l => ntfs_free_node n ≫= fun _ => free_listed l end.

Definition put_volume (a : Z) (v : NTFSVolume) (nodes : option (list Z)) : ntfs unit :=
  vs ← get_volumes; put_volumes (<[a := (v, nodes)]> vs).

Definition free_volume (a : Z) : ntfs unit := vs ← get_volumes; put_volumes (delete a vs).

Definition ntfs_destroy_volume (a : Z) : ntfs unit :=
  if a =? NULL then mret tt
  else
    v ← the_volume a;
    match v.2 with Some l => free_listed l | None => mret tt end ≫= fun _ => free_volume a.

(** Allocations: the node, its information, the copy of the name, the list of
    the volume and its new cell.  [strdup] does not return when its allocation
    fails. *)
Definition ntfs_alloc_node (a parent : Z) (name : bytes) (dir : bool) (file_ref size : Z) (root : bool) : ntfs (option Z) :=
  if a =? NULL then mret None
  else
    t ← get_clock; ns ← get_nodes;
    let n := naddr t ns in
    ok ← ntfs_malloc;
    if negb ok then mret None
    else
      ok ← ntfs_malloc;
      if negb ok then mret None
      else
        node_name ← (if bool_decide (name = []) then mret None
                     else ok ← ntfs_malloc; lift (strdup (Some (cstr name)) ok) ≫= fun _ => mret (Some name));
        p ← (if parent =? NULL then mret None else p ← the_node parent; mret (Some p));
        let info := mkNtfsInfo a file_ref (match p with Some p => file_reference p.2 | None => file_ref end) size dir root false None 0 0 None in
        let node := mkNode node_name (if dir then VFS_NODE_DIRECTORY else VFS_NODE_REGULAR) VFS_NODE_FLAG_READONLY
                      (if parent =? NULL then None else Some parent) (p ← p; n_mount p.1) in
        v ← the_volume a;
        l ← (match v.2 with
             | Some l => mret (Some l)
             | None => ok ← ntfs_malloc; mret (if ok : bool then Some [] else None)
             end);
        match l with
        | None => mret None
        | Some l =>
            ok ← ntfs_malloc;
            put_volume a v.1 (Some (if ok : bool then l ++ [n] else l)) ≫= fun _ =>
            put_info n node info ≫= fun _ => mret (Some n)
        end.

(** ** Mounting *)

Definition ntfs_probe_block_size (device : BlockDevice) (volume : option Volume) : Z :=
  match volume with
  | Some _ => if Volume_BlockSize volume =? 0 then 512 else Volume_BlockSize volume
  | None => if logical_block_size device =? 0 then 512 else logical_block_size device
  end.

(** The volume before the boot sector is read *)
Definition blank_volume (device : BlockDevice) (volume : option Volume) : NTFSVolume :=
  mkNtfsVolume volume (Some device) 0 (ntfs_probe_block_size device volume) 0 0 0 0 0 0 0 0 0 ntfs_runlist_init.

Definition mount_device (block_device : option BlockDevice) (volume : option Volume) : option BlockDevice :=
  match block_device with Some _ => block_device | None => v ← volume; v_device v end.

Definition ntfs_probe (block_device : option BlockDevice) (volume : option Volume) : io W bool :=
  match mount_device block_device volume with
  | None => mret false
  | Some device =>
      r ← ntfs_read_boot_sector mal (blank_volume device volume);
      match r with
      | None => mret false
      | Some boot =>
          oem ← lift (sub_bytes boot boot_oem 8);
          bps ← lift (le_at 2 boot boot_bytes_per_sector);
          spc ← lift (le_at 1 boot boot_sectors_per_cluster);
          mret (bool_decide (oem = NTFS_OEM_STRING) && negb ((bps =? 0) || (spc =? 0)))
      end
  end.

(** The fields taken from the boot sector *)
Definition boot_volume (v : NTFSVolume) (boot : bytes) : option NTFSVolume :=
  bps ← le_at 2 boot boot_bytes_per_sector;
  spc ← le_at 1 boot boot_sectors_per_cluster;
  mft ← le_at 1 boot boot_clusters_per_file_record;
  index ← le_at 1 boot boot_clusters_per_index_buffer;
  mft_lcn ← le_at 8 boot boot_mft_lcn;
  mirr_lcn ← le_at 8 boot boot_mftmirr_lcn;
  let bpc := bps *[32] spc in
  Some (mkNtfsVolume (nv_backing v) (nv_device v) (nv_lba_offset v) (nv_logical_block_size v) bps spc bpc
          (sign_of 8 mft) (ntfs_compute_record_size (sign_of 8 mft) bpc) (sign_of 8 index) (ntfs_compute_record_size (sign_of 8 index) bpc)
          mft_lcn mirr_lcn (nv_mft_runlist v)).

Definition with_runlist (v : NTFSVolume) (l : NTFSRunlist) : NTFSVolume :=
  mkNtfsVolume (nv_backing v) (nv_device v) (nv_lba_offset v) (nv_logical_block_size v) (nv_bytes_per_sector v) (nv_sectors_per_cluster v) (nv_bytes_per_cluster v)
    (nv_clusters_per_mft_record v) (nv_mft_record_size v) (nv_clusters_per_index_record v) (nv_index_record_size v) (nv_mft_lcn v) (nv_mftmirr_lcn v) l.

(** The state is the run list and whether it was loaded: [None] is no, [Some
    false] that it could not be parsed. *)
Definition mft_body (record : bytes) (type attr : Z) (s : NTFSRunlist * option bool) : io W (NTFSRunlist * option bool * bool) :=
  if negb (type =? NTFS_ATTR_DATA) then mret (s, true)
  else
    non_resident ← lift (le_at 1 record (attr + attr_non_resident));
    if non_resident =? 0 then mret (s, true)
    else r ← attribute_runs mal record attr s.1; mret ((r.1, Some r.2), false).

(** The run list of the table, from its own record or at the place the boot
    sector gives; or the error *)
Definition load_mft (v : NTFSVolume) : io W (NTFSRunlist + VFSResult) :=
  ok ← io_malloc mal;
  if negb ok then mret (inr VFS_RES_NO_MEMORY)
  else
    r ← ntfs_read_mft_record mal v 0;
    match r with
    | None => mret (inr VFS_RES_ERROR)
    | Some record =>
        s ← for_attributes (mft_body record) record (nv_mft_runlist v, None);
        match s.2 with
        | Some false => mret (inr VFS_RES_ERROR)
        | Some true => mret (inl s.1)
        | None =>
            r ← ntfs_runlist_append mal s.1 0 16 (sign_of 64 (nv_mft_lcn v));
            mret (match r with Some l => inl l | None => inr VFS_RES_ERROR end)
        end
    end.

(** The root directory is record 5.  The texts of the log are left out. *)
Definition mount_root (a : Z) : ntfs (VFSResult * option Z) :=
  root ← ntfs_alloc_node a NULL [] true 5 0 true;
  match root with
  | None => ntfs_destroy_volume a ≫= fun _ => mret (VFS_RES_NO_MEMORY, None)
  | Some n =>
      v ← the_volume a;
      x ← the_node n;
      r ← run_io (ntfs_populate_node_info mal v.1 (file_reference x.2));
      match r with
      | None => ntfs_free_node n ≫= fun _ => ntfs_destroy_volume a ≫= fun _ => mret (VFS_RES_ERROR, None)
      | Some r => put_info n x.1 (populated x.2 r) ≫= fun _ => mret (VFS_RES_OK, Some n)
      end
  end.

Definition ntfs_mount (block_device : option BlockDevice) (volume : option Volume) : ntfs (VFSResult * option Z) :=
  match mount_device block_device volume with
  | None => mret (VFS_RES_INVALID, None)
  | Some device =>
      t ← get_clock; vs ← get_volumes;
      let a := vaddr t vs in
      ok ← ntfs_malloc;
      if negb ok then mret (VFS_RES_NO_MEMORY, None)
      else
        let v := blank_volume device volume in
        put_volume a v None ≫= fun _ =>
        r ← run_io (ntfs_read_boot_sector mal v);
        match r with
        | None => free_volume a ≫= fun _ => mret (VFS_RES_UNSUPPORTED, None)
        | Some boot =>
            oem ← lift (sub_bytes boot boot_oem 8);
            if negb (bool_decide (oem = NTFS_OEM_STRING)) then free_volume a ≫= fun _ => mret (VFS_RES_UNSUPPORTED, None)
            else
              v ← lift (boot_volume v boot);
              ok ← ntfs_malloc;
              put_volume a v (if ok : bool then Some [] else None) ≫= fun _ =>
              if negb ok then ntfs_destroy_volume a ≫= fun _ => mret (VFS_RES_NO_MEMORY, None)
              else if (nv_bytes_per_sector v =? 0) || (nv_sectors_per_cluster v =? 0) || (nv_mft_record_size v =? 0)
              then ntfs_destroy_volume a ≫= fun _ => mret (VFS_RES_UNSUPPORTED, None)
              else
                r ← run_io (load_mft v);
                match r with
                | inr e => ntfs_destroy_volume a ≫= fun _ => mret (e, None)
                | inl l => put_volume a (with_runlist v l) (Some []) ≫= fun _ => mount_root a
                end
        end
  end.

Definition ntfs_unmount (root : Z) : ntfs VFSResult :=
  if root =? NULL then mret VFS_RES_INVALID
  else x ← the_node root; ntfs_destroy_volume (ni_volume x.2) ≫= fun _ => mret VFS_RES_OK.

(** ** Operations of a node *)

(** The handle, null on an error and for a directory of the overlay *)
Definition ntfs_node_open (n mode : Z) : ntfs (VFSResult * option NTFSRunlist) :=
  if n =? NULL then mret (VFS_RES_INVALID, None)
  else
    x ← the_node n;
    let '(node, info) := x in
    let wants_write := negb (Z.land mode (Z.lor (Z.lor VFS_OPEN_WRITE VFS_OPEN_APPEND) VFS_OPEN_TRUNC) =? 0) in
    if negb (overlay info) && wants_write then mret (VFS_RES_ACCESS, None)
    else if overlay info && is_directory info
    then mret (if wants_write then VFS_RES_ACCESS else VFS_RES_OK, None)
    else
      (if overlay info && negb (Z.land mode VFS_OPEN_TRUNC =? 0) then put_info n node (set_sizes info 0) else mret tt) ≫= fun _ =>
      ok ← ntfs_malloc;
      mret (if ok : bool then (VFS_RES_OK, Some ntfs_runlist_init) else (VFS_RES_NO_MEMORY, None)).

Definition ntfs_node_close (n : Z) (handle : option NTFSRunlist) : ntfs VFSResult := mret VFS_RES_OK.

(** A file on the disk: the result, the caller's buffer and the run list *)
Definition read_disk (v : NTFSVolume) (info : NTFSNodeInfo) (l : NTFSRunlist) (offset : Z) (buffer : bytes) : io W (Z * bytes * NTFSRunlist) :=
  f ← ntfs_fetch_default_data_runlist mal v (file_reference info) l;
  match f with
  | (l, None) => mret (-1, buffer, l)
  | (l, Some (data_size, resident)) =>
      if data_size <=? offset then mret (0, buffer, l)
      else
        let available := wrap size_bits (Z.min (zlen buffer) (data_size - offset)) in
        match resident with
        | Some value =>
            let available := if zlen value <? offset +[64] available
                             then wrap size_bits (Z.max (sign_of 64 (zlen value) - sign_of 64 offset) 0) else available in
            buffer ← (if 0 <? available then lift (part ← sub_bytes value offset available; put_bytes buffer 0 part) else mret buffer);
            mret (sign_of 64 available, buffer, l)
        | None => r ← ntfs_read_from_runlist mal v l offset available buffer; mret (r.1, r.2, l)
        end
  end.

(** The part of an overlay that lies in the file *)
Definition read_overlay (info : NTFSNodeInfo) (offset : Z) (buffer : bytes) : option (Z * bytes) :=
  if overlay_size info <=? offset then Some (0, buffer)
  else
    let available := wrap size_bits (Z.min (zlen buffer) (overlay_size info - offset)) in
    match overlay_data info with
    | None => Some (0, buffer)
    | Some data =>
        if available =? 0 then Some (0, buffer)
        else part ← sub_bytes data offset available; buffer ← put_bytes buffer 0 part; Some (sign_of 64 available, buffer)
    end.

Definition ntfs_node_read (n : Z) (handle : option NTFSRunlist) (offset : Z) (buffer : bytes) : ntfs (Z * bytes * option NTFSRunlist) :=
  if (n =? NULL) || (zlen buffer =? 0) then mret (-1, buffer, handle)
  else
    x ← the_node n;
    let info := x.2 in
    if is_directory info then mret (-1, buffer, handle)
    else if overlay info then r ← lift (read_overlay info offset buffer); mret (r.1, r.2, handle)
    else
      v ← the_volume (ni_volume info);
      r ← run_io (read_disk v.1 info (default ntfs_runlist_init handle) offset buffer);
      mret (r.1.1, r.1.2, match handle with Some _ => Some r.2 | None => None end).

Definition ntfs_node_write (n offset : Z) (buffer : bytes) : ntfs Z :=
  if (n =? NULL) || (zlen buffer =? 0) then mret (-1)
  else
    x ← the_node n;
    let '(node, info) := x in
    if is_directory info || negb (overlay info) then mret (-1)
    else
      let end_ := offset +[64] zlen buffer in
      if SIZE_MAX <? end_ then mret (-1)
      else
        r ← ntfs_overlay_reserve info end_;
        match r with
        | None => mret (-1)
        | Some info =>
            data ← lift (d ← overlay_data info; put_bytes d offset buffer);
            let size := if overlay_size info <? end_ then end_ else overlay_size info in
            put_info n node (set_sizes (set_overlay info (Some data) (overlay_size info) (overlay_capacity info)) size) ≫= fun _ =>
            mret (sign_of 64 (zlen buffer))
        end.

Definition ntfs_node_truncate (n length : Z) : ntfs VFSResult :=
  if n =? NULL then mret VFS_RES_INVALID
  else
    x ← the_node n;
    let '(node, info) := x in
    if is_directory info then mret VFS_RES_INVALID
    else if negb (overlay info) then mret VFS_RES_UNSUPPORTED
    else if SIZE_MAX <? length then mret VFS_RES_NO_SPACE
    else
      r ← ntfs_overlay_reserve info length;
      match r with
      | None => mret VFS_RES_NO_MEMORY
      | Some info =>
          data ← (if overlay_size info <? length
                  then lift (d ← overlay_data info; d ← put_bytes d (overlay_size info) (zeros (length - overlay_size info)); Some (Some d))
                  else mret (overlay_data info));
          put_info n node (set_sizes (set_overlay info data (overlay_size info) (overlay_capacity info)) length) ≫= fun _ =>
          mret VFS_RES_OK
      end.

Definition dot_entry (name : bytes) : VFSDirEntry := mkDirEntry name VFS_NODE_DIRECTORY.

(** The child of the overlay with the index *)
Definition overlay_entry (info : NTFSNodeInfo) (index : Z) : ntfs (VFSResult * option VFSDirEntry) :=
  if ntfs_overlay_child_count info <=? index then mret (VFS_RES_NOT_FOUND, None)
  else
    match l ← overlay_children info; l !! Z.to_nat index with
    | None => mret (VFS_RES_NOT_FOUND, None)
    | Some c =>
        if c =? NULL then mret (VFS_RES_NOT_FOUND, None)
        else
          x ← the_node c;
          mret (match n_name x.1 with
                | None => (VFS_RES_NOT_FOUND, None)
                | Some name => (VFS_RES_OK, Some (mkDirEntry (take (Z.to_nat VFS_NAME_MAX) name) (n_type x.1)))
                end)
    end.

Definition ntfs_node_readdir (n index : Z) : ntfs (VFSResult * option VFSDirEntry) :=
  if n =? NULL then mret (VFS_RES_INVALID, None)
  else
    x ← the_node n;
    let info := x.2 in
    if negb (is_directory info) then mret (VFS_RES_INVALID, None)
    else if index =? 0 then mret (VFS_RES_OK, Some (dot_entry [46]))
    else if index =? 1 then mret (VFS_RES_OK, Some (dot_entry [46; 46]))
    else
      let adjusted_index := index - 2 in
      if overlay info then overlay_entry info adjusted_index
      else
        v ← the_volume (ni_volume info);
        r ← run_io (ntfs_enumerate_directory mal v.1 (file_reference info) (ByIndex adjusted_index));
        match r with
        | Some found => mret (VFS_RES_OK, Some found.1)
        | None =>
            disk_count ← run_io (ntfs_directory_disk_entry_count mal v.1 (file_reference info));
            if adjusted_index <? disk_count then mret (VFS_RES_NOT_FOUND, None)
            else overlay_entry info (adjusted_index - disk_count)
        end.

(** The first node of the volume with the reference below the directory *)
Fixpoint find_cached (l : list Z) (ref parent : Z) : ntfs (option Z) :=
  match l with
  | [] => mret None
  | c :: l =>
      if c =? NULL then find_cached l ref parent
      else
        x ← the_node c;
        if (file_reference x.2 =? ref) && (parent_reference x.2 =? parent) then mret (Some c) else find_cached l ref parent
  end.

(** The fields a lookup refreshes in a node that exists *)
Definition refreshed (info child : NTFSNodeInfo) : NTFSNodeInfo :=
  mkNtfsInfo (ni_volume child) (file_reference info) (parent_reference child) (file_size child) (is_directory child) (is_root info) (overlay info)
    (overlay_data info) (overlay_size info) (overlay_capacity info) (overlay_children info).

(** The information of the child before its record is read *)
Definition child_info (a child_ref : Z) : NTFSNodeInfo := mkNtfsInfo a child_ref 0 0 false false false None 0 0 None.

Definition with_parent (i : NTFSNodeInfo) (parent : Z) : NTFSNodeInfo :=
  mkNtfsInfo (ni_volume i) (file_reference i) parent (file_size i) (is_directory i) (is_root i) (overlay i) (overlay_data i) (overlay_size i) (overlay_capacity i) (overlay_children i).

(** The node of a child on the disk: one the volume has, or a new one *)
Definition child_node (n : Z) (dir child : NTFSNodeInfo) (name : bytes) : ntfs (VFSResult * option Z) :=
  v ← the_volume (ni_volume dir);
  existing ← (match v.2 with Some l => find_cached l (file_reference child) (file_reference dir) | None => mret None end);
  match existing with
  | Some c =>
      x ← the_node c;
      put_info c x.1 (refreshed x.2 child) ≫= fun _ => mret (VFS_RES_OK, Some c)
  | None =>
      r ← ntfs_alloc_node (ni_volume dir) n name (is_directory child) (file_reference child) (file_size child) false;
      match r with
      | None => mret (VFS_RES_NO_MEMORY, None)
      | Some c =>
          x ← the_node c;
          put_info c x.1 (with_parent child (file_reference dir)) ≫= fun _ => mret (VFS_RES_OK, Some c)
      end
  end.

Definition ntfs_node_lookup (n : Z) (name : bytes) : ntfs (VFSResult * option Z) :=
  if n =? NULL then mret (VFS_RES_INVALID, None)
  else
    x ← the_node n;
    let '(node, dir) := x in
    if negb (is_directory dir) then mret (VFS_RES_INVALID, None)
    else if streq name [46] then mret (VFS_RES_OK, Some n)
    else if streq name [46; 46] then mret (VFS_RES_OK, Some (default n (n_parent node)))
    else
      c ← ntfs_overlay_find_child dir name;
      match c with
      | Some c => mret (VFS_RES_OK, Some c)
      | None =>
          if overlay dir then mret (VFS_RES_NOT_FOUND, None)
          else
            v ← the_volume (ni_volume dir);
            r ← run_io (ntfs_enumerate_directory mal v.1 (file_reference dir) (ByName name));
            match r with
            | None => mret (VFS_RES_NOT_FOUND, None)
            | Some (_, child_ref) =>
                r ← run_io (ntfs_populate_node_info mal v.1 child_ref);
                match r with
                | None => mret (VFS_RES_ERROR, None)
                | Some r => child_node n dir (populated (child_info (ni_volume dir) child_ref) r) (pf_name r.2)
                end
            end
      end.

(** The fields of a node made at run time *)
Definition as_overlay (i : NTFSNodeInfo) (parent : Z) (children : option (list Z)) : NTFSNodeInfo :=
  mkNtfsInfo (ni_volume i) 0 parent 0 (is_directory i) (is_root i) true (overlay_data i) (overlay_size i) (overlay_capacity i) children.

Definition ntfs_node_create (n : Z) (name : bytes) (type : VFSNodeType) : ntfs (VFSResult * option Z) :=
  if (n =? NULL) || bool_decide (name = []) then mret (VFS_RES_INVALID, None)
  else
    x ← the_node n;
    let dir := x.2 in
    if negb (is_directory dir) then mret (VFS_RES_INVALID, None)
    else if VFS_NAME_MAX <? zlen name then mret (VFS_RES_INVALID, None)
    else if negb (bool_decide (type = VFS_NODE_REGULAR)) && negb (bool_decide (type = VFS_NODE_DIRECTORY)) then mret (VFS_RES_UNSUPPORTED, None)
    else
      c ← ntfs_overlay_find_child dir name;
      on_disk ← (if bool_decide (c = None) && negb (overlay dir)
                 then v ← the_volume (ni_volume dir); run_io (ntfs_enumerate_directory mal v.1 (file_reference dir) (ByName name))
                 else mret None);
      if negb (bool_decide (c = None)) || negb (bool_decide (on_disk = None)) then mret (VFS_RES_EXISTS, None)
      else
        r ← ntfs_alloc_node (ni_volume dir) n name (bool_decide (type = VFS_NODE_DIRECTORY)) 0 0 false;
        match r with
        | None => mret (VFS_RES_NO_MEMORY, None)
        | Some c =>
            y ← the_node c;
            let node := mkNode (n_name y.1) (n_type y.1) 0 (n_parent y.1) (n_mount y.1) in
            ok ← (if bool_decide (type = VFS_NODE_DIRECTORY) then ntfs_malloc else mret true);
            if negb ok then ntfs_free_node c ≫= fun _ => mret (VFS_RES_NO_MEMORY, None)
            else
              put_info c node (as_overlay y.2 (file_reference dir) (if bool_decide (type = VFS_NODE_DIRECTORY) then Some [] else None)) ≫= fun _ =>
              added ← ntfs_overlay_add_child n c;
              if negb added then ntfs_free_node c ≫= fun _ => mret (VFS_RES_NO_MEMORY, None)
              else mret (VFS_RES_OK, Some c)
        end.

Definition ntfs_node_remove (n : Z) (name : bytes) : ntfs VFSResult := mret VFS_RES_UNSUPPORTED.

(** [temp] is what the stack holds where the function has its variable of that
    name, which it does not initialise. *)
Definition ntfs_node_stat (temp : NTFSNodeInfo) (n : Z) : ntfs (VFSResult * option VFSNodeInfo) :=
  if n =? NULL then mret (VFS_RES_INVALID, None)
  else
    x ← the_node n;
    let info := x.2 in
    let type_of (i : NTFSNodeInfo) := if is_directory i then VFS_NODE_DIRECTORY else VFS_NODE_REGULAR in
    if overlay info then mret (VFS_RES_OK, Some (mkInfo (type_of info) 0 (overlay_size info) (file_reference info) 0 0 0))
    else
      v ← the_volume (ni_volume info);
      r ← run_io (ntfs_populate_node_info mal v.1 (file_reference info));
      match r with
      | None => mret (VFS_RES_ERROR, None)
      | Some r =>
          let temp := populated temp r in
          mret (VFS_RES_OK, Some (mkInfo (type_of temp) VFS_NODE_FLAG_READONLY (file_size temp) (file_reference temp) 0 0 0))
      end.

End Nodes.
