(* ===== verification/NtfsSpec.v ===== *)
(** * Files of an NTFS volume

    How runs, protected records and attributes lie on a disk, and that the
    functions of [Ntfs] read them back.  The device behind the volume is any
    one with the laws of [DiskLaws]; every allocation succeeds. *)

From S2P Require Import Prelude Bytes CString BlockDevice DiskStream DiskRead Volume VfsPath Vfs FsWorld Bits Ntfs NtfsNode.

(** ** Fields of a sequence that is part of a longer one *)

Lemma sub_bytes_inner a b c o n : 0 <= o -> 0 <= n -> o + n <= zlen b -> sub_bytes (a ++ b ++ c) (zlen a + o) n = sub_bytes b o n.
Proof.
  intros Ho Hn Hb. pose proof (zlen_nonneg a). pose proof (zlen_nonneg c). rewrite !sub_bytes_ok by (rewrite ?zlen_app; lia). f_equal.
  replace (Z.to_nat (zlen a + o)) with (length a + Z.to_nat o)%nat by (unfold zlen; lia). rewrite <- drop_drop, drop_app_length.
  rewrite drop_app_le by (unfold zlen in *; lia). by rewrite take_app_le by (rewrite length_drop; unfold zlen in *; lia).
Qed.

Lemma le_at_inner a b c o n : 0 <= o -> 0 <= n -> o + n <= zlen b -> le_at n (a ++ b ++ c) (zlen a + o) = le_at n b o.
Proof. intros. unfold le_at. by rewrite sub_bytes_inner. Qed.

Lemma sub_bytes_at a b c n : n = zlen b -> sub_bytes (a ++ b ++ c) (zlen a) n = Some b.
Proof. intros ->. apply sub_bytes_app. Qed.

Lemma le_at_at a b c n : n = zlen b -> le_at n (a ++ b ++ c) (zlen a) = Some (le b).
Proof. intros ->. unfold le_at. by rewrite sub_bytes_app. Qed.

Lemma bslice_sub f o n i k : 0 <= i -> 0 <= k -> i + k <= n -> sub_bytes (bslice f o n) i k = Some (bslice f (o + i) k).
Proof.
  intros Hi Hk Hn. replace n with (i + (k + (n - i - k))) by lia. rewrite !bslice_app by lia.
  assert (forall j, j = zlen (bslice f o i) -> sub_bytes (bslice f o i ++ bslice f (o + i) k ++ bslice f (o + i + k) (n - i - k)) j k = Some (bslice f (o + i) k)) as H
    by (intros j ->; apply sub_bytes_at; by rewrite zlen_bslice).
  apply H. by rewrite zlen_bslice.
Qed.

Lemma lift_bind {S X Y : Type} (x : X) (k : X -> st S Y) (s : S) : (lift (Some x) ≫= k) s = k x s.
Proof. done. Qed.

(** ** Capacities *)

Lemma grow_capacity_spec `{A : Arch} c required : 0 < c < required -> required <= SIZE_MAX / 4 ->
  exists c', grow_capacity grow_fuel c required = Some c' /\ required <= c' < 2 * required.
Proof.
  intros Hc Hr. pose proof (Z.mul_div_le SIZE_MAX 4 ltac:(lia)). pose proof (Z.mul_div_le SIZE_MAX 2 ltac:(lia)). pose proof (Z.mul_succ_div_gt SIZE_MAX 2 ltac:(lia)).
  assert (0 < 2 ^ size_bits) by (apply Z.pow_pos_nonneg; [lia|apply size_bits_nonneg]).
  assert (forall f c, 0 < c < 2 * required -> required <= c * 2 ^ Z.of_nat f ->
    exists c', grow_capacity (S f) c required = Some c' /\ required <= c' < 2 * required) as Hgrow.
  { clear c Hc. induction f as [|f IH]; intros c Hc Hf; cbn [grow_capacity].
    - destruct (Z.ltb_spec c required); [rewrite Z.mul_1_r in Hf; lia|]. cbn. exists c. split; [done|lia].
    - destruct (Z.ltb_spec c required) as [Hlt|]; [|exists c; split; [done|lia]]. cbn [negb].
      destruct (Z.ltb_spec (SIZE_MAX / 2) c); [lia|].
      assert (wrap size_bits (c * 2) = c * 2) as -> by (apply wrap_small; unfold SIZE_MAX in *; lia).
      apply IH; [lia|]. rewrite Nat2Z.inj_succ, Z.pow_succ_r in Hf by lia. lia. }
  apply Hgrow; [lia|]. rewrite Nat2Z.inj_succ, Z2Nat.id by apply size_bits_nonneg. rewrite Z.pow_succ_r by apply size_bits_nonneg.
  unfold SIZE_MAX in *. nia.
Qed.

(** ** Records protected against torn writes

    A record is a list of sectors, each with its last two bytes apart.  In
    memory it is [fixed]; on the disk it is [stamped]: the last bytes of every
    sector are the update sequence number, and the array in the first sector
    keeps that number and what belongs there. *)

Definition fixed (ss : list (bytes * bytes)) : bytes := concat ((fun s => s.1 ++ s.2) <$> ss).
Definition stamped (usn : bytes) (ss : list (bytes * bytes)) : bytes := concat ((fun s => s.1 ++ usn) <$> ss).

Record protected (bps : Z) (usn : bytes) (ss : list (bytes * bytes)) : Prop := {
  pr_shape : Forall (fun s => zlen s.1 = bps - 2 /\ zlen s.2 = 2) ss;
  pr_usn : zlen usn = 2;
  pr_small : Z.of_nat (length ss) * bps < 2 ^ 31;
  pr_count : Z.of_nat (length ss) < 2 ^ 16 - 1;
  pr_first : exists pre post t more, ss = (pre ++ (usn ++ concat (snd <$> ss)) ++ post, t) :: more /\
    hdr_fixup_entries + 2 <= zlen pre /\ le_at 2 pre hdr_fixup_offset = Some (zlen pre) /\ le_at 2 pre hdr_fixup_entries = Some (Z.of_nat (length ss) + 1)
}.

Lemma zlen_pieces (f : bytes * bytes -> bytes) k ss : Forall (fun s => zlen (f s) = k) ss -> zlen (concat (f <$> ss)) = Z.of_nat (length ss) * k.
Proof. induction 1 as [|s ss Hs Hss IH]; [done|]. rewrite fmap_cons. cbn [concat length]. rewrite zlen_app, IH, Hs. lia. Qed.

Lemma put_bytes_at a b b' c : zlen b = zlen b' -> put_bytes (a ++ b ++ c) (zlen a) b' = Some (a ++ b' ++ c).
Proof.
  intros H. unfold put_bytes. pose proof (zlen_nonneg a). pose proof (zlen_nonneg c). rewrite !zlen_app.
  destruct (Z.leb_spec 0 (zlen a)); [|lia]. destruct (Z.leb_spec (zlen a + zlen b') (zlen a + (zlen b + zlen c))); [|lia]. cbn. f_equal.
  rewrite take_zlen. f_equal. f_equal. replace (zlen a + zlen b') with (zlen (a ++ b)) by (rewrite zlen_app; lia). rewrite app_assoc.
  unfold zlen. by rewrite Nat2Z.id, drop_app_length.
Qed.

Lemma put_front (buffer part : bytes) : zlen part <= zlen buffer -> put_bytes buffer 0 part = Some (part ++ drop (length part) buffer).
Proof. intros H. unfold put_bytes. destruct (Z.leb_spec (0 + zlen part) (zlen buffer)); [|lia]. cbn [Z.leb Z.compare andb]. by replace (Z.to_nat (0 + zlen part)) with (length part) by (unfold zlen; lia). Qed.

(** The bytes of entry [i] of a concatenation of pairs of bytes *)
Lemma concat_pairs (ts : list bytes) a c i t : Forall (fun t => zlen t = 2) ts -> ts !! i = Some t ->
  sub_bytes (a ++ concat ts ++ c) (zlen a + 2 * Z.of_nat i) 2 = Some t.
Proof.
  intros H Hi. rewrite <- (take_drop_middle ts i t Hi) at 1. rewrite <- (take_drop_middle ts i t Hi) in H. apply Forall_app in H as [H1 H2]. apply Forall_cons in H2 as [Ht _].
  rewrite concat_app. cbn [concat]. rewrite <- !app_assoc, app_assoc.
  replace (zlen a + 2 * Z.of_nat i) with (zlen (a ++ concat (take i ts))); [by apply sub_bytes_at|].
  rewrite zlen_app. f_equal. pose proof (zlen_pieces fst 2 ((fun t => (t, [])) <$> take i ts)) as Hc. rewrite <- list_fmap_compose, length_fmap in Hc. unfold compose in Hc. cbn [fst] in Hc.
  rewrite list_fmap_id in Hc. apply lookup_lt_Some in Hi. rewrite Hc; [rewrite length_take; lia|]. by apply Forall_fmap.
Qed.

(** ** Encoded data runs

    A run on the disk: how many bytes its length and its offset take, the
    length, and the cluster it starts at, which is stored relative to the run
    before. *)

Record run_code := mkCode { len_size : nat; off_size : nat; c_length : Z; c_lcn : Z }.

Definition encode_run (prev : Z) (c : run_code) : bytes :=
  (Z.of_nat (len_size c) + 16 * Z.of_nat (off_size c)) :: le_bytes (len_size c) (c_length c) ++ le_bytes (off_size c) (c_lcn c - prev).

Fixpoint encode_runs (prev : Z) (cs : list run_code) : bytes :=
  match cs with [] => [] | c :: cs => encode_run prev c ++ encode_runs (c_lcn c) cs end.

Fixpoint decoded (first_vcn : Z) (cs : list run_code) : list NTFSDataRun :=
  match cs with [] => [] | c :: cs => mkRun first_vcn (c_length c) (c_lcn c) :: decoded (first_vcn + c_length c) cs end.

(** The sizes are large enough. *)
Definition code_ok (prev : Z) (c : run_code) : Prop :=
  (1 <= len_size c <= 8)%nat /\ (1 <= off_size c <= 7)%nat /\ 0 <= c_length c < 256 ^ Z.of_nat (len_size c) /\
  - 2 ^ (8 * Z.of_nat (off_size c) - 1) <= c_lcn c - prev < 2 ^ (8 * Z.of_nat (off_size c) - 1) /\ 0 <= c_lcn c < 2 ^ 63.

Fixpoint codes_ok (prev first_vcn : Z) (cs : list run_code) : Prop :=
  match cs with [] => True | c :: cs => code_ok prev c /\ first_vcn + c_length c < 2 ^ 64 /\ codes_ok (c_lcn c) (first_vcn + c_length c) cs end.

Lemma or_bytes_spec shl bs i acc : (forall b k, 0 <= b < 256 -> i <= k < i + zlen bs -> shl b (k * 8) = Some (Z.shiftl b (k * 8))) ->
  Forall is_byte bs -> 0 <= i -> 0 <= acc < 256 ^ i -> or_bytes shl bs i acc = Some (acc + 256 ^ i * le bs).
Proof.
  revert i acc. induction bs as [|b bs IH]; intros i acc Hs Hb Hi Ha; cbn [or_bytes le]; [f_equal; lia|]. apply Forall_cons in Hb as [Hb Hbs].
  rewrite zlen_cons in Hs. pose proof (zlen_nonneg bs). rewrite Hs by lia. cbn [mbind option_bind].
  assert (256 ^ i = 2 ^ (i * 8)) as E by (rewrite Z.mul_comm, Z.pow_mul_r by lia; done). rewrite lor_byte by lia. rewrite <- E.
  assert (256 ^ (i + 1) = 256 ^ i * 256) as E1 by (rewrite Z.pow_add_r by lia; lia).
  rewrite IH; [f_equal; rewrite E1; lia|intros; apply Hs; lia|done|lia|rewrite E1; nia].
Qed.

Lemma or_length n v : (n <= 8)%nat -> 0 <= v < 256 ^ Z.of_nat n -> or_bytes shl_u64 (le_bytes n v) 0 0 = Some v.
Proof.
  intros Hn Hv. rewrite or_bytes_spec; [rewrite le_le_bytes, Z.mod_small by done; f_equal; lia| |apply le_bytes_range|lia|lia].
  intros b k Hb Hk. rewrite zlen_le_bytes in Hk. unfold shl_u64. by destruct (Z.ltb_spec (k * 8) 64); [|lia].
Qed.

Lemma or_offset n v : (n <= 7)%nat -> or_bytes shl_s64 (le_bytes n v) 0 0 = Some (v mod 256 ^ Z.of_nat n).
Proof.
  intros Hn. rewrite or_bytes_spec; [rewrite le_le_bytes; f_equal; lia| |apply le_bytes_range|lia|lia].
  intros b k Hb Hk. rewrite zlen_le_bytes in Hk. unfold shl_s64. destruct (Z.ltb_spec (k * 8) 64); [|lia]. cbn [andb].
  rewrite Z.shiftl_mul_pow2 by lia. assert (2 ^ (k * 8) <= 2 ^ 48) by (apply Z.pow_le_mono_r; lia). destruct (Z.ltb_spec (b * 2 ^ (k * 8)) (2 ^ 63)); [done|nia].
Qed.

Lemma extend_sign_spec n x : (1 <= n <= 7)%nat -> - 2 ^ (8 * Z.of_nat n - 1) <= x < 2 ^ (8 * Z.of_nat n - 1) ->
  extend_sign (Z.of_nat n) (x mod 256 ^ Z.of_nat n) = Some x.
Proof.
  intros Hn Hx. unfold extend_sign, shl_s64. rewrite (Z.mul_comm _ 8) in *.
  assert (2 ^ (8 * Z.of_nat n) = 2 * 2 ^ (8 * Z.of_nat n - 1)) as E2 by (rewrite <- Z.pow_succ_r by lia; f_equal; lia).
  assert (2 ^ (8 * Z.of_nat n) <= 2 ^ 56) by (apply Z.pow_le_mono_r; lia). assert (0 < 2 ^ (8 * Z.of_nat n - 1)) by (apply Z.pow_pos_nonneg; lia).
  assert (256 ^ Z.of_nat n = 2 ^ (8 * Z.of_nat n)) as -> by (rewrite Z.pow_mul_r by lia; done).
  rewrite !Z.shiftl_mul_pow2, !Z.mul_1_l by lia.
  destruct (Z.ltb_spec (8 * Z.of_nat n - 1) 64); [|lia]. destruct (Z.ltb_spec (8 * Z.of_nat n) 64); [|lia]. cbn [andb].
  destruct (Z.ltb_spec (2 ^ (8 * Z.of_nat n - 1)) (2 ^ 63)); [|lia]. destruct (Z.ltb_spec (2 ^ (8 * Z.of_nat n)) (2 ^ 63)); [|lia]. cbn [mbind option_bind].
  rewrite bit_free by lia. set (m := 2 ^ (8 * Z.of_nat n - 1)) in *. rewrite E2.
  destruct (Z.lt_ge_cases x 0) as [Hneg|Hpos].
  - assert (x mod (2 * m) = x + 2 * m) as -> by (symmetry; apply (Z.mod_unique _ _ (-1)); lia).
    assert (Z.testbit (x + 2 * m) (8 * Z.of_nat n - 1) = true) as ->.
    { rewrite Z.testbit_true by lia. fold m. assert ((x + 2 * m) / m = 1) as -> by (symmetry; apply (Z.div_unique _ _ _ (x + m)); lia). done. }
    cbn [negb]. replace (- (2 * m)) with (Z.shiftl (-1) (8 * Z.of_nat n)) by (rewrite Z.shiftl_mul_pow2 by lia; lia). rewrite lor_byte by lia. f_equal. lia.
  - rewrite Z.mod_small by lia. rewrite (bits_below (8 * Z.of_nat n - 1)) by (fold m; lia). done.
Qed.

Section Fixups.
Context `{A : Arch} (bps : Z) (usn : bytes) (ss : list (bytes * bytes)) (Hss : protected bps usn ss).

Lemma size_le_32 x : 0 <= x < 2 ^ 32 -> wrap size_bits x = x.
Proof. intros H. apply wrap_small. destruct A; cbn in *; lia. Qed.

Lemma zlen_fixed l : l ⊆ ss -> zlen (fixed l) = Z.of_nat (length l) * bps.
Proof.
  intros H. apply zlen_pieces, Forall_forall. intros s Hs. pose proof (pr_shape _ _ _ Hss) as Hf. rewrite Forall_forall in Hf.
  destruct (Hf s) as [H1 H2]; [by apply H|]. rewrite zlen_app. lia.
Qed.

Lemma zlen_stamped l : l ⊆ ss -> zlen (stamped usn l) = Z.of_nat (length l) * bps.
Proof.
  intros H. apply zlen_pieces, Forall_forall. intros s Hs. pose proof (pr_shape _ _ _ Hss) as Hf. rewrite Forall_forall in Hf.
  destruct (Hf s) as [H1 H2]; [by apply H|]. rewrite zlen_app, (pr_usn _ _ _ Hss). lia.
Qed.

(** Wherever the loop stands, the buffer starts with the first sector. *)
Lemma first_sector b t more done todo : ss = (b, t) :: more -> ss = done ++ todo -> exists x, fixed done ++ stamped usn todo = b ++ x.
Proof.
  intros E1 E2. rewrite E1 in E2. destruct done as [|s done]; cbn in E2; [subst todo|injection E2 as <- _].
  - eexists. cbn. by rewrite <- app_assoc.
  - eexists. cbn. by rewrite <- !app_assoc.
Qed.

Lemma fixup_loop_spec pre post t more : ss = (pre ++ (usn ++ concat (snd <$> ss)) ++ post, t) :: more -> forall todo done, ss = done ++ todo ->
  fixup_loop (length todo) (fixed done ++ stamped usn todo) bps (zlen pre) (le usn) (Z.of_nat (length done)) = Some (Some (fixed ss)).
Proof.
  intros Hfirst. pose proof (pr_shape _ _ _ Hss) as Hf. pose proof (pr_small _ _ _ Hss) as Hsm. pose proof (pr_usn _ _ _ Hss) as Hu.
  induction todo as [|s todo IH]; intros done E; [by rewrite E, !app_nil_r|].
  assert (zlen s.1 = bps - 2 /\ zlen s.2 = 2) as [Hs1 Hs2] by (rewrite Forall_forall in Hf; apply Hf; rewrite E; set_solver).
  pose proof (zlen_nonneg s.1). pose proof (zlen_fixed done ltac:(rewrite E; set_solver)) as Hd. pose proof (zlen_stamped todo ltac:(rewrite E; set_solver)) as Ht.
  assert (length ss = length done + S (length todo))%nat as Hl by (rewrite E, length_app; done).
  destruct (first_sector _ _ _ done (s :: todo) Hfirst E) as [x Hx]. cbn [length fixup_loop].
  assert ((Z.of_nat (length done) + 1) * bps < 2 ^ 31) as Hb by nia.
  rewrite (size_le_32 (_ * bps)) by nia. rewrite (size_le_32 (_ - 2)) by nia. rewrite (size_le_32 (_ - 2 + 2)) by nia.
  assert (forall u, fixed done ++ (s.1 ++ u) ++ stamped usn todo = (fixed done ++ s.1) ++ u ++ stamped usn todo) as Has by (intros; by rewrite <- !app_assoc).
  change (stamped usn (s :: todo)) with ((s.1 ++ usn) ++ stamped usn todo) in *.
  replace ((Z.of_nat (length done) + 1) * bps - 2) with (zlen (fixed done ++ s.1)) by (rewrite zlen_app; lia).
  assert (sub_bytes (fixed done ++ (s.1 ++ usn) ++ stamped usn todo) (zlen pre + 2 * (Z.of_nat (length done) + 1)) 2 = Some s.2) as Hfix.
  { rewrite Hx. rewrite <- !app_assoc, (app_assoc usn). replace (Z.of_nat (length done) + 1) with (Z.of_nat (S (length done))) by lia.
    apply (concat_pairs (usn :: (snd <$> ss))).
    - constructor; [done|]. rewrite Forall_fmap. eapply Forall_impl; [exact Hf|]. by intros ? [].
    - assert ((snd <$> ss) !! length done = Some s.2) as Hi by (by rewrite list_lookup_fmap, E, list_lookup_middle). exact Hi. }
  rewrite Has in *. destruct (Z.ltb_spec (zlen ((fixed done ++ s.1) ++ usn ++ stamped usn todo)) (zlen (fixed done ++ s.1) + 2)) as [Hlt|_].
  { rewrite (zlen_app (fixed done ++ s.1)), (zlen_app usn) in Hlt. pose proof (zlen_nonneg (stamped usn todo)). lia. }
  rewrite le_at_at by done. cbn [mbind option_bind]. rewrite Z.eqb_refl. cbn [negb]. rewrite Hfix. cbn [mbind option_bind].
  rewrite put_bytes_at by lia. cbn [mbind option_bind]. specialize (IH (done ++ [s])). rewrite <- app_assoc in IH. specialize (IH E).
  rewrite length_app, Nat2Z.inj_add in IH. unfold fixed in IH at 1. rewrite fmap_app, concat_app in IH. cbn in IH. rewrite app_nil_r, <- !app_assoc in IH. by rewrite <- !app_assoc.
Qed.

(** What was stamped is recovered. *)
Lemma apply_fixup_spec : ntfs_apply_fixup (stamped usn ss) bps = Some (Some (fixed ss)).
Proof.
  destruct (pr_first _ _ _ Hss) as (pre & post & t & more & Hfirst & Hpre & Ho & Hn). pose proof (pr_small _ _ _ Hss). pose proof (pr_count _ _ _ Hss).
  unfold ntfs_apply_fixup. pose proof (zlen_stamped ss (reflexivity _)) as Hz. destruct (first_sector _ _ _ [] ss Hfirst eq_refl) as [x Hx]. cbn in Hx.
  assert (length ss = S (length more)) as Hl by (rewrite Hfirst; done). pose proof (pr_shape _ _ _ Hss) as Hf. rewrite Hfirst in Hf. apply Forall_cons in Hf as [[Hb _] _]. cbn [fst] in Hb.
  pose proof (zlen_nonneg (pre ++ (usn ++ concat (snd <$> ss)) ++ post)).
  destruct (Z.ltb_spec (zlen (stamped usn ss)) bps); [nia|].
  assert (forall o, 0 <= o -> o + 2 <= zlen pre -> le_at 2 (stamped usn ss) o = le_at 2 pre o) as Hle.
  { intros o Ho1 Ho2. rewrite Hx, <- app_assoc. apply (le_at_inner []); lia. }
  unfold hdr_fixup_offset, hdr_fixup_entries in *. rewrite !Hle by lia. rewrite Hn, Ho. cbn [mbind option_bind].
  destruct (Z.eqb_spec (Z.of_nat (length ss) + 1) 0); [lia|].
  assert (zlen pre + (Z.of_nat (length ss) + 1) * 2 <= bps) as Hin.
  { rewrite !zlen_app in Hb. pose proof (zlen_nonneg post). rewrite (pr_usn _ _ _ Hss) in Hb.
    rewrite (zlen_pieces snd 2) in Hb; [lia|]. eapply Forall_impl; [apply (pr_shape _ _ _ Hss)|]. by intros ? []. }
  pose proof (zlen_nonneg pre). rewrite size_le_32 by nia. destruct (Z.ltb_spec (zlen (stamped usn ss)) (zlen pre + (Z.of_nat (length ss) + 1) * 2)); [nia|].
  assert (le_at 2 (stamped usn ss) (zlen pre) = Some (le usn)) as -> by (rewrite Hx, <- !app_assoc; apply le_at_at; by rewrite (pr_usn _ _ _ Hss)).
  cbn [mbind option_bind]. rewrite Z.add_simpl_r, Nat2Z.id. by apply (fixup_loop_spec pre post t more Hfirst ss []).
Qed.

End Fixups.

Section Decoding.
Context `{A : Arch} {W : Type}.

Lemma append_run (l : NTFSRunlist) v len c (w : W) t : 0 <= capacity l -> Z.of_nat (length (runs l)) < 2 ^ 24 ->
  exists cap t', ntfs_runlist_append all_ok l v len c (w, t) = Some (w, t', Some (mkRunlist (runs l ++ [mkRun v len c]) cap)) /\ 0 <= cap.
Proof.
  intros Hc Hl. unfold ntfs_runlist_append, ntfs_runlist_reserve. rewrite size_le_32 by lia. set (n := Z.of_nat (length (runs l)) + 1) in *.
  destruct (Z.leb_spec n (capacity l)); [by eexists _, _|].
  set (c0 := if capacity l =? 0 then 4 else capacity l). assert (0 < c0 <= Z.max 4 n) by (unfold c0; destruct (Z.eqb_spec (capacity l) 0); lia).
  assert (2 ^ 29 <= SIZE_MAX / 4 /\ 2 ^ 32 - 1 <= SIZE_MAX) as [Hs1 Hs2] by (unfold SIZE_MAX; destruct A; vm_compute; split; discriminate).
  assert (exists cap, grow_capacity grow_fuel c0 n = Some cap /\ 0 <= cap < 2 ^ 26) as (cap & E & Hcap).
  { destruct (Z.lt_ge_cases c0 n); [destruct (grow_capacity_spec c0 n) as (c' & -> & ?); [lia|lia|]; exists c'; split; [done|lia]|].
    exists c0. split; [|lia]. unfold grow_fuel. cbn [grow_capacity]. by destruct (Z.ltb_spec c0 n); [lia|]. }
  rewrite E. unfold sizeof_NTFSDataRun. exists cap, (S t). split; [|lia]. unfold mbind, st_bind, lift. cbn [mbind option_bind].
  by destruct (Z.ltb_spec SIZE_MAX (cap * 24)); [lia|].
Qed.

Lemma code_header a b : (1 <= a <= 8)%nat -> (b <= 7)%nat ->
  Z.land (Z.of_nat a + 16 * Z.of_nat b) 15 = Z.of_nat a /\ Z.land (Z.shiftr (Z.of_nat a + 16 * Z.of_nat b) 4) 15 = Z.of_nat b.
Proof. intros Ha Hb. do 9 (destruct a as [|a]; [do 8 (destruct b as [|b]; [vm_compute; split; reflexivity|]); lia|]). lia. Qed.

Lemma data_runs_loop_spec record data len cs : len < 2 ^ 32 -> forall prev vcn0 offset pre post l fuel (w : W) t,
  record = pre ++ encode_runs prev cs ++ 0 :: post -> zlen pre = data + offset -> 0 <= offset -> offset + zlen (encode_runs prev cs) < len ->
  codes_ok prev vcn0 cs -> 0 <= vcn0 -> 0 <= capacity l -> Z.of_nat (length (runs l) + length cs) < 2 ^ 24 -> (length cs < fuel)%nat ->
  exists cap t', data_runs_loop all_ok fuel record data len offset vcn0 prev l (w, t) =
    Some (w, t', (mkRunlist (runs l ++ decoded vcn0 cs) cap, negb (bool_decide (runs l ++ decoded vcn0 cs = [])))).
Proof.
  intros Hlen. induction cs as [|c cs IH]; intros prev vcn0 offset pre post l fuel w t Er Hpre Ho Hin Hok Hv Hcap Hn Hf; (destruct fuel as [|fuel]; [cbn in Hf; lia|]); cbn [data_runs_loop].
  - change (zlen (encode_runs prev [])) with 0 in Hin. destruct (Z.ltb_spec offset len); [|lia]. cbn [negb]. subst record. rewrite <- Hpre.
    assert (le_at 1 (pre ++ [0] ++ post) (zlen pre) = Some 0) as E by (by apply le_at_at). exists (capacity l), t. unfold mbind, st_bind, lift.
    cbn [encode_runs app] in *. rewrite E. cbn. rewrite app_nil_r. by destruct l.
  - destruct Hok as ((H1 & H2 & H3 & H4 & H5) & H6 & H7). cbn [encode_runs length] in *. unfold encode_run in *.
    set (h := Z.of_nat (len_size c) + 16 * Z.of_nat (off_size c)) in *. set (lb := le_bytes (len_size c) (c_length c)) in *. set (ob := le_bytes (off_size c) (c_lcn c - prev)) in *.
    assert (zlen lb = Z.of_nat (len_size c) /\ zlen ob = Z.of_nat (off_size c)) as [Hlb Hob] by (unfold lb, ob; by rewrite !zlen_le_bytes).
    rewrite zlen_app, zlen_cons, zlen_app in Hin. pose proof (zlen_nonneg (encode_runs (c_lcn c) cs)).
    set (rest := encode_runs (c_lcn c) cs ++ 0 :: post) in *.
    assert (record = pre ++ [h] ++ lb ++ ob ++ rest) as Er' by (rewrite Er; cbn; by rewrite <- !app_assoc).
    destruct (Z.ltb_spec offset len); [|lia]. cbn [negb]. rewrite <- Hpre.
    assert (le_at 1 record (zlen pre) = Some h) as -> by (rewrite Er', le_at_at by done; cbn; f_equal; lia).
    rewrite lift_bind.
    destruct (Z.eqb_spec h 0); [lia|]. destruct (code_header (len_size c) (off_size c)) as [Ha Hb]; [lia..|]. fold h in Ha, Hb. rewrite Ha, Hb.
    destruct (Z.eqb_spec (Z.of_nat (len_size c)) 0); [lia|]. cbn [orb]. rewrite (size_le_32 (offset + 1 + _)) by lia. rewrite size_le_32 by lia.
    destruct (Z.ltb_spec len (offset + 1 + Z.of_nat (len_size c) + Z.of_nat (off_size c))); [lia|].
    assert (sub_bytes record (data + (offset + 1)) (Z.of_nat (len_size c)) = Some lb) as ->.
    { replace (data + (offset + 1)) with (zlen (pre ++ [h])) by (rewrite zlen_app; change (zlen [h]) with 1; lia). rewrite Er', app_assoc. by apply sub_bytes_at. }
    rewrite lift_bind. unfold lb. rewrite or_length by lia. fold lb.
    rewrite lift_bind. destruct (Z.ltb_spec 0 (Z.of_nat (off_size c))); [|lia].
    assert (sub_bytes record (data + (offset + 1 + Z.of_nat (len_size c))) (Z.of_nat (off_size c)) = Some ob) as ->.
    { replace (data + (offset + 1 + Z.of_nat (len_size c))) with (zlen (pre ++ [h] ++ lb)) by (rewrite !zlen_app; change (zlen [h]) with 1; lia). rewrite Er', (app_assoc [h]), app_assoc. by apply sub_bytes_at. }
    cbn [mbind option_bind]. unfold ob. rewrite or_offset by lia. cbn [mbind option_bind]. rewrite extend_sign_spec by lia. cbn [mbind option_bind]. fold ob.
    assert (add_s64 prev (c_lcn c - prev) = Some (c_lcn c)) as ->.
    { unfold add_s64. replace (prev + (c_lcn c - prev)) with (c_lcn c) by lia. destruct (Z.leb_spec (- 2 ^ 63) (c_lcn c)); [|lia]. by destruct (Z.ltb_spec (c_lcn c) (2 ^ 63)); [|lia]. }
    rewrite lift_bind.
    destruct (append_run l vcn0 (c_length c) (c_lcn c) w t Hcap) as (cap & t1 & E & Hc1); [lia|]. rewrite (bind_run _ _ _ _ _ E).
    rewrite wrap_small by lia.
    destruct (IH (c_lcn c) (vcn0 + c_length c) (offset + 1 + Z.of_nat (len_size c) + Z.of_nat (off_size c)) (pre ++ [h] ++ lb ++ ob) post (mkRunlist (runs l ++ [mkRun vcn0 (c_length c) (c_lcn c)]) cap) fuel w t1)
      as (cap2 & t2 & E2); cbn [runs capacity]; try lia; try done.
    { rewrite Er'. unfold rest. by rewrite <- !app_assoc. }
    { rewrite !zlen_app. change (zlen [h]) with 1. lia. }
    { rewrite length_app. cbn. lia. }
    exists cap2, t2. rewrite E2. cbn [runs decoded]. by rewrite <- app_assoc.
Qed.

End Decoding.

Section Contents.
Context `{A : Arch} {W : Type} `{!BlockDriver W} (d : BlockDevice) `{!DiskLaws d}.

Local Abbreviation bs := (logical_block_size d).
Local Abbreviation same := (same_sectors d).

(** ** Where the volume lies *)

Definition nbase (v : NTFSVolume) : Z := match nv_backing v with Some vol => start_lba vol | None => nv_lba_offset v end.

Definition nbytes (v : NTFSVolume) : Z :=
  match nv_backing v with Some vol => block_count vol | None => disk_size (d := d) - nv_lba_offset v end * bs.

Record ntfs_ok (v : NTFSVolume) : Prop := {
  no_place : match nv_backing v with
             | Some vol => volume_on d vol
             | None => nv_device v = Some d /\ 0 <= nv_lba_offset v <= disk_size (d := d)
             end;
  no_disk : disk_size (d := d) * bs < 2 ^ 62;
  no_block : nv_logical_block_size v = bs;
  no_small : bs <= 2 ^ 16;
  no_cluster : 0 < nv_bytes_per_cluster v < 2 ^ 32
}.

Definition ntfs_byte (v : NTFSVolume) (w : W) (o : Z) : Z := disk_byte d w (nbase v * bs + o).

Lemma nslice_same v w w' o n : same w w' -> bslice (ntfs_byte v w') o n = bslice (ntfs_byte v w) o n.
Proof. intros H. apply bslice_ext. intros i _. by apply same_bytes. Qed.

Hypothesis Hreads : reads_succeed d (disk_size (d := d)).
Hypothesis Hops : exists o, d_ops d = Some o /\ has_read o = true.

Lemma read_blocks_run v w t s n cap : ntfs_ok v -> 0 <= s -> 0 < n -> (s + n) * bs <= nbytes v -> n * bs <= cap ->
  exists w', ntfs_read_blocks v s n cap (w, t) = Some (w', t, Some (bslice (ntfs_byte v w) (s * bs) (n * bs))) /\ same w w'.
Proof.
  intros [Hp Hd _ _ _] Hs Hn Hv Hc. pose proof (block_size_pos (d := d)) as Hb. unfold ntfs_read_blocks, nbytes in *.
  destruct (Z.eqb_spec n 0); [lia|]. cbn [fst snd].
  assert (forall lba, 0 <= lba -> lba = nbase v + s -> lba + n <= disk_size (d := d) ->
    exists w', (let '(w1, r) := BlockDevice_Read w (Some d) lba n in r ← into_buffer cap r; Some ((w1, t), r)) = Some (w', t, Some (bslice (ntfs_byte v w) (s * bs) (n * bs))) /\ same w w') as Hr.
  { intros lba Hl E Hn'. destruct (device_read d Hreads Hops w lba n) as (w' & -> & Hw); [lia..|]. exists w'. split; [|done].
    rewrite into_buffer_fits by (rewrite zlen_bslice; nia). cbn. do 3 f_equal. unfold bslice, ntfs_byte. apply list_fmap_ext. intros k i _. f_equal. subst lba. lia. }
  unfold nbase in *. destruct (nv_backing v) as [vol|].
  - pose proof Hp as (Hdev & H1 & H2 & H3 & H4). assert (s + n <= block_count vol) by nia.
    destruct (window_arith d vol s n Hp Hs Hn) as [Hwin Hlt]; [nia|]. cbn [Volume_ReadSectors negb orb]. destruct (Z.eqb_spec n 0); [lia|].
    rewrite Hlt. destruct (Z.ltb_spec (block_count vol) (s + n)); [lia|]. rewrite Hwin, Hdev. apply Hr; lia.
  - destruct Hp as [-> Ho]. assert (s + n <= disk_size (d := d) - nv_lba_offset v) by nia. rewrite wrap_small by nia. apply Hr; lia.
Qed.

(** The blocks around a range of bytes *)
Lemma around o n : 0 <= o -> 0 < n -> let s := o / bs in let e := (o + n + bs - 1) / bs in
  0 <= s /\ s < e /\ s * bs <= o < s * bs + bs /\ o + n <= e * bs /\ e * bs < o + n + bs.
Proof.
  intros Ho Hn. cbv zeta. pose proof (block_size_pos (d := d)) as Hb. pose proof (Z.div_mod o bs). pose proof (Z.mod_pos_bound o bs).
  pose proof (Z.div_mod (o + n + bs - 1) bs). pose proof (Z.mod_pos_bound (o + n + bs - 1) bs). pose proof (Z.div_pos o bs). nia.
Qed.

Lemma read_bytes_run v w t o n : ntfs_ok v -> 0 <= o -> 0 < n < 2 ^ 31 -> o + n <= nbytes v ->
  exists w', ntfs_read_bytes all_ok v o n (w, t) = Some (w', S t, Some (bslice (ntfs_byte v w) o n)) /\ same w w'.
Proof.
  intros Hv Ho Hn Hb. pose proof (block_size_pos (d := d)) as Hbs. pose proof (no_small v Hv). unfold ntfs_read_bytes. destruct (Z.eqb_spec n 0); [lia|].
  assert (ntfs_device_block_size v = bs) as -> by (unfold ntfs_device_block_size; rewrite (no_block v Hv); destruct (Z.eqb_spec bs 0); [lia|done]).
  destruct (around o n Ho) as (H1 & H2 & H3 & H4 & H5); [lia|].
  assert (nbytes v < 2 ^ 62 /\ exists k, nbytes v = k * bs) as [Hlim [k Hk]].
  { split; [|by eexists]. pose proof (no_disk v Hv). pose proof (no_place v Hv) as Hp. unfold nbytes. destruct (nv_backing v) as [vol|]; [destruct Hp as (_ & ? & ? & ? & ?); nia|nia]. }
  rewrite (wrap_small 64 (o + n)), (wrap_small 64 (o + n + bs - 1)) by lia. set (s := o / bs) in *. set (e := (o + n + bs - 1) / bs) in *.
  assert (e < 2 ^ 63 /\ (e - s) * bs < 2 ^ 32 /\ e - s < 2 ^ 32) as (He & Hes & Hes') by (split_and!; nia).
  rewrite (wrap_small 64 (e - s)) by lia. destruct (Z.eqb_spec (e - s) 0); [lia|].
  rewrite (wrap_small 64 ((e - s) * bs)), (size_le_32 ((e - s) * bs)), (wrap_small 32 (e - s)), (size_le_32 (o - s * bs)) by nia.
  assert (e <= k) by nia.
  destruct (read_blocks_run v w (S t) s (e - s) ((e - s) * bs) Hv H1) as (w' & Hr & Hw); [lia|nia|lia|]. exists w'. split; [|done].
  unfold mbind, st_bind, io_malloc, all_ok. cbn [fst snd negb]. rewrite Hr. unfold lift. rewrite bslice_sub by nia. by replace (s * bs + (o - s * bs)) with o by lia.
Qed.

(** ** Data runs *)

Definition run_ok (v : NTFSVolume) (r : NTFSDataRun) : Prop :=
  0 <= lcn r /\ 0 <= run_length r /\ (lcn r + run_length r) * nv_bytes_per_cluster v <= nbytes v.

Definition run_bytes (v : NTFSVolume) (w : W) (r : NTFSDataRun) : bytes :=
  bslice (ntfs_byte v w) (lcn r * nv_bytes_per_cluster v) (run_length r * nv_bytes_per_cluster v).

Definition run_data (v : NTFSVolume) (w : W) (rs : list NTFSDataRun) : bytes := concat (run_bytes v w <$> rs).

Lemma run_data_same v w w' rs : same w w' -> run_data v w' rs = run_data v w rs.
Proof. intros H. unfold run_data. f_equal. apply list_fmap_ext. intros k r _. by apply nslice_same. Qed.

Lemma nbytes_limit v : ntfs_ok v -> nbytes v < 2 ^ 62.
Proof.
  intros Hv. pose proof (block_size_pos (d := d)). pose proof (no_disk v Hv). pose proof (no_place v Hv) as Hp. unfold nbytes.
  destruct (nv_backing v) as [vol|]; [destruct Hp as (_ & ? & ? & ? & ?); nia|nia].
Qed.

Lemma run_arith v r : ntfs_ok v -> run_ok v r ->
  wrap 64 (run_length r * nv_bytes_per_cluster v) = run_length r * nv_bytes_per_cluster v /\
  wrap 64 (wrap 64 (lcn r) * nv_bytes_per_cluster v) = lcn r * nv_bytes_per_cluster v /\
  0 <= lcn r * nv_bytes_per_cluster v /\ 0 <= run_length r * nv_bytes_per_cluster v /\
  lcn r * nv_bytes_per_cluster v + run_length r * nv_bytes_per_cluster v <= nbytes v.
Proof.
  intros Hv (H1 & H2 & H3). pose proof (nbytes_limit v Hv). pose proof (no_cluster v Hv).
  assert (0 <= lcn r <= nbytes v) by nia. rewrite (wrap_small 64 (lcn r)) by lia. rewrite !wrap_small by nia. repeat split; nia.
Qed.

Lemma take_drop_step (b rest : bytes) rel rem : 0 <= rel < zlen b -> 0 <= rem ->
  let chunk := Z.min (zlen b - rel) rem in
  take (Z.to_nat rem) (drop (Z.to_nat rel) (b ++ rest)) =
  take (Z.to_nat chunk) (drop (Z.to_nat rel) b) ++ take (Z.to_nat (rem - chunk)) rest.
Proof.
  intros Hr Hm. cbv zeta. unfold zlen in *. rewrite drop_app_le by lia. rewrite take_app. rewrite length_drop.
  f_equal; [|f_equal; lia]. destruct (decide (rem <= Z.of_nat (length b) - rel)); [f_equal; lia|]. rewrite !take_ge; [done|rewrite length_drop; lia..].
Qed.

Lemma runs_loop_spec v rs : ntfs_ok v -> Forall (run_ok v) rs -> forall w t rel rem, 0 <= rel -> 0 <= rem < 2 ^ 31 ->
  let part := take (Z.to_nat rem) (drop (Z.to_nat rel) (run_data v w rs)) in
  exists w' t', runs_loop all_ok v rs rel rem (w, t) = Some (w', t', (part, rem - zlen part, true)) /\ same w w'.
Proof.
  intros Hv Hrs. induction Hrs as [|r rs Hr Hrs IH]; intros w t rel rem Hrel Hrem; cbn [runs_loop]; cbv zeta.
  - exists w, t. split; [|by apply same_refl]. unfold run_data. cbn. rewrite drop_nil, take_nil. cbn. by rewrite Z.sub_0_r.
  - destruct (Z.ltb_spec 0 rem) as [Hpos|]; cbn [negb].
    2: { exists w, t. split; [|by apply same_refl]. replace rem with 0 by lia. done. }
    destruct (run_arith v r Hv Hr) as (-> & -> & H1 & H2 & H3). set (n := run_length r * nv_bytes_per_cluster v) in *.
    assert (zlen (run_bytes v w r) = n) as Hn by (unfold run_bytes; by rewrite zlen_bslice).
    destruct (Z.leb_spec n rel) as [Hle|Hlt].
    { destruct (IH w t (rel - n) rem) as (w' & t' & E & Hw); [lia..|]. exists w', t'. rewrite E. split; [|done].
      change (run_data v w (r :: rs)) with (run_bytes v w r ++ run_data v w rs).
      rewrite (drop_app_ge (run_bytes v w r)) by (unfold zlen in Hn; lia).
      replace (Z.to_nat (rel - n)) with (Z.to_nat rel - length (run_bytes v w r))%nat by (unfold zlen in Hn; lia). done. }
    pose proof (nbytes_limit v Hv). rewrite (wrap_small 64 (lcn r * _ + rel)) by lia. rewrite (size_le_32 (Z.min _ _)) by lia.
    destruct (read_bytes_run v w t (lcn r * nv_bytes_per_cluster v + rel) (Z.min (n - rel) rem) Hv) as (w1 & E1 & Hw1); [lia..|].
    destruct (IH w1 (S t) 0 (rem - Z.min (n - rel) rem)) as (w2 & t2 & E2 & Hw2); [lia..|].
    rewrite (bind_run _ _ _ _ _ E1), (bind_run _ _ _ _ _ E2). exists w2, t2. split; [|by eapply same_trans].
    rewrite drop_0, (run_data_same v w w1 rs Hw1). cbn [fst snd]. unfold mret, st_ret. do 2 f_equal.
    change (run_data v w (r :: rs)) with (run_bytes v w r ++ run_data v w rs). rewrite take_drop_step by lia. rewrite Hn.
    assert (take (Z.to_nat (Z.min (n - rel) rem)) (drop (Z.to_nat rel) (run_bytes v w r)) = bslice (ntfs_byte v w) (lcn r * nv_bytes_per_cluster v + rel) (Z.min (n - rel) rem)) as ->.
    { pose proof (bslice_sub (ntfs_byte v w) (lcn r * nv_bytes_per_cluster v) n rel (Z.min (n - rel) rem)) as Hs. fold n in Hs.
      rewrite sub_bytes_ok in Hs by (rewrite ?zlen_bslice; lia). specialize (Hs ltac:(lia) ltac:(lia) ltac:(lia)). by injection Hs. }
    rewrite zlen_app, zlen_bslice by lia. f_equal. f_equal. lia.
Qed.

(** ** Records of the master file table *)

Record mft_ok (v : NTFSVolume) : Prop := {
  mo_volume : ntfs_ok v;
  mo_runs : runs (nv_mft_runlist v) <> [];
  mo_placed : Forall (run_ok v) (runs (nv_mft_runlist v));
  mo_size : 0 < nv_mft_record_size v <= 2 ^ 20
}.

(** Record [k] lies on the disk, protected, and is in use. *)
Record record_on (v : NTFSVolume) (w : W) (k : Z) (rec : bytes) : Prop := {
  ro_index : 0 <= k < 2 ^ 43;
  ro_disk : exists usn ss, protected (nv_bytes_per_sector v) usn ss /\ rec = fixed ss /\ Z.of_nat (length ss) * nv_bytes_per_sector v = nv_mft_record_size v /\
    take (Z.to_nat (nv_mft_record_size v)) (drop (Z.to_nat (k * nv_mft_record_size v)) (run_data v w (runs (nv_mft_runlist v)))) = stamped usn ss;
  ro_signature : sub_bytes rec 0 4 = Some NTFS_SIGNATURE;
  ro_used : exists flags, le_at 2 rec hdr_flags = Some flags /\ Z.land flags NTFS_FILE_FLAG_IN_USE <> 0
}.

Lemma record_length v w k rec : record_on v w k rec -> zlen rec = nv_mft_record_size v.
Proof. intros [_ (usn & ss & Hp & -> & Hl & _) _ _]. by rewrite (zlen_fixed _ _ _ Hp) by done. Qed.

Lemma read_record_spec v w t k rec : mft_ok v -> record_on v w k rec ->
  exists w' t', ntfs_read_mft_record all_ok v k (w, t) = Some (w', t', Some rec) /\ same w w'.
Proof.
  intros [Hv Hne Hr Hs] [Hk (usn & ss & Hp & -> & Hl & Hd) Hsig (flags & Hf & Hu)]. unfold ntfs_read_mft_record. rewrite bool_decide_false by done.
  rewrite wrap_small by nia.
  destruct (runs_loop_spec v _ Hv Hr w t (k * nv_mft_record_size v) (nv_mft_record_size v)) as (w' & t' & E & Hw); [nia|lia|]. rewrite Hd in E.
  rewrite (zlen_stamped _ _ _ Hp), Hl, Z.sub_diag in E by done. exists w', t'. split; [|done].
  assert (forall X (g : option bytes -> io W X), ((x ← runs_loop all_ok v (runs (nv_mft_runlist v)) (k * nv_mft_record_size v) (nv_mft_record_size v);
    mret (if x.2 && negb (0 <? x.1.2) then Some x.1.1 else None)) ≫= g) (w, t) = g (Some (stamped usn ss)) (w', t')) as Hb.
  { intros X g. unfold mbind, st_bind. by rewrite E. }
  rewrite Hb, (apply_fixup_spec _ _ _ Hp), lift_bind, Hsig, lift_bind, Hf, lift_bind. rewrite bool_decide_true by done. cbn [negb].
  by destruct (Z.eqb_spec (Z.land flags NTFS_FILE_FLAG_IN_USE) 0).
Qed.

(** ** Attributes of a record *)

Definition attribute (a : bytes) (type : Z) : Prop := le_at 4 a 0 = Some type /\ type <> ATTR_END /\ le_at 4 a attr_length = Some (zlen a).

(** The attributes lie one after the other up to the end mark. *)
Definition attributes_of (rec : bytes) (attrs : list bytes) : Prop :=
  exists pre post used, rec = pre ++ concat attrs ++ le_bytes 4 ATTR_END ++ post /\
    le_at 2 rec hdr_first_attribute_offset = Some (zlen pre) /\ le_at 4 rec hdr_bytes_in_use = Some used /\ zlen pre < used.

Lemma le_at_bound n a o x : le_at n a o = Some x -> 0 <= o /\ 0 <= n /\ o + n <= zlen a.
Proof. unfold le_at, sub_bytes. destruct (Z.leb_spec 0 o), (Z.leb_spec 0 n), (Z.leb_spec (o + n) (zlen a)); cbn; intros; simplify_eq; done. Qed.

Lemma field_in pre a post n o x : le_at n a o = Some x -> le_at n (pre ++ a ++ post) (zlen pre + o) = Some x.
Proof. intros H. pose proof (le_at_bound n a o x H) as (? & ? & ?). by rewrite le_at_inner. Qed.

(** Attributes the body passes by *)
Lemma attributes_pass {S} (body : Z -> Z -> S -> io W (S * bool)) rec s (before : list bytes) :
  Forall (fun a => exists type, attribute a type /\ forall pre post st, rec = pre ++ a ++ post -> body type (zlen pre) s st = Some (st, (s, true))) before ->
  forall pre rest fuel st, rec = pre ++ concat before ++ rest -> (length before <= fuel)%nat ->
  attributes_loop body fuel rec (Some (zlen pre)) s st = attributes_loop body (fuel - length before) rec (Some (zlen (pre ++ concat before))) s st.
Proof.
  induction 1 as [|a before (type & (Ht & Hne & Hl) & Hb) Hbs IH]; intros pre rest fuel st Er Hf; [cbn; by rewrite app_nil_r, Nat.sub_0_r|].
  cbn [length concat] in *. destruct fuel as [|fuel]; [lia|]. rewrite <- app_assoc in Er. cbn [attributes_loop].
  rewrite Er at 1. rewrite <- (Z.add_0_r (zlen pre)) at 1. rewrite (field_in _ _ _ _ _ _ Ht), lift_bind. destruct (Z.eqb_spec type ATTR_END); [done|].
  rewrite (bind_run _ _ _ _ _ (Hb pre _ st Er)). cbn [fst snd negb]. unfold ntfs_next_attribute. rewrite Er at 1.
  rewrite (field_in _ _ _ _ _ _ Hl). cbn [mbind option_bind]. pose proof (le_at_bound _ _ _ _ Hl) as (_ & _ & Hz). unfold attr_length in Hz.
  destruct (Z.eqb_spec (zlen a) 0); [lia|]. rewrite lift_bind. rewrite <- zlen_app. rewrite (IH (pre ++ a) rest fuel st) by (rewrite <- ?app_assoc; (done || lia)).
  by rewrite <- app_assoc.
Qed.

(** The first attribute the body stops at *)
Lemma attributes_find {S} (body : Z -> Z -> S -> io W (S * bool)) rec s st before a after type (Q : W * nat -> S -> Prop) :
  attributes_of rec (before ++ a :: after) -> attribute a type ->
  Forall (fun a => exists type, attribute a type /\ forall pre post st, rec = pre ++ a ++ post -> body type (zlen pre) s st = Some (st, (s, true))) before ->
  (forall pre post, rec = pre ++ a ++ post -> exists st' s', body type (zlen pre) s st = Some (st', (s', false)) /\ Q st' s') ->
  exists st' s', for_attributes body rec s st = Some (st', s') /\ Q st' s'.
Proof.
  intros (pre & post & used & Er & H1 & H2 & H3) (Ht & Hne & Hl) Hb Ha. unfold for_attributes, ntfs_first_attribute. rewrite H1, H2. cbn [mbind option_bind].
  destruct (Z.leb_spec used (zlen pre)); [lia|]. rewrite lift_bind. rewrite concat_app in Er. cbn [concat] in Er. rewrite <- !app_assoc in Er.
  assert (length before <= length rec)%nat as Hlen.
  { assert (length before <= length (concat before))%nat; [|rewrite Er, !length_app; lia]. clear -Hb. induction Hb as [|b bs (type & (_ & _ & Hl) & _) _ IH]; [done|].
    pose proof (le_at_bound _ _ _ _ Hl) as (_ & _ & Hz). unfold zlen, attr_length in Hz. cbn [concat length]. rewrite length_app. lia. }
  rewrite (attributes_pass body rec s before Hb pre _ _ st Er) by lia.
  destruct (Datatypes.S (length rec) - length before)%nat as [|fuel] eqn:E; [lia|]. cbn [attributes_loop]. rewrite app_assoc in Er.
  destruct (Ha _ _ Er) as (st' & s' & Hst & HQ). exists st', s'. split; [|done].
  rewrite Er at 1. rewrite <- (Z.add_0_r (zlen _)) at 1. rewrite (field_in _ _ _ _ _ _ Ht), lift_bind. destruct (Z.eqb_spec type ATTR_END); [done|].
  by rewrite (bind_run _ _ _ _ _ Hst).
Qed.

(** ** The contents of a file *)

(** An attribute that is not the unnamed data of the file *)
Definition other_attribute (a : bytes) : Prop :=
  exists type, attribute a type /\ (type = NTFS_ATTR_DATA -> exists n, le_at 1 a attr_name_length = Some n /\ n <> 0).

(** The unnamed data, in the record itself or in clusters *)
Inductive data_attribute (v : NTFSVolume) (w : W) (a data : bytes) : Prop :=
  | Resident value_offset : le_at 1 a attr_non_resident = Some 0 -> le_at 2 a attr_value_offset = Some value_offset ->
      le_at 4 a attr_value_length = Some (zlen data) -> sub_bytes a value_offset (zlen data) = Some data -> data_attribute v w a data
  | NonResident flag h cs post : le_at 1 a attr_non_resident = Some flag -> flag <> 0 -> le_at 8 a attr_data_size = Some (zlen data) ->
      le_at 2 a attr_data_run_offset = Some (zlen h) -> a = h ++ encode_runs 0 cs ++ 0 :: post -> cs <> [] -> codes_ok 0 0 cs ->
      Forall (run_ok v) (decoded 0 cs) -> data = take (length data) (run_data v w (decoded 0 cs)) -> data_attribute v w a data.

Definition file_on (v : NTFSVolume) (w : W) (k : Z) (data : bytes) : Prop :=
  exists rec before a after, record_on v w k rec /\ attributes_of rec (before ++ a :: after) /\ Forall other_attribute before /\
    attribute a NTFS_ATTR_DATA /\ le_at 1 a attr_name_length = Some 0 /\ data_attribute v w a data.

Lemma fetch_passes rec s a : other_attribute a ->
  exists type, attribute a type /\ forall pre post (st : W * nat), rec = pre ++ a ++ post -> fetch_body all_ok rec type (zlen pre) s st = Some (st, (s, true)).
Proof.
  intros (type & Ha & Hn). exists type. split; [done|]. intros pre post st ->. unfold fetch_body. destruct (Z.eqb_spec type NTFS_ATTR_DATA) as [E|]; [|done].
  destruct (Hn E) as (n & Hl & Hn0). cbn [negb]. rewrite (field_in _ _ _ _ _ _ Hl), lift_bind. by destruct (Z.eqb_spec n 0).
Qed.

Lemma codes_length cs prev : (length cs <= length (encode_runs prev cs))%nat.
Proof. revert prev. induction cs as [|c cs IH]; intros prev; [done|]. cbn [encode_runs length]. rewrite length_app. specialize (IH (c_lcn c)). cbn [encode_run length]. lia. Qed.

(** What is fetched: the value of a resident attribute, or the runs *)
Definition fetched (v : NTFSVolume) (w : W) (data : bytes) (st : W * nat) (s : NTFSRunlist * option Fetched) : Prop :=
  st.1 = w /\ exists r, s.2 = Some (zlen data, r) /\
    (r = Some data \/ r = None /\ runs s.1 <> [] /\ Forall (run_ok v) (runs s.1) /\ data = take (length data) (run_data v w (runs s.1))).

Lemma fetch_resident v w t pre a post data l value_offset : le_at 1 a attr_name_length = Some 0 -> le_at 1 a attr_non_resident = Some 0 ->
  le_at 2 a attr_value_offset = Some value_offset -> le_at 4 a attr_value_length = Some (zlen data) -> sub_bytes a value_offset (zlen data) = Some data ->
  exists st' s', fetch_body all_ok (pre ++ a ++ post) NTFS_ATTR_DATA (zlen pre) (l, None) (w, t) = Some (st', (s', false)) /\ fetched v w data st' s'.
Proof.
  intros Hname Hnr Hvo Hvl Hsub. exists (w, if bool_decide (data = []) then t else S t), (l, Some (zlen data, Some data)).
  split; [|split; [done|]; eexists; split; [done|by left]]. unfold fetch_body. cbn [negb Z.eqb NTFS_ATTR_DATA Pos.eqb].
  rewrite (field_in _ _ _ _ _ _ Hname), lift_bind. cbn [Z.eqb negb]. rewrite (field_in _ _ _ _ _ _ Hnr), lift_bind. cbn [Z.eqb negb].
  rewrite (field_in _ _ _ _ _ _ Hvo), lift_bind, (field_in _ _ _ _ _ _ Hvl), lift_bind. pose proof (zlen_zero data) as Hz.
  destruct (Z.eqb_spec (zlen data) 0) as [E|E]; [apply Hz in E as ->; done|]. rewrite bool_decide_false by naive_solver.
  unfold mbind at 1, st_bind at 1, io_malloc, all_ok. cbn [negb fst snd].
  assert (0 <= value_offset /\ value_offset + zlen data <= zlen a) as [Hvo1 Hvo2].
  { unfold sub_bytes in Hsub. destruct (Z.leb_spec 0 value_offset), (Z.leb_spec 0 (zlen data)), (Z.leb_spec (value_offset + zlen data) (zlen a)); cbn in Hsub; simplify_eq; done. }
  by rewrite sub_bytes_inner, Hsub by (lia || apply zlen_nonneg).
Qed.

Lemma fetch_runs v w t pre post data l flag h cs tail : zlen (pre ++ (h ++ encode_runs 0 cs ++ 0 :: tail) ++ post) <= 2 ^ 20 -> 0 <= capacity l ->
  let a := h ++ encode_runs 0 cs ++ 0 :: tail in
  le_at 4 a attr_length = Some (zlen a) -> le_at 1 a attr_name_length = Some 0 -> le_at 1 a attr_non_resident = Some flag -> flag <> 0 ->
  le_at 8 a attr_data_size = Some (zlen data) -> le_at 2 a attr_data_run_offset = Some (zlen h) -> cs <> [] -> codes_ok 0 0 cs ->
  Forall (run_ok v) (decoded 0 cs) -> data = take (length data) (run_data v w (decoded 0 cs)) ->
  exists st' s', fetch_body all_ok (pre ++ a ++ post) NTFS_ATTR_DATA (zlen pre) (l, None) (w, t) = Some (st', (s', false)) /\ fetched v w data st' s'.
Proof.
  intros Hrec Hcap a Hlen Hname Hnr Hflag Hsize Hro Hcs Hok Hplaced Hdata. fold a in Hrec. pose proof (codes_length cs 0) as Hcl. rewrite !zlen_app in Hrec.
  assert (zlen a = zlen h + (zlen (encode_runs 0 cs) + (1 + zlen tail))) as Hza by (unfold a; rewrite !zlen_app, zlen_cons; lia).
  pose proof (zlen_nonneg pre). pose proof (zlen_nonneg post). pose proof (zlen_nonneg h). pose proof (zlen_nonneg tail). pose proof (zlen_nonneg (encode_runs 0 cs)).
  assert (Z.of_nat (length cs) <= zlen (encode_runs 0 cs)) by (unfold zlen; lia).
  destruct (data_runs_loop_spec (pre ++ a ++ post) (zlen pre + zlen h) (zlen a - zlen h) cs ltac:(lia) 0 0 0 (pre ++ h) (tail ++ post) (ntfs_runlist_reset l)
    (S (length (pre ++ a ++ post))) w t) as (cap & t' & E); cbn [ntfs_runlist_reset runs capacity length]; try lia; try done.
  { unfold a. by rewrite <- !app_assoc. }
  { rewrite zlen_app. lia. }
  { rewrite !length_app. unfold zlen in *. lia. }
  exists (w, t'), (mkRunlist (decoded 0 cs) cap, Some (zlen data, None)).
  assert (decoded 0 cs <> []) as Hd by (by destruct cs). split; [|split; [done|]; eexists; split; [done|by right]].
  unfold fetch_body. cbn [negb Z.eqb NTFS_ATTR_DATA Pos.eqb fst].
  rewrite (field_in _ _ _ _ _ _ Hname), lift_bind. cbn [Z.eqb negb]. rewrite (field_in _ _ _ _ _ _ Hnr), lift_bind. destruct (Z.eqb_spec flag 0); [done|]. cbn [negb].
  cbn [runs ntfs_runlist_reset app] in E. rewrite bool_decide_false in E by done.
  assert (attribute_runs all_ok (pre ++ a ++ post) (zlen pre) l (w, t) = Some (w, t', (mkRunlist (decoded 0 cs) cap, true))) as Har.
  { unfold attribute_runs. rewrite (field_in _ _ _ _ _ _ Hlen), lift_bind, (field_in _ _ _ _ _ _ Hro), lift_bind. unfold ntfs_parse_data_runs. rewrite (wrap_small 32) by lia. exact E. }
  rewrite (bind_run _ _ _ _ _ Har). cbn [fst snd negb]. by rewrite (field_in _ _ _ _ _ _ Hsize), lift_bind.
Qed.

Lemma fetch_spec v w t ref data l : mft_ok v -> file_on v w (ntfs_file_reference_number ref) data -> 0 <= capacity l ->
  exists w' t' s', ntfs_fetch_default_data_runlist all_ok v ref l (w, t) = Some (w', t', s') /\ same w w' /\ fetched v w data (w, t') s'.
Proof.
  intros Hv (rec & before & a & after & Hrec & Hattrs & Hbefore & Ha & Hname & Hdata) Hcap. unfold ntfs_fetch_default_data_runlist.
  destruct (read_record_spec v w (S t) _ rec Hv Hrec) as (w1 & t1 & E1 & Hw1). pose proof (record_length _ _ _ _ Hrec) as Hlen. pose proof (mo_size v Hv).
  destruct (attributes_find (fetch_body all_ok rec) rec (l, None) (w1, t1) before a after NTFS_ATTR_DATA (fetched v w1 data) Hattrs Ha) as ([w2 t2] & s' & E2 & HQ).
  { eapply Forall_impl; [exact Hbefore|]. intros b Hb. by apply fetch_passes. }
  { intros pre post Er. destruct Hdata as [vo Hnr Hvo Hvl Hsub|flag h cs tail Hnr Hflag Hsize Hro -> Hcs Hok Hplaced Hd].
    - rewrite Er. by apply (fetch_resident v w1 t1 pre a post data l vo).
    - rewrite Er. destruct Ha as (_ & _ & Hl). apply (fetch_runs v w1 t1 pre post data l flag); try done; [rewrite <- Er, Hlen; lia|]. by rewrite (run_data_same v w w1). }
  exists w2, t2, s'. unfold mbind at 1, st_bind at 1, io_malloc, all_ok at 1. cbn [negb fst snd]. rewrite (bind_run _ _ _ _ _ E1), E2. split; [done|].
  destruct HQ as (Hst & r & Hr & HQ). cbn in Hst. subst w2. split; [done|]. split; [done|]. exists r. split; [done|]. by rewrite (run_data_same v w w1) in HQ.
Qed.


(** The part of a file that a read of [n] bytes at [offset] gives *)
Definition part_at (data : bytes) (offset n : Z) : bytes := take (Z.to_nat n) (drop (Z.to_nat offset) data).

Lemma zlen_part data offset n : 0 <= offset <= zlen data -> 0 <= n -> zlen (part_at data offset n) = Z.min n (zlen data - offset).
Proof. intros Ho Hn. unfold part_at. rewrite zlen_take, zlen_drop by lia. lia. Qed.

Lemma part_at_min data offset n : 0 <= offset < zlen data -> 0 <= n -> part_at data offset (Z.min n (zlen data - offset)) = part_at data offset n.
Proof.
  intros Ho Hn. unfold part_at. destruct (Z.min_spec n (zlen data - offset)) as [[_ ->]|[? ->]]; [done|]. unfold zlen in *. rewrite !take_ge; [done|rewrite length_drop; lia..].
Qed.

Lemma part_at_prefix k data offset n : (k <= length data)%nat -> 0 <= offset -> 0 <= n -> offset + n <= Z.of_nat k ->
  part_at (take k data) offset n = part_at data offset n.
Proof. intros Hk Ho Hn Hb. unfold part_at. rewrite skipn_firstn_comm, take_take. f_equal. lia. Qed.

Lemma signed_small x : 0 <= x < 2 ^ 63 -> sign_of 64 x = x.
Proof. intros H. unfold sign_of. rewrite wrap_small by lia. by destruct (Z.ltb_spec x (2 ^ (64 - 1))); [|lia]. Qed.

Lemma read_disk_spec v w t info l data offset buffer : mft_ok v -> file_on v w (ntfs_file_reference_number (file_reference info)) data ->
  0 <= capacity l -> zlen data < 2 ^ 63 -> 0 <= offset -> 0 < zlen buffer < 2 ^ 31 ->
  let part := part_at data offset (zlen buffer) in
  exists w' t' l', read_disk all_ok v info l offset buffer (w, t) = Some (w', t', (zlen part, part ++ drop (length part) buffer, l')) /\ same w w'.
Proof.
  intros Hv Hfile Hcap Hd Ho Hb. cbv zeta. destruct (fetch_spec v w t _ data l Hv Hfile Hcap) as (w1 & t1 & [l1 f] & E1 & Hw1 & _ & r & Hf & Hr). cbn [fst snd] in Hf, Hr. subst f.
  unfold read_disk. rewrite (bind_run _ _ _ _ _ E1). destruct (Z.leb_spec (zlen data) offset) as [Hend|Hin].
  { exists w1, t1, l1. split; [|done]. unfold part_at. rewrite drop_ge by (unfold zlen in Hend; lia). by rewrite take_nil. }
  set (n := Z.min (zlen buffer) (zlen data - offset)). rewrite (size_le_32 n) by lia.
  assert (part_at data offset (zlen buffer) = part_at data offset n) as -> by (symmetry; apply part_at_min; lia).
  assert (zlen (part_at data offset n) = n) as Hn by (rewrite zlen_part; lia).
  assert (put_bytes buffer 0 (part_at data offset n) = Some (part_at data offset n ++ drop (length (part_at data offset n)) buffer)) as Hput by (apply put_front; lia). rewrite Hn.
  destruct Hr as [->|(-> & Hne & Hok & Hdata)].
  - exists w1, t1, l1. split; [|done]. rewrite (wrap_small 64 (offset + n)) by lia. destruct (Z.ltb_spec (zlen data) (offset + n)); [lia|]. destruct (Z.ltb_spec 0 n); [|lia].
    rewrite sub_bytes_ok by lia. fold (part_at data offset n). cbn [mbind option_bind]. rewrite Hput, lift_bind. by rewrite signed_small by lia.
  - unfold ntfs_read_from_runlist. rewrite bool_decide_false by done.
    destruct (runs_loop_spec v (runs l1) (mo_volume v Hv) Hok w1 t1 offset n) as (w2 & t2 & E2 & Hw2); [lia..|]. fold (part_at (run_data v w1 (runs l1)) offset n) in E2.
    rewrite (run_data_same v w w1) in E2 by done.
    assert (length data <= length (run_data v w (runs l1)))%nat as Hlen by (apply (f_equal length) in Hdata; rewrite length_take in Hdata; lia).
    assert (part_at (run_data v w (runs l1)) offset n = part_at data offset n) as Hp by (rewrite Hdata; symmetry; apply part_at_prefix; unfold zlen in *; lia).
    rewrite Hp, Hn, Z.sub_diag in E2. exists w2, t2, l1. split; [|by eapply same_trans].
    unfold mbind at 1, st_bind at 1. unfold mbind at 1, st_bind at 1. rewrite E2. cbn [fst snd]. rewrite Hput, lift_bind. cbn [negb fst snd]. unfold mret, st_ret. by rewrite Z.sub_0_r, signed_small by lia.
Qed.

(** C37.  A file on the disk reads back as its contents: whatever its record
    number, with the data in the record or in any placed runs, behind fixups
    that protect the sectors of the record and after any other attributes, a
    read at any offset returns the bytes of the file there, as many as the
    buffer takes and the file has, and changes no sector, node or volume. *)
Theorem ntfs_node_read_spec (fw : FsWorld W NTFSNodeInfo NTFSVolume) n node info v nodes handle data offset buffer :
  n <> NULL -> fw_nodes fw !! n = Some (node, info) -> is_directory info = false -> overlay info = false ->
  fw_volumes fw !! ni_volume info = Some (v, nodes) -> mft_ok v -> file_on v (fw_disk fw) (ntfs_file_reference_number (file_reference info)) data ->
  (forall l, handle = Some l -> 0 <= capacity l) -> zlen data < 2 ^ 63 -> 0 <= offset -> 0 < zlen buffer < 2 ^ 31 ->
  let part := part_at data offset (zlen buffer) in
  exists fw' handle', ntfs_node_read all_ok n handle offset buffer fw = Some (fw', (zlen part, part ++ drop (length part) buffer, handle')) /\
    same (fw_disk fw) (fw_disk fw') /\ fw_nodes fw' = fw_nodes fw /\ fw_volumes fw' = fw_volumes fw.
Proof.
  intros Hn Hnode Hdir Hov Hvol Hv Hfile Hh Hd Ho Hb part. unfold ntfs_node_read. destruct (Z.eqb_spec n NULL); [done|]. destruct (Z.eqb_spec (zlen buffer) 0); [lia|]. cbn [orb].
  rewrite (bind_run _ _ _ _ _ (node_run fw n _ Hnode)). cbn [snd]. rewrite Hdir, Hov, (bind_run _ _ _ _ _ (volume_run fw _ _ Hvol)).
  destruct (read_disk_spec v (fw_disk fw) (fw_clock fw) info (default ntfs_runlist_init handle) data offset buffer Hv Hfile) as (w' & t' & l' & E & Hw); [|lia..|].
  { destruct handle as [l|]; [by apply Hh|]. cbn. lia. }
  eexists (mkFsWorld w' t' (fw_nodes fw) (fw_volumes fw)), _. rewrite (bind_run _ _ _ _ _ (io_run _ fw w' t' _ E)). split; [|done]. done.
Qed.

End Contents.
