(* ===== verification/NtfsOverlay.v ===== *)
(** * Files made at run time on an NTFS volume, and examples

    Files of the overlay behave as sequences of bytes.  The examples are a
    small volume in memory, on which the driver mounts, finds and reads a file,
    and inputs on which it does not do what it means to. *)

From S2P Require Import Prelude Bytes CString BlockDevice DiskStream DiskRead Volume VfsPath Vfs FsWorld Ntfs NtfsNode NtfsSpec.

(** The contents, and what the fields of an overlay file keep *)
Definition overlay_bytes (i : NTFSNodeInfo) : bytes := take (Z.to_nat (overlay_size i)) (default [] (overlay_data i)).

Definition overlay_wf (i : NTFSNodeInfo) : Prop :=
  overlay i = true /\ is_directory i = false /\ 0 <= overlay_size i <= overlay_capacity i /\ zlen (default [] (overlay_data i)) = overlay_capacity i.

(** The operations that change a file, on sequences of bytes *)
Inductive file_op := OpWrite (offset : Z) (data : bytes) | OpTruncate (length : Z).

Definition apply_op (c : bytes) (op : file_op) : bytes :=
  match op with
  | OpWrite offset data => take (Z.to_nat offset) c ++ data ++ drop (Z.to_nat (offset + zlen data)) c
  | OpTruncate n => take (Z.to_nat n) c ++ zeros (n - zlen c)
  end.

Section Overlay.
Context `{A : Arch} {W : Type} `{!BlockDriver W}.

(** Writes start in the file or right behind it; no size comes near the top of
    the address space. *)
Definition allowed (c : bytes) (op : file_op) : Prop :=
  match op with
  | OpWrite offset data => 0 <= offset <= zlen c /\ 0 < zlen data /\ offset + zlen data <= SIZE_MAX / 4
  | OpTruncate n => 0 <= n <= SIZE_MAX / 4
  end.

Fixpoint all_allowed (c : bytes) (ops : list file_op) : Prop :=
  match ops with [] => True | op :: ops => allowed c op /\ all_allowed (apply_op c op) ops end.

Local Abbreviation ntfs := (st (FsWorld W NTFSNodeInfo NTFSVolume)).

(** One operation, and whether it reports success *)
Definition run_op (n : Z) (op : file_op) : ntfs bool :=
  match op with
  | OpWrite offset data => r ← ntfs_node_write all_ok n offset data; mret (r =? zlen data)
  | OpTruncate length => r ← ntfs_node_truncate all_ok n length; mret (bool_decide (r = VFS_RES_OK))
  end.

Fixpoint run_ops (n : Z) (ops : list file_op) : ntfs bool :=
  match ops with [] => mret true | op :: ops => ok ← run_op n op; if ok : bool then run_ops n ops else mret false end.

Lemma size_max_quarter : 0 <= SIZE_MAX / 4 <= SIZE_MAX /\ SIZE_MAX / 4 < 2 ^ 62.
Proof. unfold SIZE_MAX. destruct A; vm_compute; repeat split; discriminate. Qed.

(** The clock goes on, the rest stays. *)
Definition at_clock (fw : FsWorld W NTFSNodeInfo NTFSVolume) (t : nat) : FsWorld W NTFSNodeInfo NTFSVolume :=
  mkFsWorld (fw_disk fw) t (fw_nodes fw) (fw_volumes fw).

Lemma reserve_spec info required fw : overlay_wf info -> 0 <= required <= SIZE_MAX / 4 ->
  exists t' pad cap, ntfs_overlay_reserve all_ok info required fw =
    Some (at_clock fw t', Some (if overlay_capacity info <? required then set_overlay info (Some (default [] (overlay_data info) ++ pad)) (overlay_size info) cap else info)) /\
    (overlay_capacity info < required -> required <= cap /\ zlen pad = cap - overlay_capacity info).
Proof.
  intros (_ & _ & Hs & Hz) Hr. unfold ntfs_overlay_reserve. destruct (Z.leb_spec required (overlay_capacity info)) as [Hle|Hlt].
  { exists (fw_clock fw), [], 0. destruct (Z.ltb_spec (overlay_capacity info) required); [lia|]. split; [by destruct fw|lia]. }
  destruct (Z.ltb_spec (overlay_capacity info) required); [|lia]. set (c0 := if overlay_capacity info =? 0 then 64 else overlay_capacity info).
  assert (overlay_capacity info <= c0 /\ 0 < c0) as [Hc1 Hc0] by (unfold c0; destruct (Z.eqb_spec (overlay_capacity info) 0); lia).
  assert (exists cap, grow_capacity grow_fuel c0 required = Some cap /\ required <= cap) as (cap & E & Hcap).
  { destruct (Z.lt_ge_cases c0 required); [destruct (grow_capacity_spec c0 required) as (c' & -> & ?); [lia|lia|]; exists c'; split; [done|lia]|].
    exists c0. split; [|lia]. unfold grow_fuel. cbn [grow_capacity]. by destruct (Z.ltb_spec c0 required); [lia|]. }
  exists (S (fw_clock fw)), (zeros (cap - overlay_capacity info)), cap. rewrite E, lift_bind. split; [done|]. intros _. split; [done|]. rewrite zlen_zeros. lia.
Qed.

(** The reserved information: the contents are the same and there is room. *)
Lemma reserve_room info required fw : overlay_wf info -> 0 <= required <= SIZE_MAX / 4 ->
  exists t' info' d', ntfs_overlay_reserve all_ok info required fw = Some (at_clock fw t', Some info') /\
    default [] (overlay_data info') = d' /\ take (Z.to_nat (overlay_size info)) d' = overlay_bytes info /\ zlen d' = overlay_capacity info' /\ required <= overlay_capacity info' /\
    (0 < required -> overlay_data info' = Some d') /\ overlay_size info' = overlay_size info /\ overlay_wf info' /\ overlay_size info <= zlen d'.
Proof.
  intros Hwf Hr. destruct (reserve_spec info required fw Hwf Hr) as (t' & pad & cap & E & Hpad). pose proof Hwf as (Ho & Hd & Hs & Hz).
  eexists t', _, _. split; [exact E|]. split; [done|]. destruct (Z.ltb_spec (overlay_capacity info) required) as [Hlt|Hge].
  - destruct Hpad as [Hc Hp]; [done|]. cbn [overlay_data set_overlay default overlay_capacity overlay_size]. unfold overlay_bytes, overlay_wf. cbn [overlay is_directory overlay_size overlay_capacity overlay_data set_overlay default].
    change (id (default [] (overlay_data info) ++ pad)) with (default [] (overlay_data info) ++ pad). rewrite !zlen_app. split_and!; try done; try lia. by rewrite take_app_le by (unfold zlen in Hz; lia).
  - split_and!; try done; try lia. intros Hpos. destruct (overlay_data info); [done|]. change (0 = overlay_capacity info) in Hz. lia.
Qed.

(** ** Each operation *)

Lemma take_over (d data : bytes) off size : 0 <= off <= size -> size <= zlen d -> off + zlen data <= zlen d ->
  take (Z.to_nat (Z.max size (off + zlen data))) (take (Z.to_nat off) d ++ data ++ drop (Z.to_nat (off + zlen data)) d) =
  apply_op (take (Z.to_nat size) d) (OpWrite off data).
Proof.
  intros Ho Hs He. pose proof (zlen_nonneg data). cbn [apply_op]. unfold zlen in *. rewrite take_take, Nat.min_l by lia.
  rewrite take_app_ge by (rewrite length_take; lia). f_equal. rewrite length_take, Nat.min_l by lia. rewrite take_app_ge by lia. f_equal.
  rewrite skipn_firstn_comm. f_equal. lia.
Qed.

(** The world after an operation: the file has the contents [c]. *)
Definition holds (n : Z) (fw fw' : FsWorld W NTFSNodeInfo NTFSVolume) (c : bytes) : Prop :=
  fw_disk fw' = fw_disk fw /\ fw_volumes fw' = fw_volumes fw /\ delete n (fw_nodes fw') = delete n (fw_nodes fw) /\
  exists node info, fw_nodes fw' !! n = Some (node, info) /\ overlay_wf info /\ overlay_bytes info = c.

Lemma put_holds n node info fw t : overlay_wf info ->
  exists fw', put_info n node info (at_clock fw t) = Some (fw', tt) /\ holds n fw fw' (overlay_bytes info).
Proof.
  intros Hwf. eexists. split; [reflexivity|]. cbn. split_and!; [done|done|apply delete_insert_eq|]. exists node, info. split_and!; [apply lookup_insert_eq|done|done].
Qed.

Lemma write_holds n fw off data c : n <> NULL -> holds n fw fw c -> allowed c (OpWrite off data) ->
  exists fw', run_op n (OpWrite off data) fw = Some (fw', true) /\ holds n fw fw' (apply_op c (OpWrite off data)).
Proof.
  intros Hn (_ & _ & _ & node & info & Hnode & Hwf & Hc) (Ho & Hd & Hm). pose proof size_max_quarter as [Hq1 Hq2]. pose proof Hwf as (Hov & Hdir & Hs & Hz).
  assert (zlen c = overlay_size info) as Hlc by (rewrite <- Hc; unfold overlay_bytes; rewrite zlen_take by lia; lia).
  cbn [run_op]. unfold ntfs_node_write. destruct (Z.eqb_spec n NULL); [done|]. destruct (Z.eqb_spec (zlen data) 0); [lia|]. cbn [orb].
  unfold mbind at 1, st_bind at 1. rewrite (bind_run _ _ _ _ _ (node_run fw n _ Hnode)), Hdir, Hov. cbn [orb negb]. rewrite (wrap_small 64) by lia.
  destruct (Z.ltb_spec SIZE_MAX (off + zlen data)); [lia|].
  destruct (reserve_room info (off + zlen data) fw Hwf ltac:(lia)) as (t' & info' & d' & E & Hd' & Htake & Hcap & Hroom & Hsome & Hsz & Hwf' & Hsd).
  rewrite (bind_run _ _ _ _ _ E). rewrite Hsome by lia. cbn [mbind option_bind]. unfold put_bytes. destruct (Z.leb_spec 0 off); [|lia]. destruct (Z.leb_spec (off + zlen data) (zlen d')); [|lia].
  cbn [andb]. rewrite lift_bind. rewrite Hsz.
  set (d2 := take (Z.to_nat off) d' ++ data ++ drop (Z.to_nat (off + zlen data)) d').
  assert ((if overlay_size info <? off + zlen data then off + zlen data else overlay_size info) = Z.max (overlay_size info) (off + zlen data)) as -> by (destruct (Z.ltb_spec (overlay_size info) (off + zlen data)); lia).
  assert (zlen d2 = zlen d') as Hd2 by (unfold d2; rewrite !zlen_app, zlen_take, zlen_drop by lia; lia).
  destruct (put_holds n node (set_sizes (set_overlay info' (Some d2) (overlay_size info) (overlay_capacity info')) (Z.max (overlay_size info) (off + zlen data))) fw t') as (fw' & Ep & Hh).
  { destruct Hwf' as (? & ? & ? & ?). unfold overlay_wf. cbn. split_and!; try done; try lia. }
  exists fw'. rewrite (bind_run _ _ _ _ _ Ep). cbn. rewrite signed_small by (pose proof (zlen_nonneg data); lia). rewrite Z.eqb_refl. split; [done|].
  unfold overlay_bytes in Hh. cbn [overlay_size set_sizes overlay_data set_overlay default] in Hh. unfold id, d2 in Hh. rewrite take_over in Hh by lia. by rewrite Htake, Hc in Hh.
Qed.

Lemma truncate_holds n fw len c : n <> NULL -> holds n fw fw c -> allowed c (OpTruncate len) ->
  exists fw', run_op n (OpTruncate len) fw = Some (fw', true) /\ holds n fw fw' (apply_op c (OpTruncate len)).
Proof.
  intros Hn (_ & _ & _ & node & info & Hnode & Hwf & Hc) Hm. cbn in Hm. pose proof size_max_quarter as [Hq1 Hq2]. pose proof Hwf as (Hov & Hdir & Hs & Hz).
  assert (zlen c = overlay_size info) as Hlc by (rewrite <- Hc; unfold overlay_bytes; rewrite zlen_take by lia; lia).
  cbn [run_op]. unfold ntfs_node_truncate. destruct (Z.eqb_spec n NULL); [done|].
  unfold mbind at 1, st_bind at 1. rewrite (bind_run _ _ _ _ _ (node_run fw n _ Hnode)), Hdir, Hov. cbn [negb]. destruct (Z.ltb_spec SIZE_MAX len); [lia|].
  destruct (reserve_room info len fw Hwf ltac:(lia)) as (t' & info' & d' & E & Hd' & Htake & Hcap & Hroom & Hsome & Hsz & Hwf' & Hsd).
  rewrite (bind_run _ _ _ _ _ E), Hsz. cbn [apply_op].
  assert (exists data2, (if overlay_size info <? len then lift (d ← overlay_data info'; d ← put_bytes d (overlay_size info) (zeros (len - overlay_size info)); Some (Some d)) else mret (overlay_data info')) (at_clock fw t')
    = Some (at_clock fw t', data2) /\ zlen (default [] data2) = zlen d' /\ take (Z.to_nat len) (default [] data2) = take (Z.to_nat len) c ++ zeros (len - zlen c)) as (data2 & Ed & Hz2 & Ht2).
  { destruct (Z.ltb_spec (overlay_size info) len) as [Hlt|Hge].
    - rewrite Hsome by lia. cbn [mbind option_bind]. set (z := zeros (len - overlay_size info)). assert (zlen z = len - overlay_size info) as Hzz by (unfold z; rewrite zlen_zeros; lia).
      unfold put_bytes. destruct (Z.leb_spec 0 (overlay_size info)); [|lia]. destruct (Z.leb_spec (overlay_size info + zlen z) (zlen d')); [|lia]. eexists. split; [done|].
      cbn [default]. unfold id. rewrite Htake, Hc. split; [rewrite !zlen_app, zlen_drop by lia; lia|].
      rewrite app_assoc, (take_ge c) by (unfold zlen in Hlc; lia). rewrite Hlc. fold z.
      replace (Z.to_nat len) with (length (c ++ z)) by (rewrite length_app; unfold zlen in *; lia). by rewrite take_app_length.
    - exists (overlay_data info'). rewrite Hd'. split_and!; [done|done|]. rewrite Hlc. replace (zeros (len - overlay_size info)) with (@nil Z) by (unfold zeros; by replace (Z.to_nat (len - overlay_size info)) with O by lia).
      rewrite app_nil_r, <- Hc, <- Htake, take_take. f_equal. lia. }
  rewrite (bind_run _ _ _ _ _ Ed).
  destruct (put_holds n node (set_sizes (set_overlay info' data2 (overlay_size info) (overlay_capacity info')) len) fw t') as (fw' & Ep & Hh).
  { destruct Hwf' as (? & ? & ? & ?). unfold overlay_wf. cbn. split_and!; try done; try lia. }
  exists fw'. rewrite (bind_run _ _ _ _ _ Ep). split; [done|]. unfold overlay_bytes in Hh. cbn [overlay_size set_sizes overlay_data set_overlay] in Hh. by rewrite Ht2 in Hh.
Qed.

Lemma ops_hold n ops : n <> NULL -> forall fw c, holds n fw fw c -> all_allowed c ops ->
  exists fw', run_ops n ops fw = Some (fw', true) /\ holds n fw fw' (foldl apply_op c ops).
Proof.
  intros Hn. induction ops as [|op ops IH]; intros fw c Hh Hall; [by exists fw|]. destruct Hall as [Ha Hall]. cbn [run_ops foldl].
  assert (exists fw', run_op n op fw = Some (fw', true) /\ holds n fw fw' (apply_op c op)) as (fw1 & E1 & H1) by (destruct op; [by apply write_holds|by apply truncate_holds]).
  destruct H1 as (Hd1 & Hv1 & Hn1 & H1). destruct (IH fw1 (apply_op c op)) as (fw2 & E2 & Hd2 & Hv2 & Hn2 & H2); [done|done|].
  exists fw2. rewrite (bind_run _ _ _ _ _ E1). split; [done|]. split_and!; [congruence..|done].
Qed.

Lemma read_holds n fw c handle offset buffer : n <> NULL -> holds n fw fw c -> zlen c <= SIZE_MAX -> 0 <= offset -> 0 < zlen buffer < 2 ^ 31 ->
  let part := part_at c offset (zlen buffer) in
  ntfs_node_read all_ok n handle offset buffer fw = Some (fw, (zlen part, part ++ drop (length part) buffer, handle)).
Proof.
  intros Hn (_ & _ & _ & node & info & Hnode & Hwf & Hc) Hmax Ho Hb. cbv zeta. pose proof Hwf as (Hov & Hdir & Hs & Hz).
  assert (zlen c = overlay_size info) as Hlc by (rewrite <- Hc; unfold overlay_bytes; rewrite zlen_take by lia; lia).
  unfold ntfs_node_read. destruct (Z.eqb_spec n NULL); [done|]. destruct (Z.eqb_spec (zlen buffer) 0); [lia|]. cbn [orb].
  rewrite (bind_run _ _ _ _ _ (node_run fw n _ Hnode)). cbn [snd]. rewrite Hdir, Hov. unfold read_overlay.
  destruct (Z.leb_spec (overlay_size info) offset) as [Hend|Hin]; [rewrite lift_bind; unfold part_at; rewrite drop_ge by (unfold zlen in Hlc; lia); by rewrite take_nil|].
  rewrite size_le_32 by lia. set (m := Z.min (zlen buffer) (overlay_size info - offset)). unfold overlay_bytes in Hc. destruct (overlay_data info) as [d|]; cbn [default] in Hz, Hc; [|change (0 = overlay_capacity info) in Hz; lia].
  unfold id in Hz, Hc. destruct (Z.eqb_spec m 0); [lia|]. rewrite sub_bytes_ok by lia. fold (part_at d offset m). cbn [mbind option_bind].
  assert (part_at c offset (zlen buffer) = part_at d offset m) as ->.
  { rewrite <- part_at_min by lia. rewrite Hlc. fold m. rewrite <- Hc. apply part_at_prefix; unfold zlen in *; lia. }
  assert (zlen (part_at d offset m) = m) as Hm by (rewrite zlen_part; lia). rewrite put_front by lia. cbn [mbind option_bind]. rewrite lift_bind, Hm, signed_small by lia. done.
Qed.

(** C38.  A file made at run time refines a sequence of bytes: any sequence of
    writes that leave no gap and of truncations succeeds, the file then holds
    what the operations on sequences of bytes give, every read returns the part
    of it that was asked for, and no other node, volume or sector changes. *)
Theorem ntfs_overlay_refines n fw c ops : n <> NULL -> holds n fw fw c -> all_allowed c ops ->
  zlen (foldl apply_op c ops) <= SIZE_MAX ->
  exists fw', run_ops n ops fw = Some (fw', true) /\ holds n fw fw' (foldl apply_op c ops) /\
    forall handle offset buffer, 0 <= offset -> 0 < zlen buffer < 2 ^ 31 ->
      let part := part_at (foldl apply_op c ops) offset (zlen buffer) in
      ntfs_node_read all_ok n handle offset buffer fw' = Some (fw', (zlen part, part ++ drop (length part) buffer, handle)).
Proof.
  intros Hn Hh Hall Hmax. destruct (ops_hold n ops Hn fw c Hh Hall) as (fw' & E & Hh'). exists fw'. split_and!; [done|done|].
  intros handle offset buffer Ho Hb. apply read_holds; try done. destruct Hh' as (_ & _ & _ & H). by split_and!.
Qed.

End Overlay.

(** ** A small volume

    Sectors of 128 bytes, clusters of 256, records of 512 from cluster 2 on.
    Record 5 is the root, 6 the file [a] in its record, 7 the file [b] in the
    clusters 20 and 19.  [entries] is the offset of the directory's entries. *)
Module Image.

Definition pad8 (s : bytes) : bytes := s ++ zeros ((- zlen s) mod 8).

Definition resident (type : Z) (name_length : Z) (value : bytes) : bytes :=
  le_bytes 4 type ++ le_bytes 4 (24 + zlen (pad8 value)) ++ [0; name_length] ++ zeros 6 ++ le_bytes 4 (zlen value) ++ le_bytes 2 24 ++ zeros 2 ++ pad8 value.

Definition non_resident_header (size : Z) (code : bytes) : bytes :=
  le_bytes 4 NTFS_ATTR_DATA ++ le_bytes 4 (64 + zlen (pad8 (code ++ [0]))) ++ [1; 0] ++ zeros 6 ++ zeros 16 ++ le_bytes 2 64 ++ zeros 14 ++ le_bytes 8 size ++ zeros 8.

Definition non_resident (size : Z) (code : bytes) : bytes := non_resident_header size code ++ pad8 (code ++ [0]).

Definition file_name (parent size flags : Z) (name : bytes) : bytes :=
  le_bytes 8 parent ++ zeros 40 ++ le_bytes 8 size ++ le_bytes 4 flags ++ zeros 4 ++ [zlen name; 1] ++ concat ((fun c => [c; 0]) <$> name).

Definition index_entry (ref flags : Z) (key : bytes) : bytes :=
  le_bytes 8 ref ++ le_bytes 2 (16 + zlen (pad8 key)) ++ le_bytes 2 (zlen key) ++ le_bytes 4 flags ++ pad8 key.

Definition index_root (entries : Z) (es : list bytes) : bytes :=
  let size := zlen (concat es) + entries - 16 in
  zeros 16 ++ le_bytes 4 entries ++ le_bytes 4 size ++ le_bytes 4 size ++ zeros 4 ++ concat es.

Definition header (flags : Z) : bytes :=
  NTFS_SIGNATURE ++ le_bytes 2 48 ++ le_bytes 2 5 ++ zeros 12 ++ le_bytes 2 64 ++ le_bytes 2 flags ++ le_bytes 4 512 ++ le_bytes 4 512 ++ zeros 16.

Definition usn : bytes := [7; 0].

(** The sectors of a record, with the array of fixups filled in *)
Definition sectors (flags : Z) (attrs : list bytes) : list (bytes * bytes) :=
  let body := header flags ++ zeros 16 ++ concat attrs ++ le_bytes 4 ATTR_END in
  let body := body ++ zeros (512 - zlen body) in
  let ss := (fun i => (take 126 (drop (128 * i) body), take 2 (drop (128 * i + 126) body))) <$> seq 0 4 in
  match ss with
  | (b, t) :: more => (take 48 b ++ (usn ++ concat (snd <$> ss)) ++ drop 58 b, t) :: more
  | [] => []
  end.

(** ["a"] and ["b"] *)
Definition a_entry (ref : Z) : bytes := index_entry ref 0 (file_name 5 5 0 [97]).
Definition b_entry : bytes := index_entry 7 0 (file_name 5 300 0 [98]).
Definition last_entry : bytes := index_entry 0 2 [].

Definition mft_codes : list run_code := [mkCode 1 1 16 2].
Definition b_codes : list run_code := [mkCode 1 1 1 20; mkCode 1 1 1 19].

Definition mft_record : list (bytes * bytes) := sectors 1 [non_resident 4096 (encode_runs 0 mft_codes)].
Definition root_record (entries a_ref : Z) : list (bytes * bytes) := sectors 3 [resident NTFS_ATTR_INDEX_ROOT 0 (index_root entries [a_entry a_ref; b_entry; last_entry])].
Definition a_record : list (bytes * bytes) := sectors 1 [resident NTFS_ATTR_FILE_NAME 0 (file_name 5 5 0 [97]); resident NTFS_ATTR_DATA 0 [104; 101; 108; 108; 111]].
Definition b_attributes : list bytes := [resident NTFS_ATTR_FILE_NAME 0 (file_name 5 300 0 [98]); resident NTFS_ATTR_DATA 1 [1; 2; 3]].
Definition b_data : bytes := non_resident 300 (encode_runs 0 b_codes).
Definition b_record : list (bytes * bytes) := sectors 1 (b_attributes ++ [b_data]).

Definition boot : bytes :=
  zeros 3 ++ NTFS_OEM_STRING ++ le_bytes 2 128 ++ [2] ++ zeros 34 ++ le_bytes 8 2 ++ zeros 8 ++ [247; 0; 0; 0; 1] ++ zeros 443.

Definition blocks_at (lba : Z) (s : bytes) : gmap Z bytes :=
  list_to_map ((fun i => (lba + Z.of_nat i, take 256 (drop (256 * i) s))) <$> seq 0 (length s / 256)).

Definition disk (root : list (bytes * bytes)) (b : list (bytes * bytes)) : gmap Z bytes :=
  blocks_at 0 boot ∪ blocks_at 2 (stamped usn mft_record) ∪ blocks_at 12 (stamped usn root) ∪ blocks_at 14 (stamped usn a_record) ∪ blocks_at 16 (stamped usn b)
    ∪ {[19 := replicate 256 2; 20 := replicate 256 1]}.

Definition device : BlockDevice := mkBlockDevice None BLKDEV_TYPE_DISK 256 32 (Some (mkBlockOps true true true)) 0.

Definition fresh_key {X} (k : nat) (m : gmap Z X) : Z := fresh ({[NULL]} ∪ dom m : gset Z).

#[export] Instance laws : DiskLaws (W := gmap Z bytes) device := MemDisk.mem_laws device ltac:(cbn; lia) ltac:(cbn; lia).

Local Abbreviation state := (FsWorld (gmap Z bytes) NTFSNodeInfo NTFSVolume).

Definition blank (disk : gmap Z bytes) : state := mkFsWorld disk 0 ∅ ∅.

#[local] Instance arch : Arch := AMD64.

Definition mount (disk : gmap Z bytes) : option (state * Z) :=
  '(fw, (r, n)) ← ntfs_mount all_ok fresh_key fresh_key (Some device) None (blank disk); n ← n; Some (fw, n).

(** Mounts, opens a file of the root and reads at [offset] *)
Definition mount_and_read (disk : gmap Z bytes) (name : bytes) (offset n : Z) : option (Z * bytes) :=
  '(fw, root) ← mount disk;
  '(fw, (_, c)) ← ntfs_node_lookup all_ok fresh_key root name fw; c ← c;
  '(fw, (_, h)) ← ntfs_node_open all_ok c 1 fw;
  '(_, r) ← ntfs_node_read all_ok c h offset (zeros n) fw; Some r.1.

(** The whole driver on the volume *)
Lemma mounted_files :
  mount_and_read (disk (root_record 32 6) b_record) [97] 1 6 = Some (4, [101; 108; 108; 111; 0; 0]) /\
  mount_and_read (disk (root_record 32 6) b_record) [98] 254 4 = Some (4, [1; 1; 2; 2]).
Proof. split; vm_compute; reflexivity. Qed.

(** *** The volume as the theorems see it *)

Definition the_disk : gmap Z bytes := disk (root_record 32 6) b_record.

Definition volume : NTFSVolume := mkNtfsVolume None (Some device) 0 256 128 2 256 (-9) 512 1 256 2 0 (mkRunlist [mkRun 0 16 2] 4).

Definition b_node : VFSNode := mkNode (Some [98]) VFS_NODE_REGULAR VFS_NODE_FLAG_READONLY (Some 1) None.
Definition b_info : NTFSNodeInfo := mkNtfsInfo 9 7 5 300 false false false None 0 0 None.
Definition world : state := mkFsWorld the_disk 0 {[2 := (b_node, b_info)]} {[9 := (volume, Some [2])]}.

Definition b_contents : bytes := replicate 256 1 ++ replicate 44 2.

Lemma disk_reads : reads_succeed (W := gmap Z bytes) device (disk_size (d := device)).
Proof. apply MemDisk.mem_reads. Qed.

Lemma disk_ops : exists o, d_ops device = Some o /\ has_read o = true.
Proof. by eexists. Qed.

Lemma volume_mft : mft_ok device volume.
Proof.
  constructor; [constructor; vm_compute; repeat split; congruence|done| |vm_compute; split; congruence].
  constructor; [|constructor]. vm_compute. repeat split; congruence.
Qed.

Lemma b_protected : protected 128 usn b_record.
Proof.
  constructor; [apply (bool_decide_unpack _); vm_compute; done|done|vm_compute; done|vm_compute; done|].
  exists (header 1), (drop 58 (default [] (fst <$> b_record !! 0%nat))), (default [] (snd <$> b_record !! 0%nat)), (drop 1 b_record).
  split_and!; [vm_compute; reflexivity|vm_compute; congruence|vm_compute; reflexivity..].
Qed.

Lemma b_on_disk : file_on device volume the_disk 7 b_contents.
Proof.
  exists (fixed b_record), b_attributes, b_data, []. split_and!.
  - constructor; [lia| |vm_compute; reflexivity|exists 1; split; [vm_compute; reflexivity|done]].
    exists usn, b_record. split_and!; [apply b_protected|done|vm_compute; reflexivity|vm_compute; reflexivity].
  - exists (take 64 (fixed b_record)), (drop 268 (fixed b_record)), 512. split_and!; vm_compute; (reflexivity || congruence).
  - repeat constructor; eexists; (split; [split_and!; [vm_compute; reflexivity|vm_compute; congruence|vm_compute; reflexivity]|]); intros E; [discriminate E|exists 1; done].
  - split_and!; [vm_compute; reflexivity|vm_compute; congruence|vm_compute; reflexivity].
  - vm_compute. reflexivity.
  - apply (NonResident _ _ _ _ _ 1 (non_resident_header 300 (encode_runs 0 b_codes)) b_codes [0]); try done; try (vm_compute; reflexivity).
    + vm_compute. repeat split; (lia || congruence).
    + repeat constructor; vm_compute; repeat split; congruence.
Qed.

Lemma ntfs_node_read_spec_witness : exists fw' handle',
  ntfs_node_read all_ok 2 None 254 (zeros 4) world = Some (fw', (4, [1; 1; 2; 2], handle')).
Proof.
  destruct (ntfs_node_read_spec device disk_reads disk_ops world 2 b_node b_info volume (Some [2]) None b_contents 254 (zeros 4)) as (fw' & h' & E & _);
    [done|reflexivity|reflexivity|reflexivity|reflexivity|exact volume_mft|exact b_on_disk|done|vm_compute; done|lia|vm_compute; split; done|].
  exists fw', h'. exact E.
Defined.

(** A file made at run time, written, cut and extended *)
Definition new_node : VFSNode := mkNode (Some [110]) VFS_NODE_REGULAR 0 (Some 1) None.
Definition new_info : NTFSNodeInfo := mkNtfsInfo 9 0 5 0 false false true None 0 0 None.
Definition new_world : state := mkFsWorld ∅ 0 {[3 := (new_node, new_info)]} ∅.
Definition some_ops : list file_op := [OpWrite 0 [1; 2; 3]; OpTruncate 1; OpTruncate 4; OpWrite 3 [5; 6]].

Lemma new_holds : holds 3 new_world new_world [].
Proof. split_and!; [done|done|done|]. exists new_node, new_info. split_and!; [reflexivity| |reflexivity]. vm_compute. repeat split; congruence. Qed.

Lemma ntfs_overlay_refines_witness : exists fw', run_ops 3 some_ops new_world = Some (fw', true) /\
  ntfs_node_read all_ok 3 None 0 (zeros 6) fw' = Some (fw', (5, [1; 0; 0; 5; 6; 0], None)).
Proof.
  destruct (ntfs_overlay_refines 3 new_world [] some_ops) as (fw' & E & _ & Hr); [done|exact new_holds|vm_compute; repeat split; congruence|vm_compute; congruence|].
  exists fw'. split; [exact E|]. apply (Hr None 0 (zeros 6)); [lia|vm_compute; split; done].
Defined.

End Image.

(** ** Where the driver does not do what it means to *)
Module Observed.
Import Image.
#[local] Instance arch : Arch := AMD64.
Local Abbreviation state := (FsWorld (gmap Z bytes) NTFSNodeInfo NTFSVolume).

(** The entries of a directory follow their header by the offset stored there;
    the driver adds it to the start of the value instead, 16 bytes too early,
    and lists nothing of a directory that is laid out so. *)
Lemma entries_missed :
  ('(fw, n) ← mount (disk (root_record 16 6) b_record); snd <$> ntfs_node_readdir all_ok n 2 fw) = Some (VFS_RES_NOT_FOUND, None) /\
  ('(fw, n) ← mount (disk (root_record 32 6) b_record); snd <$> ntfs_node_readdir all_ok n 2 fw) = Some (VFS_RES_OK, Some (mkDirEntry [97] VFS_NODE_REGULAR)).
Proof. split; vm_compute; reflexivity. Qed.

(** A name for record 0, as [$MFT] is, finds a file made at run time in the
    same directory, as these have reference 0. *)
Lemma record_zero_confused : exists c,
  ('(fw, n) ← mount (disk (root_record 32 0) b_record);
   '(fw, (_, c)) ← ntfs_node_create all_ok fresh_key n [120] VFS_NODE_REGULAR fw;
   '(_, (_, c')) ← ntfs_node_lookup all_ok fresh_key n [97] fw; Some (c, c')) = Some (Some c, Some c).
Proof. eexists. vm_compute. reflexivity. Qed.

(** When the record of the root cannot be read, the root is freed twice. *)
Lemma root_freed_twice : ntfs_mount all_ok fresh_key fresh_key (Some device) None (blank (delete 12 (disk (root_record 32 6) b_record))) = None.
Proof. vm_compute. reflexivity. Qed.

(** A run without an offset stands for zeros; it gets the clusters of the run
    before it. *)
Lemma sparse_run_reads_clusters :
  snd <$> ntfs_parse_data_runs (W := unit) all_ok [0x11; 1; 20; 1; 1; 0] 0 6 ntfs_runlist_init (tt, O) = Some (mkRunlist [mkRun 0 1 20; mkRun 1 1 20] 4, true).
Proof. vm_compute. reflexivity. Qed.

(** An offset of eight bytes is shifted into the sign, one of nine beyond the
    width. *)
Lemma wide_offset_undefined : forall n, n ∈ [8; 9] ->
  ntfs_parse_data_runs (W := unit) all_ok ([1 + 16 * n; 1] ++ zeros n ++ [0]) 0 (n + 3) ntfs_runlist_init (tt, O) = None.
Proof. intros n Hn. rewrite elem_of_cons, list_elem_of_singleton in Hn. destruct Hn as [->| ->]; vm_compute; reflexivity. Qed.

(** An attribute that claims to reach beyond the record takes the walk out of it. *)
Lemma attribute_leaves_record :
  for_attributes (W := unit) (fun _ _ s => mret (s, true)) (header 1 ++ zeros 16 ++ le_bytes 4 NTFS_ATTR_DATA ++ le_bytes 4 4096 ++ zeros 440) tt (tt, O) = None.
Proof. vm_compute. reflexivity. Qed.

(** The size that is reported is that of the last stream, also of a named one;
    the data that is read is the unnamed stream. *)
Definition with_stream : list (bytes * bytes) := sectors 1 [resident NTFS_ATTR_DATA 0 [104; 101; 108; 108; 111]; resident NTFS_ATTR_DATA 1 [1; 2; 3]].

Lemma size_of_other_stream :
  (fun r => pf_size r.2) <$> (x ← ntfs_populate_node_info all_ok volume 7 (disk (root_record 32 6) with_stream, O); x.2) = Some 3 /\
  mount_and_read (disk (root_record 32 6) with_stream) [98] 0 8 = Some (5, [104; 101; 108; 108; 111; 0; 0; 0]).
Proof. split; vm_compute; reflexivity. Qed.

(** The inode of a file on the disk is whatever the stack holds. *)
Lemma inode_of_the_stack : forall ref,
  (fun r => snd (snd r)) <$> ntfs_node_stat all_ok (mkNtfsInfo 0 ref 0 0 false false false None 0 0 None) 2 world =
  Some (Some (mkInfo VFS_NODE_REGULAR VFS_NODE_FLAG_READONLY 300 ref 0 0 0)).
Proof. intros ref. vm_compute. reflexivity. Qed.

(** A write behind the end of a file that was cut shows what had been cut off. *)
Lemma gap_shows_old_bytes :
  ('(fw, _) ← run_ops 3 [OpWrite 0 [1; 2; 3; 4]; OpTruncate 0; OpWrite 3 [9]] new_world; (fun r => fst (snd r)) <$> ntfs_node_read all_ok 3 None 0 (zeros 4) fw)
  = Some (4, [1; 2; 3; 9]).
Proof. vm_compute. reflexivity. Qed.

(** The end of a write wraps around, so the test for room passes. *)
Lemma write_end_wraps : ntfs_node_write all_ok 3 (2 ^ 64 - 2) [1; 2; 3] new_world = None.
Proof. vm_compute. reflexivity. Qed.

(** A node that was freed because memory ran out stays in the list of the
    volume, which frees it again. *)
Lemma create_leaves_freed_node : exists k : nat,
  ('(fw, n) ← mount (disk (root_record 32 6) b_record);
   '(fw, (r, _)) ← ntfs_node_create (fun t => negb (Nat.eqb t (fw_clock fw + k))) fresh_key n [120] VFS_NODE_DIRECTORY fw;
   Some (r, ntfs_unmount n fw)) = Some (VFS_RES_NO_MEMORY, None).
Proof. exists 6%nat. vm_compute. reflexivity. Qed.

End Observed.
