(* ===== verification/Gfxterm.v ===== *)
(** * The text terminal ([kernel/gfxterm/gfxterm.c])

    A grid of characters with colours, the lines that left it at the top in
    blocks of 128 lines, and the frame buffer both are drawn to.  Terminals and
    frame buffers are objects at addresses, the latter those of [Gfx].  An
    access outside of an array or to a freed object and a signed overflow are
    [None].  [mal] tells which allocations succeed, [junk] what new memory
    holds.  The fields [bufferLength] and [cursor_tick] are written but never
    read, and left out, as is the event [onTerminalResize], which nothing
    invokes; array sizes in bytes beyond the address space are not considered. *)

From S2P Require Import Prelude Bytes Lists Gfx.

Definition SB_BLOCK_LINES : Z := 128.
Definition SB_BLOCK_PTR_GROW : Z := 8.
Definition SPACE : Z := 32.

(** [SB_BLOCK_LINES] lines, one after the other *)
Record sb_block_t := mkBlock { sb_chars : bytes; sb_fg : list Z; sb_bg : list Z }.

(** [sb_blocks_count] is the length of [sb_blocks]. *)
Record Scrollback := mkScrollback {
  scrollback_max_lines : Z;
  scrollback_count : Z;
  scrollback_start : Z;
  sb_blocks : list sb_block_t;
  sb_blocks_capacity : Z
}.

(** The characters and the colours of the cells, if allocated *)
Record Grid := mkGrid {
  buffer : option bytes;
  bufferCapacity : Z;
  t_width : Z;
  t_height : Z;
  cellFg : option (list Z);
  cellBg : option (list Z)
}.

Record Cursor := mkCursor {
  cursorPos_x : Z;
  cursorPos_y : Z;
  cursor_enabled : bool;
  cursor_visible : bool;
  cursor_blink_ticks : Z;
  cursor_blink_next : Z;
  cursor_color : Z
}.

Record GFXTerminal := mkTerm {
  t_grid : Grid;
  t_scrollback : Scrollback;
  t_cursor : Cursor;
  framebuffer : Z;
  drawLineIndex : Z;
  fgColor : Z;
  bgColor : Z;
  font : gfx_font;
  t_visible : bool;
  t_dirty : bool
}.

Definition set_grid (t : GFXTerminal) (g : Grid) : GFXTerminal :=
  mkTerm g (t_scrollback t) (t_cursor t) (framebuffer t) (drawLineIndex t) (fgColor t) (bgColor t) (font t) (t_visible t) (t_dirty t).
Definition set_scrollback (t : GFXTerminal) (s : Scrollback) : GFXTerminal :=
  mkTerm (t_grid t) s (t_cursor t) (framebuffer t) (drawLineIndex t) (fgColor t) (bgColor t) (font t) (t_visible t) (t_dirty t).
Definition set_cursor (t : GFXTerminal) (c : Cursor) : GFXTerminal :=
  mkTerm (t_grid t) (t_scrollback t) c (framebuffer t) (drawLineIndex t) (fgColor t) (bgColor t) (font t) (t_visible t) (t_dirty t).
Definition set_framebuffer (t : GFXTerminal) (p : Z) : GFXTerminal :=
  mkTerm (t_grid t) (t_scrollback t) (t_cursor t) p (drawLineIndex t) (fgColor t) (bgColor t) (font t) (t_visible t) (t_dirty t).
Definition set_view (t : GFXTerminal) (index : Z) (dirty : bool) : GFXTerminal :=
  mkTerm (t_grid t) (t_scrollback t) (t_cursor t) (framebuffer t) index (fgColor t) (bgColor t) (font t) (t_visible t) dirty.
Definition set_colors (t : GFXTerminal) (fg bg : Z) : GFXTerminal :=
  mkTerm (t_grid t) (t_scrollback t) (t_cursor t) (framebuffer t) (drawLineIndex t) fg bg (font t) (t_visible t) true.
Definition set_visible (t : GFXTerminal) (v : bool) : GFXTerminal :=
  mkTerm (t_grid t) (t_scrollback t) (t_cursor t) (framebuffer t) (drawLineIndex t) (fgColor t) (bgColor t) (font t) v (t_dirty t).
Definition show_cursor (c : Cursor) (v : bool) : Cursor :=
  mkCursor (cursorPos_x c) (cursorPos_y c) (cursor_enabled c) v (cursor_blink_ticks c) (cursor_blink_next c) (cursor_color c).

(** The graphics state, the terminals by address and their list, the clock of
    allocations and [__gfxterm_frame_tick] *)
Record Terminals := mkTerminals {
  ts_gfx : Gfx;
  ts_terms : gmap Z GFXTerminal;
  terminals : option (list Z);
  ts_clock : nat;
  frame_tick : Z
}.

Section Terminal.
Context `{A : Arch} (mal : nat -> bool) (junk : nat -> Z -> list Z).

Local Abbreviation M := (st Terminals).

Definition get : M Terminals := fun s => Some (s, s).
Definition the_term (t : Z) : M GFXTerminal := s ← get; lift (ts_terms s !! t).
Definition put_term (t : Z) (x : GFXTerminal) : M unit := fun s =>
  Some (mkTerminals (ts_gfx s) (<[t := x]> (ts_terms s)) (terminals s) (ts_clock s) (frame_tick s), tt).
Definition put_gfx (g : Gfx) : M unit := fun s => Some (mkTerminals g (ts_terms s) (terminals s) (ts_clock s) (frame_tick s), tt).

Definition modify (f : Terminals -> Terminals) : M unit := fun s => Some (f s, tt).

(** Changes of a terminal that allocate nothing *)
Definition update (t : Z) (f : GFXTerminal -> GFXTerminal) : M unit := x ← the_term t; put_term t (f x).

(** The next allocation: [n] entries, if it succeeds *)
Definition alloc_array (n : Z) : M (option (list Z)) := fun s =>
  let k := ts_clock s in
  Some (mkTerminals (ts_gfx s) (ts_terms s) (terminals s) (S k) (frame_tick s),
        if mal k then Some (take (Z.to_nat n) (junk k n ++ zeros n)) else None).

(** A drawing function on the frame buffer of a terminal, a null pointer if it
    has none *)
Definition draw_on (t : Z) (f : option gfx_buffer -> option (option gfx_buffer)) : M unit :=
  x ← the_term t;
  if framebuffer x =? NULL then r ← lift (f None); mret tt
  else
    s ← get;
    b ← lift (buffer_objects (ts_gfx s) !! framebuffer x);
    r ← lift (f (Some b));
    match r with None => mret tt | Some b => put_gfx (with_object (ts_gfx s) (framebuffer x) b) end.

Definition mark_dirty (b : option gfx_buffer) : option (option gfx_buffer) := Some (b ← b; Some (set_pixels b (gb_buffer b) true)).
Definition suppress (v : bool) (b : option gfx_buffer) : option (option gfx_buffer) :=
  Some (b ← b; Some (mkBuf (gb_width b) (gb_height b) (gb_buffer b) (gb_bpp b) (drawBeginLineIndex b) (isDirty b) v (gb_position b))).

(** The flag of the frame buffer; false without one *)
Definition get_suppress (t : Z) : M bool :=
  x ← the_term t;
  if framebuffer x =? NULL then mret false
  else s ← get; b ← lift (buffer_objects (ts_gfx s) !! framebuffer x); mret (suppress_draw b).

(** The body with the flag set, which is restored afterwards *)
Definition suppressed (t : Z) (body : M unit) : M unit :=
  prev ← get_suppress t;
  draw_on t (suppress true) ≫= fun _ => body ≫= fun _ => draw_on t (suppress prev).

(** ** Lines that left the grid *)

Definition __sb_capacity_lines (sb : Scrollback) : Z := Z.of_nat (length (sb_blocks sb)) *[size_bits] SB_BLOCK_LINES.

Definition __scrollback_clear (sb : Scrollback) : Scrollback := mkScrollback (scrollback_max_lines sb) 0 0 (sb_blocks sb) (sb_blocks_capacity sb).
Definition __scrollback_free (sb : Scrollback) : Scrollback := mkScrollback (scrollback_max_lines sb) 0 0 [] 0.
Definition __scrollback_init (max_lines : Z) : Scrollback := mkScrollback max_lines 0 0 [] 0.

Definition __sb_grow_blocks_array (sb : Scrollback) : M (option Scrollback) :=
  let new_cap := if sb_blocks_capacity sb =? 0 then SB_BLOCK_PTR_GROW else sb_blocks_capacity sb +[size_bits] SB_BLOCK_PTR_GROW in
  r ← alloc_array 0;
  mret (match r with
        | None => None
        | Some _ => Some (mkScrollback (scrollback_max_lines sb) (scrollback_count sb) (scrollback_start sb) (sb_blocks sb) new_cap)
        end).

(** The array stays as large as it has become when the block fails. *)
Definition __sb_alloc_block (w : Z) (sb : Scrollback) : M (Scrollback * bool) :=
  r ← (if Z.of_nat (length (sb_blocks sb)) =? sb_blocks_capacity sb then __sb_grow_blocks_array sb else mret (Some sb));
  match r with
  | None => mret (sb, false)
  | Some sb =>
      let cells := SB_BLOCK_LINES *[size_bits] w in
      chars ← alloc_array cells;
      fg ← alloc_array cells;
      bg ← alloc_array cells;
      mret (match chars, fg, bg with
            | Some chars, Some fg, Some bg =>
                (mkScrollback (scrollback_max_lines sb) (scrollback_count sb) (scrollback_start sb) (sb_blocks sb ++ [mkBlock chars fg bg]) (sb_blocks_capacity sb), true)
            | _, _, _ => (sb, false)
            end)
  end.

(** A line of the scrollback *)
Definition line : Type := bytes * list Z * list Z.

Definition sb_get_line (w : Z) (sb : Scrollback) (ring_index : Z) : option line :=
  b ← sb_blocks sb !! Z.to_nat (ring_index / SB_BLOCK_LINES);
  let at_ := ring_index mod SB_BLOCK_LINES * w in
  c ← sub_bytes (sb_chars b) at_ w;
  f ← sub_bytes (sb_fg b) at_ w;
  g ← sub_bytes (sb_bg b) at_ w;
  Some (c, f, g).

Definition sb_put_line (w : Z) (sb : Scrollback) (ring_index : Z) (l : line) : option Scrollback :=
  let bi := Z.to_nat (ring_index / SB_BLOCK_LINES) in
  b ← sb_blocks sb !! bi;
  let at_ := ring_index mod SB_BLOCK_LINES * w in
  let '(c, f, g) := l in
  c ← put_bytes (sb_chars b) at_ c;
  f ← put_bytes (sb_fg b) at_ f;
  g ← put_bytes (sb_bg b) at_ g;
  Some (mkScrollback (scrollback_max_lines sb) (scrollback_count sb) (scrollback_start sb) (<[bi := mkBlock c f g]> (sb_blocks sb)) (sb_blocks_capacity sb)).

Definition with_ring (sb : Scrollback) (count start : Z) : Scrollback :=
  mkScrollback (scrollback_max_lines sb) count start (sb_blocks sb) (sb_blocks_capacity sb).

(** The oldest line is replaced. *)
Definition overwrite_oldest (w cap_lines : Z) (sb : Scrollback) (l : line) : option Scrollback :=
  sb' ← sb_put_line w sb (scrollback_start sb) l;
  Some (with_ring sb' (scrollback_count sb) ((scrollback_start sb +[size_bits] 1) mod cap_lines)).

(** [l] is the line to store, [None] if it does not lie in the source arrays. *)
Definition __sb_push_line (w : Z) (l : option line) (sb : Scrollback) : M Scrollback :=
  if w =? 0 then mret sb
  else
    r ← (if __sb_capacity_lines sb =? 0 then __sb_alloc_block w sb else mret (sb, true));
    let '(sb, ok) := r in
    if negb ok then mret sb
    else
      let cap_lines := __sb_capacity_lines sb in
      if negb (scrollback_max_lines sb =? 0) && (scrollback_max_lines sb <=? scrollback_count sb) then lift (l ← l; overwrite_oldest w cap_lines sb l)
      else
        r ← (if cap_lines <=? scrollback_count sb then __sb_alloc_block w sb else mret (sb, true));
        let '(sb, ok) := r in
        if negb ok then lift (l ← l; overwrite_oldest w cap_lines sb l)
        else
          let cap_lines := __sb_capacity_lines sb in
          let write_index := (scrollback_start sb +[size_bits] scrollback_count sb) mod cap_lines in
          lift (l ← l; sb' ← sb_put_line w sb write_index l; Some (with_ring sb' (scrollback_count sb +[size_bits] 1) (scrollback_start sb))).

(** Row [i] of the grid, in the colours of the terminal where the cells have none *)
Definition grid_row (g : Grid) (fg bg : Z) (i : Z) : option line :=
  let w := t_width g in
  b ← buffer g;
  c ← sub_bytes b (i * w) w;
  f ← (match cellFg g with Some f => sub_bytes f (i * w) w | None => Some (replicate (Z.to_nat w) fg) end);
  g ← (match cellBg g with Some g => sub_bytes g (i * w) w | None => Some (replicate (Z.to_nat w) bg) end);
  Some (c, f, g).

Fixpoint push_rows (w : Z) (rows : list (option line)) (sb : Scrollback) : M Scrollback :=
  match rows with [] => mret sb | l :: rows => sb ← __sb_push_line w l sb; push_rows w rows sb end.

Definition __scrollback_push_top_rows (t rows : Z) : M unit :=
  x ← the_term t;
  let g := t_grid x in
  if (rows =? 0) || (t_width g =? 0) || (t_height g =? 0) then mret tt
  else
    sb ← push_rows (t_width g) (grid_row g (fgColor x) (bgColor x) <$> seqZ 0 (Z.min rows (t_height g))) (t_scrollback x);
    update t (fun x => set_scrollback x sb).

Definition gfxterm_set_scrollback_max (t max_lines : Z) : M unit :=
  update t (fun x =>
    let sb := t_scrollback x in
    let sb := mkScrollback max_lines (scrollback_count sb) (scrollback_start sb) (sb_blocks sb) (sb_blocks_capacity sb) in
    set_scrollback x
      (if (max_lines =? 0) || (scrollback_count sb <=? max_lines) then sb
       else
         let cap_lines := __sb_capacity_lines sb in
         if cap_lines =? 0 then with_ring sb 0 0
         else with_ring sb max_lines ((scrollback_start sb +[size_bits] (scrollback_count sb - max_lines)) mod cap_lines))).

(** ** Characters *)

Definition ascii_printable (c : Z) : bool := (32 <=? c) && (c <=? 126).

(** The colour of a cell *)
Definition cell_color (cells : option (list Z)) (index global : Z) : option Z :=
  match cells with Some l => l !! Z.to_nat index | None => Some global end.

Definition put_rect (x y w h color : Z) (b : option gfx_buffer) : option (option gfx_buffer) := gfx_fill_rectangle b x y w h color.
Definition put_glyph (x y c color : Z) (f : gfx_font) (b : option gfx_buffer) : option (option gfx_buffer) := gfx_draw_char b x y c color (Some f).

(** Draws the bar of the cursor, or the cell under it *)
Definition __gfxterm_draw_cursor (t : Z) (show : bool) : M unit :=
  x ← the_term t;
  if (framebuffer x =? NULL) || (0 <? drawLineIndex x) then mret tt
  else
    let w := t_width (t_grid x) in
    let cx := cursorPos_x (t_cursor x) in
    let cy := cursorPos_y (t_cursor x) in
    if (w <=? wrap size_bits cx) || (t_height (t_grid x) <=? wrap size_bits cy) then mret tt
    else
      let index := cy * w + cx in
      let cw := sign_of 32 (gf_width (font x)) in
      let ch := sign_of 32 (gf_height (font x)) in
      px ← lift (ckint (cx * cw));
      py ← lift (ckint (cy * ch));
      (if show then
         let barH := if 2 <=? ch then 2 else 1 in
         top ← lift (s ← ckint (py + ch); ckint (s - barH));
         draw_on t (put_rect px top cw barH (cursor_color (t_cursor x)))
       else
         bg ← lift (cell_color (cellBg (t_grid x)) index (bgColor x));
         fg ← lift (cell_color (cellFg (t_grid x)) index (fgColor x));
         draw_on t (put_rect px py cw ch bg) ≫= fun _ =>
         c ← lift (b ← buffer (t_grid x); b !! Z.to_nat index);
         if c =? SPACE then mret tt else draw_on t (put_glyph px py c fg (font x))) ≫= fun _ =>
      draw_on t mark_dirty.

Definition put_cell (g : Grid) (index c fg bg : Z) : option Grid :=
  b ← buffer g;
  b ← put_bytes b index [c];
  f ← (match cellFg g with Some f => f ← put_bytes f index [fg]; Some (Some f) | None => Some None end);
  k ← (match cellBg g with Some k => k ← put_bytes k index [bg]; Some (Some k) | None => Some None end);
  Some (mkGrid (Some b) (bufferCapacity g) (t_width g) (t_height g) f k).

(** The character that is stored *)
Definition stored_char (c : Z) : Z := if negb (ascii_printable c) && negb (c =? 10) && negb (c =? 13) && negb (c =? 9) then SPACE else c.

Definition gfxterm_setChar (t px py c : Z) : M unit :=
  x ← the_term t;
  let g := t_grid x in
  if (t_width g <=? px) || (t_height g <=? py) then mret tt
  else
    let c := stored_char c in
    let index := wrap size_bits (py * t_width g + px) in
    if bufferCapacity g <=? index then mret tt
    else
      g ← lift (put_cell g index c (fgColor x) (bgColor x));
      put_term t (set_grid x g) ≫= fun _ =>
      if 0 <? drawLineIndex x then put_term t (set_view (set_grid x g) (drawLineIndex x) true)
      else
        let fb_x := sign_of 32 (px *[size_bits] gf_width (font x)) in
        let fb_y := sign_of 32 (py *[size_bits] gf_height (font x)) in
        draw_on t (put_rect fb_x fb_y (sign_of 32 (gf_width (font x))) (sign_of 32 (gf_height (font x))) (bgColor x)) ≫= fun _ =>
        draw_on t (put_glyph fb_x fb_y c (fgColor x) (font x)) ≫= fun _ =>
        draw_on t mark_dirty.

(** [up] rows at the top of an array of [h] rows of [w] entries go, and as many
    of [v] come at the bottom. *)
Definition scroll_rows (l : list Z) (w h up v : Z) : option (list Z) :=
  moved ← sub_bytes l (up * w) ((h - up) * w);
  l ← put_bytes l 0 moved;
  put_bytes l ((h - up) * w) (replicate (Z.to_nat (up * w)) v).

Definition scroll_grid (g : Grid) (up fg bg : Z) : option Grid :=
  let w := t_width g in
  let h := t_height g in
  b ← buffer g;
  b ← scroll_rows b w h up SPACE;
  match cellFg g, cellBg g with
  | Some f, Some k =>
      f ← scroll_rows f w h up fg;
      k ← scroll_rows k w h up bg;
      Some (mkGrid (Some b) (bufferCapacity g) w h (Some f) (Some k))
  | f, k => Some (mkGrid (Some b) (bufferCapacity g) w h f k)
  end.

(** The pixels move up by [up] rows of characters. *)
Definition scroll_pixels (up : Z) (bg : Z) (f : gfx_font) (b : option gfx_buffer) : option (option gfx_buffer) :=
  match b with
  | None => Some None
  | Some b =>
      let scroll_px := up *[size_bits] gf_height f in
      let scroll_px := if gb_height b <? scroll_px then gb_height b else scroll_px in
      let pitch := gb_width b *[size_bits] (gb_bpp b / 8) in
      let copy_rows := gb_height b - scroll_px in
      mem ← (if 0 <? copy_rows
             then moved ← sub_bytes (gb_buffer b) (scroll_px *[size_bits] pitch) (copy_rows *[size_bits] pitch); put_bytes (gb_buffer b) 0 moved
             else Some (gb_buffer b));
      b ← put_rect 0 (sign_of 32 copy_rows) (sign_of 32 (gb_width b)) (sign_of 32 scroll_px) bg (Some (set_pixels b mem (isDirty b)));
      mark_dirty b
  end.

Definition __gfxterm_scroll_content (t up : Z) : M unit :=
  x ← the_term t;
  let g := t_grid x in
  if (up =? 0) || bool_decide (buffer g = None) || (t_width g =? 0) || (t_height g =? 0) then mret tt
  else
    (if cursor_enabled (t_cursor x) && cursor_visible (t_cursor x)
     then __gfxterm_draw_cursor t false ≫= fun _ => update t (fun x => set_cursor x (show_cursor (t_cursor x) false))
     else mret tt) ≫= fun _ =>
    let up := Z.min up (t_height g) in
    __scrollback_push_top_rows t up ≫= fun _ =>
    x ← the_term t;
    g ← lift (scroll_grid (t_grid x) up (fgColor x) (bgColor x));
    put_term t (set_grid x g) ≫= fun _ =>
    if negb (framebuffer x =? NULL) && (drawLineIndex x =? 0) then draw_on t (scroll_pixels up (bgColor x) (font x))
    else update t (fun x => set_view x (drawLineIndex x) true).

(** The cursor after a character, not shown, with its blinking put off *)
Definition moved_cursor (c : Cursor) (x y tick : Z) : Cursor :=
  mkCursor x y (cursor_enabled c) false (cursor_blink_ticks c) (tick +[size_bits] cursor_blink_ticks c) (cursor_color c).

(** Spaces up to the next tab stop *)
Fixpoint put_spaces (n : nat) (t curx cury : Z) : M Z :=
  match n with
  | O => mret curx
  | S n => gfxterm_setChar t (wrap size_bits curx) (wrap size_bits cury) SPACE ≫= fun _ => curx ← lift (ckint (curx + 1)); put_spaces n t curx cury
  end.

(** The effect of a character at the cursor, and the cursor before wrapping *)
Definition put_at (t c curx cury width : Z) : M (Z * Z) :=
  if c =? 10 then cury ← lift (ckint (cury + 1)); mret (0, cury)
  else if c =? 13 then mret (0, cury)
  else if c =? 9 then
    let curx := Z.max curx 0 in
    curx ← put_spaces (Z.to_nat (4 - curx mod 4)) t curx cury; mret (curx, cury)
  else if c =? 8 then
    p ← (if 0 <? curx then mret (curx - 1, cury)
         else if 0 <? cury then last ← lift (ckint (sign_of 32 width - 1)); mret (last, cury - 1)
         else mret (curx, cury));
    let '(curx, cury) := p in
    let curx := Z.max curx 0 in
    let cury := Z.max cury 0 in
    gfxterm_setChar t (wrap size_bits curx) (wrap size_bits cury) SPACE ≫= fun _ => mret (curx, cury)
  else
    gfxterm_setChar t (wrap size_bits curx) (wrap size_bits cury) c ≫= fun _ => curx ← lift (ckint (curx + 1)); mret (curx, cury).

Definition put_char_body (t c : Z) : M unit :=
  x ← the_term t;
  s ← get;
  (if cursor_enabled (t_cursor x) && cursor_visible (t_cursor x)
   then __gfxterm_draw_cursor t false ≫= fun _ =>
        update t (fun x => set_cursor x (moved_cursor (t_cursor x) (cursorPos_x (t_cursor x)) (cursorPos_y (t_cursor x)) (frame_tick s)))
   else mret tt) ≫= fun _ =>
  p ← put_at t c (cursorPos_x (t_cursor x)) (cursorPos_y (t_cursor x)) (t_width (t_grid x));
  let '(curx, cury) := p in
  p ← (if t_width (t_grid x) <=? wrap size_bits curx then cury ← lift (ckint (cury + 1)); mret (0, cury) else mret (curx, cury));
  let '(curx, cury) := p in
  cury ← (if t_height (t_grid x) <=? wrap size_bits cury
          then __gfxterm_scroll_content t 1 ≫= fun _ => lift (ckint (sign_of 32 (t_height (t_grid x)) - 1))
          else mret cury);
  update t (fun x => set_cursor x (moved_cursor (t_cursor x) (cursorPos_x (t_cursor x)) (cursorPos_y (t_cursor x)) (frame_tick s))) ≫= fun _ =>
  __gfxterm_draw_cursor t false ≫= fun _ =>
  update t (fun x => set_cursor x (moved_cursor (t_cursor x) curx cury (frame_tick s))).

Definition gfxterm_putChar (t c : Z) : M unit := if t =? NULL then mret tt else suppressed t (put_char_body t c).

Fixpoint put_chars (t : Z) (str : bytes) : M unit :=
  match str with [] => mret tt | c :: str => gfxterm_putChar t c ≫= fun _ => put_chars t str end.

(** The characters before the terminator *)
Definition gfxterm_write (t : Z) (str : option bytes) : M unit :=
  match str with
  | None => mret tt
  | Some str => if t =? NULL then mret tt else suppressed t (put_chars t str)
  end.

(** ** The view *)

Definition gfxterm_scroll (t lines : Z) : M unit :=
  if (t =? NULL) || (lines =? 0) then mret tt
  else
    x ← the_term t;
    let g := t_grid x in
    if bool_decide (buffer g = None) || (t_width g =? 0) || (t_height g =? 0) then mret tt
    else
      (if cursor_visible (t_cursor x)
       then __gfxterm_draw_cursor t false ≫= fun _ => update t (fun x => set_cursor x (show_cursor (t_cursor x) false))
       else mret tt) ≫= fun _ =>
      if lines <? 0 then
        delta ← lift (ckint (- lines));
        let new_index := drawLineIndex x +[size_bits] delta in
        update t (fun x => set_view x (Z.min new_index (scrollback_count (t_scrollback x))) true)
      else update t (fun x => set_view x (if lines <? drawLineIndex x then drawLineIndex x - lines else 0) true).

(** Row [y] of the view that starts at [start_line] *)
Definition view_line (x : GFXTerminal) (start_line y : Z) : option line :=
  let sb := t_scrollback x in
  let cap_lines := __sb_capacity_lines sb in
  let logical_line := start_line +[size_bits] y in
  if (logical_line <? scrollback_count sb) && negb (cap_lines =? 0)
  then sb_get_line (t_width (t_grid x)) sb ((scrollback_start sb +[size_bits] logical_line) mod cap_lines)
  else grid_row (t_grid x) (fgColor x) (bgColor x) (logical_line -[size_bits] scrollback_count sb).

(** The cells of a row; a background is drawn if the row has its own colours. *)
Fixpoint redraw_row (f : gfx_font) (own : bool) (px py : Z) (cs : bytes) (fgs bgs : list Z) (b : option gfx_buffer) : option (option gfx_buffer) :=
  match cs, fgs, bgs with
  | c :: cs, fg :: fgs, bg :: bgs =>
      b ← (if c =? SPACE then Some b
           else
             b ← (if own then put_rect (sign_of 32 px) (sign_of 32 py) (sign_of 32 (gf_width f)) (sign_of 32 (gf_height f)) bg b else Some b);
             put_glyph (sign_of 32 px) (sign_of 32 py) c fg f b);
      redraw_row f own (px +[size_bits] gf_width f) py cs fgs bgs b
  | _, _, _ => Some b
  end.

Definition from_history (x : GFXTerminal) (start_line y : Z) : bool :=
  ((start_line +[size_bits] y) <? scrollback_count (t_scrollback x)) && negb (__sb_capacity_lines (t_scrollback x) =? 0).

Definition redraw_rows (x : GFXTerminal) (start_line : Z) : option gfx_buffer -> option (option gfx_buffer) :=
  for_each (seqZ 0 (t_height (t_grid x))) (fun y b =>
    l ← view_line x start_line y;
    let '(cs, fgs, bgs) := l in
    redraw_row (font x) (from_history x start_line y || negb (bool_decide (cellBg (t_grid x) = None))) 0 (y *[size_bits] gf_height (font x)) cs fgs bgs b).

Definition gfxterm_redraw (t : Z) : M unit :=
  if t =? NULL then mret tt
  else
    x ← the_term t;
    if (framebuffer x =? NULL) || bool_decide (buffer (t_grid x) = None) then mret tt
    else
      draw_on t (fun b => b0 ← b; put_rect 0 0 (sign_of 32 (gb_width b0)) (sign_of 32 (gb_height b0)) (bgColor x) b) ≫= fun _ =>
      let h := t_height (t_grid x) in
      let total_lines := scrollback_count (t_scrollback x) +[size_bits] h in
      let max_offset := if h <? total_lines then total_lines - h else 0 in
      let index := if max_offset <? drawLineIndex x then max_offset else drawLineIndex x in
      let start_line := if h <? total_lines then total_lines - h - index else 0 in
      draw_on t (redraw_rows x start_line) ≫= fun _ =>
      draw_on t mark_dirty ≫= fun _ =>
      update t (fun x => set_view x index false).

(** The loop of [gfxterm_draw_task] for one terminal; the frame counter was
    increased before. *)
Definition draw_terminal (t : Z) : M unit :=
  if t =? NULL then mret tt
  else
    x ← the_term t;
    sup ← get_suppress t;
    if negb (t_visible x) || sup then mret tt
    else
      (if t_dirty x then gfxterm_redraw t else mret tt) ≫= fun _ =>
      let redrawn := t_dirty x in
      x ← the_term t;
      s ← get;
      let c := t_cursor x in
      if negb (cursor_enabled c) then mret tt
      else if 0 <? drawLineIndex x then
        if cursor_visible c
        then __gfxterm_draw_cursor t false ≫= fun _ => update t (fun x => set_cursor x (show_cursor (t_cursor x) false))
        else mret tt
      else
        (if redrawn && cursor_visible c then __gfxterm_draw_cursor t true else mret tt) ≫= fun _ =>
        let next := if cursor_blink_next c =? 0 then frame_tick s +[size_bits] cursor_blink_ticks c else cursor_blink_next c in
        if next <=? frame_tick s then
          update t (fun x => set_cursor x (mkCursor (cursorPos_x c) (cursorPos_y c) (cursor_enabled c) (negb (cursor_visible c)) (cursor_blink_ticks c)
                                             (frame_tick s +[size_bits] cursor_blink_ticks c) (cursor_color c))) ≫= fun _ =>
          __gfxterm_draw_cursor t (negb (cursor_visible c))
        else
          update t (fun x => set_cursor x (mkCursor (cursorPos_x c) (cursorPos_y c) (cursor_enabled c) (cursor_visible c) (cursor_blink_ticks c) next (cursor_color c))).

Fixpoint draw_terminals (l : list Z) : M unit :=
  match l with [] => mret tt | t :: l => draw_terminal t ≫= fun _ => draw_terminals l end.

Definition gfxterm_draw_task : M unit :=
  s ← get;
  match terminals s with
  | None | Some [] => mret tt
  | Some l =>
      modify (fun s => mkTerminals (ts_gfx s) (ts_terms s) (terminals s) (ts_clock s) (frame_tick s +[size_bits] 1)) ≫= fun _ => draw_terminals l
  end.

(** ** Settings *)

Definition gfxterm_enable_cursor (t : Z) (enable : bool) : M unit :=
  if t =? NULL then mret tt
  else
    x ← the_term t;
    let c := t_cursor x in
    put_term t (set_cursor x (mkCursor (cursorPos_x c) (cursorPos_y c) enable (cursor_visible c) (cursor_blink_ticks c) (cursor_blink_next c) (cursor_color c))) ≫= fun _ =>
    if negb enable && cursor_visible c
    then __gfxterm_draw_cursor t false ≫= fun _ => update t (fun x => set_cursor x (show_cursor (t_cursor x) false))
    else mret tt.

Definition opaque (color : Z) : Z := if alpha color =? 0 then Z.lor color 0xFF000000 else color.

Definition gfxterm_setBGColor (t color : Z) : M unit := if t =? NULL then mret tt else update t (fun x => set_colors x (fgColor x) (opaque color)).
Definition gfxterm_setFGColor (t color : Z) : M unit := if t =? NULL then mret tt else update t (fun x => set_colors x (opaque color) (bgColor x)).

Definition gfxterm_setCursorPos (t px py : Z) : M unit :=
  if t =? NULL then mret tt
  else
    x ← the_term t;
    let '(px, py) := if (px <? 0) || (py <? 0) then (0, 0) else (px, py) in
    if (t_width (t_grid x) <=? px) || (t_height (t_grid x) <=? py) then mret tt
    else
      (if cursor_enabled (t_cursor x) && cursor_visible (t_cursor x) then __gfxterm_draw_cursor t false else mret tt) ≫= fun _ =>
      s ← get;
      update t (fun x => set_cursor x (moved_cursor (t_cursor x) px py (frame_tick s))).

(** Entries of the arrays that are used, all set *)
Definition clear_cells (l : list Z) (n v : Z) : option (list Z) := put_bytes l 0 (replicate (Z.to_nat n) v).

Definition clear_grid (g : Grid) (fg bg : Z) : option Grid :=
  let n := bufferCapacity g in
  b ← (match buffer g with Some b => b ← clear_cells b n SPACE; Some (Some b) | None => Some None end);
  match cellFg g, cellBg g with
  | Some f, Some k => f ← clear_cells f n fg; k ← clear_cells k n bg; Some (mkGrid b n (t_width g) (t_height g) (Some f) (Some k))
  | f, k => Some (mkGrid b n (t_width g) (t_height g) f k)
  end.

Definition clear_body (t : Z) : M unit :=
  x ← the_term t;
  g ← lift (clear_grid (t_grid x) (fgColor x) (bgColor x));
  put_term t (set_grid x g) ≫= fun _ =>
  draw_on t (fun b => match b with None => Some None | Some b0 => put_rect 0 0 (sign_of 32 (gb_width b0)) (sign_of 32 (gb_height b0)) (bgColor x) b end) ≫= fun _ =>
  draw_on t mark_dirty ≫= fun _ =>
  update t (fun x =>
    let c := t_cursor x in
    set_view (set_scrollback (set_cursor x (mkCursor 0 0 (cursor_enabled c) (cursor_visible c) (cursor_blink_ticks c) (cursor_blink_next c) (cursor_color c)))
      (__scrollback_clear (t_scrollback x))) 0 true).

Definition gfxterm_clear (t : Z) : M unit := if t =? NULL then mret tt else suppressed t (clear_body t).

(** ** Making, showing and resizing

    [naddr] and [fbaddr] choose the addresses of list nodes and frame buffers;
    the size of the screen in pixels is [screen_w] by [screen_h]. *)

Context (naddr : nat -> nodes -> Z) (fbaddr : nat -> gmap Z gfx_buffer -> Z) (screen_w screen_h : Z).

Definition next_clock : M nat := fun s =>
  Some (mkTerminals (ts_gfx s) (ts_terms s) (terminals s) (S (ts_clock s)) (frame_tick s), ts_clock s).

Definition register (p : Z) : M unit :=
  k ← next_clock;
  s ← get;
  g ← lift (gfx_screen_register_buffer (ts_gfx s) p (if mal k then Some (naddr k (list_nodes (ts_gfx s))) else None));
  put_gfx g.

Definition unregister (p : Z) : M unit := s ← get; g ← lift (gfx_screen_unregister_buffer (ts_gfx s) p); put_gfx g.

(** The processor is halted when memory is missing, [None]. *)
Definition create_framebuffer (w h : Z) : M Z :=
  k ← next_clock;
  s ← get;
  r ← lift (gfx_create_buffer (ts_gfx s) w h (if mal k then Some (fbaddr k (buffer_objects (ts_gfx s)), false) else None)
              (fun n => if mal k then Some (take (Z.to_nat n) (junk k n ++ zeros n)) else None));
  put_gfx r.1 ≫= fun _ => mret r.2.

Definition gfxterm_visible (t : Z) (visible : bool) : M unit :=
  if t =? NULL then mret tt
  else
    x ← the_term t;
    put_term t (set_visible x visible) ≫= fun _ =>
    if visible then register (framebuffer x) ≫= fun _ => update t (fun x => set_cursor x (show_cursor (t_cursor x) false))
    else unregister (framebuffer x).

(** The parts of a line of [len] entries cut at [w], from [off] on *)
Fixpoint pieces (fuel : nat) (w len off : Z) : list (Z * Z) :=
  match fuel with
  | O => []
  | S fuel => if off <? len then let chunk := Z.min w (len - off) in (off, chunk) :: pieces fuel w len (off + chunk) else []
  end.

(** Entries [off] to [off + chunk] of [l], filled up to [w] *)
Definition padded (l : list Z) (w off chunk v : Z) : option (list Z) := part ← sub_bytes l off chunk; put_bytes (replicate (Z.to_nat w) v) 0 part.

(** A line of the old scrollback cut for the new width; [own] tells which of the
    two temporary arrays of colours were allocated. *)
Definition reflow_line (old_w w fg bg : Z) (own_fg own_bg : bool) (l : option line) : list (option line) :=
  (fun p : Z * Z =>
     l ← l;
     let '(c, f, g) := l in
     c ← padded c w p.1 p.2 SPACE;
     f ← (if own_fg then padded f w p.1 p.2 fg else Some (replicate (Z.to_nat w) fg));
     g ← (if own_bg then padded g w p.1 p.2 bg else Some (replicate (Z.to_nat w) bg));
     Some (c, f, g)) <$> pieces (Z.to_nat old_w) w old_w 0.

(** The old scrollback, then the old grid, whose colours are not kept *)
Definition migrate_scrollback (old_w w fg bg : Z) (old : Scrollback) (sb : Scrollback) : M Scrollback :=
  if bool_decide (sb_blocks old = []) || (old_w =? 0) then mret sb
  else
    let new_w := if w =? 0 then 1 else w in
    tmp_chars ← alloc_array new_w;
    tmp_fg ← alloc_array new_w;
    tmp_bg ← alloc_array new_w;
    match tmp_chars with
    | None => mret sb
    | Some _ =>
        let cap_lines := __sb_capacity_lines old in
        let lines := (fun i => sb_get_line old_w old ((scrollback_start old +[size_bits] i) mod cap_lines)) <$> seqZ 0 (scrollback_count old) in
        push_rows w (lines ≫= reflow_line old_w new_w fg bg (negb (bool_decide (tmp_fg = None))) (negb (bool_decide (tmp_bg = None)))) sb
    end.

Definition migrate_grid (w fg bg : Z) (old : Grid) (sb : Scrollback) : M Scrollback :=
  let old_w := t_width old in
  match buffer old with
  | None => mret sb
  | Some old_buf =>
      if (old_w =? 0) || (t_height old =? 0) then mret sb
      else
        let new_w := if w =? 0 then 1 else w in
        tmp_chars ← alloc_array new_w;
        match tmp_chars with
        | None => mret sb
        | Some _ =>
            let row (y : Z) := c ← sub_bytes old_buf (y * old_w) old_w; Some (c, [], []) in
            push_rows w ((row <$> seqZ 0 (t_height old)) ≫= reflow_line old_w new_w fg bg false false) sb
        end
  end.

(** The newest lines are taken out of the scrollback into the grid. *)
Definition fill_row (w h : Z) (sb : Scrollback) (cap_lines start_from take : Z) (i : Z) (g : Grid) : option Grid :=
  l ← sb_get_line w sb ((start_from +[size_bits] i) mod cap_lines);
  let '(c, f, k) := l in
  let at_ := (h - take + i) * w in
  b ← (b ← buffer g; put_bytes b at_ c);
  match cellFg g, cellBg g with
  | Some gf, Some gk => gf ← put_bytes gf at_ f; gk ← put_bytes gk at_ k; Some (mkGrid (Some b) (bufferCapacity g) (t_width g) (t_height g) (Some gf) (Some gk))
  | gf, gk => Some (mkGrid (Some b) (bufferCapacity g) (t_width g) (t_height g) gf gk)
  end.

Definition fill_grid (g : Grid) (sb : Scrollback) : option (Grid * Scrollback) :=
  let h := t_height g in
  let cap_lines := __sb_capacity_lines sb in
  let take := Z.min (scrollback_count sb) h in
  let start_from := if (cap_lines =? 0) || (take =? 0) then 0 else (scrollback_start sb +[size_bits] (scrollback_count sb - take)) mod cap_lines in
  g ← for_each (seqZ 0 take) (fill_row (t_width g) h sb cap_lines start_from take) g;
  Some (g, with_ring sb (scrollback_count sb - take) (scrollback_start sb)).

(** The frame buffer is replaced: the old one is cleared, shown once and freed. *)
Definition replace_framebuffer (t w h : Z) : M unit :=
  x ← the_term t;
  (if framebuffer x =? NULL then mret tt
   else
     (if t_visible x then
        draw_on t (fun b => b0 ← b; put_rect 0 0 (sign_of 32 (gb_width b0)) (sign_of 32 (gb_height b0)) (bgColor x) b) ≫= fun _ =>
        draw_on t mark_dirty ≫= fun _ =>
        gfxterm_draw_task ≫= fun _ => unregister (framebuffer x)
      else mret tt) ≫= fun _ =>
     s ← get; g ← lift (gfx_destroy_buffer (ts_gfx s) (framebuffer x)); put_gfx g) ≫= fun _ =>
  p ← create_framebuffer w h;
  update t (fun x => set_framebuffer x p) ≫= fun _ =>
  if t_visible x then register p else mret tt.

(** The new arrays of a grid of [w] by [h] cells; colours for both or neither *)
Definition new_grid (w h : Z) (fg bg : Z) (old : Grid) : M (option Grid) :=
  let n := w *[32] h in
  b ← alloc_array n;
  match b with
  | None => mret None
  | Some _ =>
      f ← alloc_array n;
      k ← alloc_array n;
      mret (Some (match f, k with
                  | Some _, Some _ => mkGrid (Some (replicate (Z.to_nat n) SPACE)) n w h (Some (replicate (Z.to_nat n) fg)) (Some (replicate (Z.to_nat n) bg))
                  | _, _ => mkGrid (Some (replicate (Z.to_nat n) SPACE)) n w h None None
                  end))
  end.

Definition resize_body (t w h : Z) : M unit :=
  x ← the_term t;
  let fw := gf_width (font x) in
  let fh := gf_height (font x) in
  if (fw =? 0) || (fh =? 0) then lift None
  else
    let large := (screen_w <? w *[32] fw) || (screen_h <? h *[32] fh) in
    let '(pw, ph) := if large then (screen_w, screen_h) else (w *[32] fw, h *[32] fh) in
    let '(w, h) := if large then (wrap 32 (screen_w / fw), wrap 32 (screen_h / fh)) else (w, h) in
    let old := t_grid x in
    update t (fun x => set_grid x (mkGrid (buffer old) (bufferCapacity old) w h (cellFg old) (cellBg old))) ≫= fun _ =>
    replace_framebuffer t pw ph ≫= fun _ =>
    x ← the_term t;
    r ← new_grid w h (fgColor x) (bgColor x) old;
    match r with
    | None => put_term t (set_grid x (mkGrid None 0 w h (cellFg old) (cellBg old)))
    | Some g =>
        let old_sb := t_scrollback x in
        let sb := __scrollback_init (if scrollback_max_lines old_sb =? 0 then 4096 else scrollback_max_lines old_sb) in
        sb ← migrate_scrollback (t_width old) w (fgColor x) (bgColor x) old_sb sb;
        sb ← migrate_grid w (fgColor x) (bgColor x) old sb;
        r ← lift (fill_grid g sb);
        put_term t (set_view (set_scrollback (set_grid x r.1) r.2) 0 true)
    end.

Definition gfxterm_resize (t w h : Z) : M unit := if t =? NULL then mret tt else suppressed t (resize_body t w h).

Definition gfxterm_destroy (t : Z) : M unit :=
  if t =? NULL then mret tt
  else
    x ← the_term t;
    (if t_visible x then unregister (framebuffer x) else mret tt) ≫= fun _ =>
    s ← get;
    g ← lift (gfx_destroy_buffer (ts_gfx s) (framebuffer x));
    put_gfx g ≫= fun _ =>
    modify (fun s => mkTerminals (ts_gfx s) (delete t (ts_terms s)) ((fun l => match list_find (eq t) l with Some (i, _) => delete i l | None => l end) <$> terminals s)
                       (ts_clock s) (frame_tick s)).

(** The terminal before its size is known.  [fg0] and [bg0] are what the memory
    held, as the colours are set only after the first resizing. *)
Definition blank_terminal (f : gfx_font) (fg0 bg0 : Z) : GFXTerminal :=
  mkTerm (mkGrid None 0 0 0 None None) (__scrollback_init 4096) (mkCursor 0 0 true false 30 0 0xFFFFFFFF) NULL 0 fg0 bg0 f false true.

(** [t] is the address of the new object.  [pit] is the frequency of the timer
    if there is one.  The graphics were initialised; the name and the periodic
    task that draws the terminals are left out. *)
Definition gfxterm_create (t : Z) (f : gfx_font) (fg0 bg0 : Z) (pit : option Z) : M Z :=
  s ← get;
  r ← (match terminals s with Some l => mret (Some l) | None => r ← alloc_array 0; mret (match r with Some _ => Some [] | None => None end) end);
  match r with
  | None => mret NULL
  | Some l =>
      modify (fun s => mkTerminals (ts_gfx s) (ts_terms s) (Some l) (ts_clock s) (frame_tick s)) ≫= fun _ =>
      r ← alloc_array 0;
      match r with
      | None => mret NULL
      | Some _ =>
          put_term t (blank_terminal f fg0 bg0) ≫= fun _ =>
          gfxterm_resize t (wrap 32 (screen_w / gf_width f)) (wrap 32 (screen_h / gf_height f)) ≫= fun _ =>
          s ← get;
          update t (fun x =>
            let g := t_grid x in
            let bt := match pit with Some p => if p =? 0 then None else Some (if p / 2 =? 0 then 1 else p / 2) | None => None end in
            mkTerm (mkGrid (buffer g) (t_width g *[32] t_height g) (t_width g) (t_height g) (cellFg g) (cellBg g)) (t_scrollback x)
              (mkCursor 0 0 true false (default 30 bt) (match bt with Some b => frame_tick s +[size_bits] b | None => 0 end) 0xFFFFFFFF)
              (framebuffer x) 0 0xFFFFFFFF 0xFF000000 f (t_visible x) true) ≫= fun _ =>
          gfxterm_visible t true ≫= fun _ =>
          r ← alloc_array 0;
          modify (fun s => mkTerminals (ts_gfx s) (ts_terms s) (Some (match r with Some _ => l ++ [t] | None => l end)) (ts_clock s) (frame_tick s)) ≫= fun _ =>
          mret t
      end
  end.

End Terminal.
