(* ===== verification/GfxtermSpec.v ===== *)
(** * What the text terminal holds

    The scrollback is the sequence of the last lines that left the grid, and
    the terminal as a whole a page of lines that characters are typed on. *)

From S2P Require Import Prelude Bytes Lists Gfx GfxSpec GfxScreen Gfxterm.

(** ** Lines in the ring *)

(** The last [n] entries of a list *)
Definition keep_last {X} (n : nat) (l : list X) : list X := drop (length l - n) l.

Lemma keep_last_app {X} n (l k : list X) : keep_last n (keep_last n l ++ k) = keep_last n (l ++ k).
Proof.
  unfold keep_last at 2. destruct (decide (length l <= n)%nat); [by replace (length l - n)%nat with O by lia|].
  unfold keep_last. rewrite !length_app, length_drop.
  replace (length l + length k - n)%nat with (length l - n + (length l - (length l - n) + length k - n))%nat by lia.
  by rewrite <- drop_drop, (drop_app_le l) by lia.
Qed.

Lemma keep_last_all {X} n (l : list X) : (length l <= n)%nat -> keep_last n l = l.
Proof. intros H. unfold keep_last. by replace (length l - n)%nat with O by lia. Qed.

Lemma keep_last_length {X} n (l : list X) : length (keep_last n l) = Nat.min n (length l).
Proof. unfold keep_last. rewrite length_drop. lia. Qed.

Section Ring.
Context `{A : Arch} (w : Z).

Definition line_ok (l : line) : Prop := zlen l.1.1 = w /\ zlen l.1.2 = w /\ zlen l.2 = w.
Definition block_ok (b : sb_block_t) : Prop := zlen (sb_chars b) = 128 * w /\ zlen (sb_fg b) = 128 * w /\ zlen (sb_bg b) = 128 * w.

Definition cap (sb : Scrollback) : Z := 128 * Z.of_nat (length (sb_blocks sb)).

(** The ring is only turned when it is full, and then at most a whole number of
    blocks. *)
Record ring_ok (sb : Scrollback) : Prop := {
  rk_blocks : Forall block_ok (sb_blocks sb);
  rk_max : exists k, scrollback_max_lines sb = 128 * k /\ 0 < k /\ scrollback_max_lines sb < 2 ^ 31;
  rk_cap : cap sb <= scrollback_max_lines sb;
  rk_count : 0 <= scrollback_count sb <= cap sb;
  rk_start : scrollback_start sb = 0 \/ scrollback_count sb = scrollback_max_lines sb /\ 0 <= scrollback_start sb < cap sb
}.

Hypothesis Hw : 0 < w < 2 ^ 24.

Lemma slot_range i n : 0 <= i < 128 * Z.of_nat n -> (Z.to_nat (i / 128) < n)%nat /\ 0 <= i mod 128 * w /\ i mod 128 * w + w <= 128 * w.
Proof.
  intros Hi. pose proof (Z.mod_pos_bound i 128 ltac:(lia)). assert (0 <= i / 128 < Z.of_nat n) by (split; [apply Z.div_pos; lia|apply Z.div_lt_upper_bound; lia]).
  split; [lia|]. nia.
Qed.

Lemma get_line_ok sb i : Forall block_ok (sb_blocks sb) -> 0 <= i < cap sb -> exists l, sb_get_line w sb i = Some l /\ line_ok l.
Proof.
  intros Hb Hi. destruct (slot_range i _ Hi) as (Hn & H1 & H2). destruct (lookup_lt_is_Some_2 _ _ Hn) as [b Eb]. unfold sb_get_line, SB_BLOCK_LINES. rewrite Eb. cbn [mbind option_bind].
  rewrite Forall_lookup in Hb. destruct (Hb _ _ Eb) as (B1 & B2 & B3). rewrite !sub_bytes_ok by lia. cbn [mbind option_bind]. eexists. split; [done|].
  unfold line_ok. cbn [fst snd]. rewrite !zlen_take, !zlen_drop by lia. lia.
Qed.

(** Entries [o] to [o + n] after a store at [p] *)
Lemma sub_put_same (l bs l' : bytes) o n : put_bytes l o bs = Some l' -> n = zlen bs -> sub_bytes l' o n = Some bs.
Proof.
  unfold put_bytes. destruct (Z.leb_spec 0 o), (Z.leb_spec (o + zlen bs) (zlen l)); cbn; intros E ->; simplify_eq.
  assert (forall k, k = zlen (take (Z.to_nat o) l) -> sub_bytes (take (Z.to_nat o) l ++ bs ++ drop (Z.to_nat (o + zlen bs)) l) k (zlen bs) = Some bs) as Hk by (intros k ->; apply sub_bytes_app).
  apply Hk. rewrite zlen_take by lia. pose proof (zlen_nonneg bs). lia.
Qed.

Lemma sub_put_other (l bs l' : bytes) p o n : put_bytes l p bs = Some l' -> 0 <= o -> 0 <= n -> o + n <= p \/ p + zlen bs <= o -> sub_bytes l' o n = sub_bytes l o n.
Proof.
  unfold put_bytes. destruct (Z.leb_spec 0 p), (Z.leb_spec (p + zlen bs) (zlen l)); cbn; intros E Ho Hn Hd; simplify_eq. pose proof (zlen_nonneg bs).
  assert (zlen (take (Z.to_nat p) l ++ bs ++ drop (Z.to_nat (p + zlen bs)) l) = zlen l) as Hl by (rewrite !zlen_app, zlen_take, zlen_drop by lia; lia).
  unfold sub_bytes. rewrite Hl. destruct ((0 <=? o) && (0 <=? n) && (o + n <=? zlen l)) eqn:E; [|done]. apply andb_prop in E as [_ E%Z.leb_le]. f_equal.
  unfold zlen in *. destruct Hd.
  - rewrite drop_app_le by (rewrite length_take; lia). rewrite take_app_le by (rewrite length_drop, length_take; lia). rewrite skipn_firstn_comm, take_take. f_equal. lia.
  - rewrite drop_app_ge by (rewrite length_take; lia). rewrite length_take. rewrite drop_app_ge by lia. rewrite drop_drop. do 2 f_equal. lia.
Qed.

Lemma put_length (l bs l' : bytes) o : put_bytes l o bs = Some l' -> zlen l' = zlen l.
Proof.
  unfold put_bytes. pose proof (zlen_nonneg bs). destruct (Z.leb_spec 0 o), (Z.leb_spec (o + zlen bs) (zlen l)); cbn; intros; simplify_eq. rewrite !zlen_app, zlen_take, zlen_drop by lia. lia.
Qed.

Lemma put_some (l bs : bytes) o : 0 <= o -> o + zlen bs <= zlen l -> exists l', put_bytes l o bs = Some l'.
Proof. intros. unfold put_bytes. destruct (Z.leb_spec 0 o), (Z.leb_spec (o + zlen bs) (zlen l)); [by eexists|lia..]. Qed.

(** A line that is stored is there, and the others stay. *)
Lemma put_line_spec sb i l : Forall block_ok (sb_blocks sb) -> 0 <= i < cap sb -> line_ok l ->
  exists bl, let sb' := mkScrollback (scrollback_max_lines sb) (scrollback_count sb) (scrollback_start sb) bl (sb_blocks_capacity sb) in
    sb_put_line w sb i l = Some sb' /\ Forall block_ok bl /\ length bl = length (sb_blocks sb) /\
    sb_get_line w sb' i = Some l /\ forall j, 0 <= j -> j <> i -> sb_get_line w sb' j = sb_get_line w sb j.
Proof.
  intros Hb Hi Hl. destruct l as [[c f] g]. destruct Hl as (L1 & L2 & L3). cbn [fst snd] in *. destruct (slot_range i _ Hi) as (Hn & H1 & H2). destruct (lookup_lt_is_Some_2 _ _ Hn) as [b Eb].
  pose proof Hb as Hb'. rewrite Forall_lookup in Hb'. destruct (Hb' _ _ Eb) as (B1 & B2 & B3).
  destruct (put_some (sb_chars b) c (i mod 128 * w)) as [c' Ec]; [lia..|]. destruct (put_some (sb_fg b) f (i mod 128 * w)) as [f' Ef]; [lia..|]. destruct (put_some (sb_bg b) g (i mod 128 * w)) as [g' Eg]; [lia..|].
  exists (<[Z.to_nat (i / 128) := mkBlock c' f' g']> (sb_blocks sb)). cbv zeta. split_and!.
  - unfold sb_put_line, SB_BLOCK_LINES. rewrite Eb. cbn [mbind option_bind]. by rewrite Ec, Ef, Eg.
  - apply Forall_insert; [done|]. unfold block_ok. cbn. rewrite (put_length _ _ _ _ Ec), (put_length _ _ _ _ Ef), (put_length _ _ _ _ Eg). done.
  - apply length_insert.
  - unfold sb_get_line, SB_BLOCK_LINES. cbn [sb_blocks]. rewrite list_lookup_insert_eq by done. cbn [mbind option_bind sb_chars sb_fg sb_bg].
    by rewrite (sub_put_same _ _ _ _ _ Ec), (sub_put_same _ _ _ _ _ Ef), (sub_put_same _ _ _ _ _ Eg).
  - intros j Hj Hne. unfold sb_get_line, SB_BLOCK_LINES. cbn [sb_blocks]. pose proof (Z.mod_pos_bound j 128 ltac:(lia)). pose proof (Z.div_mod i 128 ltac:(lia)). pose proof (Z.div_mod j 128 ltac:(lia)).
    destruct (decide (i / 128 = j / 128)) as [E|E].
    + rewrite <- E, list_lookup_insert_eq, Eb by done. cbn [mbind option_bind sb_chars sb_fg sb_bg]. assert (j mod 128 * w + w <= i mod 128 * w \/ i mod 128 * w + w <= j mod 128 * w) by nia.
      rewrite (sub_put_other _ _ _ _ _ _ Ec), (sub_put_other _ _ _ _ _ _ Ef), (sub_put_other _ _ _ _ _ _ Eg) by nia. done.
    + rewrite list_lookup_insert_ne; [done|]. pose proof (Z.div_pos j 128). pose proof (Z.div_pos i 128). lia.
Qed.

(** The lines of the scrollback, the oldest first *)
Definition holds_lines (sb : Scrollback) (ls : list line) : Prop :=
  Z.of_nat (length ls) = scrollback_count sb /\
  forall i : nat, (i < length ls)%nat -> sb_get_line w sb ((scrollback_start sb + Z.of_nat i) mod cap sb) = ls !! i.

Context (junk : nat -> Z -> list Z).
Definition always (k : nat) : bool := true.

(** Allocations change only the clock. *)
Definition at_time (s : Terminals) (k : nat) : Terminals := mkTerminals (ts_gfx s) (ts_terms s) (terminals s) k (frame_tick s).

Lemma capacity_lines sb : cap sb < 2 ^ 32 -> __sb_capacity_lines sb = cap sb.
Proof. intros H. unfold __sb_capacity_lines, cap, SB_BLOCK_LINES in *. rewrite wrap_size by lia. lia. Qed.

Lemma alloc_block_spec sb s : exists k c b, let sb' := mkScrollback (scrollback_max_lines sb) (scrollback_count sb) (scrollback_start sb) (sb_blocks sb ++ [b]) c in
  __sb_alloc_block always junk w sb s = Some (at_time s k, (sb', true)) /\ block_ok b.
Proof.
  assert (forall k, zlen (take (Z.to_nat (128 * w)) (junk k (128 * w) ++ zeros (128 * w))) = 128 * w) as Hj.
  { intros k. rewrite zlen_take, zlen_app, zlen_zeros by lia. pose proof (zlen_nonneg (junk k (128 * w))). lia. }
  assert (forall sb k, exists k' b, (let cells := SB_BLOCK_LINES *[size_bits] w in chars ← alloc_array always junk cells; fg ← alloc_array always junk cells; bg ← alloc_array always junk cells;
    mret (match chars, fg, bg with
          | Some chars, Some fg, Some bg => (mkScrollback (scrollback_max_lines sb) (scrollback_count sb) (scrollback_start sb) (sb_blocks sb ++ [mkBlock chars fg bg]) (sb_blocks_capacity sb), true)
          | _, _, _ => (sb, false) end)) (at_time s k) =
    Some (at_time s k', (mkScrollback (scrollback_max_lines sb) (scrollback_count sb) (scrollback_start sb) (sb_blocks sb ++ [b]) (sb_blocks_capacity sb), true)) /\ block_ok b) as H.
  { intros sb0 k. unfold SB_BLOCK_LINES. rewrite wrap_size by lia. cbv zeta. eexists _, _. split; [reflexivity|]. unfold block_ok. cbn [sb_chars sb_fg sb_bg]. by rewrite !Hj. }
  unfold __sb_alloc_block. destruct (Z.of_nat (length (sb_blocks sb)) =? sb_blocks_capacity sb).
  - unfold __sb_grow_blocks_array. set (nc := if sb_blocks_capacity sb =? 0 then SB_BLOCK_PTR_GROW else sb_blocks_capacity sb +[size_bits] SB_BLOCK_PTR_GROW).
    destruct (H (mkScrollback (scrollback_max_lines sb) (scrollback_count sb) (scrollback_start sb) (sb_blocks sb) nc) (S (ts_clock s))) as (k' & b & E & Hb).
    exists k', nc, b. split; [|done]. exact E.
  - destruct (H sb (ts_clock s)) as (k' & b & E & Hb). exists k', (sb_blocks_capacity sb), b. split; [|done].
    assert (at_time s (ts_clock s) = s) as Es by (by destruct s). rewrite Es in E. exact E.
Qed.

(** A line for which there is room, when the ring has not been turned *)
Lemma append_line sb ls l : ring_ok sb -> holds_lines sb ls -> line_ok l -> scrollback_start sb = 0 -> scrollback_count sb < cap sb ->
  exists sb', sb_put_line w sb (scrollback_count sb) l = Some sb' /\
    let sb2 := with_ring sb' (scrollback_count sb + 1) 0 in ring_ok sb2 /\ scrollback_max_lines sb2 = scrollback_max_lines sb /\ holds_lines sb2 (ls ++ [l]).
Proof.
  intros [Hb Hm Hc Hn _] [Hlen Hl] Hok Hs Hroom. destruct (put_line_spec sb (scrollback_count sb) l Hb) as (bl & E & Hbl & Hlb & Hget & Hother); [lia|done|].
  eexists. split; [exact E|]. cbv zeta. unfold with_ring. cbn [scrollback_max_lines sb_blocks sb_blocks_capacity].
  assert (cap (mkScrollback (scrollback_max_lines sb) (scrollback_count sb + 1) 0 bl (sb_blocks_capacity sb)) = cap sb) as Hcap by (unfold cap; cbn; by rewrite Hlb).
  split_and!; [|done|].
  - constructor; rewrite ?Hcap; cbn; [done|done|done|lia|by left].
  - split; [rewrite length_app; cbn; lia|]. intros i Hi. rewrite length_app in Hi. cbn in Hi. rewrite Hcap. cbn [scrollback_start]. rewrite Z.add_0_l, Z.mod_small by lia.
    destruct (decide (i < length ls)%nat).
    + rewrite lookup_app_l by done. specialize (Hl i ltac:(done)). rewrite Hs, Z.add_0_l, Z.mod_small in Hl by lia. rewrite <- Hl. apply (Hother (Z.of_nat i)); lia.
    + assert (i = length ls) as -> by lia. rewrite lookup_app_r by lia. rewrite Nat.sub_diag, Hlen. exact Hget.
Qed.

(** A full ring is turned by one line. *)
Lemma turn_line sb ls l : ring_ok sb -> holds_lines sb ls -> line_ok l -> scrollback_count sb = scrollback_max_lines sb -> 0 < cap sb ->
  exists sb', overwrite_oldest w (cap sb) sb l = Some sb' /\ ring_ok sb' /\ scrollback_max_lines sb' = scrollback_max_lines sb /\ holds_lines sb' (drop 1 ls ++ [l]).
Proof.
  intros [Hb Hm Hc Hn Hst] [Hlen Hl] Hok Hfull Hpos. destruct Hm as (k & Hk & Hk0 & Hmax).
  assert (0 <= scrollback_start sb < cap sb) as Hs by lia. assert (scrollback_count sb = cap sb) as Hcc by lia.
  destruct (put_line_spec sb (scrollback_start sb) l Hb Hs Hok) as (bl & E & Hbl & Hlb & Hget & Hother).
  unfold overwrite_oldest. rewrite E. cbn [mbind option_bind]. eexists. split; [done|]. unfold with_ring. cbn [scrollback_max_lines sb_blocks sb_blocks_capacity]. rewrite wrap_size by lia.
  set (st' := (scrollback_start sb + 1) mod cap sb). pose proof (Z.mod_pos_bound (scrollback_start sb + 1) (cap sb) Hpos) as Hst'. fold st' in Hst'.
  assert (cap (mkScrollback (scrollback_max_lines sb) (scrollback_count sb) st' bl (sb_blocks_capacity sb)) = cap sb) as Hcap by (unfold cap; cbn; by rewrite Hlb).
  split_and!; [|done|].
  - constructor; rewrite ?Hcap; cbn; [done|by exists k|lia|lia|by right].
  - split; [rewrite length_app, length_drop; cbn; lia|]. intros i Hi. rewrite length_app, length_drop in Hi. cbn in Hi. rewrite Hcap. cbn [scrollback_start].
    unfold st'. rewrite Z.add_mod_idemp_l by lia. destruct (decide (i < length ls - 1)%nat).
    + rewrite lookup_app_l by (rewrite length_drop; lia). rewrite lookup_drop. specialize (Hl (1 + i)%nat ltac:(lia)). rewrite <- Hl.
      replace (scrollback_start sb + Z.of_nat (1 + i)) with (scrollback_start sb + 1 + Z.of_nat i) by lia. apply Hother; [apply Z.mod_pos_bound; lia|].
      intros Em. pose proof (Z.div_mod (scrollback_start sb + 1 + Z.of_nat i) (cap sb) ltac:(lia)) as Hd. rewrite Em in Hd.
      generalize dependent ((scrollback_start sb + 1 + Z.of_nat i) / cap sb). intros q Hd. assert (Z.of_nat i + 1 < cap sb) as Hlt by lia. clear -Hd Hlt Hpos.
      assert (q <= 0 \/ 1 <= q) as [?|?] by lia; nia.
    + assert (i = length ls - 1)%nat as -> by lia. rewrite lookup_app_r by (rewrite length_drop; lia). rewrite length_drop, Nat.sub_diag.
      replace (scrollback_start sb + 1 + Z.of_nat (length ls - 1)) with (scrollback_start sb + 1 * cap sb) by lia. rewrite Z.mod_add, (Z.mod_small (scrollback_start sb)) by lia. exact Hget.
Qed.

(** A new block at the end of a ring that has not been turned *)
Lemma next_block sb ls c b : ring_ok sb -> holds_lines sb ls -> block_ok b -> scrollback_count sb < scrollback_max_lines sb -> cap sb <= scrollback_count sb ->
  let sb' := mkScrollback (scrollback_max_lines sb) (scrollback_count sb) (scrollback_start sb) (sb_blocks sb ++ [b]) c in
  ring_ok sb' /\ holds_lines sb' ls /\ scrollback_max_lines sb' = scrollback_max_lines sb /\ scrollback_count sb' < cap sb' /\ scrollback_count sb' = scrollback_count sb.
Proof.
  intros [Hb Hm Hc Hn Hs] [Hlen Hl] Hok Hlt Hend sb'. destruct Hm as (k & Hk & Hk0 & Hmax). assert (cap sb' = cap sb + 128) as Hcap by (unfold cap, sb'; cbn; rewrite length_app; cbn; lia).
  assert (scrollback_start sb = 0) as Hs0 by lia. split_and!; [|..|done|cbn; lia|done].
  - constructor; rewrite ?Hcap; cbn; [by apply Forall_app; split; [|constructor]|by exists k| |lia|by left]. unfold cap in *. lia.
  - split; [done|]. intros i Hi. rewrite Hcap. cbn [scrollback_start sb']. specialize (Hl i Hi). rewrite Hs0, Z.add_0_l, Z.mod_small in Hl by lia. rewrite Hs0, Z.add_0_l, Z.mod_small, <- Hl by lia.
    unfold sb_get_line, SB_BLOCK_LINES. cbn [sb_blocks sb']. rewrite lookup_app_l; [done|]. destruct (slot_range (Z.of_nat i) (length (sb_blocks sb))) as (H1 & _); [unfold cap in *; lia|done].
Qed.

Lemma first_block sb ls c b : ring_ok sb -> holds_lines sb ls -> block_ok b -> cap sb = 0 ->
  let sb' := mkScrollback (scrollback_max_lines sb) (scrollback_count sb) (scrollback_start sb) (sb_blocks sb ++ [b]) c in
  ring_ok sb' /\ holds_lines sb' ls /\ scrollback_max_lines sb' = scrollback_max_lines sb /\ 0 < cap sb'.
Proof.
  intros Hok Hl Hb H0 sb'. pose proof (rk_count _ Hok). pose proof (rk_max _ Hok) as (k & Hk & Hk0 & _).
  destruct (next_block sb ls c b Hok Hl Hb) as (H1 & H2 & H3 & H4 & H5); [lia|lia|]. split_and!; try done. unfold sb'. lia.
Qed.

(** Every line that is pushed is kept, up to the limit. *)
Lemma push_line_spec sb ls l s : ring_ok sb -> holds_lines sb ls -> line_ok l ->
  exists sb' k, __sb_push_line always junk w (Some l) sb s = Some (at_time s k, sb') /\ ring_ok sb' /\ scrollback_max_lines sb' = scrollback_max_lines sb /\
    holds_lines sb' (keep_last (Z.to_nat (scrollback_max_lines sb)) (ls ++ [l])).
Proof.
  intros Hok Hl Hline. pose proof (rk_max _ Hok) as (k0 & Hk & Hk0 & Hmax). unfold __sb_push_line. destruct (Z.eqb_spec w 0); [lia|].
  assert (exists sb1 k1, (if __sb_capacity_lines sb =? 0 then __sb_alloc_block always junk w sb else mret (sb, true)) s = Some (at_time s k1, (sb1, true)) /\
    ring_ok sb1 /\ holds_lines sb1 ls /\ scrollback_max_lines sb1 = scrollback_max_lines sb /\ 0 < cap sb1) as (sb1 & k1 & E1 & Hok1 & Hl1 & Hm1 & Hc1).
  { pose proof (rk_cap _ Hok). rewrite capacity_lines by lia. destruct (Z.eqb_spec (cap sb) 0) as [E0|].
    - destruct (alloc_block_spec sb s) as (k & c & b & E & Hb). eexists _, k. split; [exact E|]. by apply (first_block sb ls).
    - exists sb, (ts_clock s). split; [by destruct s|]. unfold cap in *. split_and!; try done. lia. }
  rewrite (bind_run _ _ _ _ _ E1). cbn [negb]. rewrite <- Hm1 in *. clear E1 Hok Hl Hm1. pose proof (rk_cap _ Hok1). pose proof (rk_count _ Hok1). rewrite capacity_lines by lia.
  pose proof Hl1 as [Hlen _]. destruct (Z.eqb_spec (scrollback_max_lines sb1) 0); [lia|]. cbn [negb andb]. destruct (Z.leb_spec (scrollback_max_lines sb1) (scrollback_count sb1)) as [Hfull|Hroom].
  { destruct (turn_line sb1 ls l Hok1 Hl1 Hline) as (sb2 & E2 & Hok2 & Hm2 & Hl2); [lia|lia|]. exists sb2, k1. cbn [mbind option_bind]. rewrite E2. split_and!; try done.
    unfold keep_last. rewrite length_app. cbn [length]. replace (length ls + 1 - Z.to_nat (scrollback_max_lines sb1))%nat with 1%nat by lia. by rewrite drop_app_le by lia. }
  assert (exists sb2 k2, (if cap sb1 <=? scrollback_count sb1 then __sb_alloc_block always junk w sb1 else mret (sb1, true)) (at_time s k1) = Some (at_time s k2, (sb2, true)) /\
    ring_ok sb2 /\ holds_lines sb2 ls /\ scrollback_max_lines sb2 = scrollback_max_lines sb1 /\ scrollback_count sb2 < cap sb2 /\ scrollback_count sb2 = scrollback_count sb1)
    as (sb2 & k2 & E2 & Hok2 & Hl2 & Hm2 & Hr2 & Hn2).
  { destruct (Z.leb_spec (cap sb1) (scrollback_count sb1)) as [Hend|]; [|by exists sb1, k1].
    destruct (alloc_block_spec sb1 (at_time s k1)) as (k & c & b & E & Hb). eexists _, k. split; [exact E|]. by apply next_block. }
  rewrite (bind_run _ _ _ _ _ E2). cbn [negb]. pose proof (rk_cap _ Hok2). pose proof (rk_count _ Hok2). assert (scrollback_start sb2 = 0) as Hs by (destruct (rk_start _ Hok2); lia).
  rewrite capacity_lines by lia. rewrite Hs, Z.add_0_l, (wrap_size (scrollback_count sb2)), Z.mod_small, wrap_size by lia.
  destruct (append_line sb2 ls l Hok2 Hl2 Hline Hs Hr2) as (sb3 & E3 & Hok3 & Hm3 & Hl3). cbn [mbind option_bind]. rewrite E3. cbn [mbind option_bind].
  exists (with_ring sb3 (scrollback_count sb2 + 1) 0), k2. split_and!; [done|done|by rewrite Hm3|]. rewrite keep_last_all by (rewrite length_app; cbn; lia). exact Hl3.
Qed.

End Ring.

Section Scrolled.
Context `{A : Arch} (w : Z) (Hw : 0 < w < 2 ^ 24) (junk : nat -> Z -> list Z).

(** The scrollback is the last lines that left the screen: pushing any
    lines always returns and keeps them in order after those that were there,
    dropping only the oldest beyond the limit, which is a whole number of
    blocks of 128 lines, as the default of 4096 is. *)
Theorem scrollback_keeps_last (new : list line) (sb : Scrollback) (ls : list line) (s : Terminals) :
  ring_ok w sb -> holds_lines w sb ls -> Forall (line_ok w) new -> (length ls <= Z.to_nat (scrollback_max_lines sb))%nat ->
  exists sb' k, push_rows always junk w (Some <$> new) sb s = Some (at_time s k, sb') /\ ring_ok w sb' /\ scrollback_max_lines sb' = scrollback_max_lines sb /\
    holds_lines w sb' (keep_last (Z.to_nat (scrollback_max_lines sb)) (ls ++ new)).
Proof.
  intros Hok Hl Hnew Hle. revert sb ls s Hok Hl Hle. induction Hnew as [|l new Hline Hnew IH]; intros sb ls s Hok Hl Hle.
  - exists sb, (ts_clock s). rewrite app_nil_r, keep_last_all by done. split_and!; try done. by destruct s.
  - destruct (push_line_spec w Hw junk sb ls l s Hok Hl Hline) as (sb1 & k1 & E1 & Hok1 & Hm1 & Hl1).
    destruct (IH sb1 (keep_last (Z.to_nat (scrollback_max_lines sb)) (ls ++ [l])) (at_time s k1) Hok1 Hl1) as (sb2 & k2 & E2 & Hok2 & Hm2 & Hl2); [rewrite keep_last_length, Hm1; lia|].
    exists sb2, k2. rewrite fmap_cons. cbn [push_rows]. rewrite (bind_run _ _ _ _ _ E1). split_and!; [exact E2|done|congruence|].
    rewrite Hm1 in Hl2. by rewrite keep_last_app, <- app_assoc in Hl2.
Qed.

End Scrolled.

(** ** Rows and the arrays that hold them *)

Lemma concat_row (ls : list (list Z)) (w i : nat) r : Forall (fun l => length l = w) ls -> ls !! i = Some r -> take w (drop (i * w) (concat ls)) = r.
Proof.
  intros H. revert i. induction H as [|l ls Hl Hls IH]; intros i Hi; [done|]. cbn [concat]. destruct i as [|i]; cbn in Hi.
  - injection Hi as ->. rewrite Nat.mul_0_l, drop_0, <- Hl. apply take_app_length.
  - replace (S i * w)%nat with (length l + i * w)%nat by (cbn; lia). rewrite <- drop_drop, drop_app_length. by apply IH.
Qed.

Lemma concat_insert (ls : list (list Z)) (w y x : nat) c : Forall (fun l => length l = w) ls -> (x < w)%nat ->
  <[(y * w + x)%nat := c]> (concat ls) = concat (alter (insert x c) y ls).
Proof.
  intros H Hx. revert y. induction H as [|l ls Hl Hls IH]; intros y; [done|]. destruct y as [|y]; cbn [concat alter list_alter].
  - cbn. by rewrite insert_app_l by lia.
  - replace (S y * w + x)%nat with (length l + (y * w + x))%nat by (cbn; lia). rewrite insert_app_r. by rewrite IH.
Qed.

Lemma put_one (l : list Z) i c : 0 <= i < zlen l -> put_bytes l i [c] = Some (<[Z.to_nat i := c]> l).
Proof.
  intros Hi. unfold put_bytes. change (zlen [c]) with 1. destruct (Z.leb_spec 0 i); [|lia]. destruct (Z.leb_spec (i + 1) (zlen l)); [|lia]. cbn [andb]. f_equal.
  unfold zlen in Hi. rewrite insert_take_drop by lia. do 3 f_equal. lia.
Qed.

Lemma length_rows (f : line -> list Z) (w : nat) (rows : list line) : Forall (fun l => length (f l) = w) rows -> length (concat (f <$> rows)) = (length rows * w)%nat.
Proof. induction 1 as [|l rows Hl Hr IH]; [done|]. rewrite fmap_cons. cbn [concat length]. rewrite length_app, IH. lia. Qed.
