(* ===== verification/GfxtermPage.v ===== *)
(** * Typing on the terminal

    The terminal as a page: a growing list of rows of coloured characters and a
    place on it.  Characters written to the terminal are typed on the page; the
    grid is its last rows and the scrollback those before. *)

From S2P Require Import Prelude Bytes Lists Gfx GfxSpec GfxScreen Gfxterm GfxtermSpec.

(** ** The page *)

Record page := mkPage { p_rows : list line; p_x : Z; p_y : Z }.

Definition blank_row (w fg bg : Z) : line := (replicate (Z.to_nat w) SPACE, replicate (Z.to_nat w) fg, replicate (Z.to_nat w) bg).

Definition set_cell (x : nat) (c fg bg : Z) (l : line) : line := (<[x := c]> l.1.1, <[x := fg]> l.1.2, <[x := bg]> l.2).

Section Page.
Context (w h fg bg : Z).

(** A character on row [y] and column [x]; columns beyond the width are lost. *)
Definition put_on (rows : list line) (x y c : Z) : list line :=
  if x <? w then alter (set_cell (Z.to_nat x) (stored_char c) fg bg) (Z.to_nat y) rows else rows.

Fixpoint spaces_on (n : nat) (rows : list line) (x y : Z) : list line :=
  match n with O => rows | S n => spaces_on n (put_on rows x y SPACE) (x + 1) y end.

(** New line, carriage return, tab, backspace and all the other characters; the
    backspace stays on the rows of the grid, the last [h]. *)
Definition typed (p : page) (c : Z) : page :=
  let '(mkPage rows x y) := p in
  if c =? 10 then mkPage rows 0 (y + 1)
  else if c =? 13 then mkPage rows 0 y
  else if c =? 9 then let n := 4 - x mod 4 in mkPage (spaces_on (Z.to_nat n) rows x y) (x + n) y
  else if c =? 8 then
    let '(x, y) := if 0 <? x then (x - 1, y) else if Z.of_nat (length rows) - h <? y then (w - 1, y - 1) else (x, y) in
    mkPage (put_on rows x y SPACE) x y
  else mkPage (put_on rows x y c) (x + 1) y.

Definition wrapped (p : page) : page := if w <=? p_x p then mkPage (p_rows p) 0 (p_y p + 1) else p.

(** A new row when the place is below the last *)
Definition extended (p : page) : page :=
  if Z.of_nat (length (p_rows p)) <=? p_y p then mkPage (p_rows p ++ [blank_row w fg bg]) (p_x p) (p_y p) else p.

Definition type_char (p : page) (c : Z) : page := extended (wrapped (typed p c)).

End Page.

(** ** Running the operations *)

Definition wp {S X} (m : st S X) (P : S -> X -> Prop) (s : S) : Prop := match m s with Some (s', x) => P s' x | None => False end.

Lemma wp_bind {S X Y} (m : st S X) (k : X -> st S Y) P s : wp m (fun s' x => wp (k x) P s') s -> wp (m ≫= k) P s.
Proof. unfold wp, mbind, st_bind. by destruct (m s) as [[s' x]|]. Qed.

Lemma wp_ret {S X} (x : X) (P : S -> X -> Prop) s : P s x -> wp (mret x) P s.
Proof. done. Qed.

Lemma wp_lift {S X} (x : X) (P : S -> X -> Prop) s : P s x -> wp (lift (Some x)) P s.
Proof. done. Qed.

Lemma wp_mono {S X} (m : st S X) (P Q : S -> X -> Prop) s : wp m P s -> (forall s' x, P s' x -> Q s' x) -> wp m Q s.
Proof. unfold wp. destruct (m s) as [[s' x]|]; [|done]. intros H HPQ. by apply HPQ. Qed.

(** Frame buffers that can be drawn on, and functions that draw on them *)
Definition good (b : gfx_buffer) : Prop := gfx_wf b /\ gb_width b < 2 ^ 28 /\ gb_height b < 2 ^ 28.

Definition safe (f : option gfx_buffer -> option (option gfx_buffer)) : Prop := forall b, good b -> exists b', f (Some b) = Some (Some b') /\ good b'.

Section Runs.
Context `{A : Arch} (junk : nat -> Z -> list Z) (t : Z).

(** The terminal at [t] is [x], and its frame buffer can be drawn on. *)
Definition St (s : Terminals) (x : GFXTerminal) : Prop :=
  ts_terms s !! t = Some x /\ framebuffer x <> NULL /\ exists b, buffer_objects (ts_gfx s) !! framebuffer x = Some b /\ good b.

Lemma wp_the_term s x P : St s x -> P s x -> wp (the_term t) P s.
Proof. intros (H & _) HP. unfold wp, the_term, get, mbind, st_bind, lift. by rewrite H. Qed.

Lemma wp_update s x f P : St s x -> framebuffer (f x) = framebuffer x -> (forall s', St s' (f x) -> P s' tt) -> wp (update t f) P s.
Proof.
  intros HS Hf HP. unfold update. apply wp_bind. eapply wp_the_term; [exact HS|]. apply HP. destruct HS as (_ & Hfb & b & Hb & Hg).
  split_and!; [apply lookup_insert_eq|by rewrite Hf|]. exists b. by rewrite Hf.
Qed.

Lemma wp_put_term s x x' P : St s x -> framebuffer x' = framebuffer x -> (forall s', St s' x' -> P s' tt) -> wp (put_term t x') P s.
Proof. intros (_ & Hfb & b & Hb & Hg) Hf HP. apply HP. split_and!; [apply lookup_insert_eq|by rewrite Hf|]. exists b. by rewrite Hf. Qed.

Lemma wp_draw_on s x f P : St s x -> safe f -> (forall s', St s' x -> P s' tt) -> wp (draw_on t f) P s.
Proof.
  intros HS Hf HP. unfold draw_on. apply wp_bind. eapply wp_the_term; [exact HS|]. destruct HS as (Hx & Hfb & b & Hb & Hg). destruct (Z.eqb_spec (framebuffer x) NULL); [done|].
  destruct (Hf b Hg) as (b' & E & Hg'). unfold wp, get, mbind, st_bind, lift. rewrite Hb. cbn [mbind option_bind]. rewrite E. cbn. apply HP.
  split_and!; [done|done|]. exists b'. split; [apply lookup_insert_eq|done].
Qed.

Lemma safe_shape f : (forall b, good b -> keeps b f) -> safe f.
Proof.
  intros H b Hg. destruct (H b Hg b (same_shape_refl b)) as (b' & E & S1). exists b'. split; [done|]. destruct Hg as (Hwf & Hw & Hh). destruct (same_shape_eq _ _ S1) as (Ew & Eh & _).
  split_and!; [by eapply same_shape_wf|lia..].
Qed.

Lemma safe_bind f g : safe f -> safe g -> safe (fun d => d ← f d; g d).
Proof. intros Hf Hg b Hb. destruct (Hf b Hb) as (b1 & E & H1). rewrite E. cbn. by apply Hg. Qed.

Lemma safe_rect x y w h c : small x -> small y -> w < 2 ^ 28 -> h < 2 ^ 28 -> safe (put_rect x y w h c).
Proof. intros. apply safe_shape. intros b [Hwf _]. eapply paints_keeps. by apply gfx_fill_rectangle_draws. Qed.

Lemma safe_glyph x y c color f : small x -> small y -> 0 <= c < 256 -> font_ok f -> safe (put_glyph x y c color f).
Proof. intros. apply safe_shape. intros b [Hwf _]. by apply gfx_draw_char_keeps. Qed.

Lemma safe_dirty : safe mark_dirty.
Proof. intros b Hg. eexists. split; [done|]. destruct Hg as ([] & ? & ?). split; [by constructor|done]. Qed.

Lemma safe_suppress v : safe (suppress v).
Proof. intros b Hg. eexists. split; [done|]. destruct Hg as ([] & ? & ?). split; [by constructor|done]. Qed.

Lemma safe_scroll up bg f : 0 <= up < 2 ^ 24 -> font_ok f -> up * gf_height f < 2 ^ 28 -> safe (scroll_pixels up bg f).
Proof.
  intros Hu (_ & _ & Hfh & _) Hs b ([Hbpp Hw Hh Hroom Hmem] & Hw28 & Hh28). unfold scroll_pixels. rewrite (wrap_size (up * gf_height f)) by nia.
  set (n := if gb_height b <? up * gf_height f then gb_height b else up * gf_height f).
  assert (0 <= n <= gb_height b) as Hn by (unfold n; destruct (Z.ltb_spec (gb_height b) (up * gf_height f)); nia).
  fold (px b) in *. assert (0 < px b) as Hpx by (unfold px; destruct Hbpp as [-> | ->]; done). assert (gb_height b = 0 \/ gb_width b * px b < 2 ^ 32) as Hp by nia.
  assert (forall m, 0 <= m <= gb_height b -> 0 < gb_height b -> wrap size_bits (m * wrap size_bits (gb_width b * px b)) = m * (gb_width b * px b)) as Hm.
  { intros m Hm Hpos. rewrite (wrap_size (gb_width b * px b)) by nia. apply wrap_size. nia. }
  assert (exists mem, (if 0 <? gb_height b - n
      then moved ← sub_bytes (gb_buffer b) (n *[size_bits] (gb_width b *[size_bits] px b)) ((gb_height b - n) *[size_bits] (gb_width b *[size_bits] px b)); put_bytes (gb_buffer b) 0 moved
      else Some (gb_buffer b)) = Some mem /\ zlen mem = zlen (gb_buffer b)) as (mem & -> & Hlen).
  { destruct (Z.ltb_spec 0 (gb_height b - n)); [|by exists (gb_buffer b)]. rewrite !Hm by lia. rewrite sub_bytes_ok by nia. cbn [mbind option_bind].
    assert (zlen (take (Z.to_nat ((gb_height b - n) * (gb_width b * px b))) (drop (Z.to_nat (n * (gb_width b * px b))) (gb_buffer b))) = (gb_height b - n) * (gb_width b * px b)) as Hz by (rewrite zlen_take, zlen_drop by nia; nia).
    destruct (put_some (gb_buffer b) (take (Z.to_nat ((gb_height b - n) * (gb_width b * px b))) (drop (Z.to_nat (n * (gb_width b * px b))) (gb_buffer b))) 0) as [mem E]; [lia|rewrite Hz; nia|].
    exists mem. split; [done|]. by eapply put_length. }
  cbn [mbind option_bind]. rewrite !sign_of_small by lia.
  destruct (safe_rect 0 (gb_height b - n) (gb_width b) n bg) with (b := set_pixels b mem (isDirty b)) as (b1 & E1 & Hg1); [unfold small; lia..| |].
  { split; [constructor; unfold px; cbn [gb_bpp gb_width gb_height gb_buffer set_pixels]; fold (px b); (done || lia)|done]. }
  rewrite E1. cbn [mbind option_bind]. by apply safe_dirty.
Qed.

(** ** The grid as rows *)

Definition chars_of (l : line) : list Z := l.1.1.
Definition fgs_of (l : line) : list Z := l.1.2.
Definition bgs_of (l : line) : list Z := l.2.

Definition grid_is (w h : Z) (g : Grid) (rows : list line) : Prop :=
  g = mkGrid (Some (concat (chars_of <$> rows))) (w * h) w h (Some (concat (fgs_of <$> rows))) (Some (concat (bgs_of <$> rows))) /\
  Forall (line_ok w) rows /\ Z.of_nat (length rows) = h /\ Forall (fun l => Forall is_byte l.1.1) rows.

Context (w h : Z) (Hw : 0 < w < 2 ^ 24) (Hh : 0 < h) (Hwh : w * h < 2 ^ 31).

Lemma rows_lengths rows : Forall (line_ok w) rows ->
  Forall (fun l => length l = Z.to_nat w) (chars_of <$> rows) /\ Forall (fun l => length l = Z.to_nat w) (fgs_of <$> rows) /\ Forall (fun l => length l = Z.to_nat w) (bgs_of <$> rows).
Proof.
  intros H. rewrite !Forall_fmap. split_and!; (eapply Forall_impl; [exact H|]); intros l (H1 & H2 & H3); unfold compose, chars_of, fgs_of, bgs_of, zlen in *; lia.
Qed.

Lemma zlen_rows (f : line -> list Z) rows : Forall (fun l => length l = Z.to_nat w) (f <$> rows) -> Z.of_nat (length rows) = h -> zlen (concat (f <$> rows)) = w * h.
Proof. intros H Hl. rewrite Forall_fmap in H. unfold zlen. rewrite (length_rows f (Z.to_nat w)) by done. lia. Qed.

Lemma row_at (f : line -> list Z) rows i l : Forall (fun l => length l = Z.to_nat w) (f <$> rows) -> Z.of_nat (length rows) = h -> 0 <= i < h -> rows !! Z.to_nat i = Some l ->
  sub_bytes (concat (f <$> rows)) (i * w) w = Some (f l).
Proof.
  intros H Hl Hi E. rewrite sub_bytes_ok by (rewrite ?(zlen_rows f rows H Hl); nia). f_equal. replace (Z.to_nat (i * w)) with (Z.to_nat i * Z.to_nat w)%nat by lia.
  apply concat_row; [done|]. by rewrite list_lookup_fmap, E.
Qed.

Lemma grid_row_is g rows fg bg i l : grid_is w h g rows -> 0 <= i < h -> rows !! Z.to_nat i = Some l -> grid_row g fg bg i = Some l.
Proof.
  intros (-> & Hr & Hl & _) Hi E. destruct (rows_lengths rows Hr) as (H1 & H2 & H3). unfold grid_row. cbn [buffer t_width cellFg cellBg mbind option_bind].
  rewrite (row_at _ _ _ _ H1 Hl Hi E). cbn [mbind option_bind]. rewrite (row_at _ _ _ _ H2 Hl Hi E). cbn [mbind option_bind]. rewrite (row_at _ _ _ _ H3 Hl Hi E). cbn. by destruct l as [[] ?].
Qed.

Lemma stored_byte c : 0 <= c < 256 -> 0 <= stored_char c < 256.
Proof. intros H. unfold stored_char, SPACE. destruct (_ && _ && _ && _); lia. Qed.

Lemma fmap_alter_cell (f : line -> list Z) (x y : nat) (c fg bg v : Z) (rows : list line) : (forall l, f (set_cell x c fg bg l) = <[x := v]> (f l)) ->
  f <$> alter (set_cell x c fg bg) y rows = alter (insert x v) y (f <$> rows).
Proof. intros H. revert y. induction rows as [|l rows IH]; intros [|y]; [done|done|cbn; by rewrite H|]. cbn. f_equal. apply IH. Qed.

Lemma put_cell_is g rows x y c fg bg : grid_is w h g rows -> 0 <= x < w -> 0 <= y < h -> 0 <= c < 256 ->
  exists g', put_cell g (y * w + x) c fg bg = Some g' /\ grid_is w h g' (alter (set_cell (Z.to_nat x) c fg bg) (Z.to_nat y) rows).
Proof.
  intros (-> & Hr & Hl & Hb) Hx Hy Hc. destruct (rows_lengths rows Hr) as (H1 & H2 & H3). unfold put_cell. cbn [buffer cellFg cellBg bufferCapacity t_width t_height mbind option_bind].
  rewrite !put_one by (rewrite ?zlen_rows by done; nia). cbn [mbind option_bind].
  eexists. split; [done|]. replace (Z.to_nat (y * w + x)) with (Z.to_nat y * Z.to_nat w + Z.to_nat x)%nat by nia. rewrite !concat_insert by (done || lia).
  split_and!.
  - by rewrite (fmap_alter_cell _ _ _ _ _ _ c), (fmap_alter_cell _ _ _ _ _ _ fg), (fmap_alter_cell _ _ _ _ _ _ bg).
  - apply Forall_alter; [done|]. intros l _ (? & ? & ?). unfold line_ok, set_cell, zlen in *. cbn. by rewrite !length_insert.
  - by rewrite length_alter.
  - apply Forall_alter; [done|]. intros l _ Hf. cbn. by apply Forall_insert.
Qed.

Lemma scroll_rows_is l v : zlen l = w * h -> scroll_rows l w h 1 v = Some (drop (Z.to_nat w) l ++ replicate (Z.to_nat w) v).
Proof.
  intros Hl. unfold scroll_rows. rewrite Z.mul_1_l, sub_bytes_ok by nia. cbn [mbind option_bind].
  rewrite (take_ge (drop _ l)) by (rewrite length_drop; unfold zlen in Hl; nia). set (m := drop (Z.to_nat w) l).
  assert (zlen m = (h - 1) * w) as Hm by (unfold m; rewrite zlen_drop by lia; nia).
  assert (put_bytes l 0 m = Some (m ++ drop (length m) l)) as ->.
  { unfold put_bytes. destruct (Z.leb_spec (0 + zlen m) (zlen l)); [|nia]. cbn [Z.leb Z.compare andb]. by replace (Z.to_nat (0 + zlen m)) with (length m) by (unfold zlen; lia). }
  cbn [mbind option_bind]. unfold put_bytes. assert (zlen (replicate (Z.to_nat w) v) = w) as Hr by (unfold zlen; rewrite length_replicate; lia). rewrite Hr.
  assert (zlen (m ++ drop (length m) l) = w * h) as Hz by (rewrite zlen_app; unfold zlen in *; rewrite length_drop; lia). rewrite Hz.
  destruct (Z.leb_spec 0 ((h - 1) * w)); [|nia]. destruct (Z.leb_spec ((h - 1) * w + w) (w * h)); [|nia]. cbn [andb]. f_equal.
  rewrite <- Hm, take_zlen. f_equal. rewrite (drop_ge (m ++ _)) by (unfold zlen in *; lia). apply app_nil_r.
Qed.

Lemma drop_rows (f : line -> list Z) r rows : length (f r) = Z.to_nat w -> drop (Z.to_nat w) (concat (f <$> r :: rows)) = concat (f <$> rows).
Proof. intros H. rewrite fmap_cons. cbn [concat]. by rewrite <- H, drop_app_length. Qed.

Lemma concat_snoc (f : line -> list Z) rows r : concat (f <$> rows ++ [r]) = concat (f <$> rows) ++ f r.
Proof. rewrite fmap_app, concat_app. cbn. by rewrite app_nil_r. Qed.

Lemma blank_ok fg bg : line_ok w (blank_row w fg bg).
Proof. unfold line_ok, blank_row, zlen. cbn. rewrite !length_replicate. lia. Qed.

Lemma scroll_grid_is g r rows fg bg : grid_is w h g (r :: rows) -> exists g', scroll_grid g 1 fg bg = Some g' /\ grid_is w h g' (rows ++ [blank_row w fg bg]).
Proof.
  intros (-> & Hr & Hl & Hb). destruct (rows_lengths _ Hr) as (H1 & H2 & H3). unfold scroll_grid. cbn [buffer cellFg cellBg bufferCapacity t_width t_height mbind option_bind].
  rewrite !scroll_rows_is by (by apply zlen_rows). cbn [mbind option_bind]. eexists. split; [done|].
  rewrite fmap_cons in H1, H2, H3. apply Forall_cons in H1 as [H1 _], H2 as [H2 _], H3 as [H3 _]. apply Forall_cons in Hr as [_ Hr]. apply Forall_cons in Hb as [_ Hb].
  split_and!.
  - by rewrite !concat_snoc, !drop_rows.
  - apply Forall_app; split; [done|]. constructor; [apply blank_ok|constructor].
  - rewrite length_app. cbn in *. lia.
  - apply Forall_app; split; [done|]. constructor; [|constructor]. cbn. apply Forall_replicate. unfold SPACE. lia.
Qed.

(** ** The terminal and the page *)

Context (fg bg : Z).

(** All but the cursor: [hist] are the rows that left the grid. *)
Record Core (x : GFXTerminal) (hist grid : list line) : Prop := {
  co_grid : grid_is w h (t_grid x) grid;
  co_ring : ring_ok w (t_scrollback x);
  co_hist : holds_lines w (t_scrollback x) (keep_last (Z.to_nat (scrollback_max_lines (t_scrollback x))) hist);
  co_font : font_ok (font x) /\ w * gf_width (font x) < 2 ^ 27 /\ h * gf_height (font x) < 2 ^ 27;
  co_fg : fgColor x = fg;
  co_bg : bgColor x = bg
}.

(** The cursor is on the grid. *)
Definition on_grid (x : GFXTerminal) : Prop := 0 <= cursorPos_x (t_cursor x) < w /\ 0 <= cursorPos_y (t_cursor x) < h.

Lemma wp_draw_cursor s x hist grid P : St s x -> Core x hist grid -> on_grid x -> (forall s', St s' x -> P s' tt) -> wp (__gfxterm_draw_cursor t false) P s.
Proof.
  intros HS Hc [Hx Hy] HP. unfold __gfxterm_draw_cursor. apply wp_bind. eapply wp_the_term; [exact HS|].
  destruct ((framebuffer x =? NULL) || (0 <? drawLineIndex x)); [by apply HP|]. pose proof (co_grid _ _ _ Hc) as Hg. pose proof Hg as (Eg & Hr & Hl & Hb).
  pose proof (co_font _ _ _ Hc) as (Hf & Hfw & Hfh). pose proof Hf as (_ & F1 & F2 & _). set (cx := cursorPos_x (t_cursor x)) in *. set (cy := cursorPos_y (t_cursor x)) in *.
  assert (w < 2 ^ 31 /\ h < 2 ^ 31) as [Hw31 Hh31] by nia. rewrite !wrap_size by lia.
  assert (t_width (t_grid x) = w /\ t_height (t_grid x) = h) as [-> ->] by (by rewrite Eg). destruct (Z.leb_spec w cx); [lia|]. destruct (Z.leb_spec h cy); [lia|]. cbn [orb]. cbv zeta.
  assert (0 <= cx * gf_width (font x) < 2 ^ 27 /\ 0 <= cy * gf_height (font x) < 2 ^ 27) as [Hpx Hpy] by nia.
  rewrite !sign_of_small by lia. rewrite !ckint_ok by (unfold int_range; lia). apply wp_bind, wp_lift, wp_bind, wp_lift, wp_bind.
  destruct (lookup_lt_is_Some_2 grid (Z.to_nat cy)) as [l El]; [lia|]. destruct (rows_lengths grid Hr) as (H1 & H2 & H3).
  assert (forall f : line -> list Z, Forall (fun l => length l = Z.to_nat w) (f <$> grid) -> exists v, concat (f <$> grid) !! Z.to_nat (cy * w + cx) = Some v /\ v ∈ f l) as Hcell.
  { intros f Hf'. pose proof (concat_row _ _ (Z.to_nat cy) (f l) Hf' ltac:(by rewrite list_lookup_fmap, El)) as Hrow.
    destruct (lookup_lt_is_Some_2 (f l) (Z.to_nat cx)) as [v Ev]; [rewrite Forall_fmap, Forall_lookup in Hf'; specialize (Hf' _ _ El); unfold compose in Hf'; lia|].
    exists v. split; [|by eapply list_elem_of_lookup_2]. rewrite <- Hrow in Ev. rewrite lookup_take_lt, lookup_drop in Ev by lia. by replace (Z.to_nat (cy * w + cx)) with (Z.to_nat cy * Z.to_nat w + Z.to_nat cx)%nat by nia. }
  destruct (Hcell chars_of H1) as (c & Ec & Hcl). destruct (Hcell fgs_of H2) as (f & Ef & _). destruct (Hcell bgs_of H3) as (k & Ek & _).
  rewrite Eg. cbn [cellBg cellFg buffer cell_color]. rewrite Ek, Ef. apply wp_bind, wp_lift, wp_bind, wp_lift, wp_bind. eapply wp_draw_on; [exact HS|apply safe_rect; unfold small; lia|]. intros s1 HS1.
  cbn [mbind option_bind]. rewrite Ec. apply wp_bind, wp_lift.
  assert (0 <= c < 256) by (rewrite Forall_lookup in Hb; specialize (Hb _ _ El); rewrite Forall_forall in Hb; by apply (Hb c)).
  destruct (c =? SPACE); [|eapply wp_draw_on; [exact HS1|apply safe_glyph; (unfold small; lia) || done|]; intros s2 HS2];
    eapply wp_draw_on; [eassumption|apply safe_dirty|done|eassumption|apply safe_dirty|done].
Qed.

Lemma core_view x hist grid i d : Core x hist grid -> Core (set_view x i d) hist grid.
Proof. by intros []. Qed.

Lemma core_cursor x hist grid c : Core x hist grid -> Core (set_cursor x c) hist grid.
Proof. by intros []. Qed.

Lemma core_grid x hist grid g grid' : Core x hist grid -> grid_is w h g grid' -> Core (set_grid x g) hist grid'.
Proof. intros [] ?. by constructor. Qed.

Lemma put_on_app hist grid px py c : 0 <= py -> put_on w fg bg (hist ++ grid) px (Z.of_nat (length hist) + py) c = hist ++ put_on w fg bg grid px py c.
Proof.
  intros Hy. unfold put_on. destruct (px <? w); [|done]. replace (Z.to_nat (Z.of_nat (length hist) + py)) with (length hist + Z.to_nat py)%nat by lia. apply alter_app_r.
Qed.

Lemma wp_set_char s x hist grid px py c P : St s x -> Core x hist grid -> 0 <= px < 2 ^ 31 -> 0 <= py < h -> 0 <= c < 256 ->
  (forall s' x', St s' x' -> Core x' hist (put_on w fg bg grid px py c) -> t_cursor x' = t_cursor x -> P s' tt) -> wp (gfxterm_setChar t px py c) P s.
Proof.
  intros HS Hc Hpx Hpy Hch HP. unfold gfxterm_setChar. apply wp_bind. eapply wp_the_term; [exact HS|]. pose proof (co_grid _ _ _ Hc) as Hg. pose proof Hg as (Eg & _).
  assert (t_width (t_grid x) = w /\ t_height (t_grid x) = h /\ bufferCapacity (t_grid x) = w * h) as (-> & -> & ->) by (by rewrite Eg). unfold put_on in HP.
  destruct (Z.leb_spec w px) as [Hout|Hin]; [destruct (Z.ltb_spec px w); [lia|]; by eapply HP|]. destruct (Z.ltb_spec px w); [|lia]. destruct (Z.leb_spec h py); [lia|]. cbn [orb].
  rewrite wrap_size by nia. destruct (Z.leb_spec (w * h) (py * w + px)); [nia|]. pose proof (co_font _ _ _ Hc) as (Hf & Hfw & Hfh). pose proof Hf as (_ & F1 & F2 & _).
  rewrite (co_fg _ _ _ Hc), (co_bg _ _ _ Hc). destruct (put_cell_is _ _ px py (stored_char c) fg bg Hg) as (g' & Ep & Hg'); [lia|lia|by apply stored_byte|].
  rewrite Ep. apply wp_bind, wp_lift, wp_bind. eapply wp_put_term; [exact HS|done|]. intros s1 HS1. pose proof (core_grid _ _ _ _ _ Hc Hg') as Hc1.
  destruct (0 <? drawLineIndex x).
  { eapply wp_put_term; [exact HS1|done|]. intros s2 HS2. eapply HP; [exact HS2|by apply core_view|done]. }
  assert (0 <= px * gf_width (font x) < 2 ^ 27 /\ 0 <= py * gf_height (font x) < 2 ^ 27) as [Hx Hy] by nia.
  rewrite !wrap_size by lia. rewrite !sign_of_small by lia. apply wp_bind. eapply wp_draw_on; [exact HS1|apply safe_rect; unfold small; lia|]. intros s2 HS2.
  apply wp_bind. eapply wp_draw_on; [exact HS2|apply safe_glyph; [unfold small; lia..|by apply stored_byte|done]|]. intros s3 HS3.
  eapply wp_draw_on; [exact HS3|apply safe_dirty|]. intros s4 HS4. by eapply HP.
Qed.

Lemma wp_put_spaces n : forall s x hist grid px py (P : Terminals -> Z -> Prop), St s x -> Core x hist grid -> 0 <= px -> px + Z.of_nat n < 2 ^ 31 -> 0 <= py < h ->
  (forall s' x', St s' x' -> Core x' hist (spaces_on w fg bg n grid px py) -> t_cursor x' = t_cursor x -> P s' (px + Z.of_nat n)) -> wp (put_spaces n t px py) P s.
Proof.
  assert (h < 2 ^ 31) as Hh31 by nia. induction n as [|n IH]; intros s x hist grid px py P HS Hc Hpx Hn Hpy HP; cbn [put_spaces spaces_on].
  - apply wp_ret. rewrite Z.add_0_r in HP. by eapply HP.
  - apply wp_bind. rewrite !wrap_size by lia. eapply wp_set_char; [exact HS|exact Hc|lia|lia|unfold SPACE; lia|]. intros s1 x1 HS1 Hc1 Ec1.
    rewrite ckint_ok by (unfold int_range; lia). apply wp_bind, wp_lift. eapply IH; [exact HS1|exact Hc1|lia|lia|lia|]. intros s2 x2 HS2 Hc2 Ec2.
    replace (px + 1 + Z.of_nat n) with (px + Z.of_nat (S n)) by lia. eapply HP; [exact HS2|exact Hc2|congruence].
Qed.

Lemma wp_hide s x hist grid (b : bool) (hide : GFXTerminal -> Cursor) P : St s x -> Core x hist grid -> on_grid x ->
  (forall c, cursorPos_x (hide (set_cursor x c)) = cursorPos_x c /\ cursorPos_y (hide (set_cursor x c)) = cursorPos_y c) ->
  (forall s' x', St s' x' -> Core x' hist grid -> on_grid x' -> cursorPos_x (t_cursor x') = cursorPos_x (t_cursor x) -> cursorPos_y (t_cursor x') = cursorPos_y (t_cursor x) -> P s' tt) ->
  wp (if b then __gfxterm_draw_cursor t false ≫= fun _ => update t (fun x => set_cursor x (hide x)) else mret tt) P s.
Proof.
  intros HS Hc Hon Hh' HP. destruct b; [|by eapply HP]. apply wp_bind. eapply wp_draw_cursor; [exact HS|exact Hc|done|]. intros s1 HS1.
  eapply wp_update; [exact HS1|done|]. intros s2 HS2. destruct (Hh' (t_cursor x)) as [E1 E2]. assert (set_cursor x (t_cursor x) = x) as Ex by (by destruct x). rewrite Ex in E1, E2.
  eapply HP; [exact HS2|by apply core_cursor| |cbn; congruence..]. unfold on_grid. cbn. by rewrite E1, E2.
Qed.

Lemma wp_push_top s x hist r grid P : St s x -> Core x hist (r :: grid) ->
  (forall s' sb, St s' (set_scrollback x sb) -> ring_ok w sb -> scrollback_max_lines sb = scrollback_max_lines (t_scrollback x) ->
     holds_lines w sb (keep_last (Z.to_nat (scrollback_max_lines sb)) (hist ++ [r])) -> P s' tt) ->
  wp (__scrollback_push_top_rows always junk t 1) P s.
Proof.
  intros HS Hc HP. unfold __scrollback_push_top_rows. apply wp_bind. eapply wp_the_term; [exact HS|]. pose proof (co_grid _ _ _ Hc) as Hg. pose proof Hg as (Eg & Hr & _).
  assert (t_width (t_grid x) = w /\ t_height (t_grid x) = h) as (-> & ->) by (by rewrite Eg). destruct (Z.eqb_spec w 0); [lia|]. destruct (Z.eqb_spec h 0); [lia|]. cbn [Z.eqb orb].
  rewrite Z.min_l by lia. change (seqZ 0 1) with [0]. rewrite list_fmap_singleton, (grid_row_is _ _ _ _ 0 r Hg) by (done || lia). apply wp_bind. cbn [push_rows].
  apply Forall_cons in Hr as [Hr _]. destruct (push_line_spec w Hw junk _ _ r s (co_ring _ _ _ Hc) (co_hist _ _ _ Hc) Hr) as (sb & k & E & Hok & Hm & Hl).
  apply wp_bind. unfold wp at 1. rewrite E. apply wp_ret. rewrite keep_last_app in Hl. rewrite <- Hm in Hl. destruct HS as (H1 & H2 & H3).
  eapply (wp_update (at_time s k) x); [done|done|]. intros s' HS'. by eapply HP.
Qed.

Lemma wp_scroll_content s x hist r grid P : St s x -> Core x hist (r :: grid) -> on_grid x ->
  (forall s' x', St s' x' -> Core x' (hist ++ [r]) (grid ++ [blank_row w fg bg]) -> on_grid x' -> P s' tt) -> wp (__gfxterm_scroll_content always junk t 1) P s.
Proof.
  intros HS Hc Hon HP. unfold __gfxterm_scroll_content. apply wp_bind. eapply wp_the_term; [exact HS|]. pose proof (co_grid _ _ _ Hc) as (Eg & _).
  assert (t_width (t_grid x) = w /\ t_height (t_grid x) = h /\ bool_decide (buffer (t_grid x) = None) = false) as (-> & -> & ->) by (by rewrite Eg).
  destruct (Z.eqb_spec w 0); [lia|]. destruct (Z.eqb_spec h 0); [lia|]. cbn [Z.eqb orb]. apply wp_bind. eapply wp_hide; [exact HS|exact Hc|done|done|]. intros s1 x1 HS1 Hc1 Hon1 _ _.
  rewrite Z.min_l by lia. apply wp_bind. eapply wp_push_top; [exact HS1|exact Hc1|]. intros s2 sb HS2 Hok Hm Hl. apply wp_bind. eapply wp_the_term; [exact HS2|].
  pose proof (co_fg _ _ _ Hc1) as Ef. pose proof (co_bg _ _ _ Hc1) as Eb. change (fgColor (set_scrollback x1 sb)) with (fgColor x1). change (bgColor (set_scrollback x1 sb)) with (bgColor x1). rewrite Ef, Eb.
  destruct (scroll_grid_is _ _ _ fg bg (co_grid _ _ _ Hc1)) as (g' & Es & Hg'). change (t_grid (set_scrollback x1 sb)) with (t_grid x1). rewrite Es. apply wp_bind, wp_lift, wp_bind.
  eapply wp_put_term; [exact HS2|done|]. intros s3 HS3.
  assert (Core (set_grid (set_scrollback x1 sb) g') (hist ++ [r]) (grid ++ [blank_row w fg bg])) as Hc3 by (destruct Hc1; by constructor).
  pose proof (co_font _ _ _ Hc1) as (Hf & _ & Hfh). pose proof Hf as (_ & _ & F2 & _).
  destruct (negb _ && _).
  - change (font (set_scrollback x1 sb)) with (font x1). eapply wp_draw_on; [exact HS3|apply safe_scroll; [lia|done|nia]|]. intros s4 HS4. by eapply HP.
  - eapply wp_update; [exact HS3|done|]. intros s4 HS4. eapply HP; [exact HS4|by apply core_view|done].
Qed.

Lemma spaces_on_app n hist grid px py : 0 <= py -> spaces_on w fg bg n (hist ++ grid) px (Z.of_nat (length hist) + py) = hist ++ spaces_on w fg bg n grid px py.
Proof. revert grid px. induction n as [|n IH]; intros grid px Hy; [done|]. cbn [spaces_on]. rewrite put_on_app by done. by apply IH. Qed.

Lemma core_height x hist grid : Core x hist grid -> Z.of_nat (length grid) = h.
Proof. intros []. by destruct co_grid0 as (_ & _ & ? & _). Qed.

(** One character at the cursor, before wrapping *)
Lemma wp_put_at s x hist grid c P : St s x -> Core x hist grid -> on_grid x -> 0 <= c < 256 ->
  (forall s' x' grid' cx cy, St s' x' -> Core x' hist grid' -> t_cursor x' = t_cursor x -> 0 <= cx <= w + 4 -> 0 <= cy <= h -> (w <= cx -> cy < h) ->
     typed w h fg bg (mkPage (hist ++ grid) (cursorPos_x (t_cursor x)) (Z.of_nat (length hist) + cursorPos_y (t_cursor x))) c = mkPage (hist ++ grid') cx (Z.of_nat (length hist) + cy) ->
     P s' (cx, cy)) ->
  wp (put_at t c (cursorPos_x (t_cursor x)) (cursorPos_y (t_cursor x)) w) P s.
Proof.
  intros HS Hc [Hx Hy] Hch HP. set (cx := cursorPos_x (t_cursor x)) in *. set (cy := cursorPos_y (t_cursor x)) in *. pose proof (core_height _ _ _ Hc) as Hlen.
  assert (h < 2 ^ 31) as Hh31 by nia. unfold put_at. cbn [typed] in HP. destruct (c =? 10).
  { rewrite ckint_ok by (unfold int_range; lia). apply wp_bind, wp_lift, wp_ret. eapply HP; [exact HS|exact Hc|done|lia..|]. f_equal. lia. }
  destruct (c =? 13); [apply wp_ret; eapply HP; [exact HS|exact Hc|done|lia..|done]|]. destruct (c =? 9).
  { rewrite Z.max_l by lia. pose proof (Z.mod_pos_bound cx 4 ltac:(lia)). apply wp_bind. eapply wp_put_spaces; [exact HS|exact Hc|lia|lia|lia|]. intros s1 x1 HS1 Hc1 Ec1. apply wp_ret.
    rewrite Z2Nat.id by lia. eapply HP; [exact HS1|exact Hc1|done|lia|lia|lia|]. by rewrite spaces_on_app by lia. }
  destruct (c =? 8).
  - rewrite length_app, Nat2Z.inj_add, Hlen in HP. rewrite sign_of_small by lia. apply wp_bind.
    assert (exists cx' cy', (if 0 <? cx then mret (cx - 1, cy) else if 0 <? cy then lift (ckint (w - 1)) ≫= (fun last => mret (last, cy - 1)) else mret (cx, cy)) s = Some (s, (cx', cy')) /\
      0 <= cx' < w /\ 0 <= cy' < h /\ (if 0 <? cx then (cx - 1, Z.of_nat (length hist) + cy) else if Z.of_nat (length hist) + h - h <? Z.of_nat (length hist) + cy then (w - 1, Z.of_nat (length hist) + cy - 1) else (cx, Z.of_nat (length hist) + cy))
        = (cx', Z.of_nat (length hist) + cy')) as (cx' & cy' & E & Hx' & Hy' & Ep).
    { rewrite ckint_ok by (unfold int_range; lia). destruct (Z.ltb_spec 0 cx); [eexists _, _; split_and!; [done|lia..|done]|].
      destruct (Z.ltb_spec 0 cy), (Z.ltb_spec (Z.of_nat (length hist) + h - h) (Z.of_nat (length hist) + cy)); try lia; eexists _, _; (split_and!; [done|lia..|f_equal; lia]). }
    unfold wp at 1. rewrite E. rewrite !Z.max_l by lia. rewrite !wrap_size by lia. apply wp_bind. eapply wp_set_char; [exact HS|exact Hc|lia|lia|unfold SPACE; lia|]. intros s1 x1 HS1 Hc1 Ec1. apply wp_ret.
    rewrite Ep in HP. eapply HP; [exact HS1|exact Hc1|done|lia..|]. by rewrite put_on_app by lia.
  - apply wp_bind. rewrite !wrap_size by lia. eapply wp_set_char; [exact HS|exact Hc|lia|lia|done|]. intros s1 x1 HS1 Hc1 Ec1.
    rewrite ckint_ok by (unfold int_range; lia). apply wp_bind, wp_lift, wp_ret. eapply HP; [exact HS1|exact Hc1|done|lia..|]. by rewrite put_on_app by lia.
Qed.

(** The terminal shows the page: the grid its last rows with the cursor at the
    place on it, the scrollback the rows before as far as it reaches. *)
Definition Shows (x : GFXTerminal) (p : page) : Prop :=
  exists hist grid, p_rows p = hist ++ grid /\ Core x hist grid /\ on_grid x /\ p_x p = cursorPos_x (t_cursor x) /\ p_y p = Z.of_nat (length hist) + cursorPos_y (t_cursor x).

Lemma wp_place s x hist grid cx cy tick p P : St s x -> Core x hist grid -> on_grid x -> 0 <= cx < w -> 0 <= cy < h -> p = mkPage (hist ++ grid) cx (Z.of_nat (length hist) + cy) ->
  (forall s' x', St s' x' -> Shows x' p -> P s' tt) ->
  wp (update t (fun x => set_cursor x (moved_cursor (t_cursor x) (cursorPos_x (t_cursor x)) (cursorPos_y (t_cursor x)) tick)) ≫= fun _ =>
      __gfxterm_draw_cursor t false ≫= fun _ => update t (fun x => set_cursor x (moved_cursor (t_cursor x) cx cy tick))) P s.
Proof.
  intros HS Hc Hon Hx Hy -> HP. apply wp_bind. eapply wp_update; [exact HS|done|]. intros s1 HS1. apply wp_bind.
  eapply wp_draw_cursor; [exact HS1|by apply core_cursor, Hc|done|]. intros s2 HS2. eapply wp_update; [exact HS2|done|]. intros s3 HS3. eapply HP; [exact HS3|].
  exists hist, grid. split_and!; [done|by apply core_cursor, core_cursor|done|done|done].
Qed.

Lemma wp_put_char_body s x p c P : St s x -> Shows x p -> 0 <= c < 256 -> (forall s' x', St s' x' -> Shows x' (type_char w h fg bg p c) -> P s' tt) -> wp (put_char_body always junk t c) P s.
Proof.
  intros HS (hist & grid & Ep & Hc & Hon & Ex & Ey) Hch HP. assert (w < 2 ^ 31 /\ h < 2 ^ 31) as [Hw31 Hh31] by nia. unfold put_char_body. apply wp_bind. eapply wp_the_term; [exact HS|].
  apply wp_bind. unfold wp at 1, get at 1. pose proof (co_grid _ _ _ Hc) as (Eg & _). assert (t_width (t_grid x) = w /\ t_height (t_grid x) = h) as (-> & ->) by (by rewrite Eg).
  apply wp_bind. eapply wp_hide; [exact HS|exact Hc|done|done|]. intros s1 x1 HS1 Hc1 Hon1 Ex1 Ey1. rewrite <- Ex1, <- Ey1 in *. apply wp_bind. eapply wp_put_at; [exact HS1|exact Hc1|done|done|].
  intros s2 x2 grid2 cx cy HS2 Hc2 Ec2 Hcx Hcy Hwr Et. assert (on_grid x2) as Hon2 by (unfold on_grid; by rewrite Ec2). assert (typed w h fg bg p c = mkPage (hist ++ grid2) cx (Z.of_nat (length hist) + cy)) as Et' by (rewrite <- Et; destruct p; cbn in *; by subst).
  unfold type_char in HP. rewrite Et' in HP. unfold wrapped in HP. cbn [p_x p_y p_rows] in HP. rewrite wrap_size by lia. apply wp_bind.
  assert (exists cx' cy', (if w <=? cx then lift (ckint (cy + 1)) ≫= (fun cury => mret (0, cury)) else mret (cx, cy)) s2 = Some (s2, (cx', cy')) /\ 0 <= cx' < w /\ 0 <= cy' <= h /\
    (if w <=? cx then mkPage (hist ++ grid2) 0 (Z.of_nat (length hist) + cy + 1) else mkPage (hist ++ grid2) cx (Z.of_nat (length hist) + cy)) = mkPage (hist ++ grid2) cx' (Z.of_nat (length hist) + cy')) as (cx' & cy' & E & Hx' & Hy' & Ew).
  { destruct (Z.leb_spec w cx); [rewrite ckint_ok by (unfold int_range; lia)|]; eexists _, _; (split_and!; [done|lia..|f_equal; lia]). }
  unfold wp at 1. rewrite E. rewrite Ew in HP. unfold extended in HP. cbn [p_x p_y p_rows] in HP. rewrite length_app, Nat2Z.inj_add, (core_height _ _ _ Hc2) in HP. rewrite wrap_size by lia. apply wp_bind.
  destruct (Z.leb_spec h cy') as [Hbot|Hin].
  - destruct (Z.leb_spec (Z.of_nat (length hist) + h) (Z.of_nat (length hist) + cy')); [|lia]. apply wp_bind. destruct grid2 as [|r grid2]; [pose proof (core_height _ _ _ Hc2); cbn in *; lia|].
    eapply wp_scroll_content; [exact HS2|exact Hc2|done|]. intros s3 x3 HS3 Hc3 Hon3. rewrite sign_of_small, ckint_ok by (unfold int_range; lia). apply wp_lift.
    eapply wp_place; [exact HS3|exact Hc3|done|lia|lia| |exact HP]. f_equal; [by rewrite <- !app_assoc|]. rewrite length_app. cbn. lia.
  - destruct (Z.leb_spec (Z.of_nat (length hist) + h) (Z.of_nat (length hist) + cy')); [lia|]. apply wp_ret. eapply wp_place; [exact HS2|exact Hc2|done|lia|lia|reflexivity|exact HP].
Qed.

Lemma wp_get_suppress s x P : St s x -> (forall v, P s v) -> wp (get_suppress t) P s.
Proof.
  intros HS HP. unfold get_suppress. apply wp_bind. eapply wp_the_term; [exact HS|]. destruct HS as (_ & Hfb & b & Hb & _). destruct (Z.eqb_spec (framebuffer x) NULL); [done|].
  unfold wp, get, mbind, st_bind, lift. rewrite Hb. apply HP.
Qed.

(** What holds after the body under every flag holds after the whole. *)
Lemma wp_suppressed s x p body (P : Terminals -> unit -> Prop) : St s x ->
  (forall s1, St s1 x -> wp body (fun s2 _ => exists x2, St s2 x2 /\ Shows x2 p) s1) -> (forall s' x', St s' x' -> Shows x' p -> P s' tt) -> wp (suppressed t body) P s.
Proof.
  intros HS Hbody HP. unfold suppressed. apply wp_bind. eapply wp_get_suppress; [exact HS|]. intros v. apply wp_bind. eapply wp_draw_on; [exact HS|apply safe_suppress|]. intros s1 HS1.
  apply wp_bind. eapply wp_mono; [by apply Hbody|]. intros s2 _ (x2 & HS2 & Hp). eapply wp_draw_on; [exact HS2|apply safe_suppress|]. intros s3 HS3. by eapply HP.
Qed.

Lemma wp_put_char s x p c P : t <> NULL -> St s x -> Shows x p -> 0 <= c < 256 -> (forall s' x', St s' x' -> Shows x' (type_char w h fg bg p c) -> P s' tt) -> wp (gfxterm_putChar always junk t c) P s.
Proof.
  intros Ht HS Hp Hc HP. unfold gfxterm_putChar. destruct (Z.eqb_spec t NULL); [done|]. eapply wp_suppressed; [exact HS| |exact HP]. intros s1 HS1.
  eapply wp_put_char_body; [exact HS1|exact Hp|done|]. intros s2 x2 HS2 H2. by exists x2.
Qed.

Lemma wp_put_chars str : forall s x p P, t <> NULL -> St s x -> Shows x p -> Forall is_byte str -> (forall s' x', St s' x' -> Shows x' (foldl (type_char w h fg bg) p str) -> P s' tt) ->
  wp (put_chars always junk t str) P s.
Proof.
  induction str as [|c str IH]; intros s x p P Ht HS Hp Hb HP; cbn [put_chars foldl] in *; [apply wp_ret; by eapply HP|].
  apply Forall_cons in Hb as [Hc Hb]. apply wp_bind. eapply wp_put_char; [done|exact HS|exact Hp|exact Hc|]. intros s1 x1 HS1 H1. by eapply IH.
Qed.

(** Line [i] of all that can be viewed is the row of the page as far from its end. *)
Lemma view_shows x p i : Shows x p -> let n := scrollback_count (t_scrollback x) in 0 <= i < n + h ->
  view_line x 0 i = p_rows p !! Z.to_nat (Z.of_nat (length (p_rows p)) - h - n + i).
Proof.
  intros (hist & grid & -> & [Hg Hr [Hlen Hl] _ _ _] & _) n Hi. pose proof Hg as (Eg & _ & Hgl & _). assert (h < 2 ^ 31) by nia. pose proof (rk_max _ _ Hr) as (k & Hk & Hk0 & Hm). pose proof (rk_cap _ _ Hr).
  pose proof (rk_count _ _ Hr). unfold view_line. rewrite Eg at 1. cbn [t_width]. rewrite (wrap_size (0 + i)), capacity_lines by lia. rewrite Z.add_0_l, length_app. fold n in Hlen |- *.
  rewrite keep_last_length in Hlen. destruct (Z.ltb_spec i n) as [Hin|Hout]; cbn [andb].
  - destruct (Z.eqb_spec (cap (t_scrollback x)) 0); [lia|]. cbn [negb]. rewrite wrap_size by (destruct (rk_start _ _ Hr); lia).
    specialize (Hl (Z.to_nat i)). rewrite Z2Nat.id in Hl by lia. rewrite Hl by (rewrite keep_last_length; lia). unfold keep_last. rewrite lookup_drop, lookup_app_l by lia. f_equal. lia.
  - rewrite wrap_size by lia. destruct (lookup_lt_is_Some_2 grid (Z.to_nat (i - n))) as [l E]; [lia|]. rewrite (grid_row_is _ grid _ _ _ l) by (done || lia).
    rewrite lookup_app_r by lia. rewrite <- E. f_equal. lia.
Qed.


End Runs.

(** ** A terminal of two rows of four cells *)

Module Typed.

#[local] Instance amd64 : Arch := AMD64.

Definition dot_font : gfx_font := mkFont 1 1 (zeros 128) GFX_FONT_BITMAP.
Definition blank_grid : Grid := mkGrid (Some (replicate 8 SPACE)) 8 4 2 (Some (replicate 8 7)) (Some (replicate 8 0)).
Definition term42 : GFXTerminal :=
  mkTerm blank_grid (__scrollback_init 4096) (mkCursor 0 0 true false 2 0 7) 16 0 7 0 dot_font false false.
Definition desk : Terminals :=
  mkTerminals (mkGfx ∅ (Some (mkList NULL NULL 0)) false {[16 := mkBuf 4 2 (zeros 32) 32 0 true false (0, 0)]} 0 0) {[1 := term42]} (Some [1]) 0 0.
Definition blank_page : page := mkPage [blank_row 4 7 0; blank_row 4 7 0] 0 0.
Definition no_junk (k : nat) (n : Z) : list Z := [].

Lemma desk_st : St 1 desk term42.
Proof. split_and!; [done|done|]. eexists. split; [done|]. split_and!; [|done|done]. constructor; [by left|vm_compute; done..| |]; vm_compute; (done || discriminate). Qed.

Lemma desk_shows : Shows 4 2 7 0 term42 blank_page.
Proof.
  exists [], [blank_row 4 7 0; blank_row 4 7 0]. split_and!; [done| |done|done|done]. constructor; try done.
  - split_and!; [done|repeat constructor|done|]. repeat constructor; unfold SPACE; lia.
  - constructor; cbn; [done|exists 32; lia|done|done|by left].
Qed.

(** a, b, a new line, a tab, c, a backspace and d *)
Definition text : bytes := [97; 98; 10; 9; 99; 8; 100].


End Typed.

(** What the code does beside what its comments say *)

Module Observed.
Import Typed.
#[local] Existing Instance amd64.

Definition one_cell (c : Z) : option line := Some ([c], [7], [0]).

(** The newest line of a scrollback of one column *)
Definition newest (sb : Scrollback) : option bytes :=
  chars_of <$> sb_get_line 1 sb ((scrollback_start sb + scrollback_count sb - 1) mod __sb_capacity_lines sb).

(** With a limit that is not a multiple of 128 the line that replaces the
    oldest is stored before the others instead of after them, and the newest
    line that is shown was never written. *)
Example limit_loses_newest : (r ← push_rows always no_junk 1 (one_cell <$> replicate 100 65 ++ [66]) (__scrollback_init 100) desk; newest r.2) = Some [0].
Proof. vm_compute. reflexivity. Qed.

Example limit_of_whole_blocks : (r ← push_rows always no_junk 1 (one_cell <$> replicate 128 65 ++ [66]) (__scrollback_init 128) desk; newest r.2) = Some [66].
Proof. vm_compute. reflexivity. Qed.

(** Without a limit after a limit the next block is put where the ring has
    turned: the newest line is then stored among the older ones. *)
Definition turned : option Scrollback :=
  r ← push_rows always no_junk 1 (one_cell <$> replicate 128 65 ++ [66]) (__scrollback_init 128) desk;
  let sb := mkScrollback 0 (scrollback_count r.2) (scrollback_start r.2) (sb_blocks r.2) (sb_blocks_capacity r.2) in
  r ← push_rows always no_junk 1 [one_cell 67] sb desk;
  Some r.2.

Example turned_order : (sb ← turned; chars_of <$> sb_get_line 1 sb ((scrollback_start sb + 127) mod __sb_capacity_lines sb)) = Some [0] /\
  (sb ← turned; newest sb) = Some [67].
Proof. vm_compute. done. Qed.

(** Resizing, on a screen of 8 by 8 pixels *)
Definition resized (w h : Z) (s : Terminals) : option Terminals :=
  fst <$> gfxterm_resize always no_junk (fun _ _ => 64) (fun _ _ => 32) 8 8 1 w h s.

Definition write_on (str : bytes) (s : Terminals) : option Terminals := fst <$> gfxterm_write always no_junk 1 (Some str) s.

Definition cells (s : Terminals) : option (option bytes) := (fun x => buffer (t_grid x)) <$> ts_terms s !! 1.
Definition place (s : Terminals) : option (Z * Z) := (fun x => (cursorPos_x (t_cursor x), cursorPos_y (t_cursor x))) <$> ts_terms s !! 1.

(** The text moves to the bottom of a larger grid and the cursor stays where
    it was, above it. *)
Example grown : (s ← write_on [97; 98] desk; s ← resized 4 4 s; Some (cells s, place s)) =
  Some (Some (Some ([32; 32; 32; 32; 32; 32; 32; 32; 97; 98; 32; 32; 32; 32; 32; 32])), Some (2, 0)).
Proof. vm_compute. reflexivity. Qed.

(** A smaller grid leaves the cursor outside, where the next character is lost. *)
Example shrunk : (s ← write_on [97; 98; 99] desk; s ← resized 2 2 s; s ← write_on [100; 101] s; Some (cells s, place s)) =
  Some (Some (Some ([32; 32; 101; 32])), Some (1, 1)).
Proof. vm_compute. reflexivity. Qed.

End Observed.
