(* ===== verification/Multiboot2.v ===== *)
(** * Boot information ([kernel/boot/multiboot2.c])

    The boot loader leaves a list of tags in memory, each with a type, a size
    and padding to eight bytes, and passes its address.  The kernel keeps a
    pointer to the first tag of every type.  The bytes of the information start
    at the address [mb2_tagptr]; an access outside of them is [None].  Log
    messages are left out. *)

From S2P Require Import Prelude Bytes.

Definition MULTIBOOT_TAG_TYPE_END : Z := 0.

Record Mb2 := mkMb2 {
  mb2_cmdline : Z;
  mb2_bootloader_name : Z;
  mb2_module : Z;
  mb2_basic_meminfo : Z;
  mb2_bootdev : Z;
  mb2_mmap : Z;
  mb2_vbe : Z;
  mb2_framebuffer : Z;
  mb2_elf_sections : Z;
  mb2_apm : Z;
  mb2_efi32 : Z;
  mb2_efi64 : Z;
  mb2_smbios : Z;
  mb2_acpi_old : Z;
  mb2_acpi_new : Z;
  mb2_network : Z;
  mb2_efi_mmap : Z;
  mb2_efi32_ih : Z;
  mb2_efi64_ih : Z;
  mb2_load_base_addr : Z
}.

Definition no_tags : Mb2 := mkMb2 0 0 0 0 0 0 0 0 0 0 0 0 0 0 0 0 0 0 0 0.

(** The message in text mode, as characters and attributes from 0xB8000 on, the
    flag of an EFI start and the two EFI pointers *)
Record Boot := mkBoot { boot_tags : Mb2; boot_message : option bytes; mb2_is_efi_boot : bool; efi_image_handle : Z; efi_system_table : Z }.

Definition boot0 : Boot := mkBoot no_tags None false NULL NULL.

(** Assignment of [tag] if the pointer was not assigned before *)
Definition first (old tag : Z) : Z := if old =? NULL then tag else old.

(** The switch over the type of a tag; EFI boot services and unknown types are skipped. *)
Definition handle_tag (m : Mb2) (type tag : Z) : Mb2 :=
  let '(mkMb2 cmd name modu mem dev mmap vbe fb elf apm e32 e64 smb old new net emap i32 i64 load) := m in
  match type with
  | 1 => mkMb2 (first cmd tag) name modu mem dev mmap vbe fb elf apm e32 e64 smb old new net emap i32 i64 load
  | 2 => mkMb2 cmd (first name tag) modu mem dev mmap vbe fb elf apm e32 e64 smb old new net emap i32 i64 load
  | 3 => mkMb2 cmd name (first modu tag) mem dev mmap vbe fb elf apm e32 e64 smb old new net emap i32 i64 load
  | 4 => mkMb2 cmd name modu (first mem tag) dev mmap vbe fb elf apm e32 e64 smb old new net emap i32 i64 load
  | 5 => mkMb2 cmd name modu mem (first dev tag) mmap vbe fb elf apm e32 e64 smb old new net emap i32 i64 load
  | 6 => mkMb2 cmd name modu mem dev (first mmap tag) vbe fb elf apm e32 e64 smb old new net emap i32 i64 load
  | 7 => mkMb2 cmd name modu mem dev mmap (first vbe tag) fb elf apm e32 e64 smb old new net emap i32 i64 load
  | 8 => mkMb2 cmd name modu mem dev mmap vbe (first fb tag) elf apm e32 e64 smb old new net emap i32 i64 load
  | 9 => mkMb2 cmd name modu mem dev mmap vbe fb (first elf tag) apm e32 e64 smb old new net emap i32 i64 load
  | 10 => mkMb2 cmd name modu mem dev mmap vbe fb elf (first apm tag) e32 e64 smb old new net emap i32 i64 load
  | 11 => mkMb2 cmd name modu mem dev mmap vbe fb elf apm (first e32 tag) e64 smb old new net emap i32 i64 load
  | 12 => mkMb2 cmd name modu mem dev mmap vbe fb elf apm e32 (first e64 tag) smb old new net emap i32 i64 load
  | 13 => mkMb2 cmd name modu mem dev mmap vbe fb elf apm e32 e64 (first smb tag) old new net emap i32 i64 load
  | 14 => mkMb2 cmd name modu mem dev mmap vbe fb elf apm e32 e64 smb (first old tag) new net emap i32 i64 load
  | 15 => mkMb2 cmd name modu mem dev mmap vbe fb elf apm e32 e64 smb old (first new tag) net emap i32 i64 load
  | 16 => mkMb2 cmd name modu mem dev mmap vbe fb elf apm e32 e64 smb old new (first net tag) emap i32 i64 load
  | 17 => mkMb2 cmd name modu mem dev mmap vbe fb elf apm e32 e64 smb old new net (first emap tag) i32 i64 load
  | 19 => mkMb2 cmd name modu mem dev mmap vbe fb elf apm e32 e64 smb old new net emap (first i32 tag) i64 load
  | 20 => mkMb2 cmd name modu mem dev mmap vbe fb elf apm e32 e64 smb old new net emap i32 (first i64 tag) load
  | 21 => mkMb2 cmd name modu mem dev mmap vbe fb elf apm e32 e64 smb old new net emap i32 i64 (first load tag)
  | _ => m
  end.

Section Information.
Context `{A : Arch} (mb2_tagptr : Z) (info : bytes).

(** [n] bytes at address [a] *)
Definition read_mem (n a : Z) : option Z := le_at n info (a - mb2_tagptr).

Fixpoint parse_tags (fuel : nat) (m : Mb2) (tag : Z) : option Mb2 :=
  match fuel with
  | O => None
  | S fuel =>
      type ← read_mem 4 tag;
      if type =? MULTIBOOT_TAG_TYPE_END then Some m
      else
        size ← read_mem 4 (tag + 4);
        parse_tags fuel (handle_tag m type tag) (wrap size_bits (tag + Z.land (size +[32] 7) (wrap 32 (Z.lnot 7))))
  end.

Definition multiboot2_is_efi_boot (m : Mb2) : bool := negb (mb2_efi32 m =? NULL) || negb (mb2_efi64 m =? NULL).

Definition multiboot2_get_efi_system_table (m : Mb2) : option Z :=
  if negb (mb2_efi64 m =? NULL) then wrap size_bits <$> read_mem 8 (mb2_efi64 m + 8)
  else if negb (mb2_efi32 m =? NULL) then read_mem 4 (mb2_efi32 m + 8)
  else Some NULL.

Definition multiboot2_get_efi_image_handle (m : Mb2) : option Z :=
  if negb (mb2_efi64_ih m =? NULL) then wrap size_bits <$> read_mem 8 (mb2_efi64_ih m + 8)
  else if negb (mb2_efi32_ih m =? NULL) then read_mem 4 (mb2_efi32_ih m + 8)
  else Some NULL.

(** The address of the string of a tag, unless the string is empty *)
Definition string_of_tag (tag : Z) : option Z :=
  if tag =? NULL then Some NULL else c ← read_mem 1 (tag + 8); Some (if c =? 0 then NULL else tag + 8).

Definition multiboot2_get_cmdline (m : Mb2) : option Z := string_of_tag (mb2_cmdline m).
Definition multiboot2_get_bootloader_name (m : Mb2) : option Z := string_of_tag (mb2_bootloader_name m).

(** Each character of [msg] with the attribute 0x1F *)
Fixpoint message_cells (msg : bytes) : bytes := match msg with [] => [] | c :: msg => c :: 0x1F :: message_cells msg end.

Definition missing_message : bytes :=
  [77; 117; 108; 116; 105; 98; 111; 111; 116; 50; 32; 116; 97; 103; 115; 32; 97; 114; 101; 32; 109; 105; 115; 115; 105; 110; 103; 32;
   114; 101; 113; 117; 105; 114; 101; 100; 32; 105; 110; 102; 111; 114; 109; 97; 116; 105; 111; 110; 33].

(** The command line is read for a log message. *)
Definition multiboot2_parse (fuel : nat) (b : Boot) : option Boot :=
  m ← parse_tags fuel (boot_tags b) (mb2_tagptr +[32] 8);
  let msg := if (mb2_framebuffer m =? NULL) || (mb2_cmdline m =? NULL) then Some (message_cells missing_message) else boot_message b in
  _ ← multiboot2_get_cmdline m;
  if multiboot2_is_efi_boot m
  then h ← multiboot2_get_efi_image_handle m; t ← multiboot2_get_efi_system_table m; Some (mkBoot m msg true h t)
  else Some (mkBoot m msg false (efi_image_handle b) (efi_system_table b)).

End Information.
