(* ===== verification/Multiboot2Spec.v ===== *)
(** * Boot information, proved

    What a boot loader writes, and that the pointers lead to it. *)

From S2P Require Import Prelude Bytes Multiboot2.

(** ** Tags as bytes *)

Definition padding (n : Z) : Z := (- n) mod 8.

(** A tag of type [t.1] with the contents [t.2] *)
Definition tag_head (t : Z * bytes) : bytes := le_bytes 4 t.1 ++ le_bytes 4 (8 + zlen t.2) ++ t.2.
Definition tag_bytes (t : Z * bytes) : bytes := tag_head t ++ zeros (padding (8 + zlen t.2)).
Definition end_tag : bytes := le_bytes 4 0 ++ le_bytes 4 8.
Definition info_bytes (total : Z) (tags : list (Z * bytes)) : bytes := le_bytes 4 total ++ zeros 4 ++ concat (tag_bytes <$> tags) ++ end_tag.

(** The contents of the first tag of type [k] *)
Fixpoint payload (k : Z) (tags : list (Z * bytes)) : option bytes :=
  match tags with [] => None | (ty, p) :: tags => if ty =? k then Some p else payload k tags end.

(** The types that are kept, and their pointers *)
Definition kept (k : Z) : bool := (1 <=? k) && (k <=? 21) && negb (k =? 18).

Definition pointer (m : Mb2) (k : Z) : Z :=
  match k with
  | 1 => mb2_cmdline m | 2 => mb2_bootloader_name m | 3 => mb2_module m | 4 => mb2_basic_meminfo m | 5 => mb2_bootdev m | 6 => mb2_mmap m
  | 7 => mb2_vbe m | 8 => mb2_framebuffer m | 9 => mb2_elf_sections m | 10 => mb2_apm m | 11 => mb2_efi32 m | 12 => mb2_efi64 m | 13 => mb2_smbios m
  | 14 => mb2_acpi_old m | 15 => mb2_acpi_new m | 16 => mb2_network m | 17 => mb2_efi_mmap m | 19 => mb2_efi32_ih m | 20 => mb2_efi64_ih m
  | 21 => mb2_load_base_addr m | _ => NULL
  end.

Lemma handle_pointer m ty tag k : kept k = true -> pointer (handle_tag m ty tag) k = if ty =? k then first (pointer m k) tag else pointer m k.
Proof.
  intros Hk. destruct m, k as [|k|k]; try discriminate Hk. do 5 (try destruct k as [k|k|]); try discriminate Hk; clear Hk;
    (destruct ty as [|t|t]; [reflexivity| |reflexivity]; do 5 (try destruct t as [t|t|]); reflexivity).
Qed.

Lemma first_first x y z : first (first x y) z = first x (first y z).
Proof. unfold first. destruct (Z.eqb_spec x NULL) as [->|Hx]; [done|]. destruct (Z.eqb_spec x NULL); done. Qed.

(** ** The walk over the tags *)

Section Walk.
Context `{A : Arch} (base : Z).

(** The address of the first tag of type [k] among those from address [a] on *)
Fixpoint tag_address (k a : Z) (tags : list (Z * bytes)) : Z :=
  match tags with [] => NULL | t :: tags => if t.1 =? k then a else tag_address k (a + zlen (tag_bytes t)) tags end.

Definition tag_ok (t : Z * bytes) : Prop := 0 < t.1 < 2 ^ 32 /\ zlen t.2 + 16 < 2 ^ 32.

Lemma zlen_head t : zlen (tag_head t) = 8 + zlen t.2.
Proof. unfold tag_head. rewrite !zlen_app, !zlen_le_bytes. lia. Qed.

Lemma next_tag t : tag_ok t -> zlen (tag_bytes t) = Z.land (8 + zlen t.2 +[32] 7) (wrap 32 (Z.lnot 7)).
Proof.
  intros [_ Hp]. unfold tag_bytes, padding. rewrite zlen_app, zlen_head, zlen_zeros. pose proof (zlen_nonneg t.2). set (n := 8 + zlen t.2) in *.
  rewrite Z.max_r by (apply Z.mod_pos_bound; lia). replace (n +[32] 7) with (n + 7) by (unfold wrap; rewrite Z.mod_small; lia).
  rewrite (land_align_down 32 3) by lia. change (2 ^ 3) with 8. Z.to_euclidean_division_equations. lia.
Qed.

Lemma zlen_tag t : 8 + zlen t.2 <= zlen (tag_bytes t).
Proof. unfold tag_bytes. rewrite zlen_app, zlen_head. pose proof (zlen_nonneg (zeros (padding (8 + zlen t.2)))). lia. Qed.

(** A word after [pre] *)
Lemma read_field pre c v a : a = base + zlen pre -> 0 <= v < 2 ^ 32 -> read_mem base (pre ++ le_bytes 4 v ++ c) 4 a = Some v.
Proof.
  intros -> Hv. unfold read_mem, le_at. replace (base + zlen pre - base) with (zlen pre) by lia. change 4 with (Z.of_nat 4) at 1. rewrite <- (zlen_le_bytes 4 v), sub_bytes_app. cbn [mbind option_bind].
  by rewrite le_le_bytes, Z.mod_small.
Qed.

Lemma parse_tags_ok (tags : list (Z * bytes)) : forall m pre, 0 < base + zlen pre -> Forall tag_ok tags -> let info := pre ++ concat (tag_bytes <$> tags) ++ end_tag in
  base + zlen info < 2 ^ 32 ->
  exists m', parse_tags base info (S (length tags)) m (base + zlen pre) = Some m' /\
    forall k, kept k = true -> pointer m' k = first (pointer m k) (tag_address k (base + zlen pre) tags).
Proof.
  induction tags as [|t tags IH]; intros m pre Hpos Hok info Hfit.
  - exists m. split.
    + cbn [parse_tags length]. unfold info. cbn [fmap list_fmap concat app]. unfold end_tag. rewrite (read_field pre _ 0 (base + zlen pre)) by (done || lia). done.
    + intros k _. cbn. unfold first. by destruct (Z.eqb_spec (pointer m k) NULL) as [->|].
  - apply Forall_cons in Hok as [Ht Hok]. pose proof Ht as [Hty Hsz]. pose proof (zlen_nonneg t.2).
    assert (info = (pre ++ tag_bytes t) ++ concat (tag_bytes <$> tags) ++ end_tag) as Ei by (unfold info; rewrite fmap_cons; cbn [concat]; by rewrite <- !app_assoc).
    destruct (IH (handle_tag m t.1 (base + zlen pre)) (pre ++ tag_bytes t)) as (m' & E & Hm'); [rewrite zlen_app; pose proof (zlen_tag t); lia|done|by rewrite <- Ei|].
    rewrite <- Ei, zlen_app in E. rewrite zlen_app in Hm'. exists m'. split.
    + change (length (t :: tags)) with (S (length tags)). set (n := S (length tags)) in *. cbn [parse_tags].
      set (rest := zeros (padding (8 + zlen t.2)) ++ concat (tag_bytes <$> tags) ++ end_tag).
      assert (info = pre ++ le_bytes 4 t.1 ++ le_bytes 4 (8 + zlen t.2) ++ t.2 ++ rest) as E1 by (rewrite Ei; unfold tag_bytes, tag_head, rest; by rewrite <- !app_assoc).
      assert (info = (pre ++ le_bytes 4 t.1) ++ le_bytes 4 (8 + zlen t.2) ++ t.2 ++ rest) as E2 by (rewrite E1; by rewrite <- !app_assoc).
      rewrite E1 at 1. rewrite (read_field _ _ t.1 (base + zlen pre)) by (done || lia). cbn [mbind option_bind]. destruct (Z.eqb_spec t.1 MULTIBOOT_TAG_TYPE_END); [unfold MULTIBOOT_TAG_TYPE_END in *; lia|].
      rewrite E2 at 1. rewrite (read_field _ _ (8 + zlen t.2) (base + zlen pre + 4)) by (done || (rewrite zlen_app, zlen_le_bytes; lia) || lia). cbn [mbind option_bind].
      rewrite <- (next_tag t Ht), wrap_size, <- Z.add_assoc; [exact E|]. pose proof (zlen_tag t). assert (zlen info = zlen pre + zlen (tag_bytes t) + zlen (concat (tag_bytes <$> tags) ++ end_tag)) by (rewrite Ei, !zlen_app; lia).
      pose proof (zlen_nonneg (concat (tag_bytes <$> tags) ++ end_tag)). lia.
    + intros k Hk. rewrite Hm', handle_pointer by done. cbn [tag_address]. destruct (t.1 =? k).
      * unfold first. destruct (Z.eqb_spec (pointer m k) NULL); [|by destruct (Z.eqb_spec (pointer m k) NULL)]. by destruct (Z.eqb_spec (base + zlen pre) NULL); [unfold NULL in *; lia|].
      * by rewrite Z.add_assoc.
Qed.

Lemma tag_found k p (tags : list (Z * bytes)) : forall pre, payload k tags = Some p -> exists pre' rest,
  pre ++ concat (tag_bytes <$> tags) ++ end_tag = pre' ++ tag_head (k, p) ++ rest /\ tag_address k (base + zlen pre) tags = base + zlen pre' /\ zlen pre <= zlen pre'.
Proof.
  induction tags as [|[ty q] tags IH]; intros pre; [done|]. cbn [payload tag_address fst]. rewrite fmap_cons. cbn [concat]. destruct (Z.eqb_spec ty k) as [->|].
  - intros [= ->]. exists pre, (zeros (padding (8 + zlen p)) ++ concat (tag_bytes <$> tags) ++ end_tag). split_and!; [|done|lia]. unfold tag_bytes at 1. cbn [snd]. by rewrite <- !app_assoc.
  - intros H. destruct (IH (pre ++ tag_bytes (ty, q)) H) as (pre' & rest & E & Ea & Hle). exists pre', rest. split_and!.
    + rewrite <- E. by rewrite <- !app_assoc.
    + rewrite <- Ea, zlen_app. f_equal. lia.
    + rewrite zlen_app in Hle. pose proof (zlen_tag (ty, q)). pose proof (zlen_nonneg q). cbn [snd] in *. lia.
Qed.

Lemma tag_missing k (tags : list (Z * bytes)) : forall a, payload k tags = None -> tag_address k a tags = NULL.
Proof. induction tags as [|[ty q] tags IH]; intros a; [done|]. cbn [payload tag_address fst]. destruct (ty =? k); [done|]. apply IH. Qed.

(** ** What the kernel knows afterwards *)

(** The fields that are read are there. *)
Definition contents_ok (t : Z * bytes) : Prop :=
  (t.1 = 1 -> 1 <= zlen t.2) /\ (t.1 = 11 \/ t.1 = 19 -> 4 <= zlen t.2) /\ (t.1 = 12 \/ t.1 = 20 -> 8 <= zlen t.2).

(** The address in a tag of type [k64] or else of type [k32] *)
Definition efi_pointer (k64 k32 : Z) (tags : list (Z * bytes)) : Z :=
  match payload k64 tags, payload k32 tags with
  | Some p, _ => wrap size_bits (le (take 8 p))
  | None, Some p => le (take 4 p)
  | None, None => NULL
  end.

Definition points_to (info : bytes) (a k : Z) (p : option bytes) : Prop :=
  match p with None => a = NULL | Some p => a <> NULL /\ sub_bytes info (a - base) (8 + zlen p) = Some (tag_head (k, p)) end.

Lemma payload_in k p tags : payload k tags = Some p -> (k, p) ∈ tags.
Proof. induction tags as [|[ty q] tags IH]; cbn [payload]; [done|]. destruct (Z.eqb_spec ty k) as [->|]; [intros [= ->]|]; set_solver. Qed.

(** A field of [n] bytes at the start of the contents *)
Lemma read_contents info a k p n : points_to info a k (Some p) -> 0 <= n <= zlen p -> read_mem base info n (a + 8) = Some (le (take (Z.to_nat n) p)).
Proof.
  intros [_ H] Hn. unfold read_mem, le_at. destruct (sub_bytes_spec _ _ _ _ H) as (H1 & H2 & H3 & _ & E). rewrite sub_bytes_ok by lia. cbn [mbind option_bind]. do 2 f_equal.
  replace (Z.to_nat (a + 8 - base)) with (Z.to_nat (a - base) + 8)%nat by lia. rewrite <- drop_drop.
  set (q := drop 8 (drop (Z.to_nat (a - base)) info)). assert (take (Z.to_nat (zlen p)) q = p) as Ep.
  { unfold q. rewrite take_drop_commute. replace (8 + Z.to_nat (zlen p))%nat with (Z.to_nat (8 + zlen p)) by (pose proof (zlen_nonneg p); lia).
    rewrite <- E. unfold tag_head. by rewrite app_assoc, drop_app_length'. }
  transitivity (take (Z.to_nat n) (take (Z.to_nat (zlen p)) q)); [by rewrite take_take, Nat.min_l by lia|by rewrite Ep].
Qed.

Lemma points_null info a k p : points_to info a k p -> (a =? NULL) = match p with None => true | Some _ => false end.
Proof. destruct p; cbn; intros H; destruct (Z.eqb_spec a NULL); (done || by destruct H). Qed.

Lemma efi_pointer_read info (a64 a32 k64 k32 : Z) tags : Forall contents_ok tags -> (k64 = 12 \/ k64 = 20) -> (k32 = 11 \/ k32 = 19) ->
  points_to info a64 k64 (payload k64 tags) -> points_to info a32 k32 (payload k32 tags) ->
  (if negb (a64 =? NULL) then wrap size_bits <$> read_mem base info 8 (a64 + 8) else if negb (a32 =? NULL) then read_mem base info 4 (a32 + 8) else Some NULL) = Some (efi_pointer k64 k32 tags).
Proof.
  intros Hc H64 H32 P64 P32. rewrite Forall_forall in Hc. rewrite (points_null _ _ _ _ P64), (points_null _ _ _ _ P32). unfold efi_pointer.
  destruct (payload k64 tags) as [p|] eqn:E64; cbn [negb]; [|destruct (payload k32 tags) as [p|] eqn:E32; [|done]; cbn [negb]].
  - destruct (Hc _ (payload_in _ _ _ E64)) as (_ & _ & H). specialize (H H64). cbn in H. by rewrite (read_contents _ _ _ _ 8 P64) by lia.
  - destruct (Hc _ (payload_in _ _ _ E32)) as (_ & H & _). specialize (H H32). cbn in H. by rewrite (read_contents _ _ _ _ 4 P32) by lia.
Qed.

Lemma cmdline_read info m tags : Forall contents_ok tags -> points_to info (mb2_cmdline m) 1 (payload 1 tags) -> is_Some (multiboot2_get_cmdline base info m).
Proof.
  intros Hc P. unfold multiboot2_get_cmdline, string_of_tag. rewrite (points_null _ _ _ _ P). destruct (payload 1 tags) as [p|] eqn:E; [|done].
  rewrite Forall_forall in Hc. destruct (Hc _ (payload_in _ _ _ E)) as (H & _). specialize (H eq_refl). cbn in H. rewrite (read_contents _ _ _ _ 1 P) by lia. by eexists.
Qed.

(** C40.  The boot information is understood: for every list of tags as a boot
    loader lays them out, the walk ends at the end tag, the pointer of every
    known type leads to the first tag of that type, with its whole contents,
    or is null if there is none, the message appears exactly if the frame
    buffer or the command line is missing, and the EFI handles are those of
    the tags, the 64-bit ones preferred. *)
Theorem multiboot2_parse_spec (total : Z) (tags : list (Z * bytes)) (info := info_bytes total tags) :
  0 <= base -> base + zlen info < 2 ^ 32 -> Forall tag_ok tags -> Forall contents_ok tags ->
  exists m, multiboot2_parse base info (S (length tags)) boot0 =
    Some (mkBoot m (match payload 8 tags, payload 1 tags with Some _, Some _ => None | _, _ => Some (message_cells missing_message) end)
            (match payload 11 tags, payload 12 tags with None, None => false | _, _ => true end)
            (match payload 11 tags, payload 12 tags with None, None => NULL | _, _ => efi_pointer 20 19 tags end)
            (match payload 11 tags, payload 12 tags with None, None => NULL | _, _ => efi_pointer 12 11 tags end)) /\
    forall k, kept k = true -> points_to info (pointer m k) k (payload k tags).
Proof.
  intros Hb Hfit Hok Hc. set (pre := le_bytes 4 total ++ zeros 4). assert (zlen pre = 8) as Hpre by (unfold pre; by rewrite zlen_app, zlen_le_bytes, zlen_zeros).
  assert (info = pre ++ concat (tag_bytes <$> tags) ++ end_tag) as Ei by (unfold info, info_bytes, pre; by rewrite <- app_assoc).
  destruct (parse_tags_ok tags no_tags pre) as (m & E & Hm); [lia|done|by rewrite <- Ei|]. rewrite <- Ei, Hpre in E. rewrite Hpre in Hm. exists m.
  assert (forall k, kept k = true -> points_to info (pointer m k) k (payload k tags)) as Hp.
  { intros k Hk. rewrite Hm by done. replace (pointer no_tags k) with NULL by (destruct k as [|k|k]; [done| |done]; do 5 (try destruct k as [k|k|]); done). change (first NULL ?x) with x.
    destruct (payload k tags) as [p|] eqn:Ep; [|by apply tag_missing]. destruct (tag_found k p tags pre Ep) as (pre' & rest & E1 & E2 & Hle). rewrite Hpre in E2, Hle. rewrite <- Ei in E1. rewrite E2.
    pose proof (zlen_nonneg p). split; [unfold NULL; lia|]. replace (base + zlen pre' - base) with (zlen pre') by lia. change (8 + zlen p) with (8 + zlen (k, p).2). by rewrite <- zlen_head, E1, sub_bytes_app. }
  split; [|done]. unfold multiboot2_parse. rewrite wrap_small by (rewrite Ei, zlen_app in Hfit; pose proof (zlen_nonneg (concat (tag_bytes <$> tags) ++ end_tag)); lia). cbn [boot_tags boot0]. rewrite E. cbn [mbind option_bind].
  destruct (cmdline_read info m tags Hc (Hp 1 eq_refl)) as [c Ec]. rewrite Ec. cbn [mbind option_bind].
  unfold multiboot2_is_efi_boot, multiboot2_get_efi_image_handle, multiboot2_get_efi_system_table.
  rewrite (efi_pointer_read info (mb2_efi64_ih m) (mb2_efi32_ih m) 20 19 tags Hc (or_intror eq_refl) (or_intror eq_refl) (Hp 20 eq_refl) (Hp 19 eq_refl)).
  rewrite (efi_pointer_read info (mb2_efi64 m) (mb2_efi32 m) 12 11 tags Hc (or_introl eq_refl) (or_introl eq_refl) (Hp 12 eq_refl) (Hp 11 eq_refl)).
  rewrite (points_null _ (mb2_framebuffer m) _ _ (Hp 8 eq_refl)), (points_null _ (mb2_cmdline m) _ _ (Hp 1 eq_refl)), (points_null _ (mb2_efi32 m) _ _ (Hp 11 eq_refl)), (points_null _ (mb2_efi64 m) _ _ (Hp 12 eq_refl)).
  by destruct (payload 8 tags), (payload 1 tags), (payload 11 tags), (payload 12 tags).
Qed.

End Walk.

(** ** An example *)

Module Grub.

#[local] Instance amd64 : Arch := AMD64.

(** A command line, a frame buffer, the EFI system table and a second command line *)
Definition grub_tags : list (Z * bytes) := [(1, [113; 0]); (8, zeros 24); (12, le_bytes 8 0x123456789A); (1, [0]); (99, [])].

Lemma multiboot2_parse_spec_witness : exists m, multiboot2_parse 0x10000 (info_bytes 96 grub_tags) 6 boot0 =
    Some (mkBoot m None true NULL 0x123456789A) /\ forall k, kept k = true -> points_to 0x10000 (info_bytes 96 grub_tags) (pointer m k) k (payload k grub_tags).
Proof.
  destruct (multiboot2_parse_spec 0x10000 96 grub_tags) as (m & E & H); [lia|vm_compute; reflexivity| | |].
  - repeat constructor; vm_compute; done.
  - repeat constructor; cbn; try (intros; vm_compute; discriminate); intros [H|H]; discriminate H.
  - exists m. split; [|exact H]. etransitivity; [exact E|vm_compute; reflexivity].
Defined.

End Grub.
